(* ===== verification/_CoqProject ===== *)
-Q . S2P
Prelude.v
SortedMap.v
Encoding.v
Version.v
Separated.v
HistoryKeys.v
PvtKeys.v
StateDB.v
Proto.v
Rwset.v
RwsetBuilder.v
Merkle.v
LevelDB.v
StateLevelDB.v
PrivState.v
CombinedIterator.v
RangeQuery.v
TxOps.v
SparseTypes.v
Validator.v
LiteRwset.v
LiteValidator.v
Block.v
BlockVerify.v
LeanEnvelope.v
BatchPreparer.v
OrdererMVCC.v
SparseBlocks.v
OrgChain.v
OrgProgress.v
Batching.v
Policies.v
PayloadsBuffer.v
BlockSerial.v
BlockFiles.v
BlockIndex.v
BlockStore.v
BlockRecovery.v
BlockServe.v
BlockRollback.v
BlockSafety.v
ConfigTree.v
ConfigUpdate.v
ConfigSafety.v
PolicyManagers.v
ConfigCompute.v
ConfigSamples.v
Simulator.v
MerkleBinding.v
SimulatorRuns.v
Serializability.v
ReadOnly.v
HistoryDB.v
Recommit.v
LedgerRecovery.v
HashCheck.v
Reconcile.v
