(* ===== verification/Prelude.v ===== *)
(** * Verification of the Drunix ledger and ordering core

  Drunix is a permissioned blockchain derived from Hyperledger Fabric. Clients
  send endorsed transactions to an orderer. The orderer puts them into batches,
  the leader of its Raft cluster makes a chain of blocks of the batches, and
  every orderer cuts each block of that chain (the fat block) into one block per
  organisation, so that a peer receives only what concerns its organisation. A
  peer verifies the blocks it receives, validates their transactions against
  its state (multi-version concurrency control, MVCC) and applies the writes of
  the valid ones to its state database. This development models that path from
  the block cutter of the orderer to the state database of the peer, as
  functions translated from the Go source under src/, and proves what each part
  promises and how the parts fit together.

  ** How Go is represented

  A function that can fail returns [res] (this file): [Ok], [Err] for a
  returned error, [Panic] for a run-time panic, a failed dereference or an
  explicit panic. Strings and byte slices are [bytes]; a pointer or slice whose
  nil value matters is an [option]; a map is a [gmap], and a loop over a map is
  a fold over its bindings, with theorems that do not depend on the order.
  Integers are [Z], and the wrap-around of [uint32] and [uint64] is written out
  ([u32], [u64]) where it can be reached. State that the code changes in place
  is passed and returned. Goroutines that share state are machines with one
  event per atomic step, and the theorems quantify over all sequences of events.

  Code that is not in the repository is a parameter with laws: protobuf, SHA-256
  and goleveldb (Proto, LevelDB), the membership service (Policies), fastcache
  (OrgChain). The laws state documented behaviour, and each has an instance. A
  theorem about such a parameter has a witness with a concrete instance. Parts
  of the repository that are not modelled but called are parameters in the same
  way (the message processor of a channel, the signer, the reader of the fat
  chain).

  ** Files, by component

  Foundations.
  - Prelude: results and their tactics, machine integers, bytes and their
    order, lists of bindings.
  - SortedMap (core/ledger/util/util.go), Encoding (common/ledger/util/util.go
    and varints), Separated (Go's bytes package), Version
    (core/ledger/internal/version).
  - Proto: codecs and hashes as classes with laws.

  Keys of the ledger databases.
  - HistoryKeys (kvledger/history/kv_encoding.go), PvtKeys
    (pvtdatastorage/kv_encoding.go): round trips, order and exactness of every
    range scan.

  State of a peer (core/ledger/kvledger/txmgmt).
  - StateDB (statedb/statedb.go): batches and their iterators, and the interface
    [VersionedDB] with its laws.
  - LevelDB (common/ledger/util/leveldbhelper), StateLevelDB
    (statedb/stateleveldb): named databases do not interfere, and the LevelDB
    state database implements the interface; the version store of the orderer
    is here as well.
  - PrivState (privacyenabledstate): public, hashed and private data in derived
    namespaces of one database.

  Read-write sets (rwsetutil).
  - Rwset, RwsetBuilder, Merkle: messages, conversions and their round trip, the
    recorder of a simulation, the incremental Merkle summary of range queries
    and its equivalence with the tree built level by level.
  - LiteRwset (protoutil/liteutils.go): the lite format and what the conversion
    to it keeps.

  Simulation of a transaction (core/ledger/kvledger/txmgmt/txmgr).
  - Simulator (query_executor.go, tx_simulator.go, collection_val.go): the operations
    that a chaincode can call and the read-write set they record; a chaincode is
    any program over these operations.
  - SimulatorRuns: two runs of a program, on states that agree on what the first
    run read, do the same.
  - MerkleBinding: the summary of a range query determines its results, up to
    hash collisions.

  Validation of a block (txmgmt/validation).
  - CombinedIterator, RangeQuery, TxOps, Validator: phantom checks, the effect
    of write sets, and the validation of a block, which refines a serial
    execution of its transactions.
  - LiteValidator: the same on lite blocks, equivalent to the ordinary one.
  - BatchPreparer: from a block as it arrives to the batch that is applied, with
    the private data that is supplied for it.
  - Serializability, ReadOnly: simulation and validation together.
  - Recommit: preparing a stored block a second time, after a crash.

  History and recovery (core/ledger/kvledger).
  - HistoryDB (history/db.go, query_executer.go): the history database and the
    query of the history of a key.
  - LedgerRecovery (recovery.go and the recovery of kv_ledger.go): the databases
    of a ledger are brought up to its block store; the class [recoverable] is the
    interface, and the history database implements it.

  Blocks (protoutil, internal/peer/gossip, orderer/common/cluster).
  - Block, LeanEnvelope: messages, helpers, header hashes, lean envelopes.
  - BlockVerify: the verification of a block by a peer and of a sequence of
    blocks by an orderer, and what a verified chain determines.
  - Policies (common/cauthdsl, common/policies): the evaluation of signature
    policies and of implicit meta policies.
  - PayloadsBuffer (gossip/state): the buffer that puts arriving blocks in order.

  Ordering.
  - Batching (orderer/common/blockcutter, orderer/consensus/etcdraft): the block
    cutter, the batcher of every orderer and the leader that makes blocks.
  - OrdererMVCC (statedb/ordererstatedb, common/sparseblocks): the version check
    of the orderer.
  - SparseTypes, SparseBlocks (common/sparseblocks/sparseblockgenerator.go): the
    blocks of the organisations made of a fat block.
  - OrgChain (sparseblockchain.go, sparseblockgenerator.go): the chains of the
    organisations over any number of fat blocks, their storage, retrieval and
    delivery.
  - OrgProgress: what a fat block must satisfy to be processed, and that an
    orderer then catches up with the ledger.

  Block storage (common/ledger/blkstorage).
  - BlockSerial (block_serialization.go): the bytes of a block.
  - BlockFiles (blockfile_rw.go, block_stream.go, blockfile_helper.go): the files
    that hold the blocks, and what can be read of a directory whose last file
    ends in a block that was cut short.
  - BlockIndex (blockindex.go): the entries of a block in the index database and
    the lookups.
  - BlockStore (blockfile_mgr.go): adding and retrieving blocks, and the start
    with its recovery; the disk of a ledger, with the writes in their order.
  - BlockRollback (rollback.go, reset.go): going back to an earlier block.
  - BlockRecovery, BlockServe, BlockSafety: the invariant of the files and the
    index, what a store serves, and the histories of a ledger with crashes.

  Channel configuration (common/configtx, common/policies, configtxlator).
  - ConfigTree (configmap.go, compare.go): configuration trees, the map of their
    elements and the way back.
  - ConfigUpdate (update.go, validator.go): the validator of a channel;
    ConfigSafety: what its accepted updates can do.
  - PolicyManagers (policies/policy.go, implicitmeta.go): the managers made of a
    tree, which implement the interface that the validator uses.
  - ConfigCompute (configtxlator/update/update.go): the update that leads from one
    configuration to another. ConfigSamples: a sample of all of these.

  ** What the theorems show

  - Validation: the verdicts and updates of a block are those of executing its
    transactions one after the other, each valid one on the state its
    predecessors left (Validator, TxOps); range queries are accepted exactly
    when their results are unchanged; lite blocks get the same outcome
    (LiteValidator); private data is written only if it matches the hash in the
    transaction (BatchPreparer).
  - Simulation: a transaction that is simulated on an old state and found valid
    later has the read-write set that simulating it on the state of its own
    position gives, for every chaincode that uses the validated operations
    (Serializability); a transaction that used an operation whose results are
    not validated writes nothing (ReadOnly).
  - State: the LevelDB database with private data refines an abstract state from
    namespaces and keys to versioned values (StateLevelDB, PrivState, LevelDB).
  - Block storage: for every history of starts, additions, failed writes,
    crashes in the middle of any write, rollbacks and resets, the store serves
    the acknowledged blocks by number, hash, transaction ID and position, starts
    again, and takes the next block (BlockSafety); blocks survive their
    serialization (BlockSerial).
  - Recovery: opening a ledger after a crash commits the lost blocks to each
    database in order (LedgerRecovery), and committing a block again from its
    stored verdicts has the effect of the first commit (Recommit). The history of
    a key is exactly the list of its valid writes (HistoryDB).
  - Ordering: with follower batching every accepted request is in the chain or
    pending, once and in order, for every interleaving of the batcher and the
    leader, and the chain passes verification (Batching); batches respect the
    limits; requests do not wait without a timer.
  - Organisation chains: every transaction reaches the organisations it is sent
    to, with the position it has in the fat block; every chain passes
    verification; its blocks can be retrieved after eviction from the cache and
    are delivered in order (SparseBlocks, OrgChain). An orderer that missed
    blocks processes them before the next one, without a panic and without
    leaving out a transaction, if the blocks are well formed and name known
    organisations only (OrgProgress).
  - Verification: two verified chains with the same last block are equal up to
    hash collisions (BlockVerify); a policy is satisfied by distinct signers only
    (Policies); blocks leave the gossip buffer in order and none is forgotten
    (PayloadsBuffer).
  - Configuration: an accepted update changes only what the signatures allow, by
    the policies that the managers find in the configuration itself; the
    configuration stays well formed, a change cannot be replayed, and validating
    is proposing again (ConfigSafety, PolicyManagers); a computed update leads to
    the wanted configuration (ConfigCompute).
  - Errors: where the code does not do what the surrounding code relies on, a
    theorem or a sample shows it: reads of private keys that the orderer does
    not check, versions of private keys that differ from their hashes, filters
    lost by rebuilt blocks, batches emptied by revalidation, configuration
    requests lost by a leadership transfer, phantoms hidden by the lite format,
    a policy name that makes the lookup panic, range scans that are not covered
    by the recorded range, and others named in the files.

  ** Bounds and fuel

  Structural recursion is used where the code allows it. The other loops take a
  number of steps: the varint loops take ten, one more than nine groups of seven
  bits; the Merkle loops take the number of levels; the combined iterator and
  the loop of the hash validator share the parameter [fuel], and running out of
  it is [Panic]. The theorems about validation state that enough fuel exists for
  every block and database and that any larger amount gives the same result.
  The loops over block files take the size of the files as fuel, since every
  round reads at least one byte; that this is enough is part of the theorems.
  The serialisability theorem takes a transaction as valid when its check succeeds
  for all large enough fuel.
  Rebuilding a configuration tree takes the length of the longest path of its
  map, computing an update the size of the wanted tree; both are shown to be
  enough.
  Numbers of blocks are assumed below 2^64 - 2 where a theorem says so, and
  preferred batch sizes below 2^31.

  ** Not modelled

  - Raft itself (the vendored etcd library), the application of its entries, the
    writing of blocks by orderers and the cluster communication.
  - The iterator that waits for blocks (blkstorage/blocks_itr.go), the private
    data store beyond its keys, the transient store, snapshots, the CouchDB and
    SQL state databases: storage code around files and services. The commit of
    a ledger calls these stores one after the other and is not modelled as a
    whole.
  - The locks of the transaction manager (lockbased_txmgr.go) that keep a commit
    out of a running simulation, and the release of iterators; the chaincode
    runtime, its life cycle and the endorser, which call the simulator.
  - The typed values of the channel configuration (channelconfig, capabilities),
    its generation, and the message processors of the orderer: their outcome is a
    parameter of the ordering model.
  - The membership service and cryptography (msp, bccsp).
  - Gossip communication, membership, election and the exchange of private data;
    delivery services, discovery, gateway, command line tools, operations.
  - Metrics and logging, everywhere. *)

From Corelib Require Export Init.Byte.
From Stdlib Require Import Strings.Byte.
From Stdlib Require String.
Export String.StringSyntax.
From Stdlib Require Import ZArith Lia.
From stdpp Require Export sorting.
From stdpp Require Export base gmap fin_maps numbers option list.
From stdpp Require Import options.

Declare Scope go_scope.
Delimit Scope go_scope with go.
Delimit Scope string_scope with string.
Create HintDb drunix.

(** ** Results of Go functions

    A Go function that returns [(x, error)] returns [Ok x] or [Err msg]; one
    whose body runs into a run-time panic (index out of range, nil
    dereference, an explicit [panic]) returns [Panic]. *)

Inductive res (A : Type) : Type :=
| Ok (a : A)
| Err (msg : String.string)
| Panic.
Arguments Ok {A} a.
Arguments Err {A} msg%_string_scope.
Arguments Panic {A}.

#[export] Instance res_ret : MRet res := λ A a, Ok a.
#[export] Instance res_bind : MBind res := λ A B f m,
  match m with Ok a => f a | Err e => Err e | Panic => Panic end.
#[export] Instance res_fmap : FMap res := λ A B f m,
  match m with Ok a => Ok (f a) | Err e => Err e | Panic => Panic end.

Definition is_ok {A} (m : res A) : bool :=
  match m with Ok _ => true | _ => false end.
(** The value of a computation that succeeds. *)
Definition result {A} (m : res A) (default : A) : A :=
  match m with Ok a => a | _ => default end.
Lemma result_Ok {A} (m : res A) default : is_ok m = true → m = Ok (result m default).
Proof. by destruct m. Qed.

(** A Go slice or array access [l[i]]. *)
Definition index {A} (l : list A) (i : nat) : res A :=
  match l !! i with Some a => Ok a | None => Panic end.

(** The dereference of a Go pointer. *)
Definition deref {A} (p : option A) : res A :=
  match p with Some a => Ok a | None => Panic end.

(** A Go [for _, x := range l] loop whose body threads a state and may return
    early with an error. *)
Fixpoint foldM {A S} (f : S → A → res S) (s : S) (l : list A) : res S :=
  match l with
  | [] => Ok s
  | x :: l => s' ← f s x; foldM f s' l
  end.

(** A Go loop [for _, x := range l { if valid, err := f(x); !valid || err != nil
    { return valid, err } }; return true, nil]. *)
Fixpoint allM {A} (f : A → res bool) (l : list A) : res bool :=
  match l with
  | [] => Ok true
  | x :: l => v ← f x; if (v : bool) then allM f l else Ok false
  end.

Lemma bind_Ok {A B} (m : res A) (f : A → res B) b :
  m ≫= f = Ok b ↔ ∃ a, m = Ok a ∧ f a = Ok b.
Proof.
  destruct m; simpl; (split; [intros; simplify_eq; eauto|]);
    intros (a' & Ha & ?); by inversion Ha; subst.
Qed.

Lemma foldM_app {A S} (f : S → A → res S) s l1 l2 :
  foldM f s (l1 ++ l2) = s' ← foldM f s l1; foldM f s' l2.
Proof. revert s; induction l1 as [|x l1 IH]; intros s; simpl; [done|]. destruct (f s x); simpl; auto. Qed.

Lemma foldM_bind {A B S} (f : S → B → res S) (h : A → list B) s l :
  foldM (λ s x, foldM f s (h x)) s l = foldM f s (l ≫= h).
Proof.
  revert s. induction l as [|x l IH]; intros s; simpl; [done|].
  rewrite foldM_app. destruct (foldM f s (h x)); simpl; auto.
Qed.

Lemma foldM_fmap {A B S} (f : S → B → res S) (h : A → B) s l :
  foldM f s (h <$> l) = foldM (λ s x, f s (h x)) s l.
Proof.
  revert s. induction l as [|x l IH]; intros s; simpl; [done|]. destruct (f s (h x)); simpl; auto.
Qed.

Lemma foldM_ext {A S} (f g : S → A → res S) s l :
  (∀ s x, x ∈ l → f s x = g s x) → foldM f s l = foldM g s l.
Proof.
  revert s. induction l as [|x l IH]; intros s Hfg; simpl; [done|].
  rewrite (Hfg s x) by set_solver. destruct (g s x); simpl; [|done..]. apply IH. set_solver.
Qed.

Lemma foldM_invariant {A S} (P : S → Prop) (f : S → A → res S) s l s' :
  P s → (∀ s x s'', P s → x ∈ l → f s x = Ok s'' → P s'') →
  foldM f s l = Ok s' → P s'.
Proof.
  revert s; induction l as [|x l IH]; simpl; intros s HP Hstep Heq; [naive_solver|].
  apply bind_Ok in Heq as (s1 & Hf & Hrest).
  apply (IH s1); [eapply Hstep; eauto; set_solver| |done].
  intros; eapply Hstep; eauto; set_solver.
Qed.

Lemma allM_true {A} (f : A → res bool) l :
  allM f l = Ok true ↔ Forall (λ x, f x = Ok true) l.
Proof.
  induction l as [|x l IH]; simpl; [split; auto|].
  rewrite Forall_cons, <-IH.
  destruct (f x) as [[]| |]; simpl; naive_solver.
Qed.

Lemma deref_Ok {A} (p : option A) a : deref p = Ok a ↔ p = Some a.
Proof. destruct p; naive_solver. Qed.

Lemma mapM_Ok {A B} (f : A → res B) l k :
  mapM f l = Ok k ↔ Forall2 (λ x y, f x = Ok y) l k.
Proof.
  revert k. induction l as [|x l IH]; intros k; simpl.
  - split; [by intros [= <-]|]. by inversion 1.
  - rewrite bind_Ok. setoid_rewrite bind_Ok. split.
    + intros (y & Hy & k' & Hk & [= <-]). constructor; [done|]. by apply IH.
    + inversion 1; simplify_eq. eexists; split; [done|]. eexists; split; [by apply IH|done].
Qed.

Lemma mapM_roundtrip {A B} (to : A → res B) (from : B → res A) l k :
  mapM to l = Ok k → (∀ a b, a ∈ l → to a = Ok b → from b = Ok a) → mapM from k = Ok l.
Proof.
  rewrite !mapM_Ok. induction 1 as [|a b l k Hab Hlk IH]; intros Hrt; constructor.
  - apply Hrt; set_solver.
  - apply IH. intros; apply Hrt; set_solver.
Qed.

Lemma foldM_elem {A S} (f : S → A → res S) (x : A) l : ∀ s s', foldM f s l = Ok s' → x ∈ l → ∃ s1 s2, f s1 x = Ok s2.
Proof.
  induction l as [|y l IH]; intros s s' Hf Hin; [by apply not_elem_of_nil in Hin|].
  apply bind_Ok in Hf as (s1 & Hy & Hf). apply elem_of_cons in Hin as [->|Hin]; [by eauto|]. by eapply IH.
Qed.
Lemma allM_ext {A} (f g : A → res bool) l : Forall (λ x, f x = g x) l → allM f l = allM g l.
Proof. induction 1 as [|x l Hx _ IH]; simpl; [done|]. by rewrite Hx, IH. Qed.
Lemma allM_fmap {A B} (f : B → res bool) (g : A → B) (l : list A) : allM f (g <$> l) = allM (λ x, f (g x)) l.
Proof. induction l as [|x l IH]; csimpl; [done|]. by rewrite IH. Qed.

Lemma mapM_map {A B} (f : A → res B) (g : A → B) (l : list A) : Forall (λ x, f x = Ok (g x)) l → mapM f l = Ok (g <$> l).
Proof. induction 1 as [|x l Hx _ IH]; simpl; [done|]. by rewrite Hx, IH. Qed.
Lemma map_id_ext {A} (f : A → A) (l : list A) : (∀ x, f x = x) → f <$> l = l.
Proof. intros Hf. induction l as [|x l IH]; csimpl; [done|]. by rewrite Hf, IH. Qed.
Lemma mapM_total {A B C} (f : A → res B) (g : B → C) (h : A → C) (l : list A) :
  Forall (λ x, ∃ y, f x = Ok y ∧ g y = h x) l → ∃ k, mapM f l = Ok k ∧ g <$> k = h <$> l.
Proof.
  induction 1 as [|x l (y & Hy & Hg) _ (k & Hk & HL)]; simpl; [by exists []|].
  exists (y :: k). rewrite Hy, Hk. csimpl. by rewrite Hg, HL.
Qed.
Lemma fmap_fixed {A} (f : A → A) (l : list A) : f <$> l = l ↔ Forall (λ x, f x = x) l.
Proof.
  induction l as [|x l IH]; csimpl; [done|]. rewrite Forall_cons, <-IH. split; [by intros [=]|]. by intros [-> ->].
Qed.

Lemma bind_Ok_eq {A B} (a : A) (f : A → res B) : mbind f (Ok a) = f a.
Proof. done. Qed.
Lemma index_0 {A} (x : A) l : index (x :: l) 0 = Ok x.
Proof. done. Qed.
Lemma index_S {A} (x : A) l i : index (x :: l) (S i) = index l i.
Proof. done. Qed.

(** A loop that keeps an invariant and whose steps all succeed from it
    succeeds. *)
Lemma foldM_total {A B} (f : A → B → res A) (P : A → Prop) (l : list B) : ∀ a, P a →
  (∀ a x, x ∈ l → P a → ∃ a', f a x = Ok a' ∧ P a') → ∃ a', foldM f a l = Ok a' ∧ P a'.
Proof.
  induction l as [|x l IH]; intros a Ha Hstep; [by exists a|]. destruct (Hstep a x) as (a1 & Hf & Ha1); [left|done|].
  cbn [foldM]. rewrite Hf, bind_Ok_eq. apply IH; [done|]. intros a' y Hy. apply Hstep. by right.
Qed.

(** Steps of a sequence whose first computations are known. *)
Ltac run := repeat (rewrite bind_Ok_eq || rewrite index_0 || rewrite index_S); cbv beta iota.

(** Case analysis on the sequenced results of a hypothesis [_ = Ok _]. *)
Ltac inv_ok :=
  repeat match goal with
  | H : _ ≫= _ = Ok _ |- _ =>
      let a := fresh "a" in let Ha := fresh "Ha" in
      apply bind_Ok in H as (a & Ha & H)
  | H : Ok _ = Ok _ |- _ => injection H as H
  | H : Err _ = Ok _ |- _ => discriminate H
  | H : Panic = Ok _ |- _ => discriminate H
  end; simplify_eq.

(** ** Machine integers *)

Definition two64 : Z := 18446744073709551616.
Definition two63 : Z := 9223372036854775808.
Definition two32 : Z := 4294967296.
Definition u64 (z : Z) : Z := (z mod two64)%Z.
Definition u32 (z : Z) : Z := (z mod two32)%Z.
(** The conversion [int(x)] of a [uint64] on a 64-bit platform. *)
Definition int_of_u64 (z : Z) : Z := (if decide (z < two63) then z else z - two64)%Z.
Lemma u64_small z : (0 <= z < two64)%Z → u64 z = z.
Proof. apply Z.mod_small. Qed.
Definition is_u64 (z : Z) : Prop := (0 ≤ z < two64)%Z.

(** ** Byte strings

    A Go [string] is a sequence of bytes, and so is a [[]byte]; the conversion
    between the two is the identity here. A [[]byte] whose nil-ness the code
    inspects is an [option bytes], [None] being nil. *)

Abbreviation bytes := (list byte).
Definition B (s : String.string) : bytes := String.list_byte_of_string s.
Arguments B s%_string_scope.

#[export] Instance byte_eq_dec : EqDecision byte := Byte.byte_eq_dec.
#[export] Instance byte_countable : Countable byte :=
  inj_countable Byte.to_N Byte.of_N Byte.of_to_N.

Definition byteZ (b : byte) : Z := Z.of_N (Byte.to_N b).
(** The conversion [byte(z)]. *)
Definition Zbyte (z : Z) : byte :=
  match Byte.of_N (Z.to_N (z mod 256)) with Some b => b | None => x00 end.

Lemma byteZ_range b : (0 ≤ byteZ b < 256)%Z.
Proof. unfold byteZ. pose proof (Byte.to_N_bounded b). lia. Qed.
Lemma byteZ_inj b1 b2 : byteZ b1 = byteZ b2 → b1 = b2.
Proof.
  unfold byteZ. intros Heq%N2Z.inj.
  pose proof (Byte.of_to_N b1) as H1. rewrite Heq, Byte.of_to_N in H1. naive_solver.
Qed.
Lemma byteZ_Zbyte z : byteZ (Zbyte z) = (z mod 256)%Z.
Proof.
  unfold Zbyte, byteZ. pose proof (Z.mod_pos_bound z 256 ltac:(lia)).
  destruct (Byte.of_N _) as [b|] eqn:E.
  - apply Byte.to_of_N in E. lia.
  - apply Byte.of_N_None_iff in E. lia.
Qed.
Lemma Zbyte_byteZ b : Zbyte (byteZ b) = b.
Proof.
  apply byteZ_inj. rewrite byteZ_Zbyte. pose proof (byteZ_range b).
  apply Z.mod_small. lia.
Qed.

(** [bytes.Compare] and [strings.Compare]: lexicographic, the shorter first. *)
Fixpoint bytes_compare (x y : bytes) : comparison :=
  match x, y with
  | [], [] => Eq
  | [], _ :: _ => Lt
  | _ :: _, [] => Gt
  | a :: x, b :: y =>
      match (byteZ a ?= byteZ b)%Z with Eq => bytes_compare x y | c => c end
  end.

Definition bytes_lt (x y : bytes) : Prop := bytes_compare x y = Lt.
Definition bytes_le (x y : bytes) : Prop := bytes_compare x y ≠ Gt.

#[export] Instance comparison_eq_dec : EqDecision comparison.
Proof. solve_decision. Defined.
#[export] Instance bytes_lt_dec : RelDecision bytes_lt := λ x y, decide (bytes_compare x y = Lt).
#[export] Instance bytes_le_dec : RelDecision bytes_le := λ x y, decide (bytes_compare x y ≠ Gt).

Lemma bytes_compare_refl x : bytes_compare x x = Eq.
Proof. induction x as [|a x IH]; simpl; [done|]. by rewrite Z.compare_refl. Qed.

Lemma bytes_compare_eq x y : bytes_compare x y = Eq ↔ x = y.
Proof.
  split; [|intros ->; apply bytes_compare_refl].
  revert y; induction x as [|a x IH]; intros [|b y]; simpl; try done.
  destruct (Z.compare_spec (byteZ a) (byteZ b)) as [E| |]; try done.
  intros H. apply byteZ_inj in E. f_equal; auto.
Qed.

Lemma bytes_compare_antisym x y : bytes_compare y x = CompOpp (bytes_compare x y).
Proof.
  revert y; induction x as [|a x IH]; intros [|b y]; simpl; try done.
  rewrite Z.compare_antisym. destruct (byteZ a ?= byteZ b)%Z; simpl; auto.
Qed.

Lemma bytes_lt_trans x y z : bytes_lt x y → bytes_lt y z → bytes_lt x z.
Proof.
  unfold bytes_lt. revert y z; induction x as [|a x IH]; intros [|b y] [|c z]; simpl; try done.
  destruct (Z.compare_spec (byteZ a) (byteZ b)), (Z.compare_spec (byteZ b) (byteZ c)),
    (Z.compare_spec (byteZ a) (byteZ c)); try done; try lia; eauto.
Qed.

Lemma bytes_lt_irrefl x : ¬ bytes_lt x x.
Proof. unfold bytes_lt. by rewrite bytes_compare_refl. Qed.

Lemma bytes_lt_gt x y : bytes_compare x y = Gt ↔ bytes_lt y x.
Proof.
  unfold bytes_lt. rewrite (bytes_compare_antisym x y).
  destruct (bytes_compare x y); naive_solver.
Qed.

Lemma bytes_lt_total x y : bytes_lt x y ∨ x = y ∨ bytes_lt y x.
Proof.
  destruct (bytes_compare x y) eqn:E.
  - right; left. by apply bytes_compare_eq.
  - by left.
  - right; right. by apply bytes_lt_gt.
Qed.

Lemma bytes_le_lt_eq x y : bytes_le x y ↔ bytes_lt x y ∨ x = y.
Proof.
  unfold bytes_le, bytes_lt. rewrite <-bytes_compare_eq.
  destruct (bytes_compare x y); naive_solver.
Qed.

Lemma bytes_le_not_lt x y : bytes_le x y ↔ ¬ bytes_lt y x.
Proof. unfold bytes_le. by rewrite <-bytes_lt_gt. Qed.

Lemma bytes_le_lt_trans x y z : bytes_le x y → bytes_lt y z → bytes_lt x z.
Proof. rewrite bytes_le_lt_eq. intros [?| ->]; eauto using bytes_lt_trans. Qed.
Lemma bytes_lt_le_trans x y z : bytes_lt x y → bytes_le y z → bytes_lt x z.
Proof. rewrite bytes_le_lt_eq. intros ? [?| <-]; eauto using bytes_lt_trans. Qed.

#[export] Instance bytes_lt_strict : StrictOrder bytes_lt.
Proof. split; [intros x; apply bytes_lt_irrefl|intros x y z; apply bytes_lt_trans]. Qed.
#[export] Instance bytes_le_refl : Reflexive bytes_le.
Proof. intros x. unfold bytes_le. by rewrite bytes_compare_refl. Qed.
#[export] Instance bytes_le_trans : Transitive bytes_le.
Proof.
  intros x y z Hxy. rewrite (bytes_le_lt_eq y z). intros [H| <-]; [|done].
  apply bytes_le_lt_eq. left. eauto using bytes_le_lt_trans.
Qed.
#[export] Instance bytes_le_antisymm : AntiSymm (=) bytes_le.
Proof.
  intros x y. rewrite !bytes_le_lt_eq. intros [H1| ->] [H2|H2]; try done.
  destruct (bytes_lt_irrefl x); eauto using bytes_lt_trans.
Qed.
#[export] Instance bytes_le_total : Total bytes_le.
Proof. intros x y. rewrite !bytes_le_lt_eq. destruct (bytes_lt_total x y); naive_solver. Qed.

Lemma bytes_nil_le x : bytes_le [] x.
Proof. by destruct x. Qed.
Lemma bytes_compare_app p x y : bytes_compare (p ++ x) (p ++ y) = bytes_compare x y.
Proof. induction p as [|a p IH]; simpl; [done|]. by rewrite Z.compare_refl. Qed.
#[export] Hint Resolve bytes_lt_trans bytes_lt_irrefl bytes_le_lt_trans bytes_lt_le_trans bytes_nil_le : drunix.
