(* ===== verification/SortedMap.v ===== *)
(** * Sorted views of Go maps

  Go maps keyed by strings are [gmap bytes V]. The ledger code never relies
  on Go's iteration order: it sorts the keys first
  (core/ledger/util/util.go). This file models that sorting, and gives the
  characterisation every ordered iterator of the development is compared
  with: the strictly key-sorted list of bindings of a map, and its
  restriction to a key range. *)

From S2P Require Import Prelude.
From stdpp Require Import options.

Section sorted.
Context {V : Type}.
Implicit Types (m : gmap bytes V) (l : list (bytes * V)).

Definition key_lt (p q : bytes * V) : Prop := bytes_lt p.1 q.1.
Definition key_le (p q : bytes * V) : Prop := bytes_le p.1 q.1.
#[export] Instance key_le_dec : RelDecision key_le := λ p q, decide (bytes_le p.1 q.1).
#[export] Instance key_lt_trans : Transitive key_lt.
Proof. intros p q r. apply bytes_lt_trans. Qed.
#[export] Instance key_le_trans : Transitive key_le.
Proof. intros p q r. apply bytes_le_trans. Qed.
#[export] Instance key_le_total : Total key_le.
Proof. intros p q. apply bytes_le_total. Qed.

(** [util.GetSortedKeys]: the keys of a map in sorted order. *)
Definition GetSortedKeys m : list bytes := merge_sort bytes_le (map_to_list m).*1.

(** The bindings of a map in the order of their keys. *)
Definition sorted_kvs m : list (bytes * V) := merge_sort key_le (map_to_list m).

(** [util.GetValuesBySortedKeys]: the values in the sorted order of the keys. *)
Definition GetValuesBySortedKeys m : list V := (sorted_kvs m).*2.

(** Strictly key-sorted association lists. *)
Abbreviation ssorted := (StronglySorted key_lt).

Lemma ssorted_le_lt l :
  NoDup l.*1 → StronglySorted key_le l → ssorted l.
Proof.
  intros Hnd Hs. induction Hs as [|p l Hs IH Hall]; [constructor|].
  rewrite fmap_cons in Hnd. apply NoDup_cons in Hnd as [Hni Hnd].
  constructor; [auto|]. rewrite Forall_forall in Hall |- *. intros q Hq.
  specialize (Hall q Hq). unfold key_le, key_lt in *.
  apply bytes_le_lt_eq in Hall as [?|Heq]; [done|].
  destruct Hni. rewrite Heq. by apply list_elem_of_fmap_2.
Qed.

Lemma sorted_kvs_perm m : sorted_kvs m ≡ₚ map_to_list m.
Proof. apply merge_sort_Permutation. Qed.

Lemma sorted_kvs_sorted m : ssorted (sorted_kvs m).
Proof.
  apply ssorted_le_lt.
  - rewrite sorted_kvs_perm. apply NoDup_fst_map_to_list.
  - apply StronglySorted_merge_sort; apply _.
Qed.

Lemma elem_of_sorted_kvs m k v : (k, v) ∈ sorted_kvs m ↔ m !! k = Some v.
Proof. rewrite sorted_kvs_perm. apply elem_of_map_to_list. Qed.

Lemma ssorted_unique l1 l2 :
  ssorted l1 → ssorted l2 → (∀ p, p ∈ l1 ↔ p ∈ l2) → l1 = l2.
Proof.
  intros H1; revert l2; induction H1 as [|p l1 Hs1 IH Hall1]; intros l2 H2 Hel.
  - destruct l2 as [|q l2]; [done|]. exfalso.
    apply (not_elem_of_nil q), Hel. set_solver.
  - destruct H2 as [|q l2 Hs2 Hall2].
    { exfalso. apply (not_elem_of_nil p), Hel. set_solver. }
    rewrite Forall_forall in Hall1, Hall2.
    assert (p = q) as ->.
    { assert (p ∈ q :: l2) as [?|Hp]%elem_of_cons by (apply Hel; set_solver); [done|].
      assert (q ∈ p :: l1) as [?|Hq]%elem_of_cons by (apply Hel; set_solver); [done|].
      destruct (bytes_lt_irrefl p.1). eapply bytes_lt_trans; [by apply Hall1|by apply Hall2]. }
    f_equal. apply IH; [done|]. intros r. specialize (Hel r).
    rewrite !elem_of_cons in Hel. split; intros Hr.
    + destruct Hel as [[->|?] _]; [by right| |done].
      destruct (bytes_lt_irrefl q.1). by apply (Hall1 q).
    + destruct Hel as [_ [->|?]]; [by right| |done].
      destruct (bytes_lt_irrefl q.1). by apply (Hall2 q).
Qed.

Lemma ssorted_NoDup_fst l : ssorted l → NoDup l.*1.
Proof.
  induction 1 as [|p l Hs IH Hall]; simpl; constructor; [|done].
  rewrite Forall_forall in Hall. intros (q & Heq & Hq)%list_elem_of_fmap.
  destruct (bytes_lt_irrefl p.1). rewrite Heq at 2. by apply Hall.
Qed.

Lemma ssorted_fst l : ssorted l → StronglySorted bytes_lt l.*1.
Proof.
  induction 1 as [|p l Hs IH Hall]; simpl; constructor; [done|].
  rewrite Forall_fmap. done.
Qed.

Lemma ssorted_filter (P : bytes * V → Prop) `{!∀ x, Decision (P x)} l :
  ssorted l → ssorted (filter P l).
Proof.
  induction 1 as [|p l Hs IH Hall]; [constructor|].
  rewrite filter_cons. destruct (decide (P p)); [|done].
  constructor; [done|]. rewrite Forall_forall in Hall |- *.
  intros q [_ Hq]%list_elem_of_filter. auto.
Qed.

(** A strictly sorted list with the bindings of [m] is [sorted_kvs m]. *)
Lemma sorted_kvs_unique m l :
  ssorted l → (∀ k v, (k, v) ∈ l ↔ m !! k = Some v) → l = sorted_kvs m.
Proof.
  intros Hs Hel. apply ssorted_unique; [done|apply sorted_kvs_sorted|].
  intros [k v]. by rewrite Hel, elem_of_sorted_kvs.
Qed.

Lemma GetSortedKeys_fst m : GetSortedKeys m = (sorted_kvs m).*1.
Proof.
  apply (StronglySorted_unique bytes_le).
  - apply StronglySorted_merge_sort; apply _.
  - pose proof (ssorted_fst _ (sorted_kvs_sorted m)) as Hs.
    induction Hs as [|? ? ? ? Hall]; constructor; [done|].
    eapply Forall_impl; [done|]. intros. apply bytes_le_lt_eq; auto.
  - unfold GetSortedKeys. rewrite merge_sort_Permutation. by rewrite sorted_kvs_perm.
Qed.

(** When every value carries its own key, the sorted values have strictly
    sorted keys and are the values of the map. *)
Lemma GetValuesBySortedKeys_keys (key : V → bytes) m :
  (∀ k v, m !! k = Some v → key v = k) →
  key <$> GetValuesBySortedKeys m = (sorted_kvs m).*1.
Proof.
  intros Hkey. unfold GetValuesBySortedKeys. rewrite <-list_fmap_compose.
  apply list_fmap_ext. intros i [k v] Hi. simpl. apply Hkey.
  apply elem_of_sorted_kvs. eapply list_elem_of_lookup_2; eauto.
Qed.
Lemma GetValuesBySortedKeys_sorted (key : V → bytes) m :
  (∀ k v, m !! k = Some v → key v = k) →
  StronglySorted bytes_lt (key <$> GetValuesBySortedKeys m).
Proof. intros Hkey. rewrite GetValuesBySortedKeys_keys by done. apply ssorted_fst, sorted_kvs_sorted. Qed.
Lemma elem_of_GetValuesBySortedKeys m v : v ∈ GetValuesBySortedKeys m ↔ ∃ k, m !! k = Some v.
Proof.
  unfold GetValuesBySortedKeys. rewrite list_elem_of_fmap. split.
  - intros ([k v'] & -> & Hin). exists k. by apply elem_of_sorted_kvs.
  - intros [k Hk]. exists (k, v). split; [done|]. by apply elem_of_sorted_kvs.
Qed.

(** ** Key ranges

    [startKey] is inclusive and [endKey] exclusive; an empty string leaves
    the range open on that side. *)
Definition in_range (startKey endKey k : bytes) : Prop :=
  bytes_le startKey k ∧ (endKey = [] ∨ bytes_lt k endKey).
#[export] Instance in_range_dec s e k : Decision (in_range s e k).
Proof. unfold in_range. apply _. Defined.

Definition range_kvs m (startKey endKey : bytes) : list (bytes * V) :=
  filter (λ p, in_range startKey endKey p.1) (sorted_kvs m).

Lemma elem_of_range_kvs m s e k v :
  (k, v) ∈ range_kvs m s e ↔ m !! k = Some v ∧ in_range s e k.
Proof. unfold range_kvs. rewrite list_elem_of_filter, elem_of_sorted_kvs. simpl. tauto. Qed.
Lemma range_kvs_sorted m s e : ssorted (range_kvs m s e).
Proof. apply ssorted_filter, sorted_kvs_sorted. Qed.
End sorted.

(** Mapping the values of a map maps the values of its ranges. *)
Lemma ssorted_omap {A B} (f : A → option B) (l : list (bytes * A)) :
  StronglySorted key_lt l → StronglySorted key_lt (omap (λ p, pair p.1 <$> f p.2) l).
Proof.
  induction 1 as [|p l Hs IH Hall]; simpl; [constructor|].
  destruct (f p.2) as [b|]; simpl; [|done]. constructor; [done|].
  rewrite Forall_forall in Hall. apply Forall_forall. intros [k b'] (q & Hq & (b'' & _ & [= -> ->])%fmap_Some)%list_elem_of_omap.
  by apply Hall in Hq.
Qed.
Lemma range_kvs_omap {A B} (f : A → option B) (m : gmap bytes A) s e :
  range_kvs (omap f m) s e = omap (λ p, pair p.1 <$> f p.2) (range_kvs m s e).
Proof.
  apply ssorted_unique; [apply range_kvs_sorted|apply ssorted_omap, range_kvs_sorted|].
  intros [k b]. rewrite elem_of_range_kvs, lookup_omap, list_elem_of_omap. split.
  - intros [(a & Ha & Hf)%bind_Some Hr]. exists (k, a). rewrite elem_of_range_kvs. simpl. by rewrite Hf.
  - intros ([k' a] & Hin & (b' & Hf & [= -> ->])%fmap_Some). apply elem_of_range_kvs in Hin as [Ha Hr].
    rewrite Ha. by simpl in *.
Qed.
#[export] Hint Resolve range_kvs_sorted sorted_kvs_sorted : drunix.
