(* ===== verification/Encoding.v ===== *)
(** * Order-preserving integer encodings

    The key encodings of the ledger databases are built from three integer
    encodings: protobuf varints (vendor/google.golang.org/protobuf/encoding/
    protowire/wire.go, called through vendor/github.com/golang/protobuf), the
    order-preserving encoding of common/ledger/util/util.go and the
    reverse-order encoding of core/ledger/pvtdatastorage/kv_encoding.go. The
    theorems are the round trips and the fact every range scan of the ledger
    relies on: comparing encoded keys bytewise compares the numbers first, and
    whatever follows them only on equal numbers. *)

From S2P Require Import Prelude.
From stdpp Require Import pretty options.
Open Scope Z_scope.

(** ** Big-endian numbers: [binary.BigEndian] *)

Fixpoint be_bytes (n : nat) (z : Z) : bytes :=
  match n with
  | O => []
  | S n => Zbyte (z / 256 ^ Z.of_nat n) :: be_bytes n z
  end.

Fixpoint be_val (l : bytes) : Z :=
  match l with
  | [] => 0
  | b :: l => byteZ b * 256 ^ Z.of_nat (length l) + be_val l
  end.

(** [binary.BigEndian.PutUint64] into a fresh buffer, and [Uint64]. *)
Definition PutUint64 (z : Z) : bytes := be_bytes 8 z.
Definition Uint64 (l : bytes) : Z := be_val l.

Lemma length_be_bytes n z : length (be_bytes n z) = n.
Proof. induction n; simpl; auto. Qed.

Lemma pow256_pos n : 0 < 256 ^ Z.of_nat n.
Proof. apply Z.pow_pos_nonneg; lia. Qed.

Lemma pow256_S n : 256 ^ Z.of_nat (S n) = 256 * 256 ^ Z.of_nat n.
Proof. rewrite Nat2Z.inj_succ. apply Z.pow_succ_r. lia. Qed.

Lemma be_val_range l : 0 ≤ be_val l < 256 ^ Z.of_nat (length l).
Proof.
  induction l as [|b l IH]; simpl length; simpl be_val; [lia|].
  rewrite pow256_S. pose proof (byteZ_range b). pose proof (pow256_pos (length l)). nia.
Qed.

Lemma be_bytes_mod n z m : (n ≤ m)%nat → be_bytes n (z mod 256 ^ Z.of_nat m) = be_bytes n z.
Proof.
  intros Hle. induction n as [|n IH]; simpl; [done|]. f_equal; [|apply IH; lia].
  apply byteZ_inj. rewrite !byteZ_Zbyte.
  replace (256 ^ Z.of_nat m) with (256 ^ Z.of_nat n * (256 * 256 ^ Z.of_nat (m - S n))).
  2:{ rewrite <-pow256_S, <-Z.pow_add_r by lia. f_equal. lia. }
  pose proof (pow256_pos n). pose proof (pow256_pos (m - S n)).
  rewrite Z.rem_mul_r, (Z.mul_comm (256 ^ Z.of_nat n)), Z.div_add by lia.
  rewrite (Z.div_small (z mod _)) by (apply Z.mod_pos_bound; lia). rewrite Z.add_0_l.
  rewrite Z.rem_mul_r by lia. rewrite (Z.mul_comm 256), Z.mod_add by lia.
  apply Z.mod_mod. lia.
Qed.

Lemma be_val_be_bytes n z : be_val (be_bytes n z) = z mod 256 ^ Z.of_nat n.
Proof.
  revert z; induction n as [|n IH]; intros z; simpl be_bytes; simpl be_val.
  - by rewrite Z.mod_1_r.
  - rewrite length_be_bytes, IH, byteZ_Zbyte, pow256_S.
    rewrite (Z.mul_comm 256), Z.rem_mul_r by (pose proof (pow256_pos n); lia). lia.
Qed.

Lemma be_bytes_be_val l : be_bytes (length l) (be_val l) = l.
Proof.
  induction l as [|b l IH]; simpl; [done|].
  pose proof (pow256_pos (length l)). pose proof (be_val_range l).
  rewrite Z.div_add_l, Z.div_small, Z.add_0_r, Zbyte_byteZ by lia. f_equal.
  trans (be_bytes (length l) (be_val l)); [|done].
  rewrite <-(be_bytes_mod _ (_ + _) (length l)) by lia. f_equal.
  rewrite Z.add_comm, Z.mod_add, Z.mod_small by lia. done.
Qed.

Lemma be_val_compare l1 l2 :
  length l1 = length l2 → bytes_compare l1 l2 = (be_val l1 ?= be_val l2).
Proof.
  revert l2; induction l1 as [|a l1 IH]; intros [|b l2] Hlen; simpl in *; try done.
  injection Hlen as Hlen. rewrite Hlen.
  pose proof (be_val_range l1) as R1. pose proof (be_val_range l2) as R2. rewrite Hlen in R1.
  destruct (Z.compare_spec (byteZ a) (byteZ b)) as [E|E|E].
  - rewrite E, IH by done. symmetry.
    destruct (Z.compare_spec (be_val l1) (be_val l2));
      [apply Z.compare_eq_iff|apply Z.compare_lt_iff|apply Z.compare_gt_iff]; lia.
  - symmetry. apply Z.compare_lt_iff. nia.
  - symmetry. apply Z.compare_gt_iff. nia.
Qed.

Lemma be_bytes_compare n a b :
  0 ≤ a < 256 ^ Z.of_nat n → 0 ≤ b < 256 ^ Z.of_nat n →
  bytes_compare (be_bytes n a) (be_bytes n b) = (a ?= b).
Proof.
  intros. rewrite be_val_compare by by rewrite !length_be_bytes.
  by rewrite !be_val_be_bytes, !Z.mod_small.
Qed.

Lemma be_bytes_inj n a b :
  0 ≤ a < 256 ^ Z.of_nat n → 0 ≤ b < 256 ^ Z.of_nat n → be_bytes n a = be_bytes n b → a = b.
Proof.
  intros Ha Hb Heq%(f_equal be_val). by rewrite !be_val_be_bytes, !Z.mod_small in Heq.
Qed.

Lemma u64_pow : two64 = 256 ^ Z.of_nat 8.
Proof. reflexivity. Qed.

(** ** Protobuf varints *)

(** [protowire.AppendVarint]: seven bits per byte, low bits first, the high
    bit set on every byte but the last. The source unrolls the ten sizes. *)
Fixpoint AppendVarint (fuel : nat) (v : Z) : bytes :=
  match fuel with
  | O => []
  | S fuel =>
      if decide (v < 128) then [Zbyte v]
      else Zbyte (Z.lor (Z.land v 127) 128) :: AppendVarint fuel (Z.shiftr v 7)
  end.
Definition EncodeVarint (v : Z) : bytes := AppendVarint 10 v.

(** [protowire.ConsumeVarint]: byte [i] contributes its low seven bits at
    [7 * i]; the tenth byte holds a single bit. [None] stands for the negative
    lengths the source returns on truncated or overflowing input. *)
Fixpoint ConsumeVarint (fuel : nat) (i : nat) (v : Z) (b : bytes) : option (Z * nat) :=
  match fuel, b with
  | O, _ => None
  | _, [] => None
  | S fuel, y :: b =>
      let y := byteZ y in
      let v := u64 (v + Z.shiftl y (7 * Z.of_nat i)) in
      match fuel with
      | O => if decide (y < 2) then Some (v, S i) else None
      | _ => if decide (y < 128) then Some (v, S i)
             else ConsumeVarint fuel (S i) (u64 (v - Z.shiftl 128 (7 * Z.of_nat i))) b
      end
  end.

(** [proto.DecodeVarint]: the number and the bytes consumed, [(0, 0)] on
    malformed input. *)
Definition DecodeVarint (b : bytes) : Z * nat :=
  match ConsumeVarint 10 0 0 b with Some r => r | None => (0, 0%nat) end.

Lemma shiftr7 v : Z.shiftr v 7 = v / 128.
Proof. by rewrite Z.shiftr_div_pow2 by lia. Qed.

Lemma low7_byte v : byteZ (Zbyte (Z.lor (Z.land v 127) 128)) = v mod 128 + 128.
Proof.
  rewrite byteZ_Zbyte. change 127 with (Z.ones 7). rewrite Z.land_ones by lia.
  change (2 ^ 7) with 128. pose proof (Z.mod_pos_bound v 128 ltac:(lia)) as Hr.
  rewrite Z.lor_comm. replace (Z.lor 128 (v mod 128)) with (128 + v mod 128).
  - rewrite Z.mod_small; lia.
  - rewrite Z.add_nocarry_lxor, Z.lxor_lor; [done| |];
      apply Z.bits_inj'; intros i Hi; rewrite Z.land_spec, Z.bits_0;
      change 128 with (2 ^ 7) at 1; rewrite Z.pow2_bits_eqb by lia;
      (destruct (Z.eqb_spec 7 i) as [<-|]; [|done]);
      rewrite Z.testbit_eqb, Z.div_small, Z.mod_0_l by lia; done.
Qed.

(** The loop invariant of [ConsumeVarint] on the output of [AppendVarint]:
    after [i] bytes the accumulator holds the low [7 * i] bits. *)
Lemma Consume_Append fuel i v w rest :
  (fuel + i = 10)%nat → (0 < fuel)%nat →
  0 ≤ v < 2 ^ (7 * Z.of_nat i) → 0 ≤ w → v + w * 2 ^ (7 * Z.of_nat i) < two64 →
  ConsumeVarint fuel i v (AppendVarint fuel w ++ rest) =
    Some (v + w * 2 ^ (7 * Z.of_nat i), (i + length (AppendVarint fuel w))%nat).
Proof.
  revert i v w. induction fuel as [|fuel IH]; intros i v w Hf Hpos Hv Hw Hb; [lia|].
  set (p := 2 ^ (7 * Z.of_nat i)) in *.
  assert (0 < p) by (apply Z.pow_pos_nonneg; lia).
  cbn [AppendVarint]. destruct (decide (w < 128)) as [Hlt|Hge].
  - cbn [app ConsumeVarint]. rewrite byteZ_Zbyte, (Z.mod_small w) by lia.
    rewrite Z.shiftl_mul_pow2 by lia. fold p.
    unfold u64. rewrite Z.mod_small by nia.
    destruct fuel as [|fuel]; [|by rewrite decide_True by lia; simpl; rewrite Nat.add_1_r].
    rewrite decide_True; [simpl; by rewrite Nat.add_1_r|].
    assert (i = 9%nat) as -> by lia. change p with (2 ^ 63) in *. unfold two64 in Hb. lia.
  - destruct fuel as [|fuel].
    { exfalso. assert (i = 9%nat) as -> by lia. change p with (2 ^ 63) in *. unfold two64 in Hb. lia. }
    cbn [app]. remember (S fuel) as f'. cbn [ConsumeVarint]. rewrite low7_byte.
    pose proof (Z.mod_pos_bound w 128 ltac:(lia)). rewrite Heqf'. rewrite decide_False by lia. rewrite <-Heqf'.
    rewrite !Z.shiftl_mul_pow2 by lia. fold p. rewrite shiftr7.
    pose proof (Z.div_mod w 128 ltac:(lia)) as Hdm.
    assert (Hp' : 2 ^ (7 * Z.of_nat (S i)) = 128 * p).
    { unfold p. replace (7 * Z.of_nat (S i)) with (7 + 7 * Z.of_nat i) by lia. by rewrite Z.pow_add_r by lia. }
    assert (Hu : u64 (u64 (v + (w mod 128 + 128) * p) - 128 * p) = v + (w mod 128) * p).
    { unfold u64. rewrite Zminus_mod_idemp_l. rewrite Z.mod_small; [lia|]. nia. }
    rewrite Hu. assert (0 ≤ w / 128) by (apply Z.div_pos; lia).
    rewrite IH; [|lia|lia|rewrite Hp'; nia|lia|rewrite Hp'; nia].
    rewrite Hp'. f_equal. f_equal; [nia|simpl; lia].
Qed.

Lemma DecodeVarint_Encode v rest :
  is_u64 v → DecodeVarint (EncodeVarint v ++ rest) = (v, length (EncodeVarint v)).
Proof.
  intros [H1 H2]. unfold DecodeVarint, EncodeVarint.
  rewrite Consume_Append; change (2 ^ (7 * Z.of_nat 0)) with 1; try lia.
  by rewrite Z.mul_1_r, Z.add_0_l, Nat.add_0_l.
Qed.

Lemma EncodeVarint_small v : 0 ≤ v < 128 → EncodeVarint v = [Zbyte v].
Proof. intros. unfold EncodeVarint. cbn [AppendVarint]. by rewrite decide_True by lia. Qed.

Arguments AppendVarint : simpl never.
Arguments ConsumeVarint : simpl never.

Lemma DecodeVarint_small b rest : byteZ b < 128 → DecodeVarint (b :: rest) = (byteZ b, 1%nat).
Proof.
  intros Hb. pose proof (byteZ_range b). rewrite <-(Zbyte_byteZ b) at 1.
  change (Zbyte (byteZ b) :: rest) with ([Zbyte (byteZ b)] ++ rest).
  rewrite <-EncodeVarint_small by lia. rewrite DecodeVarint_Encode by (unfold is_u64, two64; lia).
  by rewrite EncodeVarint_small by lia.
Qed.

Lemma bytes_compare_app_len l1 l2 x y :
  length l1 = length l2 →
  bytes_compare (l1 ++ x) (l2 ++ y) =
    match bytes_compare l1 l2 with Eq => bytes_compare x y | c => c end.
Proof.
  revert l2; induction l1 as [|a l1 IH]; intros [|b l2] Hlen; simpl in *; try done.
  injection Hlen as Hlen. destruct (byteZ a ?= byteZ b); auto.
Qed.

(** The number of leading bytes equal to [b0]. *)
Fixpoint lead (b0 : byte) (l : bytes) : nat :=
  match l with
  | [] => 0
  | b :: l => if decide (b = b0) then S (lead b0 l) else 0
  end.

Lemma lead_le b0 l : (lead b0 l ≤ length l)%nat.
Proof. induction l as [|b l IH]; simpl; [lia|]. destruct (decide _); lia. Qed.

Lemma lead_find b0 l :
  list_find (λ b, b ≠ b0) l =
    if decide (lead b0 l < length l)%nat then (λ b, (lead b0 l, b)) <$> (l !! lead b0 l) else None.
Proof.
  induction l as [|b l IH]; simpl; [done|].
  destruct (decide (b = b0)) as [->|Hne].
  - rewrite decide_False by (intros ?; auto). rewrite IH.
    destruct (decide (lead b0 l < length l)%nat), (decide (S (lead b0 l) < S (length l))%nat); try lia; [|done].
    cbn. rewrite <-option_fmap_compose. done.
  - rewrite decide_True by done. by rewrite decide_True by lia.
Qed.

Lemma Zbyte_compare i j :
  0 ≤ i < 256 → 0 ≤ j < 256 → (byteZ (Zbyte i) ?= byteZ (Zbyte j)) = (i ?= j).
Proof. intros. by rewrite !byteZ_Zbyte, !Z.mod_small. Qed.

(** Dropping leading zero bytes and prefixing the number of bytes that remain
    keeps the order of numbers of the same width. *)
Lemma compare_drop_zeros l1 l2 x y :
  length l1 = length l2 → (length l1 < 256)%nat →
  bytes_compare (Zbyte (Z.of_nat (length l1 - lead x00 l1)) :: drop (lead x00 l1) l1 ++ x)
    (Zbyte (Z.of_nat (length l2 - lead x00 l2)) :: drop (lead x00 l2) l2 ++ y) =
  match bytes_compare l1 l2 with Eq => bytes_compare x y | c => c end.
Proof.
  revert l2; induction l1 as [|a l1 IH]; intros [|b l2] Hlen Hmax; try done.
  pose proof (lead_le x00 l1). pose proof (lead_le x00 l2).
  injection Hlen as Hlen. cbn [lead length] in *.
  assert (Hz : byteZ x00 = 0) by done.
  destruct (decide (a = x00)) as [->|Ha], (decide (b = x00)) as [->|Hb].
  - cbn [drop bytes_compare]. rewrite Z.compare_refl, !Nat.sub_succ. apply IH; [done|lia].
  - cbn [bytes_compare]. rewrite Zbyte_compare by lia.
    pose proof (byteZ_range b). assert (byteZ b ≠ 0) by (rewrite <-Hz; by intros ?%byteZ_inj).
    rewrite (proj2 (Z.compare_lt_iff _ _)) by lia. by rewrite (proj2 (Z.compare_lt_iff _ _)) by lia.
  - cbn [bytes_compare]. rewrite Zbyte_compare by lia.
    pose proof (byteZ_range a). assert (byteZ a ≠ 0) by (rewrite <-Hz; by intros ?%byteZ_inj).
    rewrite (proj2 (Z.compare_gt_iff _ _)) by lia. by rewrite (proj2 (Z.compare_gt_iff _ _)) by lia.
  - rewrite !Nat.sub_0_r, Hlen. cbn [bytes_compare]. rewrite Z.compare_refl.
    apply (bytes_compare_app_len (a :: l1) (b :: l2)). simpl. lia.
Qed.

(** Dropping leading 0xff bytes and prefixing how many were dropped keeps it too. *)
Lemma compare_drop_ff k l1 l2 x y :
  length l1 = length l2 → (k + length l1 < 256)%nat →
  bytes_compare (Zbyte (Z.of_nat (k + lead xff l1)) :: drop (lead xff l1) l1 ++ x)
    (Zbyte (Z.of_nat (k + lead xff l2)) :: drop (lead xff l2) l2 ++ y) =
  match bytes_compare l1 l2 with Eq => bytes_compare x y | c => c end.
Proof.
  revert k l2; induction l1 as [|a l1 IH]; intros k [|b l2] Hlen Hmax; try done.
  { cbn [lead drop]. rewrite Nat.add_0_r. cbn. by rewrite Z.compare_refl. }
  pose proof (lead_le xff l1). pose proof (lead_le xff l2).
  injection Hlen as Hlen. cbn [lead length] in *.
  assert (Hz : byteZ xff = 255) by done.
  destruct (decide (a = xff)) as [->|Ha], (decide (b = xff)) as [->|Hb].
  - cbn [drop]. rewrite <-!Nat.add_succ_comm, IH by lia. cbn [bytes_compare].
    by rewrite Z.compare_refl.
  - cbn [bytes_compare]. rewrite Zbyte_compare by lia.
    pose proof (byteZ_range b). assert (byteZ b ≠ 255) by (rewrite <-Hz; by intros ?%byteZ_inj).
    rewrite (proj2 (Z.compare_gt_iff _ _)) by lia. by rewrite (proj2 (Z.compare_gt_iff _ _)) by lia.
  - cbn [bytes_compare]. rewrite Zbyte_compare by lia.
    pose proof (byteZ_range a). assert (byteZ a ≠ 255) by (rewrite <-Hz; by intros ?%byteZ_inj).
    rewrite (proj2 (Z.compare_lt_iff _ _)) by lia. by rewrite (proj2 (Z.compare_lt_iff _ _)) by lia.
  - cbn [bytes_compare drop]. rewrite Z.compare_refl.
    apply (bytes_compare_app_len (a :: l1) (b :: l2)). simpl. lia.
Qed.

(** ** The order-preserving encoding of common/ledger/util *)

(** The source also panics when the size takes more than one byte as a varint;
    [size_one_byte] shows that it never does. *)
Definition EncodeOrderPreservingVarUint64 (number : Z) : bytes :=
  let bs := PutUint64 number in
  let '(startingIndex, size) :=
    match list_find (λ b, b ≠ x00) bs with
    | Some (i, _) => (i, (8 - i)%nat)
    | None => (0%nat, 0%nat)
    end in
  let sizeBytes := EncodeVarint (Z.of_nat size) in
  take 1 sizeBytes ++ take size (drop startingIndex bs).

Definition DecodeOrderPreservingVarUint64 (bs : bytes) : res (Z * nat) :=
  let '(s, numBytes) := DecodeVarint bs in
  if decide (numBytes ≠ 1%nat) then Err "number of consumed bytes from DecodeVarint is invalid"
  else if decide (s > 8) then Err "decoded size from DecodeVarint is invalid"
  else if decide (s > Z.of_nat (length bs) - 1) then Err "decoded size from DecodeVarint is more than available bytes"
  else
    let size := Z.to_nat s in
    let decodedBytes := replicate (8 - size) x00 ++ take size (drop 1 bs) in
    Ok (Uint64 decodedBytes, S size).

Lemma size_one_byte (size : nat) : (size ≤ 8)%nat → EncodeVarint (Z.of_nat size) = [Zbyte (Z.of_nat size)].
Proof. intros. apply EncodeVarint_small. lia. Qed.

Lemma EncodeOrderPreserving_alt n :
  let bs := PutUint64 n in
  EncodeOrderPreservingVarUint64 n =
    Zbyte (Z.of_nat (length bs - lead x00 bs)) :: drop (lead x00 bs) bs.
Proof.
  cbn zeta. unfold EncodeOrderPreservingVarUint64. set (bs := PutUint64 n).
  assert (Hlen : length bs = 8%nat) by apply length_be_bytes.
  pose proof (lead_le x00 bs) as Hle. rewrite Hlen in Hle.
  rewrite lead_find, Hlen. destruct (decide (lead x00 bs < 8)%nat) as [Hlt|Hge].
  - destruct (lookup_lt_is_Some_2 bs (lead x00 bs)) as [b Hb]; [lia|].
    rewrite Hb. cbn [fmap option_fmap option_map]. rewrite size_one_byte by lia.
    rewrite (take_ge (drop _ _)) by (rewrite length_drop; lia). done.
  - assert (lead x00 bs = 8%nat) as -> by lia. rewrite size_one_byte by lia.
    rewrite (drop_ge bs 8) by lia. done.
Qed.

Lemma lead_zeros_val l : be_val l = be_val (drop (lead x00 l) l).
Proof.
  induction l as [|b l IH]; simpl; [done|]. destruct (decide (b = x00)) as [->|]; simpl; [|done].
  rewrite <-IH. change (byteZ x00) with 0. lia.
Qed.

Lemma be_val_zeros k l : be_val (replicate k x00 ++ l) = be_val l.
Proof. induction k as [|k IH]; simpl; [done|]. rewrite IH. change (byteZ x00) with 0. lia. Qed.

Lemma PutUint64_val n : is_u64 n → be_val (PutUint64 n) = n.
Proof. intros Hn. unfold PutUint64. rewrite be_val_be_bytes, <-u64_pow. by apply Z.mod_small. Qed.

Lemma length_EncodeOrderPreserving n :
  (1 ≤ length (EncodeOrderPreservingVarUint64 n) ≤ 9)%nat.
Proof.
  rewrite EncodeOrderPreserving_alt. cbn [length]. rewrite length_drop.
  unfold PutUint64. rewrite length_be_bytes. lia.
Qed.

Lemma Decode_EncodeOrderPreserving n rest :
  is_u64 n →
  DecodeOrderPreservingVarUint64 (EncodeOrderPreservingVarUint64 n ++ rest) =
    Ok (n, length (EncodeOrderPreservingVarUint64 n)).
Proof.
  intros Hn. rewrite EncodeOrderPreserving_alt. set (bs := PutUint64 n).
  assert (Hlen : length bs = 8%nat) by apply length_be_bytes. pose proof (lead_le x00 bs) as Hle.
  rewrite Hlen in *. set (s := (8 - lead x00 bs)%nat).
  assert (Hs : byteZ (Zbyte (Z.of_nat s)) = Z.of_nat s) by (rewrite byteZ_Zbyte, Z.mod_small; lia).
  cbn [app]. unfold DecodeOrderPreservingVarUint64. rewrite DecodeVarint_small by lia. rewrite Hs.
  cbn [length]. rewrite length_app, !length_drop, Hlen.
  rewrite decide_False by naive_solver lia. rewrite !decide_False by lia.
  rewrite Nat2Z.id. cbn [drop]. rewrite drop_0, take_app_length' by (rewrite length_drop; lia).
  unfold Uint64. rewrite be_val_zeros, <-lead_zeros_val. subst bs. rewrite PutUint64_val by done.
  done.
Qed.

(** The property every range scan over encoded heights uses. *)
Lemma EncodeOrderPreserving_compare a b x y :
  is_u64 a → is_u64 b →
  bytes_compare (EncodeOrderPreservingVarUint64 a ++ x) (EncodeOrderPreservingVarUint64 b ++ y) =
    match a ?= b with Eq => bytes_compare x y | c => c end.
Proof.
  intros Ha Hb. rewrite !EncodeOrderPreserving_alt.
  pose proof (length_be_bytes 8 a). pose proof (length_be_bytes 8 b).
  cbn [app]. rewrite compare_drop_zeros by (unfold PutUint64; lia).
  unfold PutUint64. by rewrite be_bytes_compare by (rewrite <-u64_pow; apply Ha || apply Hb).
Qed.

Lemma EncodeOrderPreserving_inj a b x y :
  is_u64 a → is_u64 b →
  EncodeOrderPreservingVarUint64 a ++ x = EncodeOrderPreservingVarUint64 b ++ y → a = b ∧ x = y.
Proof.
  intros Ha Hb Heq%bytes_compare_eq. rewrite EncodeOrderPreserving_compare in Heq by done.
  destruct (Z.compare_spec a b); try done. split; [done|]. by apply bytes_compare_eq.
Qed.

(** ** The reverse-order encoding of core/ledger/pvtdatastorage *)

Definition MaxUint64 : Z := two64 - 1.

Definition encodeReverseOrderVarUint64 (number : Z) : bytes :=
  let bs := PutUint64 (MaxUint64 - number) in
  let numFFBytes := lead xff bs in
  take 1 (EncodeVarint (Z.of_nat numFFBytes)) ++ drop numFFBytes bs.

(** Returns the number and the bytes consumed. The source does not check the
    decoded count: a count above 8 or a short input makes a slice expression
    panic. *)
Definition decodeReverseOrderVarUint64 (bs : bytes) : res (Z * nat) :=
  let '(s, _) := DecodeVarint bs in
  if decide (s > 8) then Panic else
  let numFFBytes := Z.to_nat s in
  let realBytesNum := (8 - numFFBytes)%nat in
  if decide (length bs < realBytesNum + 1)%nat then Panic else
  let decodedBytes := replicate numFFBytes xff ++ take realBytesNum (drop 1 bs) in
  Ok (MaxUint64 - Uint64 decodedBytes, S realBytesNum).

Lemma encodeReverse_alt n :
  let bs := PutUint64 (MaxUint64 - n) in
  encodeReverseOrderVarUint64 n = Zbyte (Z.of_nat (lead xff bs)) :: drop (lead xff bs) bs.
Proof.
  cbn zeta. unfold encodeReverseOrderVarUint64. set (bs := PutUint64 (MaxUint64 - n)).
  pose proof (lead_le xff bs) as Hle. unfold bs, PutUint64 in Hle. rewrite length_be_bytes in Hle.
  rewrite size_one_byte by done. done.
Qed.

Lemma lead_split b0 l : l = replicate (lead b0 l) b0 ++ drop (lead b0 l) l.
Proof.
  induction l as [|b l IH]; simpl; [done|].
  destruct (decide (b = b0)) as [->|]; simpl; [by rewrite <-IH|done].
Qed.

Lemma decode_encodeReverse n rest :
  is_u64 n →
  decodeReverseOrderVarUint64 (encodeReverseOrderVarUint64 n ++ rest) =
    Ok (n, length (encodeReverseOrderVarUint64 n)).
Proof.
  intros Hn. rewrite encodeReverse_alt. set (bs := PutUint64 (MaxUint64 - n)).
  assert (Hlen : length bs = 8%nat) by apply length_be_bytes. pose proof (lead_le xff bs) as Hle.
  rewrite Hlen in *.
  assert (Hs : byteZ (Zbyte (Z.of_nat (lead xff bs))) = Z.of_nat (lead xff bs))
    by (rewrite byteZ_Zbyte, Z.mod_small; lia).
  cbn [app]. unfold decodeReverseOrderVarUint64. rewrite DecodeVarint_small by lia. rewrite Hs.
  rewrite Nat2Z.id. cbn [length]. rewrite length_app, length_drop, Hlen.
  rewrite !decide_False by lia. cbn [drop].
  rewrite drop_0, take_app_length' by (rewrite length_drop; lia).
  rewrite <-lead_split. unfold Uint64, bs, MaxUint64 in *. unfold is_u64 in Hn.
  rewrite PutUint64_val by (unfold is_u64; lia). do 2 f_equal; lia.
Qed.

Lemma encodeReverse_compare a b x y :
  is_u64 a → is_u64 b →
  bytes_compare (encodeReverseOrderVarUint64 a ++ x) (encodeReverseOrderVarUint64 b ++ y) =
    match b ?= a with Eq => bytes_compare x y | c => c end.
Proof.
  intros Ha Hb. rewrite !encodeReverse_alt.
  pose proof (length_be_bytes 8 (MaxUint64 - a)). pose proof (length_be_bytes 8 (MaxUint64 - b)).
  cbn [app]. etrans; [apply (compare_drop_ff 0); unfold PutUint64; lia|].
  unfold PutUint64, is_u64, MaxUint64 in *.
  rewrite be_bytes_compare by (rewrite <-u64_pow; lia).
  destruct (Z.compare_spec b a), (Z.compare_spec (two64 - 1 - a) (two64 - 1 - b)); done || lia.
Qed.

(** ** Decimal numbers *)

(** [fmt.Sprint] of an unsigned number. *)
Definition decimal (n : Z) : bytes := B (pretty (Z.to_N n)).
Definition is_digit (b : byte) : Prop := b ∈ B "0123456789".
#[export] Instance is_digit_dec b : Decision (is_digit b) := _.

Lemma B_inj s s' : B s = B s' → s = s'.
Proof. unfold B. intros Heq%(f_equal String.string_of_list_byte). by rewrite !String.string_of_list_byte_of_string in Heq. Qed.
Lemma pretty_N_go_digits x : ∀ s, Forall is_digit (B s) → Forall is_digit (B (pretty_N_go x s)).
Proof.
  induction (N.lt_wf_0 x) as [x _ IH]; intros s Hs. assert (x = 0 ∨ 0 < x)%N as [->|?] by lia; [by rewrite pretty_N_go_0|].
  rewrite pretty_N_go_step by done. apply IH; [by apply N.div_lt|]. unfold B in *. cbn [String.list_byte_of_string].
  constructor; [|done]. unfold pretty_N_char. repeat case_match; by apply (bool_decide_unpack _).
Qed.
Lemma decimal_digits n : Forall is_digit (decimal n).
Proof.
  unfold decimal, pretty, pretty_N. destruct (decide _); [by apply (bool_decide_unpack _)|]. by apply pretty_N_go_digits, Forall_nil.
Qed.
Lemma decimal_inj n n' : (0 ≤ n)%Z → (0 ≤ n')%Z → decimal n = decimal n' → n = n'.
Proof. intros Hn Hn' Heq%B_inj%(inj pretty). lia. Qed.

(** [strconv.Atoi]: an optional sign, then decimal digits, within an [int]. *)
Definition digit_val (b : byte) : option Z :=
  if decide (48 ≤ byteZ b ≤ 57) then Some (byteZ b - 48) else None.
Fixpoint digits_val (acc : Z) (s : bytes) : option Z :=
  match s with
  | [] => Some acc
  | b :: s => match digit_val b with Some d => digits_val (acc * 10 + d) s | None => None end
  end.
Definition Atoi (s : bytes) : res Z :=
  let '(neg, ds) := match s with
                    | b :: s' => if decide (b = x2b) then (false, s') else if decide (b = x2d) then (true, s') else (false, s)
                    | [] => (false, [])
                    end in
  match ds, digits_val 0 ds with
  | _ :: _, Some v =>
      let v := if neg : bool then - v else v in
      if decide (- two63 ≤ v < two63) then Ok v else Err "value out of range"
  | _, _ => Err "invalid syntax"
  end.
(** The verb [%06d] for a number that is not negative. *)
Definition pad6 (n : Z) : bytes := replicate (6 - length (decimal n)) x30 ++ decimal n.

Lemma digits_val_pretty x : ∀ s, digits_val 0 (B (pretty_N_go x s)) = digits_val (Z.of_N x) (B s).
Proof.
  induction (N.lt_wf_0 x) as [x _ IH]; intros s. assert (x = 0 ∨ 0 < x)%N as [->|Hx] by lia; [by rewrite pretty_N_go_0|].
  rewrite pretty_N_go_step by done. rewrite IH by by apply N.div_lt. unfold B.
  set (c := pretty_N_char _). change (String.list_byte_of_string (String c s)) with (Ascii.byte_of_ascii c :: String.list_byte_of_string s).
  subst c. cbn [digits_val].
  assert (digit_val (Ascii.byte_of_ascii (pretty_N_char (x `mod` 10))) = Some (Z.of_N (x `mod` 10))) as ->.
  { pose proof (N.mod_lt x 10 ltac:(lia)) as Hm. revert Hm. generalize (x `mod` 10)%N. intros m Hm.
    assert (m = 0 ∨ m = 1 ∨ m = 2 ∨ m = 3 ∨ m = 4 ∨ m = 5 ∨ m = 6 ∨ m = 7 ∨ m = 8 ∨ m = 9)%N as Hc by lia.
    destruct_or! Hc; subst m; reflexivity. }
  f_equal. rewrite N2Z.inj_div, N2Z.inj_mod. pose proof (Z.div_mod (Z.of_N x) 10 ltac:(lia)). lia.
Qed.
Lemma digits_val_decimal n : 0 ≤ n → digits_val 0 (decimal n) = Some n.
Proof.
  intros Hn. unfold decimal, pretty, pretty_N. destruct (decide _) as [E|E].
  - assert (n = 0) as -> by lia. reflexivity.
  - rewrite digits_val_pretty. simpl. f_equal. lia.
Qed.
Lemma digits_val_zeros k s : digits_val 0 (replicate k x30 ++ s) = digits_val 0 s.
Proof. induction k as [|k IH]; [done|]. exact IH. Qed.
Lemma pad6_digits n : Forall is_digit (pad6 n).
Proof. apply Forall_app. split; [|apply decimal_digits]. apply Forall_replicate. by apply (bool_decide_unpack _). Qed.
Lemma Atoi_pad6 n : 0 ≤ n < two63 → Atoi (pad6 n) = Ok n.
Proof.
  intros Hn. unfold Atoi. assert (digits_val 0 (pad6 n) = Some n) as Hv by (unfold pad6; by rewrite digits_val_zeros, digits_val_decimal by lia).
  pose proof (pad6_digits n) as Hd. destruct (pad6 n) as [|b s] eqn:E.
  { unfold pad6 in E. apply app_eq_nil in E as [E1 E2]. rewrite E2 in E1. done. }
  apply Forall_cons in Hd as [Hb _]. assert (b ≠ x2b ∧ b ≠ x2d) as [H1 H2] by (split; intros ->; by apply (bool_decide_pack _) in Hb).
  rewrite !decide_False by done. rewrite Hv. by rewrite decide_True by lia.
Qed.
