(* ===== verification/Version.v ===== *)
(** * Transaction heights

    core/ledger/internal/version/version.go: a height is a block number and a
    transaction number, both [uint64]; a nil [*Height] is [None]. Heights are
    the versions of the state database, so the equality test is what MVCC
    validation rests on, and the byte encoding is the prefix of most keys of
    the private-data store. *)

From S2P Require Import Prelude Encoding.
From stdpp Require Import options.
Open Scope Z_scope.

Record Height := NewHeight { BlockNum : Z; TxNum : Z }.

#[export] Instance Height_eq_dec : EqDecision Height.
Proof. solve_decision. Defined.

Definition Height_wf (h : Height) : Prop := is_u64 (BlockNum h) ∧ is_u64 (TxNum h).

Definition NewHeightFromBytes (b : bytes) : res (Height * nat) :=
  '(blockNum, n1) ← DecodeOrderPreservingVarUint64 b;
  '(txNum, n2) ← DecodeOrderPreservingVarUint64 (drop n1 b);
  Ok (NewHeight blockNum txNum, (n1 + n2)%nat).

Definition Height_ToBytes (h : Height) : bytes :=
  EncodeOrderPreservingVarUint64 (BlockNum h) ++ EncodeOrderPreservingVarUint64 (TxNum h).

(** The subtraction is on [uint64] and wraps; its conversion to [int] is signed. *)
Definition Height_Compare (h h1 : Height) : Z :=
  if decide (BlockNum h ≠ BlockNum h1) then
    let r := int_of_u64 (u64 (BlockNum h - BlockNum h1)) in
    if decide (r > 0) then 1 else -1
  else if decide (TxNum h ≠ TxNum h1) then
    let r := int_of_u64 (u64 (TxNum h - TxNum h1)) in
    if decide (r > 0) then 1 else -1
  else 0.

Definition AreSame (h1 h2 : option Height) : bool :=
  match h1, h2 with
  | None, None => true
  | None, Some _ => false
  | Some _, None => false
  | Some h1, Some h2 => bool_decide (Height_Compare h1 h2 = 0)
  end.

(** The order on heights the rest of the ledger means: by block, then by transaction. *)
Definition height_compare (h h1 : Height) : comparison :=
  match BlockNum h ?= BlockNum h1 with Eq => TxNum h ?= TxNum h1 | c => c end.

Definition comparison_int (c : comparison) : Z :=
  match c with Eq => 0 | Lt => -1 | Gt => 1 end.

Lemma Height_Compare_zero h h1 : Height_Compare h h1 = 0 ↔ h = h1.
Proof.
  unfold Height_Compare. destruct h as [b t], h1 as [b1 t1]; simpl. split.
  - repeat case_decide; try lia. intros _. f_equal; lia.
  - intros [= -> ->]. by repeat case_decide.
Qed.

Lemma AreSame_spec h1 h2 : AreSame h1 h2 = true ↔ h1 = h2.
Proof.
  destruct h1, h2; simpl; try naive_solver.
  rewrite bool_decide_eq_true, Height_Compare_zero. naive_solver.
Qed.

Lemma int_of_u64_sub a b :
  is_u64 a → is_u64 b → a ≠ b →
  (int_of_u64 (u64 (a - b)) > 0 ↔ (b < a ∧ a - b < two63) ∨ (a < b ∧ two63 < b - a)).
Proof.
  unfold is_u64, int_of_u64, u64. intros Ha Hb Hne.
  destruct (decide (b < a)).
  - rewrite Z.mod_small by lia. case_decide; unfold two63, two64 in *; lia.
  - replace ((a - b) mod two64) with (a - b + two64).
    + case_decide; unfold two63, two64 in *; lia.
    + symmetry. rewrite <-(Z.mod_add _ 1), Z.mul_1_l by (unfold two64; lia).
      apply Z.mod_small. lia.
Qed.

Lemma NewHeightFromBytes_ToBytes h rest :
  Height_wf h →
  NewHeightFromBytes (Height_ToBytes h ++ rest) = Ok (h, length (Height_ToBytes h)).
Proof.
  intros [Hb Ht]. unfold NewHeightFromBytes, Height_ToBytes. rewrite <-app_assoc.
  rewrite Decode_EncodeOrderPreserving by done. simpl.
  rewrite drop_app_length, Decode_EncodeOrderPreserving by done. simpl.
  rewrite length_app. by destruct h.
Qed.

Lemma Height_ToBytes_compare h1 h2 x y :
  Height_wf h1 → Height_wf h2 →
  bytes_compare (Height_ToBytes h1 ++ x) (Height_ToBytes h2 ++ y) =
    match height_compare h1 h2 with Eq => bytes_compare x y | c => c end.
Proof.
  intros [] []. unfold Height_ToBytes, height_compare. rewrite <-!app_assoc.
  rewrite !EncodeOrderPreserving_compare by done. by destruct (BlockNum h1 ?= BlockNum h2).
Qed.

Lemma Height_ToBytes_inj h1 h2 x y :
  Height_wf h1 → Height_wf h2 → Height_ToBytes h1 ++ x = Height_ToBytes h2 ++ y → h1 = h2 ∧ x = y.
Proof.
  intros [] []. unfold Height_ToBytes. rewrite <-!app_assoc.
  intros [Hb Hr]%EncodeOrderPreserving_inj; [|done..].
  apply EncodeOrderPreserving_inj in Hr as [Ht ?]; [|done..]. destruct h1, h2; simpl in *. by subst.
Qed.

(** ** Properties *)

(** The nil-aware equality test MVCC validation uses is exact: [AreSame]
    returns true if and only if both heights are nil or both are the same
    block and transaction number, for all [uint64] values, although it goes
    through the wrapping subtraction of [Compare]. *)
Theorem AreSame_exact (h1 h2 : option Height) :
  AreSame h1 h2 = bool_decide (h1 = h2).
Proof.
  destruct (AreSame h1 h2) eqn:E; symmetry.
  - apply bool_decide_eq_true. by apply AreSame_spec.
  - apply bool_decide_eq_false. intros ->. rewrite (proj2 (AreSame_spec h2 h2)) in E; done.
Qed.

(** [Compare] is the block-then-transaction order as long as the numbers it
    subtracts are less than 2^63 apart. *)
Theorem Height_Compare_order (h h1 : Height) :
  Height_wf h → Height_wf h1 →
  Z.abs (BlockNum h - BlockNum h1) < two63 → Z.abs (TxNum h - TxNum h1) < two63 →
  Height_Compare h h1 = comparison_int (height_compare h h1).
Proof.
  intros [Hb Ht] [Hb1 Ht1] Hd Hd'. unfold Height_Compare, height_compare.
  destruct (Z.compare_spec (BlockNum h) (BlockNum h1)) as [E|E|E].
  - rewrite decide_False by naive_solver.
    destruct (Z.compare_spec (TxNum h) (TxNum h1)) as [E'|E'|E']; simpl.
    + by rewrite decide_False by naive_solver.
    + rewrite decide_True, decide_False; [done| |lia]. rewrite int_of_u64_sub by (done || lia). lia.
    + rewrite decide_True, decide_True; [done| |lia]. rewrite int_of_u64_sub by (done || lia). lia.
  - rewrite decide_True, decide_False; [done| |lia]. rewrite int_of_u64_sub by (done || lia). lia.
  - rewrite decide_True, decide_True; [done| |lia]. rewrite int_of_u64_sub by (done || lia). lia.
Qed.

(** Beyond that distance the order is reversed: for every two block
    numbers more than 2^63 apart the height of the later block compares as
    smaller and the earlier one as larger. *)
Theorem Height_Compare_wraps (h h1 : Height) (Hh : Height_wf h) (Hh1 : Height_wf h1)
  (Hfar : two63 < BlockNum h1 - BlockNum h) :
  Height_Compare h h1 = 1 ∧ Height_Compare h1 h = -1.
Proof.
  destruct Hh as [Hb _], Hh1 as [Hb1 _]. unfold Height_Compare.
  assert (0 < two63) by (unfold two63; lia).
  split; (rewrite decide_True by lia).
  - rewrite decide_True; [done|]. apply int_of_u64_sub; [done..|lia|]. lia.
  - rewrite decide_False; [done|]. rewrite int_of_u64_sub by (done || lia). lia.
Qed.

Lemma Height_Compare_wraps_witness :
  Height_Compare (NewHeight 0 0) (NewHeight 18446744073709551615 0) = 1 ∧
  Height_Compare (NewHeight 18446744073709551615 0) (NewHeight 0 0) = -1.
Proof.
  apply (Height_Compare_wraps (NewHeight 0 0) (NewHeight 18446744073709551615 0));
    [split; split; vm_compute; congruence..|vm_compute; done].
Defined.
