(* ===== verification/Separated.v ===== *)
(** * Byte strings joined by a separator

    The composite keys of the LevelDB stores join their components with a zero
    byte. This file models the functions of Go's [bytes] package the decoders
    use ([Split], [SplitN], [IndexByte], [TrimPrefix]) and proves what makes
    the composite keys work: a component without the separator is recovered,
    keys order by their first component before the rest, and the keys that
    start with a given prefix are a range. *)

From S2P Require Import Prelude.
From stdpp Require Import options.

(** The part before the first [sep], and what follows it if there is one. *)
Fixpoint cut (sep : byte) (l : bytes) : bytes * option bytes :=
  match l with
  | [] => ([], None)
  | b :: l =>
      if decide (b = sep) then ([], Some l)
      else let '(x, r) := cut sep l in (b :: x, r)
  end.

(** [bytes.SplitN(l, []byte{sep}, n)] for [n > 0]: at most [n] parts, the last
    one unsplit. *)
Fixpoint SplitN (sep : byte) (n : nat) (l : bytes) : list bytes :=
  match n with
  | O => []
  | S O => [l]
  | S n => match cut sep l with
           | (x, Some r) => x :: SplitN sep n r
           | (x, None) => [x]
           end
  end.

(** [bytes.Split(l, []byte{sep})]: no limit on the parts. *)
Definition Split (sep : byte) (l : bytes) : list bytes := SplitN sep (S (length l)) l.

(** [bytes.IndexByte]. *)
Definition IndexByte (l : bytes) (b : byte) : option nat := fst <$> list_find (b =.) l.

(** [bytes.TrimPrefix]. *)
Definition TrimPrefix (l p : bytes) : bytes :=
  if decide (take (length p) l = p) then drop (length p) l else l.

(** A Go slice expression [l[i:j]] on a slice whose capacity is its length. *)
Definition slice (l : bytes) (i j : nat) : res bytes :=
  if decide (i ≤ j ∧ j ≤ length l) then Ok (take (j - i) (drop i l)) else Panic.
Definition slice_from (l : bytes) (i : nat) : res bytes := slice l i (length l).

Lemma slice_from_app (p l : bytes) : slice_from (p ++ l) (length p) = Ok l.
Proof.
  unfold slice_from, slice. rewrite length_app, decide_True by lia.
  by rewrite drop_app_length, take_ge by lia.
Qed.

Lemma slice_mid (l a c d : bytes) i j :
  l = a ++ c ++ d → i = length a → j = (length a + length c)%nat → slice l i j = Ok c.
Proof.
  intros -> -> ->. unfold slice. rewrite !length_app, decide_True by lia.
  rewrite drop_app_length. by rewrite take_app_length' by lia.
Qed.

Lemma slice_from_eq (l p r : bytes) i : l = p ++ r → i = length p → slice_from l i = Ok r.
Proof. intros -> ->. apply slice_from_app. Qed.

Lemma slice_from_cons_app b (p l : bytes) : slice_from (b :: p ++ l) (S (length p)) = Ok l.
Proof. apply (slice_from_app (b :: p)). Qed.

Lemma slice_from_cons b (l : bytes) : slice_from (b :: l) 1 = Ok l.
Proof. apply (slice_from_app [b]). Qed.

Lemma cut_app sep x r : sep ∉ x → cut sep (x ++ sep :: r) = (x, Some r).
Proof.
  induction x as [|b x IH]; simpl; intros Hx.
  - by rewrite decide_True.
  - rewrite decide_False by set_solver. by rewrite IH by set_solver.
Qed.

Lemma cut_none sep x : sep ∉ x → cut sep x = (x, None).
Proof.
  induction x as [|b x IH]; simpl; intros Hx; [done|].
  rewrite decide_False by set_solver. by rewrite IH by set_solver.
Qed.

Lemma SplitN_2 sep x r : sep ∉ x → SplitN sep 2 (x ++ sep :: r) = [x; r].
Proof. intros. cbn [SplitN]. by rewrite cut_app. Qed.

Lemma SplitN_3 sep x y r :
  sep ∉ x → sep ∉ y → SplitN sep 3 (x ++ sep :: y ++ sep :: r) = [x; y; r].
Proof. intros. cbn [SplitN]. rewrite cut_app by done. by rewrite cut_app. Qed.

Lemma Split_1 sep x : sep ∉ x → Split sep x = [x].
Proof. intros Hx. unfold Split. destruct x as [|b x]; [done|]. cbn [length SplitN]. by rewrite cut_none. Qed.
Lemma Split_2 sep x y : sep ∉ x → sep ∉ y → Split sep (x ++ sep :: y) = [x; y].
Proof.
  intros. unfold Split. rewrite length_app. cbn [length].
  rewrite Nat.add_succ_r. cbn [SplitN]. rewrite cut_app by done.
  destruct (length x + length y)%nat; [done|]. cbn [SplitN]. by rewrite cut_none.
Qed.

Lemma IndexByte_app b x r : b ∉ x → IndexByte (x ++ b :: r) b = Some (length x).
Proof.
  unfold IndexByte. induction x as [|a x IH]; simpl; intros Hx.
  - by rewrite decide_True.
  - rewrite decide_False by set_solver.
    specialize (IH ltac:(set_solver)). destruct (list_find _ _) as [[i ?]|]; simplify_eq/=. done.
Qed.

Lemma IndexByte_None b x : b ∉ x → IndexByte x b = None.
Proof.
  unfold IndexByte. induction x as [|a x IH]; simpl; intros Hx; [done|].
  rewrite decide_False by set_solver. specialize (IH ltac:(set_solver)).
  by destruct (list_find _ _).
Qed.

Lemma TrimPrefix_app (p l : bytes) : TrimPrefix (p ++ l) p = l.
Proof. unfold TrimPrefix. by rewrite take_app_length, drop_app_length, decide_True. Qed.

(** Components without the separator are determined by the joined string. *)
Lemma sep_inj (sep : byte) (a b x y : bytes) :
  sep ∉ a → sep ∉ b → a ++ sep :: x = b ++ sep :: y → a = b ∧ x = y.
Proof.
  intros Ha Hb Heq%(f_equal (cut sep)). rewrite !cut_app in Heq by done. by simplify_eq.
Qed.

Lemma byteZ_x00 : byteZ x00 = 0%Z.
Proof. done. Qed.

(** Joined with a zero byte, strings without zero bytes order first by the
    component before the separator and then by the rest. *)
Lemma sep_compare (a b x y : bytes) :
  x00 ∉ a → x00 ∉ b →
  bytes_compare (a ++ x00 :: x) (b ++ x00 :: y) =
    match bytes_compare a b with Eq => bytes_compare x y | c => c end.
Proof.
  revert b; induction a as [|c a IH]; intros [|d b] Ha Hb; cbn [app bytes_compare].
  - by rewrite Z.compare_refl.
  - assert (byteZ d ≠ 0)%Z by (rewrite <-byteZ_x00; intros ?%byteZ_inj; set_solver).
    pose proof (byteZ_range d). by rewrite byteZ_x00, (proj2 (Z.compare_lt_iff _ _)) by lia.
  - assert (byteZ c ≠ 0)%Z by (rewrite <-byteZ_x00; intros ?%byteZ_inj; set_solver).
    pose proof (byteZ_range c). by rewrite byteZ_x00, (proj2 (Z.compare_gt_iff _ _)) by lia.
  - destruct (byteZ c ?= byteZ d)%Z; [|done..]. apply IH; set_solver.
Qed.

(** The strings from [p] up to [p ++ e] are those that extend [p] by a string below [e]. *)
Lemma prefix_range (p e x : bytes) :
  bytes_le p x → bytes_lt x (p ++ e) → ∃ y, x = p ++ y ∧ bytes_lt y e.
Proof.
  revert x; induction p as [|a p IH]; intros x Hle Hlt; [by exists x|].
  destruct x as [|b x]; [done|]. unfold bytes_le, bytes_lt in *. cbn in Hle, Hlt.
  destruct (Z.compare_spec (byteZ a) (byteZ b)) as [E|E|E]; [| |done].
  - apply byteZ_inj in E as ->. rewrite Z.compare_refl in Hlt.
    destruct (IH x Hle Hlt) as (y & -> & ?). by exists y.
  - rewrite (proj2 (Z.compare_gt_iff _ _)) in Hlt by lia. done.
Qed.

Lemma prefix_range_iff (p e x : bytes) :
  bytes_le p x ∧ bytes_lt x (p ++ e) ↔ ∃ y, x = p ++ y ∧ bytes_lt y e.
Proof.
  split; [intros []; by apply prefix_range|]. intros (y & -> & Hy). split.
  - unfold bytes_le. rewrite <-(app_nil_r p) at 1. rewrite bytes_compare_app. apply bytes_nil_le.
  - unfold bytes_lt. by rewrite bytes_compare_app.
Qed.

Lemma app_inj_len {A} (a b x y : list A) : length a = length b → a ++ x = b ++ y → a = b ∧ x = y.
Proof. intros ? ?. by apply app_inj_1. Qed.
