(* ===== verification/HistoryKeys.v ===== *)
(** * Keys of the history database

    core/ledger/kvledger/history/kv_encoding.go: a history record is a key
    [namespace 0x00 len(key) key 0x00 blockNum tranNum] with an empty value.
    Namespaces never contain the separator (chaincode names are alphanumeric
    with dashes and underscores); keys may contain any byte, which is why
    their length is part of the record. *)

From S2P Require Import Prelude Encoding Version Separated.
From stdpp Require Import options.
Open Scope Z_scope.

Definition compositeKeySep : bytes := [x00].

Definition constructDataKey (ns key : bytes) (blocknum trannum : Z) : bytes :=
  let k := ns ++ compositeKeySep in
  let k := k ++ EncodeOrderPreservingVarUint64 (Z.of_nat (length key)) in
  let k := k ++ key in
  let k := k ++ compositeKeySep in
  let k := k ++ EncodeOrderPreservingVarUint64 blocknum in
  k ++ EncodeOrderPreservingVarUint64 trannum.

Record rangeScan := { startKey : bytes; endKey : bytes }.

Definition constructRangeScan (ns key : bytes) : rangeScan :=
  let k := ns ++ compositeKeySep in
  let k := k ++ EncodeOrderPreservingVarUint64 (Z.of_nat (length key)) in
  let k := k ++ key in
  let k := k ++ compositeKeySep in
  {| startKey := k; endKey := k ++ [xff] |}.

Definition decodeBlockNumTranNum (r : rangeScan) (dataKey : bytes) : res (Z * Z) :=
  let blockNumTranNumBytes := TrimPrefix dataKey (startKey r) in
  '(blockNum, blockBytesConsumed) ← DecodeOrderPreservingVarUint64 blockNumTranNumBytes;
  '(tranNum, tranBytesConsumed) ←
    DecodeOrderPreservingVarUint64 (drop blockBytesConsumed blockNumTranNumBytes);
  if decide (blockBytesConsumed + tranBytesConsumed ≠ length blockNumTranNumBytes)%nat
  then Err "number of decoded bytes is not equal to the length of blockNumTranNumBytes"
  else Ok (blockNum, tranNum).

Lemma constructDataKey_startKey ns key b t :
  constructDataKey ns key b t = startKey (constructRangeScan ns key) ++ Height_ToBytes (NewHeight b t).
Proof. unfold constructDataKey, Height_ToBytes. simpl. by rewrite <-!app_assoc. Qed.

Lemma startKey_assoc ns key :
  startKey (constructRangeScan ns key) =
    ns ++ x00 :: EncodeOrderPreservingVarUint64 (Z.of_nat (length key)) ++ key ++ [x00].
Proof. simpl. unfold compositeKeySep. by rewrite <-!app_assoc. Qed.

(** The prefix of a record determines its namespace and key. *)
Lemma startKey_inj ns key ns' key' x y :
  x00 ∉ ns → x00 ∉ ns' → is_u64 (Z.of_nat (length key)) → is_u64 (Z.of_nat (length key')) →
  startKey (constructRangeScan ns key) ++ x = startKey (constructRangeScan ns' key') ++ y →
  ns = ns' ∧ key = key' ∧ x = y.
Proof.
  intros ? ? Hl Hl'. rewrite !startKey_assoc, <-!app_assoc. simpl. rewrite <-!app_assoc.
  intros [-> Heq]%sep_inj; [|done..].
  apply EncodeOrderPreserving_inj in Heq as [Hlen Heq]; [|done..]. apply Nat2Z.inj in Hlen.
  apply app_inj_len in Heq as [-> Heq]; [|done]. by simplify_eq/=.
Qed.

Lemma Height_ToBytes_lt_ff h : bytes_lt (Height_ToBytes h) [xff].
Proof.
  unfold Height_ToBytes. rewrite EncodeOrderPreserving_alt. unfold bytes_lt. cbn [app bytes_compare].
  pose proof (length_be_bytes 8 (BlockNum h)) as Hlen. unfold PutUint64. rewrite Hlen.
  rewrite byteZ_Zbyte, Z.mod_small by lia. change (byteZ xff) with 255.
  by rewrite (proj2 (Z.compare_lt_iff _ _)) by lia.
Qed.

(** the range scan for a key finds the history of that key and nothing
    else: a record lies in the scanned range if and only if it is a record of
    the same namespace and key, whatever bytes the keys contain. *)
Theorem history_scan_exact (ns key ns' key' : bytes) (b t : Z)
  (Hns : x00 ∉ ns) (Hns' : x00 ∉ ns')
  (Hlen : is_u64 (Z.of_nat (length key))) (Hlen' : is_u64 (Z.of_nat (length key'))) :
  let r := constructRangeScan ns key in
  let k := constructDataKey ns' key' b t in
  (bytes_le (startKey r) k ∧ bytes_lt k (endKey r)) ↔ ns' = ns ∧ key' = key.
Proof.
  cbn zeta. change (endKey (constructRangeScan ns key)) with (startKey (constructRangeScan ns key) ++ [xff]).
  rewrite prefix_range_iff, constructDataKey_startKey. split.
  - intros (y & Heq & _). by apply startKey_inj in Heq as (-> & -> & _).
  - intros [-> ->]. exists (Height_ToBytes (NewHeight b t)). split; [done|apply Height_ToBytes_lt_ff].
Qed.

Lemma history_scan_exact_witness :
  let r := constructRangeScan (B "mycc") (B "asset1") in
  (bytes_le (startKey r) (constructDataKey (B "mycc") (B "asset1") 7 2) ∧
   bytes_lt (constructDataKey (B "mycc") (B "asset1") 7 2) (endKey r)) ∧
  ¬ (bytes_le (startKey r) (constructDataKey (B "mycc") (B "asset10") 7 2) ∧
     bytes_lt (constructDataKey (B "mycc") (B "asset10") 7 2) (endKey r)).
Proof.
  split.
  - apply (history_scan_exact (B "mycc") (B "asset1") (B "mycc") (B "asset1") 7 2);
      [vm_compute; set_solver..|vm_compute; done|vm_compute; done|done].
  - intros H. apply (history_scan_exact (B "mycc") (B "asset1") (B "mycc") (B "asset10") 7 2) in H;
      [|vm_compute; set_solver..|vm_compute; done|vm_compute; done].
    vm_compute in H. by destruct H.
Defined.

(** A record's block and transaction number are recovered from its key,
    and the records of one key are ordered by block and then by transaction. *)
Theorem history_key_roundtrip_order (ns key : bytes) (b t b' t' : Z)
  (Hh : Height_wf (NewHeight b t)) (Hh' : Height_wf (NewHeight b' t')) :
  decodeBlockNumTranNum (constructRangeScan ns key) (constructDataKey ns key b t) = Ok (b, t) ∧
  bytes_compare (constructDataKey ns key b t) (constructDataKey ns key b' t') =
    height_compare (NewHeight b t) (NewHeight b' t').
Proof.
  rewrite !constructDataKey_startKey. split.
  - unfold decodeBlockNumTranNum. rewrite TrimPrefix_app.
    destruct Hh as [Hb Ht]. simpl in Hb, Ht. unfold Height_ToBytes. simpl.
    rewrite Decode_EncodeOrderPreserving by done. simpl.
    rewrite drop_app_length. rewrite <-(app_nil_r (EncodeOrderPreservingVarUint64 t)) at 1.
    rewrite Decode_EncodeOrderPreserving by done. simpl.
    rewrite length_app. by rewrite decide_False by naive_solver.
  - rewrite bytes_compare_app.
    rewrite <-(app_nil_r (Height_ToBytes (NewHeight b t))), <-(app_nil_r (Height_ToBytes (NewHeight b' t'))).
    rewrite Height_ToBytes_compare by done. by destruct (height_compare _ _).
Qed.

Lemma history_key_roundtrip_order_witness :
  decodeBlockNumTranNum (constructRangeScan (B "mycc") (B "k")) (constructDataKey (B "mycc") (B "k") 300 2) = Ok (300, 2) ∧
  bytes_compare (constructDataKey (B "mycc") (B "k") 300 2) (constructDataKey (B "mycc") (B "k") 299 5) = Gt.
Proof.
  apply (history_key_roundtrip_order (B "mycc") (B "k") 300 2 299 5);
    split; split; vm_compute; congruence.
Defined.
