(* ===== verification/PvtKeys.v ===== *)
(** * Keys of the private-data store

    core/ledger/pvtdatastorage/kv_encoding.go. Every kind of entry has its own
    one-byte prefix. Data, expiry and hashed-index keys contain heights in the
    order-preserving encoding, so that entries are scanned by block; missing
    data keys contain the block number in the reverse-order encoding, so that
    the most recent block comes first. Namespaces and collection names do not
    contain the zero byte that separates them. *)

From S2P Require Import Prelude Encoding Version Separated.
From stdpp Require Import options.
Open Scope Z_scope.

Definition pvtDataKeyPrefix : bytes := [x02].
Definition expiryKeyPrefix : bytes := [x03].
Definition elgPrioritizedMissingDataGroup : bytes := [x04].
Definition inelgMissingDataGroup : bytes := [x05].
Definition collElgKeyPrefix : bytes := [x06].
Definition elgDeprioritizedMissingDataGroup : bytes := [x08].
Definition bootKVHashesKeyPrefix : bytes := [x09].
Definition hashedIndexKeyPrefix : bytes := B "b".
Definition purgeMarkerKeyPrefix : bytes := B "c".
Definition purgeMarkerCollKeyPrefix : bytes := B "d".
Definition purgeMarkerForReconKeyPrefix : bytes := B "e".
Definition nilByte : byte := x00.

(** ** Key types of store.go *)

Record nsCollBlk := { ns : bytes; coll : bytes; blkNum : Z }.
Record dataKey := { dk_nsCollBlk :> nsCollBlk; dk_txNum : Z }.
Record expiryKey := { expiringBlk : Z; committingBlk : Z }.
(** [missingDataKey] embeds [nsCollBlk] and adds nothing to it. *)
Definition missingDataKey := nsCollBlk.
Record bootKVHashesKey := { bk_blkNum : Z; bk_txNum : Z; bk_ns : bytes; bk_coll : bytes }.
Record hashedIndexKey :=
  { hk_ns : bytes; hk_coll : bytes; hk_pvtkeyHash : bytes; hk_blkNum : Z; hk_txNum : Z }.
Record purgeMarkerKey := { pm_ns : bytes; pm_coll : bytes; pm_pvtkeyHash : bytes }.
Record purgeMarkerVal := { pmv_blkNum : Z; pmv_txNum : Z }.
Record purgeMarkerCollKey := { pmc_ns : bytes; pmc_coll : bytes }.

(** ** Encoders and decoders *)

(** [blockNum+1] is a [uint64] addition. *)
Definition getDataKeysForRangeScanByBlockNum (blockNum : Z) : bytes * bytes :=
  (pvtDataKeyPrefix ++ Height_ToBytes (NewHeight blockNum 0),
   pvtDataKeyPrefix ++ Height_ToBytes (NewHeight (u64 (blockNum + 1)) 0)).

Definition getExpiryKeysForRangeScan (minBlkNum maxBlkNum : Z) : bytes * bytes :=
  (expiryKeyPrefix ++ Height_ToBytes (NewHeight minBlkNum 0),
   expiryKeyPrefix ++ Height_ToBytes (NewHeight (u64 (maxBlkNum + 1)) 0)).

Definition encodeLastCommittedBlockVal (blockNum : Z) : bytes := EncodeVarint blockNum.
Definition decodeLastCommittedBlockVal (blockNumBytes : bytes) : Z := fst (DecodeVarint blockNumBytes).

Definition encodeDataKey (key : dataKey) : bytes :=
  let dataKeyBytes := pvtDataKeyPrefix ++ Height_ToBytes (NewHeight (blkNum key) (dk_txNum key)) in
  let dataKeyBytes := dataKeyBytes ++ ns key in
  let dataKeyBytes := dataKeyBytes ++ [nilByte] in
  dataKeyBytes ++ coll key.

Definition encodeExpiryKey (expiryKey : expiryKey) : bytes :=
  expiryKeyPrefix ++ Height_ToBytes (NewHeight (expiringBlk expiryKey) (committingBlk expiryKey)).

Definition decodeExpiryKey (expiryKeyBytes : bytes) : res expiryKey :=
  rest ← slice_from expiryKeyBytes 1;
  '(height, _) ← NewHeightFromBytes rest;
  Ok {| expiringBlk := BlockNum height; committingBlk := TxNum height |}.

(** [remainingBytes[:nilByteIndex]] panics when there is no zero byte. *)
Definition decodeDatakey (datakeyBytes : bytes) : res dataKey :=
  rest ← slice_from datakeyBytes 1;
  '(v, n) ← NewHeightFromBytes rest;
  remainingBytes ← slice_from datakeyBytes (S n);
  match IndexByte remainingBytes nilByte with
  | None => Panic
  | Some nilByteIndex =>
      Ok {| dk_nsCollBlk := {| ns := take nilByteIndex remainingBytes;
                               coll := drop (S nilByteIndex) remainingBytes;
                               blkNum := BlockNum v |};
            dk_txNum := TxNum v |}
  end.

Definition encodeElgPrioMissingDataKey (key : missingDataKey) : bytes :=
  let encKey := elgPrioritizedMissingDataGroup ++ encodeReverseOrderVarUint64 (blkNum key) in
  let encKey := encKey ++ ns key in
  let encKey := encKey ++ [nilByte] in
  encKey ++ coll key.

Definition encodeElgDeprioMissingDataKey (key : missingDataKey) : bytes :=
  let encKey := elgDeprioritizedMissingDataGroup ++ encodeReverseOrderVarUint64 (blkNum key) in
  let encKey := encKey ++ ns key in
  let encKey := encKey ++ [nilByte] in
  encKey ++ coll key.

Definition decodeElgMissingDataKey (keyBytes : bytes) : res missingDataKey :=
  rest ← slice_from keyBytes 1;
  '(blkNum, numBytesConsumed) ← decodeReverseOrderVarUint64 rest;
  rest ← slice_from keyBytes (S numBytesConsumed);
  let splittedKey := Split nilByte rest in
  ns ← index splittedKey 0;
  coll ← index splittedKey 1;
  Ok {| ns := ns; coll := coll; blkNum := blkNum |}.

Definition encodeInelgMissingDataKey (key : missingDataKey) : bytes :=
  let encKey := inelgMissingDataGroup ++ ns key in
  let encKey := encKey ++ [nilByte] in
  let encKey := encKey ++ coll key in
  let encKey := encKey ++ [nilByte] in
  encKey ++ encodeReverseOrderVarUint64 (blkNum key).

Definition decodeInelgMissingDataKey (keyBytes : bytes) : res missingDataKey :=
  rest ← slice_from keyBytes 1;
  let splittedKey := SplitN nilByte 3 rest in
  ns ← index splittedKey 0;
  coll ← index splittedKey 1;
  blk ← index splittedKey 2;
  '(blkNum, _) ← decodeReverseOrderVarUint64 blk;
  Ok {| ns := ns; coll := coll; blkNum := blkNum |}.

Definition encodeCollElgKey (blkNum : Z) : bytes :=
  collElgKeyPrefix ++ encodeReverseOrderVarUint64 blkNum.

Definition decodeCollElgKey (b : bytes) : res Z :=
  rest ← slice_from b 1;
  '(blkNum, _) ← decodeReverseOrderVarUint64 rest;
  Ok blkNum.

Definition encodeBootKVHashesKey (key : bootKVHashesKey) : bytes :=
  let k := bootKVHashesKeyPrefix ++ Height_ToBytes (NewHeight (bk_blkNum key) (bk_txNum key)) in
  let k := k ++ bk_ns key in
  let k := k ++ [nilByte] in
  k ++ bk_coll key.

Definition encodeLastBlockInBootSnapshotVal (blockNum : Z) : bytes := EncodeVarint blockNum.
Definition decodeLastBlockInBootSnapshotVal (blockNumBytes : bytes) : res Z :=
  let '(s, n) := DecodeVarint blockNumBytes in
  if decide (n = 0%nat) then Err "unexpected bytes for interpreting as varint" else Ok s.

Definition createRangeScanKeysForElgMissingData (blkNum : Z) (group : bytes) : bytes * bytes :=
  (group ++ encodeReverseOrderVarUint64 blkNum, group ++ encodeReverseOrderVarUint64 0).

Definition createRangeScanKeysForInelgMissingData (maxBlkNum : Z) (n c : bytes) : bytes * bytes :=
  (encodeInelgMissingDataKey {| ns := n; coll := c; blkNum := maxBlkNum |},
   encodeInelgMissingDataKey {| ns := n; coll := c; blkNum := 0 |}).

Definition createRangeScanKeysForCollElg : bytes * bytes :=
  (encodeCollElgKey MaxUint64, encodeCollElgKey 0).

Definition entireDatakeyRange : bytes * bytes :=
  (pvtDataKeyPrefix ++ Height_ToBytes (NewHeight 0 0),
   pvtDataKeyPrefix ++ Height_ToBytes (NewHeight MaxUint64 MaxUint64)).

Definition eligibleMissingdatakeyRange (blkNum : Z) : bytes * bytes :=
  (elgPrioritizedMissingDataGroup ++ encodeReverseOrderVarUint64 blkNum,
   elgPrioritizedMissingDataGroup ++ encodeReverseOrderVarUint64 (u64 (blkNum - 1))).

Definition encodeHashedIndexKey (k : hashedIndexKey) : bytes :=
  let encKey := hashedIndexKeyPrefix ++ hk_ns k in
  let encKey := encKey ++ [nilByte] in
  let encKey := encKey ++ hk_coll k in
  let encKey := encKey ++ [nilByte] in
  let encKey := encKey ++ hk_pvtkeyHash k in
  encKey ++ Height_ToBytes (NewHeight (hk_blkNum k) (hk_txNum k)).

Definition encodePurgeMarkerCollKey (k : purgeMarkerCollKey) : bytes :=
  let encKey := purgeMarkerCollKeyPrefix ++ pmc_ns k in
  let encKey := encKey ++ [nilByte] in
  encKey ++ pmc_coll k.

Definition encodePurgeMarkerKey (k : purgeMarkerKey) : bytes :=
  let encKey := purgeMarkerKeyPrefix ++ pm_ns k in
  let encKey := encKey ++ [nilByte] in
  let encKey := encKey ++ pm_coll k in
  let encKey := encKey ++ [nilByte] in
  encKey ++ pm_pvtkeyHash k.

Definition encodePurgeMarkerForReconKey (k : purgeMarkerKey) : bytes :=
  let encKey := purgeMarkerForReconKeyPrefix ++ pm_ns k in
  let encKey := encKey ++ [nilByte] in
  let encKey := encKey ++ pm_coll k in
  let encKey := encKey ++ [nilByte] in
  encKey ++ pm_pvtkeyHash k.

Definition rangeScanKeysForPurgeMarkers : bytes * bytes :=
  (purgeMarkerKeyPrefix, [Zbyte (byteZ (hd x00 purgeMarkerKeyPrefix) + 1)]).

Definition encodePurgeMarkerVal (v : purgeMarkerVal) : bytes :=
  Height_ToBytes (NewHeight (pmv_blkNum v) (pmv_txNum v)).

Definition decodePurgeMarkerVal (b : bytes) : res Height :=
  '(v, _) ← NewHeightFromBytes b; Ok v.

(** The increment of [TxNum] is on [uint64]. *)
Definition driveHashedIndexKeyRangeFromPurgeMarker (purgeMarkerKey purgeMarkerVal : bytes) : res (bytes * bytes) :=
  rest ← slice_from purgeMarkerKey 1;
  let startKey := hashedIndexKeyPrefix ++ rest in
  version ← decodePurgeMarkerVal purgeMarkerVal;
  let version := NewHeight (BlockNum version) (u64 (TxNum version + 1)) in
  Ok (startKey, startKey ++ Height_ToBytes version).

Definition rangeScanKeysForHashedIndexKey (n c keyHash : bytes) : bytes * bytes :=
  (encodeHashedIndexKey {| hk_ns := n; hk_coll := c; hk_pvtkeyHash := keyHash; hk_blkNum := 0; hk_txNum := 0 |},
   encodeHashedIndexKey {| hk_ns := n; hk_coll := c; hk_pvtkeyHash := keyHash;
                           hk_blkNum := MaxUint64; hk_txNum := MaxUint64 |}).

(** The scan for the first two zero bytes: [None] when one is missing, where
    the source leaves [secondNilByteIndex] at 0. *)
Definition twoNilBytes (l : bytes) : option (nat * nat) :=
  match IndexByte l nilByte with
  | None => None
  | Some i => match IndexByte (drop (S i) l) nilByte with
              | None => None
              | Some j => Some (i, (S i + j)%nat)
              end
  end.

Definition deriveDataKeyFromEncodedHashedIndexKey (encHashedIndexKey : bytes) : res bytes :=
  let lengthHashedPvtKey := 32%nat in
  match twoNilBytes encHashedIndexKey with
  | None => Err "unexpected bytes for HashedIndexed key"
  | Some (firstNilByteIndex, secondNilByteIndex) =>
      ns ← slice encHashedIndexKey 1 firstNilByteIndex;
      coll ← slice encHashedIndexKey (S firstNilByteIndex) secondNilByteIndex;
      blkNumTxNumBytes ← slice_from encHashedIndexKey (secondNilByteIndex + lengthHashedPvtKey + 1);
      let encDataKey := pvtDataKeyPrefix ++ blkNumTxNumBytes in
      let encDataKey := encDataKey ++ ns in
      let encDataKey := encDataKey ++ [nilByte] in
      Ok (encDataKey ++ coll)
  end.

(** ** Lemmas *)

Definition names_wf (n c : bytes) : Prop := x00 ∉ n ∧ x00 ∉ c.

Lemma encodeDataKey_assoc (k : dataKey) :
  encodeDataKey k =
    x02 :: Height_ToBytes (NewHeight (blkNum k) (dk_txNum k)) ++ ns k ++ x00 :: coll k.
Proof. unfold encodeDataKey, nilByte. by rewrite <-!app_assoc. Qed.

Lemma encodeHashedIndexKey_assoc k :
  encodeHashedIndexKey k =
    x62 :: hk_ns k ++ x00 :: hk_coll k ++ x00 :: hk_pvtkeyHash k ++
      Height_ToBytes (NewHeight (hk_blkNum k) (hk_txNum k)).
Proof. unfold encodeHashedIndexKey, nilByte. by rewrite <-!app_assoc. Qed.

Lemma decodeDatakey_encode (k : dataKey) :
  is_u64 (blkNum k) → is_u64 (dk_txNum k) → x00 ∉ ns k → decodeDatakey (encodeDataKey k) = Ok k.
Proof.
  intros Hb Ht Hn. rewrite encodeDataKey_assoc. unfold decodeDatakey.
  rewrite slice_from_cons. run. rewrite NewHeightFromBytes_ToBytes by done. run.
  rewrite slice_from_cons_app. run.
  rewrite IndexByte_app by done. rewrite take_app_length.
  change (ns k ++ x00 :: coll k) with (ns k ++ [x00] ++ coll k).
  rewrite app_assoc, drop_app_length' by (rewrite length_app; simpl; lia).
  by destruct k as [[] ?].
Qed.

Lemma decodeElg_encode (g : byte) (k : missingDataKey) :
  is_u64 (blkNum k) → names_wf (ns k) (coll k) →
  decodeElgMissingDataKey (g :: encodeReverseOrderVarUint64 (blkNum k) ++ ns k ++ x00 :: coll k) = Ok k.
Proof.
  intros Hb [Hn Hc]. unfold decodeElgMissingDataKey.
  rewrite slice_from_cons. run. rewrite decode_encodeReverse by done. run.
  rewrite slice_from_cons_app. run.
  unfold nilByte. rewrite Split_2 by done. by destruct k.
Qed.

Lemma decodeInelg_encode (k : missingDataKey) :
  is_u64 (blkNum k) → names_wf (ns k) (coll k) →
  decodeInelgMissingDataKey (encodeInelgMissingDataKey k) = Ok k.
Proof.
  intros Hb [Hn Hc]. unfold decodeInelgMissingDataKey, encodeInelgMissingDataKey, nilByte.
  rewrite <-!app_assoc. cbn [app inelgMissingDataGroup]. rewrite slice_from_cons. run.
  unfold nilByte. rewrite (SplitN_3 _ (ns k) (coll k)) by done. run.
  rewrite <-(app_nil_r (encodeReverseOrderVarUint64 _)).
  rewrite decode_encodeReverse by done. by destruct k.
Qed.

(** Two keys with the same prefix byte compare as what follows it. *)
Lemma cons_compare (b : byte) x y : bytes_compare (b :: x) (b :: y) = bytes_compare x y.
Proof. cbn. by rewrite Z.compare_refl. Qed.

Lemma bytes_le_app x y z : bytes_compare x y ≠ Gt → bytes_compare x (y ++ z) ≠ Gt.
Proof.
  revert y; induction x as [|a x IH]; intros [|b y]; cbn; try done.
  - by destruct z.
  - destruct (byteZ a ?= byteZ b); auto.
Qed.

(** Entries whose key starts with a height, scanned from block [lo] (inclusive)
    to block [hi] (exclusive). *)
Lemma height_range_exact (p : byte) lo hi h x :
  is_u64 lo → is_u64 hi → Height_wf h →
  bytes_le (p :: Height_ToBytes (NewHeight lo 0)) (p :: Height_ToBytes h ++ x) ∧
  bytes_lt (p :: Height_ToBytes h ++ x) (p :: Height_ToBytes (NewHeight hi 0)) ↔
  lo ≤ BlockNum h < hi.
Proof.
  intros Hlo Hhi Hh. assert (is_u64 0) by done.
  unfold bytes_le, bytes_lt. rewrite !cons_compare.
  rewrite <-(app_nil_r (Height_ToBytes (NewHeight lo 0))), <-(app_nil_r (Height_ToBytes (NewHeight hi 0))).
  rewrite !Height_ToBytes_compare by done. unfold height_compare. cbn [BlockNum TxNum].
  destruct Hh as [_ [Ht _]].
  destruct (Z.compare_spec lo (BlockNum h)), (Z.compare_spec (BlockNum h) hi);
    destruct (Z.compare_spec 0 (TxNum h)), (Z.compare_spec (TxNum h) 0);
    try lia; destruct x; simpl; (split; [intros []|intros ?; split]); try done; lia.
Qed.

(** A height is below [(b, t + 1)] exactly when it is at most [(b, t)]. *)
Lemma Height_ToBytes_lt_next h b t :
  Height_wf h → Height_wf (NewHeight b (t + 1)) →
  bytes_lt (Height_ToBytes h) (Height_ToBytes (NewHeight b (t + 1))) ↔
  height_compare h (NewHeight b t) ≠ Gt.
Proof.
  intros Hh Hwf. unfold bytes_lt.
  rewrite <-(app_nil_r (Height_ToBytes h)), <-(app_nil_r (Height_ToBytes (NewHeight _ _))).
  rewrite Height_ToBytes_compare by done. unfold height_compare. simpl.
  destruct (BlockNum h ?= b); try done.
  destruct (Z.compare_spec (TxNum h) (t + 1)), (Z.compare_spec (TxNum h) t); done || lia.
Qed.

Definition hashedIndexPrefix (m : purgeMarkerKey) : bytes :=
  x62 :: pm_ns m ++ x00 :: pm_coll m ++ x00 :: pm_pvtkeyHash m.

Lemma drive_range_eq m v :
  is_u64 (pmv_blkNum v) → 0 ≤ pmv_txNum v < MaxUint64 →
  driveHashedIndexKeyRangeFromPurgeMarker (encodePurgeMarkerKey m) (encodePurgeMarkerVal v) =
    Ok (hashedIndexPrefix m,
        hashedIndexPrefix m ++ Height_ToBytes (NewHeight (pmv_blkNum v) (pmv_txNum v + 1))).
Proof.
  intros Hb Ht.
  unfold driveHashedIndexKeyRangeFromPurgeMarker, encodePurgeMarkerKey, encodePurgeMarkerVal, decodePurgeMarkerVal.
  rewrite <-!app_assoc. change purgeMarkerKeyPrefix with [x63]. unfold nilByte. cbn [app].
  rewrite slice_from_cons. simpl. rewrite <-(app_nil_r (Height_ToBytes _)) at 1.
  rewrite NewHeightFromBytes_ToBytes; [|split; [done|]; unfold is_u64, MaxUint64 in *; simpl; lia]. simpl.
  unfold u64. by rewrite Z.mod_small by (unfold MaxUint64 in *; lia).
Qed.

Lemma hashedIndex_prefix_iff m k y :
  names_wf (pm_ns m) (pm_coll m) → names_wf (hk_ns k) (hk_coll k) →
  length (hk_pvtkeyHash k) = length (pm_pvtkeyHash m) →
  encodeHashedIndexKey k = hashedIndexPrefix m ++ y ↔
  hk_ns k = pm_ns m ∧ hk_coll k = pm_coll m ∧ hk_pvtkeyHash k = pm_pvtkeyHash m ∧
  y = Height_ToBytes (NewHeight (hk_blkNum k) (hk_txNum k)).
Proof.
  intros [Hm1 Hm2] [Hk1 Hk2] Hlen. rewrite encodeHashedIndexKey_assoc. unfold hashedIndexPrefix.
  cbn [app]. rewrite <-!app_assoc. cbn [app]. rewrite <-!app_assoc. split.
  - intros [= Heq]. apply sep_inj in Heq as [-> Heq]; [|done..].
    apply sep_inj in Heq as [-> Heq]; [|done..]. by apply app_inj_len in Heq as [-> <-].
  - by intros (-> & -> & -> & ->).
Qed.

Lemma twoNilBytes_eq (a b r : bytes) :
  x00 ∉ a → x00 ∉ b →
  twoNilBytes (a ++ x00 :: b ++ x00 :: r) = Some (length a, (S (length a) + length b)%nat).
Proof.
  intros Ha Hb. unfold twoNilBytes, nilByte. rewrite IndexByte_app by done.
  rewrite <-(Nat.add_1_r (length a)) at 1. rewrite drop_app_add. cbn [drop].
  by rewrite drop_0, IndexByte_app.
Qed.

(** ** Properties *)

(** data keys and the three kinds of missing-data keys decode to the key
    they were encoded from. *)
Theorem pvt_keys_roundtrip (k : dataKey)
  (Hb : is_u64 (blkNum k)) (Ht : is_u64 (dk_txNum k)) (Hn : names_wf (ns k) (coll k)) :
  decodeDatakey (encodeDataKey k) = Ok k ∧
  decodeElgMissingDataKey (encodeElgPrioMissingDataKey k) = Ok (dk_nsCollBlk k) ∧
  decodeElgMissingDataKey (encodeElgDeprioMissingDataKey k) = Ok (dk_nsCollBlk k) ∧
  decodeInelgMissingDataKey (encodeInelgMissingDataKey k) = Ok (dk_nsCollBlk k).
Proof.
  destruct Hn. split_and!.
  - by apply decodeDatakey_encode.
  - unfold encodeElgPrioMissingDataKey. rewrite <-!app_assoc. by apply decodeElg_encode.
  - unfold encodeElgDeprioMissingDataKey. rewrite <-!app_assoc. by apply decodeElg_encode.
  - by apply decodeInelg_encode.
Qed.

Definition sample_dataKey : dataKey :=
  {| dk_nsCollBlk := {| ns := B "ns-1"; coll := B "coll-1"; blkNum := 1048576 |}; dk_txNum := 3 |}.

Lemma pvt_keys_roundtrip_witness :
  decodeDatakey (encodeDataKey sample_dataKey) = Ok sample_dataKey ∧
  decodeInelgMissingDataKey (encodeInelgMissingDataKey sample_dataKey) = Ok (dk_nsCollBlk sample_dataKey).
Proof.
  destruct (pvt_keys_roundtrip sample_dataKey) as (? & ? & ? & ?);
    [vm_compute; by split|vm_compute; by split|split; vm_compute; set_solver|by split].
Defined.

(** scanning the private data of a block returns the data keys of that
    block and of no other, for every block but the last representable one. *)
Theorem pvt_data_scan_exact (blockNum : Z) (k : dataKey)
  (Hblk : 0 ≤ blockNum < MaxUint64) (Hb : is_u64 (blkNum k)) (Ht : is_u64 (dk_txNum k)) :
  let '(startKey, endKey) := getDataKeysForRangeScanByBlockNum blockNum in
  bytes_le startKey (encodeDataKey k) ∧ bytes_lt (encodeDataKey k) endKey ↔ blkNum k = blockNum.
Proof.
  unfold getDataKeysForRangeScanByBlockNum. rewrite encodeDataKey_assoc.
  unfold MaxUint64 in *. unfold u64. rewrite Z.mod_small by lia.
  etrans; [apply height_range_exact; unfold is_u64; simpl; [lia|lia|done]|]. simpl. lia.
Qed.

Lemma pvt_data_scan_exact_witness :
  let '(startKey, endKey) := getDataKeysForRangeScanByBlockNum 1048576 in
  bytes_le startKey (encodeDataKey sample_dataKey) ∧ bytes_lt (encodeDataKey sample_dataKey) endKey.
Proof.
  apply (pvt_data_scan_exact 1048576 sample_dataKey); [vm_compute; by split..|done].
Defined.

(** The scan for eligible missing data up to block [b] covers the entries
    of the blocks 1 to [b], and within the group an entry of a more recent
    block comes strictly before an entry of an older one. *)
Theorem missing_data_scan_recent_first (b : Z) (k k' : missingDataKey)
  (Hbu : is_u64 b) (Hk : is_u64 (blkNum k)) (Hk' : is_u64 (blkNum k')) :
  let '(startKey, endKey) := createRangeScanKeysForElgMissingData b elgPrioritizedMissingDataGroup in
  (bytes_le startKey (encodeElgPrioMissingDataKey k) ∧ bytes_lt (encodeElgPrioMissingDataKey k) endKey ↔
     0 < blkNum k ≤ b) ∧
  (blkNum k' < blkNum k → bytes_lt (encodeElgPrioMissingDataKey k) (encodeElgPrioMissingDataKey k')).
Proof.
  unfold createRangeScanKeysForElgMissingData, encodeElgPrioMissingDataKey.
  rewrite <-!app_assoc. cbn [app elgPrioritizedMissingDataGroup].
  assert (is_u64 0) by done.
  unfold bytes_le, bytes_lt. rewrite !cons_compare.
  rewrite <-(app_nil_r (encodeReverseOrderVarUint64 b)), <-(app_nil_r (encodeReverseOrderVarUint64 0)).
  rewrite !encodeReverse_compare by done. destruct Hk as [Hk _]. split.
  - destruct (Z.compare_spec (blkNum k) b), (Z.compare_spec 0 (blkNum k)); try lia;
      (destruct (ns k ++ nilByte :: coll k) eqn:E; [by destruct (ns k)|]); simpl;
      (split; [intros []|intros ?; split]); try done; lia.
  - intros Hlt. by rewrite (proj2 (Z.compare_lt_iff _ _)) by lia.
Qed.

Lemma missing_data_scan_recent_first_witness :
  let k b : missingDataKey := {| ns := B "ns"; coll := B "c"; blkNum := b |} in
  let '(startKey, endKey) := createRangeScanKeysForElgMissingData 9 elgPrioritizedMissingDataGroup in
  (bytes_le startKey (encodeElgPrioMissingDataKey (k 9)) ∧ bytes_lt (encodeElgPrioMissingDataKey (k 9)) endKey) ∧
  bytes_lt (encodeElgPrioMissingDataKey (k 9)) (encodeElgPrioMissingDataKey (k 8)).
Proof.
  destruct (missing_data_scan_recent_first 9
    {| ns := B "ns"; coll := B "c"; blkNum := 9 |} {| ns := B "ns"; coll := B "c"; blkNum := 8 |})
    as [H1 H2]; [vm_compute; by split..|].
  assert (0 < 9 ≤ 9) as Ha by lia. assert (8 < 9) as Hlt by lia.
  exact (conj (proj2 H1 Ha) (H2 Hlt)).
Defined.

(** the purge of a private key removes exactly its versions up to the
    purge: an entry of the hashed index lies in the range derived from a purge
    marker if and only if it is for the same namespace, collection and key
    hash, and its height is at most the height of the marker. *)
Theorem purge_range_exact (m : purgeMarkerKey) (v : purgeMarkerVal) (k : hashedIndexKey)
  (Hm : names_wf (pm_ns m) (pm_coll m)) (Hk : names_wf (hk_ns k) (hk_coll k))
  (Hlen : length (hk_pvtkeyHash k) = length (pm_pvtkeyHash m))
  (Hv : is_u64 (pmv_blkNum v)) (Hvt : 0 ≤ pmv_txNum v < MaxUint64)
  (Hkh : Height_wf (NewHeight (hk_blkNum k) (hk_txNum k))) :
  ∃ startKey endKey,
    driveHashedIndexKeyRangeFromPurgeMarker (encodePurgeMarkerKey m) (encodePurgeMarkerVal v) =
      Ok (startKey, endKey) ∧
    (bytes_le startKey (encodeHashedIndexKey k) ∧ bytes_lt (encodeHashedIndexKey k) endKey ↔
     hk_ns k = pm_ns m ∧ hk_coll k = pm_coll m ∧ hk_pvtkeyHash k = pm_pvtkeyHash m ∧
     height_compare (NewHeight (hk_blkNum k) (hk_txNum k)) (NewHeight (pmv_blkNum v) (pmv_txNum v)) ≠ Gt).
Proof.
  exists (hashedIndexPrefix m),
    (hashedIndexPrefix m ++ Height_ToBytes (NewHeight (pmv_blkNum v) (pmv_txNum v + 1))).
  split; [by apply drive_range_eq|]. rewrite prefix_range_iff.
  rewrite <-Height_ToBytes_lt_next;
    [|done|split; [done|unfold is_u64, MaxUint64 in *; simpl; lia]].
  setoid_rewrite hashedIndex_prefix_iff; [|done..]. naive_solver.
Qed.

Lemma purge_range_exact_witness :
  let m := {| pm_ns := B "ns"; pm_coll := B "c"; pm_pvtkeyHash := B "h1" |} in
  let k b t := {| hk_ns := B "ns"; hk_coll := B "c"; hk_pvtkeyHash := B "h1"; hk_blkNum := b; hk_txNum := t |} in
  ∃ startKey endKey,
    driveHashedIndexKeyRangeFromPurgeMarker (encodePurgeMarkerKey m)
      (encodePurgeMarkerVal {| pmv_blkNum := 5; pmv_txNum := 2 |}) = Ok (startKey, endKey) ∧
    bytes_le startKey (encodeHashedIndexKey (k 5 2)) ∧ bytes_lt (encodeHashedIndexKey (k 5 2)) endKey.
Proof.
  destruct (purge_range_exact {| pm_ns := B "ns"; pm_coll := B "c"; pm_pvtkeyHash := B "h1" |}
    {| pmv_blkNum := 5; pmv_txNum := 2 |}
    {| hk_ns := B "ns"; hk_coll := B "c"; hk_pvtkeyHash := B "h1"; hk_blkNum := 5; hk_txNum := 2 |})
    as (s & e & Heq & Hiff);
    [split; vm_compute; set_solver..|done|vm_compute; by split|vm_compute; by split|split; vm_compute; by split|].
  exists s, e. split; [done|]. apply Hiff. split_and!; [done..|vm_compute; congruence].
Defined.

(** The data key derived from an entry of the hashed index is the key
    under which the private write set of that transaction is stored, for
    SHA-256 key hashes. *)
Theorem derive_data_key_correct (k : hashedIndexKey)
  (Hk : names_wf (hk_ns k) (hk_coll k)) (Hlen : length (hk_pvtkeyHash k) = 32%nat) :
  deriveDataKeyFromEncodedHashedIndexKey (encodeHashedIndexKey k) =
    Ok (encodeDataKey {| dk_nsCollBlk := {| ns := hk_ns k; coll := hk_coll k; blkNum := hk_blkNum k |};
                         dk_txNum := hk_txNum k |}).
Proof.
  destruct Hk as [Hn Hc]. rewrite encodeHashedIndexKey_assoc, encodeDataKey_assoc. simpl ns; simpl coll.
  set (h := Height_ToBytes _). unfold deriveDataKeyFromEncodedHashedIndexKey.
  pose proof (twoNilBytes_eq (x62 :: hk_ns k) (hk_coll k) (hk_pvtkeyHash k ++ h)) as E.
  cbn [app] in E. rewrite E by (done || set_solver). clear E.
  rewrite (slice_mid _ [x62] (hk_ns k) (x00 :: hk_coll k ++ x00 :: hk_pvtkeyHash k ++ h) 1) by done. run.
  rewrite (slice_mid _ (x62 :: hk_ns k ++ [x00]) (hk_coll k) (x00 :: hk_pvtkeyHash k ++ h));
    [|by simpl; rewrite <-app_assoc|simpl; rewrite length_app; simpl; lia..]. run.
  rewrite (slice_from_eq _ (x62 :: hk_ns k ++ x00 :: hk_coll k ++ x00 :: hk_pvtkeyHash k) h);
    [|by simpl; rewrite <-!app_assoc; simpl; rewrite <-!app_assoc
     |simpl; rewrite !length_app; simpl; rewrite !length_app; simpl; lia].
  run. by rewrite <-!app_assoc.
Qed.

Lemma derive_data_key_correct_witness :
  let h := replicate 32 x07 in
  deriveDataKeyFromEncodedHashedIndexKey (encodeHashedIndexKey
    {| hk_ns := B "ns"; hk_coll := B "c"; hk_pvtkeyHash := h; hk_blkNum := 5; hk_txNum := 2 |}) =
  Ok (encodeDataKey {| dk_nsCollBlk := {| ns := B "ns"; coll := B "c"; blkNum := 5 |}; dk_txNum := 2 |}).
Proof.
  apply (derive_data_key_correct
    {| hk_ns := B "ns"; hk_coll := B "c"; hk_pvtkeyHash := replicate 32 x07; hk_blkNum := 5; hk_txNum := 2 |});
    [split; vm_compute; set_solver|done].
Defined.
