(* ===== verification/StateDB.v ===== *)
(** * State database: versioned values, update batches, iterators

  Models core/ledger/kvledger/txmgmt/statedb/statedb.go: the versioned
  values, the [UpdateBatch] in which the writes of the valid transactions of
  a block are collected, and the iterator over a key range of a batch
  ([nsIterator], with the binary search of Go's [sort.SearchStrings]).

  The interfaces [ResultsIterator] and [VersionedDB] of the source are the
  type classes of the same names. [Drains] says what a client sees of an
  iterator, and [VersionedDBLaws] what a state database promises: that it
  presents a fixed committed state. The validation components are proved
  against these, and the LevelDB state database discharges them. *)

From S2P Require Import Prelude SortedMap Version.
From stdpp Require Import options.
Local Open Scope nat_scope.

(** ** Data *)

Record CompositeKey := { Namespace : bytes; Key : bytes }.

(** A nil slice is [None]; a nil [Value] marks a delete. *)
Record VersionedValue := {
  Value : option bytes;
  Metadata : option bytes;
  vv_Version : option Height
}.

(** [VersionedKV] embeds a [CompositeKey] and a [VersionedValue]. *)
Record VersionedKV := { kv_key :> CompositeKey; kv_val :> VersionedValue }.

#[export] Instance VersionedValue_eq_dec : EqDecision VersionedValue.
Proof. solve_decision. Defined.
#[export] Instance CompositeKey_eq_dec : EqDecision CompositeKey.
Proof. solve_decision. Defined.
#[export] Instance CompositeKey_countable : Countable CompositeKey.
Proof.
  apply (inj_countable' (λ c, (Namespace c, Key c)) (λ p, {| Namespace := p.1; Key := p.2 |})).
  by intros [].
Defined.

Definition IsDelete (vv : VersionedValue) : bool := bool_decide (Value vv = None).

(** [nsUpdates] is a struct with the one map [M]. *)
Record nsUpdates := { M : gmap bytes VersionedValue }.
Definition newNsUpdates : nsUpdates := {| M := ∅ |}.

Record UpdateBatch := {
  ContainsPostOrderWrites : bool;
  Updates : gmap bytes nsUpdates;
  SchemaUpdates : list bytes
}.
Definition NewUpdateBatch : UpdateBatch :=
  {| ContainsPostOrderWrites := false; Updates := ∅; SchemaUpdates := [] |}.

(** ** Operations of the batch *)

Definition UpdateBatch_Get (batch : UpdateBatch) (ns key : bytes) : option VersionedValue :=
  match Updates batch !! ns with
  | None => None
  | Some u => M u !! key
  end.

Definition getOrCreateNsUpdates (batch : UpdateBatch) (ns : bytes) : nsUpdates :=
  match Updates batch !! ns with Some u => u | None => newNsUpdates end.

Definition UpdateBatch_Update (batch : UpdateBatch) (ns key : bytes) (vv : VersionedValue) : UpdateBatch :=
  let u := getOrCreateNsUpdates batch ns in
  {| ContainsPostOrderWrites := ContainsPostOrderWrites batch;
     Updates := <[ns := {| M := <[key := vv]> (M u) |}]> (Updates batch);
     SchemaUpdates := SchemaUpdates batch |}.

(** A nil value makes the function panic. *)
Definition UpdateBatch_PutValAndMetadata (batch : UpdateBatch) (ns key : bytes)
    (value metadata : option bytes) (version : option Height) : res UpdateBatch :=
  match value with
  | None => Panic
  | Some _ => Ok (UpdateBatch_Update batch ns key
                    {| Value := value; Metadata := metadata; vv_Version := version |})
  end.

Definition UpdateBatch_Put (batch : UpdateBatch) (ns key : bytes)
    (value : option bytes) (version : option Height) : res UpdateBatch :=
  UpdateBatch_PutValAndMetadata batch ns key value None version.

Definition UpdateBatch_Delete (batch : UpdateBatch) (ns key : bytes) (version : option Height) : UpdateBatch :=
  UpdateBatch_Update batch ns key {| Value := None; Metadata := None; vv_Version := version |}.

Definition UpdateBatch_Exists (batch : UpdateBatch) (ns key : bytes) : bool :=
  match Updates batch !! ns with
  | None => false
  | Some u => bool_decide (is_Some (M u !! key))
  end.

Definition UpdateBatch_GetUpdatedNamespaces (batch : UpdateBatch) : list bytes :=
  (map_to_list (Updates batch)).*1.

(** The nil map of an absent namespace reads as the empty map. *)
Definition UpdateBatch_GetUpdates (batch : UpdateBatch) (ns : bytes) : gmap bytes VersionedValue :=
  match Updates batch !! ns with
  | None => ∅
  | Some u => M u
  end.

(** The loops of [Merge] range over Go maps, whose order is unspecified:
    [map_to_list] is one of the orders, and [Merge_Get] below does not
    depend on it. *)
Definition UpdateBatch_Merge (batch toMerge : UpdateBatch) : UpdateBatch :=
  let batch := {| ContainsPostOrderWrites :=
                    ContainsPostOrderWrites batch || ContainsPostOrderWrites toMerge;
                  Updates := Updates batch; SchemaUpdates := SchemaUpdates batch |} in
  foldl (λ b '(ns, u),
    foldl (λ b '(key, vv), UpdateBatch_Update b ns key vv) b (map_to_list (M u)))
    batch (map_to_list (Updates toMerge)).

(** ** Go's [sort.Search] and [sort.SearchStrings] *)

Fixpoint Search_loop (fuel : nat) (f : nat → bool) (i j : nat) : nat :=
  match fuel with
  | O => i
  | S fuel =>
      if bool_decide (i < j) then
        let h := Nat.div2 (i + j) in
        if f h then Search_loop fuel f i h else Search_loop fuel f (S h) j
      else i
  end.
Definition sort_Search (n : nat) (f : nat → bool) : nat := Search_loop n f 0 n.

Definition SearchStrings (a : list bytes) (x : bytes) : nat :=
  sort_Search (length a) (λ i, match a !! i with Some y => bool_decide (bytes_le x y) | None => false end).

(** ** Iterators *)

(** The interface [ResultsIterator]: [Next] returns nil when exhausted. *)
Class ResultsIterator (I : Type) := Next : I → res (option VersionedKV * I).

Record nsIterator := {
  ni_ns : bytes;
  ni_nsUpdates : nsUpdates;
  sortedKeys : list bytes;
  nextIndex : nat;
  lastIndex : nat
}.

Definition newNsIterator (ns startKey endKey : bytes) (batch : UpdateBatch) : nsIterator :=
  match Updates batch !! ns with
  | None => {| ni_ns := []; ni_nsUpdates := newNsUpdates; sortedKeys := []; nextIndex := 0; lastIndex := 0 |}
  | Some u =>
      let sortedKeys := GetSortedKeys (M u) in
      {| ni_ns := ns; ni_nsUpdates := u; sortedKeys := sortedKeys;
         nextIndex := if decide (startKey = []) then 0 else SearchStrings sortedKeys startKey;
         lastIndex := if decide (endKey = []) then length sortedKeys
                      else SearchStrings sortedKeys endKey |}
  end.

Definition UpdateBatch_GetRangeScanIterator (batch : UpdateBatch) (ns startKey endKey : bytes) : nsIterator :=
  newNsIterator ns startKey endKey batch.

#[export] Instance nsIterator_Next : ResultsIterator nsIterator := λ itr,
  if bool_decide (lastIndex itr ≤ nextIndex itr) then Ok (None, itr)
  else
    key ← index (sortedKeys itr) (nextIndex itr);
    match M (ni_nsUpdates itr) !! key with
    | None => Panic
    | Some vv =>
        Ok (Some {| kv_key := {| Namespace := ni_ns itr; Key := key |};
                    kv_val := {| Value := Value vv; Metadata := Metadata vv; vv_Version := vv_Version vv |} |},
            {| ni_ns := ni_ns itr; ni_nsUpdates := ni_nsUpdates itr; sortedKeys := sortedKeys itr;
               nextIndex := S (nextIndex itr); lastIndex := lastIndex itr |})
    end.

(** [Drains itr l]: calling [Next] until it returns nil gives the items of
    [l], in this order and without an error. *)
Inductive Drains {I} `{!ResultsIterator I} : I → list VersionedKV → Prop :=
  | Drains_nil itr itr' : Next itr = Ok (None, itr') → Drains itr []
  | Drains_cons itr itr' kv l :
      Next itr = Ok (Some kv, itr') → Drains itr' l → Drains itr (kv :: l).

(** ** The interface [VersionedDB]

    The operations the transaction manager calls. [LoadCommittedVersions] is
    there for a database that implements [BulkOptimizable]: it fills the
    cache of the database, so it returns the new database. *)
Class VersionedDB (DB I : Type) := {
  VersionedDB_itr :: ResultsIterator I;
  GetState : DB → bytes → bytes → res (option VersionedValue);
  GetVersion : DB → bytes → bytes → res (option Height);
  GetStateRangeScanIterator : DB → bytes → bytes → bytes → res I;
  ValidateKeyValue : DB → bytes → option bytes → res unit;
  BytesKeySupported : DB → bool;
  LoadCommittedVersions : option (DB → list CompositeKey → res DB);
  ApplyUpdates : DB → UpdateBatch → option Height → res DB
}.

Definition to_kv (ns : bytes) (p : bytes * VersionedValue) : VersionedKV :=
  {| kv_key := {| Namespace := ns; Key := p.1 |}; kv_val := p.2 |}.

(** The committed state, by namespace. *)
Definition state := bytes → gmap bytes VersionedValue.

(** [VersionedDBLaws db st]: every read of [db] answers from the committed
    state [st], which holds no delete markers. Range scans are promised for
    namespaces without the zero byte that separates them from the keys. *)
Class VersionedDBLaws {DB I} `{!VersionedDB DB I} (db : DB) (st : state) : Prop := {
  GetState_law ns key : GetState db ns key = Ok (st ns !! key);
  GetVersion_law ns key : GetVersion db ns key = Ok (st ns !! key ≫= vv_Version);
  RangeScan_law ns s e : x00 ∉ ns → ∃ itr,
    GetStateRangeScanIterator db ns s e = Ok itr ∧ Drains itr (to_kv ns <$> range_kvs (st ns) s e);
  no_delete_law ns key vv : st ns !! key = Some vv → IsDelete vv = false
}.

(** The state after the updates of a namespace are applied to it. *)
Definition overlay_val (old new : option VersionedValue) : option VersionedValue :=
  match new with
  | Some vv => if IsDelete vv then None else Some vv
  | None => old
  end.
Definition overlay (m u : gmap bytes VersionedValue) : gmap bytes VersionedValue :=
  merge overlay_val m u.

(** Batches a state database accepts: namespaces without a zero byte, every
    value with a version, no present but empty metadata. *)
Definition batch_ok (batch : UpdateBatch) : Prop :=
  ∀ ns key vv, UpdateBatch_Get batch ns key = Some vv →
    x00 ∉ ns ∧ Metadata vv ≠ Some [] ∧ ∃ h, vv_Version vv = Some h ∧ Height_wf h.

(** Applying a batch moves the committed state as the batch says. [Inv] is the
    invariant of the implementation. *)
Class VersionedDBApplyLaws (DB I : Type) `{!VersionedDB DB I} (Inv : DB → Prop) : Prop :=
  ApplyUpdates_law (db : DB) (st : state) (batch : UpdateBatch) (height : option Height) :
    Inv db → VersionedDBLaws db st → batch_ok batch → (∀ h, height = Some h → Height_wf h) →
    ∃ db' st', ApplyUpdates db batch height = Ok db' ∧ Inv db' ∧ VersionedDBLaws db' st' ∧
      BytesKeySupported db' = BytesKeySupported db ∧
      ∀ ns, x00 ∉ ns → st' ns = overlay (st ns) (UpdateBatch_GetUpdates batch ns).

(** Loading the cache of a database that has one does not change what it
    answers. *)
Class VersionedDBLoadLaws (DB I : Type) `{!VersionedDB DB I} : Prop :=
  LoadCommittedVersions_law (load : DB → list CompositeKey → res DB) (db : DB) (st : state) (keys : list CompositeKey) :
    LoadCommittedVersions = Some load → VersionedDBLaws db st →
    ∃ db', load db keys = Ok db' ∧ VersionedDBLaws db' st ∧ BytesKeySupported db' = BytesKeySupported db.

(** ** Lemmas on batches *)

Lemma Get_Update batch ns key vv ns' key' :
  UpdateBatch_Get (UpdateBatch_Update batch ns key vv) ns' key' =
  if decide (ns' = ns ∧ key' = key) then Some vv else UpdateBatch_Get batch ns' key'.
Proof.
  unfold UpdateBatch_Get, UpdateBatch_Update, getOrCreateNsUpdates; simpl.
  destruct (decide (ns' = ns)) as [->|].
  - rewrite lookup_insert_eq; simpl. destruct (decide (key' = key)) as [->|].
    + by rewrite lookup_insert_eq, decide_True.
    + rewrite lookup_insert_ne by done. rewrite decide_False by tauto.
      by destruct (Updates batch !! ns).
  - rewrite lookup_insert_ne by done. by rewrite decide_False by tauto.
Qed.

Lemma Get_NewUpdateBatch ns key : UpdateBatch_Get NewUpdateBatch ns key = None.
Proof. done. Qed.

Lemma Get_Delete batch ns key h ns' key' :
  UpdateBatch_Get (UpdateBatch_Delete batch ns key h) ns' key' =
  if decide (ns' = ns ∧ key' = key)
  then Some {| Value := None; Metadata := None; vv_Version := h |} else UpdateBatch_Get batch ns' key'.
Proof. apply Get_Update. Qed.

Lemma Exists_Get batch ns key :
  UpdateBatch_Exists batch ns key = bool_decide (is_Some (UpdateBatch_Get batch ns key)).
Proof.
  unfold UpdateBatch_Exists, UpdateBatch_Get. destruct (Updates batch !! ns); [done|].
  by rewrite bool_decide_eq_false_2 by (intros []; done).
Qed.

Lemma lookup_GetUpdates batch ns key :
  UpdateBatch_GetUpdates batch ns !! key = UpdateBatch_Get batch ns key.
Proof. unfold UpdateBatch_GetUpdates, UpdateBatch_Get. by destruct (Updates batch !! ns). Qed.
#[export] Hint Rewrite Get_Update Get_Delete Get_NewUpdateBatch lookup_GetUpdates : drunix.

(** The effect of a sequence of updates. *)
Definition upd (b : UpdateBatch) (u : bytes * bytes * VersionedValue) : UpdateBatch :=
  UpdateBatch_Update b u.1.1 u.1.2 u.2.

Lemma foldl_upd_Get b L ns k (o : option VersionedValue) :
  (∀ vv, ((ns, k), vv) ∈ L → o = Some vv) → (is_Some o → ∃ vv, ((ns, k), vv) ∈ L) →
  UpdateBatch_Get (foldl upd b L) ns k =
  match o with Some vv => Some vv | None => UpdateBatch_Get b ns k end.
Proof.
  induction L as [|[[ns' k'] vv] L IH] using rev_ind; intros Hin Hex.
  - destruct o; [|done]. destruct (Hex ltac:(eauto)) as [? []%not_elem_of_nil].
  - rewrite foldl_app; simpl. unfold upd at 1; simpl. rewrite Get_Update.
    destruct (decide _) as [[-> ->]|Hne].
    + by rewrite (Hin vv) by set_solver.
    + apply IH; [intros; apply Hin; set_solver|].
      intros [vv' Hvv]%Hex. exists vv'. set_solver.
Qed.

Lemma foldl_bind {A B C} (g : A → C → A) (h : B → list C) a (l : list B) :
  foldl (λ a x, foldl g a (h x)) a l = foldl g a (l ≫= h).
Proof. revert a. induction l as [|x l IH]; intros a; simpl; [done|]. by rewrite foldl_app, IH. Qed.

Lemma foldl_fmap {A B C} (g : A → C → A) (h : B → C) a (l : list B) :
  foldl g a (h <$> l) = foldl (λ a x, g a (h x)) a l.
Proof. revert a. induction l as [|x l IH]; intros a; simpl; [done|]. apply IH. Qed.

Lemma foldl_ext' {A B} (f g : A → B → A) a (l : list B) :
  (∀ a x, f a x = g a x) → foldl f a l = foldl g a l.
Proof. intros Hfg. revert a. induction l as [|x l IH]; intros a; simpl; [done|]. by rewrite Hfg. Qed.

(** The bindings of a batch as a list. *)
Definition batch_list (b : UpdateBatch) : list (bytes * bytes * VersionedValue) :=
  map_to_list (Updates b) ≫= λ x, (λ '(key, vv), ((x.1, key), vv)) <$> map_to_list (M x.2).

Lemma elem_of_batch_list b ns k vv :
  ((ns, k), vv) ∈ batch_list b ↔ UpdateBatch_Get b ns k = Some vv.
Proof.
  unfold batch_list, UpdateBatch_Get. rewrite list_elem_of_bind. split.
  - intros ([ns' u] & Hin & Hu). apply elem_of_map_to_list in Hu.
    apply list_elem_of_fmap in Hin as ([key vv'] & [= -> -> ->] & Hkv).
    by rewrite Hu, <-elem_of_map_to_list.
  - destruct (Updates b !! ns) as [u|] eqn:Hu; [|done]. intros Hk.
    exists (ns, u). rewrite elem_of_map_to_list, list_elem_of_fmap. split; [|done].
    exists (k, vv). by rewrite elem_of_map_to_list.
Qed.

(** A merged batch has the bindings of both, and those of the merged-in batch
    win. *)
Lemma Merge_Get a b ns k :
  UpdateBatch_Get (UpdateBatch_Merge a b) ns k =
  match UpdateBatch_Get b ns k with Some vv => Some vv | None => UpdateBatch_Get a ns k end.
Proof.
  unfold UpdateBatch_Merge. set (a' := Build_UpdateBatch _ _ _).
  change (UpdateBatch_Get a ns k) with (UpdateBatch_Get a' ns k).
  erewrite (foldl_ext' _ (λ b x, foldl upd b ((λ '(key, vv), ((x.1, key), vv)) <$> map_to_list (M x.2)))).
  - rewrite foldl_bind. apply foldl_upd_Get.
    + intros vv Hvv. by apply elem_of_batch_list.
    + intros [vv Hvv]. exists vv. by apply elem_of_batch_list.
  - intros b' [ns' u]; simpl. rewrite foldl_fmap. apply foldl_ext'. by intros ? [].
Qed.

(** ** Binary search *)

Lemma Search_loop_spec fuel f i j n :
  j - i ≤ fuel → i ≤ j ≤ n →
  (∀ a b, a ≤ b < n → f a = true → f b = true) →
  (∀ k, k < i → f k = false) → (∀ k, j ≤ k < n → f k = true) →
  let r := Search_loop fuel f i j in
  r ≤ n ∧ (∀ k, k < r → f k = false) ∧ (∀ k, r ≤ k < n → f k = true).
Proof.
  intros Hfuel Hij Hmono. revert i j Hfuel Hij.
  induction fuel as [|fuel IH]; intros i j Hfuel Hij Hlo Hhi; simpl.
  - replace j with i in Hhi by lia. split_and!; [lia|done..].
  - case_bool_decide as Hlt; [|replace j with i in Hhi by lia; split_and!; [lia|done..]].
    assert (i ≤ Nat.div2 (i + j) < j) as Hh.
    { rewrite Nat.div2_div. split; [apply Nat.div_le_lower_bound; lia|apply Nat.Div0.div_lt_upper_bound; lia]. }
    destruct (f _) eqn:Hf; apply IH; try lia; try done.
    + intros k Hk. apply (Hmono (Nat.div2 (i + j))); [lia|done].
    + intros k Hk. destruct (f k) eqn:Hfk; [|done].
      rewrite (Hmono k (Nat.div2 (i + j))) in Hf; [done|lia|done].
Qed.

Lemma StronglySorted_lookup {A} (R : relation A) l i j x y :
  StronglySorted R l → i < j → l !! i = Some x → l !! j = Some y → R x y.
Proof.
  intros Hs. revert i j. induction Hs as [|z l Hs IH Hall]; intros i j Hij Hi Hj; [done|].
  destruct j as [|j]; [lia|]. destruct i as [|i]; simplify_eq/=.
  - rewrite Forall_lookup in Hall. eauto.
  - apply (IH i j); [lia|done..].
Qed.

(** On sorted keys [SearchStrings] is the first position at or after [x]. *)
Lemma SearchStrings_spec (a : list bytes) x :
  StronglySorted bytes_lt a →
  SearchStrings a x ≤ length a ∧
  (∀ i y, a !! i = Some y → bytes_le x y ↔ SearchStrings a x ≤ i).
Proof.
  intros Hs. unfold SearchStrings, sort_Search. set (f := λ i : nat, match a !! i with Some y => bool_decide (bytes_le x y) | None => false end).
  destruct (Search_loop_spec (length a) f 0 (length a) (length a)) as (Hr & Hlo & Hhi); try lia.
  - intros i j Hij. unfold f. destruct (a !! i) as [y|] eqn:Hi; [|done].
    destruct (lookup_lt_is_Some_2 a j) as [z Hz]; [lia|]. rewrite Hz. rewrite !bool_decide_eq_true.
    intros Hxy. destruct (decide (i = j)) as [->|]; [by simplify_eq|].
    etrans; [done|]. apply bytes_le_lt_eq. left. eapply StronglySorted_lookup; [done| |done..]. lia.
  - split; [done|]. intros i y Hi. pose proof (lookup_lt_Some _ _ _ Hi). split.
    + intros Hle. destruct (decide (Search_loop (length a) f 0 (length a) ≤ i)); [done|].
      specialize (Hlo i). unfold f in Hlo at 2. rewrite Hi, bool_decide_eq_false in Hlo.
      destruct Hlo; [lia|done].
    + intros Hle. specialize (Hhi i). unfold f in Hhi at 2. rewrite Hi, bool_decide_eq_true in Hhi.
      apply Hhi. lia.
Qed.

(** A filter that selects the positions from [a] to [b] is a slice. *)
Lemma filter_slice {A} (P : A → Prop) `{!∀ x, Decision (P x)} (l : list A) a b :
  (∀ i x, l !! i = Some x → P x ↔ a ≤ i < b) → filter P l = take (b - a) (drop a l).
Proof.
  revert a b. induction l as [|x l IH]; intros a b HP.
  - by rewrite drop_nil, take_nil.
  - rewrite filter_cons. destruct (decide (P x)) as [Hx|Hx].
    + apply (HP 0) in Hx; [|done]. replace a with 0 by lia. destruct b as [|b]; [lia|]. simpl.
      f_equal. rewrite (IH 0 b), drop_0, Nat.sub_0_r; [done|].
      intros i y Hi. rewrite (HP (S i)) by done. lia.
    + rewrite (IH (pred a) (pred b)) by (intros i y Hi; rewrite (HP (S i)) by done; split; [lia|];
        intros; destruct (decide (a = 0)); [destruct Hx; apply (HP 0); [done|lia]|lia]).
      destruct a as [|a].
      * destruct b as [|b]; [done|]. destruct Hx. apply (HP 0); [done|lia].
      * destruct b as [|b]; simpl; [done|]. done.
Qed.

(** ** The iterator of a batch *)

Lemma nsIterator_drains_slice itr :
  sortedKeys itr = (sorted_kvs (M (ni_nsUpdates itr))).*1 →
  lastIndex itr ≤ length (sortedKeys itr) →
  Drains itr (to_kv (ni_ns itr) <$>
    take (lastIndex itr - nextIndex itr) (drop (nextIndex itr) (sorted_kvs (M (ni_nsUpdates itr))))).
Proof.
  remember (lastIndex itr - nextIndex itr) as n eqn:Hn. revert itr Hn.
  induction n as [|n IH]; intros itr Hn Hkeys Hlen.
  - apply (Drains_nil _ itr). unfold Next, nsIterator_Next. by rewrite bool_decide_eq_true_2 by lia.
  - destruct (lookup_lt_is_Some_2 (sorted_kvs (M (ni_nsUpdates itr))) (nextIndex itr)) as [[k vv] Hkv].
    { rewrite Hkeys, length_fmap in Hlen. lia. }
    rewrite (drop_S _ _ _ Hkv). simpl. eapply Drains_cons.
    + unfold Next, nsIterator_Next. rewrite bool_decide_eq_false_2 by lia.
      unfold index. rewrite Hkeys, list_lookup_fmap, Hkv. simpl.
      assert (M (ni_nsUpdates itr) !! k = Some vv) as ->.
      { apply elem_of_sorted_kvs. eapply list_elem_of_lookup_2; eauto. }
      destruct vv. reflexivity.
    + apply (IH {| ni_ns := ni_ns itr; ni_nsUpdates := ni_nsUpdates itr; sortedKeys := _;
        nextIndex := S (nextIndex itr); lastIndex := lastIndex itr |}); simpl; [lia|done|].
      by rewrite <-Hkeys.
Qed.

Lemma range_kvs_slice (m : gmap bytes VersionedValue) s e :
  let keys := (sorted_kvs m).*1 in
  let a := if decide (s = []) then 0 else SearchStrings keys s in
  let b := if decide (e = []) then length keys else SearchStrings keys e in
  b ≤ length keys ∧ range_kvs m s e = take (b - a) (drop a (sorted_kvs m)).
Proof.
  intros keys a b. pose proof (ssorted_fst _ (sorted_kvs_sorted m)) as Hs.
  destruct (SearchStrings_spec _ s Hs) as [_ Ha], (SearchStrings_spec _ e Hs) as [Hbl Hb].
  split; [subst b; destruct (decide (e = [])); [done|apply Hbl]|].
  apply filter_slice. intros i [k vv] Hi.
  assert (keys !! i = Some k) as Hk by (subst keys; by rewrite list_lookup_fmap, Hi).
  pose proof (lookup_lt_Some _ _ _ Hk). unfold in_range; simpl.
  assert (bytes_le s k ↔ a ≤ i) as ->.
  { subst a. destruct (decide (s = [])) as [->|]; [|by apply Ha]. split; [lia|].
    intros; apply bytes_nil_le. }
  assert ((e = [] ∨ bytes_lt k e) ↔ i < b) as ->; [|done].
  subst b. destruct (decide (e = [])) as [->|]; [naive_solver lia|].
  specialize (Hb _ _ Hk). fold keys in Hb. rewrite bytes_le_not_lt in Hb.
  split; intros Hi'.
  - destruct Hi' as [?|Hlt]; [done|]. destruct (decide (SearchStrings keys e ≤ i)) as [Hle|]; [|lia].
    by apply Hb in Hle.
  - right. apply dec_stable. intros Hle%Hb. lia.
Qed.

(** The range iterator of a batch yields the bindings of the namespace in the
    range, deletes included, in the order of the keys. *)
Lemma nsIterator_drains batch ns s e :
  Drains (UpdateBatch_GetRangeScanIterator batch ns s e)
    (to_kv ns <$> range_kvs (UpdateBatch_GetUpdates batch ns) s e).
Proof.
  unfold UpdateBatch_GetRangeScanIterator, newNsIterator, UpdateBatch_GetUpdates.
  destruct (Updates batch !! ns) as [u|].
  - destruct (range_kvs_slice (M u) s e) as [Hlen Heq]. rewrite Heq. rewrite !GetSortedKeys_fst.
    apply (nsIterator_drains_slice {| ni_ns := ns; ni_nsUpdates := u; sortedKeys := _;
      nextIndex := _; lastIndex := _ |}); simpl; done.
  - by eapply Drains_nil.
Qed.

Lemma Drains_det {I} `{!ResultsIterator I} (itr : I) l1 l2 : Drains itr l1 → Drains itr l2 → l1 = l2.
Proof.
  intros H1. revert l2. induction H1 as [itr itr' Hn|itr itr' kv l Hn Hd IH]; intros l2 H2;
    inversion H2 as [? ? Hn'|? ? ? ? Hn']; subst; rewrite Hn in Hn'; simplify_eq; [done|].
  f_equal; auto.
Qed.

Lemma lookup_overlay m u k : overlay m u !! k = overlay_val (m !! k) (u !! k).
Proof. unfold overlay. rewrite lookup_merge. by destruct (m !! k), (u !! k). Qed.
#[export] Hint Rewrite lookup_overlay : drunix.

(** ** Properties *)

(** the range iterator of an update batch returns, without an error and
    in the strict order of the keys, exactly the updates of the namespace
    whose key is in the range: the start key included, the end key excluded,
    an empty key leaving the range open on its side. *)
Theorem batch_range_iterator_exact batch ns startKey endKey :
  ∃ l, Drains (UpdateBatch_GetRangeScanIterator batch ns startKey endKey) (to_kv ns <$> l) ∧
    StronglySorted key_lt l ∧
    ∀ k vv, (k, vv) ∈ l ↔ UpdateBatch_Get batch ns k = Some vv ∧ in_range startKey endKey k.
Proof.
  exists (range_kvs (UpdateBatch_GetUpdates batch ns) startKey endKey).
  split; [apply nsIterator_drains|split; [apply range_kvs_sorted|]].
  intros k vv. by rewrite elem_of_range_kvs, lookup_GetUpdates.
Qed.

(** Merging a batch into another keeps every update of both, the updates
    of the merged-in batch winning, and keeps the post-order flag of either. *)
Theorem UpdateBatch_Merge_spec (batch toMerge : UpdateBatch) :
  (∀ ns key, UpdateBatch_Get (UpdateBatch_Merge batch toMerge) ns key =
     if UpdateBatch_Exists toMerge ns key then UpdateBatch_Get toMerge ns key
     else UpdateBatch_Get batch ns key) ∧
  ContainsPostOrderWrites (UpdateBatch_Merge batch toMerge) =
    ContainsPostOrderWrites batch || ContainsPostOrderWrites toMerge.
Proof.
  split.
  - intros ns key. rewrite Merge_Get, Exists_Get.
    destruct (UpdateBatch_Get toMerge ns key) eqn:E; [by rewrite bool_decide_eq_true_2|].
    by rewrite bool_decide_eq_false_2 by (intros []; done).
  - unfold UpdateBatch_Merge.
    assert (∀ A (f : UpdateBatch → A → UpdateBatch) l (b : UpdateBatch), (∀ b x, ContainsPostOrderWrites (f b x) = ContainsPostOrderWrites b) →
      ContainsPostOrderWrites (foldl f b l) = ContainsPostOrderWrites b) as Hfold.
    { intros A f l. induction l as [|x l IH]; intros b Hf; simpl; [done|]. by rewrite IH, Hf. }
    rewrite Hfold; [done|]. intros b [ns u]. apply Hfold. by intros ? [].
Qed.
