(* ===== verification/Proto.v ===== *)
(** * Library code as parameters: protobuf and hashing

  The protobuf runtime and the SHA-256 implementation are not part of the
  repository's own code. The definitions that call them take them as class
  parameters; what the code relies on is stated by the law classes. The end
  of the file gives one concrete codec, used to show that the laws can be
  met. *)

From S2P Require Import Prelude.
From stdpp Require Import options.

(** ** Parameters *)

(** [proto.Marshal] and [proto.Unmarshal] of one message type. *)
Class ProtoMessage (A : Type) := {
  Marshal : A → res bytes;
  Unmarshal : bytes → res A
}.
(** A message in wire normal form survives the round trip. Proto3 does not
    transmit an empty bytes field, so a present but empty [[]byte] comes back
    as nil: [normal] excludes it. *)
Class ProtoRoundTrip (A : Type) `{!ProtoMessage A} (normal : A → Prop) : Prop :=
  Unmarshal_Marshal a b : normal a → Marshal a = Ok b → Unmarshal b = Ok a.

(** The same in full: the message comes back in its normal form. *)
Class ProtoNormalizes (A : Type) `{!ProtoMessage A} (norm : A → A) : Prop := {
  Marshal_total a : ∃ b, Marshal a = Ok b;
  Unmarshal_Marshal_norm a b : Marshal a = Ok b → Unmarshal b = Ok (norm a)
}.

(** The partially filled message that a failed [proto.Unmarshal] leaves behind,
    for the code that goes on with it. *)
Class ProtoPartial (A : Type) := partial_message : bytes → A.

(** [common/util.ComputeSHA256]. *)
Class Sha256 := ComputeSHA256 : bytes → bytes.

(** ** A concrete codec

    Any countable type can be written to bytes, one byte per bit of its
    number. *)

Fixpoint pos_bytes (p : positive) : bytes :=
  match p with
  | xH => []
  | xO p => x00 :: pos_bytes p
  | xI p => x01 :: pos_bytes p
  end.
Fixpoint bytes_pos (b : bytes) : positive :=
  match b with
  | [] => xH
  | x :: b => if decide (x = x00) then xO (bytes_pos b) else xI (bytes_pos b)
  end.
Lemma bytes_pos_pos_bytes p : bytes_pos (pos_bytes p) = p.
Proof. induction p as [p IH|p IH|]; simpl; [by rewrite IH..|done]. Qed.

Definition countable_proto A `{Countable A} : ProtoMessage A := {|
  Marshal a := Ok (pos_bytes (encode a));
  Unmarshal b := match decode (bytes_pos b) with Some a => Ok a | None => Err "proto: cannot parse" end
|}.
Lemma countable_proto_roundtrip A `{Countable A} (normal : A → Prop) :
  @ProtoRoundTrip A (countable_proto A) normal.
Proof.
  intros a b _ [= <-]. unfold Unmarshal; simpl. by rewrite bytes_pos_pos_bytes, decode_encode.
Qed.

Definition countable_norm_proto A `{Countable A} (norm : A → A) : ProtoMessage A := {|
  Marshal a := Ok (pos_bytes (encode (norm a)));
  Unmarshal b := match decode (bytes_pos b) with Some a => Ok a | None => Err "proto: cannot parse" end
|}.
Lemma countable_norm_proto_laws A `{Countable A} (norm : A → A) :
  @ProtoNormalizes A (countable_norm_proto A norm) norm.
Proof.
  split; [by eexists|]. intros a b [= <-]. unfold Unmarshal; simpl.
  by rewrite bytes_pos_pos_bytes, decode_encode.
Qed.

(** A codec with a tag: the zero message is the empty string, and a string with
    another tag reads as the zero message, as fields with unknown numbers do. *)
Definition tagged_proto A `{Countable A} (tag : byte) (zero : A) : ProtoMessage A := {|
  Marshal a := Ok (if decide (a = zero) then [] else tag :: pos_bytes (encode a));
  Unmarshal b := match b with
    | [] => Ok zero
    | t :: b => if decide (t = tag) then match decode (bytes_pos b) with Some a => Ok a | None => Err "proto: cannot parse" end else Ok zero
    end
|}.
Lemma tagged_proto_laws A `{Countable A} (tag : byte) (zero : A) : @ProtoNormalizes A (tagged_proto A tag zero) id.
Proof.
  split; [by eexists|]. intros a b [= <-]. destruct (decide (a = zero)) as [->|]; [done|]. unfold Unmarshal; simpl.
  by rewrite decide_True, bytes_pos_pos_bytes, decode_encode.
Qed.
