(* ===== verification/Rwset.v ===== *)
(** * Read-write sets

  Models the read-write set of a transaction:
  - the protobuf messages of fabric-protos-go/ledger/rwset (only the fields
    the ledger reads), a nil message or slice being [None];
  - core/ledger/kvledger/txmgmt/rwsetutil/rwset_proto_util.go, which wraps
    them and converts them to and from bytes.

  The protobuf runtime and SHA-256 are parameters, the classes of Proto. *)

From S2P Require Import Prelude SortedMap Version StateDB Proto.
From stdpp Require Import options.
Local Open Scope nat_scope.
Set Default Proof Using "Type*".

(** ** Messages of kv_rwset.proto *)

Record ProtoVersion := { pv_BlockNum : Z; pv_TxNum : Z }.
Record KVRead := { kvr_Key : bytes; kvr_Version : option ProtoVersion }.
Record KVWrite := { kvw_Key : bytes; kvw_IsDelete : bool; kvw_Value : option bytes }.
Record KVMetadataEntry := { me_Name : bytes; me_Value : bytes }.
Record KVMetadataWrite := { mw_Key : bytes; mw_Entries : list KVMetadataEntry }.
Record KVReadHash := { rh_KeyHash : bytes; rh_Version : option ProtoVersion }.
Record KVWriteHash := {
  wh_KeyHash : bytes; wh_IsDelete : bool; wh_ValueHash : option bytes; wh_IsPurge : bool
}.
Record KVMetadataWriteHash := { mwh_KeyHash : bytes; mwh_Entries : list KVMetadataEntry }.
Record QueryReads := { KvReads : list KVRead }.
Record QueryReadsMerkleSummary := {
  MaxDegree : Z; MaxLevel : Z; MaxLevelHashes : list bytes
}.
(** The oneof [reads_info] of [RangeQueryInfo]. *)
Inductive ReadsInfo :=
| RawReads (r : QueryReads)
| ReadsMerkleHashes (s : option QueryReadsMerkleSummary).
Record RangeQueryInfo := {
  StartKey : bytes; EndKey : bytes; ItrExhausted : bool; rqi_ReadsInfo : option ReadsInfo
}.
Record KVRWSet := {
  Reads : list KVRead;
  RangeQueriesInfo : list RangeQueryInfo;
  Writes : list KVWrite;
  MetadataWrites : list KVMetadataWrite
}.
Record HashedRWSet := {
  HashedReads : list KVReadHash;
  HashedWrites : list KVWriteHash;
  HashedMetadataWrites : list KVMetadataWriteHash
}.

Definition GetRawReads (rqi : RangeQueryInfo) : list KVRead :=
  match rqi_ReadsInfo rqi with Some (RawReads r) => KvReads r | _ => [] end.
Definition GetReadsMerkleHashes (rqi : RangeQueryInfo) : option QueryReadsMerkleSummary :=
  match rqi_ReadsInfo rqi with Some (ReadsMerkleHashes s) => s | _ => None end.

Definition SetRawReads (rqi : RangeQueryInfo) (kvReads : list KVRead) : RangeQueryInfo :=
  {| StartKey := StartKey rqi; EndKey := EndKey rqi; ItrExhausted := ItrExhausted rqi;
     rqi_ReadsInfo := Some (RawReads {| KvReads := kvReads |}) |}.
Definition SetMerkelSummary (rqi : RangeQueryInfo) (merkleSummary : option QueryReadsMerkleSummary) : RangeQueryInfo :=
  {| StartKey := StartKey rqi; EndKey := EndKey rqi; ItrExhausted := ItrExhausted rqi;
     rqi_ReadsInfo := Some (ReadsMerkleHashes merkleSummary) |}.

(** ** The wrappers of rwset_proto_util.go *)

Record CollHashedRwSet := {
  ch_CollectionName : bytes;
  HashedRwSet : option HashedRWSet;
  PvtRwSetHash : option bytes
}.
Record NsRwSet := {
  NameSpace : bytes;
  KvRwSet : option KVRWSet;
  CollHashedRwSets : list CollHashedRwSet
}.
Record TxRwSet := { NsRwSets : list NsRwSet }.

Record CollPvtRwSet := { cp_CollectionName : bytes; cp_KvRwSet : option KVRWSet }.
Record NsPvtRwSet := { np_NameSpace : bytes; CollPvtRwSets : list CollPvtRwSet }.
Record TxPvtRwSet := { NsPvtRwSets : list NsPvtRwSet }.

(** ** Messages of rwset.proto *)

Inductive DataModel := KV.
Record CollectionHashedReadWriteSet := {
  chp_CollectionName : bytes; chp_HashedRwset : bytes; chp_PvtRwsetHash : option bytes
}.
Record NsReadWriteSet := {
  nsp_Namespace : bytes; nsp_Rwset : bytes; nsp_CollectionHashedRwset : list CollectionHashedReadWriteSet
}.
Record TxReadWriteSet := { txp_DataModel : DataModel; txp_NsRwset : list NsReadWriteSet }.
Record CollectionPvtReadWriteSet := { cpp_CollectionName : bytes; cpp_Rwset : bytes }.
Record NsPvtReadWriteSet := {
  npp_Namespace : bytes; npp_CollectionPvtRwset : list CollectionPvtReadWriteSet
}.
Record TxPvtReadWriteSet := { tpp_DataModel : DataModel; tpp_NsPvtRwset : list NsPvtReadWriteSet }.

(** ** Equality and countability of the messages *)

#[export] Instance ProtoVersion_eq_dec : EqDecision ProtoVersion.
Proof. solve_decision. Defined.
#[export] Instance ProtoVersion_countable : Countable ProtoVersion.
Proof. by apply (inj_countable' (λ r, (pv_BlockNum r, pv_TxNum r)) (λ '(a, b), Build_ProtoVersion a b)); intros []. Defined.
#[export] Instance KVRead_eq_dec : EqDecision KVRead.
Proof. solve_decision. Defined.
#[export] Instance KVRead_countable : Countable KVRead.
Proof. by apply (inj_countable' (λ r, (kvr_Key r, kvr_Version r)) (λ '(a, b), Build_KVRead a b)); intros []. Defined.
#[export] Instance KVWrite_eq_dec : EqDecision KVWrite.
Proof. solve_decision. Defined.
#[export] Instance KVWrite_countable : Countable KVWrite.
Proof. by apply (inj_countable' (λ r, (kvw_Key r, kvw_IsDelete r, kvw_Value r)) (λ '(a, b, c), Build_KVWrite a b c)); intros []. Defined.
#[export] Instance KVMetadataEntry_eq_dec : EqDecision KVMetadataEntry.
Proof. solve_decision. Defined.
#[export] Instance KVMetadataEntry_countable : Countable KVMetadataEntry.
Proof. by apply (inj_countable' (λ r, (me_Name r, me_Value r)) (λ '(a, b), Build_KVMetadataEntry a b)); intros []. Defined.
#[export] Instance KVMetadataWrite_eq_dec : EqDecision KVMetadataWrite.
Proof. solve_decision. Defined.
#[export] Instance KVMetadataWrite_countable : Countable KVMetadataWrite.
Proof. by apply (inj_countable' (λ r, (mw_Key r, mw_Entries r)) (λ '(a, b), Build_KVMetadataWrite a b)); intros []. Defined.
#[export] Instance KVReadHash_eq_dec : EqDecision KVReadHash.
Proof. solve_decision. Defined.
#[export] Instance KVReadHash_countable : Countable KVReadHash.
Proof. by apply (inj_countable' (λ r, (rh_KeyHash r, rh_Version r)) (λ '(a, b), Build_KVReadHash a b)); intros []. Defined.
#[export] Instance KVWriteHash_eq_dec : EqDecision KVWriteHash.
Proof. solve_decision. Defined.
#[export] Instance KVWriteHash_countable : Countable KVWriteHash.
Proof. by apply (inj_countable' (λ r, (wh_KeyHash r, wh_IsDelete r, wh_ValueHash r, wh_IsPurge r)) (λ '(a, b, c, d), Build_KVWriteHash a b c d)); intros []. Defined.
#[export] Instance KVMetadataWriteHash_eq_dec : EqDecision KVMetadataWriteHash.
Proof. solve_decision. Defined.
#[export] Instance KVMetadataWriteHash_countable : Countable KVMetadataWriteHash.
Proof. by apply (inj_countable' (λ r, (mwh_KeyHash r, mwh_Entries r)) (λ '(a, b), Build_KVMetadataWriteHash a b)); intros []. Defined.
#[export] Instance QueryReads_eq_dec : EqDecision QueryReads.
Proof. solve_decision. Defined.
#[export] Instance QueryReads_countable : Countable QueryReads.
Proof. by apply (inj_countable' (λ r, KvReads r) (λ a, Build_QueryReads a)); intros []. Defined.
#[export] Instance QueryReadsMerkleSummary_eq_dec : EqDecision QueryReadsMerkleSummary.
Proof. solve_decision. Defined.
#[export] Instance QueryReadsMerkleSummary_countable : Countable QueryReadsMerkleSummary.
Proof. by apply (inj_countable' (λ r, (MaxDegree r, MaxLevel r, MaxLevelHashes r)) (λ '(a, b, c), Build_QueryReadsMerkleSummary a b c)); intros []. Defined.
#[export] Instance ReadsInfo_eq_dec : EqDecision ReadsInfo.
Proof. solve_decision. Defined.
#[export] Instance ReadsInfo_countable : Countable ReadsInfo.
Proof.
  by apply (inj_countable' (λ r, match r with RawReads q => inl q | ReadsMerkleHashes s => inr s end)
    (λ x, match x with inl q => RawReads q | inr s => ReadsMerkleHashes s end)); intros [].
Defined.
#[export] Instance RangeQueryInfo_eq_dec : EqDecision RangeQueryInfo.
Proof. solve_decision. Defined.
#[export] Instance RangeQueryInfo_countable : Countable RangeQueryInfo.
Proof. by apply (inj_countable' (λ r, (StartKey r, EndKey r, ItrExhausted r, rqi_ReadsInfo r)) (λ '(a, b, c, d), Build_RangeQueryInfo a b c d)); intros []. Defined.
#[export] Instance KVRWSet_eq_dec : EqDecision KVRWSet.
Proof. solve_decision. Defined.
#[export] Instance KVRWSet_countable : Countable KVRWSet.
Proof. by apply (inj_countable' (λ r, (Reads r, RangeQueriesInfo r, Writes r, MetadataWrites r)) (λ '(a, b, c, d), Build_KVRWSet a b c d)); intros []. Defined.
#[export] Instance HashedRWSet_eq_dec : EqDecision HashedRWSet.
Proof. solve_decision. Defined.
#[export] Instance HashedRWSet_countable : Countable HashedRWSet.
Proof. by apply (inj_countable' (λ r, (HashedReads r, HashedWrites r, HashedMetadataWrites r)) (λ '(a, b, c), Build_HashedRWSet a b c)); intros []. Defined.
#[export] Instance DataModel_eq_dec : EqDecision DataModel.
Proof. solve_decision. Defined.
#[export] Instance DataModel_countable : Countable DataModel.
Proof. by apply (inj_countable' (λ _, ()) (λ _, KV)); intros []. Defined.
#[export] Instance CollectionHashedReadWriteSet_eq_dec : EqDecision CollectionHashedReadWriteSet.
Proof. solve_decision. Defined.
#[export] Instance CollectionHashedReadWriteSet_countable : Countable CollectionHashedReadWriteSet.
Proof. by apply (inj_countable' (λ r, (chp_CollectionName r, chp_HashedRwset r, chp_PvtRwsetHash r)) (λ '(a, b, c), Build_CollectionHashedReadWriteSet a b c)); intros []. Defined.
#[export] Instance NsReadWriteSet_eq_dec : EqDecision NsReadWriteSet.
Proof. solve_decision. Defined.
#[export] Instance NsReadWriteSet_countable : Countable NsReadWriteSet.
Proof. by apply (inj_countable' (λ r, (nsp_Namespace r, nsp_Rwset r, nsp_CollectionHashedRwset r)) (λ '(a, b, c), Build_NsReadWriteSet a b c)); intros []. Defined.
#[export] Instance TxReadWriteSet_eq_dec : EqDecision TxReadWriteSet.
Proof. solve_decision. Defined.
#[export] Instance TxReadWriteSet_countable : Countable TxReadWriteSet.
Proof. by apply (inj_countable' (λ r, (txp_DataModel r, txp_NsRwset r)) (λ '(a, b), Build_TxReadWriteSet a b)); intros []. Defined.
#[export] Instance CollectionPvtReadWriteSet_eq_dec : EqDecision CollectionPvtReadWriteSet.
Proof. solve_decision. Defined.
#[export] Instance CollectionPvtReadWriteSet_countable : Countable CollectionPvtReadWriteSet.
Proof. by apply (inj_countable' (λ r, (cpp_CollectionName r, cpp_Rwset r)) (λ '(a, b), Build_CollectionPvtReadWriteSet a b)); intros []. Defined.
#[export] Instance NsPvtReadWriteSet_eq_dec : EqDecision NsPvtReadWriteSet.
Proof. solve_decision. Defined.
#[export] Instance NsPvtReadWriteSet_countable : Countable NsPvtReadWriteSet.
Proof. by apply (inj_countable' (λ r, (npp_Namespace r, npp_CollectionPvtRwset r)) (λ '(a, b), Build_NsPvtReadWriteSet a b)); intros []. Defined.
#[export] Instance TxPvtReadWriteSet_eq_dec : EqDecision TxPvtReadWriteSet.
Proof. solve_decision. Defined.
#[export] Instance TxPvtReadWriteSet_countable : Countable TxPvtReadWriteSet.
Proof. by apply (inj_countable' (λ r, (tpp_DataModel r, tpp_NsPvtRwset r)) (λ '(a, b), Build_TxPvtReadWriteSet a b)); intros []. Defined.

(** ** Lookups and counts *)

Fixpoint getPvtDataHash_loop (l : list CollHashedRwSet) (coll : bytes) : option bytes :=
  match l with
  | [] => None
  | c :: l => if decide (ch_CollectionName c = coll) then PvtRwSetHash c else getPvtDataHash_loop l coll
  end.
Definition getPvtDataHash (nsRwSet : NsRwSet) (coll : bytes) : option bytes :=
  getPvtDataHash_loop (CollHashedRwSets nsRwSet) coll.

(** The function returns from the first entry of the namespace. *)
Fixpoint GetPvtDataHash_loop (l : list NsRwSet) (ns coll : bytes) : option bytes :=
  match l with
  | [] => None
  | n :: l => if decide (NameSpace n = ns) then getPvtDataHash n coll else GetPvtDataHash_loop l ns coll
  end.
Definition GetPvtDataHash (txRwSet : TxRwSet) (ns coll : bytes) : option bytes :=
  GetPvtDataHash_loop (NsRwSets txRwSet) ns coll.

Definition NumCollections (txRwSet : option TxRwSet) : nat :=
  match txRwSet with
  | None => 0
  | Some t => foldl (λ n ns, foldl (λ n _, S n) n (CollHashedRwSets ns)) 0 (NsRwSets t)
  end.

(** ** Versions, reads and writes *)

Definition newProtoVersion (height : option Height) : option ProtoVersion :=
  match height with
  | None => None
  | Some h => Some {| pv_BlockNum := BlockNum h; pv_TxNum := TxNum h |}
  end.
Definition NewVersion (protoVersion : option ProtoVersion) : option Height :=
  match protoVersion with
  | None => None
  | Some v => Some (NewHeight (pv_BlockNum v) (pv_TxNum v))
  end.
Definition NewKVRead (key : bytes) (version : option Height) : KVRead :=
  {| kvr_Key := key; kvr_Version := newProtoVersion version |}.

(** The length of a slice, nil or not. *)
Definition blen (b : option bytes) : nat := length (default [] b).

Definition newKVWrite (key : bytes) (value : option bytes) : KVWrite :=
  {| kvw_Key := key; kvw_IsDelete := bool_decide (blen value = 0); kvw_Value := value |}.

Definition IsKVWriteDelete (kvWrite : KVWrite) : bool :=
  kvw_IsDelete kvWrite || bool_decide (blen (kvw_Value kvWrite) = 0).

Section hashes.
Context `{!Sha256}.

Definition ComputeHash (input : bytes) : bytes := ComputeSHA256 input.
Definition ComputeStringHash (input : bytes) : bytes := ComputeHash input.

Definition newPvtKVReadHash (key : bytes) (version : option Height) : KVReadHash :=
  {| rh_KeyHash := ComputeStringHash key; rh_Version := newProtoVersion version |}.

Definition newPvtKVWriteAndHash (key : bytes) (value : option bytes) : KVWrite * KVWriteHash :=
  let kvWrite := newKVWrite key value in
  let keyHash := ComputeStringHash key in
  let valueHash := if kvw_IsDelete kvWrite then None else Some (ComputeHash (default [] value)) in
  (kvWrite, {| wh_KeyHash := keyHash; wh_IsDelete := kvw_IsDelete kvWrite;
               wh_ValueHash := valueHash; wh_IsPurge := false |}).

Definition hashOfZeroLengthByteArray : bytes := ComputeHash [].

Definition IsKVWriteHashDelete (kvWriteHash : KVWriteHash) : bool :=
  wh_IsDelete kvWriteHash || bool_decide (blen (wh_ValueHash kvWriteHash) = 0)
    || bool_decide (hashOfZeroLengthByteArray = default [] (wh_ValueHash kvWriteHash)).
End hashes.

(** ** Conversion to and from the proto messages *)

Section proto.
Context `{!ProtoMessage KVRWSet, !ProtoMessage HashedRWSet,
          !ProtoMessage TxReadWriteSet, !ProtoMessage TxPvtReadWriteSet}.

(** [proto.Marshal] of a nil message is an error. *)
Definition MarshalPtr {A} `{!ProtoMessage A} (m : option A) : res bytes :=
  match m with Some m => Marshal m | None => Err "proto: Marshal called with nil" end.

Definition CollHashedRwSet_toProtoMsg (c : CollHashedRwSet) : res CollectionHashedReadWriteSet :=
  b ← MarshalPtr (HashedRwSet c);
  Ok {| chp_CollectionName := ch_CollectionName c; chp_HashedRwset := b; chp_PvtRwsetHash := PvtRwSetHash c |}.
Definition collHashedRwSetFromProtoMsg (protoMsg : CollectionHashedReadWriteSet) : res CollHashedRwSet :=
  h ← Unmarshal (chp_HashedRwset protoMsg);
  Ok {| ch_CollectionName := chp_CollectionName protoMsg; HashedRwSet := Some h;
        PvtRwSetHash := chp_PvtRwsetHash protoMsg |}.

Definition NsRwSet_toProtoMsg (nsRwSet : NsRwSet) : res NsReadWriteSet :=
  b ← MarshalPtr (KvRwSet nsRwSet);
  colls ← mapM CollHashedRwSet_toProtoMsg (CollHashedRwSets nsRwSet);
  Ok {| nsp_Namespace := NameSpace nsRwSet; nsp_Rwset := b; nsp_CollectionHashedRwset := colls |}.
Definition nsRwSetFromProtoMsg (protoMsg : NsReadWriteSet) : res NsRwSet :=
  kv ← Unmarshal (nsp_Rwset protoMsg);
  colls ← mapM collHashedRwSetFromProtoMsg (nsp_CollectionHashedRwset protoMsg);
  Ok {| NameSpace := nsp_Namespace protoMsg; KvRwSet := Some kv; CollHashedRwSets := colls |}.

Definition TxRwSet_toProtoMsg (txRwSet : TxRwSet) : res TxReadWriteSet :=
  nss ← mapM NsRwSet_toProtoMsg (NsRwSets txRwSet);
  Ok {| txp_DataModel := KV; txp_NsRwset := nss |}.
Definition TxRwSetFromProtoMsg (protoMsg : TxReadWriteSet) : res TxRwSet :=
  nss ← mapM nsRwSetFromProtoMsg (txp_NsRwset protoMsg);
  Ok {| NsRwSets := nss |}.

Definition TxRwSet_ToProtoBytes (txRwSet : TxRwSet) : res bytes :=
  protoMsg ← TxRwSet_toProtoMsg txRwSet; Marshal protoMsg.
Definition TxRwSet_FromProtoBytes (protoBytes : bytes) : res TxRwSet :=
  protoMsg ← Unmarshal protoBytes; TxRwSetFromProtoMsg protoMsg.

Definition CollPvtRwSet_ToProtoMsg (c : CollPvtRwSet) : res CollectionPvtReadWriteSet :=
  b ← MarshalPtr (cp_KvRwSet c);
  Ok {| cpp_CollectionName := cp_CollectionName c; cpp_Rwset := b |}.
Definition CollPvtRwSetFromProtoMsg (protoMsg : CollectionPvtReadWriteSet) : res CollPvtRwSet :=
  kv ← Unmarshal (cpp_Rwset protoMsg);
  Ok {| cp_CollectionName := cpp_CollectionName protoMsg; cp_KvRwSet := Some kv |}.

Definition NsPvtRwSet_toProtoMsg (n : NsPvtRwSet) : res NsPvtReadWriteSet :=
  colls ← mapM CollPvtRwSet_ToProtoMsg (CollPvtRwSets n);
  Ok {| npp_Namespace := np_NameSpace n; npp_CollectionPvtRwset := colls |}.
Definition nsPvtRwSetFromProtoMsg (protoMsg : NsPvtReadWriteSet) : res NsPvtRwSet :=
  colls ← mapM CollPvtRwSetFromProtoMsg (npp_CollectionPvtRwset protoMsg);
  Ok {| np_NameSpace := npp_Namespace protoMsg; CollPvtRwSets := colls |}.

Definition TxPvtRwSet_ToProtoMsg (t : TxPvtRwSet) : res TxPvtReadWriteSet :=
  nss ← mapM NsPvtRwSet_toProtoMsg (NsPvtRwSets t);
  Ok {| tpp_DataModel := KV; tpp_NsPvtRwset := nss |}.
Definition TxPvtRwSetFromProtoMsg (protoMsg : TxPvtReadWriteSet) : res TxPvtRwSet :=
  nss ← mapM nsPvtRwSetFromProtoMsg (tpp_NsPvtRwset protoMsg);
  Ok {| NsPvtRwSets := nss |}.

Definition TxPvtRwSet_ToProtoBytes (t : TxPvtRwSet) : res bytes :=
  protoMsg ← TxPvtRwSet_ToProtoMsg t; Marshal protoMsg.
Definition TxPvtRwSet_FromProtoBytes (protoBytes : bytes) : res TxPvtRwSet :=
  protoMsg ← Unmarshal protoBytes; TxPvtRwSetFromProtoMsg protoMsg.

(** ** Round trips *)

(** Wire normal forms: no present but empty [[]byte]. *)
Definition KVRWSet_normal (s : KVRWSet) : Prop := Forall (λ w, kvw_Value w ≠ Some []) (Writes s).
Definition HashedRWSet_normal (s : HashedRWSet) : Prop :=
  Forall (λ w, wh_ValueHash w ≠ Some []) (HashedWrites s).
Definition TxReadWriteSet_normal (t : TxReadWriteSet) : Prop :=
  Forall (λ n, Forall (λ c, chp_PvtRwsetHash c ≠ Some []) (nsp_CollectionHashedRwset n)) (txp_NsRwset t).
Definition CollHashedRwSet_normal (c : CollHashedRwSet) : Prop :=
  PvtRwSetHash c ≠ Some [] ∧ ∀ h, HashedRwSet c = Some h → HashedRWSet_normal h.
Definition NsRwSet_normal (n : NsRwSet) : Prop :=
  (∀ kv, KvRwSet n = Some kv → KVRWSet_normal kv) ∧ Forall CollHashedRwSet_normal (CollHashedRwSets n).
Definition CollPvtRwSet_normal (c : CollPvtRwSet) : Prop := ∀ kv, cp_KvRwSet c = Some kv → KVRWSet_normal kv.

Context `{!ProtoRoundTrip KVRWSet KVRWSet_normal, !ProtoRoundTrip HashedRWSet HashedRWSet_normal,
          !ProtoRoundTrip TxReadWriteSet TxReadWriteSet_normal,
          !ProtoRoundTrip TxPvtReadWriteSet (λ _, True)}.

Lemma collHashedRwSet_roundtrip c p :
  CollHashedRwSet_normal c → CollHashedRwSet_toProtoMsg c = Ok p → collHashedRwSetFromProtoMsg p = Ok c.
Proof.
  intros [_ Hn]. destruct c as [n [h|] pv]; unfold CollHashedRwSet_toProtoMsg; simpl; [|done].
  intros. inv_ok. unfold collHashedRwSetFromProtoMsg; simpl.
  by erewrite Unmarshal_Marshal by (try apply Hn; done).
Qed.

Lemma nsRwSet_roundtrip n p :
  NsRwSet_normal n → NsRwSet_toProtoMsg n = Ok p → nsRwSetFromProtoMsg p = Ok n.
Proof.
  intros [Hkv Hc]. destruct n as [nm [kv|] cs]; unfold NsRwSet_toProtoMsg; simpl; [|done].
  intros. inv_ok. unfold nsRwSetFromProtoMsg; simpl.
  erewrite Unmarshal_Marshal by (try apply Hkv; done). run.
  erewrite mapM_roundtrip; [done..|]. intros c p Hin. apply collHashedRwSet_roundtrip.
  rewrite Forall_forall in Hc. by apply Hc.
Qed.

Lemma nsPvtRwSet_roundtrip n p :
  Forall CollPvtRwSet_normal (CollPvtRwSets n) → NsPvtRwSet_toProtoMsg n = Ok p → nsPvtRwSetFromProtoMsg p = Ok n.
Proof.
  intros Hc. destruct n as [nm cs]; unfold NsPvtRwSet_toProtoMsg; simpl.
  intros. inv_ok. unfold nsPvtRwSetFromProtoMsg; simpl.
  erewrite mapM_roundtrip; [done..|]. intros [cn [kv|]] p Hin; unfold CollPvtRwSet_ToProtoMsg; simpl; [|done].
  intros. inv_ok. rewrite Forall_forall in Hc. specialize (Hc _ Hin kv eq_refl).
  unfold CollPvtRwSetFromProtoMsg; simpl. by erewrite Unmarshal_Marshal by done.
Qed.

Lemma TxRwSet_toProtoMsg_normal t p :
  Forall NsRwSet_normal (NsRwSets t) → TxRwSet_toProtoMsg t = Ok p → TxReadWriteSet_normal p.
Proof.
  unfold TxRwSet_toProtoMsg, TxReadWriteSet_normal. intros Hn ?. inv_ok. simpl.
  rename select (mapM _ _ = _) into Hm. apply mapM_Ok in Hm.
  induction Hm as [|n q l k Hq Hm IH]; constructor; inversion_clear Hn as [|? ? [_ Hc]]; [|auto].
  unfold NsRwSet_toProtoMsg in Hq. inv_ok. simpl.
  rename select (mapM _ _ = _) into Hcs. apply mapM_Ok in Hcs.
  clear -Hc Hcs. induction Hcs as [|c r l k Hr Hcs IH]; constructor; inversion_clear Hc as [|? ? [Hne _]]; [|auto].
  unfold CollHashedRwSet_toProtoMsg in Hr. by inv_ok.
Qed.
(** a public read-write set in wire normal form, and a private one,
    survive serialization: whenever [ToProtoBytes] succeeds, [FromProtoBytes]
    gives the same read-write set back. *)
Theorem rwset_proto_roundtrip (t : TxRwSet) (p : TxPvtRwSet) :
  (∀ b, Forall NsRwSet_normal (NsRwSets t) → TxRwSet_ToProtoBytes t = Ok b →
     TxRwSet_FromProtoBytes b = Ok t) ∧
  (∀ b, Forall (λ n, Forall CollPvtRwSet_normal (CollPvtRwSets n)) (NsPvtRwSets p) →
     TxPvtRwSet_ToProtoBytes p = Ok b → TxPvtRwSet_FromProtoBytes b = Ok p).
Proof.
  split; intros b Hn Hb.
  - unfold TxRwSet_ToProtoBytes in Hb. inv_ok. unfold TxRwSet_FromProtoBytes.
    erewrite Unmarshal_Marshal; [|by eapply TxRwSet_toProtoMsg_normal|done]. run.
    unfold TxRwSet_toProtoMsg in *. inv_ok. unfold TxRwSetFromProtoMsg; simpl.
    rename select (mapM _ _ = _) into Hm.
    rewrite (mapM_roundtrip _ _ _ _ Hm); [by destruct t|]. rewrite Forall_forall in Hn.
    intros; apply nsRwSet_roundtrip; eauto.
  - unfold TxPvtRwSet_ToProtoBytes in Hb. inv_ok. unfold TxPvtRwSet_FromProtoBytes.
    erewrite Unmarshal_Marshal by done. run.
    unfold TxPvtRwSet_ToProtoMsg in *. inv_ok. unfold TxPvtRwSetFromProtoMsg; simpl.
    rename select (mapM _ _ = _) into Hm.
    rewrite (mapM_roundtrip _ _ _ _ Hm); [by destruct p|]. rewrite Forall_forall in Hn.
    intros; eapply nsPvtRwSet_roundtrip; eauto.
Qed.
End proto.

Definition sample_TxRwSet : TxRwSet := {| NsRwSets := [
  {| NameSpace := B "ns1";
     KvRwSet := Some {|
       Reads := [{| kvr_Key := B "k"; kvr_Version := Some {| pv_BlockNum := 7; pv_TxNum := 2 |} |}];
       RangeQueriesInfo := []; MetadataWrites := [];
       Writes := [{| kvw_Key := B "k"; kvw_IsDelete := false; kvw_Value := Some (B "v") |}] |};
     CollHashedRwSets := [
       {| ch_CollectionName := B "c"; PvtRwSetHash := Some (B "h");
          HashedRwSet := Some {| HashedReads := []; HashedMetadataWrites := [];
            HashedWrites := [{| wh_KeyHash := B "kh"; wh_IsDelete := true; wh_ValueHash := None; wh_IsPurge := true |}] |} |}] |}] |}.

Lemma rwset_proto_roundtrip_witness :
  let kv := countable_proto KVRWSet in let h := countable_proto HashedRWSet in
  let tx := countable_proto TxReadWriteSet in
  ∃ b, TxRwSet_ToProtoBytes sample_TxRwSet = Ok b ∧ TxRwSet_FromProtoBytes b = Ok sample_TxRwSet.
Proof.
  intros kv h tx. eexists. split; [reflexivity|].
  pose (tp := countable_proto TxPvtReadWriteSet).
  apply (rwset_proto_roundtrip (ProtoMessage3 := tp)
    (ProtoRoundTrip0 := countable_proto_roundtrip _ _) (ProtoRoundTrip1 := countable_proto_roundtrip _ _)
    (ProtoRoundTrip2 := countable_proto_roundtrip _ _) (ProtoRoundTrip3 := countable_proto_roundtrip _ _)
    sample_TxRwSet {| NsPvtRwSets := [] |}); [|reflexivity].
  repeat (constructor; simpl; intros; simplify_eq); try done.
Defined.
