(* ===== verification/RwsetBuilder.v ===== *)
(** * Building the read-write set during simulation

  Models core/ledger/kvledger/txmgmt/rwsetutil/rwset_builder.go: the
  [RWSetBuilder] records the reads, writes, metadata writes and range queries
  of a simulated transaction, per namespace and collection, and turns them
  into the public and private read-write sets.

  A builder of the source is mutated in place through pointers; here every
  operation returns the new builder. *)

From S2P Require Import Prelude SortedMap Version StateDB Proto Rwset.
From stdpp Require Import options.
Local Open Scope nat_scope.
Set Default Proof Using "Type*".

(** ** State *)

Record rangeQueryKey := { rq_startKey : bytes; rq_endKey : bytes; rq_itrExhausted : bool }.
#[export] Instance rangeQueryKey_eq_dec : EqDecision rangeQueryKey.
Proof. solve_decision. Defined.
#[export] Instance rangeQueryKey_countable : Countable rangeQueryKey.
Proof.
  by apply (inj_countable' (λ r, (rq_startKey r, rq_endKey r, rq_itrExhausted r))
    (λ '(a, b, c), Build_rangeQueryKey a b c)); intros [].
Defined.

Record collHashRwBuilder := {
  chb_collName : bytes;
  chb_readMap : gmap bytes KVReadHash;
  chb_writeMap : gmap bytes KVWriteHash;
  chb_metadataWriteMap : gmap bytes KVMetadataWriteHash;
  chb_pvtDataHash : option bytes
}.
Record nsPubRwBuilder := {
  npb_namespace : bytes;
  npb_readMap : gmap bytes KVRead;
  npb_writeMap : gmap bytes KVWrite;
  npb_metadataWriteMap : gmap bytes KVMetadataWrite;
  npb_rangeQueriesMap : gmap rangeQueryKey RangeQueryInfo;
  npb_rangeQueriesKeys : list rangeQueryKey;
  npb_collHashRwBuilder : gmap bytes collHashRwBuilder
}.
Record collPvtRwBuilder := {
  cpb_collectionName : bytes;
  cpb_writeMap : gmap bytes KVWrite;
  cpb_metadataWriteMap : gmap bytes KVMetadataWrite
}.
Record nsPvtRwBuilder := {
  nvb_namespace : bytes;
  nvb_collPvtRwBuilders : gmap bytes collPvtRwBuilder
}.
Record RWSetBuilder := {
  pubRwBuilderMap : gmap bytes nsPubRwBuilder;
  pvtRwBuilderMap : gmap bytes nsPvtRwBuilder
}.

Definition newNsPubRwBuilder (namespace : bytes) : nsPubRwBuilder :=
  {| npb_namespace := namespace; npb_readMap := ∅; npb_writeMap := ∅; npb_metadataWriteMap := ∅;
     npb_rangeQueriesMap := ∅; npb_rangeQueriesKeys := []; npb_collHashRwBuilder := ∅ |}.
Definition newNsPvtRwBuilder (namespace : bytes) : nsPvtRwBuilder :=
  {| nvb_namespace := namespace; nvb_collPvtRwBuilders := ∅ |}.
Definition newCollHashRwBuilder (collName : bytes) : collHashRwBuilder :=
  {| chb_collName := collName; chb_readMap := ∅; chb_writeMap := ∅; chb_metadataWriteMap := ∅;
     chb_pvtDataHash := None |}.
Definition newCollPvtRwBuilder (collName : bytes) : collPvtRwBuilder :=
  {| cpb_collectionName := collName; cpb_writeMap := ∅; cpb_metadataWriteMap := ∅ |}.
Definition NewRWSetBuilder : RWSetBuilder := {| pubRwBuilderMap := ∅; pvtRwBuilderMap := ∅ |}.

(** The [getOrCreate] functions return a pointer into the builder; their
    callers write through it. [with_ns_pub] and the like are that pointer:
    they apply the write to the sub-builder, created when absent. *)
Definition getOrCreateNsPubRwBuilder (b : RWSetBuilder) (ns : bytes) : nsPubRwBuilder :=
  match pubRwBuilderMap b !! ns with Some n => n | None => newNsPubRwBuilder ns end.
Definition with_ns_pub (b : RWSetBuilder) (ns : bytes) (f : nsPubRwBuilder → nsPubRwBuilder) : RWSetBuilder :=
  {| pubRwBuilderMap := <[ns := f (getOrCreateNsPubRwBuilder b ns)]> (pubRwBuilderMap b);
     pvtRwBuilderMap := pvtRwBuilderMap b |}.

Definition getOrCreateNsPvtRwBuilder (b : RWSetBuilder) (ns : bytes) : nsPvtRwBuilder :=
  match pvtRwBuilderMap b !! ns with Some n => n | None => newNsPvtRwBuilder ns end.

Definition getOrCreateCollHashedRwBuilder (n : nsPubRwBuilder) (coll : bytes) : collHashRwBuilder :=
  match npb_collHashRwBuilder n !! coll with Some c => c | None => newCollHashRwBuilder coll end.
Definition with_coll_hash (b : RWSetBuilder) (ns coll : bytes) (f : collHashRwBuilder → collHashRwBuilder) : RWSetBuilder :=
  with_ns_pub b ns (λ n,
    {| npb_namespace := npb_namespace n; npb_readMap := npb_readMap n; npb_writeMap := npb_writeMap n;
       npb_metadataWriteMap := npb_metadataWriteMap n; npb_rangeQueriesMap := npb_rangeQueriesMap n;
       npb_rangeQueriesKeys := npb_rangeQueriesKeys n;
       npb_collHashRwBuilder :=
         <[coll := f (getOrCreateCollHashedRwBuilder n coll)]> (npb_collHashRwBuilder n) |}).

Definition getOrCreateCollPvtRwBuilder (n : nsPvtRwBuilder) (coll : bytes) : collPvtRwBuilder :=
  match nvb_collPvtRwBuilders n !! coll with Some c => c | None => newCollPvtRwBuilder coll end.
Definition with_coll_pvt (b : RWSetBuilder) (ns coll : bytes) (f : collPvtRwBuilder → collPvtRwBuilder) : RWSetBuilder :=
  let n := getOrCreateNsPvtRwBuilder b ns in
  {| pubRwBuilderMap := pubRwBuilderMap b;
     pvtRwBuilderMap := <[ns :=
       {| nvb_namespace := nvb_namespace n;
          nvb_collPvtRwBuilders :=
            <[coll := f (getOrCreateCollPvtRwBuilder n coll)]> (nvb_collPvtRwBuilders n) |}]> (pvtRwBuilderMap b) |}.

(** ** Recording operations *)

Section ops.
Context `{!Sha256}.

(** The entries are in the sorted order of the names; [m[name]] is there for
    every sorted key. *)
Definition metadata_entries (m : gmap bytes bytes) : list KVMetadataEntry :=
  (λ name, {| me_Name := name; me_Value := default [] (m !! name) |}) <$> GetSortedKeys m.
Definition mapToMetadataWrite (key : bytes) (m : gmap bytes bytes) : KVMetadataWrite :=
  {| mw_Key := key; mw_Entries := metadata_entries m |}.
Definition mapToMetadataWriteHash (key : bytes) (m : gmap bytes bytes) : KVMetadataWriteHash :=
  {| mwh_KeyHash := ComputeStringHash key; mwh_Entries := metadata_entries m |}.

Definition AddToReadSet (b : RWSetBuilder) (ns key : bytes) (version : option Height) : RWSetBuilder :=
  with_ns_pub b ns (λ n,
    {| npb_namespace := npb_namespace n; npb_readMap := <[key := NewKVRead key version]> (npb_readMap n);
       npb_writeMap := npb_writeMap n; npb_metadataWriteMap := npb_metadataWriteMap n;
       npb_rangeQueriesMap := npb_rangeQueriesMap n; npb_rangeQueriesKeys := npb_rangeQueriesKeys n;
       npb_collHashRwBuilder := npb_collHashRwBuilder n |}).

Definition AddToWriteSet (b : RWSetBuilder) (ns key : bytes) (value : option bytes) : RWSetBuilder :=
  with_ns_pub b ns (λ n,
    {| npb_namespace := npb_namespace n; npb_readMap := npb_readMap n;
       npb_writeMap := <[key := newKVWrite key value]> (npb_writeMap n);
       npb_metadataWriteMap := npb_metadataWriteMap n;
       npb_rangeQueriesMap := npb_rangeQueriesMap n; npb_rangeQueriesKeys := npb_rangeQueriesKeys n;
       npb_collHashRwBuilder := npb_collHashRwBuilder n |}).

Definition AddToMetadataWriteSet (b : RWSetBuilder) (ns key : bytes) (metadata : gmap bytes bytes) : RWSetBuilder :=
  with_ns_pub b ns (λ n,
    {| npb_namespace := npb_namespace n; npb_readMap := npb_readMap n; npb_writeMap := npb_writeMap n;
       npb_metadataWriteMap := <[key := mapToMetadataWrite key metadata]> (npb_metadataWriteMap n);
       npb_rangeQueriesMap := npb_rangeQueriesMap n; npb_rangeQueriesKeys := npb_rangeQueriesKeys n;
       npb_collHashRwBuilder := npb_collHashRwBuilder n |}).

(** A range query with the same bounds and exhaustion is recorded once. *)
Definition AddToRangeQuerySet (b : RWSetBuilder) (ns : bytes) (rqi : RangeQueryInfo) : RWSetBuilder :=
  with_ns_pub b ns (λ n,
    let key := {| rq_startKey := StartKey rqi; rq_endKey := EndKey rqi; rq_itrExhausted := ItrExhausted rqi |} in
    match npb_rangeQueriesMap n !! key with
    | Some _ => n
    | None =>
        {| npb_namespace := npb_namespace n; npb_readMap := npb_readMap n; npb_writeMap := npb_writeMap n;
           npb_metadataWriteMap := npb_metadataWriteMap n;
           npb_rangeQueriesMap := <[key := rqi]> (npb_rangeQueriesMap n);
           npb_rangeQueriesKeys := npb_rangeQueriesKeys n ++ [key];
           npb_collHashRwBuilder := npb_collHashRwBuilder n |}
    end).

Definition AddToHashedReadSet (b : RWSetBuilder) (ns coll key : bytes) (version : option Height) : RWSetBuilder :=
  let kvReadHash := newPvtKVReadHash key version in
  with_coll_hash b ns coll (λ c,
    {| chb_collName := chb_collName c; chb_readMap := <[key := kvReadHash]> (chb_readMap c);
       chb_writeMap := chb_writeMap c; chb_metadataWriteMap := chb_metadataWriteMap c;
       chb_pvtDataHash := chb_pvtDataHash c |}).

Definition put_pvt_write (b : RWSetBuilder) (ns coll key : bytes) (w : KVWrite) : RWSetBuilder :=
  with_coll_pvt b ns coll (λ c,
    {| cpb_collectionName := cpb_collectionName c; cpb_writeMap := <[key := w]> (cpb_writeMap c);
       cpb_metadataWriteMap := cpb_metadataWriteMap c |}).
Definition put_hash_write (b : RWSetBuilder) (ns coll key : bytes) (w : KVWriteHash) : RWSetBuilder :=
  with_coll_hash b ns coll (λ c,
    {| chb_collName := chb_collName c; chb_readMap := chb_readMap c;
       chb_writeMap := <[key := w]> (chb_writeMap c); chb_metadataWriteMap := chb_metadataWriteMap c;
       chb_pvtDataHash := chb_pvtDataHash c |}).

Definition AddToPvtAndHashedWriteSet (b : RWSetBuilder) (ns coll key : bytes) (value : option bytes) : RWSetBuilder :=
  let '(kvWrite, kvWriteHash) := newPvtKVWriteAndHash key value in
  put_hash_write (put_pvt_write b ns coll key kvWrite) ns coll key kvWriteHash.

Definition AddToPvtAndHashedWriteSetForPurge (b : RWSetBuilder) (ns coll key : bytes) : RWSetBuilder :=
  let '(kvWrite, kvWriteHash) := newPvtKVWriteAndHash key None in
  let kvWriteHash := {| wh_KeyHash := wh_KeyHash kvWriteHash; wh_IsDelete := wh_IsDelete kvWriteHash;
                        wh_ValueHash := wh_ValueHash kvWriteHash; wh_IsPurge := true |} in
  put_hash_write (put_pvt_write b ns coll key kvWrite) ns coll key kvWriteHash.

Definition AddToHashedMetadataWriteSet (b : RWSetBuilder) (ns coll key : bytes) (metadata : gmap bytes bytes) : RWSetBuilder :=
  let b := with_coll_pvt b ns coll (λ c,
    {| cpb_collectionName := cpb_collectionName c; cpb_writeMap := cpb_writeMap c;
       cpb_metadataWriteMap := <[key := {| mw_Key := key; mw_Entries := [] |}]> (cpb_metadataWriteMap c) |}) in
  with_coll_hash b ns coll (λ c,
    {| chb_collName := chb_collName c; chb_readMap := chb_readMap c; chb_writeMap := chb_writeMap c;
       chb_metadataWriteMap := <[key := mapToMetadataWriteHash key metadata]> (chb_metadataWriteMap c);
       chb_pvtDataHash := chb_pvtDataHash c |}).

(** ** Results *)

Definition collHashRwBuilder_build (b : collHashRwBuilder) : CollHashedRwSet :=
  {| ch_CollectionName := chb_collName b;
     HashedRwSet := Some {| HashedReads := GetValuesBySortedKeys (chb_readMap b);
                            HashedWrites := GetValuesBySortedKeys (chb_writeMap b);
                            HashedMetadataWrites := GetValuesBySortedKeys (chb_metadataWriteMap b) |};
     PvtRwSetHash := chb_pvtDataHash b |}.

(** [b.rangeQueriesMap[key]] is there for every recorded key
    ([builder_wf]). *)
Definition nsPubRwBuilder_build (b : nsPubRwBuilder) : NsRwSet :=
  {| NameSpace := npb_namespace b;
     KvRwSet := Some {| Reads := GetValuesBySortedKeys (npb_readMap b);
                        Writes := GetValuesBySortedKeys (npb_writeMap b);
                        MetadataWrites := GetValuesBySortedKeys (npb_metadataWriteMap b);
                        RangeQueriesInfo := omap (λ key, npb_rangeQueriesMap b !! key) (npb_rangeQueriesKeys b) |};
     CollHashedRwSets := collHashRwBuilder_build <$> GetValuesBySortedKeys (npb_collHashRwBuilder b) |}.

Definition collPvtRwBuilder_build (b : collPvtRwBuilder) : CollPvtRwSet :=
  {| cp_CollectionName := cpb_collectionName b;
     cp_KvRwSet := Some {| Reads := []; RangeQueriesInfo := [];
                           Writes := GetValuesBySortedKeys (cpb_writeMap b);
                           MetadataWrites := GetValuesBySortedKeys (cpb_metadataWriteMap b) |} |}.

Definition nsPvtRwBuilder_build (b : nsPvtRwBuilder) : NsPvtRwSet :=
  {| np_NameSpace := nvb_namespace b;
     CollPvtRwSets := collPvtRwBuilder_build <$> GetValuesBySortedKeys (nvb_collPvtRwBuilders b) |}.

Definition GetTxReadWriteSet (b : RWSetBuilder) : TxRwSet :=
  {| NsRwSets := nsPubRwBuilder_build <$> GetValuesBySortedKeys (pubRwBuilderMap b) |}.

Definition getTxPvtReadWriteSet (b : RWSetBuilder) : option TxPvtRwSet :=
  match nsPvtRwBuilder_build <$> GetValuesBySortedKeys (pvtRwBuilderMap b) with
  | [] => None
  | nsPvtRwSets => Some {| NsPvtRwSets := nsPvtRwSets |}
  end.

Definition setPvtCollectionHash (b : RWSetBuilder) (ns coll pvtDataProto : bytes) : RWSetBuilder :=
  with_coll_hash b ns coll (λ c,
    {| chb_collName := chb_collName c; chb_readMap := chb_readMap c; chb_writeMap := chb_writeMap c;
       chb_metadataWriteMap := chb_metadataWriteMap c; chb_pvtDataHash := Some (ComputeHash pvtDataProto) |}).

Context `{!ProtoMessage KVRWSet, !ProtoMessage HashedRWSet}.

(** The struct [ledger.TxSimulationResults]. *)
Record TxSimulationResults := {
  PubSimulationResults : TxReadWriteSet;
  PvtSimulationResults : option TxPvtReadWriteSet
}.

(** Also returns the builder, in which the hashes of the collections have
    been set. [GetTxReadWriteSet] never returns nil. *)
Definition GetTxSimulationResults (b : RWSetBuilder) : res (TxSimulationResults * RWSetBuilder) :=
  '(pvtDataProto, b) ← match getTxPvtReadWriteSet b with
    | None => Ok (None, b)
    | Some pvtData =>
        pvtDataProto ← TxPvtRwSet_ToProtoMsg pvtData;
        let b := foldl (λ b ns,
          foldl (λ b coll, setPvtCollectionHash b (npp_Namespace ns) (cpp_CollectionName coll) (cpp_Rwset coll))
            b (npp_CollectionPvtRwset ns)) b (tpp_NsPvtRwset pvtDataProto) in
        Ok (Some pvtDataProto, b)
    end;
  let pubSet := GetTxReadWriteSet b in
  pubDataProto ← TxRwSet_toProtoMsg pubSet;
  Ok ({| PubSimulationResults := pubDataProto; PvtSimulationResults := pvtDataProto |}, b).
End ops.

(** ** Histories of a builder *)

Section history.
Context `{!Sha256}.

Inductive builder_op :=
| OpRead (ns key : bytes) (version : option Height)
| OpWrite (ns key : bytes) (value : option bytes)
| OpMetadata (ns key : bytes) (metadata : gmap bytes bytes)
| OpRangeQuery (ns : bytes) (rqi : RangeQueryInfo)
| OpHashedRead (ns coll key : bytes) (version : option Height)
| OpPvtWrite (ns coll key : bytes) (value : option bytes)
| OpPurge (ns coll key : bytes)
| OpHashedMetadata (ns coll key : bytes) (metadata : gmap bytes bytes).

Definition apply_op (b : RWSetBuilder) (o : builder_op) : RWSetBuilder :=
  match o with
  | OpRead ns key v => AddToReadSet b ns key v
  | OpWrite ns key v => AddToWriteSet b ns key v
  | OpMetadata ns key m => AddToMetadataWriteSet b ns key m
  | OpRangeQuery ns rqi => AddToRangeQuerySet b ns rqi
  | OpHashedRead ns coll key v => AddToHashedReadSet b ns coll key v
  | OpPvtWrite ns coll key v => AddToPvtAndHashedWriteSet b ns coll key v
  | OpPurge ns coll key => AddToPvtAndHashedWriteSetForPurge b ns coll key
  | OpHashedMetadata ns coll key m => AddToHashedMetadataWriteSet b ns coll key m
  end.
Definition run_ops (ops : list builder_op) : RWSetBuilder := foldl apply_op NewRWSetBuilder ops.

(** What an operation records for a given key. *)
Definition read_of (ns key : bytes) (o : builder_op) : option (option Height) :=
  match o with OpRead n k v => if decide (n = ns ∧ k = key) then Some v else None | _ => None end.
Definition write_of (ns key : bytes) (o : builder_op) : option (option bytes) :=
  match o with OpWrite n k v => if decide (n = ns ∧ k = key) then Some v else None | _ => None end.
Definition metadata_of (ns key : bytes) (o : builder_op) : option (gmap bytes bytes) :=
  match o with OpMetadata n k m => if decide (n = ns ∧ k = key) then Some m else None | _ => None end.
(** The last value recorded for a key. *)
Definition recorded {A} (sel : builder_op → option A) (ops : list builder_op) : option A :=
  last (omap sel ops).

Lemma recorded_snoc {A} (sel : builder_op → option A) ops o :
  recorded sel (ops ++ [o]) = match sel o with Some a => Some a | None => recorded sel ops end.
Proof.
  unfold recorded. rewrite omap_app. simpl. destruct (sel o); simpl; [apply last_snoc|].
  by rewrite app_nil_r.
Qed.

Lemma getOrCreate_with_ns_pub b ns f ns' :
  getOrCreateNsPubRwBuilder (with_ns_pub b ns f) ns' =
  if decide (ns' = ns) then f (getOrCreateNsPubRwBuilder b ns) else getOrCreateNsPubRwBuilder b ns'.
Proof.
  unfold getOrCreateNsPubRwBuilder at 1, with_ns_pub; simpl.
  destruct (decide (ns' = ns)) as [->|]; [by rewrite lookup_insert_eq|].
  by rewrite lookup_insert_ne by done.
Qed.

Lemma with_coll_pvt_pub b ns coll f ns' :
  getOrCreateNsPubRwBuilder (with_coll_pvt b ns coll f) ns' = getOrCreateNsPubRwBuilder b ns'.
Proof. done. Qed.

(** The sub-builders of a namespace and a collection as an operation sees
    them. *)
Definition coll_hash (b : RWSetBuilder) (ns coll : bytes) : collHashRwBuilder :=
  getOrCreateCollHashedRwBuilder (getOrCreateNsPubRwBuilder b ns) coll.
Definition coll_pvt (b : RWSetBuilder) (ns coll : bytes) : collPvtRwBuilder :=
  getOrCreateCollPvtRwBuilder (getOrCreateNsPvtRwBuilder b ns) coll.

Lemma coll_hash_with_coll_hash b ns coll f ns' coll' :
  coll_hash (with_coll_hash b ns coll f) ns' coll' =
  if decide (ns' = ns ∧ coll' = coll) then f (coll_hash b ns coll) else coll_hash b ns' coll'.
Proof.
  unfold coll_hash, with_coll_hash. rewrite getOrCreate_with_ns_pub.
  destruct (decide (ns' = ns)) as [->|]; [|by rewrite decide_False by tauto].
  unfold getOrCreateCollHashedRwBuilder at 1; simpl.
  destruct (decide (coll' = coll)) as [->|].
  - by rewrite lookup_insert_eq, decide_True.
  - rewrite lookup_insert_ne by done. by rewrite decide_False by tauto.
Qed.

Lemma coll_pvt_with_coll_pvt b ns coll f ns' coll' :
  coll_pvt (with_coll_pvt b ns coll f) ns' coll' =
  if decide (ns' = ns ∧ coll' = coll) then f (coll_pvt b ns coll) else coll_pvt b ns' coll'.
Proof.
  unfold coll_pvt, with_coll_pvt, getOrCreateNsPvtRwBuilder at 1; simpl.
  destruct (decide (ns' = ns)) as [->|].
  - rewrite lookup_insert_eq. unfold getOrCreateCollPvtRwBuilder at 1; simpl.
    destruct (decide (coll' = coll)) as [->|].
    + by rewrite lookup_insert_eq, decide_True.
    + rewrite lookup_insert_ne by done. by rewrite decide_False by tauto.
  - rewrite lookup_insert_ne by done. by rewrite decide_False by tauto.
Qed.

Lemma lookup_insert_dec {V} (m : gmap bytes V) k v k' :
  <[k := v]> m !! k' = if decide (k' = k) then Some v else m !! k'.
Proof. destruct (decide (k' = k)) as [->|]; [apply lookup_insert_eq|by apply lookup_insert_ne]. Qed.

Lemma coll_hash_with_ns_pub b ns f ns' coll' :
  (∀ n, npb_collHashRwBuilder (f n) = npb_collHashRwBuilder n) →
  coll_hash (with_ns_pub b ns f) ns' coll' = coll_hash b ns' coll'.
Proof.
  intros Hf. unfold coll_hash. rewrite getOrCreate_with_ns_pub.
  destruct (decide (ns' = ns)) as [->|]; [|done].
  unfold getOrCreateCollHashedRwBuilder. by rewrite Hf.
Qed.

(** The maps of a namespace hold the last recorded values. *)
Lemma run_ops_maps ops ns key :
  npb_readMap (getOrCreateNsPubRwBuilder (run_ops ops) ns) !! key =
    NewKVRead key <$> recorded (read_of ns key) ops ∧
  npb_writeMap (getOrCreateNsPubRwBuilder (run_ops ops) ns) !! key =
    newKVWrite key <$> recorded (write_of ns key) ops ∧
  npb_metadataWriteMap (getOrCreateNsPubRwBuilder (run_ops ops) ns) !! key =
    mapToMetadataWrite key <$> recorded (metadata_of ns key) ops.
Proof.
  induction ops as [|o ops IH] using rev_ind; [done|].
  unfold run_ops. rewrite foldl_snoc, !recorded_snoc. fold (run_ops ops). set (b := run_ops ops) in *.
  destruct IH as (IHr & IHw & IHm).
  assert (∀ f, (∀ n, npb_readMap (f n) = npb_readMap n) → (∀ n, npb_writeMap (f n) = npb_writeMap n) →
    (∀ n, npb_metadataWriteMap (f n) = npb_metadataWriteMap n) → ∀ b' ns', (∀ x, getOrCreateNsPubRwBuilder b' x =
      getOrCreateNsPubRwBuilder b x) →
    npb_readMap (getOrCreateNsPubRwBuilder (with_ns_pub b' ns' f) ns) !! key = NewKVRead key <$> recorded (read_of ns key) ops ∧
    npb_writeMap (getOrCreateNsPubRwBuilder (with_ns_pub b' ns' f) ns) !! key = newKVWrite key <$> recorded (write_of ns key) ops ∧
    npb_metadataWriteMap (getOrCreateNsPubRwBuilder (with_ns_pub b' ns' f) ns) !! key =
      mapToMetadataWrite key <$> recorded (metadata_of ns key) ops) as Hkeep.
  { intros f H1 H2 H3 b' ns' Hb. rewrite getOrCreate_with_ns_pub.
    destruct (decide (ns = ns')) as [->|]; rewrite ?H1, ?H2, ?H3, !Hb; done. }
  destruct o; simpl; try (apply Hkeep; done);
    unfold AddToReadSet, AddToWriteSet, AddToMetadataWriteSet;
    try (rewrite getOrCreate_with_ns_pub; destruct (decide (ns = ns0)) as [<-|]; simpl;
      [rewrite lookup_insert_dec; destruct (decide (key = key0)) as [<-|];
        [rewrite decide_True by done|rewrite decide_False by naive_solver]
      |rewrite decide_False by naive_solver]; done).
  - apply Hkeep; try done; intros n; simpl; by case_match.
Qed.

Lemma run_ops_namespace ops ns n : pubRwBuilderMap (run_ops ops) !! ns = Some n → npb_namespace n = ns.
Proof.
  assert (∀ ns, npb_namespace (getOrCreateNsPubRwBuilder (run_ops ops) ns) = ns) as Hall.
  { clear. induction ops as [|o ops IH] using rev_ind; [done|]. intros ns.
    unfold run_ops. rewrite foldl_snoc. fold (run_ops ops).
    assert (∀ f b' ns', (∀ n, npb_namespace (f n) = npb_namespace n) →
      (∀ x, getOrCreateNsPubRwBuilder b' x = getOrCreateNsPubRwBuilder (run_ops ops) x) →
      npb_namespace (getOrCreateNsPubRwBuilder (with_ns_pub b' ns' f) ns) = ns) as Hkeep.
    { intros f b' ns' Hf Hb. rewrite getOrCreate_with_ns_pub.
      destruct (decide (ns = ns')) as [->|]; rewrite ?Hf, Hb; apply IH. }
    destruct o; simpl; apply Hkeep; try done. intros n; simpl; by case_match. }
  intros Hn. specialize (Hall ns). unfold getOrCreateNsPubRwBuilder in Hall. by rewrite Hn in Hall.
Qed.

Lemma recorded_present ops ns key :
  (is_Some (recorded (read_of ns key) ops) ∨ is_Some (recorded (write_of ns key) ops)) →
  is_Some (pubRwBuilderMap (run_ops ops) !! ns).
Proof.
  destruct (run_ops_maps ops ns key) as (Hr & Hw & _). unfold getOrCreateNsPubRwBuilder in *.
  destruct (pubRwBuilderMap (run_ops ops) !! ns); [eauto|]. simpl in *.
  rewrite lookup_empty in *. intros [[? E]|[? E]]; rewrite E in *; done.
Qed.

(** whatever sequence of operations a simulation performs, the resulting
    public read-write set lists the namespaces, and within a namespace the
    reads, the writes and the metadata writes, in the strict order of their
    names and keys (so each occurs once); a read or a write is in it if and
    only if it is the last one recorded for its key. *)
Theorem rwset_builder_last_wins ops :
  let t := GetTxReadWriteSet (run_ops ops) in
  StronglySorted bytes_lt (NameSpace <$> NsRwSets t) ∧
  (∀ ns key, is_Some (recorded (read_of ns key) ops) ∨ is_Some (recorded (write_of ns key) ops) →
     ns ∈ NameSpace <$> NsRwSets t) ∧
  (∀ n, n ∈ NsRwSets t → ∃ kv, KvRwSet n = Some kv ∧
     StronglySorted bytes_lt (kvr_Key <$> Reads kv) ∧
     StronglySorted bytes_lt (kvw_Key <$> Writes kv) ∧
     StronglySorted bytes_lt (mw_Key <$> MetadataWrites kv) ∧
     (∀ r, r ∈ Reads kv ↔ NewKVRead (kvr_Key r) <$> recorded (read_of (NameSpace n) (kvr_Key r)) ops = Some r) ∧
     (∀ w, w ∈ Writes kv ↔ newKVWrite (kvw_Key w) <$> recorded (write_of (NameSpace n) (kvw_Key w)) ops = Some w)).
Proof.
  intros t. assert (NameSpace <$> NsRwSets t = (sorted_kvs (pubRwBuilderMap (run_ops ops))).*1) as Hns.
  { unfold t; simpl. rewrite <-list_fmap_compose. apply GetValuesBySortedKeys_keys, run_ops_namespace. }
  split; [rewrite Hns; apply ssorted_fst, sorted_kvs_sorted|split].
  - intros ns key [n Hn]%recorded_present. rewrite Hns.
    apply list_elem_of_fmap. exists (ns, n). by rewrite elem_of_sorted_kvs.
  - intros n (b & -> & (ns & Hb)%elem_of_GetValuesBySortedKeys)%list_elem_of_fmap.
    simpl. rewrite (run_ops_namespace _ _ _ Hb). eexists; split; [done|]; simpl.
    assert (getOrCreateNsPubRwBuilder (run_ops ops) ns = b) as Hg
      by (unfold getOrCreateNsPubRwBuilder; by rewrite Hb).
    pose proof (λ key, run_ops_maps ops ns key) as Hm. rewrite Hg in Hm.
    assert (∀ k r, npb_readMap b !! k = Some r → kvr_Key r = k) as Hkr.
    { intros k r. destruct (Hm k) as (-> & _ & _). by intros (? & _ & ->)%fmap_Some. }
    assert (∀ k w, npb_writeMap b !! k = Some w → kvw_Key w = k) as Hkw.
    { intros k w. destruct (Hm k) as (_ & -> & _). by intros (? & _ & ->)%fmap_Some. }
    assert (∀ k w, npb_metadataWriteMap b !! k = Some w → mw_Key w = k) as Hkm.
    { intros k w. destruct (Hm k) as (_ & _ & ->). by intros (? & _ & ->)%fmap_Some. }
    split_and!; try (by apply GetValuesBySortedKeys_sorted).
    + intros r. rewrite elem_of_GetValuesBySortedKeys. destruct (Hm (kvr_Key r)) as (<- & _ & _).
      split; [|eauto]. intros [k Hk]. by rewrite (Hkr k r).
    + intros w. rewrite elem_of_GetValuesBySortedKeys. destruct (Hm (kvw_Key w)) as (_ & <- & _).
      split; [|eauto]. intros [k Hk]. by rewrite (Hkw k w).
Qed.
End history.
