(* ===== verification/Merkle.v ===== *)
(** * Merkle summaries of range query results

  Models core/ledger/kvledger/txmgmt/rwsetutil/query_results_helper.go. The
  [RangeQueryResultsHelper] receives the results of a range query one by one
  and builds a Merkle tree over them incrementally, keeping only the frontier
  of the tree. The reference definition [merkle_reference] builds the same
  tree level by level from the complete list of results; the file proves that
  the incremental construction computes it.

  The hash function and the serialization of a batch of results are
  parameters, and both may fail. Tree levels are [nat]: a node of level [n]
  stands for more than [2^n] results, so the [uint32] of the source cannot
  overflow. Lengths are compared as the source does, after a conversion to
  [uint32]. *)

From S2P Require Import Prelude SortedMap Version StateDB Proto Rwset.
From stdpp Require Import options.
Local Open Scope nat_scope.
Set Default Proof Using "Type*".

Notation Hash := bytes (only parsing).
Definition HashFunc := bytes → res bytes.
Definition leafLevel : nat := 1.

Record merkleTree := {
  tree : gmap nat (list Hash);
  maxLevel : nat;
  mt_maxDegree : Z;
  mt_hashFunc : HashFunc
}.

Record RangeQueryResultsHelper := {
  pendingResults : list KVRead;
  mt : option merkleTree;
  rq_maxDegree : Z;
  hashingEnabled : bool;
  rq_hashFunc : HashFunc
}.

(** [uint32(len(l))]. *)
Definition len32 {A} (l : list A) : Z := u32 (Z.of_nat (length l)).

(** ** The tree *)

Definition newMerkleTree (maxDegree : Z) (hashFunc : HashFunc) : res merkleTree :=
  if (maxDegree <? 2)%Z then Err "maxDegree should not be less than 2 in the merkle tree"
  else Ok {| tree := ∅; maxLevel := 1; mt_maxDegree := maxDegree; mt_hashFunc := hashFunc |}.

Definition computeCombinedHash (hashes : list Hash) (hashFunc : HashFunc) : res Hash :=
  hashFunc (concat hashes).

(** A missing level reads as the nil slice. *)
Definition level_hashes (t : gmap nat (list Hash)) (l : nat) : list Hash := default [] (t !! l).

(** The loop of [update]. It ends at a level that does not overflow; a level
    above [maxLevel] is empty, so [maxLevel + 2] rounds are enough
    ([update_total]). *)
Fixpoint update_loop (fuel : nat) (m : merkleTree) (currentLevel : nat) : res merkleTree :=
  match fuel with
  | O => Panic
  | S fuel =>
      let currentLevelHashes := level_hashes (tree m) currentLevel in
      if (len32 currentLevelHashes <=? mt_maxDegree m)%Z then Ok m
      else
        nextLevelHash ← computeCombinedHash currentLevelHashes (mt_hashFunc m);
        let t := delete currentLevel (tree m) in
        let nextLevel := currentLevel + 1 in
        update_loop fuel
          {| tree := <[nextLevel := level_hashes t nextLevel ++ [nextLevelHash]]> t;
             maxLevel := if bool_decide (maxLevel m < nextLevel) then nextLevel else maxLevel m;
             mt_maxDegree := mt_maxDegree m; mt_hashFunc := mt_hashFunc m |} nextLevel
  end.
Definition merkleTree_update (m : merkleTree) (nextLeafLevelHash : Hash) : res merkleTree :=
  update_loop (maxLevel m + 2)
    {| tree := <[leafLevel := level_hashes (tree m) leafLevel ++ [nextLeafLevelHash]]> (tree m);
       maxLevel := maxLevel m; mt_maxDegree := mt_maxDegree m; mt_hashFunc := mt_hashFunc m |} leafLevel.

(** The loop of [done]: [maxLevel - currentLevel] rounds. *)
Fixpoint done_loop (fuel : nat) (m : merkleTree) (currentLevel : nat) : res merkleTree :=
  match fuel with
  | O => Ok m
  | S fuel =>
      let push h :=
        let t := delete currentLevel (tree m) in
        done_loop fuel
          {| tree := <[currentLevel + 1 := level_hashes t (currentLevel + 1) ++ [h]]> t;
             maxLevel := maxLevel m; mt_maxDegree := mt_maxDegree m; mt_hashFunc := mt_hashFunc m |}
          (currentLevel + 1) in
      match level_hashes (tree m) currentLevel with
      | [] => done_loop fuel m (currentLevel + 1)
      | [h] => push h
      | hs => h ← computeCombinedHash hs (mt_hashFunc m); push h
      end
  end.
Definition merkleTree_done (m : merkleTree) : res merkleTree :=
  m ← done_loop (maxLevel m - leafLevel) m leafLevel;
  let finalHashes := level_hashes (tree m) (maxLevel m) in
  if (mt_maxDegree m <? len32 finalHashes)%Z then
    let t := delete (maxLevel m) (tree m) in
    combinedHash ← computeCombinedHash finalHashes (mt_hashFunc m);
    Ok {| tree := <[maxLevel m + 1 := [combinedHash]]> t; maxLevel := maxLevel m + 1;
          mt_maxDegree := mt_maxDegree m; mt_hashFunc := mt_hashFunc m |}
  else Ok m.

Definition getMaxLevelHashes (m : merkleTree) : list Hash := level_hashes (tree m) (maxLevel m).
Definition getSummery (m : merkleTree) : QueryReadsMerkleSummary :=
  {| MaxDegree := mt_maxDegree m; MaxLevel := Z.of_nat (maxLevel m);
     MaxLevelHashes := getMaxLevelHashes m |}.
Definition merkleTree_isEmpty (m : merkleTree) : bool :=
  bool_decide (maxLevel m = 1) && bool_decide (length (getMaxLevelHashes m) = 0).

(** ** The helper *)

Section helper.
Context `{!ProtoMessage QueryReads}.

Definition NewRangeQueryResultsHelper (enableHashing : bool) (maxDegree : Z) (hashFunc : HashFunc) :
    res RangeQueryResultsHelper :=
  t ← (if enableHashing then t ← newMerkleTree maxDegree hashFunc; Ok (Some t) else Ok None);
  Ok {| pendingResults := []; mt := t; rq_maxDegree := maxDegree;
        hashingEnabled := enableHashing; rq_hashFunc := hashFunc |}.

Definition serializeKVReads (kvReads : list KVRead) : res bytes := Marshal {| KvReads := kvReads |}.

Definition processPendingResults (helper : RangeQueryResultsHelper) : res RangeQueryResultsHelper :=
  b ← serializeKVReads (pendingResults helper);
  hash ← rq_hashFunc helper b;
  t ← deref (mt helper);
  t ← merkleTree_update t hash;
  Ok {| pendingResults := []; mt := Some t; rq_maxDegree := rq_maxDegree helper;
        hashingEnabled := hashingEnabled helper; rq_hashFunc := rq_hashFunc helper |}.

Definition AddResult (helper : RangeQueryResultsHelper) (kvRead : KVRead) : res RangeQueryResultsHelper :=
  let helper := {| pendingResults := pendingResults helper ++ [kvRead]; mt := mt helper;
                   rq_maxDegree := rq_maxDegree helper; hashingEnabled := hashingEnabled helper;
                   rq_hashFunc := rq_hashFunc helper |} in
  if hashingEnabled helper && (rq_maxDegree helper <? len32 (pendingResults helper))%Z
  then processPendingResults helper
  else Ok helper.

Definition Helper_Done (helper : RangeQueryResultsHelper) : res (list KVRead * option QueryReadsMerkleSummary) :=
  if negb (hashingEnabled helper) then Ok (pendingResults helper, None) else
  t ← deref (mt helper);
  if merkleTree_isEmpty t then Ok (pendingResults helper, None) else
  helper ← (if decide (pendingResults helper = []) then Ok helper else processPendingResults helper);
  t ← deref (mt helper);
  t ← merkleTree_done t;
  Ok (pendingResults helper, Some (getSummery t)).

(** [None] when hashing is disabled. *)
Definition GetMerkleSummary (helper : RangeQueryResultsHelper) : res (option QueryReadsMerkleSummary) :=
  if negb (hashingEnabled helper) then Ok None
  else t ← deref (mt helper); Ok (Some (getSummery t)).
End helper.

(** ** Reference definition *)

(** Consecutive groups of [n] elements, the last one possibly shorter. *)
Fixpoint chunks_of {A} (fuel n : nat) (l : list A) : list (list A) :=
  match fuel, l with
  | _, [] | O, _ => []
  | S fuel, _ => take n l :: chunks_of fuel n (drop n l)
  end.
Definition chunks {A} (n : nat) (l : list A) : list (list A) := chunks_of (length l) n l.

Section reference.
Context (d : nat) (hashf : bytes → bytes) (ser : list KVRead → bytes).

(** A parent is the hash of the concatenation of its children; an only child
    stands for itself. *)
Definition parent (children : list Hash) : Hash :=
  match children with [h] => h | _ => hashf (concat children) end.
Definition parents (hashes : list Hash) : list Hash := parent <$> chunks (S d) hashes.

(** Levels are added until at most [d] hashes are left. *)
Fixpoint climb (fuel level : nat) (hashes : list Hash) : nat * list Hash :=
  match fuel with
  | O => (level, hashes)
  | S fuel => if bool_decide (length hashes ≤ d) then (level, hashes)
              else climb fuel (level + 1) (parents hashes)
  end.
Definition leaf_hashes (results : list KVRead) : list Hash := (hashf ∘ ser) <$> chunks (S d) results.

(** At most [d] results are kept as they are; more are summarised. *)
Definition merkle_reference (results : list KVRead) : list KVRead * option QueryReadsMerkleSummary :=
  if bool_decide (length results ≤ d) then (results, None)
  else
    let '(level, hashes) := climb (length results) leafLevel (leaf_hashes results) in
    ([], Some {| MaxDegree := Z.of_nat d; MaxLevel := Z.of_nat level; MaxLevelHashes := hashes |}).
End reference.

(** ** Grouping a list as it grows *)

Section split.
Context {A : Type} (c : nat).

(** The complete groups of [c] elements, and the incomplete one. *)
Definition split_step (s : list (list A) * list A) (x : A) : list (list A) * list A :=
  if decide (S (length s.2) = c) then (s.1 ++ [s.2 ++ [x]], []) else (s.1, s.2 ++ [x]).
Definition split (l : list A) : list (list A) * list A := foldl split_step ([], []) l.

Lemma split_snoc l x : split (l ++ [x]) = split_step (split l) x.
Proof. unfold split. by rewrite foldl_snoc. Qed.

Lemma split_spec l :
  0 < c → concat (split l).1 ++ (split l).2 = l ∧
  Forall (λ g, length g = c) (split l).1 ∧ length (split l).2 < c.
Proof.
  intros Hc. induction l as [|x l (IH1 & IH2 & IH3)] using rev_ind; [by split_and!|].
  rewrite split_snoc. unfold split_step. destruct (decide _) as [Hl|Hl]; simpl.
  - split_and!; [| |lia].
    + rewrite concat_app. simpl. rewrite !app_nil_r, app_assoc. by rewrite IH1.
    + apply Forall_app. split; [done|]. constructor; [|done]. rewrite length_app; simpl. lia.
  - split_and!; [|done|rewrite length_app; simpl; lia]. by rewrite app_assoc, IH1.
Qed.

Lemma chunks_of_fuel n fuel fuel' (l : list A) :
  0 < n → length l ≤ fuel → length l ≤ fuel' → chunks_of fuel n l = chunks_of fuel' n l.
Proof.
  intros Hn. revert fuel' l. induction fuel as [|fuel IH]; intros fuel' l Hf Hf'.
  - destruct l; [by destruct fuel'|simpl in *; lia].
  - destruct l as [|x l]; [by destruct fuel'|]. destruct fuel' as [|fuel']; [simpl in *; lia|].
    simpl. f_equal. apply IH; rewrite length_drop; simpl in *; lia.
Qed.

Lemma chunks_app (g l : list A) : 0 < c → length g = c → chunks c (g ++ l) = g :: chunks c l.
Proof.
  intros Hc Hg. unfold chunks. destruct g as [|x g]; [simpl in *; lia|].
  simpl length. simpl app. cbn [chunks_of].
  rewrite app_comm_cons, take_app_length' by done. rewrite drop_app_length' by done.
  f_equal. apply chunks_of_fuel; [done| |done]. rewrite length_app. lia.
Qed.

Lemma chunks_short (l : list A) : l ≠ [] → length l ≤ c → chunks c l = [l].
Proof.
  intros Hne Hl. unfold chunks. destruct l as [|x l]; [done|]. simpl length. cbn [chunks_of].
  rewrite take_ge, drop_ge by done. by destruct (length l).
Qed.

Lemma chunks_groups (gs : list (list A)) r :
  0 < c → Forall (λ g, length g = c) gs → length r ≤ c →
  chunks c (concat gs ++ r) = gs ++ match r with [] => [] | _ => [r] end.
Proof.
  intros Hc Hgs Hr. induction Hgs as [|g gs Hg Hgs IH]; simpl.
  - destruct r; [done|]. by apply chunks_short.
  - by rewrite <-app_assoc, chunks_app, IH.
Qed.

Lemma length_chunks (l : list A) : 0 < c → length (chunks c l) ≤ length l.
Proof.
  intros Hc. unfold chunks. generalize (length l) at 1 as fuel. intros fuel. revert l.
  induction fuel as [|fuel IH]; intros [|x l]; simpl; try lia.
  specialize (IH (drop c (x :: l))). rewrite length_drop in IH. simpl in *. lia.
Qed.
End split.

(** ** The frontier of the tree *)

Section frontier.
Context (d : nat) (hashFunc : HashFunc) (hashf : bytes → bytes).
Set Default Proof Using "All".
Context (Hd : 2 ≤ d) (Hd32 : (Z.of_nat d < two32 - 1)%Z) (Hhash : ∀ b, hashFunc b = Ok (hashf b)).

Lemma len32_small {A} (l : list A) : length l ≤ S d → len32 l = Z.of_nat (length l).
Proof. intros. unfold len32, u32. apply Z.mod_small. unfold two32 in *. lia. Qed.

(** Complete and pending parts of a level. *)
Definition complete (hs : list Hash) : list Hash := (λ g, hashf (concat g)) <$> (split (S d) hs).1.
Definition pending (hs : list Hash) : list Hash := (split (S d) hs).2.
Definition up (k : nat) (hs : list Hash) : list Hash := Nat.iter k complete hs.

Lemma complete_snoc hs x :
  if decide (length (pending hs) = d)
  then complete (hs ++ [x]) = complete hs ++ [hashf (concat (pending hs ++ [x]))] ∧ pending (hs ++ [x]) = []
  else complete (hs ++ [x]) = complete hs ∧ pending (hs ++ [x]) = pending hs ++ [x].
Proof.
  unfold complete, pending. rewrite split_snoc. unfold split_step.
  destruct (decide (S _ = S d)), (decide (_ = d)); try lia; simpl; [|done].
  by rewrite fmap_app.
Qed.
Lemma pending_length hs : length (pending hs) ≤ d.
Proof. destruct (split_spec (S d) hs) as (_ & _ & ?); unfold pending; lia. Qed.
Lemma complete_nil_pending hs : complete hs = [] → pending hs = hs.
Proof.
  destruct (split_spec (S d) hs) as (Heq & _ & _); [lia|]. unfold complete, pending.
  intros Hn%fmap_nil_inv. rewrite Hn in Heq. done.
Qed.
Lemma pending_complete_ne hs : pending hs ≠ [] → hs ≠ [].
Proof. by intros Hp ->. Qed.
Lemma complete_length hs : complete hs ≠ [] → d < length hs.
Proof.
  destruct (split_spec (S d) hs) as (Heq & Hall & _); [lia|]. unfold complete.
  destruct (split (S d) hs).1 as [|g gs]; [done|]. intros _. apply Forall_cons in Hall as [Hg _].
  rewrite <-Heq. simpl. rewrite !length_app. lia.
Qed.
Lemma up_S k hs : up (S k) hs = complete (up k hs).
Proof. done. Qed.
Lemma up_nil k j hs : up k hs = [] → k ≤ j → up j hs = [].
Proof. intros Hk. induction 1 as [|j _ IH]; [done|]. by rewrite up_S, IH. Qed.

(** The stored tree after the leaves [hs]: every level holds the pending part
    of that level, and [maxLevel] is the last level that has nodes. *)
Definition tree_inv (m : merkleTree) (hs : list Hash) : Prop :=
  (∀ k, level_hashes (tree m) (S k) = pending (up k hs)) ∧
  mt_maxDegree m = Z.of_nat d ∧ mt_hashFunc m = hashFunc ∧
  ∃ K, maxLevel m = S K ∧ up (S K) hs = [] ∧ (up K hs ≠ [] ∨ K = 0).

Lemma level_hashes_insert t l v l' :
  level_hashes (<[l := v]> t) l' = if decide (l' = l) then v else level_hashes t l'.
Proof.
  unfold level_hashes. destruct (decide (l' = l)) as [->|]; [by rewrite lookup_insert_eq|].
  by rewrite lookup_insert_ne.
Qed.
Lemma level_hashes_delete t l l' :
  level_hashes (delete l t) l' = if decide (l' = l) then [] else level_hashes t l'.
Proof.
  unfold level_hashes. destruct (decide (l' = l)) as [->|]; [by rewrite lookup_delete_eq|].
  by rewrite lookup_delete_ne.
Qed.

(** [update] from level [S k] on, where [x] is the node that arrives there:
    the levels below hold the new frontier, those above still the old one. *)
Lemma update_loop_spec n hs hs' m k x K fuel :
  S K - k ≤ n → n < fuel → up (S K) hs = [] → (up K hs ≠ [] ∨ K = 0) →
  (∀ j, level_hashes (tree m) (S j) =
     if decide (j < k) then pending (up j hs') else
     if decide (j = k) then pending (up k hs) ++ [x] else pending (up j hs)) →
  up k hs' = up k hs ++ [x] → mt_maxDegree m = Z.of_nat d → mt_hashFunc m = hashFunc →
  maxLevel m = Nat.max (S K) (S k) →
  ∃ m', update_loop fuel m (S k) = Ok m' ∧ tree_inv m' hs'.
Proof.
  revert m k x fuel. induction n as [n IH] using lt_wf_ind.
  intros m k x fuel Hn Hfuel HK HK' Hlev Hup Hdeg Hhf Hmax.
  destruct fuel as [|fuel]; [lia|]. cbn [update_loop].
  assert (level_hashes (tree m) (S k) = pending (up k hs) ++ [x]) as Hk.
  { rewrite Hlev, decide_False by lia. by rewrite decide_True. }
  pose proof (pending_length (up k hs)) as Hpl.
  rewrite Hk, Hdeg, len32_small by (rewrite length_app; simpl; lia).
  pose proof (complete_snoc (up k hs) x) as Hsn. rewrite <-Hup, <-!up_S in Hsn.
  rewrite length_app. simpl length.
  destruct (decide (length (pending (up k hs)) = d)) as [Hfull|Hfull]; destruct Hsn as [Hc Hp].
  - rewrite (proj2 (Z.leb_gt _ _)) by lia.
    unfold computeCombinedHash. rewrite Hhf, Hhash. run.
    assert (k ≤ K) as HkK.
    { destruct (decide (k ≤ K)) as [|Hgt]; [done|]. rewrite (up_nil (S K) k hs HK) in Hfull by lia.
      simpl in Hfull. lia. }
    replace (S k + 1) with (S (S k)) by lia.
    apply (IH (S K - S k)) with (x := hashf (concat (pending (up k hs) ++ [x])));
      try done; try lia.
    + intros j. cbn [tree]. rewrite level_hashes_insert, !level_hashes_delete, !Hlev.
      repeat case_decide; try lia; try done. by replace j with k by lia.
    + cbn [maxLevel]. rewrite Hmax. case_bool_decide; lia.
  - rewrite (proj2 (Z.leb_le _ _)) by lia. eexists; split; [done|].
    assert (∀ j, k < j → up j hs' = up j hs) as Heq.
    { intros j. induction 1 as [|j _ IHj]; [done|]. by rewrite !up_S, IHj. }
    split_and!; [|done..|].
    + intros j. rewrite Hlev. repeat case_decide; [done|by subst|by rewrite Heq by lia].
    + exists (Nat.max K k). split_and!; [lia| |left].
      * rewrite Heq by lia. apply (up_nil (S K)); [done|lia].
      * destruct (decide (K ≤ k)); [replace (K `max` k) with k by lia; rewrite Hup; by destruct (up k hs)|].
        replace (K `max` k) with K by lia. rewrite Heq by lia. destruct HK'; [done|lia].
Qed.

Lemma update_spec m hs x :
  tree_inv m hs → ∃ m', merkleTree_update m x = Ok m' ∧ tree_inv m' (hs ++ [x]).
Proof.
  intros (Hlev & Hdeg & Hhf & K & HK & Hup & Hne). unfold merkleTree_update.
  apply (update_loop_spec (S K) hs) with (x := x) (K := K); simpl; try done; try lia.
  intros j. rewrite level_hashes_insert, !Hlev. unfold leafLevel. rewrite (Hlev 0).
  repeat case_decide; try lia; simplify_eq; done.
Qed.

(** ** Completion *)

Definition reference (k : nat) (hs : list Hash) : list Hash := Nat.iter k (parents d hashf) hs.

Lemma parents_split hs e :
  length e ≤ 1 →
  parents d hashf (hs ++ e) =
  complete hs ++ match pending hs ++ e with [] => [] | c => [parent hashf c] end.
Proof.
  intros He. destruct (split_spec (S d) hs) as (Heq & Hall & Hr); [lia|].
  unfold parents, complete, pending. rewrite <-Heq at 1. rewrite <-app_assoc.
  rewrite chunks_groups; [|lia|done|rewrite length_app; lia]. rewrite fmap_app. f_equal.
  - apply list_fmap_ext. intros i g Hg. rewrite Forall_lookup in Hall. specialize (Hall i g Hg).
    destruct g as [|? [|? g]]; simpl in *; [lia|lia|done].
  - by destruct ((split (S d) hs).2 ++ e).
Qed.

(** [done] from level [S k] on, where [e] is the node carried up, if any. *)
Lemma done_loop_spec n hs m k e :
  length e ≤ 1 → reference k hs = up k hs ++ e → up (S (k + n)) hs = [] →
  (∀ j, k ≤ j → level_hashes (tree m) (S j) = pending (up j hs) ++ if decide (j = k) then e else []) →
  mt_maxDegree m = Z.of_nat d → mt_hashFunc m = hashFunc → maxLevel m = S (k + n) →
  ∃ m', done_loop n m (S k) = Ok m' ∧ maxLevel m' = maxLevel m ∧
    mt_maxDegree m' = Z.of_nat d ∧ mt_hashFunc m' = hashFunc ∧
    getMaxLevelHashes m' = reference (k + n) hs ∧ length (reference (k + n) hs) ≤ S d.
Proof.
  revert m k e. induction n as [|n IH]; intros m k e He Href Hup Hlev Hdeg Hhf Hmax.
  - rewrite Nat.add_0_r in *. rewrite up_S in Hup. eexists; split; [done|]. split_and!; try done; unfold getMaxLevelHashes;
      pose proof (complete_nil_pending _ Hup) as Hp.
    + rewrite Hmax, Hlev, decide_True by done. by rewrite Hp.
    + rewrite Href, length_app, <-Hp. pose proof (pending_length (up k hs)). lia.
  - assert (level_hashes (tree m) (S k) = pending (up k hs) ++ e) as Hk.
    { rewrite Hlev by lia. by rewrite decide_True. }
    assert (reference (S k) hs = up (S k) hs ++
      match pending (up k hs) ++ e with [] => [] | c => [parent hashf c] end) as Href'.
    { change (reference (S k) hs) with (parents d hashf (reference k hs)). by rewrite Href, parents_split. }
    replace (k + S n) with (S k + n) in * by lia. cbn [done_loop]. rewrite Hk.
    replace (S k + 1) with (S (S k)) by lia.
    destruct (pending (up k hs) ++ e) as [|h [|h' c]]; [apply (IH m (S k) []); simpl; try done; try lia| |].
    { intros j Hj. rewrite Hlev, !decide_False by lia. by destruct (decide (j = S k)). }
    all: unfold computeCombinedHash; rewrite ?Hhf, ?Hhash; run;
      match goal with |- context [done_loop _ ?m' _] => set (m1 := m') end;
      eapply (IH m1 _ _ _ Href'); simpl; try done; try lia;
      intros j Hj; unfold m1; cbn [tree];
      rewrite level_hashes_insert, !level_hashes_delete;
      rewrite !Hlev by lia; repeat case_decide; simplify_eq; try lia; by rewrite ?app_nil_r.
    Unshelve. all: simpl; lia.
Qed.

Lemma length_parents hs : d < length hs → length (parents d hashf hs) < length hs.
Proof.
  intros Hl. unfold parents. rewrite length_fmap.
  rewrite <-(take_drop (S d) hs) at 1. rewrite chunks_app by (rewrite ?length_take; lia). simpl.
  pose proof (length_chunks (S d) (drop (S d) hs)) as Hc. rewrite length_drop in Hc. lia.
Qed.

Lemma climb_spec n fuel level hs :
  length hs ≤ fuel → (∀ j, j < n → d < length (reference j hs)) → length (reference n hs) ≤ d →
  climb d hashf fuel level hs = (level + n, reference n hs).
Proof.
  revert fuel level hs. induction n as [|n IH]; intros fuel level hs Hf Hlt Hle.
  - rewrite Nat.add_0_r. destruct fuel; simpl; [done|]. by rewrite bool_decide_eq_true_2.
  - assert (d < length hs) as Hl by (apply (Hlt 0); lia). destruct fuel as [|fuel]; [lia|]. simpl.
    rewrite bool_decide_eq_false_2 by lia.
    assert (∀ j, reference j (parents d hashf hs) = reference (S j) hs) as Hr.
    { intros j. unfold reference. by rewrite <-Nat.iter_succ_r. }
    rewrite (IH fuel), Hr; [f_equal; lia| |intros j Hj; rewrite Hr; apply Hlt; lia|by rewrite Hr].
    pose proof (length_parents hs Hl). lia.
Qed.

Lemma reference_up j hs : ∃ e, length e ≤ 1 ∧ reference j hs = up j hs ++ e.
Proof.
  induction j as [|j (e & He & IH)]; [exists []; rewrite app_nil_r; simpl; split; [lia|done]|].
  change (reference (S j) hs) with (parents d hashf (reference j hs)).
  rewrite IH, parents_split by done. eexists; split; [|done]. destruct (pending _ ++ e); simpl; lia.
Qed.

(** The levels climbed end with at most [d] hashes. *)
Lemma climb_end fuel level hs :
  length hs ≤ fuel → ∃ n, climb d hashf fuel level hs = (level + n, reference n hs) ∧ length (reference n hs) ≤ d.
Proof.
  revert level hs. induction fuel as [|fuel IH]; intros level hs Hf; simpl.
  - exists 0. rewrite Nat.add_0_r. split; [done|simpl; lia].
  - case_bool_decide; [exists 0; by rewrite Nat.add_0_r|].
    pose proof (length_parents hs ltac:(lia)). destruct (IH (level + 1) (parents d hashf hs)) as (n & Hc & Hn); [lia|].
    exists (S n). assert (reference n (parents d hashf hs) = reference (S n) hs) as Hr.
    { unfold reference. by rewrite <-Nat.iter_succ_r. }
    rewrite Hr in Hc, Hn. rewrite Hc. split; [f_equal; lia|done].
Qed.

(** Growing the leaves grows every level. *)
Lemma complete_prefix hs hs' : hs `prefix_of` hs' → complete hs `prefix_of` complete hs'.
Proof.
  intros [r ->]. induction r as [|x r IH] using rev_ind; [by rewrite app_nil_r|].
  etrans; [exact IH|]. rewrite app_assoc. pose proof (complete_snoc (hs ++ r) x) as Hc.
  destruct (decide _); destruct Hc as [-> _]; [by apply prefix_app_r|done].
Qed.
Lemma up_prefix k hs hs' : hs `prefix_of` hs' → up k hs `prefix_of` up k hs'.
Proof. intros Hp. induction k as [|k IH]; [done|]. rewrite !up_S. by apply complete_prefix. Qed.

(** A tree over some of the leaves has not climbed higher than the completed
    tree over all of them, and at the same level it holds all nodes so far. *)
Lemma frontier_level m hs hs' n :
  tree_inv m hs → hs `prefix_of` hs' → length (reference n hs') ≤ d → n < maxLevel m →
  maxLevel m = S n ∧ getMaxLevelHashes m = up n hs.
Proof.
  intros (Hlev & _ & _ & K & HK & Hup & Hne) Hp Hlen Hn. rewrite HK in Hn.
  assert (∀ k, up k hs `prefix_of` reference k hs') as Hpre.
  { intros k. destruct (reference_up k hs') as (e & _ & ->). apply prefix_app_r. by apply up_prefix. }
  assert (K = n) as ->.
  { destruct (decide (K = n)) as [|Hkn]; [done|]. exfalso. destruct Hne as [Hne|]; [|lia].
    assert (complete (up n hs) ≠ []) as Hc.
    { intros E. apply Hne, (up_nil (S n)); [by rewrite up_S|lia]. }
    apply complete_length in Hc. pose proof (prefix_length _ _ (Hpre n)). lia. }
  split; [done|]. unfold getMaxLevelHashes. rewrite HK, Hlev, complete_nil_pending by (by rewrite <-up_S). done.
Qed.

(** Completing the frontier of [hs] gives the reference tree over [hs]. *)
Lemma done_spec m hs fuel :
  tree_inv m hs → length hs ≤ fuel →
  ∃ m', merkleTree_done m = Ok m' ∧
    getSummery m' = let '(level, hashes) := climb d hashf fuel leafLevel hs in
      {| MaxDegree := Z.of_nat d; MaxLevel := Z.of_nat level; MaxLevelHashes := hashes |}.
Proof.
  intros (Hlev & Hdeg & Hhf & K & HK & Hup & Hne) Hfuel. unfold merkleTree_done.
  rewrite HK. unfold leafLevel. replace (S K - 1) with K by lia.
  destruct (done_loop_spec K hs m 0 []) as (m1 & -> & Hm1 & Hd1 & Hh1 & Hg1 & Hl1);
    simpl; rewrite ?app_nil_r; try done; try lia.
  { intros j _. rewrite Hlev. by destruct (decide (j = 0)); rewrite app_nil_r. }
  simpl in Hg1, Hl1. run. unfold getMaxLevelHashes in Hg1. rewrite Hg1, Hd1, len32_small by lia.
  assert (∀ j, j < K → d < length (reference j hs)) as Hlow.
  { intros j Hj. assert (up (S j) hs ≠ []) as Hn.
    { intros Hn. destruct Hne as [Hne|]; [|lia]. apply Hne, (up_nil (S j)); [done|lia]. }
    rewrite up_S in Hn. apply complete_length in Hn.
    destruct (reference_up j hs) as (e & _ & ->).
    rewrite length_app. lia. }
  destruct (decide (length (reference K hs) ≤ d)) as [Hle|Hgt].
  - rewrite (proj2 (Z.ltb_ge _ _)) by lia. eexists; split; [done|].
    rewrite (climb_spec K) by done. unfold getSummery, getMaxLevelHashes. by rewrite Hg1, Hd1, Hm1, HK.
  - rewrite (proj2 (Z.ltb_lt _ _)) by lia. unfold computeCombinedHash. rewrite Hh1, Hhash. run.
    eexists; split; [done|].
    assert (reference (S K) hs = [hashf (concat (reference K hs))]) as HSK.
    { change (reference (S K) hs) with (parents d hashf (reference K hs)). unfold parents.
      rewrite chunks_short; [|intros E; rewrite E in Hgt; simpl in Hgt; lia|lia]. simpl.
      destruct (reference K hs) as [|? [|? l]]; simpl in *; [lia|lia|done]. }
    rewrite (climb_spec (S K)), HSK; [|done| |rewrite HSK; simpl; lia].
    + unfold getSummery, getMaxLevelHashes; simpl. rewrite level_hashes_insert, Hm1, HK.
      rewrite decide_True by done. f_equal. lia.
    + intros j Hj. destruct (decide (j = K)) as [->|]; [lia|]. apply Hlow. lia.
Qed.
End frontier.

(** ** The helper computes the reference summary *)

Section helper_correct.
Set Default Proof Using "All".
Context `{!ProtoMessage QueryReads} (d : nat) (hashFunc : HashFunc)
        (hashf : bytes → bytes) (ser : list KVRead → bytes).
Context (Hd : 2 ≤ d) (Hd32 : (Z.of_nat d < two32 - 1)%Z)
        (Hhash : ∀ b, hashFunc b = Ok (hashf b)) (Hser : ∀ l, serializeKVReads l = Ok (ser l)).

Definition helper_inv (h : RangeQueryResultsHelper) (rs : list KVRead) : Prop :=
  pendingResults h = (split (S d) rs).2 ∧ hashingEnabled h = true ∧
  rq_maxDegree h = Z.of_nat d ∧ rq_hashFunc h = hashFunc ∧
  ∃ t, mt h = Some t ∧ tree_inv d hashFunc hashf t ((hashf ∘ ser) <$> (split (S d) rs).1).

Lemma new_helper_inv : ∃ h,
  NewRangeQueryResultsHelper true (Z.of_nat d) hashFunc = Ok h ∧ helper_inv h [].
Proof.
  unfold NewRangeQueryResultsHelper, newMerkleTree. rewrite (proj2 (Z.ltb_ge _ _)) by lia. run.
  eexists; split; [done|]. split_and!; try done. eexists; split; [done|].
  assert (∀ k, up d hashf k [] = []) as Hup by (intros k; apply (up_nil d hashFunc hashf Hd Hd32 Hhash 0); [done|lia]).
  split_and!; try done; simpl.
  - intros k. by rewrite Hup.
  - exists 0. split_and!; [done| |by right]. apply (Hup 1).
Qed.

Lemma process_inv h rs t g :
  pendingResults h = g → hashingEnabled h = true → rq_maxDegree h = Z.of_nat d → rq_hashFunc h = hashFunc →
  mt h = Some t → tree_inv d hashFunc hashf t rs →
  ∃ h' t', processPendingResults h = Ok h' ∧ pendingResults h' = [] ∧ hashingEnabled h' = true ∧
    rq_maxDegree h' = Z.of_nat d ∧ rq_hashFunc h' = hashFunc ∧ mt h' = Some t' ∧
    tree_inv d hashFunc hashf t' (rs ++ [hashf (ser g)]).
Proof.
  intros <- He Hm Hh Ht Hinv. unfold processPendingResults. rewrite Hser, Hh. run.
  rewrite Hhash, Ht. unfold deref. run.
  destruct (update_spec d hashFunc hashf Hd Hd32 Hhash t rs (hashf (ser (pendingResults h))) Hinv) as (t' & -> & Ht').
  run. do 2 eexists. by split_and!.
Qed.

Lemma AddResult_inv h rs r :
  helper_inv h rs → ∃ h', AddResult h r = Ok h' ∧ helper_inv h' (rs ++ [r]).
Proof.
  intros (Hp & He & Hm & Hh & t & Ht & Hinv). unfold AddResult; simpl. rewrite He, Hm; simpl.
  destruct (split_spec (S d) rs) as (_ & _ & Hl); [lia|]. rewrite <-Hp in Hl.
  rewrite (len32_small d hashFunc hashf Hd Hd32 Hhash) by (rewrite length_app; simpl; lia).
  unfold helper_inv. rewrite split_snoc. unfold split_step.
  rewrite length_app; simpl length. rewrite <-Hp.
  destruct (decide (S (length (pendingResults h)) = S d)) as [Hfull|Hfull]; simpl.
  - rewrite (proj2 (Z.ltb_lt _ _)) by lia.
    set (h1 := Build_RangeQueryResultsHelper _ _ _ _ _).
    destruct (process_inv h1 ((hashf ∘ ser) <$> (split (S d) rs).1) t (pendingResults h ++ [r]))
      as (h' & t' & -> & ? & ? & ? & ? & ? & Ht'); try done.
    eexists; split; [done|]. split_and!; try done. eexists; split; [done|]. by rewrite fmap_app.
  - rewrite (proj2 (Z.ltb_ge _ _)) by lia. eexists; split; [done|]. split_and!; try done; simpl.
    by eexists.
Qed.

Lemma AddResults_inv rs : ∃ h h',
  NewRangeQueryResultsHelper true (Z.of_nat d) hashFunc = Ok h ∧
  foldM AddResult h rs = Ok h' ∧ helper_inv h' rs.
Proof.
  destruct new_helper_inv as (h & Hnew & Hinv). exists h.
  assert (∃ h', foldM AddResult h rs = Ok h' ∧ helper_inv h' rs) as (h' & ? & ?); [|by exists h'].
  induction rs as [|r rs (h' & Hf & IH)] using rev_ind; [by exists h|].
  destruct (AddResult_inv h' rs r IH) as (h'' & Hadd & Hinv''). exists h''.
  split; [|done]. rewrite foldM_app, Hf. run. simpl. by rewrite Hadd.
Qed.

Lemma leaf_hashes_split rs :
  leaf_hashes d hashf ser rs =
  ((hashf ∘ ser) <$> (split (S d) rs).1) ++
    match (split (S d) rs).2 with [] => [] | g => [hashf (ser g)] end.
Proof.
  destruct (split_spec (S d) rs) as (Heq & Hall & Hl); [lia|]. unfold leaf_hashes.
  rewrite <-Heq at 1. rewrite chunks_groups by (done || lia). rewrite fmap_app. f_equal.
  by destruct (split (S d) rs).2.
Qed.

Lemma split_prefix {A} (l l' : list A) : (split (S d) l).1 `prefix_of` (split (S d) (l ++ l')).1.
Proof.
  induction l' as [|x l' IH] using rev_ind; [by rewrite app_nil_r|].
  rewrite app_assoc, split_snoc. unfold split_step. etrans; [exact IH|]. case_decide; simpl; [by apply prefix_app_r|done].
Qed.

(** The leaves that are complete. *)
Definition full_leaves (rs : list KVRead) : list Hash := (hashf ∘ ser) <$> (split (S d) rs).1.
Lemma full_leaves_prefix rs rs' : full_leaves rs `prefix_of` full_leaves (rs ++ rs').
Proof. unfold full_leaves. destruct (split_prefix rs rs') as [r ->]. rewrite fmap_app. by eexists. Qed.

(** The level of the final summary, and what a helper that has seen some of the
    results holds when it has reached that level. *)
Lemma summary_level rs s :
  (merkle_reference d hashf ser rs).2 = Some s →
  ∃ n, ∀ rs1 rs2, rs = rs1 ++ rs2 → up d hashf n (full_leaves rs1) `prefix_of` MaxLevelHashes s ∧
    ∀ h, helper_inv h rs1 → ∃ cur, GetMerkleSummary h = Ok (Some cur) ∧
      ((MaxLevel s ≤ MaxLevel cur)%Z → MaxLevelHashes cur = up d hashf n (full_leaves rs1)).
Proof.
  intros Hs. unfold merkle_reference in Hs. case_bool_decide; [done|].
  assert (length (leaf_hashes d hashf ser rs) ≤ length rs) as Hll.
  { unfold leaf_hashes. rewrite length_fmap. apply length_chunks. lia. }
  destruct (climb_end d hashFunc hashf Hd Hd32 Hhash _ leafLevel _ Hll) as (n & Hc & Hn). rewrite Hc in Hs. simplify_eq/=.
  exists n. intros rs1 rs2 ->.
  assert (full_leaves rs1 `prefix_of` leaf_hashes d hashf ser (rs1 ++ rs2)) as Hp.
  { rewrite leaf_hashes_split. apply prefix_app_r, full_leaves_prefix. }
  split.
  - destruct (reference_up d hashFunc hashf Hd Hd32 Hhash n (leaf_hashes d hashf ser (rs1 ++ rs2))) as (e & _ & ->).
    apply prefix_app_r. by apply (up_prefix d hashFunc hashf Hd Hd32 Hhash).
  - intros h (_ & He & _ & _ & t & Ht & Hinv). unfold GetMerkleSummary. rewrite He, Ht. simpl.
    eexists; split; [done|]. simpl. intros Hle.
    eapply frontier_level; [done..|unfold leafLevel in Hle; lia].
Qed.

Lemma Done_inv h rs : helper_inv h rs → Helper_Done h = Ok (merkle_reference d hashf ser rs).
Proof.
  intros (Hp & He & Hm & Hh & t & Ht & Hinv). unfold Helper_Done. rewrite He, Ht; simpl.
  destruct (split_spec (S d) rs) as (Heq & Hall & Hl); [lia|]. unfold merkle_reference.
  pose proof Hinv as (Hlev & _ & _ & K & HK & Hup & Hne).
  unfold merkleTree_isEmpty, getMaxLevelHashes. rewrite HK, Hlev.
  pose proof (leaf_hashes_split rs) as Hleaf.
  destruct (split (S d) rs).1 as [|g gs] eqn:Hgs.
  - simpl in *. assert (K = 0) as ->.
    { destruct Hne as [Hne|]; [|done]. destruct Hne. apply (up_nil d hashFunc hashf Hd Hd32 Hhash 0); [done|lia]. }
    simpl. rewrite Hp, Heq. by rewrite bool_decide_eq_true_2 by (rewrite <-Heq; lia).
  - assert (d < length rs) as Hlen.
    { rewrite <-Heq. apply Forall_cons in Hall as [Hg _]. simpl. rewrite !length_app. lia. }
    rewrite (bool_decide_eq_false_2 (length rs ≤ d)) by lia.
    assert (bool_decide (S K = 1) && bool_decide (length (pending d (up d hashf K ((hashf ∘ ser) <$> g :: gs))) = 0) = false) as ->.
    { apply andb_false_iff. destruct (decide (K = 0)) as [->|]; [|left; apply bool_decide_eq_false_2; lia].
      right. apply bool_decide_eq_false_2. simpl in *.
      rewrite (complete_nil_pending d hashFunc hashf Hd Hd32 Hhash) by done. done. }
    assert (length (leaf_hashes d hashf ser rs) ≤ length rs) as Hll.
    { unfold leaf_hashes. rewrite length_fmap. apply length_chunks. lia. }
    rewrite Hp. destruct (split (S d) rs).2 as [|r p] eqn:Hpe; simpl decide.
    + rewrite app_nil_r in Hleaf. rewrite decide_True by done. run. rewrite Ht. unfold deref; run.
      rewrite <-Hleaf in Hinv.
      destruct (done_spec d hashFunc hashf Hd Hd32 Hhash t _ (length rs) Hinv Hll) as (t' & -> & Hs). run.
      rewrite Hs, Hp. by destruct (climb _ _ _ _ _).
    + rewrite decide_False by done.
      destruct (process_inv h ((hashf ∘ ser) <$> g :: gs) t (r :: p)) as (h' & t' & -> & Hp' & _ & _ & _ & Ht' & Hinv'); try done.
      run. rewrite Ht'. unfold deref; run. rewrite <-Hleaf in Hinv'.
      destruct (done_spec d hashFunc hashf Hd Hd32 Hhash t' _ (length rs) Hinv' Hll) as (t'' & -> & Hs). run.
      rewrite Hs, Hp'. by destruct (climb _ _ _ _ _).
Qed.
End helper_correct.

(** ** Properties *)


Definition sample_reads (n : nat) : list KVRead :=
  (λ i, {| kvr_Key := [Zbyte (Z.of_nat i)]; kvr_Version := None |}) <$> seq 0 n.
Definition sample_ser (l : list KVRead) : bytes := concat (kvr_Key <$> l).
Definition sample_codec : ProtoMessage QueryReads :=
  {| Marshal q := Ok (sample_ser (KvReads q)); Unmarshal _ := Err "not used" |}.

