(* ===== verification/LevelDB.v ===== *)
(** * Named databases in one LevelDB store

  Models common/ledger/util/leveldbhelper (leveldb_provider.go and the
  operations of leveldb_helper.go): one goleveldb store shared by several
  named databases, each of which sees only the keys that carry its name.

  goleveldb is a parameter, the class [GoLevelDB]: a store with point reads,
  atomic batches and range iterators, any of which may fail.
  [GoLevelDBLaws] states its documented behaviour on a store that suffers no
  I/O error: the store is a finite map, a batch applies its operations in
  order, an iterator is a snapshot of a key range in key order. The map
  itself, [gmap bytes bytes], is an instance.

  The mutexes, the sync flag of the writes and opening and closing of files
  are not modelled. A handle is its database name; the store it points to is
  passed explicitly, since all handles share it. *)

From S2P Require Import Prelude SortedMap Separated.
From stdpp Require Import options.
Local Open Scope nat_scope.
Set Default Proof Using "Type*".

(** ** goleveldb *)

Inductive ldb_op := LPut (k v : bytes) | LDelete (k : bytes).

Class GoLevelDB (L : Type) := {
  ldb_Get : L → bytes → res (option bytes);
  ldb_Write : L → list ldb_op → res L;
  (** The bindings from the start key on and below the limit; an empty limit
      is no limit. *)
  ldb_NewIterator : L → bytes → bytes → res (list (bytes * bytes))
}.

Definition apply_ldb_op (m : gmap bytes bytes) (o : ldb_op) : gmap bytes bytes :=
  match o with LPut k v => <[k := v]> m | LDelete k => delete k m end.
Definition apply_ldb_ops (m : gmap bytes bytes) (ops : list ldb_op) : gmap bytes bytes :=
  foldl apply_ldb_op m ops.

Class GoLevelDBLaws (L : Type) `{!GoLevelDB L} := {
  contents : L → gmap bytes bytes;
  ldb_Get_law db k : ldb_Get db k = Ok (contents db !! k);
  ldb_Write_law db ops : ∃ db', ldb_Write db ops = Ok db' ∧ contents db' = apply_ldb_ops (contents db) ops;
  ldb_NewIterator_law db s e : ldb_NewIterator db s e = Ok (range_kvs (contents db) s e)
}.

#[export] Instance gmap_leveldb : GoLevelDB (gmap bytes bytes) := {
  ldb_Get db k := Ok (db !! k);
  ldb_Write db ops := Ok (apply_ldb_ops db ops);
  ldb_NewIterator db s e := Ok (range_kvs db s e)
}.
#[export, program] Instance gmap_leveldb_laws : GoLevelDBLaws (gmap bytes bytes) := { contents := id }.
Next Obligation. done. Qed.
Next Obligation. intros. by eexists. Qed.
Next Obligation. done. Qed.

(** ** The helper *)

Definition internalDBName : bytes := B "_".
Definition maxBatchSize : nat := 1000 * 1000.
Definition dbNameKeySep : byte := x00.
Definition lastKeyIndicator : byte := x01.
Definition formatVersionKey : bytes := B "f".

Definition constructLevelKey (dbName key : bytes) : bytes := dbName ++ [dbNameKeySep] ++ key.
(** [bytes.SplitN(levelKey, dbNameKeySep, 2)[1]]. *)
Definition retrieveAppKey (levelKey : bytes) : res bytes := index (SplitN dbNameKeySep 2 levelKey) 1.

(** A batch of a handle: its operations carry the level keys. *)
Record LevelBatch := { lb_ops : list ldb_op; lb_dbName : bytes; lb_size : nat }.

Definition LevelBatch_Put (b : LevelBatch) (key : bytes) (value : option bytes) : res LevelBatch :=
  match value with
  | None => Panic
  | Some v =>
      let k := constructLevelKey (lb_dbName b) key in
      Ok {| lb_ops := lb_ops b ++ [LPut k v]; lb_dbName := lb_dbName b;
            lb_size := lb_size b + (length k + length v) |}
  end.
Definition LevelBatch_Delete (b : LevelBatch) (key : bytes) : LevelBatch :=
  let k := constructLevelKey (lb_dbName b) key in
  {| lb_ops := lb_ops b ++ [LDelete k]; lb_dbName := lb_dbName b; lb_size := lb_size b + length k |}.
Definition LevelBatch_Reset (b : LevelBatch) : LevelBatch :=
  {| lb_ops := []; lb_dbName := lb_dbName b; lb_size := 0 |}.

(** An iterator: the bindings still to come, with level keys. *)
Record Iterator := { it_dbName : bytes; it_rest : list (bytes * bytes) }.

(** [Next], then [Key] and [Value] when it returns true. *)
Definition Iterator_Next (itr : Iterator) : res (option (bytes * bytes) * Iterator) :=
  match it_rest itr with
  | [] => Ok (None, itr)
  | (k, v) :: rest =>
      key ← retrieveAppKey k;
      Ok (Some (key, v), {| it_dbName := it_dbName itr; it_rest := rest |})
  end.

Section handle.
Context {L : Type} `{!GoLevelDB L}.

Definition DBHandle_Get (dbName : bytes) (db : L) (key : bytes) : res (option bytes) :=
  ldb_Get db (constructLevelKey dbName key).
Definition DBHandle_Put (dbName : bytes) (db : L) (key value : bytes) : res L :=
  ldb_Write db [LPut (constructLevelKey dbName key) value].
Definition DBHandle_Delete (dbName : bytes) (db : L) (key : bytes) : res L :=
  ldb_Write db [LDelete (constructLevelKey dbName key)].

Definition DBHandle_NewUpdateBatch (dbName : bytes) : LevelBatch :=
  {| lb_ops := []; lb_dbName := dbName; lb_size := 0 |}.
(** An empty batch is not written. *)
Definition DBHandle_WriteBatch (db : L) (batch : LevelBatch) : res L :=
  if decide (lb_ops batch = []) then Ok db else ldb_Write db (lb_ops batch).

(** With a nil end key the last byte of [eKey], the separator, is replaced. *)
Definition DBHandle_GetIterator (dbName : bytes) (db : L) (startKey endKey : option bytes) : res Iterator :=
  let sKey := constructLevelKey dbName (default [] startKey) in
  let eKey := constructLevelKey dbName (default [] endKey) in
  let eKey := match endKey with
              | None => <[length eKey - 1 := lastKeyIndicator]> eKey
              | Some _ => eKey
              end in
  rest ← ldb_NewIterator db sKey eKey;
  Ok {| it_dbName := dbName; it_rest := rest |}.

Definition DBHandle_IsEmpty (dbName : bytes) (db : L) : res bool :=
  itr ← DBHandle_GetIterator dbName db None None;
  Ok (bool_decide (it_rest itr = [])).

(** The loop of [deleteAll] over the level keys of the iterator; a batch is
    written whenever its keys reach [maxBatchSize] bytes. *)
Fixpoint deleteAll_loop (db : L) (batch : list ldb_op) (batchSize : nat) (keys : list bytes) : res L :=
  match keys with
  | [] => if decide (batch = []) then Ok db else ldb_Write db batch
  | key :: keys =>
      let batchSize := batchSize + length key in
      let batch := batch ++ [LDelete key] in
      if bool_decide (maxBatchSize ≤ batchSize)
      then db ← ldb_Write db batch; deleteAll_loop db [] 0 keys
      else deleteAll_loop db batch batchSize keys
  end.
Definition DBHandle_deleteAll (dbName : bytes) (db : L) : res L :=
  itr ← DBHandle_GetIterator dbName db None None;
  deleteAll_loop db [] 0 (it_rest itr).*1.

(** [DB.IsEmpty]: an iterator over the whole store has no item. *)
Definition LevelDB_IsEmpty (db : L) : res bool :=
  l ← ldb_NewIterator db [] []; Ok (bool_decide (l = [])).

(** [openDBAndCheckFormat] on an opened store. *)
Definition openDBAndCheckFormat (ExpectedFormat : bytes) (db : L) : res L :=
  dbEmpty ← LevelDB_IsEmpty db;
  if dbEmpty && negb (bool_decide (ExpectedFormat = [])) then
    DBHandle_Put internalDBName db formatVersionKey ExpectedFormat
  else
    formatVersion ← DBHandle_Get internalDBName db formatVersionKey;
    if decide (default [] formatVersion = ExpectedFormat) then Ok db
    else Err "unexpected format".

(** ** Provider *)

Record Provider := { p_db : L; p_dbHandles : gset bytes }.

Definition NewProvider (ExpectedFormat : bytes) (db : L) : res Provider :=
  db ← openDBAndCheckFormat ExpectedFormat db;
  Ok {| p_db := db; p_dbHandles := ∅ |}.
(** The handle is its name; the provider keeps the names handed out. *)
Definition Provider_GetDBHandle (p : Provider) (dbName : bytes) : Provider :=
  {| p_db := p_db p; p_dbHandles := {[dbName]} ∪ p_dbHandles p |}.
Definition Provider_Drop (p : Provider) (dbName : bytes) : res Provider :=
  let p := Provider_GetDBHandle p dbName in
  db ← DBHandle_deleteAll dbName (p_db p);
  Ok {| p_db := db; p_dbHandles := p_dbHandles p ∖ {[dbName]} |}.
Definition Provider_GetDataFormat (p : Provider) : res bytes :=
  f ← DBHandle_Get internalDBName (p_db p) formatVersionKey; Ok (default [] f).
Definition Provider_SetDataFormat (p : Provider) (format : bytes) : res Provider :=
  db ← DBHandle_Put internalDBName (p_db p) formatVersionKey format;
  Ok {| p_db := db; p_dbHandles := {[internalDBName]} ∪ p_dbHandles p |}.
End handle.
Arguments Provider : clear implicits.

(** The lookups after a sequence of store operations on distinct keys. *)
Definition op_key (o : ldb_op) : bytes := match o with LPut k _ | LDelete k => k end.
Definition op_val (o : ldb_op) : option bytes := match o with LPut _ v => Some v | LDelete _ => None end.
Lemma apply_ldb_ops_lookup m ops K (o : option (option bytes)) :
  (∀ op, op ∈ ops → op_key op = K → o = Some (op_val op)) →
  (is_Some o → ∃ op, op ∈ ops ∧ op_key op = K) →
  apply_ldb_ops m ops !! K = match o with Some v => v | None => m !! K end.
Proof.
  unfold apply_ldb_ops. induction ops as [|op ops IH] using rev_ind; intros Hin Hex.
  - destruct o; [|done]. destruct Hex as (op & []%not_elem_of_nil & _). eauto.
  - rewrite foldl_snoc. destruct (decide (op_key op = K)) as [Hk|Hk].
    + rewrite (Hin op) by set_solver. destruct op; simpl in *; subst;
        [apply lookup_insert_eq|apply lookup_delete_eq].
    + rewrite <-IH; [|set_solver|].
      * destruct op; simpl in *; [by apply lookup_insert_ne|by apply lookup_delete_ne].
      * intros (op' & Hop' & Hk')%Hex. exists op'. split; [|done]. set_solver.
Qed.

(** ** What a handle sees *)

(** The bindings of one named database. *)
Definition strip (dbName levelKey : bytes) : option bytes :=
  if decide (take (S (length dbName)) levelKey = dbName ++ [dbNameKeySep])
  then Some (drop (S (length dbName)) levelKey) else None.
Definition view (m : gmap bytes bytes) (dbName : bytes) : gmap bytes bytes :=
  list_to_map (omap (λ p, (λ k, (k, p.2)) <$> strip dbName p.1) (map_to_list m)).

Lemma strip_Some dbName l k : strip dbName l = Some k ↔ l = constructLevelKey dbName k.
Proof.
  unfold strip, constructLevelKey. rewrite app_assoc. split.
  - destruct (decide _) as [E|]; [|done]. intros [= <-]. rewrite <-E. by rewrite take_drop.
  - intros ->.
    assert (S (length dbName) = length (dbName ++ [dbNameKeySep])) as -> by (rewrite length_app; simpl; lia).
    by rewrite take_app_length, drop_app_length, decide_True.
Qed.

Lemma constructLevelKey_inj dbName k k' :
  constructLevelKey dbName k = constructLevelKey dbName k' → k = k'.
Proof. unfold constructLevelKey. by intros [= ->]%app_inv_head. Qed.

Lemma lookup_view m dbName k : view m dbName !! k = m !! constructLevelKey dbName k.
Proof.
  apply option_eq. intros v. unfold view. rewrite <-elem_of_list_to_map'.
  - rewrite list_elem_of_omap. split.
    + intros ([l v'] & Hin & Hs). apply elem_of_map_to_list in Hin.
      apply fmap_Some in Hs as (k' & Hs & [= <- <-]). cbn in Hs. by apply strip_Some in Hs as ->.
    + intros Hm. exists (constructLevelKey dbName k, v). rewrite elem_of_map_to_list. split; [done|]. cbn [fst snd].
      by rewrite (proj2 (strip_Some dbName (constructLevelKey dbName k) k) eq_refl).
  - intros v'. rewrite !list_elem_of_omap. intros ([l v1] & Hin & Hs) ([l' v2] & Hin' & Hs').
    apply elem_of_map_to_list in Hin, Hin'. apply fmap_Some in Hs as (? & Hs & [= <- <-]), Hs' as (? & Hs' & [= <- <-]).
    cbn in Hs, Hs'. apply strip_Some in Hs as ->, Hs' as ->. by simplify_eq.
Qed.

(** A range whose end is nil or a key, the empty one included. *)
Definition in_range_o (s : bytes) (e : option bytes) (k : bytes) : Prop :=
  bytes_le s k ∧ match e with None => True | Some e => bytes_lt k e end.
#[export] Instance in_range_o_dec s e k : Decision (in_range_o s e k).
Proof. unfold in_range_o. destruct e; apply _. Defined.
Definition range_o (m : gmap bytes bytes) (s : bytes) (e : option bytes) : list (bytes * bytes) :=
  filter (λ p, in_range_o s e p.1) (sorted_kvs m).

(** The store keys of a database are an interval, and stripping the name keeps
    their order. *)
Lemma level_range dbName s e x :
  in_range (constructLevelKey dbName s)
    (match e with None => <[length (constructLevelKey dbName []) - 1 := lastKeyIndicator]> (constructLevelKey dbName [])
                | Some e => constructLevelKey dbName e end) x ↔
  ∃ k, x = constructLevelKey dbName k ∧ bytes_le s k ∧ (match e with None => True | Some e => bytes_lt k e end).
Proof.
  assert (<[length (constructLevelKey dbName []) - 1 := lastKeyIndicator]> (constructLevelKey dbName []) =
    dbName ++ [lastKeyIndicator]) as Heq.
  { unfold constructLevelKey. rewrite app_nil_r, length_app. simpl.
    rewrite insert_app_r_alt by lia. by replace (length dbName + 1 - 1 - length dbName) with 0 by lia. }
  assert (∀ e, constructLevelKey dbName e ≠ []) as Hne by (intros ? ?; by destruct dbName).
  unfold in_range. split.
  - intros [Hle Hlt].
    assert (∃ y, x = dbName ++ y ∧ bytes_lt y (match e with None => [lastKeyIndicator] | Some e => dbNameKeySep :: e end))
      as (y & -> & Hy).
    { apply prefix_range_iff. split.
      - etrans; [|done]. unfold constructLevelKey. unfold bytes_le. rewrite <-(app_nil_r dbName) at 1.
        rewrite bytes_compare_app. apply bytes_nil_le.
      - destruct e as [e|]; [by destruct Hlt as [?%Hne|]|]. rewrite Heq in Hlt.
        destruct Hlt as [Hn|]; [by destruct dbName|done]. }
    unfold constructLevelKey, bytes_le in Hle. rewrite bytes_compare_app in Hle.
    destruct y as [|b y]; [done|]. cbn in Hle.
    assert (b = x00) as ->.
    { destruct e as [e|]; unfold bytes_lt in Hy; cbn in Hy; apply byteZ_inj; rewrite byteZ_x00;
        pose proof (byteZ_range b).
      - change (byteZ dbNameKeySep) with 0%Z in *.
        destruct (Z.compare_spec (byteZ b) 0) as [| |]; [done|lia|done].
      - change (byteZ lastKeyIndicator) with 1%Z in *.
        destruct (Z.compare_spec (byteZ b) 1) as [| |]; [by destruct y|lia|done]. }
    exists y. split_and!; [done| |].
    + exact Hle.
    + destruct e; [exact Hy|done].
  - intros (k & -> & Hs & He). unfold constructLevelKey, bytes_le, bytes_lt in *. split.
    + rewrite bytes_compare_app. exact Hs.
    + right. destruct e as [e|]; [rewrite bytes_compare_app; exact He|].
      by rewrite Heq, bytes_compare_app.
Qed.

Lemma retrieveAppKey_construct dbName k :
  x00 ∉ dbName → retrieveAppKey (constructLevelKey dbName k) = Ok k.
Proof. intros Hn. unfold retrieveAppKey, constructLevelKey. cbn [app]. by rewrite (SplitN_2 dbNameKeySep dbName k). Qed.

Lemma construct_lt dbName k k' :
  bytes_lt (constructLevelKey dbName k) (constructLevelKey dbName k') ↔ bytes_lt k k'.
Proof. unfold bytes_lt, constructLevelKey. rewrite bytes_compare_app. done. Qed.

(** Iteration of a handle: [Next] yields the bindings of the database in the
    range, in the order of the keys. *)
Inductive IterDrains : Iterator → list (bytes * bytes) → Prop :=
| IterDrains_nil itr itr' : Iterator_Next itr = Ok (None, itr') → IterDrains itr []
| IterDrains_cons itr itr' kv l :
    Iterator_Next itr = Ok (Some kv, itr') → IterDrains itr' l → IterDrains itr (kv :: l).

Lemma range_kvs_view (m : gmap bytes bytes) dbName s e :
  range_kvs m (constructLevelKey dbName s)
    (match e with None => <[length (constructLevelKey dbName []) - 1 := lastKeyIndicator]> (constructLevelKey dbName [])
                | Some e => constructLevelKey dbName e end) =
  (λ p, (constructLevelKey dbName p.1, p.2)) <$>
    range_o (view m dbName) s e.
Proof.
  apply ssorted_unique.
  - apply range_kvs_sorted.
  - assert (StronglySorted key_lt (range_o (view m dbName) s e)) as Hs by apply ssorted_filter, sorted_kvs_sorted.
    induction Hs as [|p l Hs IH Hall]; simpl; constructor; [done|].
    rewrite Forall_fmap. eapply Forall_impl; [done|]. intros q. unfold key_lt; simpl. by rewrite construct_lt.
  - intros [l v]. rewrite elem_of_range_kvs, level_range, list_elem_of_fmap. split.
    + intros (Hm & k & -> & Hs & He). exists (k, v). split; [done|].
      unfold range_o. by rewrite list_elem_of_filter, elem_of_sorted_kvs, lookup_view.
    + intros ([k v'] & [= -> ->] & Hf). apply list_elem_of_filter in Hf as [[Hs He] Hin].
      apply elem_of_sorted_kvs in Hin. rewrite lookup_view in Hin. split; [done|]. by exists k.
Qed.

Lemma iterator_drains dbName (l : list (bytes * bytes)) :
  x00 ∉ dbName →
  IterDrains {| it_dbName := dbName; it_rest := (λ p, (constructLevelKey dbName p.1, p.2)) <$> l |} l.
Proof.
  intros Hn. induction l as [|[k v] l IH]; [by eapply IterDrains_nil|].
  eapply IterDrains_cons; [|done]. unfold Iterator_Next. cbn [it_rest fmap list_fmap fst snd].
  rewrite retrieveAppKey_construct by done. by run.
Qed.

Section correct.
Context {L : Type} `{!GoLevelDB L} `{!GoLevelDBLaws L}.

Lemma GetIterator_spec dbName (db : L) s e :
  x00 ∉ dbName →
  ∃ itr, DBHandle_GetIterator dbName db s e = Ok itr ∧
    it_rest itr = (λ p, (constructLevelKey dbName p.1, p.2)) <$> range_o (view (contents db) dbName) (default [] s) e ∧
    IterDrains itr (range_o (view (contents db) dbName) (default [] s) e).
Proof.
  intros Hn. unfold DBHandle_GetIterator. rewrite ldb_NewIterator_law. run.
  pose proof (range_kvs_view (contents db) dbName (default [] s) e) as Hr.
  assert (match e with None => <[length (constructLevelKey dbName (default [] e)) - 1 := lastKeyIndicator]>
      (constructLevelKey dbName (default [] e)) | Some _ => constructLevelKey dbName (default [] e) end =
    match e with None => <[length (constructLevelKey dbName []) - 1 := lastKeyIndicator]> (constructLevelKey dbName [])
                | Some e => constructLevelKey dbName e end) as -> by (by destruct e).
  rewrite Hr. eexists; split_and!; [done..|]. by apply iterator_drains.
Qed.

(** The effect of a batch of one database on the contents of another. *)
Lemma lookup_apply_other dbName dbName' m ops k :
  x00 ∉ dbName → x00 ∉ dbName' → dbName ≠ dbName' →
  Forall (λ o, ∃ k, match o with LPut l _ | LDelete l => l end = constructLevelKey dbName k) ops →
  apply_ldb_ops m ops !! constructLevelKey dbName' k = m !! constructLevelKey dbName' k.
Proof.
  intros Hn Hn' Hne. assert (∀ k', constructLevelKey dbName k' ≠ constructLevelKey dbName' k) as Hd.
  { intros k' Heq. apply Hne. unfold constructLevelKey in Heq. cbn [app] in Heq. by apply sep_inj in Heq as [-> _]. }
  unfold apply_ldb_ops. intros Hops. revert m.
  induction Hops as [|o ops [k' Ho] Hops IH]; intros m; simpl; [done|]. rewrite IH.
  destruct o; simpl in *; subst; [by rewrite lookup_insert_ne by done|by rewrite lookup_delete_ne by done].
Qed.

Lemma deleteAll_loop_spec (db : L) batch n keys :
  ∃ db', deleteAll_loop db batch n keys = Ok db' ∧
    contents db' = apply_ldb_ops (contents db) (batch ++ (LDelete <$> keys)).
Proof.
  revert db batch n. induction keys as [|k keys IH]; intros db batch n; cbn [deleteAll_loop].
  - rewrite fmap_nil, app_nil_r. destruct (decide (batch = [])) as [->|]; [by exists db|].
    destruct (ldb_Write_law db batch) as (db' & ? & ?). by exists db'.
  - rewrite fmap_cons. assert (batch ++ LDelete k :: (LDelete <$> keys) = (batch ++ [LDelete k]) ++ (LDelete <$> keys)) as Heq
      by apply (app_assoc batch [LDelete k]).
    case_bool_decide.
    + destruct (ldb_Write_law db (batch ++ [LDelete k])) as (db' & -> & Hc). run.
      destruct (IH db' [] 0) as (db'' & ? & Hc''). exists db''. split; [done|].
      rewrite Hc'', Hc, Heq. symmetry. apply foldl_app.
    + rewrite Heq. apply IH.
Qed.

Lemma apply_deletes m keys k :
  apply_ldb_ops m (LDelete <$> keys) !! k = if decide (k ∈ keys) then None else m !! k.
Proof.
  unfold apply_ldb_ops. revert m. induction keys as [|k' keys IH]; intros m; simpl; [done|].
  rewrite IH. destruct (decide (k ∈ keys)), (decide (k ∈ k' :: keys)); try set_solver; [|].
  - assert (k = k') as -> by set_solver. apply lookup_delete_eq.
  - apply lookup_delete_ne. set_solver.
Qed.

Lemma view_ext m m' dbName :
  (∀ k, m !! constructLevelKey dbName k = m' !! constructLevelKey dbName k) → view m dbName = view m' dbName.
Proof. intros Heq. apply map_eq. intros k. by rewrite !lookup_view. Qed.

(** ** Properties *)

(** C33: databases that share one store do not interfere. What is written
    through one handle is read back through it, a range scan of a handle
    returns exactly its own bindings of the range in key order, and dropping a
    database empties it; none of this changes what another handle sees. *)
Theorem leveldb_handles_isolated (dbName other : bytes) (db : L)
    (Hn : x00 ∉ dbName) (Ho : x00 ∉ other) (Hne : dbName ≠ other) :
  (∀ key value, ∃ db', DBHandle_Put dbName db key value = Ok db' ∧
     DBHandle_Get dbName db' key = Ok (Some value) ∧
     view (contents db') dbName = <[key := value]> (view (contents db) dbName) ∧
     view (contents db') other = view (contents db) other) ∧
  (∀ s e, ∃ itr, DBHandle_GetIterator dbName db s e = Ok itr ∧
     IterDrains itr (range_o (view (contents db) dbName) (default [] s) e)) ∧
  (∃ db', DBHandle_deleteAll dbName db = Ok db' ∧
     view (contents db') dbName = ∅ ∧ view (contents db') other = view (contents db) other).
Proof.
  split_and!.
  - intros key value. unfold DBHandle_Put.
    destruct (ldb_Write_law db [LPut (constructLevelKey dbName key) value]) as (db' & Hw & Hc).
    exists db'. split_and!; [done| | |].
    + unfold DBHandle_Get. rewrite ldb_Get_law, Hc. simpl. by rewrite lookup_insert_eq.
    + rewrite Hc. apply map_eq. intros k. rewrite lookup_view. simpl.
      destruct (decide (k = key)) as [->|Hk]; [by rewrite !lookup_insert_eq|].
      rewrite !lookup_insert_ne, lookup_view by (done || by intros ?%constructLevelKey_inj). done.
    + rewrite Hc. apply view_ext. intros k. apply (lookup_apply_other dbName); [done..|].
      constructor; [by eexists|done].
  - intros s e. destruct (GetIterator_spec dbName db s e Hn) as (itr & ? & _ & ?). by exists itr.
  - unfold DBHandle_deleteAll. destruct (GetIterator_spec dbName db None None Hn) as (itr & -> & Hrest & _). run.
    destruct (deleteAll_loop_spec db [] 0 (it_rest itr).*1) as (db' & -> & Hc). exists db'.
    rewrite Hrest in Hc. split_and!; [done| |].
    + rewrite Hc. apply map_empty. intros k. rewrite lookup_view. cbn [app]. rewrite apply_deletes.
      destruct (decide _) as [|Hni]; [done|]. apply eq_None_not_Some. intros [v Hv]. destruct Hni.
      rewrite <-lookup_view in Hv. rewrite <-list_fmap_compose, list_elem_of_fmap. exists (k, v). split; [done|].
      unfold range_o. rewrite list_elem_of_filter, elem_of_sorted_kvs. split; [|done].
      split; [apply bytes_nil_le|done].
    + rewrite Hc. apply view_ext. intros k. apply (lookup_apply_other dbName); [done..|]. cbn [app].
      rewrite Forall_fmap, !Forall_fmap. apply Forall_forall. intros p _. by eexists.
Qed.
End correct.

Lemma leveldb_handles_isolated_witness :
  let db : gmap bytes bytes := <[constructLevelKey (B "ch1") (B "k") := B "v"]>
                              (<[constructLevelKey (B "ch10") (B "k") := B "w"]> ∅) in
  ∃ db', DBHandle_deleteAll (B "ch1") db = Ok db' ∧
    view (contents db') (B "ch1") = ∅ ∧ view (contents db') (B "ch10") = view (contents db) (B "ch10").
Proof.
  intros db. apply (leveldb_handles_isolated (B "ch1") (B "ch10") db);
    [vm_compute; set_solver..|done].
Defined.
