(* ===== verification/StateLevelDB.v ===== *)
(** * The LevelDB state database

  Models core/ledger/kvledger/txmgmt/statedb/stateleveldb (stateleveldb.go
  and value_encoding.go): the versioned state of a channel stored in a named
  LevelDB database, under composite keys of namespace and key, with the
  height of the last block in a savepoint.

  The main result is that this implementation meets the interface of StateDB:
  its reads answer from an abstract state ([VersionedDBLaws]) and
  [ApplyUpdates] moves that state as the batch says. The orderer's variant of
  the store, which keeps only versions, is here as well. The full-database
  scanner that feeds snapshots is not modelled. *)

From S2P Require Import Prelude SortedMap Encoding Version Separated StateDB Proto LevelDB.
From stdpp Require Import options.
Local Open Scope nat_scope.
Set Default Proof Using "Type*".

(** ** Messages of the store *)

Record DBValue := { dbv_Version : bytes; dbv_Value : option bytes; dbv_Metadata : option bytes }.
Record DBMVCC := { dbm_Version : bytes; dbm_IsDelete : bool }.
Record VersionMVCC := { vm_Version : option Height; Is_Delete : bool }.

(** The wire drops an empty bytes field. *)
Definition norm_bytes (b : option bytes) : option bytes :=
  match b with Some [] => None | _ => b end.
Definition DBValue_norm (v : DBValue) : DBValue :=
  {| dbv_Version := dbv_Version v; dbv_Value := norm_bytes (dbv_Value v);
     dbv_Metadata := norm_bytes (dbv_Metadata v) |}.

Definition dataKeyPrefix : bytes := B "d".
Definition dataKeyStopper : bytes := B "e".
Definition nsKeySep : byte := x00.
Definition savePointKey : bytes := B "s".

Definition StateLevelDB_encodeDataKey (ns key : bytes) : bytes :=
  dataKeyPrefix ++ ns ++ [nsKeySep] ++ key.
(** [split[0][1:]] and [split[1]] of [SplitN(k, nsKeySep, 2)]. *)
Definition StateLevelDB_decodeDataKey (encodedDataKey : bytes) : res (bytes * bytes) :=
  let split := SplitN nsKeySep 2 encodedDataKey in
  s0 ← index split 0;
  ns ← slice_from s0 1;
  key ← index split 1;
  Ok (ns, key).

Record versionedDB (L : Type) := { vdb_db : L; vdb_dbName : bytes }.
Arguments vdb_db {L} v.
Arguments vdb_dbName {L} v.

Record kvScanner := {
  ks_namespace : bytes;
  ks_dbItr : Iterator;
  requestedLimit : Z;
  totalRecordsReturned : Z
}.

Section store.
Context {L : Type} `{!GoLevelDB L} `{!ProtoMessage DBValue} `{!ProtoMessage DBMVCC}.
Notation versionedDB := (versionedDB L).

(** ** Values *)

(** A nil version is dereferenced by [ToBytes]. *)
Definition encodeValue (v : VersionedValue) : res bytes :=
  ver ← deref (vv_Version v);
  Marshal {| dbv_Version := Height_ToBytes ver; dbv_Value := Value v; dbv_Metadata := Metadata v |}.
Definition decodeValue (encodedValue : bytes) : res VersionedValue :=
  dbValue ← Unmarshal (A := DBValue) encodedValue;
  '(ver, _) ← NewHeightFromBytes (dbv_Version dbValue);
  let val := match dbv_Value dbValue with None => Some [] | v => v end in
  Ok {| Value := val; Metadata := dbv_Metadata dbValue; vv_Version := Some ver |}.

Definition encodeValueMVCC (v : VersionMVCC) : res bytes :=
  ver ← deref (vm_Version v);
  Marshal {| dbm_Version := Height_ToBytes ver; dbm_IsDelete := Is_Delete v |}.
Definition decodeValueMVCC (encodedValue : bytes) : res VersionMVCC :=
  dbValue ← Unmarshal (A := DBMVCC) encodedValue;
  '(ver, _) ← NewHeightFromBytes (dbm_Version dbValue);
  Ok {| vm_Version := Some ver; Is_Delete := dbm_IsDelete dbValue |}.

(** ** Reads *)

Definition versionedDB_GetState (vdb : versionedDB) (namespace key : bytes) : res (option VersionedValue) :=
  dbVal ← DBHandle_Get (vdb_dbName vdb) (vdb_db vdb) (StateLevelDB_encodeDataKey namespace key);
  match dbVal with
  | None => Ok None
  | Some dbVal => vv ← decodeValue dbVal; Ok (Some vv)
  end.
Definition versionedDB_GetVersion (vdb : versionedDB) (namespace key : bytes) : res (option Height) :=
  versionedValue ← versionedDB_GetState vdb namespace key;
  match versionedValue with
  | None => Ok None
  | Some vv => Ok (vv_Version vv)
  end.
Definition versionedDB_GetStateMultipleKeys (vdb : versionedDB) (namespace : bytes) (keys : list bytes) :
    res (list (option VersionedValue)) :=
  mapM (versionedDB_GetState vdb namespace) keys.

(** An empty end key: the last byte of the encoded key, the separator, is
    replaced. *)
Definition versionedDB_GetStateRangeScanIteratorWithPagination (vdb : versionedDB)
    (namespace startKey endKey : bytes) (pageSize : Z) : res kvScanner :=
  let dataStartKey := StateLevelDB_encodeDataKey namespace startKey in
  let dataEndKey := StateLevelDB_encodeDataKey namespace endKey in
  let dataEndKey := if decide (endKey = [])
    then <[length dataEndKey - 1 := lastKeyIndicator]> dataEndKey else dataEndKey in
  dbItr ← DBHandle_GetIterator (vdb_dbName vdb) (vdb_db vdb) (Some dataStartKey) (Some dataEndKey);
  Ok {| ks_namespace := namespace; ks_dbItr := dbItr; requestedLimit := pageSize; totalRecordsReturned := 0 |}.
Definition versionedDB_GetStateRangeScanIterator (vdb : versionedDB) (namespace startKey endKey : bytes) : res kvScanner :=
  versionedDB_GetStateRangeScanIteratorWithPagination vdb namespace startKey endKey 0.

#[export] Instance kvScanner_Next : ResultsIterator kvScanner := λ scanner,
  if ((0 <? requestedLimit scanner) && (requestedLimit scanner <=? totalRecordsReturned scanner))%Z
  then Ok (None, scanner)
  else
    '(item, dbItr) ← Iterator_Next (ks_dbItr scanner);
    match item with
    | None => Ok (None, {| ks_namespace := ks_namespace scanner; ks_dbItr := dbItr;
                           requestedLimit := requestedLimit scanner;
                           totalRecordsReturned := totalRecordsReturned scanner |})
    | Some (dbKey, dbVal) =>
        '(_, key) ← StateLevelDB_decodeDataKey dbKey;
        vv ← decodeValue dbVal;
        Ok (Some {| kv_key := {| Namespace := ks_namespace scanner; Key := key |}; kv_val := vv |},
            {| ks_namespace := ks_namespace scanner; ks_dbItr := dbItr;
               requestedLimit := requestedLimit scanner;
               totalRecordsReturned := (totalRecordsReturned scanner + 1)%Z |})
    end.

(** The key of the next result, or the empty string. *)
Definition kvScanner_GetBookmarkAndClose (scanner : kvScanner) : res bytes :=
  '(item, _) ← Iterator_Next (ks_dbItr scanner);
  match item with
  | None => Ok []
  | Some (dbKey, _) => '(_, key) ← StateLevelDB_decodeDataKey dbKey; Ok key
  end.

(** ** Writes *)

(** One key of a batch. *)
Definition put_update (dbBatch : LevelBatch) (u : bytes * bytes * VersionedValue) : res LevelBatch :=
  let '(ns, k, vv) := u in
  let dataKey := StateLevelDB_encodeDataKey ns k in
  match Value vv with
  | None => Ok (LevelBatch_Delete dbBatch dataKey)
  | Some _ => encodedVal ← encodeValue vv; LevelBatch_Put dbBatch dataKey (Some encodedVal)
  end.
Definition versionedDB_ApplyUpdates (vdb : versionedDB) (batch : UpdateBatch) (height : option Height) : res versionedDB :=
  dbBatch ← foldM (λ dbBatch ns,
      foldM (λ dbBatch '(k, vv), put_update dbBatch (ns, k, vv)) dbBatch
        (map_to_list (UpdateBatch_GetUpdates batch ns)))
    (DBHandle_NewUpdateBatch (vdb_dbName vdb)) (UpdateBatch_GetUpdatedNamespaces batch);
  dbBatch ← match height with
    | None => Ok dbBatch
    | Some h => LevelBatch_Put dbBatch savePointKey (Some (Height_ToBytes h))
    end;
  db ← DBHandle_WriteBatch (vdb_db vdb) dbBatch;
  Ok {| vdb_db := db; vdb_dbName := vdb_dbName vdb |}.

Definition versionedDB_GetLatestSavePoint (vdb : versionedDB) : res (option Height) :=
  versionBytes ← DBHandle_Get (vdb_dbName vdb) (vdb_db vdb) savePointKey;
  match versionBytes with
  | None => Ok None
  | Some b => '(version, _) ← NewHeightFromBytes b; Ok (Some version)
  end.

#[export] Instance versionedDB_VersionedDB : VersionedDB versionedDB kvScanner := {
  GetState := versionedDB_GetState;
  GetVersion := versionedDB_GetVersion;
  GetStateRangeScanIterator := versionedDB_GetStateRangeScanIterator;
  ValidateKeyValue _ _ _ := Ok ();
  BytesKeySupported _ := true;
  LoadCommittedVersions := None;
  ApplyUpdates := versionedDB_ApplyUpdates
}.

(** ** The orderer's version store *)

Definition versionedDB_GetMVCCState (vdb : versionedDB) (namespace key : bytes) : res (option VersionMVCC) :=
  dbVal ← DBHandle_Get (vdb_dbName vdb) (vdb_db vdb) (StateLevelDB_encodeDataKey namespace key);
  match dbVal with
  | None => Ok None
  | Some dbVal => v ← decodeValueMVCC dbVal; Ok (Some v)
  end.
(** A missing key is an error. *)
Definition versionedDB_GetKeyVersion (vdb : versionedDB) (namespace key : bytes) : res (option Height) :=
  versionedValue ← versionedDB_GetMVCCState vdb namespace key;
  match versionedValue with
  | None => Err "key not found in db"
  | Some v => Ok (vm_Version v)
  end.
(** The keys of the map are encoded keys already. *)
Definition versionedDB_ApplyOrdererUpdates (vdb : versionedDB) (updates : gmap bytes VersionMVCC) : res versionedDB :=
  dbBatch ← foldM (λ dbBatch '(k, vv),
      if Is_Delete vv then Ok (LevelBatch_Delete dbBatch k)
      else encodedVal ← encodeValueMVCC vv; LevelBatch_Put dbBatch k (Some encodedVal))
    (DBHandle_NewUpdateBatch (vdb_dbName vdb)) (map_to_list updates);
  db ← DBHandle_WriteBatch (vdb_db vdb) dbBatch;
  Ok {| vdb_db := db; vdb_dbName := vdb_dbName vdb |}.
End store.

(** ** Refinement of the abstract state *)

Lemma range_o_Some m s e : e ≠ [] → range_o m s (Some e) = range_kvs m s e.
Proof.
  intros He. unfold range_o, range_kvs. apply list_filter_iff. intros [k v]; simpl.
  unfold in_range_o, in_range. naive_solver.
Qed.
Lemma range_o_end m s e : range_o m s (if decide (e = []) then None else Some e) = range_kvs m s e.
Proof.
  unfold range_o, range_kvs. apply list_filter_iff. intros [k v]; simpl.
  unfold in_range_o, in_range. destruct (decide (e = [])); naive_solver.
Qed.

Lemma encodeDataKey_construct ns key :
  StateLevelDB_encodeDataKey ns key = constructLevelKey (dataKeyPrefix ++ ns) key.
Proof. unfold StateLevelDB_encodeDataKey, constructLevelKey. by rewrite <-app_assoc. Qed.

Lemma encodeDataKey_inj ns ns' key key' :
  x00 ∉ ns → x00 ∉ ns' →
  StateLevelDB_encodeDataKey ns key = StateLevelDB_encodeDataKey ns' key' → ns = ns' ∧ key = key'.
Proof.
  unfold StateLevelDB_encodeDataKey. cbn [app]. intros ? ? [= Heq]. by apply sep_inj in Heq.
Qed.

Lemma decodeDataKey_encode ns key :
  x00 ∉ ns → StateLevelDB_decodeDataKey (StateLevelDB_encodeDataKey ns key) = Ok (ns, key).
Proof.
  intros Hn. unfold StateLevelDB_decodeDataKey, StateLevelDB_encodeDataKey.
  change (dataKeyPrefix ++ ns ++ [nsKeySep] ++ key) with ((x64 :: ns) ++ nsKeySep :: key).
  rewrite (SplitN_2 nsKeySep (x64 :: ns) key) by (unfold nsKeySep; set_solver).
  run. rewrite slice_from_cons. by run.
Qed.

(** Any data key splits at its first zero byte. *)
Lemma encodeDataKey_canonical ns key : ∃ ns' key',
  x00 ∉ ns' ∧ StateLevelDB_encodeDataKey ns key = StateLevelDB_encodeDataKey ns' key'.
Proof.
  unfold StateLevelDB_encodeDataKey, nsKeySep. induction ns as [|b ns (ns' & key' & Hn & IH)]; [exists [], key; set_solver|].
  simpl in IH. injection IH as IH. destruct (decide (b = x00)) as [->|Hb].
  - exists [], (ns ++ x00 :: key). split; [set_solver|done].
  - exists (b :: ns'), key'. split; [set_solver|]. simpl. by rewrite IH.
Qed.

Section refinement.
Context {L : Type} `{!GoLevelDB L} `{!GoLevelDBLaws L} `{!ProtoMessage DBValue}.
Context `{!ProtoNormalizes DBValue DBValue_norm}.
Implicit Types (vdb : versionedDB L) (v : gmap bytes bytes).

Definition decode_opt (b : bytes) : option VersionedValue :=
  match decodeValue b with Ok vv => Some vv | _ => None end.
Definition store vdb : gmap bytes bytes := view (contents (vdb_db vdb)) (vdb_dbName vdb).
Definition state_of v : state := λ ns, omap decode_opt (view v (dataKeyPrefix ++ ns)).
(** Every data key holds a value that decodes. *)
Definition store_wf v : Prop :=
  ∀ ns key b, v !! StateLevelDB_encodeDataKey ns key = Some b → ∃ vv, decodeValue b = Ok vv.

Lemma lookup_state_of v ns key :
  state_of v ns !! key = v !! StateLevelDB_encodeDataKey ns key ≫= decode_opt.
Proof. unfold state_of. by rewrite lookup_omap, lookup_view, encodeDataKey_construct. Qed.

Lemma lookup_store vdb key :
  DBHandle_Get (vdb_dbName vdb) (vdb_db vdb) key = Ok (store vdb !! key).
Proof. unfold DBHandle_Get, store. by rewrite ldb_Get_law, lookup_view. Qed.

Lemma GetState_spec vdb ns key :
  store_wf (store vdb) → versionedDB_GetState vdb ns key = Ok (state_of (store vdb) ns !! key).
Proof.
  intros Hwf. unfold versionedDB_GetState. rewrite lookup_store, lookup_state_of. run.
  destruct (store vdb !! _) as [b|] eqn:E; [|done]. destruct (Hwf _ _ _ E) as [vv Hvv].
  simpl. unfold decode_opt. by rewrite Hvv.
Qed.

Lemma decodeValue_not_delete b vv : decodeValue b = Ok vv → IsDelete vv = false.
Proof.
  unfold decodeValue. intros. inv_ok. case_match. inv_ok. unfold IsDelete; simpl.
  apply bool_decide_eq_false_2. by case_match.
Qed.

Lemma kvScanner_drains ns itr l l' n :
  x00 ∉ ns → IterDrains itr ((λ p, (StateLevelDB_encodeDataKey ns p.1, p.2)) <$> l) →
  Forall2 (λ p q, p.1 = q.1 ∧ decodeValue p.2 = Ok q.2) l l' →
  Drains {| ks_namespace := ns; ks_dbItr := itr; requestedLimit := 0; totalRecordsReturned := n |} (to_kv ns <$> l').
Proof.
  intros Hn Hd Hl. revert itr n Hd.
  induction Hl as [|[k b] [k' vv] l l' [Hk Hb] Hl IH]; intros itr n Hd; inversion Hd; simplify_eq/=.
  - eapply Drains_nil. unfold Next, kvScanner_Next. simpl.
    rename select (Iterator_Next _ = _) into Hnx. by rewrite Hnx.
  - eapply Drains_cons; [|by apply IH]. unfold Next, kvScanner_Next. cbn [requestedLimit ks_dbItr].
    rename select (Iterator_Next _ = _) into Hnx. rewrite Hnx. run.
    rewrite decodeDataKey_encode by done. run. rewrite Hb. by run.
Qed.

Lemma state_of_range v ns s e :
  store_wf v → Forall2 (λ p q, p.1 = q.1 ∧ decodeValue p.2 = Ok q.2)
    (range_kvs (view v (dataKeyPrefix ++ ns)) s e) (range_kvs (state_of v ns) s e).
Proof.
  intros Hwf. unfold state_of. rewrite range_kvs_omap.
  assert (∀ p, p ∈ range_kvs (view v (dataKeyPrefix ++ ns)) s e → ∃ vv, decodeValue p.2 = Ok vv) as Hall.
  { intros [k b] [Hb _]%elem_of_range_kvs. rewrite lookup_view, <-encodeDataKey_construct in Hb. eauto. }
  induction (range_kvs _ s e) as [|p l IH]; simpl; [constructor|].
  destruct (Hall p) as [vv Hvv]; [set_solver|]. unfold decode_opt at 1. rewrite Hvv. simpl.
  constructor; [done|]. apply IH. set_solver.
Qed.

(** The state database answers from the abstract state of its store. *)
Lemma stateleveldb_laws vdb :
  x00 ∉ vdb_dbName vdb → store_wf (store vdb) → VersionedDBLaws vdb (state_of (store vdb)).
Proof.
  intros Hn Hwf. split.
  - intros ns key. by apply GetState_spec.
  - intros ns key. simpl. unfold versionedDB_GetVersion. rewrite GetState_spec by done. run.
    by destruct (state_of _ ns !! key).
  - intros ns s e Hns. simpl. unfold versionedDB_GetStateRangeScanIterator,
      versionedDB_GetStateRangeScanIteratorWithPagination.
    rewrite !encodeDataKey_construct. set (P := dataKeyPrefix ++ ns).
    set (eKey := if decide (e = []) then _ else _).
    assert (eKey ≠ []) as Hne.
    { subst eKey P. destruct (decide (e = [])) as [->|]; [|done]. intros E%(f_equal length).
      rewrite length_insert in E. done. }
    destruct (GetIterator_spec (vdb_dbName vdb) (vdb_db vdb) (Some (constructLevelKey P s)) (Some eKey) Hn)
      as (itr & -> & _ & Hd). run. eexists; split; [done|].
    simpl in Hd. rewrite range_o_Some in Hd by done. fold (store vdb) in Hd.
    pose proof (range_kvs_view (store vdb) P s (if decide (e = []) then None else Some e)) as Hr.
    assert (eKey = match (if decide (e = []) then None else Some e) with
      | None => <[length (constructLevelKey P []) - 1 := lastKeyIndicator]> (constructLevelKey P [])
      | Some e => constructLevelKey P e end) as -> by (subst eKey; by destruct (decide (e = [])) as [->|]).
    rewrite Hr, range_o_end in Hd. eapply kvScanner_drains; [done| |by apply state_of_range].
    erewrite list_fmap_ext; [done|]. intros i x _. cbv beta. by rewrite encodeDataKey_construct.
  - intros ns key vv. rewrite lookup_state_of. intros (b & _ & Hb)%bind_Some. unfold decode_opt in Hb.
    case_match; simplify_eq. by eapply decodeValue_not_delete.
Qed.

(** ** Applying a batch *)

(** The value as it comes back from the store. *)
Definition norm_vv (vv : VersionedValue) : VersionedValue :=
  {| Value := Value vv; Metadata := norm_bytes (Metadata vv); vv_Version := vv_Version vv |}.
(** Namespaces have no zero byte, and every value has a version. *)
Definition batch_wf (batch : UpdateBatch) : Prop :=
  ∀ ns key vv, UpdateBatch_Get batch ns key = Some vv →
    x00 ∉ ns ∧ ∃ h, vv_Version vv = Some h ∧ Height_wf h.

Lemma encode_decode_value vv h :
  vv_Version vv = Some h → Height_wf h → IsDelete vv = false →
  ∃ b, encodeValue vv = Ok b ∧ decodeValue b = Ok (norm_vv vv).
Proof.
  intros Hv Hh Hd. unfold encodeValue. rewrite Hv. unfold deref. run.
  destruct (Marshal_total {| dbv_Version := Height_ToBytes h; dbv_Value := Value vv; dbv_Metadata := Metadata vv |})
    as [b Hb]. exists b. split; [done|]. unfold decodeValue. rewrite (Unmarshal_Marshal_norm _ _ Hb). run. simpl.
  rewrite <-(app_nil_r (Height_ToBytes h)), NewHeightFromBytes_ToBytes by done. run. unfold norm_vv. rewrite Hv.
  unfold IsDelete in Hd. apply bool_decide_eq_false in Hd. by destruct (Value vv) as [[]|].
Qed.

Definition op_of (dbName : bytes) (u : bytes * bytes * VersionedValue) : ldb_op :=
  let K := constructLevelKey dbName (StateLevelDB_encodeDataKey u.1.1 u.1.2) in
  match Value u.2 with
  | None => LDelete K
  | Some _ => LPut K (match encodeValue u.2 with Ok b => b | _ => [] end)
  end.

Lemma foldM_put_update (l : list (bytes * bytes * VersionedValue)) b :
  (∀ u, u ∈ l → IsDelete u.2 = false → ∃ e, encodeValue u.2 = Ok e) →
  ∃ b', foldM put_update b l = Ok b' ∧ lb_dbName b' = lb_dbName b ∧
    lb_ops b' = lb_ops b ++ (op_of (lb_dbName b) <$> l).
Proof.
  revert b. induction l as [|[[ns k] vv] l IH]; intros b Henc; [exists b; by rewrite app_nil_r|].
  assert (∃ b1, put_update b (ns, k, vv) = Ok b1 ∧ lb_dbName b1 = lb_dbName b ∧
    lb_ops b1 = lb_ops b ++ [op_of (lb_dbName b) (ns, k, vv)]) as (b1 & Hb1 & Hn1 & Ho1).
  { simpl. unfold op_of; simpl. destruct (Value vv) as [val|] eqn:Hval; [|by eexists].
    destruct (Henc (ns, k, vv)) as [e He]; [set_solver|unfold IsDelete; simpl; by rewrite Hval|].
    simpl in He. rewrite He. run. by eexists. }
  cbn [foldM]. rewrite Hb1. run. destruct (IH b1) as (b' & Hf & Hn & Ho); [set_solver|].
  exists b'. split_and!; [done|congruence|]. rewrite Ho, Ho1, Hn1, <-app_assoc. done.
Qed.

Lemma ApplyUpdates_loop (batch : UpdateBatch) b :
  foldM (λ dbBatch ns,
      foldM (λ dbBatch '(k, vv), put_update dbBatch (ns, k, vv)) dbBatch
        (map_to_list (UpdateBatch_GetUpdates batch ns))) b (UpdateBatch_GetUpdatedNamespaces batch) =
  foldM put_update b (batch_list batch).
Proof.
  unfold UpdateBatch_GetUpdatedNamespaces, batch_list. rewrite foldM_fmap, <-foldM_bind.
  apply foldM_ext. intros b' [ns u] Hin%elem_of_map_to_list. rewrite foldM_fmap. cbn [fst snd].
  unfold UpdateBatch_GetUpdates. rewrite Hin. apply foldM_ext. by intros ? [].
Qed.

Lemma construct_data_ne_savepoint dbName ns key :
  constructLevelKey dbName (StateLevelDB_encodeDataKey ns key) ≠ constructLevelKey dbName savePointKey.
Proof. intros Heq%constructLevelKey_inj. done. Qed.

Lemma ApplyUpdates_contents vdb batch height :
  batch_wf batch → ∃ vdb', versionedDB_ApplyUpdates vdb batch height = Ok vdb' ∧
    vdb_dbName vdb' = vdb_dbName vdb ∧
    contents (vdb_db vdb') = apply_ldb_ops (contents (vdb_db vdb))
      ((op_of (vdb_dbName vdb) <$> batch_list batch) ++
       match height with None => [] | Some h => [LPut (constructLevelKey (vdb_dbName vdb) savePointKey) (Height_ToBytes h)] end).
Proof.
  intros Hwf. unfold versionedDB_ApplyUpdates. rewrite ApplyUpdates_loop.
  destruct (foldM_put_update (batch_list batch) (DBHandle_NewUpdateBatch (vdb_dbName vdb))) as (b & -> & Hn & Ho).
  { intros [[ns k] vv] Hin Hd. apply elem_of_batch_list in Hin. destruct (Hwf _ _ _ Hin) as (_ & h & Hv & Hh).
    destruct (encode_decode_value vv h Hv Hh Hd) as (e & ? & _). by exists e. }
  run. simpl in Hn, Ho.
  set (b2 := match height with None => Ok b | Some _ => _ end).
  assert (∃ b2', b2 = Ok b2' ∧ lb_ops b2' = (op_of (vdb_dbName vdb) <$> batch_list batch) ++
     match height with None => [] | Some h => [LPut (constructLevelKey (vdb_dbName vdb) savePointKey) (Height_ToBytes h)] end)
    as (b2' & -> & Hb2).
  { subst b2. destruct height as [h|]; simpl; eexists; split; [done| |done|]; simpl; rewrite Ho, ?Hn, ?app_nil_r; done. }
  run. unfold DBHandle_WriteBatch. rewrite Hb2. destruct (decide _) as [E|E].
  - run. eexists; split_and!; [done..|]. simpl. by rewrite E.
  - match goal with |- context [ldb_Write ?d ?o] => destruct (ldb_Write_law d o) as (db' & -> & Hc) end.
    run. by eexists.
Qed.

Lemma ApplyUpdates_store vdb vdb' batch height ns key :
  batch_wf batch → x00 ∉ ns → vdb_dbName vdb' = vdb_dbName vdb →
  contents (vdb_db vdb') = apply_ldb_ops (contents (vdb_db vdb))
      ((op_of (vdb_dbName vdb) <$> batch_list batch) ++
       match height with None => [] | Some h => [LPut (constructLevelKey (vdb_dbName vdb) savePointKey) (Height_ToBytes h)] end) →
  store vdb' !! StateLevelDB_encodeDataKey ns key =
  match UpdateBatch_Get batch ns key with
  | None => store vdb !! StateLevelDB_encodeDataKey ns key
  | Some vv => op_val (op_of (vdb_dbName vdb) (ns, key, vv))
  end.
Proof.
  intros Hwf Hns Hn Hc. unfold store. rewrite Hn, !lookup_view, Hc.
  rewrite (apply_ldb_ops_lookup _ _ _ ((λ vv, op_val (op_of (vdb_dbName vdb) (ns, key, vv))) <$> UpdateBatch_Get batch ns key)).
  - by destruct (UpdateBatch_Get batch ns key).
  - intros op [Hop|Hop]%elem_of_app Hk.
    + apply list_elem_of_fmap in Hop as ([[ns' k'] vv] & -> & Hin). apply elem_of_batch_list in Hin.
      destruct (Hwf _ _ _ Hin) as [Hns' _].
      assert (ns' = ns ∧ k' = key) as [-> ->]; [|by rewrite Hin].
      unfold op_of in Hk; simpl in Hk. destruct (Value vv); simpl in Hk;
        by apply constructLevelKey_inj, encodeDataKey_inj in Hk.
    + destruct height; [|set_solver]. assert (op = LPut (constructLevelKey (vdb_dbName vdb) savePointKey) (Height_ToBytes h)) as -> by set_solver.
      simpl in Hk. symmetry in Hk. by apply construct_data_ne_savepoint in Hk.
  - intros [? [vv [Hvv _]]%fmap_Some]. exists (op_of (vdb_dbName vdb) (ns, key, vv)). split.
    + apply elem_of_app. left. apply list_elem_of_fmap. eexists; split; [done|]. by apply elem_of_batch_list.
    + unfold op_of; simpl. by destruct (Value vv).
Qed.

Lemma ApplyUpdates_state vdb vdb' batch height ns :
  batch_wf batch → x00 ∉ ns → vdb_dbName vdb' = vdb_dbName vdb →
  contents (vdb_db vdb') = apply_ldb_ops (contents (vdb_db vdb))
      ((op_of (vdb_dbName vdb) <$> batch_list batch) ++
       match height with None => [] | Some h => [LPut (constructLevelKey (vdb_dbName vdb) savePointKey) (Height_ToBytes h)] end) →
  state_of (store vdb') ns = overlay (state_of (store vdb) ns) (norm_vv <$> UpdateBatch_GetUpdates batch ns).
Proof.
  intros Hwf Hns Hn Hc. apply map_eq. intros key.
  rewrite lookup_overlay, lookup_fmap, lookup_GetUpdates, !lookup_state_of.
  rewrite (ApplyUpdates_store vdb vdb' batch height) by done.
  destruct (UpdateBatch_Get batch ns key) as [vv|] eqn:Hg; [|done]. simpl.
  destruct (Hwf _ _ _ Hg) as (_ & h & Hv & Hh). unfold op_of; simpl.
  destruct (IsDelete vv) eqn:Hd.
  - unfold IsDelete in *; simpl. apply bool_decide_eq_true in Hd. by rewrite Hd.
  - destruct (encode_decode_value vv h Hv Hh Hd) as (e & He & Hdec).
    unfold IsDelete in *; simpl. rewrite Hd. apply bool_decide_eq_false in Hd.
    destruct (Value vv); [|done]. simpl. rewrite He. unfold decode_opt. by rewrite Hdec.
Qed.

Lemma ApplyUpdates_wf vdb vdb' batch height :
  store_wf (store vdb) → batch_wf batch → vdb_dbName vdb' = vdb_dbName vdb →
  contents (vdb_db vdb') = apply_ldb_ops (contents (vdb_db vdb))
      ((op_of (vdb_dbName vdb) <$> batch_list batch) ++
       match height with None => [] | Some h => [LPut (constructLevelKey (vdb_dbName vdb) savePointKey) (Height_ToBytes h)] end) →
  store_wf (store vdb').
Proof.
  intros Hwf Hb Hn' Hc ns key b Hk. destruct (encodeDataKey_canonical ns key) as (ns' & key' & Hns & Heq). rewrite Heq in Hk.
  rewrite (ApplyUpdates_store vdb vdb' batch height) in Hk by done.
  destruct (UpdateBatch_Get batch ns' key') as [vv|] eqn:Hg; [|by eapply Hwf].
  destruct (Hb _ _ _ Hg) as (_ & h & Hv & Hhw). unfold op_of in Hk; simpl in Hk.
  destruct (Value vv) eqn:Hval; [|done]. simpl in Hk. simplify_eq.
  destruct (encode_decode_value vv h Hv Hhw) as (e & He & Hdec); [unfold IsDelete; by rewrite Hval|].
  rewrite He. eauto.
Qed.

Lemma norm_vv_id vv : Metadata vv ≠ Some [] → norm_vv vv = vv.
Proof. destruct vv as [v [[]|] h]; done. Qed.

Lemma state_unique vdb st ns :
  VersionedDBLaws vdb st → VersionedDBLaws vdb (state_of (store vdb)) → st ns = state_of (store vdb) ns.
Proof.
  intros H1 H2. apply map_eq. intros key. pose proof (GetState_law (db := vdb) (st := st) ns key) as E1.
  pose proof (GetState_law (db := vdb) (st := state_of (store vdb)) ns key) as E2. congruence.
Qed.

(** The interface of StateDB for updates. *)
#[export] Instance stateleveldb_apply_laws :
  VersionedDBApplyLaws (versionedDB L) kvScanner (λ vdb, x00 ∉ vdb_dbName vdb ∧ store_wf (store vdb)).
Proof.
  intros vdb st batch height [Hn Hwf] Hlaws Hok Hh.
  assert (batch_wf batch) as Hb by (intros ns key vv Hg; destruct (Hok _ _ _ Hg) as (? & _ & ?); done).
  destruct (ApplyUpdates_contents vdb batch height Hb) as (vdb' & Happ & Hn' & Hc).
  assert (store_wf (store vdb')) as Hwf' by (by eapply ApplyUpdates_wf).
  assert (x00 ∉ vdb_dbName vdb') as Hnn by (by rewrite Hn').
  exists vdb', (state_of (store vdb')). split_and!; [done..|by apply stateleveldb_laws|done|].
  intros ns Hns. rewrite (state_unique vdb st) by (done || by apply stateleveldb_laws).
  rewrite (ApplyUpdates_state vdb vdb' batch height) by done. f_equal.
  apply map_eq. intros key. rewrite lookup_fmap, lookup_GetUpdates.
  destruct (UpdateBatch_Get batch ns key) as [vv|] eqn:Hg; [|done]. simpl.
  rewrite norm_vv_id; [done|]. by destruct (Hok _ _ _ Hg) as (_ & ? & _).
Qed.

#[export] Instance stateleveldb_load_laws : VersionedDBLoadLaws (versionedDB L) kvScanner.
Proof. by intros load vdb st keys [=]. Qed.

(** ** Properties *)

(** C7: the LevelDB state database implements the versioned key-value state.
    On a well-formed store every read answers from the abstract state, and
    applying a batch succeeds, keeps the store well-formed, changes the
    abstract state of every namespace exactly as the batch says (a nil value
    deletes), records the given height as savepoint, and leaves the savepoint
    alone when no height is given. *)
Theorem stateleveldb_refines vdb batch height
    (Hn : x00 ∉ vdb_dbName vdb) (Hwf : store_wf (store vdb)) (Hb : batch_wf batch)
    (Hh : ∀ h, height = Some h → Height_wf h) :
  VersionedDBLaws vdb (state_of (store vdb)) ∧
  ∃ vdb', versionedDB_ApplyUpdates vdb batch height = Ok vdb' ∧
    store_wf (store vdb') ∧
    (∀ ns, x00 ∉ ns → state_of (store vdb') ns =
       overlay (state_of (store vdb) ns) (norm_vv <$> UpdateBatch_GetUpdates batch ns)) ∧
    versionedDB_GetLatestSavePoint vdb' =
      match height with Some h => Ok (Some h) | None => versionedDB_GetLatestSavePoint vdb end.
Proof.
  split; [by apply stateleveldb_laws|].
  destruct (ApplyUpdates_contents vdb batch height Hb) as (vdb' & Happ & Hn' & Hc).
  exists vdb'. split; [done|split_and!].
  - by eapply ApplyUpdates_wf.
  - intros ns Hns. by eapply ApplyUpdates_state.
  - unfold versionedDB_GetLatestSavePoint. rewrite !lookup_store. run.
    assert (store vdb' !! savePointKey = match height with Some h => Some (Height_ToBytes h) | None => store vdb !! savePointKey end) as ->.
    { unfold store. rewrite Hn', !lookup_view, Hc.
      rewrite (apply_ldb_ops_lookup _ _ _ ((λ h, Some (Height_ToBytes h)) <$> height)); [by destruct height| |].
      - intros op [Hop|Hop]%elem_of_app Hk; [|destruct height; set_solver].
        apply list_elem_of_fmap in Hop as ([[ns k] vv] & -> & _). exfalso.
        unfold op_of in Hk; simpl in Hk. destruct (Value vv); simpl in Hk; by apply construct_data_ne_savepoint in Hk.
      - destruct height as [h|]; [|by intros []]. intros _. eexists. rewrite elem_of_app. split; [right; by left|done]. }
    destruct height as [h|]; [|done]. simpl.
    rewrite <-(app_nil_r (Height_ToBytes h)), NewHeightFromBytes_ToBytes by auto. by run.
Qed.
End refinement.

#[export] Instance DBValue_eq_dec : EqDecision DBValue.
Proof. solve_decision. Defined.
#[export] Instance DBValue_countable : Countable DBValue.
Proof.
  by apply (inj_countable' (λ r, (dbv_Version r, dbv_Value r, dbv_Metadata r)) (λ '(a, b, c), Build_DBValue a b c)); intros [].
Defined.
#[local] Instance sample_DBValue_codec : ProtoMessage DBValue := countable_norm_proto DBValue DBValue_norm.
#[local] Instance sample_DBValue_laws : ProtoNormalizes DBValue DBValue_norm := countable_norm_proto_laws _ _.

Lemma stateleveldb_refines_witness :
  let vdb := {| vdb_db := (∅ : gmap bytes bytes); vdb_dbName := B "ch1" |} in
  let batch := UpdateBatch_Update NewUpdateBatch (B "cc") (B "k")
    {| Value := Some (B "v"); Metadata := None; vv_Version := Some (NewHeight 7 3) |} in
  ∃ vdb', versionedDB_ApplyUpdates vdb batch (Some (NewHeight 7 3)) = Ok vdb' ∧
    versionedDB_GetLatestSavePoint vdb' = Ok (Some (NewHeight 7 3)) ∧
    state_of (store vdb') (B "cc") !! B "k" =
      Some {| Value := Some (B "v"); Metadata := None; vv_Version := Some (NewHeight 7 3) |}.
Proof.
  intros vdb batch.
  assert (x00 ∉ B "cc") as Hcc by (vm_compute; set_solver).
  assert (Height_wf (NewHeight 7 3)) as Hwf7 by (split; vm_compute; by split).
  destruct (stateleveldb_refines vdb batch (Some (NewHeight 7 3))) as (_ & vdb' & Happ & _ & Hst & Hsp).
  - vm_compute; set_solver.
  - intros ns key b Hb. unfold store in Hb. rewrite lookup_view in Hb. done.
  - intros ns key vv. unfold batch. rewrite Get_Update. destruct (decide _) as [[-> ->]|]; [|done].
    intros [= <-]. split; [vm_compute; set_solver|]. eexists; split; [done|]. done.
  - intros h [= <-]. done.
  - exists vdb'. split; [done|]. split; [done|].
    rewrite (Hst _ Hcc).
    rewrite lookup_overlay, lookup_fmap, lookup_GetUpdates. unfold batch.
    rewrite Get_Update, decide_True by (by split). reflexivity.
Defined.
