(* ===== verification/PrivState.v ===== *)
(** * State with private data

  Models core/ledger/kvledger/txmgmt/privacyenabledstate: the batches for
  public, hashed and private updates (types.go), the database that keeps the
  hashed and private data of a collection in derived namespaces of the state
  database (db.go), and the hint that spares metadata reads for namespaces
  that never used metadata (optimization.go).

  The chaincode deployment listener and the CouchDB index handling of db.go
  are not modelled. *)

From S2P Require Import Prelude SortedMap Version Separated StateDB Proto Rwset LevelDB StateLevelDB.
From stdpp Require Import options.
Local Open Scope nat_scope.
Set Default Proof Using "Type*".

(** ** Batches *)

Record HashedCompositeKey := { hck_Namespace : bytes; hck_CollectionName : bytes; hck_KeyHash : bytes }.
Record PvtdataCompositeKey := { pck_Namespace : bytes; pck_CollectionName : bytes; pck_Key : bytes }.
#[export] Instance HashedCompositeKey_eq_dec : EqDecision HashedCompositeKey.
Proof. solve_decision. Defined.
#[export] Instance HashedCompositeKey_countable : Countable HashedCompositeKey.
Proof.
  by apply (inj_countable' (λ r, (hck_Namespace r, hck_CollectionName r, hck_KeyHash r))
    (λ '(a, b, c), Build_HashedCompositeKey a b c)); intros [].
Defined.
#[export] Instance PvtdataCompositeKey_eq_dec : EqDecision PvtdataCompositeKey.
Proof. solve_decision. Defined.
#[export] Instance PvtdataCompositeKey_countable : Countable PvtdataCompositeKey.
Proof.
  by apply (inj_countable' (λ r, (pck_Namespace r, pck_CollectionName r, pck_Key r))
    (λ '(a, b, c), Build_PvtdataCompositeKey a b c)); intros [].
Defined.

(** A batch per namespace, whose own namespaces are the collections. *)
Notation UpdateMap := (gmap bytes UpdateBatch).
Definition NewUpdateMap : UpdateMap := ∅.

Definition getOrCreateNsBatch (b : UpdateMap) (ns : bytes) : UpdateBatch :=
  match b !! ns with Some batch => batch | None => NewUpdateBatch end.
Definition UpdateMap_PutValAndMetadata (b : UpdateMap) (ns coll key : bytes)
    (value metadata : option bytes) (version : option Height) : res UpdateMap :=
  batch ← UpdateBatch_PutValAndMetadata (getOrCreateNsBatch b ns) coll key value metadata version;
  Ok (<[ns := batch]> b).
Definition UpdateMap_Put (b : UpdateMap) (ns coll key : bytes) (value : option bytes) (version : option Height) : res UpdateMap :=
  UpdateMap_PutValAndMetadata b ns coll key value None version.
Definition UpdateMap_Delete (b : UpdateMap) (ns coll key : bytes) (version : option Height) : UpdateMap :=
  <[ns := UpdateBatch_Delete (getOrCreateNsBatch b ns) coll key version]> b.
Definition UpdateMap_Get (b : UpdateMap) (ns coll key : bytes) : option VersionedValue :=
  match b !! ns with None => None | Some nsPvtBatch => UpdateBatch_Get nsPvtBatch coll key end.
Definition UpdateMap_Contains (b : UpdateMap) (ns coll key : bytes) : bool :=
  match b !! ns with None => false | Some nsBatch => UpdateBatch_Exists nsBatch coll key end.
Definition UpdateMap_GetUpdatedNamespaces (b : UpdateMap) : list bytes := (map_to_list b).*1.
Definition UpdateMap_IsEmpty (b : UpdateMap) : bool := bool_decide (b = ∅).

(** The bindings of an update map as a list of collection, key and value. *)
Definition update_map_list (b : UpdateMap) : list (bytes * bytes * bytes * VersionedValue) :=
  map_to_list b ≫= λ x, (λ y, (x.1, y.1.1, y.1.2, y.2)) <$> batch_list x.2.

Definition HashedUpdateBatch_ToCompositeKeyMap (h : UpdateMap) : gmap HashedCompositeKey VersionedValue :=
  foldl (λ m '(ns, coll, key, vv),
    <[{| hck_Namespace := ns; hck_CollectionName := coll; hck_KeyHash := key |} := vv]> m) ∅ (update_map_list h).
Definition PvtUpdateBatch_ToCompositeKeyMap (p : UpdateMap) : gmap PvtdataCompositeKey VersionedValue :=
  foldl (λ m '(ns, coll, key, vv),
    <[{| pck_Namespace := ns; pck_CollectionName := coll; pck_Key := key |} := vv]> m) ∅ (update_map_list p).

Record PrivUpdateBatch := {
  PubUpdates : UpdateBatch;
  HashUpdates : UpdateMap;
  PvtUpdates : UpdateMap
}.
Definition NewPrivUpdateBatch : PrivUpdateBatch :=
  {| PubUpdates := NewUpdateBatch; HashUpdates := NewUpdateMap; PvtUpdates := NewUpdateMap |}.

(** ** Derived namespaces *)

Definition nsJoiner : bytes := B "$$".
Definition pvtDataPrefix : bytes := B "p".
Definition hashDataPrefix : bytes := B "h".

Definition derivePvtDataNs (namespace collection : bytes) : bytes :=
  namespace ++ nsJoiner ++ pvtDataPrefix ++ collection.
Definition deriveHashedDataNs (namespace collection : bytes) : bytes :=
  namespace ++ nsJoiner ++ hashDataPrefix ++ collection.

(** Go's [strings.Split] and [strings.Contains] with a non-empty separator. *)
Fixpoint split_str (fuel : nat) (sep cur l : bytes) : list bytes :=
  match fuel, l with
  | O, _ | _, [] => [cur]
  | S fuel, b :: l' =>
      if decide (take (length sep) l = sep)
      then cur :: split_str fuel sep [] (drop (length sep) l)
      else split_str fuel sep (cur ++ [b]) l'
  end.
Definition strings_Split (l sep : bytes) : list bytes := split_str (length l) sep [] l.
Definition strings_Contains (l sep : bytes) : bool := bool_decide (1 < length (strings_Split l sep)).

Definition decodeHashedDataNsColl (hashedDataNs : bytes) : res (bytes * bytes) :=
  match strings_Split hashedDataNs (nsJoiner ++ hashDataPrefix) with
  | [ns; coll] => Ok (ns, coll)
  | _ => Err "not a valid hashedDataNs"
  end.
Definition isPvtdataNs (namespace : bytes) : bool := strings_Contains namespace (nsJoiner ++ pvtDataPrefix).
Definition isHashedDataNs (namespace : bytes) : bool := strings_Contains namespace (nsJoiner ++ hashDataPrefix).

(** The namespaces a channel may have in the state database; the argument is
    the result of [NamespacesAndCollections]. *)
Definition PossibleNamespaces (nsCollMap : gmap bytes (list bytes)) : list bytes :=
  map_to_list nsCollMap ≫= λ '(ns, collections),
    ns :: (collections ≫= λ collection, [deriveHashedDataNs ns collection; derivePvtDataNs ns collection]).

Record indexInfo := { hasIndexForChaincode : bool; hasIndexForCollection : bool; collectionName : bytes }.
Definition getIndexInfo (indexPath : bytes) : indexInfo :=
  let pathParts := Split x2f indexPath in
  if decide (pathParts !! 3 = Some (B "indexes"))
  then {| hasIndexForChaincode := true; hasIndexForCollection := false; collectionName := [] |}
  else if decide (pathParts !! 3 = Some (B "collections") ∧ pathParts !! 5 = Some (B "indexes"))
  then {| hasIndexForChaincode := false; hasIndexForCollection := true; collectionName := default [] (pathParts !! 4) |}
  else {| hasIndexForChaincode := false; hasIndexForCollection := false; collectionName := [] |}.

(** Go's [base64.StdEncoding.EncodeToString], for databases that do not take
    arbitrary bytes as keys. *)
Definition base64_char (z : Z) : byte :=
  Zbyte (if (z <? 26)%Z then z + 65 else if (z <? 52)%Z then z + 71
         else if (z <? 62)%Z then z - 4 else if (z =? 62)%Z then 43 else 47)%Z.
Fixpoint base64_go (fuel : nat) (l : bytes) : bytes :=
  match fuel, l with
  | O, _ | _, [] => []
  | _, [a] =>
      let v := (byteZ a * 65536)%Z in
      [base64_char (v / 262144); base64_char (v / 4096 mod 64); x3d; x3d]
  | _, [a; b] =>
      let v := (byteZ a * 65536 + byteZ b * 256)%Z in
      [base64_char (v / 262144); base64_char (v / 4096 mod 64); base64_char (v / 64 mod 64); x3d]
  | S fuel, a :: b :: c :: l =>
      let v := (byteZ a * 65536 + byteZ b * 256 + byteZ c)%Z in
      base64_char (v / 262144) :: base64_char (v / 4096 mod 64) :: base64_char (v / 64 mod 64)
        :: base64_char (v mod 64) :: base64_go fuel l
  end.
Definition base64_EncodeToString (l : bytes) : bytes := base64_go (length l) l.

(** ** Combining the batches *)

Definition addPvtUpdates (pubUpdateBatch : UpdateBatch) (pvtUpdateBatch : UpdateMap) : UpdateBatch :=
  foldl (λ b '(ns, coll, key, vv), UpdateBatch_Update b (derivePvtDataNs ns coll) key vv)
    pubUpdateBatch (update_map_list pvtUpdateBatch).
Definition addHashedUpdates (pubUpdateBatch : UpdateBatch) (hashedUpdateBatch : UpdateMap) (base64Key : bool) : UpdateBatch :=
  foldl (λ b '(ns, coll, key, vv),
      UpdateBatch_Update b (deriveHashedDataNs ns coll) (if base64Key then base64_EncodeToString key else key) vv)
    pubUpdateBatch (update_map_list hashedUpdateBatch).

(** ** The metadata hint *)

Definition filterNamespacesThatHasMetadata (updates : PrivUpdateBatch) : gset bytes :=
  let namespaces := foldl (λ s '(ns, _, vv),
    match Metadata vv with None => s | Some _ => {[ns]} ∪ s end) ∅ (batch_list (PubUpdates updates)) in
  foldl (λ s '(ns, _, _, vv),
    match Metadata vv with None => s | Some _ => {[ns]} ∪ s end) namespaces (update_map_list (HashUpdates updates)).

(** The cache and the database it is persisted in. *)
Record metadataHint (L : Type) := { mh_cache : gset bytes; mh_bookkeeper : L; mh_dbName : bytes }.
Arguments mh_cache {L} h : rename.
Arguments mh_bookkeeper {L} h : rename.
Arguments mh_dbName {L} h : rename.

Section hint.
Context {L : Type} `{!GoLevelDB L}.
Notation metadataHint := (metadataHint L).

(** The loop of [newMetadataHint] over the keys of the bookkeeper. *)
Fixpoint load_cache (fuel : nat) (itr : Iterator) (cache : gset bytes) : res (gset bytes) :=
  match fuel with
  | O => Ok cache
  | S fuel =>
      '(item, itr) ← Iterator_Next itr;
      match item with
      | None => Ok cache
      | Some (namespace, _) => load_cache fuel itr ({[namespace]} ∪ cache)
      end
  end.
Definition newMetadataHint (dbName : bytes) (bookkeeper : L) : res metadataHint :=
  itr ← DBHandle_GetIterator dbName bookkeeper None None;
  cache ← load_cache (S (length (it_rest itr))) itr ∅;
  Ok {| mh_cache := cache; mh_bookkeeper := bookkeeper; mh_dbName := dbName |}.

Definition metadataEverUsedFor (h : metadataHint) (namespace : bytes) : bool :=
  bool_decide (namespace ∈ mh_cache h).

Definition setMetadataUsedFlag (h : metadataHint) (updates : PrivUpdateBatch) : res metadataHint :=
  '(cache, batch) ← foldM (λ '(cache, batch) ns,
      if decide (ns ∈ cache) then Ok (cache, batch)
      else batch ← LevelBatch_Put batch ns (Some []); Ok ({[ns]} ∪ cache, batch))
    (mh_cache h, DBHandle_NewUpdateBatch (mh_dbName h)) (elements (filterNamespacesThatHasMetadata updates));
  db ← DBHandle_WriteBatch (mh_bookkeeper h) batch;
  Ok {| mh_cache := cache; mh_bookkeeper := db; mh_dbName := mh_dbName h |}.

Definition importNamespacesThatUseMetadata (h : metadataHint) (namespaces : gset bytes) : res metadataHint :=
  batch ← foldM (λ batch ns, LevelBatch_Put batch ns (Some []))
    (DBHandle_NewUpdateBatch (mh_dbName h)) (elements namespaces);
  db ← DBHandle_WriteBatch (mh_bookkeeper h) batch;
  Ok {| mh_cache := mh_cache h; mh_bookkeeper := db; mh_dbName := mh_dbName h |}.
End hint.

(** ** The database *)

Record PrivDB (DB L : Type) := { pdb_vdb : DB; pdb_hint : metadataHint L }.
Arguments pdb_vdb {DB L} s : rename.
Arguments pdb_hint {DB L} s : rename.

Section db.
Context {DB I L : Type} `{!VersionedDB DB I} `{!GoLevelDB L} `{!Sha256}.
Notation PrivDB := (PrivDB DB L).

Definition IsBulkOptimizable : bool :=
  match LoadCommittedVersions (DB := DB) with Some _ => true | None => false end.

Definition key_hash_str (s : PrivDB) (keyHash : bytes) : bytes :=
  if BytesKeySupported (pdb_vdb s) then keyHash else base64_EncodeToString keyHash.

Definition LoadCommittedVersionsOfPubAndHashedKeys (s : PrivDB) (pubKeys : list CompositeKey)
    (hashedKeys : list HashedCompositeKey) : res PrivDB :=
  match LoadCommittedVersions (DB := DB) with
  | None => Ok s
  | Some load =>
      let hashed := (λ key, {| Namespace := deriveHashedDataNs (hck_Namespace key) (hck_CollectionName key);
                               Key := key_hash_str s (hck_KeyHash key) |}) <$> hashedKeys in
      vdb ← load (pdb_vdb s) (pubKeys ++ hashed);
      Ok {| pdb_vdb := vdb; pdb_hint := pdb_hint s |}
  end.

Definition GetPrivateData (s : PrivDB) (namespace collection key : bytes) : res (option VersionedValue) :=
  GetState (pdb_vdb s) (derivePvtDataNs namespace collection) key.
Definition GetValueHash (s : PrivDB) (namespace collection keyHash : bytes) : res (option VersionedValue) :=
  GetState (pdb_vdb s) (deriveHashedDataNs namespace collection) (key_hash_str s keyHash).
Definition GetPrivateDataHash (s : PrivDB) (namespace collection key : bytes) : res (option VersionedValue) :=
  GetValueHash s namespace collection (ComputeStringHash key).
Definition GetKeyHashVersion (s : PrivDB) (namespace collection keyHash : bytes) : res (option Height) :=
  GetVersion (pdb_vdb s) (deriveHashedDataNs namespace collection) (key_hash_str s keyHash).
Definition GetPrivateDataRangeScanIterator (s : PrivDB) (namespace collection startKey endKey : bytes) : res I :=
  GetStateRangeScanIterator (pdb_vdb s) (derivePvtDataNs namespace collection) startKey endKey.

Definition GetStateMetadata (s : PrivDB) (namespace key : bytes) : res (option bytes) :=
  if negb (metadataEverUsedFor (pdb_hint s) namespace) then Ok None
  else
    vv ← GetState (pdb_vdb s) namespace key;
    match vv with None => Ok None | Some vv => Ok (Metadata vv) end.
Definition GetPrivateDataMetadataByHash (s : PrivDB) (namespace collection keyHash : bytes) : res (option bytes) :=
  if negb (metadataEverUsedFor (pdb_hint s) namespace) then Ok None
  else
    vv ← GetValueHash s namespace collection keyHash;
    match vv with None => Ok None | Some vv => Ok (Metadata vv) end.

(** [combinedUpdates] is [updates.PubUpdates] itself: when the flag is set,
    the public batch of [updates] already holds the derived namespaces. *)
Definition ApplyPrivacyAwareUpdates (s : PrivDB) (updates : PrivUpdateBatch) (height : option Height) : res PrivDB :=
  let combinedUpdates := PubUpdates updates in
  let combinedUpdates := addPvtUpdates combinedUpdates (PvtUpdates updates) in
  let combinedUpdates := addHashedUpdates combinedUpdates (HashUpdates updates) (negb (BytesKeySupported (pdb_vdb s))) in
  let updates := {| PubUpdates := combinedUpdates; HashUpdates := HashUpdates updates; PvtUpdates := PvtUpdates updates |} in
  hint ← setMetadataUsedFlag (pdb_hint s) updates;
  vdb ← ApplyUpdates (pdb_vdb s) combinedUpdates height;
  Ok {| pdb_vdb := vdb; pdb_hint := hint |}.
End db.

(** ** Lemmas *)

Lemma elem_of_update_map_list b ns coll key vv :
  (ns, coll, key, vv) ∈ update_map_list b ↔ UpdateMap_Get b ns coll key = Some vv.
Proof.
  unfold update_map_list, UpdateMap_Get. rewrite list_elem_of_bind. split.
  - intros ([ns' u] & Hin & Hu). apply elem_of_map_to_list in Hu.
    apply list_elem_of_fmap in Hin as ([[coll' key'] vv'] & [= -> -> -> ->] & Hkv).
    cbn [fst]. by rewrite Hu, <-elem_of_batch_list.
  - destruct (b !! ns) as [u|] eqn:Hu; [|done]. intros Hk.
    exists (ns, u). rewrite elem_of_map_to_list, list_elem_of_fmap. split; [|done].
    exists (coll, key, vv). by rewrite elem_of_batch_list.
Qed.

Lemma Get_UpdateMap_Put b ns coll key value metadata h b' :
  UpdateMap_PutValAndMetadata b ns coll key value metadata h = Ok b' →
  ∀ ns' coll' key', UpdateMap_Get b' ns' coll' key' =
    if decide (ns' = ns ∧ coll' = coll ∧ key' = key)
    then Some {| Value := value; Metadata := metadata; vv_Version := h |} else UpdateMap_Get b ns' coll' key'.
Proof.
  unfold UpdateMap_PutValAndMetadata, UpdateBatch_PutValAndMetadata. intros H. inv_ok.
  destruct value; inv_ok. intros ns' coll' key'. unfold UpdateMap_Get.
  destruct (decide (ns' = ns)) as [->|Hn].
  - rewrite lookup_insert_eq, Get_Update. unfold getOrCreateNsBatch.
    repeat destruct (decide _); destruct (b !! ns); naive_solver.
  - rewrite lookup_insert_ne by done. by rewrite decide_False by naive_solver.
Qed.

Lemma Get_UpdateMap_Delete b ns coll key h ns' coll' key' :
  UpdateMap_Get (UpdateMap_Delete b ns coll key h) ns' coll' key' =
    if decide (ns' = ns ∧ coll' = coll ∧ key' = key)
    then Some {| Value := None; Metadata := None; vv_Version := h |} else UpdateMap_Get b ns' coll' key'.
Proof.
  unfold UpdateMap_Delete, UpdateMap_Get. destruct (decide (ns' = ns)) as [->|Hn].
  - rewrite lookup_insert_eq, Get_Delete. unfold getOrCreateNsBatch.
    repeat destruct (decide _); destruct (b !! ns); naive_solver.
  - rewrite lookup_insert_ne by done. by rewrite decide_False by naive_solver.
Qed.

Lemma Contains_Get b ns coll key :
  UpdateMap_Contains b ns coll key = bool_decide (is_Some (UpdateMap_Get b ns coll key)).
Proof.
  unfold UpdateMap_Contains, UpdateMap_Get. destruct (b !! ns); [apply Exists_Get|].
  by rewrite bool_decide_eq_false_2 by (by intros []).
Qed.

(** *** Namespaces *)

Lemma joiner_inj (ns ns' r r' : bytes) :
  x24 ∉ ns → x24 ∉ ns' → ns ++ nsJoiner ++ r = ns' ++ nsJoiner ++ r' → ns = ns' ∧ r = r'.
Proof.
  intros Hn Hn' Heq. change (ns ++ x24 :: (x24 :: r) = ns' ++ x24 :: (x24 :: r')) in Heq.
  apply sep_inj in Heq as [-> [= ->]]; done.
Qed.

Lemma derivePvtDataNs_inj ns ns' coll coll' :
  x24 ∉ ns → x24 ∉ ns' → derivePvtDataNs ns coll = derivePvtDataNs ns' coll' → ns = ns' ∧ coll = coll'.
Proof. intros ?? Heq. apply joiner_inj in Heq as [-> [= ->]]; done. Qed.
Lemma deriveHashedDataNs_inj ns ns' coll coll' :
  x24 ∉ ns → x24 ∉ ns' → deriveHashedDataNs ns coll = deriveHashedDataNs ns' coll' → ns = ns' ∧ coll = coll'.
Proof. intros ?? Heq. apply joiner_inj in Heq as [-> [= ->]]; done. Qed.
Lemma derive_pvt_hashed ns ns' coll coll' :
  x24 ∉ ns → x24 ∉ ns' → derivePvtDataNs ns coll ≠ deriveHashedDataNs ns' coll'.
Proof. intros ?? Heq. apply joiner_inj in Heq as [_ [=]]; done. Qed.
Lemma derivePvtDataNs_dollar ns coll : x24 ∈ derivePvtDataNs ns coll.
Proof. unfold derivePvtDataNs, nsJoiner. set_solver. Qed.
Lemma deriveHashedDataNs_dollar ns coll : x24 ∈ deriveHashedDataNs ns coll.
Proof. unfold deriveHashedDataNs, nsJoiner. set_solver. Qed.
Lemma derivePvtDataNs_x00 ns coll : x00 ∉ ns → x00 ∉ coll → x00 ∉ derivePvtDataNs ns coll.
Proof. unfold derivePvtDataNs. rewrite !elem_of_app. intros ?? [?|[H|[H|?]]]; [done| | |done]; vm_compute in H; set_solver. Qed.
Lemma deriveHashedDataNs_x00 ns coll : x00 ∉ ns → x00 ∉ coll → x00 ∉ deriveHashedDataNs ns coll.
Proof. unfold deriveHashedDataNs. rewrite !elem_of_app. intros ?? [?|[H|[H|?]]]; [done| | |done]; vm_compute in H; set_solver. Qed.

(** *** Base64 *)

Section base64.
Local Open Scope Z_scope.

Lemma base64_char_val z : 0 ≤ z < 64 → byteZ (base64_char z) =
  if z <? 26 then z + 65 else if z <? 52 then z + 71 else if z <? 62 then z - 4 else if z =? 62 then 43 else 47.
Proof.
  intros Hz. unfold base64_char. rewrite byteZ_Zbyte. apply Z.mod_small.
  destruct (Z.ltb_spec z 26), (Z.ltb_spec z 52), (Z.ltb_spec z 62), (Z.eqb_spec z 62); lia.
Qed.
Lemma base64_char_inj z z' : 0 ≤ z < 64 → 0 ≤ z' < 64 → base64_char z = base64_char z' → z = z'.
Proof.
  intros Hz Hz' E%(f_equal byteZ). rewrite !base64_char_val in E by done. revert E.
  destruct (Z.ltb_spec z 26), (Z.ltb_spec z 52), (Z.ltb_spec z 62), (Z.eqb_spec z 62),
    (Z.ltb_spec z' 26), (Z.ltb_spec z' 52), (Z.ltb_spec z' 62), (Z.eqb_spec z' 62); lia.
Qed.
Lemma base64_char_pad z : 0 ≤ z < 64 → base64_char z ≠ x3d.
Proof.
  intros Hz E%(f_equal byteZ). rewrite base64_char_val in E by done. change (byteZ x3d) with 61 in E. revert E.
  destruct (Z.ltb_spec z 26), (Z.ltb_spec z 52), (Z.ltb_spec z 62), (Z.eqb_spec z 62); lia.
Qed.

(** The four digits of a group determine its 24 bits. *)
Lemma base64_group v v' :
  0 ≤ v < 16777216 → 0 ≤ v' < 16777216 →
  base64_char (v / 262144) = base64_char (v' / 262144) →
  base64_char (v / 4096 mod 64) = base64_char (v' / 4096 mod 64) →
  base64_char (v / 64 mod 64) = base64_char (v' / 64 mod 64) →
  base64_char (v mod 64) = base64_char (v' mod 64) → v = v'.
Proof.
  intros Hv Hv' E1%base64_char_inj E2%base64_char_inj E3%base64_char_inj E4%base64_char_inj;
    Z.to_euclidean_division_equations; lia.
Qed.

Lemma base64_go_inj n m l l' :
  (length l ≤ n)%nat → (length l' ≤ m)%nat → base64_go n l = base64_go m l' → l = l'.
Proof.
  revert m l l'. induction n as [|n IH]; intros m l l' Hl Hm.
  { destruct l; [|simpl in Hl; lia]. destruct m, l' as [|a [|b [|c l']]]; simpl in *; try done; lia. }
  destruct m as [|m]; [destruct l'; [|simpl in Hm; lia]; by destruct l as [|a [|b [|c l]]]|].
  destruct l as [|a [|b [|c l]]], l' as [|a' [|b' [|c' l']]]; simpl in Hl, Hm; cbn [base64_go]; try done;
    intros E; injection E; clear E; intros;
    repeat match goal with b : byte |- _ => lazymatch goal with
      | H : 0 ≤ byteZ b < 256 |- _ => fail | _ => pose proof (byteZ_range b) end end;
    try match goal with
    | H : base64_char ?z = x3d |- _ => by apply base64_char_pad in H; [|Z.to_euclidean_division_equations; lia]
    | H : x3d = base64_char ?z |- _ => symmetry in H; by apply base64_char_pad in H; [|Z.to_euclidean_division_equations; lia]
    end.
  - assert (byteZ a * 65536 = byteZ a' * 65536) as Hv
      by (apply base64_group; try done; try lia; f_equal; Z.to_euclidean_division_equations; lia).
    assert (byteZ a = byteZ a') as ->%byteZ_inj by lia. done.
  - assert (byteZ a * 65536 + byteZ b * 256 = byteZ a' * 65536 + byteZ b' * 256) as Hv
      by (apply base64_group; try done; try lia; f_equal; Z.to_euclidean_division_equations; lia).
    assert (byteZ a = byteZ a') as ->%byteZ_inj by lia. assert (byteZ b = byteZ b') as ->%byteZ_inj by lia. done.
  - assert (byteZ a * 65536 + byteZ b * 256 + byteZ c = byteZ a' * 65536 + byteZ b' * 256 + byteZ c') as Hv
      by (apply base64_group; try done; lia).
    assert (byteZ a = byteZ a') as ->%byteZ_inj by lia. assert (byteZ b = byteZ b') as ->%byteZ_inj by lia.
    assert (byteZ c = byteZ c') as ->%byteZ_inj by lia. do 3 f_equal. by apply (IH m); [lia..|].
Qed.
Lemma base64_inj l l' : base64_EncodeToString l = base64_EncodeToString l' → l = l'.
Proof. by apply base64_go_inj. Qed.
End base64.

(** *** The combined batch *)

(** Namespaces of chaincodes: no zero byte and no joiner character. *)
Definition plain_ns (ns : bytes) : Prop := x00 ∉ ns ∧ x24 ∉ ns.
Definition vv_ok (vv : VersionedValue) : Prop :=
  Metadata vv ≠ Some [] ∧ ∃ h, vv_Version vv = Some h ∧ Height_wf h.
Definition update_map_ok (m : UpdateMap) : Prop :=
  ∀ ns coll key vv, UpdateMap_Get m ns coll key = Some vv → plain_ns ns ∧ x00 ∉ coll ∧ vv_ok vv.
Definition priv_batch_ok (u : PrivUpdateBatch) : Prop :=
  (∀ ns key vv, UpdateBatch_Get (PubUpdates u) ns key = Some vv → plain_ns ns ∧ vv_ok vv) ∧
  update_map_ok (HashUpdates u) ∧ update_map_ok (PvtUpdates u).

Definition combined (u : PrivUpdateBatch) (base64Key : bool) : UpdateBatch :=
  addHashedUpdates (addPvtUpdates (PubUpdates u) (PvtUpdates u)) (HashUpdates u) base64Key.

Lemma addPvtUpdates_Get b m ns key (o : option VersionedValue) :
  (∀ ns' coll vv, UpdateMap_Get m ns' coll key = Some vv → ns = derivePvtDataNs ns' coll → o = Some vv) →
  (is_Some o → ∃ ns' coll vv, UpdateMap_Get m ns' coll key = Some vv ∧ ns = derivePvtDataNs ns' coll) →
  UpdateBatch_Get (addPvtUpdates b m) ns key = match o with Some vv => Some vv | None => UpdateBatch_Get b ns key end.
Proof.
  intros Hin Hex. unfold addPvtUpdates.
  rewrite (foldl_ext' _ (λ b x, upd b ((λ x, ((derivePvtDataNs x.1.1.1 x.1.1.2, x.1.2), x.2)) x))) by (by intros ? [[[]]]).
  rewrite <-foldl_fmap. apply foldl_upd_Get.
  - intros vv ([[[ns' coll] key'] vv'] & [= -> -> ->] & Hl)%list_elem_of_fmap. apply elem_of_update_map_list in Hl. eauto.
  - intros (ns' & coll & vv & Hg & ->)%Hex. exists vv. apply list_elem_of_fmap. exists (ns', coll, key, vv).
    by rewrite elem_of_update_map_list.
Qed.

Lemma addHashedUpdates_Get b m (base64Key : bool) ns key (o : option VersionedValue) :
  let enc (k : bytes) := if base64Key then base64_EncodeToString k else k in
  (∀ ns' coll k vv, UpdateMap_Get m ns' coll k = Some vv → ns = deriveHashedDataNs ns' coll → key = enc k → o = Some vv) →
  (is_Some o → ∃ ns' coll k vv, UpdateMap_Get m ns' coll k = Some vv ∧ ns = deriveHashedDataNs ns' coll ∧ key = enc k) →
  UpdateBatch_Get (addHashedUpdates b m base64Key) ns key =
  match o with Some vv => Some vv | None => UpdateBatch_Get b ns key end.
Proof.
  intros enc Hin Hex. unfold addHashedUpdates.
  rewrite (foldl_ext' _ (λ b x, upd b ((λ x, ((deriveHashedDataNs x.1.1.1 x.1.1.2, enc x.1.2), x.2)) x))) by (by intros ? [[[]]]).
  rewrite <-foldl_fmap. apply foldl_upd_Get.
  - intros vv ([[[ns' coll] key'] vv'] & [= -> -> ->] & Hl)%list_elem_of_fmap. apply elem_of_update_map_list in Hl. eauto.
  - intros (ns' & coll & k & vv & Hg & -> & ->)%Hex. exists vv. apply list_elem_of_fmap. exists (ns', coll, k, vv).
    by rewrite elem_of_update_map_list.
Qed.

Section combined.
Context (u : PrivUpdateBatch) (base64Key : bool) (Hok : priv_batch_ok u).

Lemma combined_pub ns key :
  x24 ∉ ns → UpdateBatch_Get (combined u base64Key) ns key = UpdateBatch_Get (PubUpdates u) ns key.
Proof.
  intros Hns. unfold combined. rewrite (addHashedUpdates_Get _ _ _ _ _ None), (addPvtUpdates_Get _ _ _ _ None); [done|..].
  - intros ns' coll ? _ ->. destruct Hns. apply derivePvtDataNs_dollar.
  - by intros [].
  - intros ns' coll ?? _ ->. destruct Hns. apply deriveHashedDataNs_dollar.
  - by intros [].
Qed.

Lemma combined_pvt ns coll key :
  plain_ns ns →
  UpdateBatch_Get (combined u base64Key) (derivePvtDataNs ns coll) key = UpdateMap_Get (PvtUpdates u) ns coll key.
Proof.
  destruct Hok as (Hpub & Hh & Hp). intros [_ Hns]. unfold combined. rewrite (addHashedUpdates_Get _ _ _ _ _ None).
  - rewrite (addPvtUpdates_Get _ _ _ _ (UpdateMap_Get (PvtUpdates u) ns coll key)).
    + destruct (UpdateMap_Get _ _ _ _) eqn:E; [done|]. apply eq_None_not_Some. intros [vv Hvv].
      apply Hpub in Hvv as [[_ []] _]. apply derivePvtDataNs_dollar.
    + intros ns' coll' vv Hg. destruct (Hp _ _ _ _ Hg) as [[_ ?] _].
      intros [-> ->]%derivePvtDataNs_inj; done.
    + intros [vv Hvv]. eauto.
  - intros ns' coll' k vv Hg Heq _. destruct (Hh _ _ _ _ Hg) as [[_ ?] _]. by apply derive_pvt_hashed in Heq.
  - by intros [].
Qed.

Lemma combined_hash ns coll key :
  plain_ns ns →
  UpdateBatch_Get (combined u base64Key) (deriveHashedDataNs ns coll)
    (if base64Key then base64_EncodeToString key else key) = UpdateMap_Get (HashUpdates u) ns coll key.
Proof.
  destruct Hok as (Hpub & Hh & Hp). intros [_ Hns]. unfold combined.
  rewrite (addHashedUpdates_Get _ _ _ _ _ (UpdateMap_Get (HashUpdates u) ns coll key)).
  - destruct (UpdateMap_Get _ _ _ _) eqn:E; [done|]. rewrite (addPvtUpdates_Get _ _ _ _ None).
    + apply eq_None_not_Some. intros [vv Hvv]. apply Hpub in Hvv as [[_ []] _]. apply deriveHashedDataNs_dollar.
    + intros ns' coll' vv Hg Heq. destruct (Hp _ _ _ _ Hg) as [[_ ?] _]. symmetry in Heq. by apply derive_pvt_hashed in Heq.
    + by intros [].
  - intros ns' coll' k vv Hg. destruct (Hh _ _ _ _ Hg) as [[_ ?] _].
    intros [-> ->]%deriveHashedDataNs_inj; [|done..]. destruct base64Key; [intros ->%base64_inj|intros ->]; done.
  - intros [vv Hvv]. eauto 10.
Qed.

(** Every binding of the combined batch comes from one of the three. *)
Lemma combined_inv ns key vv :
  UpdateBatch_Get (combined u base64Key) ns key = Some vv →
  UpdateBatch_Get (PubUpdates u) ns key = Some vv ∨
  (∃ ns' coll, UpdateMap_Get (PvtUpdates u) ns' coll key = Some vv ∧ ns = derivePvtDataNs ns' coll) ∨
  (∃ ns' coll k, UpdateMap_Get (HashUpdates u) ns' coll k = Some vv ∧ ns = deriveHashedDataNs ns' coll).
Proof.
  unfold combined, addHashedUpdates, addPvtUpdates.
  pose (P b := ∀ ns key vv, UpdateBatch_Get b ns key = Some vv →
    UpdateBatch_Get (PubUpdates u) ns key = Some vv ∨
    (∃ ns' coll, UpdateMap_Get (PvtUpdates u) ns' coll key = Some vv ∧ ns = derivePvtDataNs ns' coll) ∨
    (∃ ns' coll k, UpdateMap_Get (HashUpdates u) ns' coll k = Some vv ∧ ns = deriveHashedDataNs ns' coll)).
  assert (∀ A (f : UpdateBatch → A → UpdateBatch) b l,
    P b → (∀ b x, x ∈ l → P b → P (f b x)) → P (foldl f b l)) as Hfold.
  { intros A f b l. revert b. induction l as [|x l IH]; intros b Hb Hf; simpl; [done|].
    apply IH; [apply Hf; [set_solver|done]|]. intros; apply Hf; [set_solver|done]. }
  revert ns key vv. apply Hfold; [apply Hfold; [by left|]|].
  - intros b [[[ns coll] k] vv] Hin%elem_of_update_map_list Hb ns' key' vv'. rewrite Get_Update.
    destruct (decide _) as [[-> ->]|]; [intros [= ->]; eauto 10|apply Hb].
  - intros b [[[ns coll] k] vv] Hin%elem_of_update_map_list Hb ns' key' vv'. rewrite Get_Update.
    destruct (decide _) as [[-> ->]|]; [intros [= ->]; eauto 10|apply Hb].
Qed.

Lemma combined_ok : batch_ok (combined u base64Key).
Proof.
  destruct Hok as (Hpub & Hh & Hp). intros ns key vv [Hg|[(ns' & coll & Hg & ->)|(ns' & coll & k & Hg & ->)]]%combined_inv.
  - destruct (Hpub _ _ _ Hg) as ([? _] & ? & ?). done.
  - destruct (Hp _ _ _ _ Hg) as ([? _] & ? & ? & ?). split; [|done]. by apply derivePvtDataNs_x00.
  - destruct (Hh _ _ _ _ Hg) as ([? _] & ? & ? & ?). split; [|done]. by apply deriveHashedDataNs_x00.
Qed.
End combined.

(** *** The hint *)

Lemma elem_of_filterNamespaces u ns :
  ns ∈ filterNamespacesThatHasMetadata u ↔
  (∃ key vv, UpdateBatch_Get (PubUpdates u) ns key = Some vv ∧ is_Some (Metadata vv)) ∨
  (∃ coll key vv, UpdateMap_Get (HashUpdates u) ns coll key = Some vv ∧ is_Some (Metadata vv)).
Proof.
  unfold filterNamespacesThatHasMetadata.
  assert (∀ {A} (f : A → bytes) (g : A → VersionedValue) (s : gset bytes) l,
    ns ∈ foldl (λ s x, match Metadata (g x) with None => s | Some _ => {[f x]} ∪ s end) s l ↔
    ns ∈ s ∨ ∃ x, x ∈ l ∧ f x = ns ∧ is_Some (Metadata (g x))) as Hf.
  { intros A f g s l. revert s. induction l as [|x l IH]; intros s; simpl; [set_solver|].
    rewrite IH. setoid_rewrite elem_of_cons.
    destruct (Metadata (g x)) eqn:E; [|split; [naive_solver|]; intros [?|(y & [->|] & Hy & Hm)]; [naive_solver| |naive_solver]; rewrite E in Hm; by destruct Hm].
    rewrite elem_of_union, elem_of_singleton. split.
    - intros [[->|]|]; [right; exists x; rewrite E; eauto|naive_solver..].
    - intros [?|(y & [->|] & Hy & ?)]; naive_solver. }
  rewrite (foldl_ext' _ (λ s x, match Metadata x.2 with None => s | Some _ => {[x.1.1.1]} ∪ s end)) by (by intros ? [[[]]]).
  rewrite (foldl_ext' (λ s '(ns, _, vv), _) (λ s x, match Metadata x.2 with None => s | Some _ => {[x.1.1]} ∪ s end)) by (by intros ? [[]]).
  rewrite !Hf. split.
  - intros [[[]%not_elem_of_empty|([[ns' key] vv] & Hin%elem_of_batch_list & <- & ?)]|([[[ns' coll] key] vv] & Hin%elem_of_update_map_list & <- & ?)]; eauto 10.
  - intros [(key & vv & Hg & ?)|(coll & key & vv & Hg & ?)].
    + left. right. exists (ns, key, vv). by rewrite elem_of_batch_list.
    + right. exists (ns, coll, key, vv). by rewrite elem_of_update_map_list.
Qed.

Section hint_correct.
Context {L : Type} `{!GoLevelDB L} `{!GoLevelDBLaws L}.

(** The cache is what the bookkeeper holds. *)
Definition hint_wf (h : metadataHint L) : Prop :=
  x00 ∉ mh_dbName h ∧ mh_cache h = dom (view (contents (mh_bookkeeper h)) (mh_dbName h)).

Lemma load_cache_spec fuel itr l cache :
  IterDrains itr l → length l < fuel → load_cache fuel itr cache = Ok (list_to_set l.*1 ∪ cache).
Proof.
  intros Hd. revert fuel cache. induction Hd as [itr itr' Hn|itr itr' [k v] l Hn Hd IH]; intros [|fuel] cache Hl;
    simpl in *; try lia; rewrite Hn; run.
  - f_equal. set_solver.
  - rewrite IH by lia. f_equal. set_solver.
Qed.

Lemma newMetadataHint_spec dbName bookkeeper :
  x00 ∉ dbName → newMetadataHint dbName bookkeeper =
    Ok {| mh_cache := dom (view (contents bookkeeper) dbName); mh_bookkeeper := bookkeeper; mh_dbName := dbName |}.
Proof.
  intros Hn. unfold newMetadataHint. destruct (GetIterator_spec dbName bookkeeper None None Hn) as (itr & -> & Hr & Hd). run.
  rewrite (load_cache_spec _ _ _ _ Hd) by (rewrite Hr, length_fmap; lia). run. do 2 f_equal.
  apply set_eq. intros ns. rewrite elem_of_union, elem_of_list_to_set, elem_of_dom, list_elem_of_fmap.
  unfold range_o. setoid_rewrite list_elem_of_filter. split.
  - intros [([k v] & -> & _ & Hv%elem_of_sorted_kvs)|[]%not_elem_of_empty]. eauto.
  - intros [v Hv]. left. exists (ns, v). rewrite elem_of_sorted_kvs. split_and!; [done|split; [apply bytes_nil_le|done]|done].
Qed.

Lemma setMetadataUsedFlag_fold cache (batch : LevelBatch) l :
  ∃ batch' new, foldM (λ '(cache, batch) ns,
      if decide (ns ∈ cache) then Ok (cache, batch)
      else batch ← LevelBatch_Put batch ns (Some []); Ok ({[ns]} ∪ cache, batch)) (cache, batch) l =
    Ok (list_to_set l ∪ cache : gset bytes, batch') ∧ lb_dbName batch' = lb_dbName batch ∧
    lb_ops batch' = lb_ops batch ++ ((λ ns, LPut (constructLevelKey (lb_dbName batch) ns) []) <$> new) ∧
    (∀ ns, ns ∈ new → ns ∈ l) ∧ (∀ ns, ns ∈ l → ns ∈ cache ∨ ns ∈ new).
Proof.
  revert cache batch. induction l as [|ns l IH]; intros cache batch; cbn [foldM].
  - exists batch, []. split_and!; [do 2 f_equal; set_solver|done|by rewrite app_nil_r|done|by intros ? []%not_elem_of_nil].
  - destruct (decide (ns ∈ cache)) as [Hin|Hni]; run.
    + destruct (IH cache batch) as (b' & new & -> & Hn & Ho & H1 & H2). exists b', new.
      split_and!; [do 2 f_equal; set_solver|done|done|set_solver|set_solver].
    + unfold LevelBatch_Put at 2. run. edestruct (IH ({[ns]} ∪ cache)) as (b' & new & -> & Hn & Ho & H1 & H2).
      exists b', (ns :: new).
      split_and!; [do 2 f_equal; set_solver|done| |set_solver|set_solver].
      rewrite Ho. simpl. by rewrite <-app_assoc.
Qed.

Lemma setMetadataUsedFlag_spec (h : metadataHint L) u :
  hint_wf h → ∃ h', setMetadataUsedFlag h u = Ok h' ∧ hint_wf h' ∧
    mh_cache h' = filterNamespacesThatHasMetadata u ∪ mh_cache h.
Proof.
  intros [Hn Hc]. unfold setMetadataUsedFlag.
  destruct (setMetadataUsedFlag_fold (mh_cache h) (DBHandle_NewUpdateBatch (mh_dbName h))
    (elements (filterNamespacesThatHasMetadata u))) as (b & new & -> & Hb & Ho & H1 & H2). run.
  assert (∃ db', DBHandle_WriteBatch (mh_bookkeeper h) b = Ok db' ∧
    contents db' = apply_ldb_ops (contents (mh_bookkeeper h)) (lb_ops b)) as (db' & -> & Hcont).
  { unfold DBHandle_WriteBatch. destruct (decide (lb_ops b = [])) as [E|]; [by exists (mh_bookkeeper h); rewrite E|].
    apply ldb_Write_law. }
  assert (∀ k, contents db' !! constructLevelKey (mh_dbName h) k =
    if decide (k ∈ new) then Some [] else contents (mh_bookkeeper h) !! constructLevelKey (mh_dbName h) k) as Hlk.
  { intros k. rewrite Hcont, Ho, (apply_ldb_ops_lookup _ _ _ (if decide (k ∈ new) then Some (Some []) else None)).
    - by destruct (decide _).
    - cbn. intros op (ns & -> & Hin)%list_elem_of_fmap. cbn. intros ->%constructLevelKey_inj. by rewrite decide_True.
    - destruct (decide _); [|by intros []]. intros _. cbn.
      exists (LPut (constructLevelKey (mh_dbName h) k) []). rewrite list_elem_of_fmap. eauto. }
  run. eexists; split_and!; [done|split; [done|]|]; cbn; [|set_solver].
  apply set_eq. intros ns. rewrite Hc, elem_of_union, elem_of_list_to_set, !elem_of_dom, !lookup_view, Hlk.
  rewrite Hc in H2. setoid_rewrite elem_of_dom in H2. setoid_rewrite lookup_view in H2.
  destruct (decide (ns ∈ new)) as [Hin|Hni]; [split; [by eauto|left; by apply H1]|].
  split; [intros [?%H2|?]; naive_solver|naive_solver].
Qed.
End hint_correct.

(** *** Decoding of derived namespaces *)

Lemma split_str_app fuel sep b cur (x r : bytes) :
  length (x ++ (b :: sep) ++ r) ≤ fuel → b ∉ x →
  split_str fuel (b :: sep) cur (x ++ (b :: sep) ++ r) = (cur ++ x) :: split_str (fuel - S (length x)) (b :: sep) [] r.
Proof.
  revert fuel cur. induction x as [|c x IH]; intros fuel cur Hf Hb; (destruct fuel as [|fuel]; [simpl in Hf; lia|]).
  - rewrite app_nil_r. change ([] ++ (b :: sep) ++ r) with (b :: (sep ++ r)). cbn [split_str].
    change (b :: sep ++ r) with ((b :: sep) ++ r). rewrite take_app_length, drop_app_length, decide_True by done.
    by rewrite Nat.sub_1_r.
  - cbn [app split_str]. rewrite decide_False by (intros [= ->]; set_solver).
    rewrite IH by (simpl in Hf; set_solver by lia). by rewrite <-app_assoc.
Qed.
Lemma split_str_none fuel sep b cur (x : bytes) : length x ≤ fuel → b ∉ x → split_str fuel (b :: sep) cur x = [cur ++ x].
Proof.
  revert fuel cur. induction x as [|c x IH]; intros fuel cur Hf Hb; [destruct fuel; cbn; by rewrite app_nil_r|].
  destruct fuel as [|fuel]; [simpl in Hf; lia|]. cbn [split_str].
  rewrite decide_False by (intros [= ->]; set_solver). rewrite IH by (simpl in Hf; set_solver by lia). by rewrite <-app_assoc.
Qed.

(** ** Properties *)

(** The namespaces derived for private and for hashed data of collections
    never clash: with chaincode names that have no dollar sign they determine
    the chaincode and the collection, differ from each other and from every
    chaincode's own namespace; decoding a hashed namespace gives the chaincode
    and the collection back, and the two tests recognise exactly the namespaces
    of their kind. *)
Theorem derived_namespaces_disjoint (ns ns' coll coll' : bytes)
    (Hns : x24 ∉ ns) (Hns' : x24 ∉ ns') (Hcoll : x24 ∉ coll) :
  (derivePvtDataNs ns coll = derivePvtDataNs ns' coll' ↔ ns = ns' ∧ coll = coll') ∧
  (deriveHashedDataNs ns coll = deriveHashedDataNs ns' coll' ↔ ns = ns' ∧ coll = coll') ∧
  derivePvtDataNs ns coll ≠ deriveHashedDataNs ns' coll' ∧
  derivePvtDataNs ns coll ≠ ns' ∧ deriveHashedDataNs ns coll ≠ ns' ∧
  decodeHashedDataNsColl (deriveHashedDataNs ns coll) = Ok (ns, coll) ∧
  isHashedDataNs (deriveHashedDataNs ns coll) = true ∧ isHashedDataNs ns = false ∧
  isPvtdataNs (derivePvtDataNs ns coll) = true ∧ isPvtdataNs ns = false.
Proof.
  assert (∀ c, strings_Split (ns ++ nsJoiner ++ [c] ++ coll) (nsJoiner ++ [c]) = [ns; coll]) as Hsplit.
  { intros c. unfold strings_Split. rewrite (app_assoc nsJoiner). change (nsJoiner ++ [c]) with (x24 :: [x24; c]).
    rewrite split_str_app by done. rewrite split_str_none by (done || rewrite !length_app; simpl; lia). done. }
  assert (∀ c, strings_Split ns (nsJoiner ++ [c]) = [ns]) as Hnone.
  { intros c. unfold strings_Split. change (nsJoiner ++ [c]) with (x24 :: [x24; c]). by rewrite split_str_none. }
  split_and!.
  - split; [by apply derivePvtDataNs_inj|by intros [-> ->]].
  - split; [by apply deriveHashedDataNs_inj|by intros [-> ->]].
  - by apply derive_pvt_hashed.
  - intros <-. destruct Hns'. apply derivePvtDataNs_dollar.
  - intros <-. destruct Hns'. apply deriveHashedDataNs_dollar.
  - unfold decodeHashedDataNsColl, deriveHashedDataNs. change hashDataPrefix with [x68]. by rewrite Hsplit.
  - unfold isHashedDataNs, strings_Contains, deriveHashedDataNs. change hashDataPrefix with [x68]. by rewrite Hsplit.
  - unfold isHashedDataNs, strings_Contains. change hashDataPrefix with [x68]. by rewrite Hnone.
  - unfold isPvtdataNs, strings_Contains, derivePvtDataNs. change pvtDataPrefix with [x70]. by rewrite Hsplit.
  - unfold isPvtdataNs, strings_Contains. change pvtDataPrefix with [x70]. by rewrite Hnone.
Qed.

Lemma derived_namespaces_disjoint_witness :
  decodeHashedDataNsColl (deriveHashedDataNs (B "marbles") (B "coll1")) = Ok (B "marbles", B "coll1") ∧
  derivePvtDataNs (B "marbles") (B "coll1") ≠ deriveHashedDataNs (B "cc") (B "coll1").
Proof.
  assert (x24 ∉ B "marbles" ∧ x24 ∉ B "cc" ∧ x24 ∉ B "coll1") as (H1 & H2 & H3) by (vm_compute; set_solver).
  pose proof (derived_namespaces_disjoint (B "marbles") (B "cc") (B "coll1") (B "coll1") H1 H2 H3) as H.
  split; apply H.
Defined.

Section sound.
Context {DB I L : Type} `{!VersionedDB DB I}.

(** Namespaces in which some value has metadata are in the cache. *)
Definition hint_sound (h : metadataHint L) (st : state) : Prop :=
  (∀ ns key vv, plain_ns ns → st ns !! key = Some vv → is_Some (Metadata vv) → ns ∈ mh_cache h) ∧
  (∀ ns coll key vv, plain_ns ns → x00 ∉ coll → st (deriveHashedDataNs ns coll) !! key = Some vv →
     is_Some (Metadata vv) → ns ∈ mh_cache h).

Lemma hint_sound_pub (s : PrivDB DB L) st `{!VersionedDBLaws (pdb_vdb s) st} ns key :
  hint_sound (pdb_hint s) st → plain_ns ns → GetStateMetadata s ns key = Ok (st ns !! key ≫= Metadata).
Proof.
  intros [Hs _] Hns. unfold GetStateMetadata, metadataEverUsedFor. rewrite GetState_law. run.
  destruct (st ns !! key) as [vv|] eqn:E; simpl; [|by case_bool_decide].
  case_bool_decide as Hc; [done|]. simpl. destruct (Metadata vv) eqn:Em; [|done].
  destruct Hc. eapply Hs; [done..|]. by rewrite Em.
Qed.
Lemma hint_sound_hash (s : PrivDB DB L) st `{!VersionedDBLaws (pdb_vdb s) st} ns coll key :
  hint_sound (pdb_hint s) st → plain_ns ns → x00 ∉ coll →
  GetPrivateDataMetadataByHash s ns coll key = Ok (st (deriveHashedDataNs ns coll) !! key_hash_str s key ≫= Metadata).
Proof.
  intros [_ Hs] Hns Hcoll. unfold GetPrivateDataMetadataByHash, metadataEverUsedFor, GetValueHash. rewrite GetState_law. run.
  destruct (st _ !! _) as [vv|] eqn:E; simpl; [|by case_bool_decide].
  case_bool_decide as Hc; [done|]. simpl. destruct (Metadata vv) eqn:Em; [|done].
  destruct Hc. eapply Hs; [done..|]. by rewrite Em.
Qed.

Lemma hint_sound_apply (h h' : metadataHint L) (u : PrivUpdateBatch) base64Key (st st' : state) :
  priv_batch_ok u → hint_sound h st →
  mh_cache h' = filterNamespacesThatHasMetadata
    {| PubUpdates := combined u base64Key; HashUpdates := HashUpdates u; PvtUpdates := PvtUpdates u |} ∪ mh_cache h →
  (∀ ns, x00 ∉ ns → st' ns = overlay (st ns) (UpdateBatch_GetUpdates (combined u base64Key) ns)) →
  hint_sound h' st'.
Proof.
  intros Hok [Hp Hh] Hc Hst. split.
  - intros ns key vv [Hn Hd] Hl Hm. rewrite Hst, lookup_overlay, lookup_GetUpdates in Hl by done.
    rewrite Hc, elem_of_union, elem_of_filterNamespaces; cbn.
    destruct (UpdateBatch_Get _ ns key) as [vv'|] eqn:E; simpl in Hl; [|right; by eapply Hp].
    destruct (IsDelete vv'); simplify_eq. left; left; eauto.
  - intros ns coll key vv [Hn Hd] Hcoll Hl Hm.
    rewrite Hst, lookup_overlay, lookup_GetUpdates in Hl by (by apply deriveHashedDataNs_x00).
    rewrite Hc, elem_of_union, elem_of_filterNamespaces; cbn.
    destruct (UpdateBatch_Get _ _ key) as [vv'|] eqn:E; simpl in Hl; [|right; by eapply Hh].
    destruct (IsDelete vv'); simplify_eq. left; right. pose proof Hok as (Hpub & Hhash & Hpvt).
    apply combined_inv in E; [|done]. destruct E as [E|[(ns' & coll' & E & Heq)|(ns' & coll' & k & E & Heq)]].
    + apply Hpub in E as [[_ []] _]. apply deriveHashedDataNs_dollar.
    + destruct (Hpvt _ _ _ _ E) as [[_ ?] _]. symmetry in Heq. by apply derive_pvt_hashed in Heq.
    + destruct (Hhash _ _ _ _ E) as [[_ ?] _]. apply deriveHashedDataNs_inj in Heq as [<- <-]; eauto.
Qed.

End sound.

Section correct.
Context {DB I L : Type} `{!VersionedDB DB I} `{!GoLevelDB L} `{!GoLevelDBLaws L}.
Context (Inv : DB → Prop) `{!VersionedDBApplyLaws DB I Inv}.

(** Applying a batch moves the whole state by the combined batch. *)
Lemma ApplyPrivacyAwareUpdates_state (s : PrivDB DB L) (st : state) (u : PrivUpdateBatch) (height : option Height) :
  Inv (pdb_vdb s) → VersionedDBLaws (pdb_vdb s) st → hint_wf (pdb_hint s) → hint_sound (pdb_hint s) st → priv_batch_ok u →
  (∀ h, height = Some h → Height_wf h) →
  ∃ s' st', ApplyPrivacyAwareUpdates s u height = Ok s' ∧
    Inv (pdb_vdb s') ∧ VersionedDBLaws (pdb_vdb s') st' ∧ hint_wf (pdb_hint s') ∧ hint_sound (pdb_hint s') st' ∧
    BytesKeySupported (pdb_vdb s') = BytesKeySupported (pdb_vdb s) ∧
    ∀ ns, x00 ∉ ns → st' ns = overlay (st ns) (UpdateBatch_GetUpdates (combined u (negb (BytesKeySupported (pdb_vdb s)))) ns).
Proof.
  intros Hinv Hlaws Hhint Hsound Hok Hh. set (b64 := negb (BytesKeySupported (pdb_vdb s))).
  unfold ApplyPrivacyAwareUpdates. fold b64. change (addHashedUpdates _ _ b64) with (combined u b64).
  edestruct (setMetadataUsedFlag_spec (pdb_hint s)) as (h' & -> & Hwf' & Hc); [done|]. run.
  destruct (ApplyUpdates_law (pdb_vdb s) st (combined u b64) height) as (db' & st' & -> & Hinv' & Hlaws' & Hbk & Hst');
    [done..|by apply combined_ok|done|]. run.
  pose proof (hint_sound_apply _ _ _ _ _ _ Hok Hsound Hc Hst') as Hsound'. by eexists _, st'.
Qed.

(** C23: applying a batch with private data. On a state database that answers
    from a state and applies batches as its interface promises, the call
    succeeds; afterwards every public, private and hashed read answers from the
    old state overlaid with the public, private and hashed updates, whatever
    the form of the keys the database supports; and the metadata reads that
    consult the hint first give the metadata of the stored value, so the hint
    never hides metadata, and a hint reloaded from its store is the same. *)
Theorem privacy_updates_refine (s : PrivDB DB L) (st : state) (u : PrivUpdateBatch) (height : option Height)
    (Hinv : Inv (pdb_vdb s)) (Hlaws : VersionedDBLaws (pdb_vdb s) st)
    (Hhint : hint_wf (pdb_hint s)) (Hsound : hint_sound (pdb_hint s) st)
    (Hok : priv_batch_ok u) (Hh : ∀ h, height = Some h → Height_wf h) :
  ∃ s' st', ApplyPrivacyAwareUpdates s u height = Ok s' ∧
    Inv (pdb_vdb s') ∧ VersionedDBLaws (pdb_vdb s') st' ∧ hint_wf (pdb_hint s') ∧ hint_sound (pdb_hint s') st' ∧
    newMetadataHint (mh_dbName (pdb_hint s')) (mh_bookkeeper (pdb_hint s')) = Ok (pdb_hint s') ∧
    (∀ ns key, plain_ns ns →
       let now := overlay_val (st ns !! key) (UpdateBatch_Get (PubUpdates u) ns key) in
       GetState (pdb_vdb s') ns key = Ok now ∧ GetStateMetadata s' ns key = Ok (now ≫= Metadata)) ∧
    (∀ ns coll key, plain_ns ns → x00 ∉ coll →
       GetPrivateData s' ns coll key =
       Ok (overlay_val (st (derivePvtDataNs ns coll) !! key) (UpdateMap_Get (PvtUpdates u) ns coll key))) ∧
    (∀ ns coll keyHash, plain_ns ns → x00 ∉ coll →
       let now := overlay_val (st (deriveHashedDataNs ns coll) !! key_hash_str s keyHash)
                    (UpdateMap_Get (HashUpdates u) ns coll keyHash) in
       GetValueHash s' ns coll keyHash = Ok now ∧
       GetPrivateDataMetadataByHash s' ns coll keyHash = Ok (now ≫= Metadata)).
Proof.
  destruct (ApplyPrivacyAwareUpdates_state s st u height) as (s' & st' & Hs' & Hinv' & Hl & Hwf' & Hsound' & Hbk & Hst'); [done..|].
  assert (∀ k, key_hash_str s k = key_hash_str s' k) as Hks by (intros k; unfold key_hash_str; by rewrite Hbk).
  exists s', st'. split_and!; [done..| | | |].
  - destruct Hwf' as [Hx Hcache]. rewrite newMetadataHint_spec by done. cbn in *. rewrite <-Hcache. by destruct (pdb_hint s').
  - intros ns key Hns. rewrite GetState_law, (hint_sound_pub s' st') by done. destruct Hns.
    by rewrite Hst', lookup_overlay, lookup_GetUpdates, combined_pub by done.
  - intros ns coll key Hns Hcoll. unfold GetPrivateData. rewrite GetState_law, Hst' by (by apply derivePvtDataNs_x00; [apply Hns|]).
    by rewrite lookup_overlay, lookup_GetUpdates, combined_pvt.
  - intros ns coll key Hns Hcoll. unfold GetValueHash. rewrite GetState_law, (hint_sound_hash s' st') by done.
    rewrite Hst' by (by apply deriveHashedDataNs_x00; [apply Hns|]). rewrite <-!Hks.
    assert (key_hash_str s key = if negb (BytesKeySupported (pdb_vdb s)) then base64_EncodeToString key else key) as ->
      by (unfold key_hash_str; by destruct (BytesKeySupported (pdb_vdb s))).
    by rewrite lookup_overlay, lookup_GetUpdates, combined_hash.
Qed.
End correct.

(** The premises hold for a fresh LevelDB state database. *)
#[local] Instance sample_priv_codec : ProtoMessage DBValue := countable_norm_proto DBValue DBValue_norm.
#[local] Instance sample_priv_laws : ProtoNormalizes DBValue DBValue_norm := countable_norm_proto_laws _ _.
#[local] Instance sample_priv_sha : Sha256 := λ x, x.

Definition sample_priv_vdb : versionedDB (gmap bytes bytes) := {| vdb_db := ∅; vdb_dbName := B "ch1" |}.
Definition sample_priv_db : PrivDB (versionedDB (gmap bytes bytes)) (gmap bytes bytes) :=
  {| pdb_vdb := sample_priv_vdb; pdb_hint := {| mh_cache := ∅; mh_bookkeeper := ∅; mh_dbName := B "ch1" |} |}.
Definition sample_priv_vv : VersionedValue :=
  {| Value := Some (B "vh"); Metadata := Some (B "m"); vv_Version := Some (NewHeight 7 3) |}.
Definition sample_priv_updates : PrivUpdateBatch :=
  {| PubUpdates := UpdateBatch_Delete NewUpdateBatch (B "cc") (B "k") (Some (NewHeight 7 3));
     HashUpdates := {[B "cc" := UpdateBatch_Update NewUpdateBatch (B "coll") (B "kh") sample_priv_vv]};
     PvtUpdates := ∅ |}.

Lemma sample_priv_empty ns : state_of (store sample_priv_vdb) ns = ∅.
Proof. apply map_eq. intros key. rewrite lookup_state_of. unfold store. by rewrite lookup_view. Qed.

#[export] Instance sample_priv_db_laws : VersionedDBLaws (pdb_vdb sample_priv_db) (λ _, ∅).
Proof.
  assert (x00 ∉ B "ch1") as Hch by (vm_compute; set_solver).
  assert (VersionedDBLaws sample_priv_vdb (state_of (store sample_priv_vdb))) as Hl.
  { apply stateleveldb_laws; [done|]. intros ns key b Hb. unfold store in Hb. by rewrite lookup_view in Hb. }
  split; intros *.
  - change (pdb_vdb sample_priv_db) with sample_priv_vdb. by rewrite GetState_law, sample_priv_empty.
  - change (pdb_vdb sample_priv_db) with sample_priv_vdb. by rewrite GetVersion_law, sample_priv_empty.
  - intros Hns. destruct (RangeScan_law (st := state_of (store sample_priv_vdb)) ns s e Hns) as (itr & Hi & Hd).
    exists itr. rewrite sample_priv_empty in Hd. by split.
  - intros ns key vv. by rewrite lookup_empty.
Qed.
Lemma sample_hint_sound : hint_sound (pdb_hint sample_priv_db) (λ _, ∅).
Proof. split; [intros ns key vv _ H _; discriminate H|intros ns coll key vv _ _ H _; discriminate H]. Qed.

Lemma sample_priv_ok : priv_batch_ok sample_priv_updates.
Proof.
  assert (Height_wf (NewHeight 7 3)) as Hwf7 by (split; vm_compute; by split).
  assert (plain_ns (B "cc")) as Hcc by (split; vm_compute; set_solver).
  assert (x00 ∉ B "coll") as Hcoll by (vm_compute; set_solver).
  split_and!.
  - intros ns key vv. cbn [PubUpdates sample_priv_updates]. rewrite Get_Delete. destruct (decide _) as [[-> ->]|]; [|done].
    intros [= <-]. split; [done|]. split; [done|]. by eexists.
  - intros ns coll key vv. unfold UpdateMap_Get. cbn [HashUpdates sample_priv_updates].
    destruct (decide (ns = B "cc")) as [->|]; [rewrite lookup_singleton_eq|by rewrite lookup_singleton_ne].
    rewrite Get_Update. destruct (decide _) as [[-> ->]|]; [|done].
    intros [= <-]. split_and!; [done..|]. split; [done|]. by eexists.
  - intros ns coll key vv. unfold UpdateMap_Get. cbn [PvtUpdates sample_priv_updates]. by rewrite lookup_empty.
Qed.

Lemma privacy_updates_refine_witness :
  ∃ s', ApplyPrivacyAwareUpdates sample_priv_db sample_priv_updates (Some (NewHeight 7 3)) = Ok s' ∧
    GetPrivateDataMetadataByHash s' (B "cc") (B "coll") (B "kh") = Ok (Some (B "m")).
Proof.
  assert (plain_ns (B "cc")) as Hcc by (split; vm_compute; set_solver).
  assert (x00 ∉ B "coll") as Hcoll by (vm_compute; set_solver).
  assert (x00 ∉ B "ch1") as Hch by (vm_compute; set_solver).
  assert (store_wf (store sample_priv_vdb)) as Hwf.
  { intros ns key b Hb. unfold store in Hb. rewrite lookup_view in Hb. done. }
  destruct (privacy_updates_refine (λ vdb, x00 ∉ vdb_dbName vdb ∧ store_wf (store vdb)) sample_priv_db
    (state_of (store sample_priv_vdb)) sample_priv_updates (Some (NewHeight 7 3)))
    as (s' & st' & Hs' & _ & _ & _ & _ & _ & _ & _ & Hhash).
  - by split.
  - by apply stateleveldb_laws.
  - split; [done|]. symmetry. apply dom_empty_iff_L. apply map_empty. intros k. by rewrite lookup_view.
  - split; intros *; rewrite sample_priv_empty, lookup_empty; by intros.
  - apply sample_priv_ok.
  - intros h [= <-]. split; vm_compute; by split.
  - exists s'. split; [exact Hs'|]. destruct (Hhash (B "cc") (B "coll") (B "kh") Hcc Hcoll) as [_ Hm].
    rewrite sample_priv_empty in Hm. exact Hm.
Defined.
