(* ===== verification/CombinedIterator.v ===== *)
(** * The combined iterator

  Models core/ledger/kvledger/txmgmt/validation/combined_iterator.go: a range
  scan over the committed state with the updates of the preceding
  transactions of the block on top of it. [Next] calls itself to skip a
  deleted key; its recursion is bounded by a number of steps, and running out
  of them is [Panic]. *)

From S2P Require Import Prelude SortedMap Version StateDB.
From stdpp Require Import options.
Local Open Scope nat_scope.
Set Default Proof Using "Type*".

Record combinedIterator (DB I : Type) := {
  ci_ns : bytes;
  ci_db : DB;
  ci_updates : UpdateBatch;
  ci_endKey : bytes;
  ci_includeEndKey : bool;
  ci_dbItr : I;
  ci_updatesItr : nsIterator;
  ci_dbItem : option VersionedKV;
  ci_updatesItem : option VersionedKV;
  ci_endKeyServed : bool
}.
Arguments ci_ns {DB I} c : rename.
Arguments ci_db {DB I} c : rename.
Arguments ci_updates {DB I} c : rename.
Arguments ci_endKey {DB I} c : rename.
Arguments ci_includeEndKey {DB I} c : rename.
Arguments ci_dbItr {DB I} c : rename.
Arguments ci_updatesItr {DB I} c : rename.
Arguments ci_dbItem {DB I} c : rename.
Arguments ci_updatesItem {DB I} c : rename.
Arguments ci_endKeyServed {DB I} c : rename.

Definition compareKeys (item1 item2 : option VersionedKV) : comparison :=
  match item1, item2 with
  | None, None => Eq
  | None, Some _ => Gt
  | Some _, None => Lt
  | Some item1, Some item2 => bytes_compare (Key item1) (Key item2)
  end.

Definition isDelete (item : VersionedKV) : bool := bool_decide (Value item = None).

Section combined.
Context {DB I : Type} `{!VersionedDB DB I}.
Notation iter := (combinedIterator DB I).

Definition set_dbItem (c : iter) (dbItem : option VersionedKV) (dbItr : I) : iter :=
  {| ci_ns := ci_ns c; ci_db := ci_db c; ci_updates := ci_updates c; ci_endKey := ci_endKey c;
     ci_includeEndKey := ci_includeEndKey c; ci_dbItr := dbItr; ci_updatesItr := ci_updatesItr c;
     ci_dbItem := dbItem; ci_updatesItem := ci_updatesItem c; ci_endKeyServed := ci_endKeyServed c |}.
Definition set_updatesItem (c : iter) (updatesItem : option VersionedKV) (updatesItr : nsIterator) : iter :=
  {| ci_ns := ci_ns c; ci_db := ci_db c; ci_updates := ci_updates c; ci_endKey := ci_endKey c;
     ci_includeEndKey := ci_includeEndKey c; ci_dbItr := ci_dbItr c; ci_updatesItr := updatesItr;
     ci_dbItem := ci_dbItem c; ci_updatesItem := updatesItem; ci_endKeyServed := ci_endKeyServed c |}.
Definition set_endKeyServed (c : iter) : iter :=
  {| ci_ns := ci_ns c; ci_db := ci_db c; ci_updates := ci_updates c; ci_endKey := ci_endKey c;
     ci_includeEndKey := ci_includeEndKey c; ci_dbItr := ci_dbItr c; ci_updatesItr := ci_updatesItr c;
     ci_dbItem := ci_dbItem c; ci_updatesItem := ci_updatesItem c; ci_endKeyServed := true |}.

Definition newCombinedIterator (db : DB) (updates : UpdateBatch) (ns startKey endKey : bytes)
    (includeEndKey : bool) : res iter :=
  dbItr ← GetStateRangeScanIterator db ns startKey endKey;
  let updatesItr := UpdateBatch_GetRangeScanIterator updates ns startKey endKey in
  '(dbItem, dbItr) ← Next dbItr;
  '(updatesItem, updatesItr) ← Next updatesItr;
  Ok {| ci_ns := ns; ci_db := db; ci_updates := updates; ci_endKey := endKey; ci_includeEndKey := includeEndKey;
        ci_dbItr := dbItr; ci_updatesItr := updatesItr; ci_dbItem := dbItem; ci_updatesItem := updatesItem;
        ci_endKeyServed := false |}.

(** The item served for the end key carries no metadata. *)
Definition serveEndKeyIfNeeded (itr : iter) : res (option VersionedKV * iter) :=
  if negb (ci_includeEndKey itr) || ci_endKeyServed itr then Ok (None, itr)
  else
    vv ← match UpdateBatch_Get (ci_updates itr) (ci_ns itr) (ci_endKey itr) with
         | Some vv => Ok (Some vv)
         | None => GetState (ci_db itr) (ci_ns itr) (ci_endKey itr)
         end;
    let itr := set_endKeyServed itr in
    match vv with
    | None => Ok (None, itr)
    | Some vv =>
        let vkv := {| kv_key := {| Namespace := ci_ns itr; Key := ci_endKey itr |};
                      kv_val := {| Value := Value vv; Metadata := None; vv_Version := vv_Version vv |} |} in
        if isDelete vkv then Ok (None, itr) else Ok (Some vkv, itr)
    end.

Fixpoint combinedIterator_Next (fuel : nat) (itr : iter) : res (option VersionedKV * iter) :=
  match fuel with
  | O => Panic
  | S fuel =>
      match ci_dbItem itr, ci_updatesItem itr with
      | None, None => serveEndKeyIfNeeded itr
      | _, _ =>
          let '(selectedItem, moveDBItr, moveUpdatesItr) :=
            match compareKeys (ci_dbItem itr) (ci_updatesItem itr) with
            | Lt => (ci_dbItem itr, true, false)
            | Eq => (ci_updatesItem itr, true, true)
            | Gt => (ci_updatesItem itr, false, true)
            end in
          itr ← (if moveDBItr : bool
                 then '(item, dbItr) ← Next (ci_dbItr itr); Ok (set_dbItem itr item dbItr) else Ok itr);
          itr ← (if moveUpdatesItr : bool
                 then '(item, updatesItr) ← Next (ci_updatesItr itr); Ok (set_updatesItem itr item updatesItr) else Ok itr);
          selectedItem ← deref selectedItem;
          if isDelete selectedItem then combinedIterator_Next fuel itr else Ok (Some selectedItem, itr)
      end
  end.

(** The iterator as a [ResultsIterator], for a given bound on the recursion. *)
Definition combinedIterator_itr (fuel : nat) : ResultsIterator iter := combinedIterator_Next fuel.
End combined.

(** ** Correctness *)

Lemma elem_of_omap_assoc {A} (l : list (bytes * A)) k : k ∈ l.*1 ↔ ∃ v, (k, v) ∈ l.
Proof. rewrite list_elem_of_fmap. split; [intros ([? v] & -> & ?); eauto|intros [v ?]; by exists (k, v)]. Qed.

(** The bindings of two sorted lists, the second on top of the first. *)
Definition on_top (l1 l2 : list (bytes * VersionedValue)) (p : bytes * VersionedValue) : Prop :=
  (p ∈ l2 ∧ IsDelete p.2 = false) ∨ (p ∈ l1 ∧ p.1 ∉ l2.*1).

Lemma ssorted_head {A} (p : bytes * A) L :
  StronglySorted key_lt L → p ∈ L → (∀ q, q ∈ L → q = p ∨ key_lt p q) → ∃ L', L = p :: L'.
Proof.
  destruct 1 as [|q L HL Hq]; [by intros ?%not_elem_of_nil|]. intros Hin Hmin.
  destruct (Hmin q) as [->|Hlt]; [by left|eauto|]. apply elem_of_cons in Hin as [->|Hin]; [eauto|].
  rewrite Forall_forall in Hq. specialize (Hq _ Hin). exfalso. apply (bytes_lt_irrefl p.1).
  unfold key_lt in *. eauto using bytes_lt_trans.
Qed.

Lemma on_top_bound l1 l2 b :
  Forall (λ q, bytes_lt b q.1) l1 → Forall (λ q, bytes_lt b q.1) l2 → ∀ q, on_top l1 l2 q → bytes_lt b q.1.
Proof. rewrite !Forall_forall. intros H1 H2 q [[? _]|[? _]]; auto. Qed.

Lemma not_in_keys {A} b (l : list (bytes * A)) : Forall (λ q, bytes_lt b q.1) l → b ∉ l.*1.
Proof. rewrite Forall_forall. intros Hl [v Hv]%elem_of_omap_assoc. by apply Hl, bytes_lt_irrefl in Hv. Qed.

(** The first item of the lists is the first item of one of them. *)
Lemma on_top_left p l1 l2 :
  Forall (λ q, bytes_lt p.1 q.1) l2 → IsDelete p.2 = false →
  ∀ q, on_top (p :: l1) l2 q ↔ (q = p ∧ IsDelete p.2 = false) ∨ on_top l1 l2 q.
Proof.
  intros H2%not_in_keys Hd q. unfold on_top. rewrite elem_of_cons. split.
  - intros [?|[[->|?] ?]]; naive_solver.
  - intros [[-> _]|[?|[? ?]]]; naive_solver.
Qed.
Lemma on_top_right p l1 l2 :
  Forall (λ q, bytes_lt p.1 q.1) l1 →
  ∀ q, on_top l1 (p :: l2) q ↔ (q = p ∧ IsDelete p.2 = false) ∨ on_top l1 l2 q.
Proof.
  intros H1%not_in_keys q. unfold on_top. rewrite elem_of_cons, fmap_cons, not_elem_of_cons. split.
  - intros [[[->|?] ?]|[? [? ?]]]; naive_solver.
  - intros [[-> ?]|[[? ?]|[? ?]]]; [naive_solver..|]. right. split_and!; [done| |done].
    intros E. apply H1, elem_of_omap_assoc. destruct q as [k v]. exists v. simpl in E. by subst.
Qed.
Lemma on_top_both p0 p l1 l2 :
  p0.1 = p.1 → Forall (λ q, bytes_lt p.1 q.1) l1 →
  ∀ q, on_top (p0 :: l1) (p :: l2) q ↔ (q = p ∧ IsDelete p.2 = false) ∨ on_top l1 l2 q.
Proof.
  intros E H1 q. rewrite <-on_top_right by done. unfold on_top. split.
  - intros [?|[[Hq|?]%elem_of_cons Hn]]; [by left| |by right]. subst q. destruct Hn. rewrite E. by left.
  - intros [?|[? ?]]; [by left|]. right. split; [by right|done].
Qed.

Lemma ssorted_bound {A} (p : bytes * A) l : StronglySorted key_lt (p :: l) → StronglySorted key_lt l ∧ Forall (λ q, bytes_lt p.1 q.1) l.
Proof. by inversion 1. Qed.
Lemma ssorted_below {A} b (p : bytes * A) l :
  bytes_lt b p.1 → StronglySorted key_lt (p :: l) → Forall (λ q, bytes_lt b q.1) (p :: l).
Proof.
  intros Hb [_ Hl]%ssorted_bound. constructor; [done|]. eapply Forall_impl; [done|]. eauto using bytes_lt_trans.
Qed.

Section correct.
Context {DB I : Type} `{!VersionedDB DB I} (ns : bytes).
Notation iter := (combinedIterator DB I).

(** What the end key adds to the results. *)
Definition end_item (includeEndKey : bool) (endKey : bytes) (now : option VersionedValue) : list VersionedKV :=
  if includeEndKey then
    match now with
    | Some vv => [{| kv_key := {| Namespace := ns; Key := endKey |};
                     kv_val := {| Value := Value vv; Metadata := None; vv_Version := vv_Version vv |} |}]
    | None => []
    end
  else [].

Definition item_inv {J} `{!ResultsIterator J} (item : option VersionedKV) (itr : J) (l : list (bytes * VersionedValue)) : Prop :=
  match l with
  | [] => item = None
  | p :: l => item = Some (to_kv ns p) ∧ Drains itr (to_kv ns <$> l)
  end.

Lemma item_inv_Next {J} `{!ResultsIterator J} (itr : J) l :
  Drains itr (to_kv ns <$> l) → ∃ item itr', Next itr = Ok (item, itr') ∧ item_inv item itr' l.
Proof. destruct l as [|p l]; inversion 1; simplify_eq; eexists _, _; split; done || by split. Qed.

Definition ci_inv (c : iter) (l1 l2 : list (bytes * VersionedValue)) : Prop :=
  ci_ns c = ns ∧ ci_endKeyServed c = false ∧
  item_inv (ci_dbItem c) (ci_dbItr c) l1 ∧ item_inv (ci_updatesItem c) (ci_updatesItr c) l2.
Definition same_query (c c' : iter) : Prop :=
  ci_db c' = ci_db c ∧ ci_updates c' = ci_updates c ∧ ci_endKey c' = ci_endKey c ∧ ci_includeEndKey c' = ci_includeEndKey c.

(** One step on a non-empty pair of lists: an item is selected and the lists it
    came from advance. *)
Definition step_to fuel c l1 l2 p l1' l2' : Prop :=
  ∃ c', ci_inv c' l1' l2' ∧ same_query c c' ∧
    combinedIterator_Next (S fuel) c =
      (if IsDelete p.2 then combinedIterator_Next fuel c' else Ok (Some (to_kv ns p), c')) ∧
    (∀ q, on_top l1 l2 q ↔ (q = p ∧ IsDelete p.2 = false) ∨ on_top l1' l2' q) ∧
    Forall (λ q, bytes_lt p.1 q.1) l1' ∧ Forall (λ q, bytes_lt p.1 q.1) l2'.

Lemma step_db fuel c p l1 l2 :
  ci_inv c (p :: l1) l2 → StronglySorted key_lt (p :: l1) → IsDelete p.2 = false →
  Forall (λ q, bytes_lt p.1 q.1) l2 → step_to fuel c (p :: l1) l2 p l1 l2.
Proof.
  intros (Hns & Hserved & [H1 Hd] & H2) [Hs Hb]%ssorted_bound Hnd Hl2.
  destruct (item_inv_Next _ _ Hd) as (item & itr' & HN & Hitem).
  exists (set_dbItem c item itr'). split_and!; [by split_and!|done| |by apply on_top_left|done|done].
  cbn [combinedIterator_Next]. rewrite H1. cbn [ci_dbItem].
  assert (compareKeys (Some (to_kv ns p)) (ci_updatesItem c) = Lt) as ->.
  { destruct l2 as [|p2 l2]; simpl in H2; [by rewrite H2|]. destruct H2 as [-> _]. by inversion Hl2. }
  cbv iota beta zeta. rewrite HN. run. unfold deref. run. done.
Qed.
Lemma step_updates fuel c p l1 l2 :
  ci_inv c l1 (p :: l2) → StronglySorted key_lt (p :: l2) →
  Forall (λ q, bytes_lt p.1 q.1) l1 → step_to fuel c l1 (p :: l2) p l1 l2.
Proof.
  intros (Hns & Hserved & H1 & [H2 Hd]) [Hs Hb]%ssorted_bound Hl1.
  destruct (item_inv_Next _ _ Hd) as (item & itr' & HN & Hitem).
  exists (set_updatesItem c item itr'). split_and!; [by split_and!|done| |by apply on_top_right|done|done].
  cbn [combinedIterator_Next]. rewrite H2.
  assert (compareKeys (ci_dbItem c) (Some (to_kv ns p)) = Gt) as ->.
  { destruct l1 as [|p1 l1]; simpl in H1; [by rewrite H1|]. destruct H1 as [-> _]. simpl.
    apply bytes_lt_gt. by inversion Hl1. }
  cbv iota beta zeta. run. rewrite HN. unfold deref. run. by destruct (ci_dbItem c).
Qed.
Lemma step_both fuel c p0 p l1 l2 :
  ci_inv c (p0 :: l1) (p :: l2) → StronglySorted key_lt (p0 :: l1) → StronglySorted key_lt (p :: l2) →
  p0.1 = p.1 → step_to fuel c (p0 :: l1) (p :: l2) p l1 l2.
Proof.
  intros (Hns & Hserved & [H1 Hd1] & [H2 Hd2]) [Hs1 Hb1]%ssorted_bound [Hs2 Hb2]%ssorted_bound E. rewrite E in Hb1.
  destruct (item_inv_Next _ _ Hd1) as (item1 & itr1 & HN1 & Hitem1).
  destruct (item_inv_Next _ _ Hd2) as (item2 & itr2 & HN2 & Hitem2).
  exists (set_updatesItem (set_dbItem c item1 itr1) item2 itr2).
  split_and!; [by split_and!|done| |by apply on_top_both|done|done].
  cbn [combinedIterator_Next]. rewrite H1, H2. simpl. rewrite E, bytes_compare_refl.
  cbv iota beta zeta. rewrite HN1. run. cbn [ci_updatesItr set_dbItem]. rewrite HN2. by run.
Qed.

Lemma Next_step fuel c l1 l2 :
  ci_inv c l1 l2 → l1 ≠ [] ∨ l2 ≠ [] → StronglySorted key_lt l1 → StronglySorted key_lt l2 →
  Forall (λ p, IsDelete p.2 = false) l1 →
  ∃ p l1' l2', step_to fuel c l1 l2 p l1' l2' ∧ length l1' + length l2' < length l1 + length l2 ∧
    StronglySorted key_lt l1' ∧ StronglySorted key_lt l2' ∧ Forall (λ p, IsDelete p.2 = false) l1'.
Proof.
  intros Hinv Hne Hs1 Hs2 Hnd. destruct l1 as [|p1 l1], l2 as [|p2 l2]; [by destruct Hne| | |].
  - exists p2, [], l2. split_and!; [by apply step_updates|simpl; lia|done|by apply ssorted_bound in Hs2 as []|done].
  - exists p1, l1, []. inversion Hnd. split_and!; [by apply step_db|simpl; lia|by apply ssorted_bound in Hs1 as []|done|done].
  - inversion Hnd. pose proof (ssorted_bound _ _ Hs1) as [? _]. pose proof (ssorted_bound _ _ Hs2) as [? _].
    destruct (bytes_lt_total p1.1 p2.1) as [Hlt|[Heq|Hlt]].
    + exists p1, l1, (p2 :: l2). split_and!; [|simpl; lia|done..]. apply step_db; [done..|by apply ssorted_below].
    + exists p2, l1, l2. split_and!; [by apply step_both|simpl; lia|done..].
    + exists p2, (p1 :: l1), l2. split_and!; [|simpl; lia|done..]. apply step_updates; [done..|by apply ssorted_below].
Qed.

Lemma drained fuel c : ci_dbItem c = None → ci_updatesItem c = None → ci_endKeyServed c = true →
  Drains (ResultsIterator0 := combinedIterator_itr (S fuel)) c [].
Proof.
  intros H1 H2 H3. eapply Drains_nil. unfold Next, combinedIterator_itr. cbn [combinedIterator_Next].
  rewrite H1, H2. unfold serveEndKeyIfNeeded. by rewrite H3, orb_true_r.
Qed.

(** The rest of an iteration whose lists are exhausted. *)
Lemma serve_drains fuel c (st : state) `{!VersionedDBLaws (ci_db c) st} :
  ci_inv c [] [] →
  Drains (ResultsIterator0 := combinedIterator_itr (S fuel)) c
    (end_item (ci_includeEndKey c) (ci_endKey c)
       (overlay_val (st ns !! ci_endKey c) (UpdateBatch_Get (ci_updates c) ns (ci_endKey c)))).
Proof.
  intros (Hns & Hserved & H1 & H2). cbn in H1, H2.
  assert (∀ r, serveEndKeyIfNeeded c = r → Next (ResultsIterator := combinedIterator_itr (S fuel)) c = r) as HN.
  { intros r <-. unfold Next, combinedIterator_itr. cbn [combinedIterator_Next]. by rewrite H1, H2. }
  unfold serveEndKeyIfNeeded in HN. rewrite Hserved, orb_false_r in HN. unfold end_item.
  destruct (ci_includeEndKey c); simpl in HN; [|by eapply Drains_nil, HN].
  rewrite Hns, GetState_law in HN.
  assert (∀ vv, st ns !! ci_endKey c = Some vv → IsDelete vv = false) as Hdel by (intros vv; apply no_delete_law).
  unfold overlay_val, IsDelete in *.
  destruct (UpdateBatch_Get (ci_updates c) ns (ci_endKey c)) as [vv|]; simpl in HN.
  - unfold isDelete in HN; simpl in HN. case_bool_decide; [by eapply Drains_nil, HN|].
    eapply Drains_cons; [by apply HN|]. by apply drained.
  - destruct (st ns !! ci_endKey c) as [vv|]; [|by eapply Drains_nil, HN].
    unfold isDelete in HN; simpl in HN. rewrite (Hdel vv) in HN by done.
    eapply Drains_cons; [by apply HN|]. by apply drained.
Qed.

(** What [Next] returns, given the list of the items still to come. *)
Lemma Next_spec m c l1 l2 L :
  length l1 + length l2 ≤ m → ci_inv c l1 l2 →
  StronglySorted key_lt l1 → StronglySorted key_lt l2 → Forall (λ p, IsDelete p.2 = false) l1 →
  StronglySorted key_lt L → (∀ q, q ∈ L ↔ on_top l1 l2 q) →
  match L with
  | [] => ∃ c', ci_inv c' [] [] ∧ same_query c c' ∧ combinedIterator_Next (S m) c = serveEndKeyIfNeeded c'
  | p :: L' => ∃ c' l1' l2', ci_inv c' l1' l2' ∧ same_query c c' ∧ length l1' + length l2' ≤ length l1 + length l2 ∧
      StronglySorted key_lt l1' ∧ StronglySorted key_lt l2' ∧ Forall (λ p, IsDelete p.2 = false) l1' ∧
      combinedIterator_Next (S m) c = Ok (Some (to_kv ns p), c') ∧ (∀ q, q ∈ L' ↔ on_top l1' l2' q)
  end.
Proof.
  revert c l1 l2. induction m as [|m IH]; intros c l1 l2 Hlen Hinv Hs1 Hs2 Hnd HsL HL;
    (destruct (decide (l1 = [] ∧ l2 = [])) as [[-> ->]|Hne]; [destruct L as [|p L];
      [|by destruct (proj1 (HL p) ltac:(left)) as [[?%not_elem_of_nil _]|[?%not_elem_of_nil _]]];
      exists c; split_and!; [done..|]; destruct Hinv as (_ & _ & H1 & H2); cbn in H1, H2;
      cbn [combinedIterator_Next]; by rewrite H1, H2|]).
  { destruct l1, l2; simpl in *; naive_solver lia. }
  destruct (Next_step (S m) c l1 l2) as (p & l1' & l2' & Hstep & Hlt & Hs1' & Hs2' & Hnd'); [done| |done..|].
  { destruct l1, l2; naive_solver. }
  destruct Hstep as (c' & Hinv' & Hsq & HN & Hon & Hb1 & Hb2).
  destruct (IsDelete p.2) eqn:Hdel.
  - specialize (IH c' l1' l2' ltac:(lia) Hinv' Hs1' Hs2' Hnd' HsL).
    destruct Hsq as (? & ? & ? & ?).
    destruct L as [|p0 L]; rewrite HN.
    + destruct IH as (c'' & ? & (? & ? & ? & ?) & ?); [intros q; rewrite HL, Hon; naive_solver|].
      exists c''. split_and!; [done|split_and!; congruence|done].
    + destruct IH as (c'' & l1'' & l2'' & ? & (? & ? & ? & ?) & ? & ? & ? & ? & ? & ?); [intros q; rewrite HL, Hon; naive_solver|].
      exists c'', l1'', l2''. split_and!; [done|split_and!; congruence|lia|done..].
  - destruct (ssorted_head p L) as [L' ->]; [done|apply HL, Hon; by left| |].
    { intros q [[-> _]|Hq]%HL%Hon; [by left|right]. by apply (on_top_bound l1' l2'). }
    exists c', l1', l2'. split_and!; [done..|lia|done|done|done|done|]. intros q.
    assert (q ∈ p :: L' ↔ (q = p ∧ false = false) ∨ on_top l1' l2' q) as Hq by (by rewrite HL, Hon).
    rewrite elem_of_cons in Hq. apply ssorted_bound in HsL as [_ Hb]. rewrite Forall_forall in Hb. split.
    + intros Hin. destruct (proj1 Hq (or_intror Hin)) as [[-> _]|]; [|done]. by apply Hb, bytes_lt_irrefl in Hin.
    + intros Hin. destruct (proj2 Hq (or_intror Hin)) as [->|]; [|done].
      by apply (on_top_bound _ _ p.1) in Hin as []%bytes_lt_irrefl.
Qed.

Lemma Drains_same fuel c c' X :
  combinedIterator_Next fuel c = combinedIterator_Next fuel c' →
  Drains (ResultsIterator0 := combinedIterator_itr fuel) c' X → Drains (ResultsIterator0 := combinedIterator_itr fuel) c X.
Proof. intros E. inversion 1; simplify_eq; [eapply Drains_nil|eapply Drains_cons; [|done]]; unfold Next, combinedIterator_itr; by rewrite E. Qed.

Lemma combined_drains fuel c l1 l2 L (st : state) `{!VersionedDBLaws (ci_db c) st} :
  length l1 + length l2 ≤ fuel → ci_inv c l1 l2 →
  StronglySorted key_lt l1 → StronglySorted key_lt l2 → Forall (λ p, IsDelete p.2 = false) l1 →
  StronglySorted key_lt L → (∀ q, q ∈ L ↔ on_top l1 l2 q) →
  Drains (ResultsIterator0 := combinedIterator_itr (S fuel)) c
    ((to_kv ns <$> L) ++ end_item (ci_includeEndKey c) (ci_endKey c)
       (overlay_val (st ns !! ci_endKey c) (UpdateBatch_Get (ci_updates c) ns (ci_endKey c)))).
Proof.
  revert c l1 l2 VersionedDBLaws0. induction L as [|p L IH]; intros c l1 l2 Hdb Hlen Hinv Hs1 Hs2 Hnd HsL HL.
  - destruct (Next_spec fuel c l1 l2 [] Hlen Hinv Hs1 Hs2 Hnd HsL HL) as (c' & Hinv' & (Hd & Hu & He & Hi) & HN).
    rewrite <-Hd in Hdb. apply (Drains_same _ _ c').
    { rewrite HN. cbn [combinedIterator_Next]. by destruct Hinv' as (_ & _ & -> & ->). }
    rewrite <-Hu, <-He, <-Hi. by apply serve_drains.
  - destruct (Next_spec fuel c l1 l2 (p :: L) Hlen Hinv Hs1 Hs2 Hnd HsL HL)
      as (c' & l1' & l2' & Hinv' & (Hd & Hu & He & Hi) & Hlen' & Hs1' & Hs2' & Hnd' & HN & HL').
    rewrite fmap_cons. eapply Drains_cons; [exact HN|]. rewrite <-Hu, <-He, <-Hi. rewrite <-Hd in Hdb.
    apply (IH c' l1' l2'); [done|lia|done..|by apply ssorted_bound in HsL as []|done].
Qed.

(** The iterator of a range query returns the range of the state with the
    updates applied, and the end key when it is asked for. *)
Lemma newCombinedIterator_drains fuel db updates startKey endKey includeEndKey (st : state) `{!VersionedDBLaws db st} :
  x00 ∉ ns →
  length (range_kvs (st ns) startKey endKey) + length (range_kvs (UpdateBatch_GetUpdates updates ns) startKey endKey) < fuel →
  ∃ c, newCombinedIterator db updates ns startKey endKey includeEndKey = Ok c ∧
    Drains (ResultsIterator0 := combinedIterator_itr fuel) c
      ((to_kv ns <$> range_kvs (overlay (st ns) (UpdateBatch_GetUpdates updates ns)) startKey endKey) ++
       end_item includeEndKey endKey (overlay_val (st ns !! endKey) (UpdateBatch_Get updates ns endKey))).
Proof.
  intros Hns Hfuel. destruct fuel as [|fuel]; [lia|]. unfold newCombinedIterator.
  destruct (RangeScan_law ns startKey endKey Hns) as (itr & -> & Hd). run.
  destruct (item_inv_Next _ _ Hd) as (item1 & itr1 & -> & Hi1). run.
  destruct (item_inv_Next _ _ (nsIterator_drains updates ns startKey endKey)) as (item2 & itr2 & -> & Hi2). run.
  set (c := Build_combinedIterator _ _ _ _ _ _ _ _ _ _ _ _). exists c; split; [done|].
  apply (combined_drains fuel c (range_kvs (st ns) startKey endKey)
    (range_kvs (UpdateBatch_GetUpdates updates ns) startKey endKey) (range_kvs (overlay (st ns) (UpdateBatch_GetUpdates updates ns)) startKey endKey) st);
    [lia|done|apply range_kvs_sorted..| |apply range_kvs_sorted|].
  - apply Forall_forall. intros [k vv] [Hl _]%elem_of_range_kvs. simpl. by eapply no_delete_law.
  - intros [k vv]. unfold on_top. rewrite elem_of_omap_assoc. setoid_rewrite elem_of_range_kvs.
    rewrite lookup_overlay. unfold overlay_val. cbn [fst snd].
    destruct (UpdateBatch_GetUpdates updates ns !! k) as [vv'|] eqn:E.
    + destruct (IsDelete vv') eqn:Ed; (split; [intros [? ?]; simplify_eq; by left|]).
      * intros [[[[= ->] _] ?]|[[_ ?] []]]; [congruence|eauto].
      * intros [[[[= ->] ?] _]|[[_ ?] []]]; [done|eauto].
    + split; [intros [? ?]; right; split; [done|]; by intros (? & ? & _)|by intros [[[? _] _]|[? _]]].
Qed.
End correct.
