(* ===== verification/RangeQuery.v ===== *)
(** * Phantom-read validation of range queries

  Models core/ledger/kvledger/txmgmt/validation/rangequery_validator.go: the
  results a transaction recorded for a range query, either as they are or as
  a Merkle summary, are compared with the results the query has now. The
  loop of the hash validator ends when its iterator does; the model bounds it
  by a number of rounds, and running out of them is [Panic]. *)

From S2P Require Import Prelude SortedMap Version StateDB Proto Rwset Merkle.
From stdpp Require Import options.
Local Open Scope nat_scope.
Set Default Proof Using "Type*".

Definition convertToVersionHeight (v : option ProtoVersion) : res Height :=
  v ← deref v; Ok (NewHeight (pv_BlockNum v) (pv_TxNum v)).

Definition merkleSummariesEqual (ms : QueryReadsMerkleSummary) (anotherMS : option QueryReadsMerkleSummary) : bool :=
  match anotherMS with
  | None => false
  | Some anotherMS =>
      if decide (MaxDegree ms ≠ MaxDegree anotherMS ∨ MaxLevel ms ≠ MaxLevel anotherMS ∨
                 length (MaxLevelHashes ms) ≠ length (MaxLevelHashes anotherMS)) then false
      else forallb (λ i, bool_decide (MaxLevelHashes ms !! i = MaxLevelHashes anotherMS !! i))
             (seq 0 (length (MaxLevelHashes ms)))
  end.

Section validators.
Context {I : Type} `{!ResultsIterator I}.

(** ** Comparison with the recorded results *)

Fixpoint results_loop (rqResults : list KVRead) (result : option VersionedKV) (itr : I) : res bool :=
  match rqResults with
  | [] => Ok (bool_decide (result = None))
  | kvRead :: rqResults =>
      match result with
      | None => Ok false
      | Some result =>
          if decide (Key result ≠ kvr_Key kvRead) then Ok false
          else
            v ← convertToVersionHeight (kvr_Version kvRead);
            if negb (AreSame (vv_Version result) (Some v)) then Ok false
            else '(result, itr) ← Next itr; results_loop rqResults result itr
      end
  end.
Definition rangeQueryResultsValidator_validate (rqInfo : RangeQueryInfo) (itr : I) : res bool :=
  let rqResults := GetRawReads rqInfo in
  '(result, itr) ← Next itr;
  if decide (length rqResults = 0) then Ok (bool_decide (result = None))
  else results_loop rqResults result itr.

(** ** Comparison with the Merkle summary *)

Context `{!ProtoMessage QueryReads}.

Definition rangeQueryHashValidator_init (hashFunc : HashFunc) (rqInfo : RangeQueryInfo) : res RangeQueryResultsHelper :=
  merkle ← deref (GetReadsMerkleHashes rqInfo);
  NewRangeQueryResultsHelper true (MaxDegree merkle) hashFunc.

(** [lastMatchedIndex] starts at -1; here it is one more than in the source. *)
Fixpoint hash_loop (fuel : nat) (inMerkle : QueryReadsMerkleSummary) (helper : RangeQueryResultsHelper)
    (matched : nat) (itr : I) : res bool :=
  match fuel with
  | O => Panic
  | S fuel =>
      '(result, itr) ← Next itr;
      match result with
      | None =>
          '(_, merkle) ← Helper_Done helper;
          Ok (merkleSummariesEqual inMerkle merkle)
      | Some result =>
          helper ← AddResult helper (NewKVRead (Key (kv_key result)) (vv_Version (kv_val result)));
          merkle ← GetMerkleSummary helper;
          merkle ← deref merkle;
          if (MaxLevel merkle <? MaxLevel inMerkle)%Z then hash_loop fuel inMerkle helper matched itr
          else if decide (matched = length (MaxLevelHashes merkle)) then hash_loop fuel inMerkle helper matched itr
          else if decide (length (MaxLevelHashes inMerkle) < length (MaxLevelHashes merkle)) then Ok false
          else
            h ← index (MaxLevelHashes merkle) matched;
            h' ← index (MaxLevelHashes inMerkle) matched;
            if decide (h ≠ h') then Ok false else hash_loop fuel inMerkle helper (S matched) itr
      end
  end.
Definition rangeQueryHashValidator_validate (fuel : nat) (rqInfo : RangeQueryInfo)
    (helper : RangeQueryResultsHelper) (itr : I) : res bool :=
  inMerkle ← deref (GetReadsMerkleHashes rqInfo);
  hash_loop fuel inMerkle helper 0 itr.
End validators.

(** ** Correctness *)

(** What a transaction records of a result. *)
Definition read_of_kv (kv : VersionedKV) : KVRead := NewKVRead (Key kv) (vv_Version kv).

Lemma merkleSummariesEqual_spec ms o : merkleSummariesEqual ms o = true ↔ o = Some ms.
Proof.
  destruct o as [ms'|]; simpl; [|naive_solver]. destruct ms as [d l h], ms' as [d' l' h']; simpl.
  destruct (decide _) as [Hne|Heq]; [split; [done|]; intros [= -> -> ->]; naive_solver|].
  rewrite forallb_forall. setoid_rewrite bool_decide_eq_true. setoid_rewrite in_seq.
  assert (d = d') as -> by (destruct (decide (d = d')); naive_solver).
  assert (l = l') as -> by (destruct (decide (l = l')); naive_solver).
  assert (length h = length h') as Hlen by (destruct (decide (length h = length h')); naive_solver).
  split; [|by intros [= ->]]. intros Hall. do 2 f_equal. symmetry. apply list_eq. intros i.
  destruct (decide (i < length h)); [apply Hall; lia|].
  by rewrite !lookup_ge_None_2 by lia.
Qed.

Section results.
Context {I : Type} `{!ResultsIterator I}.

(** A recorded read and a result of the query now agree. *)
Definition read_matches (r : KVRead) (kv : VersionedKV) : Prop := r = read_of_kv kv.

Lemma read_matches_iff r kv v :
  kvr_Version r = Some v →
  r = read_of_kv kv ↔ Key kv = kvr_Key r ∧ vv_Version kv = Some (NewHeight (pv_BlockNum v) (pv_TxNum v)).
Proof.
  destruct r as [k o], kv as [[ns key] [val m h]]; simpl. intros ->. unfold read_of_kv, NewKVRead, newProtoVersion; simpl.
  destruct h as [[b t]|], v as [b' t']; simpl; naive_solver.
Qed.

Lemma results_loop_spec rs l itr result :
  Forall (λ r, is_Some (kvr_Version r)) rs →
  match l with [] => result = None | kv :: l => result = Some kv ∧ Drains itr l end →
  results_loop rs result itr = Ok (bool_decide (rs = read_of_kv <$> l)).
Proof.
  intros Hv. revert l itr result. induction Hv as [|r rs [v Hv] Hrs IH]; intros l itr result Hl; simpl.
  - destruct l as [|kv l]; [by subst|]. destruct Hl as [-> _]. by rewrite !bool_decide_eq_false_2.
  - destruct l as [|kv l]; [subst; by rewrite bool_decide_eq_false_2|]. destruct Hl as [-> Hd].
    pose proof (read_matches_iff r kv v Hv) as Hm. rewrite Hv. unfold convertToVersionHeight, deref.
    destruct (decide _) as [Hk|Hk]; [rewrite bool_decide_eq_false_2; [done|]; intros [= E _]; naive_solver|]. run.
    destruct (AreSame _ _) eqn:Hs; simpl.
    + apply AreSame_spec in Hs. destruct l as [|kv' l]; inversion Hd as [? itr' Hn|? itr' ? ? Hn Hd']; simplify_eq; rewrite Hn; run.
      * rewrite (IH []) by done. f_equal. apply bool_decide_ext. split; [|by intros [= _ ->]].
        intros ->. f_equal. apply Hm. split; [|done]. by destruct (decide (Key kv = kvr_Key r)).
      * rewrite (IH (kv' :: l)) by done. f_equal. apply bool_decide_ext. split; [|by intros [= _ ->]].
        intros ->. rewrite !fmap_cons. f_equal. apply Hm. split; [|done]. by destruct (decide (Key kv = kvr_Key r)).
    + rewrite bool_decide_eq_false_2; [done|]. intros [= E _].
      destruct (proj1 Hm E) as [_ Hh]. rewrite Hh in Hs. by rewrite (proj2 (AreSame_spec _ _) eq_refl) in Hs.
Qed.

(** Recorded results that all have a version are accepted exactly when they
    are the results of the query now. *)
Lemma results_validate_spec rqi l itr :
  Forall (λ r, is_Some (kvr_Version r)) (GetRawReads rqi) → Drains itr l →
  rangeQueryResultsValidator_validate rqi itr = Ok (bool_decide (GetRawReads rqi = read_of_kv <$> l)).
Proof.
  intros Hv Hd. unfold rangeQueryResultsValidator_validate.
  assert (∃ result itr', Next itr = Ok (result, itr') ∧
    match l with [] => result = None | kv :: l => result = Some kv ∧ Drains itr' l end) as (result & itr' & -> & Hl).
  { destruct Hd; eauto 10. }
  run. destruct (GetRawReads rqi) as [|r rs] eqn:E; cbn [length]; [|rewrite decide_False by done; by apply results_loop_spec].
  rewrite decide_True by done. destruct l; [by subst|]. destruct Hl as [-> _]. by rewrite !bool_decide_eq_false_2.
Qed.
End results.

Section hashes.
Set Default Proof Using "All".
Context {I : Type} `{!ResultsIterator I} `{!ProtoMessage QueryReads} (d : nat) (hashFunc : HashFunc)
        (hashf : bytes → bytes) (ser : list KVRead → bytes).
Context (Hd : 2 ≤ d) (Hd32 : (Z.of_nat d < two32 - 1)%Z)
        (Hhash : ∀ b, hashFunc b = Ok (hashf b)) (Hser : ∀ l, serializeKVReads l = Ok (ser l)).
Notation inv := (helper_inv d hashFunc hashf ser).
Notation summary rs := (merkle_reference d hashf ser rs).2.

Lemma hash_loop_sound fuel inMerkle h rs matched itr l :
  inv h rs → Drains itr l → hash_loop fuel inMerkle h matched itr = Ok true →
  summary (rs ++ (read_of_kv <$> l)) = Some inMerkle.
Proof.
  intros Hinv Hdr. revert fuel h rs matched Hinv. induction Hdr as [itr itr' Hn|itr itr' kv l Hn Hdr IH]; intros [|fuel] h rs matched Hinv;
    cbn [hash_loop]; try done; rewrite Hn; run.
  - rewrite (Done_inv d hashFunc hashf ser Hd Hd32 Hhash Hser h rs Hinv). run. rewrite app_nil_r.
    destruct (merkle_reference _ _ _ _) as [? o]; simpl. intros [= ?%merkleSummariesEqual_spec]. done.
  - destruct (AddResult_inv d hashFunc hashf ser Hd Hd32 Hhash Hser h rs (read_of_kv kv) Hinv) as (h' & Ha & Hinv').
    unfold read_of_kv at 1 in Ha. rewrite Ha. run. intros H. inv_ok. rewrite fmap_cons, (cons_middle _ rs), app_assoc.
    repeat (case_match; inv_ok; try done); by eapply IH.
Qed.

Lemma hash_loop_complete fuel inMerkle h rs matched itr l n :
  summary (rs ++ (read_of_kv <$> l)) = Some inMerkle →
  (∀ rs1 rs2, rs ++ (read_of_kv <$> l) = rs1 ++ rs2 → up d hashf n (full_leaves d hashf ser rs1) `prefix_of` MaxLevelHashes inMerkle ∧
    ∀ h, inv h rs1 → ∃ cur, GetMerkleSummary h = Ok (Some cur) ∧
      ((MaxLevel inMerkle ≤ MaxLevel cur)%Z → MaxLevelHashes cur = up d hashf n (full_leaves d hashf ser rs1))) →
  matched ≤ length (up d hashf n (full_leaves d hashf ser rs)) →
  inv h rs → Drains itr l → length l < fuel → hash_loop fuel inMerkle h matched itr = Ok true.
Proof.
  intros Hs Hlev Hm Hinv Hdr. revert fuel h rs matched Hs Hlev Hm Hinv.
  induction Hdr as [itr itr' Hn|itr itr' kv l Hn Hdr IH]; intros [|fuel] h rs matched Hs Hlev Hm Hinv Hf;
    simpl in Hf; try lia; cbn [hash_loop]; rewrite Hn; run.
  - rewrite (Done_inv d hashFunc hashf ser Hd Hd32 Hhash Hser h rs Hinv). run. rewrite app_nil_r in Hs.
    destruct (merkle_reference _ _ _ _) as [? o]; simpl in *. f_equal. by apply merkleSummariesEqual_spec.
  - destruct (AddResult_inv d hashFunc hashf ser Hd Hd32 Hhash Hser h rs (read_of_kv kv) Hinv) as (h' & Ha & Hinv').
    unfold read_of_kv at 1 in Ha. rewrite Ha. run. rewrite fmap_cons, (cons_middle _ rs), app_assoc in Hs, Hlev.
    destruct (Hlev (rs ++ [read_of_kv kv]) _ eq_refl) as [Hpre Hcur]. destruct (Hcur h' Hinv') as (cur & -> & Hc).
    unfold deref. run.
    assert (length (up d hashf n (full_leaves d hashf ser rs)) ≤ length (up d hashf n (full_leaves d hashf ser (rs ++ [read_of_kv kv])))) as Hmono.
    { apply prefix_length, (up_prefix d hashFunc hashf Hd Hd32 Hhash), (full_leaves_prefix d hashFunc hashf ser Hd Hd32 Hhash Hser). }
    destruct (Z.ltb_spec (MaxLevel cur) (MaxLevel inMerkle)) as [|Hle]; [apply (IH fuel h' (rs ++ [read_of_kv kv])); try done; lia|].
    rewrite (Hc Hle). destruct (decide (matched = _)) as [->|Hne]; [apply (IH fuel h' (rs ++ [read_of_kv kv])); try done; lia|].
    pose proof (prefix_length _ _ Hpre). rewrite decide_False by lia.
    destruct (lookup_lt_is_Some_2 (up d hashf n (full_leaves d hashf ser (rs ++ [read_of_kv kv]))) matched) as [x Hx]; [lia|].
    unfold index. rewrite Hx, (prefix_lookup_Some _ _ _ _ Hx Hpre). run. rewrite decide_False by (by intros []).
    apply (IH fuel h' (rs ++ [read_of_kv kv])); try done; try lia.
Qed.

(** The hash validator accepts exactly the recorded summaries that are the
    summary of the results now; it never accepts or rejects another one. *)
Lemma hash_validate_spec fuel rqi inMerkle l itr :
  GetReadsMerkleHashes rqi = Some inMerkle → MaxDegree inMerkle = Z.of_nat d → Drains itr l → length l < fuel →
  ∃ h, rangeQueryHashValidator_init hashFunc rqi = Ok h ∧
    (rangeQueryHashValidator_validate fuel rqi h itr = Ok true ↔ summary (read_of_kv <$> l) = Some inMerkle).
Proof.
  intros Hin Hdeg Hdr Hf. unfold rangeQueryHashValidator_init, rangeQueryHashValidator_validate. rewrite Hin. unfold deref. run.
  rewrite Hdeg. destruct (new_helper_inv d hashFunc hashf ser Hd Hd32 Hhash Hser) as (h & -> & Hinv). exists h.
  split; [done|]. split; [by apply (hash_loop_sound fuel inMerkle h [])|]. intros Hs.
  destruct (summary_level d hashFunc hashf ser Hd Hd32 Hhash Hser _ _ Hs) as (n & Hlev).
  by apply (hash_loop_complete fuel inMerkle h [] 0 itr l n); [done|done|lia|..].
Qed.
End hashes.

(** ** An overrun of the hash validator *)

(** Items in a list, as an iterator. *)
#[export] Instance list_ResultsIterator : ResultsIterator (list VersionedKV) :=
  λ l, match l with [] => Ok (None, []) | kv :: l => Ok (Some kv, l) end.

Definition sample_kvs (n : nat) : list VersionedKV :=
  (λ r, {| kv_key := {| Namespace := B "cc"; Key := kvr_Key r |};
           kv_val := {| Value := Some []; Metadata := None; vv_Version := None |} |}) <$> sample_reads n.
Definition sample_hash : HashFunc := λ b, Ok (x07 :: b).
#[local] Instance sample_range_codec : ProtoMessage QueryReads := sample_codec.
Definition sample_rqi (s : option QueryReadsMerkleSummary) : RangeQueryInfo :=
  {| StartKey := []; EndKey := []; ItrExhausted := true; rqi_ReadsInfo := Some (ReadsMerkleHashes s) |}.

(** The hash validator can index past the end of the hashes it has built.
    A query with degree 2 recorded six results, whose summary holds two hashes
    of the lowest level; when three more keys have appeared in the range, the
    third group moves the tree of the validator up to a level with a single
    hash, while the index of the last match still counts the hashes of the
    level below. The validator panics instead of reporting a phantom read. *)
Theorem hash_validator_overrun :
  let rqi := sample_rqi (merkle_reference 2 (λ b, x07 :: b) sample_ser (read_of_kv <$> sample_kvs 6)).2 in
  match rangeQueryHashValidator_init sample_hash rqi with
  | Ok helper => rangeQueryHashValidator_validate 20 rqi helper (sample_kvs 9) = Panic
  | _ => False
  end.
Proof. vm_compute. reflexivity. Qed.
