(* ===== verification/TxOps.v ===== *)
(** * Effects of the writes of a transaction

  Models core/ledger/kvledger/txmgmt/validation/tx_ops.go and the state of
  types.go it works on: the writes and metadata writes of a transaction are
  collected per key, completed with the latest metadata or value of the key,
  and applied to the updates of the block.

  The iteration over a Go map is a fold over its bindings; every step
  concerns its own key only, so the result does not depend on the order. *)

From S2P Require Import Prelude SortedMap Version StateDB Proto Rwset LevelDB StateLevelDB PrivState.
From stdpp Require Import options.
Local Open Scope nat_scope.
Set Default Proof Using "Type*".

(** ** Keys and operations *)

Record compositeKey := { ck_ns : bytes; ck_coll : bytes; ck_key : bytes }.
#[export] Instance compositeKey_eq_dec : EqDecision compositeKey.
Proof. solve_decision. Defined.
#[export] Instance compositeKey_countable : Countable compositeKey.
Proof.
  by apply (inj_countable' (λ r, (ck_ns r, ck_coll r, ck_key r)) (λ '(a, b, c), Build_compositeKey a b c)); intros [].
Defined.

(** The flag is a [uint8]. *)
Definition upsertVal : Z := 1.
Definition metadataUpdateFlag : Z := 2.
Definition metadataDeleteFlag : Z := 4.
Definition keyDelete : Z := 8.
Record keyOps := { ko_flag : Z; ko_value : option bytes; ko_metadata : option bytes }.
Notation txOps := (gmap compositeKey keyOps).

Definition getOrCreateKeyEntry (txops : txOps) (k : compositeKey) : keyOps :=
  match txops !! k with Some keyops => keyops | None => {| ko_flag := 0; ko_value := None; ko_metadata := None |} end.
Definition flag_add (flag bit : Z) : Z := ((flag + bit) mod 256)%Z.

Definition txOps_upsert (txops : txOps) (k : compositeKey) (val : option bytes) : txOps :=
  let keyops := getOrCreateKeyEntry txops k in
  <[k := {| ko_flag := flag_add (ko_flag keyops) upsertVal; ko_value := val; ko_metadata := ko_metadata keyops |}]> txops.
Definition txOps_delete (txops : txOps) (k : compositeKey) : txOps :=
  let keyops := getOrCreateKeyEntry txops k in
  <[k := {| ko_flag := flag_add (ko_flag keyops) keyDelete; ko_value := ko_value keyops; ko_metadata := ko_metadata keyops |}]> txops.
Definition txOps_metadataUpdate (txops : txOps) (k : compositeKey) (metadata : option bytes) : txOps :=
  let keyops := getOrCreateKeyEntry txops k in
  <[k := {| ko_flag := flag_add (ko_flag keyops) metadataUpdateFlag; ko_value := ko_value keyops; ko_metadata := metadata |}]> txops.
Definition txOps_metadataDelete (txops : txOps) (k : compositeKey) : txOps :=
  let keyops := getOrCreateKeyEntry txops k in
  <[k := {| ko_flag := flag_add (ko_flag keyops) metadataDeleteFlag; ko_value := ko_value keyops; ko_metadata := ko_metadata keyops |}]> txops.

Definition keyOps_isDelete (k : keyOps) : bool := bool_decide (Z.land (ko_flag k) keyDelete = keyDelete).
Definition isUpsertAndMetadataUpdate (k : keyOps) : bool :=
  if decide (Z.land (ko_flag k) upsertVal = upsertVal)
  then bool_decide (Z.land (ko_flag k) metadataUpdateFlag = metadataUpdateFlag)
       || bool_decide (Z.land (ko_flag k) metadataDeleteFlag = metadataDeleteFlag)
  else false.
Definition isOnlyUpsert (k : keyOps) : bool := bool_decide (Z.lor (ko_flag k) upsertVal = upsertVal).

(** The updates of the preceding transactions of the block. *)
Record publicAndHashUpdates := { publicUpdates : UpdateBatch; hashUpdates : UpdateMap }.
Definition newPubAndHashUpdates : publicAndHashUpdates :=
  {| publicUpdates := NewUpdateBatch; hashUpdates := NewUpdateMap |}.

Section ops.
Context `{!ProtoMessage KVMetadataWrite}.

(** statemetadata.Serialize *)
Definition Serialize (metadataEntries : list KVMetadataEntry) : res bytes :=
  Marshal {| mw_Key := []; mw_Entries := metadataEntries |}.

Definition applyKVWrite (txops : txOps) (ns coll : bytes) (kvWrite : KVWrite) : txOps :=
  if IsKVWriteDelete kvWrite
  then txOps_delete txops {| ck_ns := ns; ck_coll := coll; ck_key := kvw_Key kvWrite |}
  else txOps_upsert txops {| ck_ns := ns; ck_coll := coll; ck_key := kvw_Key kvWrite |} (kvw_Value kvWrite).

(** Entries without an element are nil when they come out of a message. *)
Definition applyMetadata (txops : txOps) (ns coll : bytes) (metadataWrite : KVMetadataWrite) : res txOps :=
  let k := {| ck_ns := ns; ck_coll := coll; ck_key := mw_Key metadataWrite |} in
  match mw_Entries metadataWrite with
  | [] => Ok (txOps_metadataDelete txops k)
  | entries =>
      metadataBytes ← Serialize entries;
      Ok (txOps_metadataUpdate txops k (Some metadataBytes))
  end.

Definition hashed_write `{!Sha256} (hashedWrite : KVWriteHash) : KVWrite :=
  {| kvw_Key := wh_KeyHash hashedWrite; kvw_IsDelete := IsKVWriteHashDelete hashedWrite; kvw_Value := wh_ValueHash hashedWrite |}.
Definition hashed_metadata (metadataWrite : KVMetadataWriteHash) : KVMetadataWrite :=
  {| mw_Key := mwh_KeyHash metadataWrite; mw_Entries := mwh_Entries metadataWrite |}.

Definition applyTxRwset `{!Sha256} (txops : txOps) (rwset : TxRwSet) : res txOps :=
  foldM (λ txops nsRWSet,
      let ns := NameSpace nsRWSet in
      kv ← deref (KvRwSet nsRWSet);
      let txops := foldl (λ txops kvWrite, applyKVWrite txops ns [] kvWrite) txops (Writes kv) in
      txops ← foldM (λ txops kvMetadataWrite, applyMetadata txops ns [] kvMetadataWrite) txops (MetadataWrites kv);
      foldM (λ txops collHashRWset,
          let coll := ch_CollectionName collHashRWset in
          hashed ← deref (HashedRwSet collHashRWset);
          let txops := foldl (λ txops hashedWrite, applyKVWrite txops ns coll (hashed_write hashedWrite)) txops (HashedWrites hashed) in
          foldM (λ txops metadataWrite, applyMetadata txops ns coll (hashed_metadata metadataWrite)) txops (HashedMetadataWrites hashed))
        txops (CollHashedRwSets nsRWSet))
    txops (NsRwSets rwset).

Section db.
Context {DB I L : Type} `{!VersionedDB DB I} `{!Sha256}.
Notation PrivDB := (PrivDB DB L).

Definition retrieveLatestState (ns coll key : bytes) (precedingUpdates : publicAndHashUpdates) (db : PrivDB) :
    res (option VersionedValue) :=
  if decide (coll = []) then
    match UpdateBatch_Get (publicUpdates precedingUpdates) ns key with
    | Some vv => Ok (Some vv)
    | None => GetState (pdb_vdb db) ns key
    end
  else
    match UpdateMap_Get (hashUpdates precedingUpdates) ns coll key with
    | Some vv => Ok (Some vv)
    | None => GetValueHash db ns coll key
    end.

Definition retrieveLatestMetadata (ns coll key : bytes) (precedingUpdates : publicAndHashUpdates) (db : PrivDB) :
    res (option bytes) :=
  if decide (coll = []) then
    match UpdateBatch_Get (publicUpdates precedingUpdates) ns key with
    | Some vv => Ok (Metadata vv)
    | None => GetStateMetadata db ns key
    end
  else
    match UpdateMap_Get (hashUpdates precedingUpdates) ns coll key with
    | Some vv => Ok (Metadata vv)
    | None => GetPrivateDataMetadataByHash db ns coll key
    end.

(** The body of the loop of [prepareTxOps] for one key. *)
Definition prepareKey (precedingUpdates : publicAndHashUpdates) (db : PrivDB)
    (txops : txOps) (p : compositeKey * keyOps) : res txOps :=
  let '(ck, keyop) := p in
  if keyOps_isDelete keyop || isUpsertAndMetadataUpdate keyop then Ok txops
  else if isOnlyUpsert keyop then
    latestMetadata ← retrieveLatestMetadata (ck_ns ck) (ck_coll ck) (ck_key ck) precedingUpdates db;
    Ok (<[ck := {| ko_flag := ko_flag keyop; ko_value := ko_value keyop; ko_metadata := latestMetadata |}]> txops)
  else
    latestVal ← retrieveLatestState (ck_ns ck) (ck_coll ck) (ck_key ck) precedingUpdates db;
    match latestVal with
    | Some latestVal =>
        Ok (<[ck := {| ko_flag := ko_flag keyop; ko_value := Value latestVal; ko_metadata := ko_metadata keyop |}]> txops)
    | None => Ok (delete ck txops)
    end.
Definition prepareTxOps (rwset : TxRwSet) (precedingUpdates : publicAndHashUpdates) (db : PrivDB) : res txOps :=
  txops ← applyTxRwset ∅ rwset;
  foldM (prepareKey precedingUpdates db) txops (map_to_list txops).

(** The body of the loop of [applyWriteSet] for one key. *)
Definition applyKey (txHeight : option Height) (u : publicAndHashUpdates) (p : compositeKey * keyOps) : res publicAndHashUpdates :=
  let '(ck, keyops) := p in
  if decide (ck_coll ck = []) then
    if keyOps_isDelete keyops
    then Ok {| publicUpdates := UpdateBatch_Delete (publicUpdates u) (ck_ns ck) (ck_key ck) txHeight; hashUpdates := hashUpdates u |}
    else b ← UpdateBatch_PutValAndMetadata (publicUpdates u) (ck_ns ck) (ck_key ck) (ko_value keyops) (ko_metadata keyops) txHeight;
         Ok {| publicUpdates := b; hashUpdates := hashUpdates u |}
  else
    if keyOps_isDelete keyops
    then Ok {| publicUpdates := publicUpdates u; hashUpdates := UpdateMap_Delete (hashUpdates u) (ck_ns ck) (ck_coll ck) (ck_key ck) txHeight |}
    else m ← UpdateMap_PutValAndMetadata (hashUpdates u) (ck_ns ck) (ck_coll ck) (ck_key ck) (ko_value keyops) (ko_metadata keyops) txHeight;
         Ok {| publicUpdates := publicUpdates u; hashUpdates := m |}.
Definition applyWriteSet (u : publicAndHashUpdates) (txRWSet : TxRwSet) (txHeight : option Height) (db : PrivDB)
    (containsPostOrderWrites : bool) : res publicAndHashUpdates :=
  let pub := publicUpdates u in
  let u := {| publicUpdates := {| ContainsPostOrderWrites := ContainsPostOrderWrites pub || containsPostOrderWrites;
                                  Updates := Updates pub; SchemaUpdates := SchemaUpdates pub |};
              hashUpdates := hashUpdates u |} in
  txops ← prepareTxOps txRWSet u db;
  foldM (applyKey txHeight) u (map_to_list txops).
End db.
End ops.

(** ** Specification of a transaction

    The writes of a transaction as a list of actions on keys, and what they
    make of the value of a key. *)

Inductive action :=
| ASet (v : bytes)
| ADelete
| AMetadata (m : bytes)
| AMetadataDelete.

Definition write_action (w : KVWrite) : action :=
  if IsKVWriteDelete w then ADelete else match kvw_Value w with Some v => ASet v | None => ADelete end.

Section spec.
Context `{!ProtoMessage KVMetadataWrite} `{!Sha256}.

Definition metadata_action (w : KVMetadataWrite) : res action :=
  match mw_Entries w with [] => Ok AMetadataDelete | entries => b ← Serialize entries; Ok (AMetadata b) end.

Definition set_actions (ns coll : bytes) (writes : list KVWrite) (metadataWrites : list KVMetadataWrite) :
    res (list (compositeKey * action)) :=
  ms ← mapM (λ w, a ← metadata_action w; Ok ({| ck_ns := ns; ck_coll := coll; ck_key := mw_Key w |}, a)) metadataWrites;
  Ok (((λ w, ({| ck_ns := ns; ck_coll := coll; ck_key := kvw_Key w |}, write_action w)) <$> writes) ++ ms).
Definition coll_actions (ns : bytes) (c : CollHashedRwSet) : res (list (compositeKey * action)) :=
  hashed ← deref (HashedRwSet c);
  set_actions ns (ch_CollectionName c) (hashed_write <$> HashedWrites hashed) (hashed_metadata <$> HashedMetadataWrites hashed).
Definition ns_actions (n : NsRwSet) : res (list (compositeKey * action)) :=
  kv ← deref (KvRwSet n);
  pub ← set_actions (NameSpace n) [] (Writes kv) (MetadataWrites kv);
  colls ← mapM (coll_actions (NameSpace n)) (CollHashedRwSets n);
  Ok (pub ++ concat colls).
(** Defined when every set is present and the metadata can be serialized. *)
Definition tx_actions (rwset : TxRwSet) : res (list (compositeKey * action)) :=
  l ← mapM ns_actions (NsRwSets rwset); Ok (concat l).
End spec.

(** The actions on one key. *)
Definition on_key (ck : compositeKey) (acts : list (compositeKey * action)) : list action :=
  omap (λ p, if decide (p.1 = ck) then Some p.2 else None) acts.
(** The last write of a list of actions, [Some None] being a delete, and the
    last metadata write, [Some None] removing the metadata. *)
Definition write_effect (l : list action) : option (option bytes) :=
  last (omap (λ a, match a with ASet v => Some (Some v) | ADelete => Some None | _ => None end) l).
Definition metadata_effect (l : list action) : option (option bytes) :=
  last (omap (λ a, match a with AMetadata m => Some (Some m) | AMetadataDelete => Some None | _ => None end) l).

(** At most one write and one metadata write for a key, as the builder of
    read-write sets guarantees. *)
Definition single_writes (acts : list (compositeKey * action)) : Prop :=
  ∀ ck, length (omap (λ a, match a with ASet _ | ADelete => Some () | _ => None end) (on_key ck acts)) ≤ 1 ∧
        length (omap (λ a, match a with AMetadata _ | AMetadataDelete => Some () | _ => None end) (on_key ck acts)) ≤ 1.

(** The value of a key after the actions, executed at height [h]: a write keeps
    the metadata of the key unless the transaction sets it, and a metadata write
    alone keeps the value and does nothing for a key that does not exist. *)
Definition exec_key (h : Height) (l : list action) (old : option VersionedValue) : option VersionedValue :=
  match write_effect l, metadata_effect l with
  | Some None, _ => None
  | Some (Some v), Some m => Some {| Value := Some v; Metadata := m; vv_Version := Some h |}
  | Some (Some v), None => Some {| Value := Some v; Metadata := old ≫= Metadata; vv_Version := Some h |}
  | None, Some m => (λ vv, {| Value := Value vv; Metadata := m; vv_Version := Some h |}) <$> old
  | None, None => old
  end.

(** ** The collected operations *)

Definition act_key (k : keyOps) (a : action) : keyOps :=
  match a with
  | ASet v => {| ko_flag := flag_add (ko_flag k) upsertVal; ko_value := Some v; ko_metadata := ko_metadata k |}
  | ADelete => {| ko_flag := flag_add (ko_flag k) keyDelete; ko_value := ko_value k; ko_metadata := ko_metadata k |}
  | AMetadata m => {| ko_flag := flag_add (ko_flag k) metadataUpdateFlag; ko_value := ko_value k; ko_metadata := Some m |}
  | AMetadataDelete => {| ko_flag := flag_add (ko_flag k) metadataDeleteFlag; ko_value := ko_value k; ko_metadata := ko_metadata k |}
  end.
Definition no_ops : keyOps := {| ko_flag := 0; ko_value := None; ko_metadata := None |}.
Definition apply_action (txops : txOps) (p : compositeKey * action) : txOps :=
  <[p.1 := act_key (getOrCreateKeyEntry txops p.1) p.2]> txops.

Lemma applyKVWrite_action txops ns coll w :
  applyKVWrite txops ns coll w = apply_action txops ({| ck_ns := ns; ck_coll := coll; ck_key := kvw_Key w |}, write_action w).
Proof.
  unfold applyKVWrite, write_action. destruct (IsKVWriteDelete w) eqn:E; [done|].
  unfold IsKVWriteDelete in E. apply orb_false_iff in E as [_ E]. apply bool_decide_eq_false in E.
  by destruct (kvw_Value w).
Qed.

Section actions.
Context `{!ProtoMessage KVMetadataWrite} `{!Sha256}.

Lemma applyMetadata_action txops ns coll w a :
  metadata_action w = Ok a →
  applyMetadata txops ns coll w = Ok (apply_action txops ({| ck_ns := ns; ck_coll := coll; ck_key := mw_Key w |}, a)).
Proof.
  unfold metadata_action, applyMetadata. destruct (mw_Entries w); intros Hm; inv_ok; [done|].
  rename select (Serialize _ = _) into Hs. rewrite Hs. done.
Qed.

Lemma set_actions_apply txops ns coll writes mws acts :
  set_actions ns coll writes mws = Ok acts →
  foldM (λ txops w, applyMetadata txops ns coll w) (foldl (λ txops w, applyKVWrite txops ns coll w) txops writes) mws =
  Ok (foldl apply_action txops acts).
Proof.
  unfold set_actions. intros Hset. inv_ok. rename select (mapM _ _ = _) into Hms. apply mapM_Ok in Hms.
  rewrite foldl_app, foldl_fmap.
  rewrite (foldl_ext' _ (λ txops w, apply_action txops ({| ck_ns := ns; ck_coll := coll; ck_key := kvw_Key w |}, write_action w)))
    by (intros; apply applyKVWrite_action).
  generalize (foldl (λ txops w, apply_action txops ({| ck_ns := ns; ck_coll := coll; ck_key := kvw_Key w |}, write_action w)) txops writes).
  induction Hms as [|w p mws ms Hw Hms IH]; intros m; simpl; [done|]. inv_ok.
  rename select (metadata_action _ = _) into Hm. rewrite (applyMetadata_action _ _ _ _ _ Hm). run. apply IH.
Qed.

Lemma foldM_actions {A} (f : A → res (list (compositeKey * action))) (g : txOps → A → res txOps) l ls txops :
  (∀ txops x acts, f x = Ok acts → g txops x = Ok (foldl apply_action txops acts)) →
  mapM f l = Ok ls → foldM g txops l = Ok (foldl apply_action txops (concat ls)).
Proof.
  intros Hfg Hl%mapM_Ok. revert txops. induction Hl as [|x acts l ls Hx Hl IH]; intros txops; simpl; [done|].
  rewrite (Hfg _ _ _ Hx), foldl_app. run. apply IH.
Qed.

Lemma applyTxRwset_actions rwset acts txops :
  tx_actions rwset = Ok acts → applyTxRwset txops rwset = Ok (foldl apply_action txops acts).
Proof.
  unfold tx_actions. intros Htx. inv_ok. rename select (mapM _ _ = _) into Hl.
  refine (foldM_actions _ _ _ _ _ _ Hl). clear. intros txops n acts Hns. unfold ns_actions in Hns. inv_ok.
  rename select (deref (KvRwSet n) = _) into Hd. rename select (set_actions _ _ _ _ = _) into Hs. rename select (mapM _ _ = _) into Hl.
  rewrite Hd. run. cbv zeta. rewrite (set_actions_apply txops _ _ _ _ _ Hs). run. rewrite foldl_app.
  refine (foldM_actions _ _ _ _ _ _ Hl). clear. intros txops c acts Hc. unfold coll_actions in Hc. inv_ok.
  rename select (deref (HashedRwSet c) = _) into Hd. rename select (set_actions _ _ _ _ = _) into Hs.
  rewrite Hd. run. pose proof (set_actions_apply txops _ _ _ _ _ Hs) as Hp.
  rewrite foldM_fmap, foldl_fmap in Hp. exact Hp.
Qed.
End actions.

Lemma lookup_actions txops acts ck :
  foldl apply_action txops acts !! ck =
  match on_key ck acts with [] => txops !! ck | l => Some (foldl act_key (getOrCreateKeyEntry txops ck) l) end.
Proof.
  revert txops. induction acts as [|[ck' a] acts IH]; intros txops; simpl; [done|].
  rewrite IH. unfold apply_action; simpl. unfold getOrCreateKeyEntry.
  destruct (decide (ck' = ck)) as [->|Hne]; simpl.
  - rewrite !lookup_insert_eq. by destruct (on_key ck acts).
  - by rewrite !lookup_insert_ne by done.
Qed.

(** What the operations of a key say, when the key has at most one write and
    one metadata write. *)
Definition ops_of (l : list action) : keyOps :=
  {| ko_flag := match write_effect l with None => 0 | Some None => keyDelete | Some (Some _) => upsertVal end
              + match metadata_effect l with None => 0 | Some None => metadataDeleteFlag | Some (Some _) => metadataUpdateFlag end;
     ko_value := mjoin (write_effect l); ko_metadata := mjoin (metadata_effect l) |}.

Lemma single_writes_ops acts ck :
  single_writes acts → on_key ck acts ≠ [] → foldl act_key no_ops (on_key ck acts) = ops_of (on_key ck acts).
Proof.
  intros Hs Hne. specialize (Hs ck). destruct Hs as [H1 H2].
  destruct (on_key ck acts) as [|a [|b [|c l]]]; [done| | |].
  - by destruct a.
  - destruct a, b; simpl in *; try lia; done.
  - destruct a, b, c; simpl in *; lia.
Qed.

(** ** Completing and applying the operations *)

(** A loop over distinct keys each step of which sets its own key. *)
Lemma foldM_own {S K V W} `{!EqDecision K} (get : S → K → option W) (f : S → K * V → res S) (g : K * V → option W) (l : list (K * V)) s0 :
  NoDup l.*1 →
  (∀ s p, p ∈ l → get s p.1 = get s0 p.1 →
     ∃ s', f s p = Ok s' ∧ ∀ k, get s' k = if decide (k = p.1) then g p else get s k) →
  ∃ s', foldM f s0 l = Ok s' ∧ (∀ p, p ∈ l → get s' p.1 = g p) ∧ (∀ k, k ∉ l.*1 → get s' k = get s0 k).
Proof.
  intros Hnd Hf. revert Hnd Hf. induction l as [|p l IH] using rev_ind; intros Hnd Hf.
  - exists s0. split_and!; [done|by intros ? ?%not_elem_of_nil|done].
  - rewrite fmap_app, NoDup_app in Hnd. destruct Hnd as (Hnd & Hp & _).
    assert (p.1 ∉ l.*1) as Hpl by (intros Hin; by apply (Hp _ Hin); left).
    destruct IH as (s1 & Hs1 & Hin & Hout); [done|intros; apply Hf; set_solver|].
    destruct (Hf s1 p) as (s2 & Hs2 & Hg); [set_solver|by apply Hout|].
    exists s2. rewrite foldM_app, Hs1. simpl. rewrite Hs2. split_and!; [done| |].
    + intros q [Hq|Hq]%elem_of_app; rewrite Hg; [|apply list_elem_of_singleton in Hq as ->; by rewrite decide_True].
      rewrite decide_False; [by apply Hin|]. intros E. apply Hpl. rewrite <-E. apply list_elem_of_fmap. eauto.
    + intros k Hk. rewrite fmap_app, not_elem_of_app in Hk. destruct Hk as [Hk Hkp]. rewrite Hg, decide_False; [by apply Hout|].
      intros ->. apply Hkp. by left.
Qed.

(** A loop that never returns an error panics when one of its steps does. *)
Lemma foldM_panic {A S} (f : S → A → res S) (s : S) l x :
  x ∈ l → (∀ s, f s x = Panic) → (∀ s y e, f s y ≠ Err e) → foldM f s l = Panic.
Proof.
  intros Hx Hp He. revert s. induction l as [|y l IH]; intros s; [by apply not_elem_of_nil in Hx|]. simpl.
  apply elem_of_cons in Hx as [<-|Hx]; [by rewrite Hp|]. destruct (f s y) as [s'|e|] eqn:E; simpl; [by apply IH| |done].
  by destruct (He s y e).
Qed.

(** The binding of a key in the updates of the block. *)
Definition get_update (u : publicAndHashUpdates) (ck : compositeKey) : option VersionedValue :=
  if decide (ck_coll ck = []) then UpdateBatch_Get (publicUpdates u) (ck_ns ck) (ck_key ck)
  else UpdateMap_Get (hashUpdates u) (ck_ns ck) (ck_coll ck) (ck_key ck).
(** Deleted keys have no metadata. *)
Definition updates_wf (u : publicAndHashUpdates) : Prop :=
  ∀ ck vv, get_update u ck = Some vv → IsDelete vv = true → Metadata vv = None.

Definition binding (h : Height) (k : keyOps) : VersionedValue :=
  if keyOps_isDelete k then {| Value := None; Metadata := None; vv_Version := Some h |}
  else {| Value := ko_value k; Metadata := ko_metadata k; vv_Version := Some h |}.

Lemma applyKey_get h u ck k :
  keyOps_isDelete k = true ∨ is_Some (ko_value k) →
  ∃ u', applyKey (Some h) u (ck, k) = Ok u' ∧
    ∀ ck', get_update u' ck' = if decide (ck' = ck) then Some (binding h k) else get_update u ck'.
Proof.
  intros Hk. unfold applyKey, binding. destruct (decide (ck_coll ck = [])) as [Hc|Hc]; destruct (keyOps_isDelete k).
  - eexists; split; [done|]. intros ck'. unfold get_update; simpl. destruct (decide (ck_coll ck' = [])) as [Hc'|Hc'].
    + rewrite Get_Delete. destruct ck, ck'; simpl in *; subst. repeat destruct (decide _); naive_solver.
    + rewrite decide_False; [done|]. by intros ->.
  - destruct Hk as [|[v Hv]]; [done|]. rewrite Hv. unfold UpdateBatch_PutValAndMetadata. run.
    eexists; split; [done|]. intros ck'. unfold get_update; simpl. destruct (decide (ck_coll ck' = [])) as [Hc'|Hc'].
    + rewrite Get_Update. destruct ck, ck'; simpl in *; subst. repeat destruct (decide _); naive_solver.
    + rewrite decide_False; [done|]. by intros ->.
  - eexists; split; [done|]. intros ck'. unfold get_update; simpl. destruct (decide (ck_coll ck' = [])) as [Hc'|Hc'].
    + rewrite (decide_False (P := ck' = ck)); [done|]. by intros ->.
    + rewrite Get_UpdateMap_Delete. destruct ck, ck'; simpl in *. repeat destruct (decide _); naive_solver.
  - destruct Hk as [|[v Hv]]; [done|]. rewrite Hv.
    destruct (UpdateMap_PutValAndMetadata (hashUpdates u) (ck_ns ck) (ck_coll ck) (ck_key ck) (Some v) (ko_metadata k) (Some h))
      as [m| |] eqn:Hm; [|by unfold UpdateMap_PutValAndMetadata in Hm..].
    run. eexists; split; [done|]. intros ck'. unfold get_update; simpl. destruct (decide (ck_coll ck' = [])) as [Hc'|Hc'].
    + rewrite (decide_False (P := ck' = ck)); [done|]. by intros ->.
    + rewrite (Get_UpdateMap_Put _ _ _ _ _ _ _ _ Hm). destruct ck, ck'; simpl in *. repeat destruct (decide _); naive_solver.
Qed.

Section apply.
Context `{!ProtoMessage KVMetadataWrite} `{!Sha256}.
Context {DB I L : Type} `{!VersionedDB DB I}.
Context (db : PrivDB DB L) (st : state) `{!VersionedDBLaws (pdb_vdb db) st} (Hsound : hint_sound (pdb_hint db) st).

(** The committed value of a key, and its value after the updates. *)
Definition committed (ck : compositeKey) : option VersionedValue :=
  if decide (ck_coll ck = []) then st (ck_ns ck) !! ck_key ck
  else st (deriveHashedDataNs (ck_ns ck) (ck_coll ck)) !! key_hash_str db (ck_key ck).
Definition current (u : publicAndHashUpdates) (ck : compositeKey) : option VersionedValue :=
  overlay_val (committed ck) (get_update u ck).

Lemma committed_no_delete ck vv : committed ck = Some vv → IsDelete vv = false.
Proof. unfold committed. case_decide; apply no_delete_law. Qed.

Lemma retrieveLatestState_spec u ck :
  retrieveLatestState (ck_ns ck) (ck_coll ck) (ck_key ck) u db =
  Ok (match get_update u ck with Some vv => Some vv | None => committed ck end).
Proof.
  unfold retrieveLatestState, get_update, committed, GetValueHash.
  case_decide; case_match; try done; apply GetState_law.
Qed.
Lemma retrieveLatestMetadata_spec u ck :
  updates_wf u → plain_ns (ck_ns ck) → x00 ∉ ck_coll ck →
  retrieveLatestMetadata (ck_ns ck) (ck_coll ck) (ck_key ck) u db = Ok (current u ck ≫= Metadata).
Proof.
  intros Hu Hns Hcoll. specialize (Hu ck). unfold retrieveLatestMetadata, current, overlay_val, get_update, committed in *.
  case_decide; case_match.
  - destruct (IsDelete _) eqn:E; simpl; [by rewrite Hu|done].
  - by apply hint_sound_pub.
  - destruct (IsDelete _) eqn:E; simpl; [by rewrite Hu|done].
  - by apply hint_sound_hash.
Qed.

(** The operation of a key after completion. *)
Definition prepared (u : publicAndHashUpdates) (ck : compositeKey) (l : list action) : option keyOps :=
  match write_effect l, metadata_effect l with
  | None, None => None
  | Some (Some v), None => Some {| ko_flag := upsertVal; ko_value := Some v; ko_metadata := current u ck ≫= Metadata |}
  | None, Some m =>
      (λ vv, {| ko_flag := ko_flag (ops_of l); ko_value := Value vv; ko_metadata := m |}) <$>
        match get_update u ck with Some vv => Some vv | None => committed ck end
  | _, _ => Some (ops_of l)
  end.

(** A metadata write alone on a key that an earlier transaction of the block
    deleted. *)
Definition metadata_of_deleted (u : publicAndHashUpdates) (ck : compositeKey) (l : list action) : Prop :=
  write_effect l = None ∧ is_Some (metadata_effect l) ∧ ∃ vv, get_update u ck = Some vv ∧ IsDelete vv = true.

Definition actions_ok (acts : list (compositeKey * action)) : Prop :=
  single_writes acts ∧ ∀ ck, on_key ck acts ≠ [] → plain_ns (ck_ns ck) ∧ x00 ∉ ck_coll ck.

Lemma no_effect l : write_effect l = None → metadata_effect l = None → l = [].
Proof.
  destruct l as [|a l] using rev_ind; [done|]. unfold write_effect, metadata_effect. rewrite !omap_app.
  destruct a; simpl; rewrite ?app_nil_r, ?last_snoc; done.
Qed.

Lemma prepareKey_spec u acts txops ck :
  updates_wf u → actions_ok acts → on_key ck acts ≠ [] → txops !! ck = Some (ops_of (on_key ck acts)) →
  ∃ txops', prepareKey u db txops (ck, ops_of (on_key ck acts)) = Ok txops' ∧
    ∀ k, txops' !! k = if decide (k = ck) then prepared u ck (on_key ck acts) else txops !! k.
Proof.
  intros Hu [_ Hns] Hne Hlk. destruct (Hns ck Hne) as [Hn Hc]. unfold prepareKey, prepared.
  rewrite retrieveLatestState_spec, retrieveLatestMetadata_spec by done. run.
  assert (∀ k', (if decide (k' = ck) then Some (ops_of (on_key ck acts)) else txops !! k') = txops !! k') as Hsame.
  { intros k'. destruct (decide (k' = ck)) as [->|]; by rewrite ?Hlk. }
  pose proof (no_effect (on_key ck acts)) as Hno.
  unfold keyOps_isDelete, isUpsertAndMetadataUpdate, isOnlyUpsert, ops_of in *. simpl.
  destruct (write_effect (on_key ck acts)) as [[v|]|], (metadata_effect (on_key ck acts)) as [[m|]|];
    simpl in *; try (eexists; split; [reflexivity|by intros k; rewrite Hsame]).
  - eexists; split; [reflexivity|]. intros k. destruct (decide (k = ck)) as [->|]; [by rewrite lookup_insert_eq|by rewrite lookup_insert_ne].
  - destruct (match get_update u ck with Some vv => Some vv | None => committed ck end); simpl; (eexists; split; [reflexivity|]);
      intros k; (destruct (decide (k = ck)) as [->|]; [by rewrite ?lookup_insert_eq, ?lookup_delete_eq|by rewrite ?lookup_insert_ne, ?lookup_delete_ne]).
  - destruct (match get_update u ck with Some vv => Some vv | None => committed ck end); simpl; (eexists; split; [reflexivity|]);
      intros k; (destruct (decide (k = ck)) as [->|]; [by rewrite ?lookup_insert_eq, ?lookup_delete_eq|by rewrite ?lookup_insert_ne, ?lookup_delete_ne]).
  - by destruct Hne; apply Hno.
Qed.

Lemma prepareTxOps_spec u rwset acts :
  updates_wf u → tx_actions rwset = Ok acts → actions_ok acts →
  ∃ txops, prepareTxOps rwset u db = Ok txops ∧ ∀ ck, txops !! ck = prepared u ck (on_key ck acts).
Proof.
  intros Hu Hacts Hok. unfold prepareTxOps. rewrite (applyTxRwset_actions _ _ _ Hacts). run.
  set (m := foldl apply_action ∅ acts).
  assert (∀ ck, m !! ck = match on_key ck acts with [] => None | l => Some (ops_of l) end) as Hm.
  { intros ck. subst m. rewrite lookup_actions, lookup_empty. destruct (on_key ck acts) as [|a l] eqn:E; [done|].
    rewrite <-E. f_equal. rewrite <-single_writes_ops; [done|apply Hok|by rewrite E]. }
  destruct (foldM_own (λ m k, m !! k) (prepareKey u db) (λ p, prepared u p.1 (on_key p.1 acts)) (map_to_list m) m)
    as (m' & -> & Hin & Hout).
  - apply NoDup_fst_map_to_list.
  - intros m' [ck k] Hin%elem_of_map_to_list Hlk. simpl in *. rewrite Hin in Hlk. rewrite Hm in Hin.
    destruct (on_key ck acts) as [|a l] eqn:E; [done|]. injection Hin as <-. rewrite <-E in *.
    apply prepareKey_spec; [done..|by rewrite E|done].
  - exists m'. split; [done|]. intros ck. destruct (m !! ck) as [k|] eqn:E.
    + by apply (Hin (ck, k)), elem_of_map_to_list.
    + rewrite Hout; [|rewrite list_elem_of_fmap; intros ([? k] & -> & Hk%elem_of_map_to_list); simpl in *; congruence].
      rewrite E. rewrite Hm in E. by destruct (on_key ck acts).
Qed.

Lemma Value_not_delete vv : IsDelete vv = false → is_Some (Value vv).
Proof. unfold IsDelete. intros E%bool_decide_eq_false. by destruct (Value vv). Qed.

Lemma prepared_value u ck l k :
  ¬ metadata_of_deleted u ck l → prepared u ck l = Some k → keyOps_isDelete k = true ∨ is_Some (ko_value k).
Proof.
  unfold prepared, metadata_of_deleted, ops_of. intros Hmd.
  destruct (write_effect l) as [[v|]|], (metadata_effect l) as [[m|]|]; intros E; simplify_eq/=; eauto.
  all: right; apply fmap_Some in E as (vv & Hvv & ->); simpl; apply Value_not_delete;
    destruct (get_update u ck) as [vv'|] eqn:Hg; [|by eapply committed_no_delete]; simplify_eq;
    destruct (IsDelete vv) eqn:Hd; [destruct Hmd; eauto|done].
Qed.

(** The binding a transaction leaves is what executing it gives. *)
Lemma exec_binding h u ck l :
  ¬ metadata_of_deleted u ck l →
  overlay_val (committed ck) (match prepared u ck l with Some k => Some (binding h k) | None => get_update u ck end) =
  exec_key h l (current u ck).
Proof.
  intros Hmd. unfold exec_key. pose proof (prepared_value u ck l) as Hpv. unfold prepared, ops_of in *.
  destruct (write_effect l) as [[v|]|] eqn:Ew, (metadata_effect l) as [[m|]|] eqn:Em; simpl; try done.
  all: unfold current, overlay_val, metadata_of_deleted in *;
    destruct (get_update u ck) as [vv|] eqn:Hg; simpl in *;
    [destruct (IsDelete vv) eqn:Hd; simpl in *; [destruct Hmd; rewrite Ew, Em; eauto|]
    |destruct (committed ck) as [vv|] eqn:Hc; simpl in *; [|done]].
  all: destruct (Hpv _ Hmd eq_refl) as [?|[v Hv]]; [done|]; unfold binding; simpl in *; unfold IsDelete; simpl;
    by rewrite Hv.
Qed.

(** Applying the writes of a transaction executes it on the current values. *)
Lemma applyWriteSet_spec u rwset acts h post :
  updates_wf u → tx_actions rwset = Ok acts → actions_ok acts →
  (∀ ck, ¬ metadata_of_deleted u ck (on_key ck acts)) →
  ∃ u', applyWriteSet u rwset (Some h) db post = Ok u' ∧ updates_wf u' ∧
    ∀ ck, get_update u' ck = match prepared u ck (on_key ck acts) with
      Some k => Some (binding h k) | None => get_update u ck end.
Proof.
  intros Hu Hacts Hok Hmd. unfold applyWriteSet. set (u0 := Build_publicAndHashUpdates _ _).
  assert (∀ ck, get_update u0 ck = get_update u ck) as Hget0 by done.
  destruct (prepareTxOps_spec u0 rwset acts) as (txops & -> & Htx); [done..|]. run.
  assert (∀ ck, prepared u0 ck (on_key ck acts) = prepared u ck (on_key ck acts)) as Hprep by done.
  setoid_rewrite Hprep in Htx.
  destruct (foldM_own get_update (applyKey (Some h)) (λ p, Some (binding h p.2)) (map_to_list txops) u0)
    as (u' & -> & Hin & Hout); [apply NoDup_fst_map_to_list| |].
  { intros s [ck k] Hk%elem_of_map_to_list _. apply applyKey_get. rewrite Htx in Hk. by eapply prepared_value. }
  assert (∀ ck, get_update u' ck = match prepared u ck (on_key ck acts) with
    Some k => Some (binding h k) | None => get_update u ck end) as Hb.
  { intros ck. rewrite <-Htx. destruct (txops !! ck) as [k|] eqn:E.
    - by apply (Hin (ck, k)), elem_of_map_to_list.
    - rewrite Hout; [done|]. rewrite list_elem_of_fmap. intros ([? k] & -> & Hk%elem_of_map_to_list). simpl in *. congruence. }
  exists u'. split_and!; [done| |done].
  intros ck vv. rewrite Hb. destruct (prepared _ _ _) as [k|] eqn:E; [|by apply Hu].
  intros [= <-]. unfold binding. destruct (keyOps_isDelete k) eqn:Ed; [done|]. unfold IsDelete; simpl.
  intros Hv%bool_decide_eq_true. destruct (prepared_value _ _ _ _ (Hmd ck) E) as [|[? ?]]; congruence.
Qed.

(** A transaction touches the keys it writes and the existing keys whose
    metadata it writes. *)
Definition touches (old : option VersionedValue) (l : list action) : bool :=
  match write_effect l, metadata_effect l with
  | Some _, _ => true
  | None, Some _ => bool_decide (is_Some old)
  | None, None => false
  end.
Lemma prepared_touches u ck l :
  ¬ metadata_of_deleted u ck l → is_Some (prepared u ck l) ↔ touches (current u ck) l = true.
Proof.
  unfold prepared, touches, metadata_of_deleted, current, overlay_val. intros Hmd.
  destruct (write_effect l) as [[v|]|] eqn:Ew, (metadata_effect l) as [m|] eqn:Em; try by (split; eauto).
  rewrite fmap_is_Some, bool_decide_eq_true. destruct (get_update u ck) as [vv|] eqn:Hg; [|done].
    destruct (IsDelete vv) eqn:Hd; [|done]. destruct Hmd. eauto.
Qed.
(** A key is left deleted by the transaction only if it writes a delete. *)
Lemma binding_deleted u ck l h k :
  ¬ metadata_of_deleted u ck l → prepared u ck l = Some k → IsDelete (binding h k) = true → write_effect l = Some None.
Proof.
  intros Hmd Hp. pose proof (prepared_value _ _ _ _ Hmd Hp) as Hv. revert Hv. unfold prepared, ops_of in Hp.
  destruct (write_effect l) as [[v|]|], (metadata_effect l) as [[m|]|]; simplify_eq/=; try done.
  all: apply fmap_Some in Hp as (vv & _ & ->); intros [?|[v Hv]]; [done|]; simpl in Hv;
    unfold binding, IsDelete; simpl; by rewrite Hv.
Qed.

Lemma applyWriteSet_exec u rwset acts h post :
  updates_wf u → tx_actions rwset = Ok acts → actions_ok acts →
  (∀ ck, ¬ metadata_of_deleted u ck (on_key ck acts)) →
  ∃ u', applyWriteSet u rwset (Some h) db post = Ok u' ∧ updates_wf u' ∧
    (∀ ck, current u' ck = exec_key h (on_key ck acts) (current u ck)) ∧
    (∀ ck, is_Some (get_update u' ck) ↔ is_Some (get_update u ck) ∨ touches (current u ck) (on_key ck acts) = true) ∧
    (∀ ck vv, get_update u' ck = Some vv → IsDelete vv = true →
       write_effect (on_key ck acts) = Some None ∨ get_update u ck = Some vv).
Proof.
  intros Hu Hacts Hok Hmd. destruct (applyWriteSet_spec u rwset acts h post) as (u' & Hap & Hu' & Hb); [done..|].
  exists u'. split_and!; [done..| | |].
  - intros ck. unfold current at 1. rewrite Hb. by apply exec_binding.
  - intros ck. rewrite <-prepared_touches, Hb by done.
    destruct (prepared _ _ _); [naive_solver|]. split; [by left|]. by intros [?|[]].
  - intros ck vv. rewrite Hb. destruct (prepared _ _ _) as [k|] eqn:E; [|by right].
    intros [= <-] Hd. left. by eapply binding_deleted.
Qed.

(** ** Properties *)

(** the writes of a transaction are applied to the updates of its block as
    the transaction means them. For a well-formed read-write set with at most
    one write and one metadata write per key, and no metadata write alone on a
    key deleted earlier in the block, applying it succeeds; the current value
    of every key, public or hashed, then is its old value with the effect of the
    transaction on it (a write keeps the metadata unless the transaction sets
    it, a metadata write keeps the value and skips absent keys, a delete wins),
    stamped with the height of the transaction; and the keys that count as
    updated in the block are those updated before and those it touches. *)
Theorem write_set_executes u rwset acts h post
    (Hu : updates_wf u) (Hacts : tx_actions rwset = Ok acts) (Hok : actions_ok acts)
    (Hmd : ∀ ck, ¬ metadata_of_deleted u ck (on_key ck acts)) :
  ∃ u', applyWriteSet u rwset (Some h) db post = Ok u' ∧ updates_wf u' ∧
    ∀ ck, current u' ck = exec_key h (on_key ck acts) (current u ck) ∧
      (is_Some (get_update u' ck) ↔ is_Some (get_update u ck) ∨ touches (current u ck) (on_key ck acts) = true).
Proof.
  destruct (applyWriteSet_exec u rwset acts h post Hu Hacts Hok Hmd) as (u' & ? & ? & ? & ? & _). exists u'. by split_and!.
Qed.

(** A metadata write alone on a key that an earlier transaction of the same
    block deleted makes the peer panic: the delete marker in the updates is
    taken for the latest value of the key, and its nil value is then put into
    the batch, which does not accept nil values. *)
Theorem metadata_write_after_delete_panics u rwset acts h post ck
    (Hu : updates_wf u) (Hacts : tx_actions rwset = Ok acts) (Hok : actions_ok acts)
    (Hmd : metadata_of_deleted u ck (on_key ck acts)) :
  applyWriteSet u rwset (Some h) db post = Panic.
Proof.
  unfold applyWriteSet. set (u0 := Build_publicAndHashUpdates _ _).
  destruct (prepareTxOps_spec u0 rwset acts) as (txops & -> & Htx); [done..|]. run.
  destruct Hmd as (Hw & [m Hm] & vv & Hg & Hd). assert (get_update u0 ck = Some vv) as Hg0 by done.
  assert (∃ k, txops !! ck = Some k ∧ keyOps_isDelete k = false ∧ ko_value k = None) as (k & Hk & Hnd & Hv).
  { rewrite Htx. unfold prepared. rewrite Hw, Hm, Hg0. eexists; split; [done|]. unfold ops_of, keyOps_isDelete; simpl.
    rewrite Hw, Hm. split; [by destruct m|]. by apply bool_decide_eq_true in Hd. }
  apply (foldM_panic _ _ _ (ck, k)); [by apply elem_of_map_to_list| |].
  - intros s. unfold applyKey, UpdateMap_PutValAndMetadata, UpdateBatch_PutValAndMetadata. rewrite Hnd, Hv. by case_decide.
  - intros s [ck' k'] e. unfold applyKey, UpdateMap_PutValAndMetadata, UpdateBatch_PutValAndMetadata.
    by destruct (decide _), (keyOps_isDelete k'), (ko_value k').
Qed.
End apply.

(** A transaction that writes one key and the metadata of another. *)
Definition sample_write (key value : bytes) : KVWrite := {| kvw_Key := key; kvw_IsDelete := false; kvw_Value := Some value |}.
Definition sample_tx (writes : list KVWrite) (metadata : list KVMetadataWrite) : TxRwSet :=
  {| NsRwSets := [{| NameSpace := B "cc"; KvRwSet := Some {| Reads := []; RangeQueriesInfo := []; Writes := writes; MetadataWrites := metadata |};
                     CollHashedRwSets := [] |}] |}.
#[local] Instance sample_tx_codec : ProtoMessage KVMetadataWrite := countable_proto KVMetadataWrite.
#[local] Existing Instances sample_priv_codec sample_priv_laws sample_priv_sha.
Definition sample_ck (key : bytes) : compositeKey := {| ck_ns := B "cc"; ck_coll := []; ck_key := key |}.

Lemma sample_updates_wf : updates_wf newPubAndHashUpdates.
Proof. intros ck vv. unfold get_update. case_decide; by intros. Qed.

Lemma write_set_executes_witness :
  ∃ u', applyWriteSet newPubAndHashUpdates (sample_tx [sample_write (B "k") (B "v")] []) (Some (NewHeight 7 3)) sample_priv_db false = Ok u' ∧
    current sample_priv_db (λ _, ∅) u' (sample_ck (B "k")) =
      Some {| Value := Some (B "v"); Metadata := None; vv_Version := Some (NewHeight 7 3) |}.
Proof.
  assert (plain_ns (B "cc")) as Hcc by (split; vm_compute; set_solver).
  destruct (write_set_executes sample_priv_db (λ _, ∅) sample_hint_sound
    newPubAndHashUpdates (sample_tx [sample_write (B "k") (B "v")] []) [(sample_ck (B "k"), ASet (B "v"))] (NewHeight 7 3) false
    sample_updates_wf) as (u' & Hap & _ & Hex).
  - reflexivity.
  - split.
    + intros ck. unfold on_key; simpl. destruct (decide (sample_ck (B "k") = ck)); simpl; lia.
    + intros ck. unfold on_key; simpl. destruct (decide (sample_ck (B "k") = ck)) as [<-|]; [|done]. intros _. split; [done|]. by intros ?%not_elem_of_nil.
  - intros ck (_ & _ & vv & Hg & _). unfold get_update in Hg. by case_decide.
  - exists u'. split; [exact Hap|]. destruct (Hex (sample_ck (B "k"))) as [-> _]. reflexivity.
Defined.

(** A public batch in which the key is deleted. *)
Definition sample_deleted : publicAndHashUpdates :=
  {| publicUpdates := UpdateBatch_Delete NewUpdateBatch (B "cc") (B "k") (Some (NewHeight 7 2)); hashUpdates := NewUpdateMap |}.
Lemma sample_deleted_get ck :
  get_update sample_deleted ck =
  if decide (ck = sample_ck (B "k")) then Some {| Value := None; Metadata := None; vv_Version := Some (NewHeight 7 2) |} else None.
Proof.
  unfold get_update, sample_deleted, sample_ck; cbn [publicUpdates hashUpdates]. rewrite Get_Delete.
  destruct ck as [ns coll key]; cbn [ck_ns ck_coll ck_key].
  destruct (decide (coll = [])) as [->|]; repeat destruct (decide _); try naive_solver; by apply Get_NewUpdateBatch.
Qed.

Lemma metadata_write_after_delete_panics_witness :
  applyWriteSet sample_deleted (sample_tx [] [{| mw_Key := B "k"; mw_Entries := [] |}]) (Some (NewHeight 7 3)) sample_priv_db false = Panic.
Proof.
  assert (plain_ns (B "cc")) as Hcc by (split; vm_compute; set_solver).
  apply (metadata_write_after_delete_panics sample_priv_db (λ _, ∅) sample_hint_sound sample_deleted _
    [(sample_ck (B "k"), AMetadataDelete)] (NewHeight 7 3) false (sample_ck (B "k"))).
  - intros ck vv. rewrite sample_deleted_get. destruct (decide _); [|done]. by intros [= <-].
  - reflexivity.
  - split.
    + intros ck. unfold on_key; simpl. destruct (decide (sample_ck (B "k") = ck)); simpl; lia.
    + intros ck. unfold on_key; simpl. destruct (decide (sample_ck (B "k") = ck)) as [<-|]; [|done]. intros _. split; [done|]. by intros ?%not_elem_of_nil.
  - split_and!; [reflexivity|by eexists|]. eexists. rewrite sample_deleted_get, decide_True by done. split; reflexivity.
Defined.

(** Two writes of the same key in one transaction cancel each other. The
    flags of a key are added up, so two upserts look like a metadata update;
    for a key that does not exist yet the transaction then writes nothing. *)
Theorem duplicate_writes_lost :
  applyWriteSet newPubAndHashUpdates
    (sample_tx [sample_write (B "k") (B "v1"); sample_write (B "k") (B "v2")] []) (Some (NewHeight 7 3)) sample_priv_db false =
  Ok newPubAndHashUpdates.
Proof. vm_compute. reflexivity. Qed.
