(* ===== verification/SparseTypes.v ===== *)
(** * Messages of sparse blocks

  The messages of common/sparseblocks/sparse.pb.go: the bookkeeping the
  orderer keeps of the chain of every organisation, and the filter it attaches
  to an organisation's block. A nil byte slice decodes as the empty one. *)

From S2P Require Import Prelude.
From stdpp Require Import options.

Record TxnInfoProto := { IndexInFatBlock : Z; TxnMVCCStatus : Z }.
Record SparseTxnFilterProto := { FatBlockNumber : Z; TxnInfoList : list TxnInfoProto }.
Record OrgBlockDetailsProto := {
  OrgBlockNumber : Z;
  Authpath : bytes;
  ob_Hash : bytes;
  TxnIndexList : list Z;
  PrevioushHash : bytes;
  PrevFatblockNumber : Z;
  ob_LastConfigBlockNum : Z;
  MetadataSignature : bytes;
  MetadataLastConfig : bytes;
  SparseBlockFilter : bytes
}.
Record LastBlockMappingProto := {
  LastOrgBlockNum : Z;
  LastOrgBlockHash : bytes;
  SourceFatBlockNum : Z;
  lb_LastConfigBlockNum : Z
}.
Record ChannelHeadInfoProto := {
  LastFatBlockNumberProcessed : Z;
  OrgHeadPostion : gmap bytes LastBlockMappingProto
}.
Record FatBlockMerkleInfoProto := {
  MerkleRoot : bytes;
  OrgHashMap : gmap bytes OrgBlockDetailsProto
}.

#[export] Instance TxnInfoProto_eq_dec : EqDecision TxnInfoProto.
Proof. solve_decision. Defined.
#[export] Instance SparseTxnFilterProto_eq_dec : EqDecision SparseTxnFilterProto.
Proof. solve_decision. Defined.
#[export] Instance OrgBlockDetailsProto_eq_dec : EqDecision OrgBlockDetailsProto.
Proof. solve_decision. Defined.
#[export] Instance LastBlockMappingProto_eq_dec : EqDecision LastBlockMappingProto.
Proof. solve_decision. Defined.
#[export] Instance ChannelHeadInfoProto_eq_dec : EqDecision ChannelHeadInfoProto.
Proof. solve_decision. Defined.
#[export] Instance FatBlockMerkleInfoProto_eq_dec : EqDecision FatBlockMerkleInfoProto.
Proof. solve_decision. Defined.
#[export] Instance TxnInfoProto_countable : Countable TxnInfoProto.
Proof. by apply (inj_countable' (λ r, (IndexInFatBlock r, TxnMVCCStatus r)) (λ '(x0, x1), Build_TxnInfoProto x0 x1)); intros []. Defined.
#[export] Instance SparseTxnFilterProto_countable : Countable SparseTxnFilterProto.
Proof. by apply (inj_countable' (λ r, (FatBlockNumber r, TxnInfoList r)) (λ '(x0, x1), Build_SparseTxnFilterProto x0 x1)); intros []. Defined.
#[export] Instance OrgBlockDetailsProto_countable : Countable OrgBlockDetailsProto.
Proof. by apply (inj_countable' (λ r, (OrgBlockNumber r, Authpath r, ob_Hash r, TxnIndexList r, PrevioushHash r, PrevFatblockNumber r, ob_LastConfigBlockNum r, MetadataSignature r, MetadataLastConfig r, SparseBlockFilter r)) (λ '(x0, x1, x2, x3, x4, x5, x6, x7, x8, x9), Build_OrgBlockDetailsProto x0 x1 x2 x3 x4 x5 x6 x7 x8 x9)); intros []. Defined.
#[export] Instance LastBlockMappingProto_countable : Countable LastBlockMappingProto.
Proof. by apply (inj_countable' (λ r, (LastOrgBlockNum r, LastOrgBlockHash r, SourceFatBlockNum r, lb_LastConfigBlockNum r)) (λ '(x0, x1, x2, x3), Build_LastBlockMappingProto x0 x1 x2 x3)); intros []. Defined.
#[export] Instance ChannelHeadInfoProto_countable : Countable ChannelHeadInfoProto.
Proof. by apply (inj_countable' (λ r, (LastFatBlockNumberProcessed r, OrgHeadPostion r)) (λ '(x0, x1), Build_ChannelHeadInfoProto x0 x1)); intros []. Defined.
#[export] Instance FatBlockMerkleInfoProto_countable : Countable FatBlockMerkleInfoProto.
Proof. by apply (inj_countable' (λ r, (MerkleRoot r, OrgHashMap r)) (λ '(x0, x1), Build_FatBlockMerkleInfoProto x0 x1)); intros []. Defined.
