(* ===== verification/Validator.v ===== *)
(** * MVCC validation of a block

  Models core/ledger/kvledger/txmgmt/validation/validator.go: the endorser
  transactions of a block are validated one after the other against the
  committed state and the updates of the preceding valid transactions, and the
  writes of the valid ones are collected.

  [validateAndPrepareBatch] sets the validation code of the transactions of its
  argument; the model returns them with the new codes. *)

From S2P Require Import Prelude SortedMap Version StateDB Proto Rwset Merkle LevelDB PrivState.
From S2P Require Import StateLevelDB CombinedIterator RangeQuery TxOps SparseTypes.
From stdpp Require Import options.
Local Open Scope nat_scope.
Set Default Proof Using "Type*".

(** peer.TxValidationCode *)
Notation TxValidationCode := Z (only parsing).
Definition TxValidationCode_VALID : TxValidationCode := 0%Z.
Definition TxValidationCode_MVCC_READ_CONFLICT : TxValidationCode := 11%Z.
Definition TxValidationCode_PHANTOM_READ_CONFLICT : TxValidationCode := 12%Z.

Record transaction := {
  indexInBlock : nat;
  tx_id : bytes;
  tx_rwset : TxRwSet;
  validationCode : TxValidationCode;
  containsPostOrderWrites : bool
}.
Record block := {
  blk_num : Z;
  blk_txs : list transaction;
  sparseblockchainFilter : SparseTxnFilterProto;
  sparseFilterExists : bool
}.
Definition set_code (tx : transaction) (code : TxValidationCode) : transaction :=
  {| indexInBlock := indexInBlock tx; tx_id := tx_id tx; tx_rwset := tx_rwset tx; validationCode := code;
     containsPostOrderWrites := containsPostOrderWrites tx |}.

Definition transaction_containsPvtWrites (t : transaction) : bool :=
  existsb (λ ns, existsb (λ coll, bool_decide (is_Some (PvtRwSetHash coll))) (CollHashedRwSets ns)) (NsRwSets (tx_rwset t)).

(** The first collection of that name in the first namespace that has one. *)
Fixpoint retrieveHash_loop (l : list NsRwSet) (ns coll : bytes) : option bytes :=
  match l with
  | [] => None
  | nsData :: l =>
      if decide (NameSpace nsData ≠ ns) then retrieveHash_loop l ns coll
      else match list_find (λ c, ch_CollectionName c = coll) (CollHashedRwSets nsData) with
           | Some (_, collData) => PvtRwSetHash collData
           | None => retrieveHash_loop l ns coll
           end
  end.
Definition transaction_retrieveHash (t : transaction) (ns coll : bytes) : option bytes :=
  retrieveHash_loop (NsRwSets (tx_rwset t)) ns coll.

(** ** Purges *)

Record AppInitiatedPurgeUpdate := { purge_CompositeKey : HashedCompositeKey; purge_Version : Height }.
Notation pvtdataPurgeTracker := (gmap HashedCompositeKey AppInitiatedPurgeUpdate).
Definition newPvtdataPurgeTracker : pvtdataPurgeTracker := ∅.

(** [GetHashedWrites] of a nil set is empty. *)
Definition purgeTracker_update (p : pvtdataPurgeTracker) (rwset : TxRwSet) (version : Height) : pvtdataPurgeTracker :=
  foldl (λ p nsRwSet,
    foldl (λ p collHashedRwSet,
      foldl (λ p hashedWrite,
        let ck := {| hck_Namespace := NameSpace nsRwSet; hck_CollectionName := ch_CollectionName collHashedRwSet;
                     hck_KeyHash := wh_KeyHash hashedWrite |} in
        if wh_IsPurge hashedWrite then <[ck := {| purge_CompositeKey := ck; purge_Version := version |}]> p else p)
        p (match HashedRwSet collHashedRwSet with Some h => HashedWrites h | None => [] end))
      p (CollHashedRwSets nsRwSet))
    p (NsRwSets rwset).
Definition purgeTracker_getUpdates (p : pvtdataPurgeTracker) : list AppInitiatedPurgeUpdate := (map_to_list p).*2.

Section validator.
Context `{!ProtoMessage KVMetadataWrite} `{!ProtoMessage QueryReads} `{!Sha256}.
Context {DB I L : Type} `{!VersionedDB DB I}.
Notation PrivDB := (PrivDB DB L).

(** The fuel bounds the recursion of the combined iterator and the loop of the
    hash validator. *)
Context (fuel : nat) (hashFunc : HashFunc).

(** ** Reads *)

Definition validateKVRead (db : PrivDB) (ns : bytes) (updates : UpdateBatch) (kvRead : KVRead) : res bool :=
  let readVersion := NewVersion (kvr_Version kvRead) in
  if UpdateBatch_Exists updates ns (kvr_Key kvRead) then Ok false
  else
    committedVersion ← GetVersion (pdb_vdb db) ns (kvr_Key kvRead);
    if negb (AreSame committedVersion readVersion) then Ok false else Ok true.
Definition validateReadSet (db : PrivDB) (ns : bytes) (kvReads : list KVRead) (updates : UpdateBatch) : res bool :=
  allM (validateKVRead db ns updates) kvReads.

Definition validateKVReadHash (db : PrivDB) (ns coll : bytes) (updates : UpdateMap) (kvReadHash : KVReadHash) : res bool :=
  let readHashVersion := NewVersion (rh_Version kvReadHash) in
  if UpdateMap_Contains updates ns coll (rh_KeyHash kvReadHash) then Ok false
  else
    committedVersion ← GetKeyHashVersion db ns coll (rh_KeyHash kvReadHash);
    if negb (AreSame committedVersion readHashVersion) then Ok false else Ok true.
Definition validateCollHashedReadSet (db : PrivDB) (ns coll : bytes) (kvReadHashes : list KVReadHash) (updates : UpdateMap) : res bool :=
  allM (validateKVReadHash db ns coll updates) kvReadHashes.
Definition validateNsHashedReadSets (db : PrivDB) (ns : bytes) (collHashedRWSets : list CollHashedRwSet) (updates : UpdateMap) : res bool :=
  allM (λ collHashedRWSet,
    hashed ← deref (HashedRwSet collHashedRWSet);
    validateCollHashedReadSet db ns (ch_CollectionName collHashedRWSet) (HashedReads hashed) updates) collHashedRWSets.

(** ** Range queries *)

Definition validateRangeQuery (db : PrivDB) (ns : bytes) (updates : UpdateBatch) (rangeQueryInfo : RangeQueryInfo) : res bool :=
  let includeEndKey := negb (ItrExhausted rangeQueryInfo) in
  combinedItr ← newCombinedIterator (pdb_vdb db) updates ns (StartKey rangeQueryInfo) (EndKey rangeQueryInfo) includeEndKey;
  let itr := combinedIterator_itr fuel in
  match GetReadsMerkleHashes rangeQueryInfo with
  | Some _ =>
      helper ← rangeQueryHashValidator_init hashFunc rangeQueryInfo;
      rangeQueryHashValidator_validate fuel rangeQueryInfo helper combinedItr
  | None => rangeQueryResultsValidator_validate rangeQueryInfo combinedItr
  end.
Definition validateRangeQueries (db : PrivDB) (ns : bytes) (rangeQueriesInfo : list RangeQueryInfo) (updates : UpdateBatch) : res bool :=
  allM (validateRangeQuery db ns updates) rangeQueriesInfo.

(** ** Transactions *)

Fixpoint validateTx_loop (db : PrivDB) (nsRwSets : list NsRwSet) (updates : publicAndHashUpdates) : res TxValidationCode :=
  match nsRwSets with
  | [] => Ok TxValidationCode_VALID
  | nsRWSet :: nsRwSets =>
      let ns := NameSpace nsRWSet in
      kv ← deref (KvRwSet nsRWSet);
      valid ← validateReadSet db ns (Reads kv) (publicUpdates updates);
      if negb valid then Ok TxValidationCode_MVCC_READ_CONFLICT else
      valid ← validateRangeQueries db ns (RangeQueriesInfo kv) (publicUpdates updates);
      if negb valid then Ok TxValidationCode_PHANTOM_READ_CONFLICT else
      valid ← validateNsHashedReadSets db ns (CollHashedRwSets nsRWSet) (hashUpdates updates);
      if negb valid then Ok TxValidationCode_MVCC_READ_CONFLICT else
      validateTx_loop db nsRwSets updates
  end.
Definition validateTx (db : PrivDB) (txRWSet : TxRwSet) (updates : publicAndHashUpdates) : res TxValidationCode :=
  validateTx_loop db (NsRwSets txRWSet) updates.

Definition validateEndorserTX (db : PrivDB) (txRWSet : TxRwSet) (doMVCCValidation : bool)
    (updates : publicAndHashUpdates) : res TxValidationCode :=
  if doMVCCValidation then validateTx db txRWSet updates else Ok TxValidationCode_VALID.

(** ** Blocks *)

(** The keys of the read sets, each once, in the order of their first use. *)
Definition add_new {A} `{!EqDecision A} (l : list A) (x : A) : list A := if decide (x ∈ l) then l else l ++ [x].
Definition rset_keys (txs : list transaction) : res (list CompositeKey * list HashedCompositeKey) :=
  foldM (λ acc tx,
    foldM (λ '(pubKeys, hashedKeys) nsRWSet,
      kv ← deref (KvRwSet nsRWSet);
      let pubKeys := foldl (λ l kvRead, add_new l {| Namespace := NameSpace nsRWSet; Key := kvr_Key kvRead |}) pubKeys (Reads kv) in
      hashedKeys ← foldM (λ hashedKeys colHashedRwSet,
          hashed ← deref (HashedRwSet colHashedRwSet);
          Ok (foldl (λ l kvHashedRead, add_new l {| hck_Namespace := NameSpace nsRWSet;
                hck_CollectionName := ch_CollectionName colHashedRwSet; hck_KeyHash := rh_KeyHash kvHashedRead |})
              hashedKeys (HashedReads hashed)))
        hashedKeys (CollHashedRwSets nsRWSet);
      Ok (pubKeys, hashedKeys)) acc (NsRwSets (tx_rwset tx)))
    ([], []) txs.
Definition preLoadCommittedVersionOfRSet (db : PrivDB) (blk : block) : res PrivDB :=
  '(pubKeys, hashedKeys) ← rset_keys (blk_txs blk);
  if decide (0 < length pubKeys ∨ 0 < length hashedKeys)
  then LoadCommittedVersionsOfPubAndHashedKeys db pubKeys hashedKeys else Ok db.

(** The height at which the writes of a transaction are committed. *)
Definition committingTxHeight (blk : block) (tx : transaction) : res Height :=
  let blockNumber := if sparseFilterExists blk && negb (bool_decide (blk_num blk = 0%Z))
                     then FatBlockNumber (sparseblockchainFilter blk) else blk_num blk in
  indexInFatBlock ← (if sparseFilterExists blk && negb (bool_decide (blk_num blk = 0%Z))
                     then info ← index (TxnInfoList (sparseblockchainFilter blk)) (indexInBlock tx); Ok (IndexInFatBlock info)
                     else Ok (Z.of_nat (indexInBlock tx)));
  Ok (NewHeight blockNumber indexInFatBlock).

(** The body of the loop over the transactions. *)
Definition validate_one (db : PrivDB) (blk : block) (doMVCCValidation : bool)
    (acc : list transaction * publicAndHashUpdates * pvtdataPurgeTracker) (tx : transaction) :
    res (list transaction * publicAndHashUpdates * pvtdataPurgeTracker) :=
  let '(txs, updates, purgeTracker) := acc in
  code ← (if decide (validationCode tx = TxValidationCode_VALID)
          then validateEndorserTX db (tx_rwset tx) doMVCCValidation updates else Ok (validationCode tx));
  let tx := set_code tx code in
  if decide (validationCode tx = TxValidationCode_VALID) then
    height ← committingTxHeight blk tx;
    updates ← applyWriteSet updates (tx_rwset tx) (Some height) db (containsPostOrderWrites tx);
    Ok (txs ++ [tx], updates, purgeTracker_update purgeTracker (tx_rwset tx) height)
  else Ok (txs ++ [tx], updates, purgeTracker).

Definition validateAndPrepareBatch (db : PrivDB) (blk : block) (doMVCCValidation : bool) :
    res (list transaction * publicAndHashUpdates * list AppInitiatedPurgeUpdate * PrivDB) :=
  db ← (if IsBulkOptimizable (DB := DB) then preLoadCommittedVersionOfRSet db blk else Ok db);
  '(txs, updates, purgeTracker) ← foldM (validate_one db blk doMVCCValidation)
    ([], newPubAndHashUpdates, newPvtdataPurgeTracker) (blk_txs blk);
  Ok (txs, updates, purgeTracker_getUpdates purgeTracker, db).
End validator.

(** ** Specification

    The state a transaction of the block sees: the value of every key after the
    preceding valid transactions, and the keys they touched. *)

Record blockState := { bs_val : compositeKey → option VersionedValue; bs_touched : compositeKey → bool }.

Definition pub_ck (ns key : bytes) : compositeKey := {| ck_ns := ns; ck_coll := []; ck_key := key |}.

(** A read is fresh when no preceding transaction touched its key and the
    version read is the version of its value. *)
Definition read_fresh (a : blockState) (ck : compositeKey) (v : option Height) : Prop :=
  bs_touched a ck = false ∧ (bs_val a ck ≫= vv_Version) = v.

Definition is_range (a : blockState) (ns startKey endKey : bytes) (l : list (bytes * VersionedValue)) : Prop :=
  StronglySorted key_lt l ∧ ∀ k vv, (k, vv) ∈ l ↔ bs_val a (pub_ck ns k) = Some vv ∧ in_range startKey endKey k.

(** The reads a range query gives in a state, [l] being the range. *)
Definition query_reads (a : blockState) (ns : bytes) (rqi : RangeQueryInfo) (l : list (bytes * VersionedValue)) : list KVRead :=
  read_of_kv <$> ((to_kv ns <$> l) ++ end_item ns (negb (ItrExhausted rqi)) (EndKey rqi) (bs_val a (pub_ck ns (EndKey rqi)))).
(** The results recorded for a range query are the results in the state. *)
Definition query_fresh (a : blockState) (ns : bytes) (rqi : RangeQueryInfo) : Prop :=
  ∃ l, is_range a ns (StartKey rqi) (EndKey rqi) l ∧ GetRawReads rqi = query_reads a ns rqi l.

Definition ns_reads (n : NsRwSet) : list KVRead := match KvRwSet n with Some kv => Reads kv | None => [] end.
Definition ns_queries (n : NsRwSet) : list RangeQueryInfo := match KvRwSet n with Some kv => RangeQueriesInfo kv | None => [] end.
Definition coll_reads (c : CollHashedRwSet) : list KVReadHash := match HashedRwSet c with Some h => HashedReads h | None => [] end.

Definition reads_fresh (a : blockState) (n : NsRwSet) : Prop :=
  Forall (λ r, read_fresh a (pub_ck (NameSpace n) (kvr_Key r)) (NewVersion (kvr_Version r))) (ns_reads n).
Definition queries_fresh (a : blockState) (n : NsRwSet) : Prop := Forall (query_fresh a (NameSpace n)) (ns_queries n).
Definition hashed_reads_fresh (a : blockState) (n : NsRwSet) : Prop :=
  Forall (λ c, Forall (λ r, read_fresh a {| ck_ns := NameSpace n; ck_coll := ch_CollectionName c; ck_key := rh_KeyHash r |}
    (NewVersion (rh_Version r))) (coll_reads c)) (CollHashedRwSets n).

(** The verdict on a transaction: valid when all its reads are fresh, else the
    code of the first check that fails, in the order of the namespaces. *)
Inductive verdict (a : blockState) : list NsRwSet → TxValidationCode → Prop :=
| verdict_valid : verdict a [] TxValidationCode_VALID
| verdict_read n l : ¬ reads_fresh a n → verdict a (n :: l) TxValidationCode_MVCC_READ_CONFLICT
| verdict_phantom n l : reads_fresh a n → ¬ queries_fresh a n → verdict a (n :: l) TxValidationCode_PHANTOM_READ_CONFLICT
| verdict_hashed n l : reads_fresh a n → queries_fresh a n → ¬ hashed_reads_fresh a n →
    verdict a (n :: l) TxValidationCode_MVCC_READ_CONFLICT
| verdict_next n l code : reads_fresh a n → queries_fresh a n → hashed_reads_fresh a n → verdict a l code → verdict a (n :: l) code.

(** Executing a transaction. *)
Definition exec_tx (h : Height) (acts : list (compositeKey * action)) (a : blockState) : blockState :=
  {| bs_val ck := exec_key h (on_key ck acts) (bs_val a ck);
     bs_touched ck := bs_touched a ck || touches (bs_val a ck) (on_key ck acts) |}.

Definition state_eq (a b : blockState) : Prop := ∀ ck, bs_val a ck = bs_val b ck ∧ bs_touched a ck = bs_touched b ck.

(** A block: the transactions one after the other; those that came in invalid
    are left alone, the others get their verdict, and the valid ones are
    executed at their height. *)
Inductive block_run `{!ProtoMessage KVMetadataWrite} `{!Sha256} (blk : block) (doMVCC : bool) :
    blockState → list transaction → list transaction → blockState → Prop :=
| run_nil a b : state_eq a b → block_run blk doMVCC a [] [] b
| run_skip a b tx txs txs' : validationCode tx ≠ TxValidationCode_VALID →
    block_run blk doMVCC a txs txs' b → block_run blk doMVCC a (tx :: txs) (tx :: txs') b
| run_reject a b tx txs txs' code : validationCode tx = TxValidationCode_VALID → doMVCC = true →
    verdict a (NsRwSets (tx_rwset tx)) code → code ≠ TxValidationCode_VALID →
    block_run blk doMVCC a txs txs' b → block_run blk doMVCC a (tx :: txs) (set_code tx code :: txs') b
| run_accept a b tx txs txs' h acts : validationCode tx = TxValidationCode_VALID →
    (doMVCC = true → verdict a (NsRwSets (tx_rwset tx)) TxValidationCode_VALID) →
    committingTxHeight blk tx = Ok h → tx_actions (tx_rwset tx) = Ok acts →
    block_run blk doMVCC (exec_tx h acts a) txs txs' b → block_run blk doMVCC a (tx :: txs) (tx :: txs') b.

(** ** Lemmas on the specification *)

#[export] Instance read_fresh_dec a ck v : Decision (read_fresh a ck v).
Proof. unfold read_fresh. apply _. Defined.

Lemma state_eq_sym a b : state_eq a b → state_eq b a.
Proof. intros E ck. destruct (E ck). by split. Qed.

Lemma verdict_proper a b l code : state_eq a b → verdict a l code → verdict b l code.
Proof.
  intros E. assert (∀ ck v, read_fresh a ck v ↔ read_fresh b ck v) as Hr.
  { intros ck v. unfold read_fresh. by destruct (E ck) as [-> ->]. }
  assert (∀ n, reads_fresh a n ↔ reads_fresh b n) as H1.
  { intros n. unfold reads_fresh. apply Forall_iff. intros r. apply Hr. }
  assert (∀ n, hashed_reads_fresh a n ↔ hashed_reads_fresh b n) as H2.
  { intros n. unfold hashed_reads_fresh. apply Forall_iff. intros c. apply Forall_iff. intros r. apply Hr. }
  assert (∀ ns rqi, query_fresh a ns rqi ↔ query_fresh b ns rqi) as H3.
  { intros ns rqi. unfold query_fresh, is_range, query_reads. destruct (E (pub_ck ns (EndKey rqi))) as [-> _].
    assert (∀ k, bs_val a (pub_ck ns k) = bs_val b (pub_ck ns k)) as Hv by (intros k; apply E).
    by setoid_rewrite Hv. }
  assert (∀ n, queries_fresh a n ↔ queries_fresh b n) as H4.
  { intros n. unfold queries_fresh. apply Forall_iff. intros r. apply H3. }
  induction 1; [apply verdict_valid|apply verdict_read|apply verdict_phantom|apply verdict_hashed|apply verdict_next];
    rewrite <-?H1, <-?H2, <-?H4; done.
Qed.

Lemma exec_tx_proper h acts a b : state_eq a b → state_eq (exec_tx h acts a) (exec_tx h acts b).
Proof. intros E ck. simpl. by destruct (E ck) as [-> ->]. Qed.

Lemma allM_decide {A} (f : A → res bool) (P : A → Prop) `{!∀ x, Decision (P x)} l :
  (∀ x, x ∈ l → f x = Ok (bool_decide (P x))) → allM f l = Ok (bool_decide (Forall P l)).
Proof.
  induction l as [|x l IH]; intros Hf; simpl; [done|]. rewrite Hf by left. run.
  destruct (decide (P x)) as [Hx|Hx].
  - rewrite (bool_decide_eq_true_2 (P x)), IH by (done || intros; apply Hf; by right). f_equal.
    apply bool_decide_ext. rewrite Forall_cons. tauto.
  - rewrite (bool_decide_eq_false_2 (P x)), bool_decide_eq_false_2; [done| |done]. rewrite Forall_cons. tauto.
Qed.

Section correct.
Context `{!ProtoMessage KVMetadataWrite} `{!ProtoMessage QueryReads} `{!Sha256}.
Context {DB I L : Type} `{!VersionedDB DB I}.
Context (hashFunc : HashFunc) (db : PrivDB DB L) (st : state) `{!VersionedDBLaws (pdb_vdb db) st}.

(** The state after some updates. *)
Definition state_after (u : publicAndHashUpdates) : blockState :=
  {| bs_val := current db st u; bs_touched ck := bool_decide (is_Some (get_update u ck)) |}.

Lemma untouched_current u ck : get_update u ck = None → current db st u ck = committed db st ck.
Proof. unfold current. by intros ->. Qed.

Lemma fresh_iff u ck v :
  (if bool_decide (is_Some (get_update u ck)) then false else AreSame (committed db st ck ≫= vv_Version) v) =
  bool_decide (read_fresh (state_after u) ck v).
Proof.
  case (decide (is_Some (get_update u ck))) as [Hg|Hg].
  - rewrite bool_decide_eq_true_2 by done. symmetry. apply bool_decide_eq_false_2. intros [Ht _]. simpl in Ht.
    by rewrite bool_decide_eq_true_2 in Ht.
  - rewrite (bool_decide_eq_false_2 (is_Some _)) by done.
    assert (read_fresh (state_after u) ck v ↔ (committed db st ck ≫= vv_Version) = v) as Hr.
    { unfold read_fresh; simpl. rewrite untouched_current by (by apply eq_None_not_Some).
      rewrite bool_decide_eq_false. tauto. }
    destruct (AreSame _ _) eqn:E; symmetry.
    + apply bool_decide_eq_true_2, Hr. by apply AreSame_spec.
    + apply bool_decide_eq_false_2. rewrite Hr, <-AreSame_spec. congruence.
Qed.

Lemma validateKVRead_spec u ns r :
  validateKVRead db ns (publicUpdates u) r =
  Ok (bool_decide (read_fresh (state_after u) (pub_ck ns (kvr_Key r)) (NewVersion (kvr_Version r)))).
Proof.
  rewrite <-fresh_iff. unfold validateKVRead. rewrite Exists_Get, GetVersion_law. run.
  unfold get_update, committed; simpl. case_bool_decide; [done|]. by destruct (AreSame _ _).
Qed.
Lemma validateKVReadHash_spec u ns coll r :
  coll ≠ [] → validateKVReadHash db ns coll (hashUpdates u) r =
  Ok (bool_decide (read_fresh (state_after u) {| ck_ns := ns; ck_coll := coll; ck_key := rh_KeyHash r |} (NewVersion (rh_Version r)))).
Proof.
  intros Hc. rewrite <-fresh_iff. unfold validateKVReadHash, GetKeyHashVersion. rewrite Contains_Get, GetVersion_law. run.
  unfold get_update, committed; simpl. rewrite !decide_False by done. case_bool_decide; [done|]. by destruct (AreSame _ _).
Qed.

(** The range of the state after the updates. *)
Lemma is_range_after u ns s e :
  is_range (state_after u) ns s e (range_kvs (overlay (st ns) (UpdateBatch_GetUpdates (publicUpdates u) ns)) s e).
Proof.
  split; [apply range_kvs_sorted|]. intros k vv. rewrite elem_of_range_kvs, lookup_overlay, lookup_GetUpdates. done.
Qed.

Lemma is_range_unique a ns s e l l' : is_range a ns s e l → is_range a ns s e l' → l = l'.
Proof. intros [Hs1 H1] [Hs2 H2]. apply ssorted_unique; [done..|]. intros [k vv]. by rewrite H1, H2. Qed.

(** What the combined iterator of a query returns. *)
Lemma query_results u ns rqi :
  x00 ∉ ns → ∃ N l, is_range (state_after u) ns (StartKey rqi) (EndKey rqi) l ∧ ∀ fuel, N ≤ fuel →
    length ((to_kv ns <$> l) ++ end_item ns (negb (ItrExhausted rqi)) (EndKey rqi) (bs_val (state_after u) (pub_ck ns (EndKey rqi)))) < fuel ∧
    ∃ c, newCombinedIterator (pdb_vdb db) (publicUpdates u) ns (StartKey rqi) (EndKey rqi) (negb (ItrExhausted rqi)) = Ok c ∧
      Drains (ResultsIterator0 := combinedIterator_itr fuel) c
        ((to_kv ns <$> l) ++ end_item ns (negb (ItrExhausted rqi)) (EndKey rqi) (bs_val (state_after u) (pub_ck ns (EndKey rqi)))).
Proof.
  intros Hns. set (l := range_kvs (overlay (st ns) (UpdateBatch_GetUpdates (publicUpdates u) ns)) (StartKey rqi) (EndKey rqi)).
  set (L' := (to_kv ns <$> l) ++ end_item ns (negb (ItrExhausted rqi)) (EndKey rqi) (bs_val (state_after u) (pub_ck ns (EndKey rqi)))).
  exists (S (length L') + S (length (range_kvs (st ns) (StartKey rqi) (EndKey rqi)) +
    length (range_kvs (UpdateBatch_GetUpdates (publicUpdates u) ns) (StartKey rqi) (EndKey rqi)))), l.
  split; [apply is_range_after|]. intros fuel Hf. assert (length L' < fuel) as HL by lia. split; [exact HL|].
  destruct (newCombinedIterator_drains ns fuel (pdb_vdb db) (publicUpdates u) (StartKey rqi) (EndKey rqi) (negb (ItrExhausted rqi)) st)
    as (c & Hc & Hd); [done|lia|]. exists c. split; [done|]. exact Hd.
Qed.

(** Queries recorded as they are, every read with its version. *)
Definition raw_query (rqi : RangeQueryInfo) : Prop :=
  GetReadsMerkleHashes rqi = None ∧ Forall (λ r, is_Some (kvr_Version r)) (GetRawReads rqi).

Lemma validateRangeQuery_raw u ns rqi :
  x00 ∉ ns → raw_query rqi →
  ∃ b, (b = true ↔ query_fresh (state_after u) ns rqi) ∧
    ∃ N, ∀ fuel, N ≤ fuel → validateRangeQuery fuel hashFunc db ns (publicUpdates u) rqi = Ok b.
Proof.
  intros Hns [Hm Hv]. destruct (query_results u ns rqi Hns) as (N & l & Hl & Hq).
  exists (bool_decide (GetRawReads rqi = query_reads (state_after u) ns rqi l)). split.
  - rewrite bool_decide_eq_true. split; [by exists l|]. intros (l' & Hl' & ->). f_equal. by eapply is_range_unique.
  - exists N. intros fuel Hf. destruct (Hq fuel Hf) as (_ & c & Hc & Hd). unfold validateRangeQuery. rewrite Hc. run.
    rewrite Hm. by rewrite (results_validate_spec _ _ _ Hv Hd).
Qed.

Lemma validateRangeQueries_raw u ns l :
  x00 ∉ ns → Forall raw_query l →
  ∃ b, (b = true ↔ Forall (query_fresh (state_after u) ns) l) ∧
    ∃ N, ∀ fuel, N ≤ fuel → validateRangeQueries fuel hashFunc db ns l (publicUpdates u) = Ok b.
Proof.
  intros Hns. induction 1 as [|rqi l Hrqi Hl (b & Hb & N & IH)].
  - exists true. split; [split; auto|]. by exists 0.
  - destruct (validateRangeQuery_raw u ns rqi Hns Hrqi) as (b1 & Hb1 & N1 & H1).
    exists (b1 && b). split; [rewrite andb_true_iff, Forall_cons; tauto|]. exists (N1 + N). intros fuel Hf.
    unfold validateRangeQueries in *. simpl. rewrite H1 by lia. run. destruct b1; simpl; [apply IH; lia|done].
Qed.

(** Namespaces the validation handles. *)
Definition ns_ok (n : NsRwSet) : Prop :=
  x00 ∉ NameSpace n ∧ is_Some (KvRwSet n) ∧ Forall raw_query (ns_queries n) ∧
  Forall (λ c, ch_CollectionName c ≠ [] ∧ is_Some (HashedRwSet c)) (CollHashedRwSets n).

Lemma validateNsHashedReadSets_spec u n :
  Forall (λ c, ch_CollectionName c ≠ [] ∧ is_Some (HashedRwSet c)) (CollHashedRwSets n) →
  validateNsHashedReadSets db (NameSpace n) (CollHashedRwSets n) (hashUpdates u) =
  Ok (bool_decide (hashed_reads_fresh (state_after u) n)).
Proof.
  intros Hc. apply allM_decide. rewrite Forall_forall in Hc. intros c [Hne [h Hh]]%Hc.
  rewrite Hh. unfold deref. run. unfold validateCollHashedReadSet, coll_reads. rewrite Hh.
  apply allM_decide. intros r _. by apply validateKVReadHash_spec.
Qed.

Lemma validateTx_spec u l :
  Forall ns_ok l →
  ∃ code, verdict (state_after u) l code ∧
    ∃ N, ∀ fuel, N ≤ fuel → validateTx_loop fuel hashFunc db l u = Ok code.
Proof.
  induction 1 as [|n l (Hns & [kv Hkv] & Hq & Hc) Hl (code & Hcode & N & IH)].
  { exists TxValidationCode_VALID. split; [constructor|]. by exists 0. }
  destruct (validateRangeQueries_raw u (NameSpace n) (RangeQueriesInfo kv) Hns) as (b & Hb & Nq & Hrq).
  { unfold ns_queries in Hq. by rewrite Hkv in Hq. }
  assert (validateReadSet db (NameSpace n) (Reads kv) (publicUpdates u) = Ok (bool_decide (reads_fresh (state_after u) n))) as Hr.
  { unfold reads_fresh, ns_reads. rewrite Hkv. apply allM_decide. intros r _. apply validateKVRead_spec. }
  pose proof (validateNsHashedReadSets_spec u n Hc) as Hh.
  assert (b = true ↔ queries_fresh (state_after u) n) as Hb'.
  { unfold queries_fresh, ns_queries. by rewrite Hkv. }
  assert (∀ fuel, Nq ≤ fuel → validateTx_loop fuel hashFunc db (n :: l) u =
    if bool_decide (reads_fresh (state_after u) n) then
      if b then if bool_decide (hashed_reads_fresh (state_after u) n) then validateTx_loop fuel hashFunc db l u
                else Ok TxValidationCode_MVCC_READ_CONFLICT
      else Ok TxValidationCode_PHANTOM_READ_CONFLICT
    else Ok TxValidationCode_MVCC_READ_CONFLICT) as Hstep.
  { intros fuel Hf. cbn [validateTx_loop]. rewrite Hkv. unfold deref. run. rewrite Hr. run.
    destruct (bool_decide (reads_fresh _ n)); [|done]. cbn [negb]. rewrite Hrq by done. run. destruct b; [|done].
    cbn [negb]. rewrite Hh. run. by destruct (bool_decide (hashed_reads_fresh _ n)). }
  destruct (decide (reads_fresh (state_after u) n)) as [H1|H1].
  2:{ exists TxValidationCode_MVCC_READ_CONFLICT. split; [by apply verdict_read|]. exists Nq. intros fuel Hf.
      by rewrite Hstep, bool_decide_eq_false_2. }
  destruct b; [|exists TxValidationCode_PHANTOM_READ_CONFLICT; split; [apply verdict_phantom; [done|]; by rewrite <-Hb'|];
    exists Nq; intros fuel Hf; by rewrite Hstep, bool_decide_eq_true_2].
  destruct (decide (hashed_reads_fresh (state_after u) n)) as [H2|H2].
  - exists code. split; [apply verdict_next; [done|by apply Hb'|done|done]|]. exists (N + Nq). intros fuel Hf.
    rewrite Hstep, !bool_decide_eq_true_2 by (done || lia). apply IH. lia.
  - exists TxValidationCode_MVCC_READ_CONFLICT. split; [apply verdict_hashed; [done|by apply Hb'|done]|]. exists Nq. intros fuel Hf.
    by rewrite Hstep, bool_decide_eq_true_2, bool_decide_eq_false_2.
Qed.

(** ** Blocks *)

Definition tx_ok (blk : block) (tx : transaction) : Prop :=
  Forall ns_ok (NsRwSets (tx_rwset tx)) ∧
  ∃ acts h, tx_actions (tx_rwset tx) = Ok acts ∧ actions_ok acts ∧ committingTxHeight blk tx = Ok h.
(** The later transaction does not write just the metadata of a key the earlier
    one deletes. *)
Definition no_metadata_after_delete (tx tx' : transaction) : Prop :=
  ∀ acts acts' ck, tx_actions (tx_rwset tx) = Ok acts → tx_actions (tx_rwset tx') = Ok acts' →
    write_effect (on_key ck acts) = Some None → write_effect (on_key ck acts') = None →
    metadata_effect (on_key ck acts') = None.

(** The purges of the transactions that end up valid. *)
Definition purges_of (blk : block) (p : pvtdataPurgeTracker) (txs : list transaction) : pvtdataPurgeTracker :=
  foldl (λ p tx, if decide (validationCode tx = TxValidationCode_VALID) then
    match committingTxHeight blk tx with Ok h => purgeTracker_update p (tx_rwset tx) h | _ => p end else p) p txs.

Lemma set_code_id tx code : validationCode tx = code → set_code tx code = tx.
Proof. destruct tx; simpl. by intros ->. Qed.

(** The code a transaction gets. *)
Lemma validate_code (doMVCC : bool) u tx :
  Forall ns_ok (NsRwSets (tx_rwset tx)) →
  ∃ code, (if doMVCC then verdict (state_after u) (NsRwSets (tx_rwset tx)) code else code = TxValidationCode_VALID) ∧
    ∃ N, ∀ fuel, N ≤ fuel → validateEndorserTX fuel hashFunc db (tx_rwset tx) doMVCC u = Ok code.
Proof.
  intros Hok. unfold validateEndorserTX, validateTx. destruct doMVCC; [by apply validateTx_spec|].
  exists TxValidationCode_VALID. split; [done|]. by exists 0.
Qed.

(** The deletes of the preceding transactions do not meet a metadata write in
    the following ones. *)
Definition deletes_safe (u : publicAndHashUpdates) (txs : list transaction) : Prop :=
  ∀ ck vv, get_update u ck = Some vv → IsDelete vv = true → Forall (λ tx, ∀ acts, tx_actions (tx_rwset tx) = Ok acts →
    write_effect (on_key ck acts) = None → metadata_effect (on_key ck acts) = None) txs.

Context (Hsound : hint_sound (pdb_hint db) st).

Lemma apply_valid blk u tx txs :
  tx_ok blk tx → updates_wf u → deletes_safe u (tx :: txs) → Forall (no_metadata_after_delete tx) txs →
  ∃ acts h u', tx_actions (tx_rwset tx) = Ok acts ∧ committingTxHeight blk tx = Ok h ∧
    applyWriteSet u (tx_rwset tx) (Some h) db (containsPostOrderWrites tx) = Ok u' ∧
    updates_wf u' ∧ deletes_safe u' txs ∧ state_eq (exec_tx h acts (state_after u)) (state_after u').
Proof.
  intros (_ & acts & h & Hacts & Hok & Hh) Hu Hds Hnext.
  destruct (applyWriteSet_exec db st Hsound u (tx_rwset tx) acts h (containsPostOrderWrites tx)) as (u' & Hap & Hu' & Hcur & Htou & Hdel);
    [done..| |].
  { intros ck (Hw & [m Hm] & vv & Hg & Hd). specialize (Hds ck vv Hg Hd). apply Forall_cons in Hds as [Hds _].
    specialize (Hds acts Hacts Hw). congruence. }
  exists acts, h, u'. split_and!; [done..| |].
  - intros ck vv Hg Hd. destruct (Hdel ck vv Hg Hd) as [Hw|Hold].
    + eapply Forall_impl; [exact Hnext|]. intros tx' Htx' acts' Hacts' Hw'. by eapply Htx'.
    + specialize (Hds ck vv Hold Hd). by apply Forall_cons in Hds as [_ ?].
  - intros ck. simpl. split; [by rewrite Hcur|]. specialize (Htou ck).
    destruct (decide (is_Some (get_update u' ck))); [rewrite (bool_decide_eq_true_2 (is_Some (get_update u' ck)))|
      rewrite (bool_decide_eq_false_2 (is_Some (get_update u' ck)))]; try done.
    + apply orb_true_iff. rewrite bool_decide_eq_true. naive_solver.
    + apply orb_false_iff. rewrite bool_decide_eq_false. destruct (touches _ _); naive_solver.
Qed.

Lemma fold_txs blk doMVCC txs : ∀ u pre p a,
  state_eq a (state_after u) → updates_wf u → Forall (tx_ok blk) txs → deletes_safe u txs →
  StronglySorted no_metadata_after_delete txs →
  ∃ txs' u', block_run blk doMVCC a txs txs' (state_after u') ∧ updates_wf u' ∧
    ∃ N, ∀ fuel, N ≤ fuel → foldM (validate_one fuel hashFunc db blk doMVCC) (pre, u, p) txs =
      Ok (pre ++ txs', u', purges_of blk p txs').
Proof.
  induction txs as [|tx txs IH]; intros u pre p a Ha Hu Hok Hds Hss.
  { exists [], u. split_and!; [by constructor|done|]. exists 0. intros fuel _. by rewrite app_nil_r. }
  apply Forall_cons in Hok as [Htx Hok]. inversion Hss as [|? ? Hss' Hnext]; subst.
  assert (deletes_safe u txs) as Hds' by (intros ck vv Hg Hd; by specialize (Hds ck vv Hg Hd); apply Forall_cons in Hds as [_ ?]).
  destruct (decide (validationCode tx = TxValidationCode_VALID)) as [Hv|Hv].
  2:{ destruct (IH u (pre ++ [tx]) p a) as (txs' & u' & Hrun & Hu' & N & HN); [done..|].
      exists (tx :: txs'), u'. split_and!; [by apply run_skip|done|]. exists N. intros fuel Hf. cbn [foldM].
      unfold validate_one at 2. cbv beta iota zeta. rewrite decide_False by done. run. rewrite set_code_id by done. rewrite decide_False by done. run.
      rewrite HN by done. unfold purges_of at 2. simpl. rewrite decide_False by done. by rewrite <-app_assoc. }
  destruct (validate_code doMVCC u tx) as (code & Hcode & N1 & HN1); [apply Htx|].
  destruct (decide (code = TxValidationCode_VALID)) as [->|Hne].
  - destruct (apply_valid blk u tx txs) as (acts & h & u1 & Hacts & Hh & Hap & Hu1 & Hds1 & Heq); [done..|].
    destruct (IH u1 (pre ++ [tx]) (purgeTracker_update p (tx_rwset tx) h) (exec_tx h acts a)) as (txs' & u' & Hrun & Hu' & N & HN); [|done..|].
    { intros ck. destruct (exec_tx_proper h acts _ _ Ha ck) as [-> ->]. apply Heq. }
    exists (tx :: txs'), u'. split_and!; [|done|].
    { eapply run_accept; [done| |done..]. intros ->. by eapply verdict_proper; [apply state_eq_sym|]. }
    exists (N1 + N). intros fuel Hf. cbn [foldM]. unfold validate_one at 2. cbv beta iota zeta. rewrite decide_True by done.
    rewrite HN1 by lia. run. rewrite set_code_id, decide_True by done. rewrite Hh. run. rewrite Hap. run. rewrite HN by lia.
    unfold purges_of at 2. simpl. rewrite decide_True, Hh by done. by rewrite <-app_assoc.
  - destruct doMVCC; [|done].
    destruct (IH u (pre ++ [set_code tx code]) p a) as (txs' & u' & Hrun & Hu' & N & HN); [done..|].
    exists (set_code tx code :: txs'), u'. split_and!; [|done|].
    { eapply run_reject; [done..| |done|done]. by eapply verdict_proper; [apply state_eq_sym|]. }
    exists (N1 + N). intros fuel Hf. cbn [foldM]. unfold validate_one at 2. cbv beta iota zeta. rewrite decide_True by done.
    rewrite HN1 by lia. run. rewrite decide_False by done. run. rewrite HN by lia.
    unfold purges_of at 2. simpl. rewrite decide_False by done. by rewrite <-app_assoc.
Qed.

Lemma rset_keys_ok blk txs : Forall (tx_ok blk) txs → ∃ r, rset_keys txs = Ok r.
Proof.
  assert (∀ {A S} (f : S → A → res S) l s, (∀ s x, x ∈ l → ∃ s', f s x = Ok s') → ∃ s', foldM f s l = Ok s') as Hfold.
  { intros A S f l. induction l as [|x l IH]; intros s Hf; simpl; [eauto|]. destruct (Hf s x) as [s' ->]; [by left|]. run.
    apply IH. intros; apply Hf; by right. }
  intros Hok. unfold rset_keys. apply Hfold. intros s tx Htx. rewrite Forall_forall in Hok.
  destruct (Hok tx Htx) as [Hns _]. rewrite Forall_forall in Hns. apply Hfold. intros [pk hk] n Hn.
  destruct (Hns n Hn) as (_ & [kv ->] & _ & Hc). change (deref (Some kv)) with (Ok kv). run. rewrite Forall_forall in Hc.
  cbv zeta. match goal with |- ∃ _, foldM ?f ?s ?l ≫= _ = _ => destruct (Hfold _ _ f l s) as [hk' Hk'] end;
    [|rewrite Hk'; run; eauto].
  intros s' c Hin. destruct (Hc c Hin) as [_ [h ->]]. unfold deref. run. eauto.
Qed.
End correct.

(** Loading the read versions into the cache keeps the state. *)
Lemma preload_ok `{!ProtoMessage KVMetadataWrite} `{!Sha256} {DB I L} `{!VersionedDB DB I} `{!VersionedDBLoadLaws DB I}
    (db : PrivDB DB L) st blk :
  VersionedDBLaws (pdb_vdb db) st → Forall (tx_ok blk) (blk_txs blk) →
  ∃ db', (if IsBulkOptimizable (DB := DB) then preLoadCommittedVersionOfRSet db blk else Ok db) = Ok db' ∧
    VersionedDBLaws (pdb_vdb db') st ∧ pdb_hint db' = pdb_hint db ∧ ∀ ck, committed db' st ck = committed db st ck.
Proof.
  intros Hl Hok. unfold IsBulkOptimizable, preLoadCommittedVersionOfRSet, LoadCommittedVersionsOfPubAndHashedKeys.
  destruct (LoadCommittedVersions (DB := DB)) as [load|] eqn:E; [|by exists db].
  destruct (rset_keys_ok blk (blk_txs blk) Hok) as [[pk hk] ->]. run. case_decide; [|by exists db].
  edestruct (LoadCommittedVersions_law load (pdb_vdb db) st) as (vdb & -> & Hl' & Hb); [done..|]. run.
  eexists; split_and!; [done..|]. intros ck. unfold committed, key_hash_str. simpl. by rewrite Hb.
Qed.

(** ** Properties *)

Section properties.
Context `{!ProtoMessage KVMetadataWrite} `{!ProtoMessage QueryReads} `{!Sha256}.
Context {DB I L : Type} `{!VersionedDB DB I}.

(** The state before the first transaction. *)
Definition committed_state (db : PrivDB DB L) (st : state) : blockState :=
  {| bs_val := committed db st; bs_touched _ := false |}.

(** C1: MVCC validation of a block is its serial execution. For a block of
    well-formed transactions whose range queries are recorded as plain reads,
    validation returns (for every large enough bound on the iterators): each
    transaction gets exactly the verdict its reads deserve in the state left by
    the valid transactions before it (every key and hashed key it read still
    has the version it read and was not touched in the block, every range query
    still has the same results), and the collected updates, laid over the
    committed state, are the state after executing the valid transactions in
    their order at their heights. Purges are those of the valid transactions. *)
Theorem block_validation_serial `{!VersionedDBLoadLaws DB I} (hashFunc : HashFunc) (db : PrivDB DB L) (st : state) (blk : block) (doMVCC : bool)
    (Hlaws : VersionedDBLaws (pdb_vdb db) st) (Hsound : hint_sound (pdb_hint db) st)
    (Hok : Forall (tx_ok blk) (blk_txs blk)) (Hmd : StronglySorted no_metadata_after_delete (blk_txs blk)) :
  ∃ txs u db' N, block_run blk doMVCC (committed_state db st) (blk_txs blk) txs (state_after db st u) ∧
    ∀ fuel, N ≤ fuel → validateAndPrepareBatch fuel hashFunc db blk doMVCC =
      Ok (txs, u, purgeTracker_getUpdates (purges_of blk newPvtdataPurgeTracker txs), db').
Proof.
  destruct (preload_ok db st blk Hlaws Hok) as (db' & Hpre & Hlaws' & Hhint & Hcom).
  destruct (fold_txs hashFunc db' st ltac:(by rewrite Hhint) blk doMVCC (blk_txs blk) newPubAndHashUpdates [] newPvtdataPurgeTracker
    (committed_state db st)) as (txs & u & Hrun & _ & N & HN); [| |done| |done|].
  - intros ck. simpl. unfold current, get_update. rewrite Hcom. by case_decide.
  - intros ck vv. unfold get_update. by case_decide.
  - intros ck vv. unfold get_update. by case_decide.
  - exists txs, u, db', N. split.
    + clear -Hrun Hcom. remember (state_after db' st u) as b eqn:Hb. induction Hrun; subst.
      * apply run_nil. intros ck. simpl. rename select (state_eq _ _) into Heq. destruct (Heq ck) as [-> ->]. simpl.
        unfold current. by rewrite Hcom.
      * apply run_skip; auto.
      * eapply run_reject; eauto.
      * eapply run_accept; eauto.
    + intros fuel Hf. unfold validateAndPrepareBatch. rewrite Hpre. run. rewrite HN by done. by run.
Qed.

(** C30: the phantom-read check of a range query is exact. On the results the
    query has in the state after the preceding transactions of the block
    (the range of that state, and the end key when the iterator was not
    exhausted), a query recorded as plain reads is accepted if and only if the
    reads are those results, and rejected otherwise; a query recorded as a
    Merkle summary is accepted if and only if the summary of those results is
    the recorded one. *)
Theorem range_query_validation (d : nat) (hashFunc : HashFunc) (hashf : bytes → bytes) (ser : list KVRead → bytes)
    (db : PrivDB DB L) (st : state) (u : publicAndHashUpdates) (ns : bytes) (rqi : RangeQueryInfo)
    (Hlaws : VersionedDBLaws (pdb_vdb db) st) (Hns : x00 ∉ ns)
    (Hd : 2 ≤ d) (Hd32 : (Z.of_nat d < two32 - 1)%Z)
    (Hhash : ∀ b, hashFunc b = Ok (hashf b)) (Hser : ∀ l, serializeKVReads l = Ok (ser l)) :
  ∃ N l, is_range (state_after db st u) ns (StartKey rqi) (EndKey rqi) l ∧
    ∀ fuel, N ≤ fuel →
      let now := query_reads (state_after db st u) ns rqi l in
      let check := validateRangeQuery fuel hashFunc db ns (publicUpdates u) rqi in
      match GetReadsMerkleHashes rqi with
      | None => Forall (λ r, is_Some (kvr_Version r)) (GetRawReads rqi) → check = Ok (bool_decide (GetRawReads rqi = now))
      | Some s => MaxDegree s = Z.of_nat d → check = Ok true ↔ (merkle_reference d hashf ser now).2 = Some s
      end.
Proof.
  destruct (query_results db st u ns rqi Hns) as (N & l & Hl & Hq). exists N, l. split; [done|]. intros fuel Hf.
  destruct (Hq fuel Hf) as (Hlen & c & Hc & Hdr). cbv zeta. unfold validateRangeQuery. rewrite Hc. run.
  destruct (GetReadsMerkleHashes rqi) as [s|] eqn:Hm.
  - intros Hdeg. destruct (hash_validate_spec (ResultsIterator0 := combinedIterator_itr fuel) d hashFunc hashf ser
      Hd Hd32 Hhash Hser fuel rqi s _ c Hm Hdeg Hdr Hlen) as (h & -> & Hiff). run. exact Hiff.
  - intros Hv. by rewrite (results_validate_spec _ _ _ Hv Hdr).
Qed.
End properties.

(** A block of two transactions: the first writes a key, the second has read it
    before that write. *)
#[local] Existing Instances sample_priv_codec sample_priv_laws sample_priv_sha sample_tx_codec sample_range_codec.
Definition sample_reader : TxRwSet :=
  {| NsRwSets := [{| NameSpace := B "cc";
       KvRwSet := Some {| Reads := [{| kvr_Key := B "k"; kvr_Version := None |}];
         RangeQueriesInfo := [SetRawReads (sample_rqi None) []]; Writes := [sample_write (B "k2") (B "w")]; MetadataWrites := [] |};
       CollHashedRwSets := [] |}] |}.
Definition sample_transaction (i : nat) (rwset : TxRwSet) : transaction :=
  {| indexInBlock := i; tx_id := B "id"; tx_rwset := rwset; validationCode := 0; containsPostOrderWrites := false |}.
Definition sample_block : block :=
  {| blk_num := 7; blk_txs := [sample_transaction 0 (sample_tx [sample_write (B "k") (B "v")] []); sample_transaction 1 sample_reader];
     sparseblockchainFilter := {| FatBlockNumber := 0; TxnInfoList := [] |}; sparseFilterExists := false |}.

Lemma sample_actions_ok k v : actions_ok [(sample_ck k, ASet v)].
Proof.
  assert (plain_ns (B "cc")) as Hcc by (split; vm_compute; set_solver). split.
  - intros ck. unfold on_key; simpl. destruct (decide (sample_ck k = ck)); simpl; lia.
  - intros ck. unfold on_key; simpl. destruct (decide (sample_ck k = ck)) as [<-|]; [|done]. intros _. split; [done|]. by intros ?%not_elem_of_nil.
Qed.

Lemma sample_block_ok : Forall (tx_ok sample_block) (blk_txs sample_block).
Proof.
  assert (x00 ∉ B "cc") as Hcc by (vm_compute; set_solver).
  repeat constructor; simpl; try (by eexists); try done.
  - exists [(sample_ck (B "k"), ASet (B "v"))], (NewHeight 7 0). split_and!; [done|apply sample_actions_ok|done].
  - exists [(sample_ck (B "k2"), ASet (B "w"))], (NewHeight 7 1). split_and!; [done|apply sample_actions_ok|done].
Qed.

Lemma block_validation_serial_witness :
  (∃ txs u db' N, block_run sample_block true (committed_state sample_priv_db (λ _, ∅)) (blk_txs sample_block) txs
      (state_after sample_priv_db (λ _, ∅) u) ∧
    ∀ fuel, N ≤ fuel → validateAndPrepareBatch fuel sample_hash sample_priv_db sample_block true =
      Ok (txs, u, purgeTracker_getUpdates (purges_of sample_block newPvtdataPurgeTracker txs), db')) ∧
  match validateAndPrepareBatch 10 sample_hash sample_priv_db sample_block true with
  | Ok (txs, _, _, _) => validationCode <$> txs = [TxValidationCode_VALID; TxValidationCode_MVCC_READ_CONFLICT]
  | _ => False
  end.
Proof.
  split; [|vm_compute; reflexivity].
  apply (block_validation_serial sample_hash sample_priv_db (λ _, ∅) sample_block true _ sample_hint_sound sample_block_ok).
  repeat constructor. intros acts acts' ck [= <-] _ H. unfold on_key in H. simpl in H.
  by destruct (decide _).
Defined.

Lemma range_query_validation_witness :
  ∃ N l, is_range (state_after sample_priv_db (λ _, ∅) newPubAndHashUpdates) (B "cc") [] [] l ∧
    ∀ fuel, N ≤ fuel → validateRangeQuery fuel sample_hash sample_priv_db (B "cc") NewUpdateBatch (SetRawReads (sample_rqi None) []) =
      Ok (bool_decide ([] = query_reads (state_after sample_priv_db (λ _, ∅) newPubAndHashUpdates) (B "cc") (SetRawReads (sample_rqi None) []) l)).
Proof.
  assert (x00 ∉ B "cc") as Hcc by (vm_compute; set_solver).
  destruct (range_query_validation 2 sample_hash (λ b, x07 :: b) sample_ser sample_priv_db (λ _, ∅) newPubAndHashUpdates (B "cc")
    (SetRawReads (sample_rqi None) []) _ Hcc) as (N & l & Hl & Hq); [lia|done|done|done|].
  exists N, l. split; [exact Hl|]. intros fuel Hf. apply (Hq fuel Hf). constructor.
Defined.
