(* ===== verification/LiteRwset.v ===== *)
(** * Lite read-write sets

  A lite ("lean") envelope carries the read-write set of a transaction as a
  message of package common (fabric-protos-go/common/common.pb.go) instead of
  the nested byte strings of package rwset. This file holds these messages and
  the conversion of protoutil/liteutils.go from the ordinary read-write set to
  them, made by the endorser before it signs.

  The messages of package common that have the same fields as those of package
  kvrwset ([KVRead], [KVWrite], [RangeQueryInfo], ...) are represented by the
  records of Rwset; [KVWriteHash], which has no purge flag, has a record of its
  own. *)

From S2P Require Import Prelude SortedMap Version StateDB Proto Rwset.
From stdpp Require Import options.
Local Open Scope nat_scope.
Set Default Proof Using "Type*".

(** ** Messages of common.proto *)

Record LtxKVWriteHash := { lwh_KeyHash : bytes; lwh_IsDelete : bool; lwh_ValueHash : option bytes }.
Record LtxHashedRWSet := {
  lh_HashedReads : list KVReadHash;
  lh_HashedWrites : list LtxKVWriteHash;
  lh_MetadataWrites : list KVMetadataWriteHash
}.
Record LtxCollectionHashedReadWriteSet := {
  lc_CollectionName : bytes;
  lc_HashedRwset : option LtxHashedRWSet;
  lc_PvtRwsetHash : option bytes
}.
Record LtxNsReadWriteSet := {
  ln_Namespace : bytes;
  ln_Rwset : option KVRWSet;
  ln_CollectionHashedRwset : list LtxCollectionHashedReadWriteSet
}.
Record LtxTxReadWriteSet := { lt_DataModel : DataModel; lt_NsRwset : list LtxNsReadWriteSet }.

(** ** rwset_proto_util.go on lite messages *)

Definition NewLtxVersion (protoVersion : option ProtoVersion) : option Height :=
  match protoVersion with
  | None => None
  | Some v => Some (NewHeight (pv_BlockNum v) (pv_TxNum v))
  end.
Definition IsLtxKVWriteDelete (kvWrite : KVWrite) : bool :=
  kvw_IsDelete kvWrite || bool_decide (blen (kvw_Value kvWrite) = 0).
Definition IsLtxKVWriteHashDelete `{!Sha256} (kvWriteHash : LtxKVWriteHash) : bool :=
  lwh_IsDelete kvWriteHash || bool_decide (blen (lwh_ValueHash kvWriteHash) = 0)
    || bool_decide (hashOfZeroLengthByteArray = default [] (lwh_ValueHash kvWriteHash)).

(** ** liteutils.go

    The conversion reads through the pointers of its argument: a nil message
    panics. *)

Definition GetCommonVersion (kVersion : option ProtoVersion) : option ProtoVersion :=
  match kVersion with
  | None => None
  | Some v => Some {| pv_BlockNum := pv_BlockNum v; pv_TxNum := pv_TxNum v |}
  end.

Definition GetKVRWSet (rwset : option KVRWSet) : res KVRWSet :=
  rwset ← deref rwset;
  Ok {| Reads := (λ rd, {| kvr_Key := kvr_Key rd; kvr_Version := GetCommonVersion (kvr_Version rd) |}) <$> Reads rwset;
        RangeQueriesInfo := [];
        Writes := (λ wr, {| kvw_Key := kvw_Key wr; kvw_IsDelete := kvw_IsDelete wr; kvw_Value := kvw_Value wr |}) <$> Writes rwset;
        MetadataWrites := [] |}.
Definition GetHRWSet (hrwset : option HashedRWSet) : res LtxHashedRWSet :=
  hrwset ← deref hrwset;
  Ok {| lh_HashedReads := (λ rd, {| rh_KeyHash := rh_KeyHash rd; rh_Version := GetCommonVersion (rh_Version rd) |}) <$> HashedReads hrwset;
        lh_HashedWrites := (λ wr, {| lwh_KeyHash := wh_KeyHash wr; lwh_IsDelete := wh_IsDelete wr;
                                     lwh_ValueHash := wh_ValueHash wr |}) <$> HashedWrites hrwset;
        lh_MetadataWrites := [] |}.
Definition GetCollHRWSet (hrwset : CollHashedRwSet) : res LtxCollectionHashedReadWriteSet :=
  h ← GetHRWSet (HashedRwSet hrwset);
  Ok {| lc_CollectionName := ch_CollectionName hrwset; lc_HashedRwset := Some h; lc_PvtRwsetHash := PvtRwSetHash hrwset |}.
Definition GetNSForLT (ns : NsRwSet) : res LtxNsReadWriteSet :=
  kv ← GetKVRWSet (KvRwSet ns);
  colls ← mapM GetCollHRWSet (CollHashedRwSets ns);
  Ok {| ln_Namespace := NameSpace ns; ln_Rwset := Some kv; ln_CollectionHashedRwset := colls |}.
Definition GettxRWSetForLightTxn (txRWSet : TxRwSet) : res LtxTxReadWriteSet :=
  nss ← mapM GetNSForLT (NsRwSets txRWSet);
  Ok {| lt_DataModel := KV; lt_NsRwset := nss |}.

(** ** hashcheck_pvtdataadapter.go: the way back

    Used to check the private data that a peer receives after the commit
    against the hashes in the block. *)

Definition GetVersionFromLtx (kVersion : option ProtoVersion) : option ProtoVersion :=
  match kVersion with
  | None => None
  | Some v => Some {| pv_BlockNum := pv_BlockNum v; pv_TxNum := pv_TxNum v |}
  end.
Definition GetKvRwSetFromLtx (rwset : option KVRWSet) : res KVRWSet :=
  rwset ← deref rwset;
  Ok {| Reads := (λ rd, {| kvr_Key := kvr_Key rd; kvr_Version := GetVersionFromLtx (kvr_Version rd) |}) <$> Reads rwset;
        RangeQueriesInfo := [];
        Writes := (λ wr, {| kvw_Key := kvw_Key wr; kvw_IsDelete := kvw_IsDelete wr; kvw_Value := kvw_Value wr |}) <$> Writes rwset;
        MetadataWrites := [] |}.
Definition GetHashRWSetFromLtx (hrwset : option LtxHashedRWSet) : res HashedRWSet :=
  hrwset ← deref hrwset;
  Ok {| HashedReads := (λ rd, {| rh_KeyHash := rh_KeyHash rd; rh_Version := GetVersionFromLtx (rh_Version rd) |}) <$> lh_HashedReads hrwset;
        HashedWrites := (λ wr, {| wh_KeyHash := lwh_KeyHash wr; wh_IsDelete := lwh_IsDelete wr;
                                  wh_ValueHash := lwh_ValueHash wr; wh_IsPurge := false |}) <$> lh_HashedWrites hrwset;
        HashedMetadataWrites := [] |}.
Definition GetCollHashRwSetFromLtx (hrwset : LtxCollectionHashedReadWriteSet) : res CollHashedRwSet :=
  h ← GetHashRWSetFromLtx (lc_HashedRwset hrwset);
  Ok {| ch_CollectionName := lc_CollectionName hrwset; HashedRwSet := Some h; PvtRwSetHash := lc_PvtRwsetHash hrwset |}.
Definition GetNsRwSetFromLtx (ns : list LtxNsReadWriteSet) : res (list NsRwSet) :=
  mapM (λ namespace,
    kv ← GetKvRwSetFromLtx (ln_Rwset namespace);
    colls ← mapM GetCollHashRwSetFromLtx (ln_CollectionHashedRwset namespace);
    Ok {| NameSpace := ln_Namespace namespace; KvRwSet := Some kv; CollHashedRwSets := colls |}) ns.

(** ** What a lite read-write set means

    The ordinary read-write set with the same content: nothing is purged. *)

Definition full_write_hash (w : LtxKVWriteHash) : KVWriteHash :=
  {| wh_KeyHash := lwh_KeyHash w; wh_IsDelete := lwh_IsDelete w; wh_ValueHash := lwh_ValueHash w; wh_IsPurge := false |}.
Definition full_hashed (h : LtxHashedRWSet) : HashedRWSet :=
  {| HashedReads := lh_HashedReads h; HashedWrites := full_write_hash <$> lh_HashedWrites h;
     HashedMetadataWrites := lh_MetadataWrites h |}.
Definition full_coll (c : LtxCollectionHashedReadWriteSet) : CollHashedRwSet :=
  {| ch_CollectionName := lc_CollectionName c; HashedRwSet := full_hashed <$> lc_HashedRwset c; PvtRwSetHash := lc_PvtRwsetHash c |}.
Definition full_ns (n : LtxNsReadWriteSet) : NsRwSet :=
  {| NameSpace := ln_Namespace n; KvRwSet := ln_Rwset n; CollHashedRwSets := full_coll <$> ln_CollectionHashedRwset n |}.
Definition full_tx (t : LtxTxReadWriteSet) : TxRwSet := {| NsRwSets := full_ns <$> lt_NsRwset t |}.

(** What the conversion keeps of a read-write set: the reads and writes, not
    the range queries, the metadata writes and the purge flags. *)
Definition keep_kv (kv : KVRWSet) : KVRWSet :=
  {| Reads := Reads kv; RangeQueriesInfo := []; Writes := Writes kv; MetadataWrites := [] |}.
Definition keep_write_hash (w : KVWriteHash) : KVWriteHash :=
  {| wh_KeyHash := wh_KeyHash w; wh_IsDelete := wh_IsDelete w; wh_ValueHash := wh_ValueHash w; wh_IsPurge := false |}.
Definition keep_hashed (h : HashedRWSet) : HashedRWSet :=
  {| HashedReads := HashedReads h; HashedWrites := keep_write_hash <$> HashedWrites h; HashedMetadataWrites := [] |}.
Definition keep_coll (c : CollHashedRwSet) : CollHashedRwSet :=
  {| ch_CollectionName := ch_CollectionName c; HashedRwSet := keep_hashed <$> HashedRwSet c; PvtRwSetHash := PvtRwSetHash c |}.
Definition keep_ns (n : NsRwSet) : NsRwSet :=
  {| NameSpace := NameSpace n; KvRwSet := keep_kv <$> KvRwSet n; CollHashedRwSets := keep_coll <$> CollHashedRwSets n |}.
Definition keep_tx (t : TxRwSet) : TxRwSet := {| NsRwSets := keep_ns <$> NsRwSets t |}.

(** No pointer of the read-write set is nil. *)
Definition coll_present (c : CollHashedRwSet) : Prop := is_Some (HashedRwSet c).
Definition ns_present (n : NsRwSet) : Prop := is_Some (KvRwSet n) ∧ Forall coll_present (CollHashedRwSets n).
Definition tx_present (t : TxRwSet) : Prop := Forall ns_present (NsRwSets t).

Lemma GetCommonVersion_id v : GetCommonVersion v = v.
Proof. by destruct v as [[]|]. Qed.

Lemma GetCollHRWSet_full c : coll_present c → ∃ c', GetCollHRWSet c = Ok c' ∧ full_coll c' = keep_coll c.
Proof.
  destruct c as [cn [h|] ph]; intros Hp; [|by destruct Hp]. eexists; split; [done|].
  unfold full_coll, keep_coll, full_hashed, keep_hashed; simpl. rewrite <-list_fmap_compose.
  do 3 f_equal. apply map_id_ext. intros []; simpl. by rewrite GetCommonVersion_id.
Qed.

Lemma GetNSForLT_full n : ns_present n → ∃ n', GetNSForLT n = Ok n' ∧ full_ns n' = keep_ns n.
Proof.
  destruct n as [ns [kv|] colls]; intros [Hkv Hc]; [|by destruct Hkv].
  destruct (mapM_total GetCollHRWSet full_coll keep_coll colls) as (k & Hk & Hfull).
  { eapply Forall_impl; [exact Hc|]. apply GetCollHRWSet_full. }
  eexists. unfold GetNSForLT; simpl. rewrite Hk; simpl. split; [done|].
  unfold full_ns, keep_ns, keep_kv; simpl. rewrite Hfull. f_equal. do 2 f_equal.
  - apply map_id_ext. intros []; simpl. by rewrite GetCommonVersion_id.
  - apply map_id_ext. by intros [].
Qed.

Lemma GettxRWSetForLightTxn_full t :
  tx_present t → ∃ t', GettxRWSetForLightTxn t = Ok t' ∧ full_tx t' = keep_tx t.
Proof.
  intros Ht. destruct (mapM_total GetNSForLT full_ns keep_ns (NsRwSets t)) as (k & Hk & Hfull).
  { eapply Forall_impl; [exact Ht|]. apply GetNSForLT_full. }
  eexists. unfold GettxRWSetForLightTxn. rewrite Hk; simpl. split; [done|]. unfold full_tx, keep_tx; simpl. by rewrite Hfull.
Qed.

(** *** Fixed points of [keep_tx] *)

Lemma option_fixed {A} (f : A → A) (P : A → Prop) (o : option A) :
  (∀ x, f x = x ↔ P x) → f <$> o = o ↔ ∀ x, o = Some x → P x.
Proof.
  intros Hf. destruct o as [x|]; simpl; [|done]. split.
  - intros [= Hx] y [= <-]. by apply Hf.
  - intros Hx. f_equal. apply Hf. by apply Hx.
Qed.

(** A part of a read-write set with nothing the conversion loses. *)
Definition kv_plain (kv : KVRWSet) : Prop := RangeQueriesInfo kv = [] ∧ MetadataWrites kv = [].
Definition hashed_plain (h : HashedRWSet) : Prop :=
  HashedMetadataWrites h = [] ∧ Forall (λ w, wh_IsPurge w = false) (HashedWrites h).
Definition ns_plain (n : NsRwSet) : Prop :=
  (∀ kv, KvRwSet n = Some kv → kv_plain kv) ∧
  Forall (λ c, ∀ h, HashedRwSet c = Some h → hashed_plain h) (CollHashedRwSets n).

Lemma keep_kv_fixed kv : keep_kv kv = kv ↔ kv_plain kv.
Proof. destruct kv; unfold kv_plain, keep_kv; simpl. split; [by intros [= <- <-]|]. by intros [-> ->]. Qed.
Lemma keep_hashed_fixed h : keep_hashed h = h ↔ hashed_plain h.
Proof.
  destruct h as [hr hw hm]; unfold hashed_plain, keep_hashed; simpl.
  assert (keep_write_hash <$> hw = hw ↔ Forall (λ w, wh_IsPurge w = false) hw) as <-.
  { rewrite fmap_fixed. apply Forall_iff. intros []; unfold keep_write_hash; simpl. split; [by intros [= <-]|]. by intros ->. }
  split; [by intros [= -> <-]|]. by intros [-> ->].
Qed.
Lemma keep_coll_fixed c : keep_coll c = c ↔ ∀ h, HashedRwSet c = Some h → hashed_plain h.
Proof.
  rewrite <-(option_fixed keep_hashed hashed_plain _ keep_hashed_fixed).
  destruct c; unfold keep_coll; simpl. split; [by intros [= ->]|]. by intros ->.
Qed.
Lemma keep_ns_fixed n : keep_ns n = n ↔ ns_plain n.
Proof.
  unfold ns_plain. rewrite <-(option_fixed keep_kv kv_plain _ keep_kv_fixed), <-(Forall_iff _ _ _ keep_coll_fixed), <-fmap_fixed.
  destruct n; unfold keep_ns; simpl. split; [by intros [= -> ->]|]. by intros [-> ->].
Qed.

(** *** The way back *)

Lemma GetVersionFromLtx_id v : GetVersionFromLtx v = v.
Proof. by destruct v as [[]|]. Qed.

Lemma GetCollHashRwSetFromLtx_keep c : is_Some (lc_HashedRwset c) → GetCollHashRwSetFromLtx c = Ok (keep_coll (full_coll c)).
Proof.
  destruct c as [cn [h|] ph]; intros Hp; [|by destruct Hp].
  unfold GetCollHashRwSetFromLtx, GetHashRWSetFromLtx, keep_coll, full_coll, keep_hashed, full_hashed; simpl.
  rewrite <-list_fmap_compose, map_id_ext; [done|]. intros []; simpl. by rewrite GetVersionFromLtx_id.
Qed.

Lemma GetNsRwSetFromLtx_keep l :
  Forall ns_present (full_ns <$> l) → GetNsRwSetFromLtx l = Ok (keep_ns <$> (full_ns <$> l)).
Proof.
  rewrite Forall_fmap. intros Hl. rewrite <-list_fmap_compose. apply mapM_map. eapply Forall_impl; [exact Hl|].
  intros [ns [kv|] colls]; simpl; intros [Hkv Hc]; [|by destruct Hkv]. simpl.
  rewrite (mapM_map _ (keep_coll ∘ full_coll)).
  - unfold keep_ns, full_ns, keep_kv; simpl. rewrite <-list_fmap_compose, !map_id_ext; [done|by intros []|].
    intros []; simpl. by rewrite GetVersionFromLtx_id.
  - simpl in Hc. rewrite Forall_fmap in Hc. eapply Forall_impl; [exact Hc|].
    intros c Hh. apply GetCollHashRwSetFromLtx_keep. unfold coll_present in Hh; simpl in Hh. by destruct (lc_HashedRwset c), Hh.
Qed.

Lemma keep_present t : tx_present t → tx_present (keep_tx t).
Proof.
  unfold tx_present, keep_tx; simpl. rewrite Forall_fmap. intros Ht. eapply Forall_impl; [exact Ht|]. intros n [[kv Hkv] Hc]. split; simpl.
  - rewrite Hkv. by eexists.
  - rewrite Forall_fmap. eapply Forall_impl; [exact Hc|]. intros c [h Hh]. unfold coll_present; simpl. rewrite Hh. by eexists.
Qed.
Lemma keep_idem t : keep_tx (keep_tx t) = keep_tx t.
Proof.
  unfold keep_tx; simpl. f_equal. rewrite <-list_fmap_compose. apply list_fmap_ext. intros _ n _. unfold compose.
  apply keep_ns_fixed. split; simpl.
  - intros kv. destruct (KvRwSet n); simpl; [|done]. by intros [= <-].
  - rewrite Forall_fmap. apply Forall_forall. intros c _ h. simpl. destruct (HashedRwSet c) as [h'|]; simpl; [|done].
    intros [= <-]. split; [done|]. simpl. rewrite Forall_fmap. by apply Forall_forall.
Qed.

(** the conversion to the lite format keeps the reads, writes, hashed reads
    and hashed writes of a read-write set and loses the rest. A set without nil
    parts is always converted; the result means the original set without its
    range queries, its metadata writes, its hashed metadata writes and its purge
    flags, so it means the original exactly when there was nothing to lose. The
    conversion back gives what was kept. *)
Theorem lite_conversion_keeps (t : TxRwSet) (Hpresent : tx_present t) :
  ∃ t', GettxRWSetForLightTxn t = Ok t' ∧ full_tx t' = keep_tx t ∧ (full_tx t' = t ↔ Forall ns_plain (NsRwSets t)) ∧
    GetNsRwSetFromLtx (lt_NsRwset t') = Ok (NsRwSets (keep_tx t)).
Proof.
  destruct (GettxRWSetForLightTxn_full t Hpresent) as (t' & Ht' & Hfull). exists t'. split_and!; [done..| |].
  - rewrite Hfull, <-(Forall_iff _ _ _ keep_ns_fixed), <-fmap_fixed. destruct t; unfold keep_tx; simpl.
    split; [by intros [=]|]. by intros ->.
  - rewrite GetNsRwSetFromLtx_keep.
    + change (Ok (NsRwSets (keep_tx (full_tx t'))) = Ok (NsRwSets (keep_tx t))). by rewrite Hfull, keep_idem.
    + change (tx_present (full_tx t')). rewrite Hfull. by apply keep_present.
Qed.

(** A read-write set with a purge and a range query. *)
Definition sample_lossy : TxRwSet :=
  {| NsRwSets := [{| NameSpace := B "cc";
       KvRwSet := Some {| Reads := [{| kvr_Key := B "k"; kvr_Version := Some {| pv_BlockNum := 3; pv_TxNum := 1 |} |}];
         RangeQueriesInfo := [{| StartKey := B "a"; EndKey := B "b"; ItrExhausted := true; rqi_ReadsInfo := None |}];
         Writes := [{| kvw_Key := B "k"; kvw_IsDelete := false; kvw_Value := Some (B "v") |}]; MetadataWrites := [] |};
       CollHashedRwSets := [{| ch_CollectionName := B "coll"; PvtRwSetHash := None;
         HashedRwSet := Some {| HashedReads := []; HashedMetadataWrites := [];
           HashedWrites := [{| wh_KeyHash := B "h"; wh_IsDelete := true; wh_ValueHash := None; wh_IsPurge := true |}] |} |}] |}] |}.
Lemma lite_conversion_keeps_witness :
  ∃ t', GettxRWSetForLightTxn sample_lossy = Ok t' ∧ full_tx t' = keep_tx sample_lossy ∧ full_tx t' ≠ sample_lossy.
Proof.
  destruct (lite_conversion_keeps sample_lossy) as (t' & Ht & Hk & Hiff & _).
  - repeat constructor; eexists; reflexivity.
  - exists t'. split_and!; [exact Ht|exact Hk|]. intros Heq%Hiff. inversion Heq as [|? ? [Hkv _] _].
    destruct (Hkv _ eq_refl) as [Hr _]. discriminate Hr.
Defined.
