(* ===== verification/LiteValidator.v ===== *)
(** * Validation of lite blocks

  Models the lite-transaction path of
  core/ledger/kvledger/txmgmt/validation: validator_adapter.go,
  tx_ops_adapter.go and the lite parts of types.go. It repeats the code of
  validator.go and tx_ops.go on the messages of LiteRwset; the theorem of this
  file relates the two.

  The transactions of a lite block are a slice of pointers with one slot per
  envelope; a slot that was not filled is nil. *)

From S2P Require Import Prelude SortedMap Version StateDB Proto Rwset Merkle LevelDB StateLevelDB PrivState.
From S2P Require Import CombinedIterator RangeQuery TxOps SparseTypes Validator LiteRwset.
From stdpp Require Import options.
Local Open Scope nat_scope.
Set Default Proof Using "Type*".

Record ltxTransaction := {
  l_indexInBlock : nat;
  l_id : bytes;
  l_rwset : LtxTxReadWriteSet;
  l_validationCode : TxValidationCode;
  l_containsPostOrderWrites : bool;
  l_channelId : bytes
}.
Record ltxBlock := {
  lb_num : Z;
  lb_txs : list (option ltxTransaction);
  lb_sparseblockchainFilter : SparseTxnFilterProto;
  lb_sparseFilterExists : bool
}.
Definition ltx_set_code (tx : ltxTransaction) (code : TxValidationCode) : ltxTransaction :=
  {| l_indexInBlock := l_indexInBlock tx; l_id := l_id tx; l_rwset := l_rwset tx; l_validationCode := code;
     l_containsPostOrderWrites := l_containsPostOrderWrites tx; l_channelId := l_channelId tx |}.

Definition ltxTransaction_containsPvtWrites (t : ltxTransaction) : bool :=
  existsb (λ ns, existsb (λ coll, bool_decide (is_Some (lc_PvtRwsetHash coll))) (ln_CollectionHashedRwset ns)) (lt_NsRwset (l_rwset t)).
Fixpoint ltx_retrieveHash_loop (l : list LtxNsReadWriteSet) (ns coll : bytes) : option bytes :=
  match l with
  | [] => None
  | nsData :: l =>
      if decide (ln_Namespace nsData ≠ ns) then ltx_retrieveHash_loop l ns coll
      else match list_find (λ c, lc_CollectionName c = coll) (ln_CollectionHashedRwset nsData) with
           | Some (_, collData) => lc_PvtRwsetHash collData
           | None => ltx_retrieveHash_loop l ns coll
           end
  end.
Definition ltxTransaction_retrieveHash (t : ltxTransaction) (ns coll : bytes) : option bytes :=
  ltx_retrieveHash_loop (lt_NsRwset (l_rwset t)) ns coll.

(** ** tx_ops_adapter.go *)

Section ops.
Context `{!ProtoMessage KVMetadataWrite} `{!Sha256}.

(** statemetadata.LtxSerialize *)
Definition LtxSerialize (metadataEntries : list KVMetadataEntry) : res bytes :=
  Marshal {| mw_Key := []; mw_Entries := metadataEntries |}.

Definition applyLtxKVWrite (txops : txOps) (ns coll : bytes) (kvWrite : KVWrite) : txOps :=
  if IsLtxKVWriteDelete kvWrite
  then txOps_delete txops {| ck_ns := ns; ck_coll := coll; ck_key := kvw_Key kvWrite |}
  else txOps_upsert txops {| ck_ns := ns; ck_coll := coll; ck_key := kvw_Key kvWrite |} (kvw_Value kvWrite).
Definition applyLtxMetadata (txops : txOps) (ns coll : bytes) (metadataWrite : KVMetadataWrite) : res txOps :=
  let k := {| ck_ns := ns; ck_coll := coll; ck_key := mw_Key metadataWrite |} in
  match mw_Entries metadataWrite with
  | [] => Ok (txOps_metadataDelete txops k)
  | entries =>
      metadataBytes ← LtxSerialize entries;
      Ok (txOps_metadataUpdate txops k (Some metadataBytes))
  end.
Definition applyLtxRwset (txops : txOps) (rwset : LtxTxReadWriteSet) : res txOps :=
  foldM (λ txops nsRWSet,
      let ns := ln_Namespace nsRWSet in
      kv ← deref (ln_Rwset nsRWSet);
      let txops := foldl (λ txops kvWrite, applyLtxKVWrite txops ns [] kvWrite) txops (Writes kv) in
      txops ← foldM (λ txops kvMetadataWrite, applyLtxMetadata txops ns [] kvMetadataWrite) txops (MetadataWrites kv);
      foldM (λ txops collHashRWset,
          let coll := lc_CollectionName collHashRWset in
          hashed ← deref (lc_HashedRwset collHashRWset);
          let txops := foldl (λ txops hashedWrite, applyLtxKVWrite txops ns coll
              {| kvw_Key := lwh_KeyHash hashedWrite; kvw_IsDelete := IsLtxKVWriteHashDelete hashedWrite;
                 kvw_Value := lwh_ValueHash hashedWrite |}) txops (lh_HashedWrites hashed) in
          foldM (λ txops metadataWrite, applyLtxMetadata txops ns coll
              {| mw_Key := mwh_KeyHash metadataWrite; mw_Entries := mwh_Entries metadataWrite |}) txops (lh_MetadataWrites hashed))
        txops (ln_CollectionHashedRwset nsRWSet))
    txops (lt_NsRwset rwset).

(** The loops over the operations of a transaction are those of [prepareTxOps]
    and [applyWriteSet]. *)
Context {DB I L : Type} `{!VersionedDB DB I}.
Notation PrivDB := (PrivDB DB L).

Definition prepareLtxOps (rwset : LtxTxReadWriteSet) (precedingUpdates : publicAndHashUpdates) (db : PrivDB) : res txOps :=
  txops ← applyLtxRwset ∅ rwset;
  foldM (prepareKey precedingUpdates db) txops (map_to_list txops).
Definition applyLtxWriteSet (u : publicAndHashUpdates) (txRWSet : LtxTxReadWriteSet) (txHeight : option Height) (db : PrivDB)
    (containsPostOrderWrites : bool) : res publicAndHashUpdates :=
  let pub := publicUpdates u in
  let u := {| publicUpdates := {| ContainsPostOrderWrites := ContainsPostOrderWrites pub || containsPostOrderWrites;
                                  Updates := Updates pub; SchemaUpdates := SchemaUpdates pub |};
              hashUpdates := hashUpdates u |} in
  txops ← prepareLtxOps txRWSet u db;
  foldM (applyKey txHeight) u (map_to_list txops).
End ops.

(** ** validator_adapter.go *)

Section validator.
Context `{!ProtoMessage KVMetadataWrite} `{!ProtoMessage QueryReads} `{!ProtoMessage RangeQueryInfo} `{!Sha256}.
Context {DB I L : Type} `{!VersionedDB DB I}.
Notation PrivDB := (PrivDB DB L).

(** The fuel and the hash function as in Validator; [partial] is the message
    that [proto.Unmarshal] leaves behind when it fails on the given bytes. *)
Context (fuel : nat) (hashFunc : HashFunc) (partial : bytes → RangeQueryInfo).

Definition validateLtxKVRead (db : PrivDB) (ns : bytes) (updates : UpdateBatch) (kvRead : KVRead) : res bool :=
  let readVersion := NewLtxVersion (kvr_Version kvRead) in
  if UpdateBatch_Exists updates ns (kvr_Key kvRead) then Ok false
  else
    committedVersion ← GetVersion (pdb_vdb db) ns (kvr_Key kvRead);
    if negb (AreSame committedVersion readVersion) then Ok false else Ok true.
Definition validateLtxReadSet (db : PrivDB) (ns : bytes) (kvReads : list KVRead) (updates : UpdateBatch) : res bool :=
  allM (validateLtxKVRead db ns updates) kvReads.

Definition validateLtxKVReadHash (db : PrivDB) (ns coll : bytes) (updates : UpdateMap) (kvReadHash : KVReadHash) : res bool :=
  let readHashVersion := NewLtxVersion (rh_Version kvReadHash) in
  if UpdateMap_Contains updates ns coll (rh_KeyHash kvReadHash) then Ok false
  else
    committedVersion ← GetKeyHashVersion db ns coll (rh_KeyHash kvReadHash);
    if negb (AreSame committedVersion readHashVersion) then Ok false else Ok true.
Definition validateLtxCollHashedReadSet (db : PrivDB) (ns coll : bytes) (kvReadHashes : list KVReadHash) (updates : UpdateMap) : res bool :=
  allM (validateLtxKVReadHash db ns coll updates) kvReadHashes.
Definition validateNsLtxHashedReadSets (db : PrivDB) (ns : bytes) (collHashedRWSets : list LtxCollectionHashedReadWriteSet)
    (updates : UpdateMap) : res bool :=
  allM (λ collHashedRWSet,
    hashed ← deref (lc_HashedRwset collHashedRWSet);
    validateLtxCollHashedReadSet db ns (lc_CollectionName collHashedRWSet) (lh_HashedReads hashed) updates) collHashedRWSets.

(** The query is converted to the message type of the validators through its
    bytes; when that fails the plain-results validator is used. *)
Definition convert_rqi (rangeQueryInfo : RangeQueryInfo) : res (RangeQueryInfo * bool) :=
  let hashing := bool_decide (is_Some (GetReadsMerkleHashes rangeQueryInfo)) in
  '(rqiBytes, hashing) ← match Marshal rangeQueryInfo with
                         | Ok b => Ok (b, hashing)
                         | Err _ => Ok ([], false)
                         | Panic => Panic
                         end;
  match Unmarshal rqiBytes with
  | Ok kvrqi => Ok (kvrqi, hashing)
  | Err _ => Ok (partial rqiBytes, false)
  | Panic => Panic
  end.
Definition validateLtxRangeQuery (db : PrivDB) (ns : bytes) (updates : UpdateBatch) (rangeQueryInfo : RangeQueryInfo) : res bool :=
  let includeEndKey := negb (ItrExhausted rangeQueryInfo) in
  combinedItr ← newCombinedIterator (pdb_vdb db) updates ns (StartKey rangeQueryInfo) (EndKey rangeQueryInfo) includeEndKey;
  let itr := combinedIterator_itr fuel in
  '(kvrqi, hashing) ← convert_rqi rangeQueryInfo;
  if (hashing : bool) then
    helper ← rangeQueryHashValidator_init hashFunc kvrqi;
    rangeQueryHashValidator_validate fuel kvrqi helper combinedItr
  else rangeQueryResultsValidator_validate kvrqi combinedItr.
Definition validateLtxRangeQueries (db : PrivDB) (ns : bytes) (rangeQueriesInfo : list RangeQueryInfo) (updates : UpdateBatch) : res bool :=
  allM (validateLtxRangeQuery db ns updates) rangeQueriesInfo.

Fixpoint validateLtx_loop (db : PrivDB) (nsRwSets : list LtxNsReadWriteSet) (updates : publicAndHashUpdates) : res TxValidationCode :=
  match nsRwSets with
  | [] => Ok TxValidationCode_VALID
  | nsRWSet :: nsRwSets =>
      let ns := ln_Namespace nsRWSet in
      kv ← deref (ln_Rwset nsRWSet);
      valid ← validateLtxReadSet db ns (Reads kv) (publicUpdates updates);
      if negb valid then Ok TxValidationCode_MVCC_READ_CONFLICT else
      valid ← validateLtxRangeQueries db ns (RangeQueriesInfo kv) (publicUpdates updates);
      if negb valid then Ok TxValidationCode_PHANTOM_READ_CONFLICT else
      valid ← validateNsLtxHashedReadSets db ns (ln_CollectionHashedRwset nsRWSet) (hashUpdates updates);
      if negb valid then Ok TxValidationCode_MVCC_READ_CONFLICT else
      validateLtx_loop db nsRwSets updates
  end.
Definition validateLtx (db : PrivDB) (txRWSet : LtxTxReadWriteSet) (updates : publicAndHashUpdates) : res TxValidationCode :=
  validateLtx_loop db (lt_NsRwset txRWSet) updates.
Definition validateEndorserLtX (db : PrivDB) (txRWSet : LtxTxReadWriteSet) (doMVCCValidation : bool)
    (updates : publicAndHashUpdates) : res TxValidationCode :=
  if doMVCCValidation then validateLtx db txRWSet updates else Ok TxValidationCode_VALID.

Definition ltx_rset_keys (txs : list (option ltxTransaction)) : res (list CompositeKey * list HashedCompositeKey) :=
  foldM (λ acc tx,
    tx ← deref tx;
    foldM (λ '(pubKeys, hashedKeys) nsRWSet,
      kv ← deref (ln_Rwset nsRWSet);
      let pubKeys := foldl (λ l kvRead, add_new l {| Namespace := ln_Namespace nsRWSet; Key := kvr_Key kvRead |}) pubKeys (Reads kv) in
      hashedKeys ← foldM (λ hashedKeys colHashedRwSet,
          hashed ← deref (lc_HashedRwset colHashedRwSet);
          Ok (foldl (λ l kvHashedRead, add_new l {| hck_Namespace := ln_Namespace nsRWSet;
                hck_CollectionName := lc_CollectionName colHashedRwSet; hck_KeyHash := rh_KeyHash kvHashedRead |})
              hashedKeys (lh_HashedReads hashed)))
        hashedKeys (ln_CollectionHashedRwset nsRWSet);
      Ok (pubKeys, hashedKeys)) acc (lt_NsRwset (l_rwset tx)))
    ([], []) txs.
Definition preLoadCommittedVersionOfLtxRSet (db : PrivDB) (blk : ltxBlock) : res PrivDB :=
  '(pubKeys, hashedKeys) ← ltx_rset_keys (lb_txs blk);
  if decide (0 < length pubKeys ∨ 0 < length hashedKeys)
  then LoadCommittedVersionsOfPubAndHashedKeys db pubKeys hashedKeys else Ok db.

Definition ltx_committingTxHeight (blk : ltxBlock) (tx : ltxTransaction) : res Height :=
  let blockNumber := if lb_sparseFilterExists blk && negb (bool_decide (lb_num blk = 0%Z))
                     then FatBlockNumber (lb_sparseblockchainFilter blk) else lb_num blk in
  indexInFatBlock ← (if lb_sparseFilterExists blk && negb (bool_decide (lb_num blk = 0%Z))
                     then info ← index (TxnInfoList (lb_sparseblockchainFilter blk)) (l_indexInBlock tx); Ok (IndexInFatBlock info)
                     else Ok (Z.of_nat (l_indexInBlock tx)));
  Ok (NewHeight blockNumber indexInFatBlock).

(** The body of the loop over the transactions; the purge tracker is never
    updated. *)
Definition validate_one_ltx (db : PrivDB) (blk : ltxBlock) (doMVCCValidation : bool)
    (acc : list (option ltxTransaction) * publicAndHashUpdates) (tx : option ltxTransaction) :
    res (list (option ltxTransaction) * publicAndHashUpdates) :=
  let '(txs, updates) := acc in
  tx ← deref tx;
  code ← (if decide (l_validationCode tx = TxValidationCode_VALID)
          then validateEndorserLtX db (l_rwset tx) doMVCCValidation updates else Ok (l_validationCode tx));
  let tx := ltx_set_code tx code in
  if decide (l_validationCode tx = TxValidationCode_VALID) then
    height ← ltx_committingTxHeight blk tx;
    updates ← applyLtxWriteSet updates (l_rwset tx) (Some height) db (l_containsPostOrderWrites tx);
    Ok (txs ++ [Some tx], updates)
  else Ok (txs ++ [Some tx], updates).
Definition validateAndPrepareLtxBatch (db : PrivDB) (blk : ltxBlock) (doMVCCValidation : bool) :
    res (list (option ltxTransaction) * publicAndHashUpdates * list AppInitiatedPurgeUpdate * PrivDB) :=
  db ← (if IsBulkOptimizable (DB := DB) then preLoadCommittedVersionOfLtxRSet db blk else Ok db);
  '(txs, updates) ← foldM (validate_one_ltx db blk doMVCCValidation) ([], newPubAndHashUpdates) (lb_txs blk);
  Ok (txs, updates, purgeTracker_getUpdates newPvtdataPurgeTracker, db).
End validator.

(** ** Relation to the ordinary path *)

Definition full_transaction (t : ltxTransaction) : transaction :=
  {| indexInBlock := l_indexInBlock t; tx_id := l_id t; tx_rwset := full_tx (l_rwset t); validationCode := l_validationCode t;
     containsPostOrderWrites := l_containsPostOrderWrites t |}.
Definition full_block (blk : ltxBlock) : block :=
  {| blk_num := lb_num blk; blk_txs := full_transaction <$> omap id (lb_txs blk);
     sparseblockchainFilter := lb_sparseblockchainFilter blk; sparseFilterExists := lb_sparseFilterExists blk |}.

(** Every range query of the transaction survives the wire. *)
Definition rqi_wire `{!ProtoMessage RangeQueryInfo} (r : RangeQueryInfo) : Prop := ∃ b, Marshal r = Ok b ∧ Unmarshal b = Ok r.
Definition queries_wire `{!ProtoMessage RangeQueryInfo} (n : LtxNsReadWriteSet) : Prop :=
  ∀ kv, ln_Rwset n = Some kv → Forall rqi_wire (RangeQueriesInfo kv).

Section ops_full.
Context `{!ProtoMessage KVMetadataWrite} `{!Sha256}.

Lemma applyLtxRwset_full txops t : applyLtxRwset txops t = applyTxRwset txops (full_tx t).
Proof.
  unfold applyLtxRwset, applyTxRwset, full_tx; simpl. rewrite foldM_fmap. apply foldM_ext. intros s n _. simpl.
  destruct (ln_Rwset n); simpl; [|done]. change (applyLtxMetadata) with (applyMetadata).
  destruct (foldM _ _ _) as [s'| |]; simpl; [|done..]. rewrite foldM_fmap. apply foldM_ext. intros s'' c _. simpl.
  destruct (lc_HashedRwset c) as [h|]; simpl; [|done]. by rewrite foldl_fmap.
Qed.

Context {DB I L : Type} `{!VersionedDB DB I}.
Lemma applyLtxWriteSet_full u t h (db : PrivDB DB L) post :
  applyLtxWriteSet u t h db post = applyWriteSet u (full_tx t) h db post.
Proof. unfold applyLtxWriteSet, applyWriteSet, prepareLtxOps, prepareTxOps. by rewrite applyLtxRwset_full. Qed.
End ops_full.

Section full.
Context `{!ProtoMessage KVMetadataWrite} `{!ProtoMessage QueryReads} `{!ProtoMessage RangeQueryInfo} `{!Sha256}.
Context {DB I L : Type} `{!VersionedDB DB I}.
Context (fuel : nat) (hashFunc : HashFunc) (partial : bytes → RangeQueryInfo).

Lemma validateLtxRangeQuery_full (db : PrivDB DB L) ns u r :
  rqi_wire r → validateLtxRangeQuery fuel hashFunc partial db ns u r = validateRangeQuery fuel hashFunc db ns u r.
Proof.
  intros (b & Hm & Hu). unfold validateLtxRangeQuery, validateRangeQuery, convert_rqi. rewrite Hm. run. rewrite Hu.
  destruct (newCombinedIterator _ _ _ _ _ _); simpl; [|done..].
  destruct (GetReadsMerkleHashes r) eqn:Hg.
  - rewrite bool_decide_eq_true_2 by eauto. done.
  - rewrite bool_decide_eq_false_2 by (by intros []). done.
Qed.

Lemma validateNsLtxHashedReadSets_full (db : PrivDB DB L) ns cs u :
  validateNsLtxHashedReadSets db ns cs u = validateNsHashedReadSets db ns (full_coll <$> cs) u.
Proof.
  unfold validateNsLtxHashedReadSets, validateNsHashedReadSets. rewrite allM_fmap. apply allM_ext.
  apply Forall_forall. intros c _. simpl. by destruct (lc_HashedRwset c).
Qed.

Lemma validateLtx_full (db : PrivDB DB L) t u :
  Forall queries_wire (lt_NsRwset t) →
  validateLtx fuel hashFunc partial db t u = validateTx fuel hashFunc db (full_tx t) u.
Proof.
  unfold validateLtx, validateTx, full_tx; simpl. induction 1 as [|n l Hn _ IH]; csimpl; [done|].
  destruct (ln_Rwset n) as [kv|] eqn:Hkv; simpl; [|done]. rewrite <-IH, <-validateNsLtxHashedReadSets_full.
  change (validateLtxReadSet db) with (validateReadSet db). unfold validateLtxRangeQueries, validateRangeQueries.
  rewrite (allM_ext _ (validateRangeQuery fuel hashFunc db (ln_Namespace n) (publicUpdates u))); [done|].
  eapply Forall_impl; [by apply Hn|]. intros r. apply validateLtxRangeQuery_full.
Qed.

Lemma ltx_rset_keys_full (txs : list ltxTransaction) :
  ltx_rset_keys (Some <$> txs) = rset_keys (full_transaction <$> txs).
Proof.
  unfold ltx_rset_keys, rset_keys. rewrite !foldM_fmap. apply foldM_ext. intros acc t _. simpl.
  rewrite foldM_fmap. apply foldM_ext. intros [pk hk] n _. simpl. destruct (ln_Rwset n); simpl; [|done].
  rewrite foldM_fmap. f_equal. apply foldM_ext. intros ? c _. simpl. by destruct (lc_HashedRwset c).
Qed.

(** Lite transactions purge nothing. *)
Lemma purgeTracker_update_full p t h : purgeTracker_update p (full_tx t) h = p.
Proof.
  unfold purgeTracker_update, full_tx; simpl. induction (lt_NsRwset t) as [|n l IH]; csimpl; [done|].
  rewrite <-IH at 2. f_equal. induction (ln_CollectionHashedRwset n) as [|c cs IHc]; csimpl; [done|].
  rewrite <-IHc at 2. f_equal. destruct (lc_HashedRwset c) as [x|]; simpl; [|done].
  by induction (lh_HashedWrites x).
Qed.

Definition full_result {A} (r : list (option ltxTransaction) * A) : list transaction * A :=
  (full_transaction <$> omap id r.1, r.2).

Local Ltac step := cbn -[decide applyWriteSet purgeTracker_update applyLtxWriteSet validateEndorserLtX validateEndorserTX].
Lemma validate_one_ltx_full (db : PrivDB DB L) blk doMVCC txs u p t :
  Forall queries_wire (lt_NsRwset (l_rwset t)) →
  (λ r, (full_result r, p)) <$> validate_one_ltx fuel hashFunc partial db blk doMVCC (txs, u) (Some t) =
  validate_one fuel hashFunc db (full_block blk) doMVCC (full_result (txs, u), p) (full_transaction t).
Proof.
  intros Hq. unfold validate_one_ltx, validate_one, full_result; step.
  assert (validateEndorserLtX fuel hashFunc partial db (l_rwset t) doMVCC u =
    validateEndorserTX fuel hashFunc db (full_tx (l_rwset t)) doMVCC u) as ->.
  { unfold validateEndorserLtX, validateEndorserTX. destruct doMVCC; [|done]. by apply validateLtx_full. }
  destruct (if decide (l_validationCode t = _) then _ else _) as [code| |]; step; [|done..].
  destruct (decide (code = _)); step.
  - change (ltx_committingTxHeight blk (ltx_set_code t code)) with
      (committingTxHeight (full_block blk) (set_code (full_transaction t) code)).
    destruct (committingTxHeight _ _) as [h| |]; step; [|done..]. rewrite applyLtxWriteSet_full.
    destruct (applyWriteSet _ _ _ _ _); step; [|done..]. by rewrite omap_app, fmap_app, purgeTracker_update_full.
  - by rewrite omap_app, fmap_app.
Qed.

Lemma fold_ltx_full (db : PrivDB DB L) blk doMVCC (txs : list ltxTransaction) : ∀ acc u p,
  Forall (λ t, Forall queries_wire (lt_NsRwset (l_rwset t))) txs →
  (λ r, (full_result r, p)) <$> foldM (validate_one_ltx fuel hashFunc partial db blk doMVCC) (acc, u) (Some <$> txs) =
  foldM (validate_one fuel hashFunc db (full_block blk) doMVCC) (full_result (acc, u), p) (full_transaction <$> txs).
Proof.
  induction txs as [|t txs IH]; intros acc u p Hq; [done|]. inversion Hq; subst. rewrite !fmap_cons. cbn [foldM].
  rewrite <-validate_one_ltx_full by done.
  destruct (validate_one_ltx _ _ _ _ _ _ _ _) as [[acc' u']| |]; [|done..]. run. by apply IH.
Qed.

Lemma omap_id_Some {A} (l : list (option A)) : Forall is_Some l → l = Some <$> omap id l.
Proof. induction 1 as [|? l [x ->] _ IH]; csimpl; [done|]. by rewrite <-IH. Qed.

Lemma omap_Some_id {A} (l : list A) : omap id (Some <$> l) = l.
Proof. induction l as [|x l IH]; csimpl; [done|]. by rewrite IH. Qed.

(** The result of the lite path with its transactions read as ordinary ones. *)
Definition full_outcome (r : list (option ltxTransaction) * publicAndHashUpdates * list AppInitiatedPurgeUpdate * PrivDB DB L) :
    list transaction * publicAndHashUpdates * list AppInitiatedPurgeUpdate * PrivDB DB L :=
  let '(txs, u, purges, db) := r in (full_transaction <$> omap id txs, u, purges, db).

(** C24: validating a lite block is validating the ordinary block with the same
    content. For a block without empty slots whose range queries survive the
    wire, the lite path returns the same verdicts, the same updates, the same
    (empty) list of purges, the same database and the same errors and panics as
    [validateAndPrepareBatch] on the read-write sets the lite ones stand for. *)
Theorem lite_validation_agrees (db : PrivDB DB L) (blk : ltxBlock) (doMVCC : bool)
    (Hpresent : Forall is_Some (lb_txs blk))
    (Hwire : Forall (λ t, Forall queries_wire (lt_NsRwset (l_rwset t))) (omap id (lb_txs blk))) :
  full_outcome <$> validateAndPrepareLtxBatch fuel hashFunc partial db blk doMVCC =
  validateAndPrepareBatch fuel hashFunc db (full_block blk) doMVCC.
Proof.
  destruct blk as [num txs filter exists_]. cbn [lb_txs] in *. pose proof (omap_id_Some _ Hpresent) as Htxs.
  revert Hwire Htxs. generalize (omap id txs) as txs'. intros txs' Hwire ->.
  unfold validateAndPrepareLtxBatch, validateAndPrepareBatch, preLoadCommittedVersionOfLtxRSet, preLoadCommittedVersionOfRSet.
  cbn [full_block lb_txs blk_txs]. rewrite omap_Some_id, ltx_rset_keys_full.
  destruct (if IsBulkOptimizable then _ else _) as [db'| |]; cbn [mbind res_bind fmap res_fmap]; [|done..].
  set (blk := Build_ltxBlock _ _ _ _).
  pose proof (fold_ltx_full db' blk doMVCC _ [] newPubAndHashUpdates newPvtdataPurgeTracker Hwire) as Hfold.
  change (full_result ([], newPubAndHashUpdates), newPvtdataPurgeTracker) with
    (@nil transaction, newPubAndHashUpdates, newPvtdataPurgeTracker) in Hfold.
  rewrite <-Hfold. by destruct (foldM (validate_one_ltx _ _ _ _ _ _) _ _) as [[]| |].
Qed.

(** A lite block with an empty slot is never committed: validation of the
    block ends in an error or a panic, whatever the other transactions are. *)
Theorem lite_empty_slot_fails (db : PrivDB DB L) (blk : ltxBlock) (doMVCC : bool) (Hnil : None ∈ lb_txs blk) :
  ¬ ∃ r, validateAndPrepareLtxBatch fuel hashFunc partial db blk doMVCC = Ok r.
Proof.
  intros [r Hr]. unfold validateAndPrepareLtxBatch in Hr. apply bind_Ok in Hr as (db' & _ & Hr).
  apply bind_Ok in Hr as (? & Hfold & _). eapply foldM_elem in Hfold as ([] & ? & Hstep); [|exact Hnil]. discriminate Hstep.
Qed.

Lemma keep_tx_wire t t' : full_tx t' = keep_tx t → Forall queries_wire (lt_NsRwset t').
Proof.
  destruct t' as [dm l]. unfold full_tx, keep_tx; simpl. intros [= Heq]. revert Heq. generalize (NsRwSets t) as k.
  induction l as [|n l IH]; intros [|m k]; csimpl; [constructor|done..|]. intros [= _ Hkv' _ Hl]. constructor; [|by eapply IH].
  intros kv Hkv. rewrite Hkv in Hkv'. destruct (KvRwSet m); simplify_eq/=. constructor.
Qed.

(** a transaction converted to the lite format is validated without its
    range queries. The verdict on the converted set is the verdict on the set
    stripped of its range queries, so a phantom read goes unnoticed. *)
Theorem lite_conversion_ignores_phantoms (db : PrivDB DB L) (t : TxRwSet) (u : publicAndHashUpdates) (Hpresent : tx_present t) :
  ∃ t', GettxRWSetForLightTxn t = Ok t' ∧
    validateLtx fuel hashFunc partial db t' u = validateTx fuel hashFunc db (keep_tx t) u.
Proof.
  destruct (GettxRWSetForLightTxn_full t Hpresent) as (t' & Ht & Hfull). exists t'. split; [done|].
  rewrite <-Hfull. apply validateLtx_full. by eapply keep_tx_wire.
Qed.
End full.

(** ** Samples *)
#[local] Existing Instances sample_priv_codec sample_priv_laws sample_priv_sha sample_tx_codec sample_range_codec.
#[local] Instance sample_rqi_codec : ProtoMessage RangeQueryInfo := countable_proto RangeQueryInfo.
Definition no_partial : bytes → RangeQueryInfo := λ _, sample_rqi None.

(** A lite block of one transaction that reads [k] and queries a range. *)
Definition sample_ltx : LtxTxReadWriteSet :=
  {| lt_DataModel := KV; lt_NsRwset := [{| ln_Namespace := B "cc"; ln_CollectionHashedRwset := [];
       ln_Rwset := KvRwSet (default {| NameSpace := []; KvRwSet := None; CollHashedRwSets := [] |} (head (NsRwSets sample_reader))) |}] |}.
Definition sample_ltx_block (txs : list (option ltxTransaction)) : ltxBlock :=
  {| lb_num := 7; lb_txs := txs; lb_sparseblockchainFilter := {| FatBlockNumber := 0; TxnInfoList := [] |}; lb_sparseFilterExists := false |}.
Definition sample_ltx_tx : ltxTransaction :=
  {| l_indexInBlock := 0; l_id := B "id"; l_rwset := sample_ltx; l_validationCode := 0; l_containsPostOrderWrites := false; l_channelId := B "ch" |}.

Lemma lite_validation_agrees_witness :
  full_outcome <$> validateAndPrepareLtxBatch 10 sample_hash no_partial sample_priv_db (sample_ltx_block [Some sample_ltx_tx]) true =
    validateAndPrepareBatch 10 sample_hash sample_priv_db (full_block (sample_ltx_block [Some sample_ltx_tx])) true ∧
  is_ok (validateAndPrepareLtxBatch 10 sample_hash no_partial sample_priv_db (sample_ltx_block [Some sample_ltx_tx]) true) = true.
Proof.
  split; [|vm_compute; reflexivity]. apply (lite_validation_agrees 10 sample_hash no_partial).
  - repeat constructor; eexists; reflexivity.
  - repeat constructor. intros kv [= <-]. repeat constructor. eexists. split; [reflexivity|].
    unfold Unmarshal, Marshal, sample_rqi_codec, countable_proto. by rewrite bytes_pos_pos_bytes, decode_encode.
Defined.

Lemma lite_empty_slot_fails_witness :
  ¬ ∃ r, validateAndPrepareLtxBatch 10 sample_hash no_partial sample_priv_db (sample_ltx_block [Some sample_ltx_tx; None]) true = Ok r.
Proof. apply (lite_empty_slot_fails 10 sample_hash no_partial). by right; left. Defined.

(** A query that found nothing, and a preceding transaction of the block that
    wrote into its range. *)
Definition sample_query : TxRwSet :=
  {| NsRwSets := [{| NameSpace := B "cc"; CollHashedRwSets := [];
       KvRwSet := Some {| Reads := []; RangeQueriesInfo := [SetRawReads (sample_rqi None) []]; Writes := []; MetadataWrites := [] |} |}] |}.
Definition sample_pending : publicAndHashUpdates :=
  match applyWriteSet newPubAndHashUpdates (sample_tx [sample_write (B "k") (B "v")] []) (Some (NewHeight 7 0)) sample_priv_db false with
  | Ok u => u | _ => newPubAndHashUpdates
  end.
Lemma lite_conversion_ignores_phantoms_witness :
  (∃ t', GettxRWSetForLightTxn sample_query = Ok t' ∧
    validateLtx 10 sample_hash no_partial sample_priv_db t' sample_pending = Ok TxValidationCode_VALID) ∧
  validateTx 10 sample_hash sample_priv_db sample_query sample_pending = Ok TxValidationCode_PHANTOM_READ_CONFLICT.
Proof.
  split; [|vm_compute; reflexivity].
  destruct (lite_conversion_ignores_phantoms 10 sample_hash no_partial sample_priv_db sample_query sample_pending) as (t' & Ht & Hv).
  - repeat constructor; eexists; reflexivity.
  - exists t'. split; [exact Ht|]. rewrite Hv. vm_compute. reflexivity.
Defined.
