(* ===== verification/Block.v ===== *)
(** * Blocks and envelopes

  The messages of fabric-protos-go/common and peer that a block is made of, the
  helpers of protoutil (blockutils.go, commonutils.go, txutils.go,
  proputils.go) that take them apart, and the validation flags of
  internal/pkg/txflags.

  A nil pointer or slice field is [None] where the code tells it from an empty
  one. *)

From S2P Require Import Prelude Encoding Version Proto Rwset LiteRwset.
From stdpp Require Import options.
Local Open Scope nat_scope.
Set Default Proof Using "Type*".

(** ** Messages *)

Record BlockHeader := { bh_Number : Z; bh_PreviousHash : bytes; bh_DataHash : bytes }.
Record Block := {
  b_Header : option BlockHeader;
  b_Data : option (list bytes);
  b_Metadata : option (list bytes);
  b_BlockType : Z
}.
Record MetadataSignatureMsg := { ms_SignatureHeader : bytes; ms_Signature : bytes }.
Record MetadataMsg := { md_Value : bytes; md_Signatures : list MetadataSignatureMsg }.
Record LastConfig := { lcf_Index : Z }.
Record OrdererBlockMetadata := { obm_LastConfig : option LastConfig; obm_ConsenterMetadata : bytes }.

#[export] Instance BlockHeader_eq_dec : EqDecision BlockHeader.
Proof. solve_decision. Defined.
#[export] Instance BlockHeader_countable : Countable BlockHeader.
Proof. by apply (inj_countable' (λ r, (bh_Number r, bh_PreviousHash r, bh_DataHash r)) (λ '(x0, x1, x2), Build_BlockHeader x0 x1 x2)); intros []. Defined.
#[export] Instance Block_eq_dec : EqDecision Block.
Proof. solve_decision. Defined.
#[export] Instance Block_countable : Countable Block.
Proof. by apply (inj_countable' (λ r, (b_Header r, b_Data r, b_Metadata r, b_BlockType r)) (λ '(x0, x1, x2, x3), Build_Block x0 x1 x2 x3)); intros []. Defined.
#[export] Instance MetadataSignatureMsg_eq_dec : EqDecision MetadataSignatureMsg.
Proof. solve_decision. Defined.
#[export] Instance MetadataSignatureMsg_countable : Countable MetadataSignatureMsg.
Proof. by apply (inj_countable' (λ r, (ms_SignatureHeader r, ms_Signature r)) (λ '(x0, x1), Build_MetadataSignatureMsg x0 x1)); intros []. Defined.
#[export] Instance MetadataMsg_eq_dec : EqDecision MetadataMsg.
Proof. solve_decision. Defined.
#[export] Instance MetadataMsg_countable : Countable MetadataMsg.
Proof. by apply (inj_countable' (λ r, (md_Value r, md_Signatures r)) (λ '(x0, x1), Build_MetadataMsg x0 x1)); intros []. Defined.
#[export] Instance LastConfig_eq_dec : EqDecision LastConfig.
Proof. solve_decision. Defined.
#[export] Instance LastConfig_countable : Countable LastConfig.
Proof. by apply (inj_countable' (λ r, (lcf_Index r)) (λ x0, Build_LastConfig x0)); intros []. Defined.
#[export] Instance OrdererBlockMetadata_eq_dec : EqDecision OrdererBlockMetadata.
Proof. solve_decision. Defined.
#[export] Instance OrdererBlockMetadata_countable : Countable OrdererBlockMetadata.
Proof. by apply (inj_countable' (λ r, (obm_LastConfig r, obm_ConsenterMetadata r)) (λ '(x0, x1), Build_OrdererBlockMetadata x0 x1)); intros []. Defined.

Record SignatureHeader := { sh_Creator : bytes; sh_Nonce : bytes }.
Record ChaincodeID := { ccid_Path : bytes; ccid_Name : bytes; ccid_Version : bytes }.
Record SerializedIdentity := { sid_Mspid : bytes; sid_IdBytes : bytes }.
Record CommonEndorsement := { ce_Endorser : option SerializedIdentity; ce_Signature : bytes }.
Record ChaincodeEvent := { cev_ChaincodeId : bytes; cev_TxId : bytes; cev_EventName : bytes; cev_Payload : bytes }.
Record EnvMeta := {
  em_SignatureHeader : option SignatureHeader;
  em_ChaincodeID : option ChaincodeID;
  em_Endorsements : list CommonEndorsement;
  em_ProposalHash : bytes;
  em_Events : option ChaincodeEvent
}.
Record LeanEnvelope := {
  le_ChannelId : bytes;
  le_TxId : bytes;
  le_ShardId : Z;
  le_OrgsInvolved : list bytes;
  le_Nonce : bytes;
  le_TlsCertHash : bytes;
  le_Results : option LtxTxReadWriteSet;
  le_Meta : option EnvMeta
}.
Record Envelope := {
  env_Payload : bytes;
  env_Signature : bytes;
  env_Type : Z;
  env_LeanEnv : option LeanEnvelope
}.
Record Header := { hdr_ChannelHeader : bytes; hdr_SignatureHeader : bytes }.
Record Payload := { pl_Header : option Header; pl_Data : bytes }.
Record ChannelHeader := {
  chdr_Type : Z;
  chdr_ChannelId : bytes;
  chdr_TxId : bytes;
  chdr_Timestamp : option (Z * Z);
  chdr_TlsCertHash : bytes;
  chdr_ShardId : Z;
  chdr_OrgsInvolved : list bytes
}.

(** Messages of package peer inside an endorser transaction. *)
Record TransactionAction := { ta_Header : bytes; ta_Payload : bytes }.
Record Transaction := { txn_Actions : list TransactionAction }.
Record PeerEndorsement := { pe_Endorser : bytes; pe_Signature : bytes }.
Record ChaincodeEndorsedAction := { cea_ProposalResponsePayload : option bytes; cea_Endorsements : list PeerEndorsement }.
Record ChaincodeActionPayload := { cap_ChaincodeProposalPayload : bytes; cap_Action : option ChaincodeEndorsedAction }.
Record ProposalResponsePayload := { prp_ProposalHash : bytes; prp_Extension : option bytes }.
Record ChaincodeAction := { ca_Results : bytes; ca_Events : bytes; ca_ChaincodeId : option ChaincodeID }.

(** ** Constants *)

Definition HeaderType_MESSAGE : Z := 0.
Definition HeaderType_CONFIG : Z := 1.
Definition HeaderType_ENDORSER_TRANSACTION : Z := 3.
Definition HeaderType_ORDERER_TRANSACTION : Z := 4.
Definition HeaderType_APPROVE : Z := 10.
Definition HeaderType_COMMIT : Z := 11.

Definition BlockMetadataIndex_SIGNATURES : nat := 0.
Definition BlockMetadataIndex_LAST_CONFIG : nat := 1.
Definition BlockMetadataIndex_TRANSACTIONS_FILTER : nat := 2.
Definition BlockMetadataIndex_ORDERER : nat := 3.
Definition BlockMetadataIndex_SPARSE_TXN_FILTER : nat := 8.
(** The length of [BlockMetadataIndex_name]. *)
Definition BlockMetadataIndex_count : nat := 9.

(** ** Validation flags *)

Definition ValidationFlags_NewWithValues (size : nat) (value : Z) : bytes := replicate size (Zbyte value).
Definition ValidationFlags_SetFlag (obj : bytes) (txIndex : nat) (flag : Z) : res bytes :=
  if decide (txIndex < length obj) then Ok (<[txIndex := Zbyte flag]> obj) else Panic.
Definition ValidationFlags_Flag (obj : bytes) (txIndex : nat) : res Z :=
  b ← index obj txIndex; Ok (byteZ b).
Definition ValidationFlags_IsSetTo (obj : bytes) (txIndex : nat) (flag : Z) : res bool :=
  f ← ValidationFlags_Flag obj txIndex; Ok (bool_decide (f = flag)).
Definition ValidationFlags_IsValid (obj : bytes) (txIndex : nat) : res bool := ValidationFlags_IsSetTo obj txIndex 0.
Definition ValidationFlags_IsInvalid (obj : bytes) (txIndex : nat) : res bool :=
  v ← ValidationFlags_IsValid obj txIndex; Ok (negb v).

(** ** blockutils.go *)

Definition NewBlock (seqNum : Z) (previousHash : bytes) : Block :=
  {| b_Header := Some {| bh_Number := seqNum; bh_PreviousHash := previousHash; bh_DataHash := [] |};
     b_Data := Some []; b_Metadata := Some (replicate BlockMetadataIndex_count []); b_BlockType := 0 |}.

(** [asn1.Marshal] of the header, from Go's standard library: the DER encoding
    of SEQUENCE { INTEGER, OCTET STRING, OCTET STRING }. *)
Fixpoint trim_zeros (l : bytes) : bytes :=
  match l with x00 :: l' => trim_zeros l' | _ => l end.
Definition der_length (n : nat) : bytes :=
  if decide (n < 128) then [Zbyte (Z.of_nat n)]
  else let l := trim_zeros (be_bytes 8 (Z.of_nat n)) in Zbyte (128 + Z.of_nat (length l)) :: l.
Definition der (tag : byte) (content : bytes) : bytes := tag :: der_length (length content) ++ content.
Definition der_magnitude (l : bytes) : bytes :=
  match l with [] => [x00] | b :: _ => if (128 <=? byteZ b)%Z then x00 :: l else l end.
Definition der_integer (v : Z) : bytes := der x02 (der_magnitude (trim_zeros (be_bytes 8 v))).
Definition BlockHeaderBytes (b : BlockHeader) : bytes :=
  der x30 (der_integer (bh_Number b) ++ der x04 (bh_PreviousHash b) ++ der x04 (bh_DataHash b)).

Definition BlockHeaderHash `{!Sha256} (b : BlockHeader) : bytes := ComputeSHA256 (BlockHeaderBytes b).
Definition BlockDataHash `{!Sha256} (data : list bytes) : bytes := ComputeSHA256 (concat data).

Definition InitBlockMetadata (block : Block) : Block :=
  {| b_Header := b_Header block; b_Data := b_Data block;
     b_Metadata := Some (match b_Metadata block with
       | None => replicate 9 []
       | Some metadata => metadata ++ replicate (BlockMetadataIndex_SPARSE_TXN_FILTER + 1 - length metadata) []
       end);
     b_BlockType := b_BlockType block |}.

Definition OrPanic {A} (r : res A) : res A := match r with Ok a => Ok a | _ => Panic end.
Definition MarshalOrPanic {A} `{!ProtoMessage A} (a : A) : res bytes := OrPanic (Marshal a).

Section metadata.
Context `{!ProtoMessage MetadataMsg, !ProtoMessage OrdererBlockMetadata, !ProtoMessage LastConfig}.

Definition GetMetadataFromBlock (block : Block) (i : nat) : res MetadataMsg :=
  match b_Metadata block with
  | None => Err "no metadata in block"
  | Some metadata =>
      if decide (length metadata <= i) then Err "no metadata at index"
      else b ← index metadata i; Unmarshal b
  end.
Definition GetConsenterMetadataFromBlock (block : Block) : res MetadataMsg :=
  m ← GetMetadataFromBlock block BlockMetadataIndex_SIGNATURES;
  if decide (length (md_Value m) = 0) then GetMetadataFromBlock block BlockMetadataIndex_ORDERER
  else obm ← Unmarshal (A := OrdererBlockMetadata) (md_Value m); Unmarshal (obm_ConsenterMetadata obm).
Definition GetLastConfigIndexFromBlock (block : Block) : res Z :=
  m ← GetMetadataFromBlock block BlockMetadataIndex_SIGNATURES;
  if decide (length (md_Value m) = 0) then
    m ← GetMetadataFromBlock block BlockMetadataIndex_LAST_CONFIG;
    lc ← Unmarshal (A := LastConfig) (md_Value m); Ok (lcf_Index lc)
  else
    obm ← Unmarshal (A := OrdererBlockMetadata) (md_Value m);
    lc ← deref (obm_LastConfig obm); Ok (lcf_Index lc).
End metadata.

(** ** Envelopes *)

Section envelopes.
Context `{!ProtoMessage Envelope, !ProtoMessage Payload, !ProtoMessage ChannelHeader}.

Definition GetEnvelopeFromBlock (data : bytes) : res Envelope := Unmarshal data.
Definition UnmarshalPayload (encoded : bytes) : res Payload := Unmarshal encoded.
Definition UnmarshalChannelHeader (b : bytes) : res ChannelHeader := Unmarshal b.

(** The errors of the helpers make the answer [false]. *)
Definition IsConfigBlock (block : Block) : bool :=
  match b_Data block with
  | Some [marshaledEnvelope] =>
      match (envelope ← GetEnvelopeFromBlock marshaledEnvelope; UnmarshalPayload (env_Payload envelope)) with
      | Ok payload =>
          match pl_Header payload with
          | None => false
          | Some hdr =>
              match UnmarshalChannelHeader (hdr_ChannelHeader hdr) with
              | Ok hdr => bool_decide (chdr_Type hdr = HeaderType_CONFIG) || bool_decide (chdr_Type hdr = HeaderType_ORDERER_TRANSACTION)
              | _ => false
              end
          end
      | _ => false
      end
  | _ => false
  end.
Definition IsLiteBlock (block : Block) : res bool :=
  match b_Data block with
  | None => Ok false
  | Some data =>
      marshaledEnvelope ← index data 0;
      match GetEnvelopeFromBlock marshaledEnvelope with
      | Ok envelope => Ok (bool_decide (is_Some (env_LeanEnv envelope)))
      | Err _ => Ok false
      | Panic => Panic
      end
  end.

Definition GetChannelIDFromBlock (block : Block) : res bytes :=
  match b_Data block with
  | None | Some [] => Err "failed to retrieve channel id - block is empty"
  | Some (data :: _) =>
      envelope ← GetEnvelopeFromBlock data;
      match env_LeanEnv envelope with
      | Some leanEnv => Ok (le_ChannelId leanEnv)
      | None =>
          payload ← UnmarshalPayload (env_Payload envelope);
          match pl_Header payload with
          | None => Err "failed to retrieve channel id - payload header is empty"
          | Some hdr => chdr ← UnmarshalChannelHeader (hdr_ChannelHeader hdr); Ok (chdr_ChannelId chdr)
          end
      end
  end.

(** The loop over the transactions is commented out in the code. *)
Definition VerifyTransactionsAreWellFormed (block : Block) : res unit :=
  match b_Data block with
  | None | Some [] => Err "empty block"
  | Some _ => if IsConfigBlock block then Ok () else Ok ()
  end.

Context `{!ProtoMessage Transaction, !ProtoMessage ChaincodeActionPayload,
          !ProtoMessage ProposalResponsePayload, !ProtoMessage ChaincodeAction}.

Definition GetPayloads (txActions : TransactionAction) : res (ChaincodeActionPayload * ChaincodeAction) :=
  ccPayload ← Unmarshal (A := ChaincodeActionPayload) (ta_Payload txActions);
  match cap_Action ccPayload with
  | None => Err "no payload in ChaincodeActionPayload"
  | Some action =>
      match cea_ProposalResponsePayload action with
      | None => Err "no payload in ChaincodeActionPayload"
      | Some prp =>
          pRespPayload ← Unmarshal (A := ProposalResponsePayload) prp;
          match prp_Extension pRespPayload with
          | None => Err "response payload is missing extension"
          | Some extension => respPayload ← Unmarshal extension; Ok (ccPayload, respPayload)
          end
      end
  end.
Definition GetActionFromEnvelopeMsg (env : Envelope) : res ChaincodeAction :=
  payl ← UnmarshalPayload (env_Payload env);
  tx ← Unmarshal (A := Transaction) (pl_Data payl);
  match txn_Actions tx with
  | [] => Err "at least one TransactionAction required"
  | action :: _ => '(_, respPayload) ← GetPayloads action; Ok respPayload
  end.
Definition GetActionFromEnvelope (envBytes : bytes) : res ChaincodeAction :=
  env ← GetEnvelopeFromBlock envBytes; GetActionFromEnvelopeMsg env.
End envelopes.
