(* ===== verification/BlockVerify.v ===== *)
(** * Verification of received blocks

  Models the checks a node makes on a block it receives from another one:
  internal/peer/gossip/mcs.go (VerifyBlock, on a peer) and
  orderer/common/cluster/util.go (VerifyBlocks, on an orderer that catches up).

  Policies and the signatures they check are parameters. *)

From S2P Require Import Prelude Encoding Version Proto Rwset LiteRwset Block.
From stdpp Require Import options.
Local Open Scope nat_scope.
Set Default Proof Using "Type*".

Record SignedData := { sd_Data : bytes; sd_Identity : bytes; sd_Signature : bytes }.

Section verify.
Context `{!Sha256} `{!ProtoMessage MetadataMsg, !ProtoMessage SignatureHeader}.
Context `{!ProtoMessage Envelope, !ProtoMessage Payload, !ProtoMessage ChannelHeader}.

Definition signed_data (block : Block) (metadata : MetadataMsg) (metadataSignature : MetadataSignatureMsg) : res SignedData :=
  shdr ← Unmarshal (A := SignatureHeader) (ms_SignatureHeader metadataSignature);
  header ← deref (b_Header block);
  Ok {| sd_Identity := sh_Creator shdr;
        sd_Data := md_Value metadata ++ ms_SignatureHeader metadataSignature ++ BlockHeaderBytes header;
        sd_Signature := ms_Signature metadataSignature |}.

(** [policies channelID] is the block validation policy of the channel, if
    there is a policy manager for it. *)
Definition VerifyBlock (policies : bytes → option (list SignedData → res unit)) (chainID : bytes) (seqNum : Z) (block : Block) : res unit :=
  match b_Header block with None => Err "Header must be different from nil" | Some header =>
  if decide (seqNum ≠ bh_Number header) then Err "Claimed seqNum differs from the actual one" else
  channelID ← GetChannelIDFromBlock block;
  if decide (channelID ≠ chainID) then Err "Invalid block's channel id" else
  match b_Metadata block with
  | None | Some [] => Err "Block does not have metadata"
  | Some _ =>
      metadata ← GetMetadataFromBlock block BlockMetadataIndex_SIGNATURES;
      _ ← VerifyTransactionsAreWellFormed block;
      data ← deref (b_Data block);
      if decide (BlockDataHash data ≠ bh_DataHash header) then Err "Header.DataHash is different from Hash(block.Data)" else
      match policies channelID with
      | None => Err "Could not acquire policy manager"
      | Some policy => signatureSet ← mapM (signed_data block metadata) (md_Signatures metadata); policy signatureSet
      end
  end
  end.

(** ** Sequences of blocks *)

Definition VerifyBlockHash (indexInBuffer : nat) (blockBuff : list Block) : res unit :=
  if decide (length blockBuff <= indexInBuffer) then Err "index out of bounds" else
  block ← index blockBuff indexInBuffer;
  match b_Header block with None => Err "missing block header" | Some header =>
  _ ← match VerifyTransactionsAreWellFormed block with
      | Err e => if (0 <? bh_Number header)%Z then Err "block has malformed transactions" else Ok ()
      | r => r
      end;
  (* BlockDataHash dereferences block.Data *)
  data ← deref (b_Data block);
  if decide (BlockDataHash data ≠ bh_DataHash header) then Err "computed hash of block doesn't match claimed hash" else
  match indexInBuffer with
  | O => Ok ()
  | S prev =>
      prevBlock ← index blockBuff prev;
      match b_Header prevBlock with None => Err "previous block header is nil" | Some prevHeader =>
      if decide ((bh_Number prevHeader + 1) mod two64 ≠ bh_Number header)%Z
      then Err "sequences were received consecutively"
      else if decide (bh_PreviousHash header ≠ BlockHeaderHash prevHeader)
      then Err "block's hash mismatches prev block hash"
      else Ok ()
      end
  end
  end.

Definition SignatureSetFromBlock (block : Block) : res (list SignedData) :=
  match b_Metadata block with
  | None | Some [] => Err "no metadata in block"
  | Some _ =>
      metadata ← GetMetadataFromBlock block BlockMetadataIndex_SIGNATURES;
      mapM (signed_data block metadata) (md_Signatures metadata)
  end.

(** The configuration in a block; [None] for [errNotAConfig]. *)
Context {ConfigEnvelope : Type} `{!ProtoMessage ConfigEnvelope}.
Definition ConfigFromBlock (block : Block) : res (option ConfigEnvelope) :=
  match b_Data block with
  | None | Some [] => Err "empty block"
  | Some (txn :: _) =>
      env ← GetEnvelopeFromBlock txn;
      payload ← UnmarshalPayload (env_Payload env);
      header ← deref (b_Header block);
      if decide (bh_Number header = 0%Z) then config ← Unmarshal (pl_Data payload); Ok (Some config)
      else match pl_Header payload with
           | None => Err "nil header in payload"
           | Some hdr =>
               chdr ← UnmarshalChannelHeader (hdr_ChannelHeader hdr);
               if decide (chdr_Type chdr ≠ HeaderType_CONFIG) then Ok None
               else config ← Unmarshal (pl_Data payload); Ok (Some config)
           end
  end.

Context (verifier : list SignedData → option ConfigEnvelope → res unit).
Definition VerifyBlockSignature (block : Block) (config : option ConfigEnvelope) : res unit :=
  signatureSet ← SignatureSetFromBlock block; verifier signatureSet config.

Definition VerifyBlocks (blockBuff : list Block) : res unit :=
  match last blockBuff with
  | None => Err "buffer is empty"
  | Some lastBlock =>
      _ ← foldM (λ _ i, VerifyBlockHash i blockBuff) () (seq 0 (length blockBuff));
      '(config, isLastBlockConfigBlock) ← foldM (λ '(config, _) block,
          configFromBlock ← ConfigFromBlock block;
          match configFromBlock with
          | None => Ok (config, false)
          | Some _ => _ ← VerifyBlockSignature block config; Ok (configFromBlock, true)
          end) (None, false) blockBuff;
      if (isLastBlockConfigBlock : bool) then Ok () else VerifyBlockSignature lastBlock config
  end.
End verify.

(** ** The header encoding determines the header *)

Lemma trim_zeros_val l : be_val (trim_zeros l) = be_val l.
Proof. induction l as [|b l IH]; [done|]. by destruct b. Qed.
Lemma trim_zeros_length l : length (trim_zeros l) ≤ length l.
Proof. induction l as [|b l IH]; [done|]. destruct b; simpl; lia. Qed.
Lemma be8_val v : (0 ≤ v < two64)%Z → be_val (trim_zeros (be_bytes 8 v)) = v.
Proof. intros Hv. rewrite trim_zeros_val, be_val_be_bytes. apply Z.mod_small. exact Hv. Qed.

Definition parse_length (l : bytes) : nat * bytes :=
  match l with
  | [] => (0, [])
  | b :: l =>
      if (byteZ b <? 128)%Z then (Z.to_nat (byteZ b), l)
      else let k := Z.to_nat (byteZ b - 128) in (Z.to_nat (be_val (take k l)), drop k l)
  end.
Lemma parse_der_length n r : (Z.of_nat n < two64)%Z → parse_length (der_length n ++ r) = (n, r).
Proof.
  intros Hn. unfold der_length. destruct (decide (n < 128)) as [Hs|Hs].
  - simpl. rewrite byteZ_Zbyte, Z.mod_small by lia. rewrite (proj2 (Z.ltb_lt _ _)) by lia. by rewrite Nat2Z.id.
  - set (l := trim_zeros _). assert (length l ≤ 8) as Hl.
    { unfold l. etrans; [apply trim_zeros_length|]. by rewrite length_be_bytes. }
    cbn [parse_length app]. rewrite byteZ_Zbyte, Z.mod_small by lia. rewrite (proj2 (Z.ltb_ge _ _)) by lia.
    replace (Z.to_nat (128 + Z.of_nat (length l) - 128)) with (length l) by lia.
    rewrite take_app_length, drop_app_length. unfold l. rewrite be8_val by lia. by rewrite Nat2Z.id.
Qed.
Lemma der_inj tag c c' r r' :
  (Z.of_nat (length c) < two64)%Z → (Z.of_nat (length c') < two64)%Z →
  der tag c ++ r = der tag c' ++ r' → c = c' ∧ r = r'.
Proof.
  intros Hc Hc' [= Heq]. rewrite <-!app_assoc in Heq. apply (f_equal parse_length) in Heq.
  rewrite !parse_der_length in Heq by done. injection Heq as Hlen Heq. by apply app_inj_1.
Qed.
Lemma be_val_zero l : be_val (x00 :: l) = be_val l.
Proof. done. Qed.
Lemma der_magnitude_val l : be_val (der_magnitude l) = be_val l.
Proof. destruct l as [|b l]; [done|]. unfold der_magnitude. destruct (_ <=? _)%Z; [|done]. apply be_val_zero. Qed.
Lemma der_magnitude_length l : length (der_magnitude l) ≤ S (length l).
Proof. destruct l as [|b l]; [done|]. unfold der_magnitude. destruct (_ <=? _)%Z; simpl; lia. Qed.
Lemma der_integer_inj v v' r r' :
  (0 ≤ v < two64)%Z → (0 ≤ v' < two64)%Z → der_integer v ++ r = der_integer v' ++ r' → v = v' ∧ r = r'.
Proof.
  assert (∀ w, (Z.of_nat (length (der_magnitude (trim_zeros (be_bytes 8 w)))) < two64)%Z) as Hlen.
  { intros w. pose proof (der_magnitude_length (trim_zeros (be_bytes 8 w))) as Hm.
    pose proof (trim_zeros_length (be_bytes 8 w)) as Ht. rewrite length_be_bytes in Ht. unfold two64. lia. }
  intros Hv Hv' Heq. apply der_inj in Heq as [Heq ->]; [|done..]. split; [|done].
  apply (f_equal be_val) in Heq. by rewrite !der_magnitude_val, !be8_val in Heq.
Qed.

Definition header_wf (h : BlockHeader) : Prop :=
  (0 ≤ bh_Number h < two64)%Z ∧ (Z.of_nat (length (bh_PreviousHash h)) < two32)%Z ∧ (Z.of_nat (length (bh_DataHash h)) < two32)%Z.

Lemma der_length_length n : (Z.of_nat n < two64)%Z → length (der_length n) ≤ 9.
Proof.
  intros Hn. unfold der_length. destruct (decide _); cbn [length]; [lia|].
  pose proof (trim_zeros_length (be_bytes 8 (Z.of_nat n))) as Ht. rewrite length_be_bytes in Ht. lia.
Qed.
Lemma length_der tag c : (Z.of_nat (length c) < two64)%Z → length (der tag c) ≤ 10 + length c.
Proof. intros Hc. unfold der. simpl. rewrite length_app. pose proof (der_length_length (length c) Hc). lia. Qed.

Lemma BlockHeaderBytes_inj h h' : header_wf h → header_wf h' → BlockHeaderBytes h = BlockHeaderBytes h' → h = h'.
Proof.
  intros (Hn & Hp & Hd) (Hn' & Hp' & Hd') Heq. unfold two32, two64 in *.
  assert (∀ h, header_wf h → (Z.of_nat (length (der_integer (bh_Number h) ++ der x04 (bh_PreviousHash h) ++ der x04 (bh_DataHash h))) < two64)%Z) as Hlen.
  { clear. intros [n p d] (? & ? & ?); cbn [bh_Number bh_PreviousHash bh_DataHash] in *. rewrite !length_app. unfold two32 in *.
    pose proof (der_magnitude_length (trim_zeros (be_bytes 8 n))) as Hm.
    pose proof (trim_zeros_length (be_bytes 8 n)) as Ht. rewrite length_be_bytes in Ht.
    pose proof (length_der x04 p ltac:(unfold two64; lia)). pose proof (length_der x04 d ltac:(unfold two64; lia)).
    pose proof (length_der x02 (der_magnitude (trim_zeros (be_bytes 8 n))) ltac:(unfold two64; lia)).
    unfold der_integer, two64. lia. }
  unfold BlockHeaderBytes in Heq. rewrite <-(app_nil_r (der _ _)), <-(app_nil_r (der x30 (der_integer (bh_Number h') ++ _))) in Heq.
  apply der_inj in Heq as [Heq _]; [|by apply Hlen..].
  apply der_integer_inj in Heq as [Hnum Heq]; [|done..].
  apply der_inj in Heq as [Hprev Heq]; [|unfold two64; lia..].
  rewrite <-(app_nil_r (der _ _)), <-(app_nil_r (der x04 (bh_DataHash h'))) in Heq.
  apply der_inj in Heq as [Hdata _]; [|unfold two64; lia..]. destruct h, h'; simpl in *. congruence.
Qed.

(** ** Collisions *)

Definition collision `{!Sha256} (L : list bytes) : Prop :=
  Exists (λ x, Exists (λ y, x ≠ y ∧ ComputeSHA256 x = ComputeSHA256 y) L) L.
Lemma no_collision `{!Sha256} L x y :
  ¬ collision L → x ∈ L → y ∈ L → ComputeSHA256 x = ComputeSHA256 y → x = y.
Proof.
  intros Hno Hx Hy Heq. destruct (decide (x = y)) as [|Hne]; [done|]. destruct Hno.
  apply Exists_exists. exists x. split; [done|]. apply Exists_exists. eauto.
Qed.

(** A header with numbers in range. *)
Definition block_header_wf (b : Block) : Prop := ∀ h, b_Header b = Some h → header_wf h.
(** What the verification of a block hashes: its header and its data. *)
Definition block_data (b : Block) : bytes := concat (default [] (b_Data b)).
Definition header_bytes (b : Block) : bytes := from_option BlockHeaderBytes [] (b_Header b).
Definition hashed (bs : list Block) : list bytes := bs ≫= λ b, [header_bytes b; block_data b].
Lemma elem_of_hashed bs b x : b ∈ bs → x ∈ [header_bytes b; block_data b] → x ∈ hashed bs.
Proof. intros Hb Hx. apply list_elem_of_bind. eauto. Qed.

(** ** Extending a verified sequence *)

Section links.
Context `{!Sha256} `{!ProtoMessage Envelope, !ProtoMessage Payload, !ProtoMessage ChannelHeader}.

Definition link (prev b : Block) : Prop := ∃ ph h, b_Header prev = Some ph ∧ b_Header b = Some h ∧
  u64 (bh_Number ph + 1) = bh_Number h ∧ bh_PreviousHash h = BlockHeaderHash ph.
Lemma VerifyBlockHash_app i l k : i < length l → VerifyBlockHash i (l ++ k) = VerifyBlockHash i l.
Proof.
  intros Hi. unfold VerifyBlockHash, index. rewrite length_app. rewrite !decide_False by lia.
  rewrite lookup_app_l by done. destruct i; [done|]. by rewrite lookup_app_l by lia.
Qed.
Lemma VerifyBlockHash_snoc l b h data : (∀ i, i < length l → VerifyBlockHash i l = Ok ()) →
  b_Header b = Some h → b_Data b = Some data → data ≠ [] → bh_DataHash h = BlockDataHash data →
  (∀ prev, last l = Some prev → link prev b) →
  ∀ i, i < length (l ++ [b]) → VerifyBlockHash i (l ++ [b]) = Ok ().
Proof.
  intros Hl Hh Hd Hne Hhash Hlink i Hi. rewrite length_app in Hi; simpl in Hi.
  destruct (decide (i < length l)); [rewrite VerifyBlockHash_app by done; auto|]. assert (i = length l) as -> by lia.
  unfold VerifyBlockHash, index. rewrite length_app. rewrite decide_False by (simpl; lia).
  rewrite list_lookup_middle by done. rewrite bind_Ok_eq, Hh. unfold VerifyTransactionsAreWellFormed. rewrite Hd.
  destruct data as [|x data]; [done|].
  assert ((if IsConfigBlock b then Ok () else Ok ()) = Ok ()) as -> by by destruct (IsConfigBlock b). rewrite bind_Ok_eq. cbn [deref]. rewrite bind_Ok_eq.
  rewrite decide_False by (by intros []). destruct (length l) as [|j] eqn:Hj; [done|].
  destruct (lookup_lt_is_Some_2 l j) as [prev Hp]; [lia|]. rewrite lookup_app_l, Hp by lia. rewrite bind_Ok_eq.
  destruct (Hlink prev) as (ph & h' & Hph & Hh' & Hn & Hpr); [by rewrite last_lookup, Hj|]. rewrite Hph. assert (h' = h) as -> by congruence.
  rewrite !decide_False; [done|by intros []|]. unfold u64 in Hn. by intros [].
Qed.
End links.

Section properties.
Context `{!Sha256} `{!ProtoMessage MetadataMsg, !ProtoMessage SignatureHeader}.
Context `{!ProtoMessage Envelope, !ProtoMessage Payload, !ProtoMessage ChannelHeader}.

Lemma VerifyBlockHash_data i bs b :
  VerifyBlockHash i bs = Ok () → bs !! i = Some b →
  ∃ h, b_Header b = Some h ∧ ComputeSHA256 (block_data b) = bh_DataHash h.
Proof.
  unfold VerifyBlockHash, index. intros Hv Hb. rewrite Hb in Hv. destruct (decide _); [done|]. cbn in Hv.
  destruct (b_Header b) as [h|]; [|done]. exists h. split; [done|].
  apply bind_Ok in Hv as (_ & _ & Hv). unfold block_data. destruct (b_Data b) as [data|]; [|done]. cbn -[decide] in *.
  destruct (decide (BlockDataHash data ≠ _)) as [|Hd]; [done|]. by apply dec_stable in Hd.
Qed.
Lemma VerifyBlockHash_prev i bs b prev :
  VerifyBlockHash (S i) bs = Ok () → bs !! S i = Some b → bs !! i = Some prev →
  ∃ h h', b_Header b = Some h ∧ b_Header prev = Some h' ∧ bh_PreviousHash h = BlockHeaderHash h'.
Proof.
  unfold VerifyBlockHash, index. intros Hv Hb Hp. rewrite Hb, Hp in Hv. destruct (decide _); [done|]. cbn -[decide] in Hv.
  destruct (b_Header b) as [h|]; [|done]. apply bind_Ok in Hv as (_ & _ & Hv). apply bind_Ok in Hv as (data & _ & Hv).
  destruct (decide _); [done|]. destruct (b_Header prev) as [h'|]; [|done].
  exists h, h'. split_and!; [done..|]. repeat (destruct (decide _); [done|]). by apply dec_stable.
Qed.

Context {ConfigEnvelope : Type} `{!ProtoMessage ConfigEnvelope} (verifier : list SignedData → option ConfigEnvelope → res unit).

Lemma VerifyBlocks_hashes bs i : VerifyBlocks verifier bs = Ok () → i < length bs → VerifyBlockHash i bs = Ok ().
Proof.
  unfold VerifyBlocks. destruct (last bs); [|done]. intros Hv Hi. apply bind_Ok in Hv as ([] & Hf & _).
  destruct (foldM_elem (λ _ i, VerifyBlockHash i bs) i _ _ _ Hf) as ([] & [] & Hok); [|done].
  apply elem_of_seq. lia.
Qed.

Lemma chain_headers bs bs' :
  VerifyBlocks verifier bs = Ok () → VerifyBlocks verifier bs' = Ok () →
  Forall block_header_wf bs → Forall block_header_wf bs' →
  length bs = length bs' → b_Header <$> last bs = b_Header <$> last bs' → ¬ collision (hashed bs ++ hashed bs') →
  ∀ k i b b', i + k = length bs - 1 → bs !! i = Some b → bs' !! i = Some b' → b_Header b = b_Header b'.
Proof.
  intros Hv Hv' Hwf Hwf' Hlen Hlast Hno. induction k as [|k IH]; intros i b b' Hi Hb Hb'.
  - rewrite !last_lookup in Hlast. replace (pred (length bs)) with i in Hlast by lia.
    replace (pred (length bs')) with i in Hlast by lia. rewrite Hb, Hb' in Hlast. by injection Hlast.
  - pose proof (lookup_lt_Some _ _ _ Hb). destruct (lookup_lt_is_Some_2 bs (S i)) as [c Hc]; [lia|].
    destruct (lookup_lt_is_Some_2 bs' (S i)) as [c' Hc']; [lia|].
    assert (b_Header c = b_Header c') as Heq by (apply (IH (S i)); [lia|done..]).
    pose proof (VerifyBlockHash_prev i bs c b (VerifyBlocks_hashes bs (S i) Hv ltac:(lia)) Hc Hb) as (hc & hb & Ec & Eb & Hp).
    pose proof (VerifyBlockHash_prev i bs' c' b' (VerifyBlocks_hashes bs' (S i) Hv' ltac:(lia)) Hc' Hb') as (hc' & hb' & Ec' & Eb' & Hp').
    assert (hc = hc') as -> by congruence. rewrite Hp' in Hp. symmetry in Hp. unfold BlockHeaderHash in Hp. apply no_collision with (L := hashed bs ++ hashed bs') in Hp; [|done|..].
    + apply BlockHeaderBytes_inj in Hp; [congruence|exact (Forall_lookup_1 _ _ _ _ Hwf Hb _ Eb)|exact (Forall_lookup_1 _ _ _ _ Hwf' Hb' _ Eb')].
    + apply elem_of_app. left. eapply elem_of_hashed; [exact (list_elem_of_lookup_2 _ _ _ Hb)|]. unfold header_bytes. rewrite Eb. left.
    + apply elem_of_app. right. eapply elem_of_hashed; [exact (list_elem_of_lookup_2 _ _ _ Hb')|]. unfold header_bytes. rewrite Eb'. left.
Qed.

(** C12: a verified sequence of blocks is fixed by the header of its last block.
    If two sequences of the same length both pass the orderer's verification and
    end in the same header, then all their headers and the concatenated data of
    all their blocks agree, or two different strings that the verification
    hashed have the same SHA-256. *)
Theorem verified_chain_determined bs bs'
    (Hv : VerifyBlocks verifier bs = Ok ()) (Hv' : VerifyBlocks verifier bs' = Ok ())
    (Hwf : Forall block_header_wf (bs ++ bs'))
    (Hlen : length bs = length bs') (Hlast : b_Header <$> last bs = b_Header <$> last bs') :
  (b_Header <$> bs = b_Header <$> bs' ∧ block_data <$> bs = block_data <$> bs') ∨ collision (hashed bs ++ hashed bs').
Proof.
  apply Forall_app in Hwf as [Hwf Hwf']. destruct (decide (collision (hashed bs ++ hashed bs'))) as [|Hno]; [by right|]. left.
  assert (∀ i b b', bs !! i = Some b → bs' !! i = Some b' → b_Header b = b_Header b') as Hhdr.
  { intros i b b' Hb Hb'. pose proof (lookup_lt_Some _ _ _ Hb).
    apply (chain_headers bs bs' Hv Hv' Hwf Hwf' Hlen Hlast Hno (length bs - 1 - i) i); [lia|done..]. }
  assert (∀ i b b', bs !! i = Some b → bs' !! i = Some b' → block_data b = block_data b') as Hdata.
  { intros i b b' Hb Hb'. pose proof (lookup_lt_Some _ _ _ Hb). apply (no_collision (hashed bs ++ hashed bs')); [done|..].
    - apply elem_of_app. left. eapply elem_of_hashed; [exact (list_elem_of_lookup_2 _ _ _ Hb)|]. right; left.
    - apply elem_of_app. right. eapply elem_of_hashed; [exact (list_elem_of_lookup_2 _ _ _ Hb')|]. right; left.
    - destruct (VerifyBlockHash_data i bs b) as (h & Eh & ->); [apply VerifyBlocks_hashes; [done|lia]|done|].
      destruct (VerifyBlockHash_data i bs' b') as (h' & Eh' & ->); [apply VerifyBlocks_hashes; [done|lia]|done|].
      pose proof (Hhdr _ _ _ Hb Hb'). congruence. }
  split; apply list_eq; intros i; rewrite !list_lookup_fmap;
    destruct (bs !! i) as [b|] eqn:Hb; destruct (bs' !! i) as [b'|] eqn:Hb'; simpl; try done.
  all: try (f_equal; by eauto).
  all: apply lookup_ge_None in Hb || apply lookup_ge_None in Hb'.
  all: try (apply lookup_lt_Some in Hb; lia). all: apply lookup_lt_Some in Hb'; lia.
Qed.
End properties.

Section regroup.
Context `{!Sha256} `{!ProtoMessage MetadataMsg, !ProtoMessage SignatureHeader}.
Context `{!ProtoMessage Envelope, !ProtoMessage Payload, !ProtoMessage ChannelHeader}.

Definition with_data (b : Block) (data : list bytes) : Block :=
  {| b_Header := b_Header b; b_Data := Some data; b_Metadata := b_Metadata b; b_BlockType := b_BlockType b |}.

Lemma verify_transactions_trivial b x l : VerifyTransactionsAreWellFormed (with_data b (x :: l)) = Ok ().
Proof. unfold VerifyTransactionsAreWellFormed. simpl. by destruct (IsConfigBlock _). Qed.

(** the verification of a block by a peer does not fix where one transaction
    ends and the next begins. The data hash covers the concatenation of the
    transactions only, and the check of the single transactions is switched off:
    after the first transaction the data can be cut into other transactions
    without changing the outcome of the verification, signatures included. *)
Theorem verify_block_regrouping (policies : bytes → option (list SignedData → res unit)) (chainID : bytes) (seqNum : Z) (block : Block)
    (first : bytes) (rest rest' : list bytes) (Hconcat : concat rest = concat rest') :
  VerifyBlock policies chainID seqNum (with_data block (first :: rest)) =
  VerifyBlock policies chainID seqNum (with_data block (first :: rest')).
Proof.
  set (b := with_data block (first :: rest)). set (b' := with_data block (first :: rest')). unfold VerifyBlock.
  rewrite (verify_transactions_trivial block first rest : VerifyTransactionsAreWellFormed b = _).
  rewrite (verify_transactions_trivial block first rest' : VerifyTransactionsAreWellFormed b' = _).
  change (GetChannelIDFromBlock b') with (GetChannelIDFromBlock b). change (GetMetadataFromBlock b') with (GetMetadataFromBlock b).
  change (signed_data b') with (signed_data b). change (b_Header b') with (b_Header b). change (b_Metadata b') with (b_Metadata b).
  change (b_Data b) with (Some (first :: rest)). change (b_Data b') with (Some (first :: rest')). cbn [deref]. run.
  assert (BlockDataHash (first :: rest) = BlockDataHash (first :: rest')) as Hhash
    by (unfold BlockDataHash; cbn [concat]; by rewrite Hconcat).
  destruct (b_Header b); [|done]. destruct (decide _); [done|]. destruct (GetChannelIDFromBlock b); [|done..]. run. destruct (decide _); [done|].
  destruct (b_Metadata b) as [[]|]; [done| |done]. destruct (GetMetadataFromBlock b _); [|done..]. run. by rewrite Hhash.
Qed.
End regroup.

(** ** Samples *)

(** An envelope is its payload; its lean part names the channel. *)
#[local] Instance sample_env_codec : ProtoMessage Envelope := {|
  Marshal e := Ok (env_Payload e);
  Unmarshal b := Ok {| env_Payload := b; env_Signature := []; env_Type := HeaderType_ENDORSER_TRANSACTION;
    env_LeanEnv := Some {| le_ChannelId := B "ch"; le_TxId := b; le_ShardId := 0; le_OrgsInvolved := []; le_Nonce := [];
      le_TlsCertHash := []; le_Results := None; le_Meta := None |} |}
|}.
#[local] Instance sample_payload_codec : ProtoMessage Payload := {|
  Marshal p := Ok (pl_Data p); Unmarshal b := Ok {| pl_Header := Some {| hdr_ChannelHeader := []; hdr_SignatureHeader := [] |}; pl_Data := b |}
|}.
#[local] Instance sample_chdr_codec : ProtoMessage ChannelHeader := {|
  Marshal c := Ok (chdr_ChannelId c);
  Unmarshal b := Ok {| chdr_Type := HeaderType_ENDORSER_TRANSACTION; chdr_ChannelId := b; chdr_TxId := []; chdr_Timestamp := None; chdr_TlsCertHash := []; chdr_ShardId := 0; chdr_OrgsInvolved := [] |}
|}.
#[local] Instance sample_metadata_codec : ProtoMessage MetadataMsg := {|
  Marshal m := Ok (md_Value m); Unmarshal b := Ok {| md_Value := b; md_Signatures := [] |}
|}.
#[local] Instance sample_sighdr_codec : ProtoMessage SignatureHeader := {|
  Marshal s := Ok (sh_Creator s); Unmarshal b := Ok {| sh_Creator := b; sh_Nonce := [] |}
|}.
#[local] Instance sample_config_codec : ProtoMessage bytes := {| Marshal b := Ok b; Unmarshal b := Ok b |}.
#[local] Instance sample_block_sha : Sha256 := λ b, b.

Definition sample_block_with (number : Z) (previousHash : bytes) (data : list bytes) : Block :=
  {| b_Header := Some {| bh_Number := number; bh_PreviousHash := previousHash; bh_DataHash := BlockDataHash data |};
     b_Data := Some data; b_Metadata := Some (replicate 9 []); b_BlockType := 0 |}.
Definition accept_all : bytes → option (list SignedData → res unit) := λ _, Some (λ _, Ok ()).

(** Three transactions, of which the last two are turned into one. *)
Lemma verify_block_regrouping_witness :
  let b := sample_block_with 5 [] [B "t1"; B "t2"; B "t3"] in
  VerifyBlock accept_all (B "ch") 5 b = Ok () ∧
  VerifyBlock accept_all (B "ch") 5 b = VerifyBlock accept_all (B "ch") 5 (with_data b [B "t1"; B "t2t3"]).
Proof.
  intros b. split; [vm_compute; reflexivity|].
  apply (verify_block_regrouping accept_all (B "ch") 5 b (B "t1") [B "t2"; B "t3"] [B "t2t3"]). vm_compute. reflexivity.
Defined.

Definition sample_chain : list Block :=
  let b0 := sample_block_with 5 [] [B "t1"] in [b0; sample_block_with 6 (from_option BlockHeaderHash [] (b_Header b0)) [B "t2"]].
Lemma verified_chain_determined_witness :
  (b_Header <$> sample_chain = b_Header <$> sample_chain ∧ block_data <$> sample_chain = block_data <$> sample_chain) ∨
  collision (hashed sample_chain ++ hashed sample_chain).
Proof.
  apply (verified_chain_determined (λ _ (_ : option bytes), Ok ()) sample_chain sample_chain); [vm_compute; reflexivity..| |reflexivity|reflexivity].
  repeat (apply Forall_cons_2; [intros h [= <-]; repeat constructor; vm_compute; congruence|]). apply Forall_nil_2.
Defined.
