(* ===== verification/LeanEnvelope.v ===== *)
(** * Lean envelopes from ordinary ones

  Models the part of protoutil/liteutils.go that rewrites an ordinary endorser
  transaction as a lean one, for the transactions (chaincode approval and
  commit) that reach the orderer and the lite peers in the ordinary format. *)

From S2P Require Import Prelude Version Proto Rwset LiteRwset Block.
From stdpp Require Import options.
Local Open Scope nat_scope.
Set Default Proof Using "Type*".

(** Messages of package common between the two formats. *)
Record LightHeader := { lh_ChannelHeader : ChannelHeader; lh_SignatureHeader : SignatureHeader }.
Record LightChaincodeAction := { lca_Results : LtxTxReadWriteSet; lca_Events : ChaincodeEvent; lca_ChaincodeId : ChaincodeID }.
Record LightProposalResponsePayload := { lprp_ProposalHash : bytes; lprp_Extension : LightChaincodeAction }.
Record LightEndorsedAction := { lea_ProposalResponsePayload : LightProposalResponsePayload; lea_Endorsements : list CommonEndorsement }.
Record LEnvelope := { lenv_Header : option LightHeader; lenv_Data : LightEndorsedAction }.

Section lean.
Context `{!ProtoMessage KVRWSet, !ProtoMessage HashedRWSet, !ProtoMessage TxReadWriteSet}.
Context `{!ProtoMessage Payload, !ProtoPartial Payload, !ProtoMessage ChannelHeader, !ProtoMessage SignatureHeader}.
Context `{!ProtoMessage SerializedIdentity, !ProtoPartial SerializedIdentity, !ProtoMessage ChaincodeEvent, !ProtoPartial ChaincodeEvent}.
Context `{!ProtoMessage Transaction, !ProtoMessage ChaincodeActionPayload}.
Context `{!ProtoMessage ProposalResponsePayload, !ProtoMessage ChaincodeAction}.

(** [proto.Unmarshal] into a fresh message with the error ignored. *)
Definition UnmarshalIgnore {A} `{!ProtoMessage A} `{!ProtoPartial A} (b : bytes) : res A :=
  match Unmarshal b with Ok a => Ok a | Err _ => Ok (partial_message b) | Panic => Panic end.

Definition GetCommonEndorsement (pEnd : PeerEndorsement) : res CommonEndorsement :=
  endorser ← UnmarshalIgnore (pe_Endorser pEnd);
  Ok {| ce_Endorser := Some endorser; ce_Signature := pe_Signature pEnd |}.
Definition GetEndorsementsForLightTxn (endorsements : list PeerEndorsement) : res (list CommonEndorsement) :=
  mapM GetCommonEndorsement endorsements.

(** The error of [FromProtoBytes] is replaced by another one. *)
Definition GetChaincodeActionForLightTxn (ca : ChaincodeAction) : res LightChaincodeAction :=
  txRWSet ← match TxRwSet_FromProtoBytes (ca_Results ca) with
            | Err _ => Err "The transaction is rejected as the respPayload couldnt be unmarshalled"
            | r => r
            end;
  cTxRWSet ← GettxRWSetForLightTxn txRWSet;
  pChaincodeEvent ← UnmarshalIgnore (A := ChaincodeEvent) (ca_Events ca);
  ccid ← deref (ca_ChaincodeId ca);
  Ok {| lca_Results := cTxRWSet; lca_Events := pChaincodeEvent; lca_ChaincodeId := ccid |}.

(** A nil slice unmarshals as the empty one. *)
Definition GetProposalResponsePayloadForLightTxn (prp : ProposalResponsePayload) : res LightProposalResponsePayload :=
  peerCcodeAction ← match Unmarshal (A := ChaincodeAction) (default [] (prp_Extension prp)) with
                    | Err _ => Err "err unmarsal proposal response payload for light txn"
                    | r => r
                    end;
  chaincodeAction ← GetChaincodeActionForLightTxn peerCcodeAction;
  Ok {| lprp_ProposalHash := prp_ProposalHash prp; lprp_Extension := chaincodeAction |}.

Definition GetChaincodeEndorsedAction (endorsements : list PeerEndorsement) (prpBytes : bytes) : res LightEndorsedAction :=
  pRespPayload ← Unmarshal (A := ProposalResponsePayload) prpBytes;
  lPrp ← GetProposalResponsePayloadForLightTxn pRespPayload;
  lEndorsements ← GetEndorsementsForLightTxn endorsements;
  Ok {| lea_ProposalResponsePayload := lPrp; lea_Endorsements := lEndorsements |}.

Definition UnmarshalLightTransaction (txBytes : bytes) : res LightEndorsedAction :=
  tx ← Unmarshal (A := Transaction) txBytes;
  action ← index (txn_Actions tx) 0;
  tx1 ← Unmarshal (A := ChaincodeActionPayload) (ta_Payload action);
  action ← deref (cap_Action tx1);
  GetChaincodeEndorsedAction (cea_Endorsements action) (default [] (cea_ProposalResponsePayload action)).

Definition GetLiteHeader (hdr : option Header) : res LightHeader :=
  hdr ← deref hdr;
  shdr ← Unmarshal (A := SignatureHeader) (hdr_SignatureHeader hdr);
  chdr ← UnmarshalChannelHeader (hdr_ChannelHeader hdr);
  Ok {| lh_ChannelHeader := chdr; lh_SignatureHeader := shdr |}.

(** An error of [UnmarshalPayload] is dropped: the header stays nil and the
    partial payload is used. *)
Definition GetLightEnvFromCommonEnv (txnEnv : Envelope) : res LEnvelope :=
  '(txnHdr, payload) ← match UnmarshalPayload (env_Payload txnEnv) with
                       | Ok payload => txnHdr ← GetLiteHeader (pl_Header payload); Ok (Some txnHdr, payload)
                       | Err _ => Ok (None, partial_message (env_Payload txnEnv))
                       | Panic => Panic
                       end;
  txn ← UnmarshalLightTransaction (pl_Data payload);
  Ok {| lenv_Header := txnHdr; lenv_Data := txn |}.

Definition GetLeanEnvFromCommonEnv (txnEnv : Envelope) : res LeanEnvelope :=
  lightEnv ← GetLightEnvFromCommonEnv txnEnv;
  hdr ← deref (lenv_Header lightEnv);
  let prp := lea_ProposalResponsePayload (lenv_Data lightEnv) in
  let meta := {| em_SignatureHeader := Some (lh_SignatureHeader hdr);
                 em_ChaincodeID := Some (lca_ChaincodeId (lprp_Extension prp));
                 em_Endorsements := lea_Endorsements (lenv_Data lightEnv);
                 em_ProposalHash := lprp_ProposalHash prp;
                 em_Events := Some (lca_Events (lprp_Extension prp)) |} in
  Ok {| le_ChannelId := chdr_ChannelId (lh_ChannelHeader hdr);
        le_TxId := chdr_TxId (lh_ChannelHeader hdr);
        le_ShardId := chdr_ShardId (lh_ChannelHeader hdr);
        le_OrgsInvolved := chdr_OrgsInvolved (lh_ChannelHeader hdr);
        le_Nonce := sh_Nonce (lh_SignatureHeader hdr);
        le_TlsCertHash := chdr_TlsCertHash (lh_ChannelHeader hdr);
        le_Results := Some (lca_Results (lprp_Extension prp));
        le_Meta := Some meta |}.

(** The lean envelope carries the read-write set that the ordinary path reads
    from the same envelope, converted. *)
Lemma GetLeanEnv_results env action t lean :
  GetActionFromEnvelopeMsg env = Ok action → TxRwSet_FromProtoBytes (ca_Results action) = Ok t →
  GetLeanEnvFromCommonEnv env = Ok lean →
  ∃ t', GettxRWSetForLightTxn t = Ok t' ∧ le_Results lean = Some t'.
Proof.
  unfold GetLeanEnvFromCommonEnv, GetLightEnvFromCommonEnv, GetActionFromEnvelopeMsg. intros Ha Ht Hl.
  apply bind_Ok in Ha as (payl & Hp & Ha). rewrite Hp in Hl. apply bind_Ok in Ha as (tx & Htx & Ha).
  destruct (txn_Actions tx) as [|act acts] eqn:Hacts; [done|]. apply bind_Ok in Ha as ([cp a] & Hg & [= ->]).
  unfold GetPayloads in Hg. apply bind_Ok in Hg as (ccp & Hccp & Hg).
  destruct (cap_Action ccp) as [cea|] eqn:Hcea; [|done]. destruct (cea_ProposalResponsePayload cea) as [prp|] eqn:Hprp; [|done].
  apply bind_Ok in Hg as (pr & Hpr & Hg). destruct (prp_Extension pr) as [ext|] eqn:Hext; [|done].
  apply bind_Ok in Hg as (ca & Hca & [= -> ->]).
  apply bind_Ok in Hl as (lenv & Hlenv & Hl). apply bind_Ok in Hl as (hdr & _ & [= <-]). cbn [le_Results].
  apply bind_Ok in Hlenv as ([h payl'] & Hh & Hlenv). apply bind_Ok in Hh as (h' & _ & [= <- <-]).
  apply bind_Ok in Hlenv as (txn & Htxn & [= <-]). cbn [lenv_Data].
  unfold UnmarshalLightTransaction in Htxn. rewrite Htx in Htxn. run.
  rewrite bind_Ok_eq, Hacts, index_0, bind_Ok_eq, Hccp, bind_Ok_eq, Hcea in Htxn. cbn [deref] in Htxn.
  rewrite bind_Ok_eq, Hprp in Htxn. unfold GetChaincodeEndorsedAction in Htxn. cbn [from_option id] in Htxn.
  rewrite Hpr, bind_Ok_eq in Htxn.
  apply bind_Ok in Htxn as (lprp & Hlprp & Htxn). apply bind_Ok in Htxn as (ends & _ & [= <-]). cbn [lea_ProposalResponsePayload].
  unfold GetProposalResponsePayloadForLightTxn in Hlprp. rewrite Hext in Hlprp. cbn [from_option id] in Hlprp.
  rewrite Hca, bind_Ok_eq in Hlprp. apply bind_Ok in Hlprp as (lca & Hlca & [= <-]). cbn [lprp_Extension].
  unfold GetChaincodeActionForLightTxn in Hlca. rewrite Ht, bind_Ok_eq in Hlca.
  apply bind_Ok in Hlca as (t' & Ht' & Hlca). inv_ok. simpl. eauto.
Qed.
End lean.
