(* ===== verification/BatchPreparer.v ===== *)
(** * Preparing the batch of a block

  Models core/ledger/kvledger/txmgmt/validation/batch_preparer.go and the lite
  variant in batch_preparer_adapter.go: the envelopes of a block are parsed, the
  transactions are validated (Validator, LiteValidator), the private data of the
  valid ones is checked against the hashes in the block and collected, and the
  verdicts are written back into the validation flags of the block.

  The flags are a slice of the block's metadata that is updated in place; the
  model threads them through. *)

From S2P Require Import Prelude SortedMap Version StateDB Proto Rwset Merkle LevelDB StateLevelDB PrivState.
From S2P Require Import CombinedIterator RangeQuery TxOps SparseTypes Validator LiteRwset LiteValidator Block LeanEnvelope.
From stdpp Require Import options.
Local Open Scope nat_scope.
Set Default Proof Using "Type*".

Definition TxValidationCode_NIL_TXACTION : TxValidationCode := 16%Z.
Definition TxValidationCode_INVALID_WRITESET : TxValidationCode := 24%Z.
Definition TxValidationCode_INVALID_OTHER_REASON : TxValidationCode := 255%Z.

Record TxStatInfo := {
  TxIDFromChannelHeader : bytes;
  si_ValidationCode : TxValidationCode;
  si_TxType : Z;
  si_ChaincodeID : option ChaincodeID;
  ChaincodeEventData : bytes;
  si_NumCollections : nat
}.

(** ledger.TxPvtData; [WriteSet] may be nil. *)
Record TxPvtData := { SeqInBlock : Z; pd_WriteSet : option TxPvtReadWriteSet }.

(** ** Private data *)

Record collKey := { clk_ns : bytes; clk_coll : bytes; clk_key : bytes }.
#[export] Instance collKey_eq_dec : EqDecision collKey.
Proof. solve_decision. Defined.
#[export] Instance collKey_countable : Countable collKey.
Proof. by apply (inj_countable' (λ r, (clk_ns r, clk_coll r, clk_key r)) (λ '(a, b, c), Build_collKey a b c)); intros []. Defined.
Notation metadataUpdates := (gset collKey).

Definition requiresPvtdataValidation (tx : TxPvtData) : bool := true.

(** [hash ns coll] is the hash in the public data, [retrieveHash] of the
    transaction. *)
Definition validatePvtdata `{!Sha256} (hash : bytes → bytes → option bytes) (pvtdata : TxPvtData) : res unit :=
  match pd_WriteSet pvtdata with
  | None => Ok ()
  | Some ws =>
      foldM (λ _ nsPvtdata,
        foldM (λ _ collPvtdata,
            let collPvtdataHash := ComputeHash (cpp_Rwset collPvtdata) in
            let hashInPubdata := hash (npp_Namespace nsPvtdata) (cpp_CollectionName collPvtdata) in
            if decide (collPvtdataHash ≠ default [] hashInPubdata)
            then Err "hash of pvt data for collection does not match with the corresponding hash in the public data"
            else Ok ())
          () (npp_CollectionPvtRwset nsPvtdata))
        () (tpp_NsPvtRwset ws)
  end.

Definition addPvtRWSetToPvtUpdateBatch (pvtRWSet : TxPvtRwSet) (pvtUpdateBatch : UpdateMap) (ver : Height) : res UpdateMap :=
  foldM (λ batch ns,
    foldM (λ batch coll,
        kv ← deref (cp_KvRwSet coll);
        foldM (λ batch kvwrite,
            if negb (IsKVWriteDelete kvwrite)
            then UpdateMap_Put batch (np_NameSpace ns) (cp_CollectionName coll) (kvw_Key kvwrite) (kvw_Value kvwrite) (Some ver)
            else Ok (UpdateMap_Delete batch (np_NameSpace ns) (cp_CollectionName coll) (kvw_Key kvwrite) (Some ver)))
          batch (Writes kv))
      batch (CollPvtRwSets ns))
    pvtUpdateBatch (NsPvtRwSets pvtRWSet).

Definition addEntriesToMetadataUpdates (mdUpdates : metadataUpdates) (pvtRWSet : TxPvtRwSet) : res metadataUpdates :=
  foldM (λ m ns,
    foldM (λ m coll,
        kv ← deref (cp_KvRwSet coll);
        Ok (foldl (λ (m : gset collKey) metadataWrite,
              {[ {| clk_ns := np_NameSpace ns; clk_coll := cp_CollectionName coll; clk_key := mw_Key metadataWrite |} ]} ∪ m)
            m (MetadataWrites kv)))
      m (CollPvtRwSets ns))
    mdUpdates (NsPvtRwSets pvtRWSet).

Section pvt.
Context `{!Sha256} `{!ProtoMessage KVRWSet}.
Context {DB I L : Type} `{!VersionedDB DB I}.
Notation PrivDB := (PrivDB DB L).

Definition retrieveLatestVal (ns coll key : bytes) (pvtUpdateBatch : UpdateMap) (db : PrivDB) : res (option VersionedValue) :=
  match UpdateMap_Get pvtUpdateBatch ns coll key with
  | Some val => Ok (Some val)
  | None => GetPrivateData db ns coll key
  end.

Definition incrementVersion (pubAndHashUpdates : publicAndHashUpdates) (db : PrivDB) (pvtUpdateBatch : UpdateMap) (k : collKey) : res UpdateMap :=
  let '(ns, coll, key) := (clk_ns k, clk_coll k, clk_key k) in
  let keyHash := ComputeStringHash key in
  match UpdateMap_Get (hashUpdates pubAndHashUpdates) ns coll keyHash with
  | None => Ok pvtUpdateBatch
  | Some hashedVal =>
      latestVal ← retrieveLatestVal ns coll key pvtUpdateBatch db;
      match latestVal with
      | None => Ok pvtUpdateBatch
      | Some latestVal =>
          if AreSame (vv_Version latestVal) (vv_Version hashedVal) then Ok pvtUpdateBatch
          else
            let latestValHash := ComputeHash (default [] (Value latestVal)) in
            if decide (latestValHash = default [] (Value hashedVal))
            then UpdateMap_Put pvtUpdateBatch ns coll key (Value latestVal) (vv_Version hashedVal)
            else Ok pvtUpdateBatch
      end
  end.
Definition incrementPvtdataVersionIfNeeded (mdUpdates : metadataUpdates) (pvtUpdateBatch : UpdateMap)
    (pubAndHashUpdates : publicAndHashUpdates) (db : PrivDB) : res UpdateMap :=
  foldM (incrementVersion pubAndHashUpdates db) pvtUpdateBatch (elements mdUpdates).

(** The part of the loop body common to ordinary and lite transactions; a nil
    write set is dereferenced by the conversion. *)
Definition collectPvt (num : Z) (txIndex : nat) (hash : bytes → bytes → option bytes) (pvtdata : gmap Z TxPvtData)
    (acc : UpdateMap * metadataUpdates) : res (UpdateMap * metadataUpdates) :=
  let '(pvtUpdates, mdUpdates) := acc in
  match pvtdata !! Z.of_nat txIndex with
  | None => Ok acc
  | Some txPvtdata =>
      _ ← (if requiresPvtdataValidation txPvtdata then validatePvtdata hash txPvtdata else Ok ());
      ws ← deref (pd_WriteSet txPvtdata);
      pvtRWSet ← TxPvtRwSetFromProtoMsg ws;
      pvtUpdates ← addPvtRWSetToPvtUpdateBatch pvtRWSet pvtUpdates (NewHeight num (Z.of_nat txIndex));
      mdUpdates ← addEntriesToMetadataUpdates mdUpdates pvtRWSet;
      Ok (pvtUpdates, mdUpdates)
  end.

Definition validateAndPreparePvtBatch (blk : block) (db : PrivDB) (pubAndHashUpdates : publicAndHashUpdates)
    (pvtdata : gmap Z TxPvtData) : res UpdateMap :=
  '(pvtUpdates, mdUpdates) ← foldM (λ acc tx,
      if decide (validationCode tx ≠ TxValidationCode_VALID) then Ok acc
      else if negb (transaction_containsPvtWrites tx) then Ok acc
      else collectPvt (blk_num blk) (indexInBlock tx) (transaction_retrieveHash tx) pvtdata acc)
    (NewUpdateMap, ∅) (blk_txs blk);
  incrementPvtdataVersionIfNeeded mdUpdates pvtUpdates pubAndHashUpdates db.

Definition validateAndPrepareLtxPvtBatch (blk : ltxBlock) (db : PrivDB) (pubAndHashUpdates : publicAndHashUpdates)
    (pvtdata : gmap Z TxPvtData) : res UpdateMap :=
  '(pvtUpdates, mdUpdates) ← foldM (λ acc tx,
      tx ← deref tx;
      if decide (l_validationCode tx ≠ TxValidationCode_VALID) then Ok acc
      else if negb (ltxTransaction_containsPvtWrites tx) then Ok acc
      else collectPvt (lb_num blk) (l_indexInBlock tx) (ltxTransaction_retrieveHash tx) pvtdata acc)
    (NewUpdateMap, ∅) (lb_txs blk);
  incrementPvtdataVersionIfNeeded mdUpdates pvtUpdates pubAndHashUpdates db.
End pvt.

(** ** The sparse filter of a block *)

Definition emptySparseFilter : SparseTxnFilterProto := {| FatBlockNumber := 0; TxnInfoList := [] |}.

(** The error is kept beside the filter that is returned with it. *)
Definition extractSparseFilter `{!ProtoMessage MetadataMsg, !ProtoMessage SparseTxnFilterProto} (blk : Block) :
    res (SparseTxnFilterProto * bool) :=
  header ← deref (b_Header blk);
  if decide (bh_Number header = 0%Z) then Ok (emptySparseFilter, true)
  else
    metadata ← deref (b_Metadata blk);
    if decide (length metadata <= BlockMetadataIndex_SPARSE_TXN_FILTER) then Ok (emptySparseFilter, false)
    else
      sparseTxnFilterProto ← index metadata BlockMetadataIndex_SPARSE_TXN_FILTER;
      match (m ← Unmarshal (A := MetadataMsg) sparseTxnFilterProto; Unmarshal (A := SparseTxnFilterProto) (md_Value m)) with
      | Ok sparseTxnFilter =>
          if decide (length (TxnInfoList sparseTxnFilter) = 0) then Ok (emptySparseFilter, false) else Ok (sparseTxnFilter, true)
      | Err _ => Ok (emptySparseFilter, false)
      | Panic => Panic
      end.

(** ** Parsing the block *)

(** What the processing of a transaction that is not an endorser transaction
    comes to; the error types are told apart by the caller. *)
Inductive outcome (A : Type) :=
| Done (a : A)
| InvalidTxError
| OtherError (msg : String.string).
Arguments Done {A} a.
Arguments InvalidTxError {A}.
Arguments OtherError {A} msg%_string_scope.

Section preprocess.
Context `{!Sha256} `{!ProtoMessage KVRWSet, !ProtoMessage HashedRWSet, !ProtoMessage TxReadWriteSet}.
Context `{!ProtoMessage MetadataMsg, !ProtoMessage SparseTxnFilterProto}.
Context `{!ProtoMessage Envelope, !ProtoMessage Payload, !ProtoMessage ChannelHeader, !ProtoMessage Transaction}.
Context `{!ProtoMessage ChaincodeActionPayload, !ProtoMessage ProposalResponsePayload, !ProtoMessage ChaincodeAction}.

(** The simulator and the custom processors are parameters. *)
Context {Sim Processor : Type} (NewTxSimulator : bytes → outcome Sim)
  (GenerateSimulationResults : Processor → Envelope → Sim → bool → outcome Sim)
  (GetTxSimulationResults : Sim → outcome (option TxReadWriteSet)).

Definition processNonEndorserTx (txEnv : Envelope) (txid : bytes) (txType : Z) (synchingState : bool)
    (customTxProcessors : gmap Z Processor) : outcome (option TxReadWriteSet) :=
  match customTxProcessors !! txType with
  | None => Done None
  | Some processor =>
      match NewTxSimulator txid with
      | Done sim =>
          match GenerateSimulationResults processor txEnv sim synchingState with
          | Done sim => GetTxSimulationResults sim
          | InvalidTxError => InvalidTxError
          | OtherError e => OtherError e
          end
      | InvalidTxError => InvalidTxError
      | OtherError e => OtherError e
      end
  end.

Definition validateWriteset (txRWSet : TxRwSet) (validateKVFunc : bytes → option bytes → res unit) : res unit :=
  foldM (λ _ nsRwSet,
    match KvRwSet nsRwSet with
    | None => Ok ()
    | Some pubWriteset => foldM (λ _ kvwrite, validateKVFunc (kvw_Key kvwrite) (kvw_Value kvwrite)) () (Writes pubWriteset)
    end) () (NsRwSets txRWSet).

(** The channel header of an envelope, and the transaction id for the
    statistics when it cannot be parsed ([chdr.GetTxId()] of nil). *)
Definition parse_envelope (envBytes : bytes) : res (Envelope * ChannelHeader) :=
  env ← GetEnvelopeFromBlock envBytes;
  payload ← UnmarshalPayload (env_Payload env);
  hdr ← deref (pl_Header payload);
  chdr ← UnmarshalChannelHeader (hdr_ChannelHeader hdr);
  Ok (env, chdr).

(** The read-write set of one transaction: [None] if it has none, or the flag
    that marks the transaction as invalid. *)
Inductive txParse :=
| Rejected (code : TxValidationCode)
| Parsed (rwset : option TxRwSet) (containsPostOrderWrites : bool).
Definition parse_rwset (env : Envelope) (chdr : ChannelHeader) (envBytes : bytes) (doMVCCValidation : bool)
    (customTxProcessors : gmap Z Processor) (info : TxStatInfo) : res (txParse * TxStatInfo) :=
  if decide (chdr_Type chdr = HeaderType_ENDORSER_TRANSACTION) then
    match GetActionFromEnvelope envBytes with
    | Panic => Panic
    | Err _ => Ok (Rejected TxValidationCode_NIL_TXACTION, info)
    | Ok respPayload =>
        let info := {| TxIDFromChannelHeader := TxIDFromChannelHeader info; si_ValidationCode := si_ValidationCode info;
                       si_TxType := si_TxType info; si_ChaincodeID := ca_ChaincodeId respPayload;
                       ChaincodeEventData := ca_Events respPayload; si_NumCollections := si_NumCollections info |} in
        match TxRwSet_FromProtoBytes (ca_Results respPayload) with
        | Panic => Panic
        | Err _ => Ok (Rejected TxValidationCode_INVALID_OTHER_REASON, info)
        | Ok txRWSet => Ok (Parsed (Some txRWSet) false, info)
        end
    end
  else
    match processNonEndorserTx env (chdr_TxId chdr) (chdr_Type chdr) (negb doMVCCValidation) customTxProcessors with
    | InvalidTxError => Ok (Rejected TxValidationCode_INVALID_OTHER_REASON, info)
    | OtherError e => Err e
    | Done None => Ok (Parsed None true, info)
    | Done (Some rwsetProto) => txRWSet ← TxRwSetFromProtoMsg rwsetProto; Ok (Parsed (Some txRWSet) true, info)
    end.

Definition preprocess_one (validateKVFunc : bytes → option bytes → res unit) (doMVCCValidation : bool)
    (customTxProcessors : gmap Z Processor)
    (acc : list transaction * list TxStatInfo * bytes) (p : nat * bytes) :
    res (list transaction * list TxStatInfo * bytes) :=
  let '(txs, txsStatInfo, txsFilter) := acc in
  let '(txIndex, envBytes) := p in
  '(env, chdr) ← parse_envelope envBytes;
  let info := {| TxIDFromChannelHeader := chdr_TxId chdr; si_ValidationCode := 0; si_TxType := chdr_Type chdr;
                 si_ChaincodeID := None; ChaincodeEventData := []; si_NumCollections := 0 |} in
  '(parsed, info) ← parse_rwset env chdr envBytes doMVCCValidation customTxProcessors info;
  match parsed with
  | Rejected code => txsFilter ← ValidationFlags_SetFlag txsFilter txIndex code; Ok (txs, txsStatInfo ++ [info], txsFilter)
  | Parsed None _ => Ok (txs, txsStatInfo ++ [info], txsFilter)
  | Parsed (Some txRWSet) containsPostOrderWrites =>
      let info := {| TxIDFromChannelHeader := TxIDFromChannelHeader info; si_ValidationCode := si_ValidationCode info;
                     si_TxType := si_TxType info; si_ChaincodeID := si_ChaincodeID info;
                     ChaincodeEventData := ChaincodeEventData info; si_NumCollections := NumCollections (Some txRWSet) |} in
      match validateWriteset txRWSet validateKVFunc with
      | Panic => Panic
      | Err _ =>
          txsFilter ← ValidationFlags_SetFlag txsFilter txIndex TxValidationCode_INVALID_WRITESET;
          Ok (txs, txsStatInfo ++ [info], txsFilter)
      | Ok _ =>
          code ← ValidationFlags_Flag txsFilter txIndex;
          Ok (txs ++ [{| indexInBlock := txIndex; tx_id := chdr_TxId chdr; tx_rwset := txRWSet; validationCode := code;
                         containsPostOrderWrites := containsPostOrderWrites |}], txsStatInfo ++ [info], txsFilter)
      end
  end.

Definition preprocessProtoBlock (validateKVFunc : bytes → option bytes → res unit) (blk : Block) (doMVCCValidation : bool)
    (customTxProcessors : gmap Z Processor) : res (block * list TxStatInfo * bytes) :=
  '(sparseFilter, sparseFilterExist) ← extractSparseFilter blk;
  metadata ← deref (b_Metadata blk);
  txsFilter ← index metadata BlockMetadataIndex_TRANSACTIONS_FILTER;
  data ← deref (b_Data blk);
  '(txs, txsStatInfo, txsFilter) ← foldM (preprocess_one validateKVFunc doMVCCValidation customTxProcessors)
    ([], [], txsFilter) (imap (λ i d, (i, d)) data);
  header ← deref (b_Header blk);
  Ok ({| blk_num := bh_Number header; blk_txs := txs; sparseblockchainFilter := sparseFilter;
         sparseFilterExists := sparseFilterExist |}, txsStatInfo, txsFilter).

(** The verdicts are written over the flags. *)
Definition postprocessProtoBlock (txsFilter : bytes) (txs : list transaction) : res bytes :=
  foldM (λ txsFilter tx, ValidationFlags_SetFlag txsFilter (indexInBlock tx) (validationCode tx)) txsFilter txs.

(** The flags are copied into the statistics. *)
Definition set_stat_codes (txsStatInfo : list TxStatInfo) (txsFilter : bytes) : res (list TxStatInfo) :=
  foldM (λ infos '(i, b),
      info ← index infos i;
      Ok (<[i := {| TxIDFromChannelHeader := TxIDFromChannelHeader info; si_ValidationCode := byteZ b;
                    si_TxType := si_TxType info; si_ChaincodeID := si_ChaincodeID info;
                    ChaincodeEventData := ChaincodeEventData info; si_NumCollections := si_NumCollections info |}]> infos))
    txsStatInfo (imap (λ i b, (i, b)) txsFilter).

Context `{!ProtoMessage KVMetadataWrite, !ProtoMessage QueryReads}.
Context {DB I L : Type} `{!VersionedDB DB I}.

(** The batch, the purges, the statistics, the flags of the block and the
    database with its cache. *)
Definition ValidateAndPrepareBatch (fuel : nat) (hashFunc : HashFunc) (db : PrivDB DB L) (blk : Block) (pvtData : gmap Z TxPvtData)
    (doMVCCValidation : bool) (customTxProcessors : gmap Z Processor) :
    res (PrivUpdateBatch * list AppInitiatedPurgeUpdate * list TxStatInfo * bytes * PrivDB DB L) :=
  '(internalBlock, txsStatInfo, txsFilter) ←
    preprocessProtoBlock (ValidateKeyValue (pdb_vdb db)) blk doMVCCValidation customTxProcessors;
  '(txs, pubAndHashUpdates, purgeUpdates, db) ← validateAndPrepareBatch fuel hashFunc db internalBlock doMVCCValidation;
  let internalBlock := {| blk_num := blk_num internalBlock; blk_txs := txs;
                          sparseblockchainFilter := sparseblockchainFilter internalBlock;
                          sparseFilterExists := sparseFilterExists internalBlock |} in
  pvtUpdates ← validateAndPreparePvtBatch internalBlock db pubAndHashUpdates pvtData;
  txsFilter ← postprocessProtoBlock txsFilter txs;
  txsStatInfo ← set_stat_codes txsStatInfo txsFilter;
  Ok ({| PubUpdates := publicUpdates pubAndHashUpdates; HashUpdates := hashUpdates pubAndHashUpdates; PvtUpdates := pvtUpdates |},
      purgeUpdates, txsStatInfo, txsFilter, db).
End preprocess.

(** ** The lite variant *)

Record LtxStatInfo := {
  lsi_TxIDFromChannelHeader : bytes;
  lsi_ValidationCode : TxValidationCode;
  lsi_TxType : Z;
  lsi_ChaincodeID : option ChaincodeID;
  lsi_ChaincodeEventData : bytes;
  lsi_NumCollections : nat
}.

Section lite.
Context `{!Sha256} `{!ProtoMessage KVRWSet, !ProtoMessage HashedRWSet, !ProtoMessage TxReadWriteSet}.
Context `{!ProtoMessage MetadataMsg, !ProtoMessage SparseTxnFilterProto, !ProtoMessage Envelope}.
Context `{!ProtoMessage Payload, !ProtoPartial Payload, !ProtoMessage ChannelHeader, !ProtoMessage SignatureHeader}.
Context `{!ProtoMessage SerializedIdentity, !ProtoPartial SerializedIdentity, !ProtoMessage ChaincodeEvent, !ProtoPartial ChaincodeEvent}.
Context `{!ProtoMessage Transaction, !ProtoMessage ChaincodeActionPayload}.
Context `{!ProtoMessage ProposalResponsePayload, !ProtoMessage ChaincodeAction}.

(** The fields of the lean envelope are read before the error of the conversion
    is looked at, through a pointer that is nil in that case. *)
Definition lean_envelope (envBytes : bytes) : res (Envelope * LeanEnvelope) :=
  env ← GetEnvelopeFromBlock envBytes;
  match env_LeanEnv env with
  | Some leanenv => Ok (env, leanenv)
  | None =>
      match GetLeanEnvFromCommonEnv env with
      | Ok leanenv => Ok (env, leanenv)
      | _ => Panic
      end
  end.

Definition preprocess_one_ltx (txsFilter : bytes) (acc : list (option ltxTransaction) * list LtxStatInfo) (p : nat * bytes) :
    res (list (option ltxTransaction) * list LtxStatInfo) :=
  let '(txs, txsStatInfo) := acc in
  let '(txIndex, envBytes) := p in
  '(env, leanenv) ← lean_envelope envBytes;
  meta ← deref (le_Meta leanenv);
  code ← ValidationFlags_Flag txsFilter txIndex;
  let info := {| lsi_TxIDFromChannelHeader := le_TxId leanenv; lsi_ValidationCode := 0; lsi_TxType := env_Type env;
                 lsi_ChaincodeID := em_ChaincodeID meta; lsi_ChaincodeEventData := [];
                 lsi_NumCollections := match le_Results leanenv with Some r => length (lt_NsRwset r) | None => 0 end |} in
  let tx := (λ txRWSet, {| l_indexInBlock := txIndex; l_id := le_TxId leanenv; l_rwset := txRWSet; l_validationCode := code;
                           l_containsPostOrderWrites := false; l_channelId := le_ChannelId leanenv |}) <$> le_Results leanenv in
  Ok (txs ++ [tx], txsStatInfo ++ [info]).
Definition preprocessLtxProtoBlock (blk : Block) : res (ltxBlock * list LtxStatInfo) :=
  '(sparseFilter, sparseFilterExist) ← extractSparseFilter blk;
  data ← deref (b_Data blk);
  metadata ← deref (b_Metadata blk);
  txsFilter ← index metadata BlockMetadataIndex_TRANSACTIONS_FILTER;
  '(txs, txsStatInfo) ← foldM (preprocess_one_ltx txsFilter) ([], []) (imap (λ i d, (i, d)) data);
  header ← deref (b_Header blk);
  Ok ({| lb_num := bh_Number header; lb_txs := txs; lb_sparseblockchainFilter := sparseFilter;
         lb_sparseFilterExists := sparseFilterExist |}, txsStatInfo).

Definition postprocessLtxProtoBlock (txsFilter : bytes) (txs : list (option ltxTransaction)) : res bytes :=
  foldM (λ txsFilter tx, tx ← deref tx; ValidationFlags_SetFlag txsFilter (l_indexInBlock tx) (l_validationCode tx)) txsFilter txs.
Definition set_ltx_stat_codes (txsStatInfo : list LtxStatInfo) (txsFilter : bytes) : res (list LtxStatInfo) :=
  foldM (λ infos '(i, b),
      info ← index infos i;
      Ok (<[i := {| lsi_TxIDFromChannelHeader := lsi_TxIDFromChannelHeader info; lsi_ValidationCode := byteZ b;
                    lsi_TxType := lsi_TxType info; lsi_ChaincodeID := lsi_ChaincodeID info;
                    lsi_ChaincodeEventData := lsi_ChaincodeEventData info; lsi_NumCollections := lsi_NumCollections info |}]> infos))
    txsStatInfo (imap (λ i b, (i, b)) txsFilter).

Context `{!ProtoMessage KVMetadataWrite, !ProtoMessage QueryReads, !ProtoMessage RangeQueryInfo}.
Context {DB I L : Type} `{!VersionedDB DB I}.

Definition ValidateAndPrepareBatchLtx (fuel : nat) (hashFunc : HashFunc) (partial : bytes → RangeQueryInfo) (db : PrivDB DB L)
    (blk : Block) (pvtData : gmap Z TxPvtData) (doMVCCValidation : bool) :
    res (PrivUpdateBatch * list AppInitiatedPurgeUpdate * list LtxStatInfo * bytes * PrivDB DB L) :=
  '(internalBlock, txsStatInfo) ← preprocessLtxProtoBlock blk;
  '(txs, pubAndHashUpdates, purgeUpdates, db) ← validateAndPrepareLtxBatch fuel hashFunc partial db internalBlock doMVCCValidation;
  let internalBlock := {| lb_num := lb_num internalBlock; lb_txs := txs;
                          lb_sparseblockchainFilter := lb_sparseblockchainFilter internalBlock;
                          lb_sparseFilterExists := lb_sparseFilterExists internalBlock |} in
  pvtUpdates ← validateAndPrepareLtxPvtBatch internalBlock db pubAndHashUpdates pvtData;
  metadata ← deref (b_Metadata blk);
  txsFilter ← index metadata BlockMetadataIndex_TRANSACTIONS_FILTER;
  txsFilter ← postprocessLtxProtoBlock txsFilter txs;
  txsStatInfo ← set_ltx_stat_codes txsStatInfo txsFilter;
  Ok ({| PubUpdates := publicUpdates pubAndHashUpdates; HashUpdates := hashUpdates pubAndHashUpdates; PvtUpdates := pvtUpdates |},
      purgeUpdates, txsStatInfo, txsFilter, db).
End lite.

(** ** Where private data comes from *)

(** The binding a private write makes. *)
Definition pvt_binding (w : KVWrite) (ver : Height) : VersionedValue :=
  {| Value := if IsKVWriteDelete w then None else kvw_Value w; Metadata := None; vv_Version := Some ver |}.

(** A collection of a private read-write set. *)
Definition pvt_coll (r : TxPvtRwSet) (ns coll : bytes) (kv : KVRWSet) : Prop :=
  ∃ n c, n ∈ NsPvtRwSets r ∧ np_NameSpace n = ns ∧ c ∈ CollPvtRwSets n ∧ cp_CollectionName c = coll ∧ cp_KvRwSet c = Some kv.

Lemma addPvtRWSet_get r b ver b' :
  addPvtRWSetToPvtUpdateBatch r b ver = Ok b' → ∀ ns coll key vv,
  UpdateMap_Get b' ns coll key = Some vv →
  UpdateMap_Get b ns coll key = Some vv ∨ ∃ kv w, pvt_coll r ns coll kv ∧ w ∈ Writes kv ∧ kvw_Key w = key ∧ vv = pvt_binding w ver.
Proof.
  set (P := λ b1 : UpdateMap, ∀ ns coll key vv, UpdateMap_Get b1 ns coll key = Some vv → UpdateMap_Get b ns coll key = Some vv ∨
    ∃ kv w, pvt_coll r ns coll kv ∧ w ∈ Writes kv ∧ kvw_Key w = key ∧ vv = pvt_binding w ver).
  change (addPvtRWSetToPvtUpdateBatch r b ver = Ok b' → P b'). apply (foldM_invariant P); [by left|].
  intros b1 n b2 HP Hn. apply (foldM_invariant P); [done|]. clear b1 HP b2. intros b1 c b2 HP Hc H.
  apply bind_Ok in H as (kv & Hkv%deref_Ok & H). revert H. apply (foldM_invariant P); [done|]. clear b1 HP b2.
  intros b1 w b2 HP Hw H ns coll key vv Hg.
  assert (Hb2 : UpdateMap_Get b2 ns coll key = if decide (ns = np_NameSpace n ∧ coll = cp_CollectionName c ∧ key = kvw_Key w)
    then Some (pvt_binding w ver) else UpdateMap_Get b1 ns coll key).
  { unfold pvt_binding. destruct (IsKVWriteDelete w); simpl in H.
    - injection H as <-. apply Get_UpdateMap_Delete.
    - by apply (Get_UpdateMap_Put _ _ _ _ _ _ _ _ H). }
  rewrite Hb2 in Hg. case_decide as Hd; [|by apply HP]. destruct Hd as (-> & -> & ->). injection Hg as <-.
  right. exists kv, w. split_and!; [|done..]. exists n, c. by split_and!.
Qed.

Section pvt_correct.
Context `{!Sha256} `{!ProtoMessage KVRWSet}.
Context {DB I L : Type} `{!VersionedDB DB I}.

Lemma TxPvtRwSetFromProtoMsg_coll ws r ns coll kv :
  TxPvtRwSetFromProtoMsg ws = Ok r → pvt_coll r ns coll kv →
  ∃ nsp cp, nsp ∈ tpp_NsPvtRwset ws ∧ npp_Namespace nsp = ns ∧ cp ∈ npp_CollectionPvtRwset nsp ∧
    cpp_CollectionName cp = coll ∧ Unmarshal (cpp_Rwset cp) = Ok kv.
Proof.
  unfold TxPvtRwSetFromProtoMsg. intros Hok (n & c & Hn & Hns & Hc & Hcoll & Hkv). inv_ok. simpl in Hn.
  apply mapM_Ok in Ha. apply list_elem_of_lookup_1 in Hn as [i Hi].
  destruct (Forall2_lookup_r _ _ _ _ _ Ha Hi) as (nsp & Hnsp & Hn). unfold nsPvtRwSetFromProtoMsg in Hn. inv_ok. simpl in *.
  rename select (mapM _ _ = _) into Hm. apply mapM_Ok in Hm. apply list_elem_of_lookup_1 in Hc as [j Hj].
  destruct (Forall2_lookup_r _ _ _ _ _ Hm Hj) as (cp & Hcp & Hc). unfold CollPvtRwSetFromProtoMsg in Hc. inv_ok. simpl in *. simplify_eq.
  eapply list_elem_of_lookup_2 in Hnsp. eapply list_elem_of_lookup_2 in Hcp. eauto 10.
Qed.

(** Every collection of the private data has the hash recorded in the block. *)
Definition hashes_match (hash : bytes → bytes → option bytes) (ws : TxPvtReadWriteSet) : Prop :=
  ∀ nsp cp, nsp ∈ tpp_NsPvtRwset ws → cp ∈ npp_CollectionPvtRwset nsp →
    ComputeHash (cpp_Rwset cp) = default [] (hash (npp_Namespace nsp) (cpp_CollectionName cp)).
Lemma validatePvtdata_ok hash d ws : validatePvtdata hash d = Ok () → pd_WriteSet d = Some ws → hashes_match hash ws.
Proof.
  unfold validatePvtdata. intros Hok Hws nsp cp Hn Hc. rewrite Hws in Hok.
  destruct (foldM_elem _ nsp _ _ _ Hok Hn) as ([] & [] & H'). destruct (foldM_elem _ cp _ _ _ H' Hc) as ([] & [] & H'').
  cbn -[decide] in H''. destruct (decide _) as [|Hd]; [done|]. by apply dec_stable in Hd.
Qed.

(** The private data of transaction [tx] has the write [w]. *)
Definition pvt_source (num : Z) (txs : list transaction) (pvtdata : gmap Z TxPvtData) (ns coll key : bytes) (vv : VersionedValue) : Prop :=
  ∃ tx d ws nsp cp kv w,
    tx ∈ txs ∧ validationCode tx = TxValidationCode_VALID ∧ pvtdata !! Z.of_nat (indexInBlock tx) = Some d ∧ pd_WriteSet d = Some ws ∧
    nsp ∈ tpp_NsPvtRwset ws ∧ npp_Namespace nsp = ns ∧ cp ∈ npp_CollectionPvtRwset nsp ∧ cpp_CollectionName cp = coll ∧
    ComputeHash (cpp_Rwset cp) = default [] (transaction_retrieveHash tx ns coll) ∧
    Unmarshal (cpp_Rwset cp) = Ok kv ∧ w ∈ Writes kv ∧ kvw_Key w = key ∧
    vv = pvt_binding w (NewHeight num (Z.of_nat (indexInBlock tx))).

(** A private binding stems from a write, or is a value of known origin whose
    version was raised to that of the hashed key, the hash of the value being
    the hashed value. *)
Inductive pvt_origin (num : Z) (txs : list transaction) (pvtdata : gmap Z TxPvtData) (u : publicAndHashUpdates) (db : PrivDB DB L)
    (ns coll key : bytes) : VersionedValue → Prop :=
| origin_write vv : pvt_source num txs pvtdata ns coll key vv → pvt_origin num txs pvtdata u db ns coll key vv
| origin_renewed old hv :
    pvt_origin num txs pvtdata u db ns coll key old ∨ GetPrivateData db ns coll key = Ok (Some old) →
    UpdateMap_Get (hashUpdates u) ns coll (ComputeStringHash key) = Some hv →
    ComputeHash (default [] (Value old)) = default [] (Value hv) →
    pvt_origin num txs pvtdata u db ns coll key {| Value := Value old; Metadata := None; vv_Version := vv_Version hv |}.

Lemma incrementVersion_origin num txs pvtdata u (db : PrivDB DB L) b k b' :
  (∀ ns coll key vv, UpdateMap_Get b ns coll key = Some vv → pvt_origin num txs pvtdata u db ns coll key vv) →
  incrementVersion u db b k = Ok b' →
  ∀ ns coll key vv, UpdateMap_Get b' ns coll key = Some vv → pvt_origin num txs pvtdata u db ns coll key vv.
Proof.
  intros Hb Hok. unfold incrementVersion in Hok.
  destruct (UpdateMap_Get (hashUpdates u) _ _ _) as [hv|] eqn:Hhv; [|by injection Hok as <-].
  apply bind_Ok in Hok as (latest & Hl & Hok). destruct latest as [old|]; [|by injection Hok as <-].
  destruct (AreSame _ _); [by injection Hok as <-|]. destruct (decide _) as [Hhash|]; [|by injection Hok as <-].
  intros ns coll key vv Hg. rewrite (Get_UpdateMap_Put _ _ _ _ _ _ _ _ Hok) in Hg.
  case_decide as Hd; [|by apply Hb]. destruct Hd as (-> & -> & ->). injection Hg as <-.
  apply origin_renewed with (old := old) (hv := hv); [|done..].
  unfold retrieveLatestVal in Hl. destruct (UpdateMap_Get b _ _ _) eqn:Hbg; [|by right]. injection Hl as ->. left. by apply Hb.
Qed.

Lemma collectPvt_ok num i hash pvtdata acc acc' d :
  collectPvt num i hash pvtdata acc = Ok acc' → pvtdata !! Z.of_nat i = Some d →
  ∃ ws r, pd_WriteSet d = Some ws ∧ hashes_match hash ws ∧ TxPvtRwSetFromProtoMsg ws = Ok r ∧
    addPvtRWSetToPvtUpdateBatch r acc.1 (NewHeight num (Z.of_nat i)) = Ok acc'.1 ∧ addEntriesToMetadataUpdates acc.2 r = Ok acc'.2.
Proof.
  destruct acc as [b m]. unfold collectPvt. intros Hok Hd. rewrite Hd in Hok. unfold requiresPvtdataValidation in Hok.
  apply bind_Ok in Hok as ([] & Hv & Hok). apply bind_Ok in Hok as (ws & Hws%deref_Ok & Hok).
  apply bind_Ok in Hok as (r & Hr & Hok). apply bind_Ok in Hok as (b' & Hb & Hok). apply bind_Ok in Hok as (m' & Hm & [= <-]).
  exists ws, r. split_and!; [done| |done..]. by eapply validatePvtdata_ok.
Qed.

(** One step of the loop over the transactions. *)
Definition pvt_step (blk : block) (pvtdata : gmap Z TxPvtData) (acc : UpdateMap * metadataUpdates) (tx : transaction) :
    res (UpdateMap * metadataUpdates) :=
  if decide (validationCode tx ≠ TxValidationCode_VALID) then Ok acc
  else if negb (transaction_containsPvtWrites tx) then Ok acc
  else collectPvt (blk_num blk) (indexInBlock tx) (transaction_retrieveHash tx) pvtdata acc.

Lemma pvt_step_cases blk pvtdata acc tx acc' :
  pvt_step blk pvtdata acc tx = Ok acc' →
  acc' = acc ∨ validationCode tx = TxValidationCode_VALID ∧ ∃ d, pvtdata !! Z.of_nat (indexInBlock tx) = Some d ∧
    collectPvt (blk_num blk) (indexInBlock tx) (transaction_retrieveHash tx) pvtdata acc = Ok acc'.
Proof.
  unfold pvt_step. destruct (decide _) as [|Hv]; [by intros [= <-]; left|]. apply dec_stable in Hv.
  destruct (negb _); [by intros [= <-]; left|]. intros Hok. destruct (pvtdata !! _) as [d|] eqn:Hd; [eauto|].
  left. unfold collectPvt in Hok. rewrite Hd in Hok. destruct acc. by injection Hok.
Qed.

Lemma collect_origin blk pvtdata acc :
  foldM (pvt_step blk pvtdata) (NewUpdateMap, ∅) (blk_txs blk) = Ok acc →
  ∀ ns coll key vv, UpdateMap_Get acc.1 ns coll key = Some vv → pvt_source (blk_num blk) (blk_txs blk) pvtdata ns coll key vv.
Proof.
  apply (foldM_invariant (λ acc : UpdateMap * metadataUpdates, ∀ ns coll key vv, UpdateMap_Get acc.1 ns coll key = Some vv →
    pvt_source (blk_num blk) (blk_txs blk) pvtdata ns coll key vv)); [done|].
  intros acc1 tx acc2 HP Htx [->|(Hv & d & Hd & Hc)]%pvt_step_cases ns coll key vv Hg; [by apply HP|].
  destruct (collectPvt_ok _ _ _ _ _ _ _ Hc Hd) as (ws & r & Hws & Hm & Hr & Hb & _).
  destruct (addPvtRWSet_get _ _ _ _ Hb _ _ _ _ Hg) as [Hold|(kv & w & Hkv & Hw & Hk & ->)]; [by apply HP|].
  destruct (TxPvtRwSetFromProtoMsg_coll _ _ _ _ _ Hr Hkv) as (nsp & cp & Hn & Hns & Hcp & Hcoll & Hu).
  exists tx, d, ws, nsp, cp, kv, w. split_and!; try done. rewrite <-Hns, <-Hcoll. by apply Hm.
Qed.

(** C8: the private data that enters the state is what the block committed to.
    When the private batch of a block is prepared without an error, every
    collection of the private data of every valid transaction hashes to the hash
    in the public read-write set, and every private binding of the batch comes
    from a write in such a collection, at the height of its transaction, or is a
    value whose version was raised to that of the hashed key because its hash
    is the hashed value. *)
Theorem private_batch_authentic (blk : block) (db : PrivDB DB L) (u : publicAndHashUpdates) (pvtdata : gmap Z TxPvtData) (pvt : UpdateMap)
    (Hbatch : validateAndPreparePvtBatch blk db u pvtdata = Ok pvt) :
  (∀ tx d ws, tx ∈ blk_txs blk → validationCode tx = TxValidationCode_VALID → transaction_containsPvtWrites tx = true →
     pvtdata !! Z.of_nat (indexInBlock tx) = Some d → pd_WriteSet d = Some ws → hashes_match (transaction_retrieveHash tx) ws) ∧
  (∀ ns coll key vv, UpdateMap_Get pvt ns coll key = Some vv →
     pvt_origin (blk_num blk) (blk_txs blk) pvtdata u db ns coll key vv).
Proof.
  unfold validateAndPreparePvtBatch in Hbatch. fold (pvt_step blk pvtdata) in Hbatch.
  apply bind_Ok in Hbatch as ([b m] & Hfold & Hinc). split.
  - intros tx d ws Htx Hv Hpvt Hd Hws. destruct (foldM_elem _ tx _ _ _ Hfold Htx) as (acc1 & acc2 & Hstep).
    unfold pvt_step in Hstep. rewrite decide_False in Hstep by tauto. rewrite Hpvt in Hstep.
    destruct (collectPvt_ok _ _ _ _ _ _ _ Hstep Hd) as (ws' & _ & Hws' & Hm & _). by simplify_eq.
  - revert Hinc. apply (foldM_invariant (λ b : UpdateMap, ∀ ns coll key vv, UpdateMap_Get b ns coll key = Some vv →
      pvt_origin (blk_num blk) (blk_txs blk) pvtdata u db ns coll key vv)).
    + intros ns coll key vv Hg. apply origin_write. by eapply (collect_origin _ _ (b, m)).
    + intros b1 k b2 HP _ Hs. by eapply incrementVersion_origin.
Qed.

(** *** Versions of hashed and private keys *)

(** No private data of the block has metadata writes. *)
Definition no_pvt_metadata (pvtdata : gmap Z TxPvtData) : Prop :=
  ∀ i d ws nsp cp kv, pvtdata !! i = Some d → pd_WriteSet d = Some ws → nsp ∈ tpp_NsPvtRwset ws →
    cp ∈ npp_CollectionPvtRwset nsp → Unmarshal (cpp_Rwset cp) = Ok kv → MetadataWrites kv = [].

Lemma addEntries_none m r m' :
  (∀ ns coll kv, pvt_coll r ns coll kv → MetadataWrites kv = []) → addEntriesToMetadataUpdates m r = Ok m' → m' = m.
Proof.
  intros Hno. unfold addEntriesToMetadataUpdates. apply (foldM_invariant (λ m', m' = m)); [done|].
  intros m1 n m2 -> Hn. apply (foldM_invariant (λ m', m' = m)); [done|]. clear m2.
  intros m1 c m2 -> Hc Hok. apply bind_Ok in Hok as (kv & Hkv%deref_Ok & Hok).
  rewrite (Hno (np_NameSpace n) (cp_CollectionName c) kv) in Hok by (exists n, c; by split_and!). by injection Hok.
Qed.

Lemma collect_no_metadata blk pvtdata acc :
  no_pvt_metadata pvtdata → foldM (pvt_step blk pvtdata) (NewUpdateMap, ∅) (blk_txs blk) = Ok acc → acc.2 = ∅.
Proof.
  intros Hno. apply (foldM_invariant (λ acc : UpdateMap * metadataUpdates, acc.2 = ∅)); [done|].
  intros acc1 tx acc2 HP _ [->|(_ & d & Hd & Hc)]%pvt_step_cases; [done|].
  destruct (collectPvt_ok _ _ _ _ _ _ _ Hc Hd) as (ws & r & Hws & _ & Hr & _ & Hm). rewrite HP in Hm.
  eapply addEntries_none; [|exact Hm]. intros ns coll kv Hkv.
  destruct (TxPvtRwSetFromProtoMsg_coll _ _ _ _ _ Hr Hkv) as (nsp & cp & Hn & _ & Hcp & _ & Hu). by eapply Hno.
Qed.
End pvt_correct.

Section versions.
Context `{!ProtoMessage KVMetadataWrite} `{!ProtoMessage QueryReads} `{!Sha256} `{!ProtoMessage KVRWSet}.
Context {DB I L : Type} `{!VersionedDB DB I}.

Lemma applyKey_version h u p u' :
  applyKey (Some h) u p = Ok u' → ∀ ns coll k vv, UpdateMap_Get (hashUpdates u') ns coll k = Some vv →
  UpdateMap_Get (hashUpdates u) ns coll k = Some vv ∨ vv_Version vv = Some h.
Proof.
  destruct p as [ck k]. unfold applyKey. intros Hok ns coll key vv Hg.
  destruct (decide _), (keyOps_isDelete k); inv_ok; simpl in Hg; auto.
  - rewrite Get_UpdateMap_Delete in Hg. case_decide; [|auto]. injection Hg as <-. auto.
  - rename select (UpdateMap_PutValAndMetadata _ _ _ _ _ _ _ = _) into Hput.
    rewrite (Get_UpdateMap_Put _ _ _ _ _ _ _ _ Hput) in Hg. case_decide; [|auto]. injection Hg as <-. auto.
Qed.

Lemma applyWriteSet_version u t h (db : PrivDB DB L) post u' :
  applyWriteSet u t (Some h) db post = Ok u' → ∀ ns coll k vv, UpdateMap_Get (hashUpdates u') ns coll k = Some vv →
  UpdateMap_Get (hashUpdates u) ns coll k = Some vv ∨ vv_Version vv = Some h.
Proof.
  unfold applyWriteSet. intros Hok. apply bind_Ok in Hok as (txops & _ & Hok). revert Hok.
  apply (foldM_invariant (λ u1, ∀ ns coll k vv, UpdateMap_Get (hashUpdates u1) ns coll k = Some vv →
    UpdateMap_Get (hashUpdates u) ns coll k = Some vv ∨ vv_Version vv = Some h)); [auto|].
  intros u1 p u2 HP _ Hs ns coll k vv Hg. destruct (applyKey_version _ _ _ _ Hs _ _ _ _ Hg); auto.
Qed.

Lemma hashed_versions fuel hashFunc (db : PrivDB DB L) blk doMVCC txs u purges db' :
  validateAndPrepareBatch fuel hashFunc db blk doMVCC = Ok (txs, u, purges, db') →
  ∀ ns coll k vv, UpdateMap_Get (hashUpdates u) ns coll k = Some vv →
  ∃ tx h, committingTxHeight blk tx = Ok h ∧ vv_Version vv = Some h.
Proof.
  unfold validateAndPrepareBatch. intros Hok. apply bind_Ok in Hok as (db1 & _ & Hok).
  apply bind_Ok in Hok as ([[txs1 u1] p1] & Hfold & [= <- <- _ _]). revert Hfold.
  set (P := λ acc : list transaction * publicAndHashUpdates * pvtdataPurgeTracker, ∀ ns coll k vv,
    UpdateMap_Get (hashUpdates acc.1.2) ns coll k = Some vv → ∃ tx h, committingTxHeight blk tx = Ok h ∧ vv_Version vv = Some h).
  cut (foldM (validate_one fuel hashFunc db1 blk doMVCC) ([], newPubAndHashUpdates, newPvtdataPurgeTracker) (blk_txs blk) =
    Ok (txs1, u1, p1) → P (txs1, u1, p1)); [done|]. apply foldM_invariant; [done|].
  intros [[txs0 u0] p0] tx [[txs2 u2] p2] HP _ Hs ns coll k vv Hg. simpl in *. apply bind_Ok in Hs as (code & _ & Hs).
  destruct (decide _); [|injection Hs as <- <- <-; by apply (HP ns coll k)].
  apply bind_Ok in Hs as (h & Hh & Hs). apply bind_Ok in Hs as (u3 & Ha & [= <- <- <-]).
  destruct (applyWriteSet_version _ _ _ _ _ _ Ha _ _ _ _ Hg); [by apply (HP ns coll k)|eauto].
Qed.

Definition with_txs (blk : block) (txs : list transaction) : block :=
  {| blk_num := blk_num blk; blk_txs := txs; sparseblockchainFilter := sparseblockchainFilter blk; sparseFilterExists := sparseFilterExists blk |}.

(** C36: in a block with a sparse filter, private keys and their hashes are
    committed at different versions. The hashed keys are written at the block
    number of the full ("fat") block, the private keys at the number of the
    organisation's own block: when the two numbers differ, every private key of
    the batch differs in version from its hashed key, so a later read of it
    fails the version check of the query executor. *)
Theorem sparse_private_version_mismatch fuel hashFunc (db : PrivDB DB L) (blk : block) (doMVCC : bool) (pvtdata : gmap Z TxPvtData)
    txs u purges db' pvt ns coll key vv hv
    (Hsparse : sparseFilterExists blk = true) (Hnum : blk_num blk ≠ 0%Z) (Hfat : FatBlockNumber (sparseblockchainFilter blk) ≠ blk_num blk)
    (Hmd : no_pvt_metadata pvtdata)
    (Hpub : validateAndPrepareBatch fuel hashFunc db blk doMVCC = Ok (txs, u, purges, db'))
    (Hpvt : validateAndPreparePvtBatch (with_txs blk txs) db' u pvtdata = Ok pvt)
    (Hvv : UpdateMap_Get pvt ns coll key = Some vv)
    (Hhv : UpdateMap_Get (hashUpdates u) ns coll (ComputeStringHash key) = Some hv) :
  AreSame (vv_Version hv) (vv_Version vv) = false.
Proof.
  unfold validateAndPreparePvtBatch in Hpvt. fold (pvt_step (with_txs blk txs) pvtdata) in Hpvt.
  apply bind_Ok in Hpvt as ([b m] & Hfold & Hinc). pose proof (collect_no_metadata _ _ _ Hmd Hfold) as Hm. simpl in Hm. subst m.
  unfold incrementPvtdataVersionIfNeeded in Hinc. rewrite elements_empty in Hinc. injection Hinc as ->.
  destruct (collect_origin _ _ _ Hfold _ _ _ _ Hvv) as (tx & d & ws & nsp & cp & kv & w & Hsrc).
  destruct Hsrc as (_ & _ & _ & _ & _ & _ & _ & _ & _ & _ & _ & _ & ->). simpl.
  destruct (hashed_versions _ _ _ _ _ _ _ _ _ Hpub _ _ _ _ Hhv) as (tx' & h & Hh & ->).
  unfold committingTxHeight in Hh. rewrite Hsparse, bool_decide_eq_false_2 in Hh by done. simpl in Hh.
  apply bind_Ok in Hh as (i & _ & [= <-]). apply not_true_iff_false. rewrite AreSame_spec. intros Heq. apply Hfat. congruence.
Qed.
End versions.

(** *** Samples *)
#[local] Existing Instances sample_priv_codec sample_priv_laws sample_priv_sha sample_tx_codec sample_range_codec.
#[local] Instance sample_kv_codec : ProtoMessage KVRWSet := countable_proto KVRWSet.

Definition sample_pvt_kv : KVRWSet :=
  {| Reads := []; RangeQueriesInfo := []; Writes := [sample_write (B "k") (B "v")]; MetadataWrites := [] |}.
Definition sample_pvt_bytes : bytes := Eval vm_compute in match Marshal sample_pvt_kv with Ok b => b | _ => [] end.
Definition sample_pvtdata : gmap Z TxPvtData :=
  {[ 0%Z := {| SeqInBlock := 0; pd_WriteSet := Some {| tpp_DataModel := KV; tpp_NsPvtRwset :=
       [{| npp_Namespace := B "cc"; npp_CollectionPvtRwset := [{| cpp_CollectionName := B "coll"; cpp_Rwset := sample_pvt_bytes |}] |}] |} |} ]}.
(** The matching transaction, in block 7 of an organisation that stems from the
    full block 100. *)
Definition sample_pvt_tx : TxRwSet :=
  {| NsRwSets := [{| NameSpace := B "cc"; KvRwSet := Some {| Reads := []; RangeQueriesInfo := []; Writes := []; MetadataWrites := [] |};
       CollHashedRwSets := [{| ch_CollectionName := B "coll"; PvtRwSetHash := Some sample_pvt_bytes;
         HashedRwSet := Some {| HashedReads := []; HashedMetadataWrites := [];
           HashedWrites := [{| wh_KeyHash := B "k"; wh_IsDelete := false; wh_ValueHash := Some (B "v"); wh_IsPurge := false |}] |} |}] |}] |}.
Definition sample_sparse_block : block :=
  {| blk_num := 7; blk_txs := [sample_transaction 0 sample_pvt_tx]; sparseFilterExists := true;
     sparseblockchainFilter := {| FatBlockNumber := 100; TxnInfoList := [{| IndexInFatBlock := 5; TxnMVCCStatus := 0 |}] |} |}.

Lemma sample_no_metadata : no_pvt_metadata sample_pvtdata.
Proof.
  intros i d ws nsp cp kv Hd Hws Hn Hc Hu. unfold sample_pvtdata in Hd. apply lookup_singleton_Some in Hd as [<- <-].
  injection Hws as <-. apply list_elem_of_singleton in Hn as ->. apply list_elem_of_singleton in Hc as ->.
  assert (Unmarshal sample_pvt_bytes = Ok sample_pvt_kv) as Hs by (vm_compute; reflexivity).
  cbn [cpp_Rwset] in Hu. rewrite Hs in Hu. by injection Hu as <-.
Qed.

Definition sample_pub :=
  match validateAndPrepareBatch 10 sample_hash sample_priv_db sample_sparse_block true with
  | Ok r => r | _ => ([], newPubAndHashUpdates, [], sample_priv_db)
  end.
Definition sample_validated : block := with_txs sample_sparse_block sample_pub.1.1.1.
Definition sample_pvt : UpdateMap :=
  match validateAndPreparePvtBatch sample_validated sample_pub.2 sample_pub.1.1.2 sample_pvtdata with Ok m => m | _ => ∅ end.
Lemma sample_pub_ok :
  validateAndPrepareBatch 10 sample_hash sample_priv_db sample_sparse_block true =
    Ok (sample_pub.1.1.1, sample_pub.1.1.2, sample_pub.1.2, sample_pub.2).
Proof.
  assert (is_ok (validateAndPrepareBatch 10 sample_hash sample_priv_db sample_sparse_block true) = true) as Hok by (vm_compute; reflexivity).
  unfold sample_pub. by destruct (validateAndPrepareBatch _ _ _ _ _) as [[[[]]]| |].
Qed.
Lemma sample_pvt_ok :
  validateAndPreparePvtBatch sample_validated sample_pub.2 sample_pub.1.1.2 sample_pvtdata = Ok sample_pvt.
Proof.
  assert (is_ok (validateAndPreparePvtBatch sample_validated sample_pub.2 sample_pub.1.1.2 sample_pvtdata) = true) as Hok
    by (vm_compute; reflexivity).
  unfold sample_pvt. by destruct (validateAndPreparePvtBatch _ _ _ _).
Qed.
Definition sample_pvt_value (num i : Z) : VersionedValue :=
  {| Value := Some (B "v"); Metadata := None; vv_Version := Some (NewHeight num i) |}.

Lemma private_batch_authentic_witness :
  pvt_origin 7 (blk_txs sample_validated) sample_pvtdata sample_pub.1.1.2 sample_pub.2 (B "cc") (B "coll") (B "k") (sample_pvt_value 7 0).
Proof.
  apply (private_batch_authentic sample_validated sample_pub.2 sample_pub.1.1.2 sample_pvtdata sample_pvt sample_pvt_ok).
  vm_compute. reflexivity.
Defined.

Lemma sparse_private_version_mismatch_witness :
  AreSame (vv_Version (sample_pvt_value 100 5)) (vv_Version (sample_pvt_value 7 0)) = false.
Proof.
  apply (sparse_private_version_mismatch 10 sample_hash sample_priv_db sample_sparse_block true sample_pvtdata _ _ _ _ _
    (B "cc") (B "coll") (B "k") _ _ eq_refl ltac:(discriminate) ltac:(discriminate) sample_no_metadata sample_pub_ok sample_pvt_ok).
  - vm_compute. reflexivity.
  - vm_compute. reflexivity.
Defined.

(** ** The lite path collects the same private data *)

Section lite_pvt.
Context `{!Sha256} `{!ProtoMessage KVRWSet}.
Context {DB I L : Type} `{!VersionedDB DB I}.

Lemma existsb_fmap {A B} (f : B → bool) (g : A → B) (l : list A) : existsb f (g <$> l) = existsb (λ x, f (g x)) l.
Proof. induction l as [|x l IH]; csimpl; [done|]. by rewrite IH. Qed.
Lemma full_containsPvtWrites t : transaction_containsPvtWrites (full_transaction t) = ltxTransaction_containsPvtWrites t.
Proof.
  unfold transaction_containsPvtWrites, ltxTransaction_containsPvtWrites, full_transaction, full_tx; simpl.
  induction (lt_NsRwset (l_rwset t)) as [|n l IH]; csimpl; [done|]. rewrite IH. f_equal. apply existsb_fmap.
Qed.
Lemma full_retrieveHash t ns coll : transaction_retrieveHash (full_transaction t) ns coll = ltxTransaction_retrieveHash t ns coll.
Proof.
  unfold transaction_retrieveHash, ltxTransaction_retrieveHash, full_transaction, full_tx; simpl.
  induction (lt_NsRwset (l_rwset t)) as [|n l IH]; csimpl; [done|]. rewrite IH. destruct (decide _); [done|].
  rewrite list_find_fmap. unfold compose. simpl. by destruct (list_find _ _) as [[]|].
Qed.

Lemma validatePvtdata_ext hash hash' d : (∀ ns coll, hash ns coll = hash' ns coll) → validatePvtdata hash d = validatePvtdata hash' d.
Proof.
  intros Hh. unfold validatePvtdata. destruct (pd_WriteSet d); [|done]. apply foldM_ext. intros [] n _. apply foldM_ext.
  intros [] c _. by rewrite Hh.
Qed.

(** the lite path collects the same private data as the ordinary one: for a
    lite block without empty slots, preparing the private batch gives the result
    of preparing it for the ordinary block with the same content. *)
Theorem lite_private_batch_agrees (blk : ltxBlock) (db : PrivDB DB L) (u : publicAndHashUpdates) (pvtdata : gmap Z TxPvtData)
    (Hpresent : Forall is_Some (lb_txs blk)) :
  validateAndPrepareLtxPvtBatch blk db u pvtdata = validateAndPreparePvtBatch (full_block blk) db u pvtdata.
Proof.
  unfold validateAndPrepareLtxPvtBatch, validateAndPreparePvtBatch. cbn [full_block blk_txs blk_num].
  rewrite (omap_id_Some _ Hpresent) at 1. rewrite !foldM_fmap. f_equal. apply foldM_ext. intros acc t _. cbn [deref]. run. cbn [full_transaction validationCode indexInBlock]. fold (full_transaction t).
  rewrite full_containsPvtWrites. destruct (decide _); [done|]. destruct (negb _); [done|].
  unfold collectPvt. destruct acc as [b m]. destruct (pvtdata !! _) as [d|]; [|done].
  by rewrite (validatePvtdata_ext _ (transaction_retrieveHash (full_transaction t))) by (intros; by rewrite full_retrieveHash).
Qed.
End lite_pvt.

(** The lite form of the sample transaction. *)
Definition sample_pvt_ltx : LtxTxReadWriteSet :=
  match GettxRWSetForLightTxn sample_pvt_tx with Ok t => t | _ => {| lt_DataModel := KV; lt_NsRwset := [] |} end.
Lemma lite_private_batch_agrees_witness :
  let tx := {| l_indexInBlock := 0; l_id := B "id"; l_rwset := sample_pvt_ltx; l_validationCode := 0;
               l_containsPostOrderWrites := false; l_channelId := B "ch" |} in
  validateAndPrepareLtxPvtBatch (sample_ltx_block [Some tx]) sample_priv_db newPubAndHashUpdates sample_pvtdata =
  validateAndPreparePvtBatch (full_block (sample_ltx_block [Some tx])) sample_priv_db newPubAndHashUpdates sample_pvtdata.
Proof. intros tx. apply (lite_private_batch_agrees (sample_ltx_block [Some tx])). repeat constructor. eexists; reflexivity. Defined.

(** ** Verdicts and flags *)

Lemma SetFlag_get flags i code flags' :
  ValidationFlags_SetFlag flags i code = Ok flags' → length flags' = length flags ∧
  ∀ j, flags' !! j = if decide (j = i) then Some (Zbyte code) else flags !! j.
Proof.
  unfold ValidationFlags_SetFlag. destruct (decide _) as [Hi|]; [|done]. intros [= <-]. split; [apply length_insert|].
  intros j. case_decide; subst; [by rewrite list_lookup_insert_eq|by rewrite list_lookup_insert_ne].
Qed.

Lemma postprocess_get txs : ∀ flags flags', NoDup (indexInBlock <$> txs) → postprocessProtoBlock flags txs = Ok flags' →
  (∀ tx, tx ∈ txs → flags' !! indexInBlock tx = Some (Zbyte (validationCode tx))) ∧
  (∀ i, i ∉ indexInBlock <$> txs → flags' !! i = flags !! i).
Proof.
  unfold postprocessProtoBlock.
  induction txs as [|tx txs IH]; intros flags flags' Hnd Hf; csimpl in *.
  { injection Hf as <-. split; [by intros ? ?%not_elem_of_nil|done]. }
  apply bind_Ok in Hf as (flags1 & Hs & Hf). apply NoDup_cons in Hnd as [Hni Hnd].
  destruct (SetFlag_get _ _ _ _ Hs) as [_ Hget]. destruct (IH _ _ Hnd Hf) as [IHin IHout]. split.
  - intros tx' [->|Hin]%elem_of_cons; [|by apply IHin]. rewrite IHout by done. rewrite Hget. by rewrite decide_True.
  - intros i [Hne Hni']%not_elem_of_cons. rewrite IHout, Hget by done. by rewrite decide_False.
Qed.

Lemma set_stat_codes_get flags : ∀ k infos infos',
  foldM (λ infos '(i, b),
      info ← index infos i;
      Ok (<[i := {| TxIDFromChannelHeader := TxIDFromChannelHeader info; si_ValidationCode := byteZ b;
                    si_TxType := si_TxType info; si_ChaincodeID := si_ChaincodeID info;
                    ChaincodeEventData := ChaincodeEventData info; si_NumCollections := si_NumCollections info |}]> infos))
    infos (imap (λ i b, (k + i, b)) flags) = Ok infos' →
  (∀ j, j < k → infos' !! j = infos !! j) ∧
  ∀ i b, flags !! i = Some b → ∃ info, infos' !! (k + i) = Some info ∧ si_ValidationCode info = byteZ b.
Proof.
  induction flags as [|b flags IH]; intros k infos infos' Hf; [by injection Hf as <-|].
  rewrite imap_cons in Hf. cbn [foldM] in Hf. apply bind_Ok in Hf as (infos1 & Hs & Hf).
  apply bind_Ok in Hs as (info & Hi & [= <-]). unfold index in Hi. destruct (infos !! _) eqn:Hlk; [|done]. injection Hi as ->.
  rewrite (imap_ext _ (λ i b, (S k + i, b))) in Hf by (intros; simpl; f_equal; lia).
  apply IH in Hf as [Hlow Hhigh]. pose proof (lookup_lt_Some _ _ _ Hlk). split.
  - intros j Hj. rewrite Hlow by lia. apply list_lookup_insert_ne. lia.
  - intros [|i] b' Hb; simpl in Hb; simplify_eq.
    + eexists. rewrite Hlow by lia. rewrite list_lookup_insert_eq by done. done.
    + replace (k + S i) with (S k + i) by lia. by apply Hhigh.
Qed.

Section flags.
Context `{!Sha256} `{!ProtoMessage KVRWSet, !ProtoMessage HashedRWSet, !ProtoMessage TxReadWriteSet}.
Context `{!ProtoMessage MetadataMsg, !ProtoMessage SparseTxnFilterProto}.
Context `{!ProtoMessage Envelope, !ProtoMessage Payload, !ProtoMessage ChannelHeader, !ProtoMessage Transaction}.
Context `{!ProtoMessage ChaincodeActionPayload, !ProtoMessage ProposalResponsePayload, !ProtoMessage ChaincodeAction}.
Context {Sim Processor : Type} (NewTxSimulator : bytes → outcome Sim)
  (GenerateSimulationResults : Processor → Envelope → Sim → bool → outcome Sim)
  (GetTxSimulationResults : Sim → outcome (option TxReadWriteSet)).
Notation preprocess := (preprocessProtoBlock NewTxSimulator GenerateSimulationResults GetTxSimulationResults).
Notation preprocess_tx := (preprocess_one NewTxSimulator GenerateSimulationResults GetTxSimulationResults).

Lemma preprocess_one_index kv mvcc procs acc p acc' :
  preprocess_tx kv mvcc procs acc p = Ok acc' →
  (indexInBlock <$> acc'.1.1) `sublist_of` (indexInBlock <$> acc.1.1) ++ [p.1].
Proof.
  destruct acc as [[txs infos] flags], p as [i e]. unfold BatchPreparer.preprocess_one. intros Hok.
  assert (indexInBlock <$> txs `sublist_of` (indexInBlock <$> txs) ++ [i]) as Hsame by apply sublist_inserts_r, reflexivity.
  apply bind_Ok in Hok as ([env chdr] & _ & Hok). apply bind_Ok in Hok as ([parsed info] & _ & Hok).
  destruct parsed as [code|[rw|] post]; simpl in Hok.
  - by apply bind_Ok in Hok as (? & _ & [= <-]).
  - destruct (validateWriteset _ _); [|by apply bind_Ok in Hok as (? & _ & [= <-])|done].
    apply bind_Ok in Hok as (code & _ & [= <-]). simpl. by rewrite fmap_app.
  - by injection Hok as <-.
Qed.

Lemma preprocess_indices kv mvcc procs l : ∀ acc acc', foldM (preprocess_tx kv mvcc procs) acc l = Ok acc' →
  (indexInBlock <$> acc'.1.1) `sublist_of` (indexInBlock <$> acc.1.1) ++ l.*1.
Proof.
  induction l as [|p l IH]; intros acc acc' Hf; [injection Hf as ->; by rewrite app_nil_r|].
  apply bind_Ok in Hf as (acc1 & H1 & Hf). apply preprocess_one_index in H1. apply IH in Hf. csimpl.
  etrans; [exact Hf|]. replace (p.1 :: l.*1) with ([p.1] ++ l.*1) by done. rewrite app_assoc. by apply sublist_app.
Qed.

Lemma preprocess_nodup kv blk mvcc procs b infos flags :
  preprocess kv blk mvcc procs = Ok (b, infos, flags) → NoDup (indexInBlock <$> blk_txs b).
Proof.
  unfold preprocessProtoBlock. intros Hok. apply bind_Ok in Hok as ([f fe] & _ & Hok). apply bind_Ok in Hok as (md & _ & Hok).
  apply bind_Ok in Hok as (fl & _ & Hok). apply bind_Ok in Hok as (data & _ & Hok).
  apply bind_Ok in Hok as ([[txs infos'] flags'] & Hf & Hok). apply bind_Ok in Hok as (h & _ & [= <- _ _]). simpl. apply preprocess_indices in Hf. simpl in Hf.
  eapply sublist_NoDup; [|exact Hf]. replace (imap (λ i d, (i, d)) data).*1 with (seq 0 (length data)); [apply NoDup_seq|].
  apply list_eq. intros i. rewrite list_lookup_fmap, list_lookup_imap. destruct (data !! i) eqn:E; simpl.
  - apply lookup_seq. apply lookup_lt_Some in E. lia.
  - apply lookup_seq_ge. by apply lookup_ge_None.
Qed.

(** One envelope that cannot be parsed stops the commit of the whole block,
    whatever its validation flag says: transactions already marked as invalid
    are no longer skipped before parsing. *)
Theorem unparsable_envelope_stops_block kv (blk : Block) (mvcc : bool) (procs : gmap Z Processor) data i e msg
    (Hdata : b_Data blk = Some data) (Hi : data !! i = Some e) (Hbad : Unmarshal (A := Envelope) e = Err msg) :
  ¬ ∃ r, preprocess kv blk mvcc procs = Ok r.
Proof.
  intros [r Hok]. unfold preprocessProtoBlock in Hok. apply bind_Ok in Hok as ([f fe] & _ & Hok). apply bind_Ok in Hok as (md & _ & Hok).
  apply bind_Ok in Hok as (fl & _ & Hok). rewrite Hdata in Hok. cbn [deref] in Hok. rewrite bind_Ok_eq in Hok.
  apply bind_Ok in Hok as (? & Hf & _). destruct (foldM_elem _ (i, e) _ _ _ Hf) as ([[txs infos] flags] & ? & Hs).
  - apply list_elem_of_lookup_2 with i. by rewrite list_lookup_imap, Hi.
  - simpl in Hs. unfold parse_envelope, GetEnvelopeFromBlock in Hs. by rewrite Hbad in Hs.
Qed.

Context `{!ProtoMessage KVMetadataWrite, !ProtoMessage QueryReads}.
Context {DB I L : Type} `{!VersionedDB DB I}.

Lemma validated_indices fuel hashFunc (db : PrivDB DB L) blk mvcc txs u purges db' :
  validateAndPrepareBatch fuel hashFunc db blk mvcc = Ok (txs, u, purges, db') → indexInBlock <$> txs = indexInBlock <$> blk_txs blk.
Proof.
  unfold validateAndPrepareBatch. intros Hok. apply bind_Ok in Hok as (db1 & _ & Hok).
  apply bind_Ok in Hok as ([[txs1 u1] p1] & Hf & [= <- _ _ _]).
  assert (∀ l acc acc', foldM (validate_one fuel hashFunc db1 blk mvcc) acc l = Ok acc' →
    indexInBlock <$> acc'.1.1 = (indexInBlock <$> acc.1.1) ++ (indexInBlock <$> l)) as Hgen; [|by apply (Hgen _ _ _ Hf)].
  clear Hf. intros l. induction l as [|tx l IH]; intros acc acc' Hl; [injection Hl as ->; by rewrite app_nil_r|].
  apply bind_Ok in Hl as ([[txs2 u2] p2] & Hs & Hl). apply IH in Hl. rewrite Hl. destruct acc as [[txs0 u0] p0]. simpl in *.
  apply bind_Ok in Hs as (code & _ & Hs). assert (txs2 = txs0 ++ [set_code tx code]) as ->.
  { destruct (decide _); [|by injection Hs]. apply bind_Ok in Hs as (h & _ & Hs). by apply bind_Ok in Hs as (u3 & _ & [= <- _ _]). }
  by rewrite fmap_app, <-app_assoc.
Qed.

(** The verdicts reach the block and the statistics. When a block is
    prepared, the validation flags of the block hold the verdict of MVCC
    validation for every transaction that was validated and what parsing left
    for the others, and the statistics of each transaction carry its flag. *)
Theorem verdicts_written_back fuel hashFunc (db : PrivDB DB L) (blk : Block) pvtData mvcc procs batch purges infos flags db'
    (Hok : ValidateAndPrepareBatch NewTxSimulator GenerateSimulationResults GetTxSimulationResults
             fuel hashFunc db blk pvtData mvcc procs = Ok (batch, purges, infos, flags, db')) :
  ∃ b infos0 flags0 txs u,
    preprocess (ValidateKeyValue (pdb_vdb db)) blk mvcc procs = Ok (b, infos0, flags0) ∧
    validateAndPrepareBatch fuel hashFunc db b mvcc = Ok (txs, u, purges, db') ∧
    (∀ tx, tx ∈ txs → flags !! indexInBlock tx = Some (Zbyte (validationCode tx))) ∧
    (∀ i, i ∉ indexInBlock <$> txs → flags !! i = flags0 !! i) ∧
    (∀ i f, flags !! i = Some f → ∃ info, infos !! i = Some info ∧ si_ValidationCode info = byteZ f).
Proof.
  unfold ValidateAndPrepareBatch in Hok. apply bind_Ok in Hok as ([[b infos0] flags0] & Hpre & Hok).
  apply bind_Ok in Hok as ([[[txs u] purges1] db1] & Hv & Hok). apply bind_Ok in Hok as (pvt & _ & Hok).
  apply bind_Ok in Hok as (flags1 & Hpost & Hok). apply bind_Ok in Hok as (infos1 & Hst & [= <- <- <- <- <-]).
  pose proof (preprocess_nodup _ _ _ _ _ _ _ Hpre) as Hnd. rewrite <-(validated_indices _ _ _ _ _ _ _ _ _ Hv) in Hnd.
  destruct (postprocess_get _ _ _ Hnd Hpost) as [Hin Hout]. exists b, infos0, flags0, txs, u. split_and!; [done..|].
  intros i f Hi. unfold set_stat_codes in Hst. by apply (proj2 (set_stat_codes_get _ 0 _ _ Hst)).
Qed.
End flags.

(** A block of one transaction in a nest of messages that each hold the next. *)
#[local] Instance sample_bp_env : ProtoMessage Envelope := {|
  Marshal e := Ok (env_Payload e);
  Unmarshal b := match b with [] => Err "empty" | _ => Ok {| env_Payload := b; env_Signature := []; env_Type := 3; env_LeanEnv := None |} end |}.
#[local] Instance sample_bp_payload : ProtoMessage Payload := {|
  Marshal p := Ok (pl_Data p); Unmarshal b := Ok {| pl_Header := Some {| hdr_ChannelHeader := []; hdr_SignatureHeader := [] |}; pl_Data := b |} |}.
#[local] Instance sample_bp_chdr : ProtoMessage ChannelHeader := {|
  Marshal c := Ok (chdr_ChannelId c);
  Unmarshal b := Ok {| chdr_Type := 3; chdr_ChannelId := B "ch"; chdr_TxId := B "id"; chdr_Timestamp := None; chdr_TlsCertHash := []; chdr_ShardId := 0; chdr_OrgsInvolved := [] |} |}.
#[local] Instance sample_bp_txn : ProtoMessage Transaction := {|
  Marshal t := Ok []; Unmarshal b := Ok {| txn_Actions := [{| ta_Header := []; ta_Payload := b |}] |} |}.
#[local] Instance sample_bp_cap : ProtoMessage ChaincodeActionPayload := {|
  Marshal c := Ok [];
  Unmarshal b := Ok {| cap_ChaincodeProposalPayload := []; cap_Action := Some {| cea_ProposalResponsePayload := Some b; cea_Endorsements := [] |} |} |}.
#[local] Instance sample_bp_prp : ProtoMessage ProposalResponsePayload := {|
  Marshal p := Ok []; Unmarshal b := Ok {| prp_ProposalHash := []; prp_Extension := Some b |} |}.
#[local] Instance sample_bp_ca : ProtoMessage ChaincodeAction := {|
  Marshal c := Ok (ca_Results c); Unmarshal b := Ok {| ca_Results := b; ca_Events := []; ca_ChaincodeId := None |} |}.
#[local] Instance sample_bp_md : ProtoMessage MetadataMsg := {|
  Marshal m := Ok (md_Value m); Unmarshal b := Ok {| md_Value := b; md_Signatures := [] |} |}.
#[local] Instance sample_bp_filter : ProtoMessage SparseTxnFilterProto := {|
  Marshal m := Ok []; Unmarshal b := Ok emptySparseFilter |}.
#[local] Instance sample_bp_hashed : ProtoMessage HashedRWSet := countable_proto HashedRWSet.
#[local] Instance sample_bp_rwset : ProtoMessage TxReadWriteSet := countable_proto TxReadWriteSet.
Definition no_sim : bytes → outcome () := λ _, OtherError "no simulator".
Definition no_gen : () → Envelope → () → bool → outcome () := λ _ _ _ _, OtherError "no simulator".
Definition no_res : () → outcome (option TxReadWriteSet) := λ _, Done None.

Definition sample_env_bytes : bytes := Eval vm_compute in
  match TxRwSet_ToProtoBytes (sample_tx [sample_write (B "k") (B "v")] []) with Ok b => b | _ => [] end.
Definition sample_proto_block (data : list bytes) : Block :=
  {| b_Header := Some {| bh_Number := 7; bh_PreviousHash := []; bh_DataHash := [] |}; b_Data := Some data;
     b_Metadata := Some [[]; []; ValidationFlags_NewWithValues (length data) 0]; b_BlockType := 0 |}.

Lemma unparsable_envelope_stops_block_witness :
  ¬ ∃ r, preprocessProtoBlock no_sim no_gen no_res (λ _ _, Ok ()) (sample_proto_block [sample_env_bytes; []]) true ∅ = Ok r.
Proof.
  eapply (unparsable_envelope_stops_block no_sim no_gen no_res (λ _ _, Ok ()) (sample_proto_block [sample_env_bytes; []]) true ∅
    [sample_env_bytes; []] 1 []); reflexivity.
Defined.

Definition sample_prepared :=
  ValidateAndPrepareBatch no_sim no_gen no_res 10 sample_hash sample_priv_db (sample_proto_block [sample_env_bytes]) ∅ true ∅.
Lemma verdicts_written_back_witness :
  match sample_prepared with
  | Ok (batch, purges, infos, flags, db') => flags = [x00] ∧ ∃ info, infos !! 0 = Some info ∧ si_ValidationCode info = 0%Z
  | _ => False
  end.
Proof.
  assert (match sample_prepared with Ok (_, _, _, flags, _) => flags = [x00] | _ => False end) as Hf by (vm_compute; reflexivity).
  unfold sample_prepared in *. destruct (ValidateAndPrepareBatch _ _ _ _ _ _ _ _ _ _) as [[[[[batch purges] infos] flags] db']| |] eqn:E;
    [|exact Hf..].
  destruct (verdicts_written_back no_sim no_gen no_res _ _ _ _ _ _ _ _ _ _ _ _ E) as (b & infos0 & flags0 & txs & u & _ & _ & _ & _ & Hinfo).
  split; [exact Hf|]. rewrite Hf in Hinfo. exact (Hinfo 0 x00 eq_refl).
Defined.
