(* ===== verification/OrdererMVCC.v ===== *)
(** * MVCC checks of the orderer

  Models core/ledger/kvledger/txmgmt/statedb/ordererstatedb/kvstorehandler.go
  and the functions of common/sparseblocks/sparseblockgenerator.go that call it:
  before the orderer cuts a block into the blocks of the organisations, it
  checks the read sets of the transactions against a store that holds the
  version of every key, and collects the versions the accepted ones write.

  The map [fatTxnDetailsMVCCMap], keyed by encoded keys, is updated in place;
  the model threads it. The field [TxnMVCCStatus] of the transaction is threaded
  as [status]. *)

From S2P Require Import Prelude SortedMap Version Separated StateDB Proto Rwset LevelDB StateLevelDB PrivState.
From S2P Require Import TxOps SparseTypes Validator LiteRwset.
From stdpp Require Import options.
Local Open Scope nat_scope.
Set Default Proof Using "Type*".

(** ** The version store *)

(** statedb.KVersionStoreHandler *)
Class KVersionStoreHandler (S : Type) := {
  GetKeyVersion : S → bytes → bytes → res (option Height);
  ApplyOrdererUpdates : S → gmap bytes VersionMVCC → res S
}.

(** Versions by encoded key. *)
Notation versions := (bytes → option Height).

(** [KVersionLaws s vs]: the store answers with the versions [vs]; a key it does
    not have is an error. *)
Class KVersionLaws {S} `{!KVersionStoreHandler S} (s : S) (vs : versions) : Prop :=
  GetKeyVersion_law ns key :
    match vs (StateLevelDB_encodeDataKey ns key) with
    | Some h => GetKeyVersion s ns key = Ok (Some h)
    | None => ∃ e, GetKeyVersion s ns key = Err e
    end.

Definition update_version (old : option Height) (new : option VersionMVCC) : option Height :=
  match new with
  | None => old
  | Some v => if Is_Delete v then None else vm_Version v
  end.
Class KVersionApplyLaws (S : Type) `{!KVersionStoreHandler S} : Prop :=
  ApplyOrdererUpdates_law (s : S) (vs : versions) (m : gmap bytes VersionMVCC) :
    KVersionLaws s vs →
    (∀ k v, m !! k = Some v → ∃ h, vm_Version v = Some h ∧ Height_wf h) →
    ∃ s', ApplyOrdererUpdates s m = Ok s' ∧ KVersionLaws s' (λ k, update_version (vs k) (m !! k)).

Definition NewLiteVersion (protoVersion : option ProtoVersion) : option Height :=
  match protoVersion with
  | None => None
  | Some v => Some (NewHeight (pv_BlockNum v) (pv_TxNum v))
  end.
Definition NewKeyVersion (blockNumber txIndx : Z) : Height := NewHeight blockNumber txIndx.

(** The loop [for _, x := range l { if valid, err := f(x); !valid || err != nil
    { return valid, err } }; return true, nil] where [f] sets the status. *)
Fixpoint validate_all {A} (f : TxValidationCode → A → res (bool * TxValidationCode)) (status : TxValidationCode) (l : list A) :
    res (bool * TxValidationCode) :=
  match l with
  | [] => Ok (true, status)
  | x :: l => '(valid, status) ← f status x; if (valid : bool) then validate_all f status l else Ok (false, status)
  end.

Section orderer.
Context {S : Type} `{!KVersionStoreHandler S}.
Notation mvccMap := (gmap bytes VersionMVCC).

(** ** kvstorehandler.go *)

Definition compare_versions (readVersion : option Height) (committed : res (option Height)) (status : TxValidationCode) :
    res (bool * TxValidationCode) :=
  match committed with
  | Panic => Panic
  | Err _ => Ok (true, status)
  | Ok committedVersion =>
      if decide (readVersion = None ∧ committedVersion ≠ None) then Ok (false, TxValidationCode_MVCC_READ_CONFLICT)
      else if negb (AreSame committedVersion readVersion) then Ok (false, TxValidationCode_MVCC_READ_CONFLICT)
      else Ok (true, status)
  end.

Definition od_validateKVRead (od : S) (m : mvccMap) (ns : bytes) (status : TxValidationCode) (kvRead : KVRead) :
    res (bool * TxValidationCode) :=
  let readVersion := NewLiteVersion (kvr_Version kvRead) in
  match m !! StateLevelDB_encodeDataKey ns (kvr_Key kvRead) with
  | Some _ => Ok (false, TxValidationCode_MVCC_READ_CONFLICT)
  | None => compare_versions readVersion (GetKeyVersion od ns (kvr_Key kvRead)) status
  end.
Definition od_ValidateReadSet (od : S) (m : mvccMap) (nsRwSet : LtxNsReadWriteSet) (status : TxValidationCode) :
    res (bool * TxValidationCode) :=
  kv ← deref (ln_Rwset nsRwSet);
  validate_all (od_validateKVRead od m (ln_Namespace nsRwSet)) status (Reads kv).

(** The map is looked up under the derived namespace, the store under the
    namespace itself. *)
Definition od_validateKVReadHash (od : S) (m : mvccMap) (ns coll : bytes) (status : TxValidationCode) (kvReadHash : KVReadHash) :
    res (bool * TxValidationCode) :=
  let readHashVersion := NewLiteVersion (rh_Version kvReadHash) in
  match m !! StateLevelDB_encodeDataKey (deriveHashedDataNs ns coll) (rh_KeyHash kvReadHash) with
  | Some _ => Ok (false, TxValidationCode_MVCC_READ_CONFLICT)
  | None => compare_versions readHashVersion (GetKeyVersion od ns (rh_KeyHash kvReadHash)) status
  end.
Definition od_validateCollHashedReadSet (od : S) (m : mvccMap) (ns coll : bytes) (kvReadHashes : list KVReadHash)
    (status : TxValidationCode) : res (bool * TxValidationCode) :=
  validate_all (od_validateKVReadHash od m ns coll) status kvReadHashes.
Definition od_ValidateNsHashedReadSets (od : S) (m : mvccMap) (nsRwSet : LtxNsReadWriteSet) (status : TxValidationCode) :
    res (bool * TxValidationCode) :=
  validate_all (λ status collHashedRWSet,
      hashed ← deref (lc_HashedRwset collHashedRWSet);
      od_validateCollHashedReadSet od m (ln_Namespace nsRwSet) (lc_CollectionName collHashedRWSet) (lh_HashedReads hashed) status)
    status (ln_CollectionHashedRwset nsRwSet).

Definition od_ApplyWriteSet (m : mvccMap) (ns : bytes) (kvWrites : list KVWrite) (version : Height) : mvccMap :=
  foldl (λ m kvWrite, <[StateLevelDB_encodeDataKey ns (kvw_Key kvWrite) :=
      {| vm_Version := Some version; Is_Delete := kvw_IsDelete kvWrite |}]> m) m kvWrites.
Definition od_ApplyWriteHashSet (m : mvccMap) (ns : bytes) (collHashedRWSets : list LtxCollectionHashedReadWriteSet) (version : Height) :
    res mvccMap :=
  foldM (λ m collHashedRWSet,
      hashed ← deref (lc_HashedRwset collHashedRWSet);
      Ok (foldl (λ m kvWriteHash,
            <[StateLevelDB_encodeDataKey (deriveHashedDataNs ns (lc_CollectionName collHashedRWSet)) (lwh_KeyHash kvWriteHash) :=
              {| vm_Version := Some version; Is_Delete := lwh_IsDelete kvWriteHash |}]> m) m (lh_HashedWrites hashed)))
    m collHashedRWSets.
Definition od_ApplyBatch (od : S) (m : mvccMap) : res S := ApplyOrdererUpdates od m.

(** ** sparseblockgenerator.go *)

(** An error of the handler counts as a conflict. *)
Definition validateNameSpaceReadSet (m : mvccMap) (nsRwSet : LtxNsReadWriteSet) (od : S) (status : TxValidationCode) :
    res (bool * TxValidationCode) :=
  match od_ValidateReadSet od m nsRwSet status with
  | Panic => Panic
  | Ok (true, status) =>
      match od_ValidateNsHashedReadSets od m nsRwSet status with
      | Panic => Panic
      | Ok r => Ok r
      | Err _ => Ok (false, status)
      end
  | Ok (false, status) => Ok (false, status)
  | Err _ => Ok (false, status)
  end.
Definition applyNameSpaceWriteSet (m : mvccMap) (fatBlockNum txnIdx : Z) (nsRwSet : LtxNsReadWriteSet) : res mvccMap :=
  let version := NewKeyVersion fatBlockNum txnIdx in
  kv ← deref (ln_Rwset nsRwSet);
  let m := od_ApplyWriteSet m (ln_Namespace nsRwSet) (Writes kv) version in
  od_ApplyWriteHashSet m (ln_Namespace nsRwSet) (ln_CollectionHashedRwset nsRwSet) version.

(** The verdict, the map and the status. [ApplyWriteSet] and
    [ApplyWriteHashSet] do not fail. *)
Definition validateEndorserTxn (txRWSet : LtxTxReadWriteSet) (m : mvccMap) (od : S) (status : TxValidationCode)
    (fatBlockNum txnIdx : Z) : res (bool * mvccMap * TxValidationCode) :=
  '(txnFilteringStatus, status) ← validate_all (λ status nsRwSet, validateNameSpaceReadSet m nsRwSet od status) status (lt_NsRwset txRWSet);
  if (txnFilteringStatus : bool) then
    m ← foldM (λ m nsRwSet, applyNameSpaceWriteSet m fatBlockNum txnIdx nsRwSet) m (lt_NsRwset txRWSet);
    Ok (true, m, status)
  else Ok (false, m, status).
End orderer.

(** The LevelDB version store. *)
#[export] Instance versionedDB_KVersionStore {L} `{!GoLevelDB L} `{!ProtoMessage DBMVCC} : KVersionStoreHandler (versionedDB L) := {
  GetKeyVersion := versionedDB_GetKeyVersion;
  ApplyOrdererUpdates := versionedDB_ApplyOrdererUpdates
}.

(** ** What the orderer accepts *)

(** A read is accepted when the key was not written earlier in the block and the
    store has no version for the key, or the one that was read. *)
Definition read_accepted (m : gmap bytes VersionMVCC) (vs : versions) (blockKey storeKey : bytes) (v : option ProtoVersion) : Prop :=
  m !! blockKey = None ∧ (vs storeKey = None ∨ vs storeKey = NewLiteVersion v).
#[export] Instance read_accepted_dec m vs k k' v : Decision (read_accepted m vs k k' v).
Proof. unfold read_accepted. apply _. Defined.

Definition kv_read_accepted m vs ns (r : KVRead) : Prop :=
  read_accepted m vs (StateLevelDB_encodeDataKey ns (kvr_Key r)) (StateLevelDB_encodeDataKey ns (kvr_Key r)) (kvr_Version r).
Definition hash_read_accepted m vs ns coll (r : KVReadHash) : Prop :=
  read_accepted m vs (StateLevelDB_encodeDataKey (deriveHashedDataNs ns coll) (rh_KeyHash r))
    (StateLevelDB_encodeDataKey ns (rh_KeyHash r)) (rh_Version r).
Definition coll_accepted m vs ns (c : LtxCollectionHashedReadWriteSet) : Prop :=
  match lc_HashedRwset c with Some h => Forall (hash_read_accepted m vs ns (lc_CollectionName c)) (lh_HashedReads h) | None => True end.
Definition ns_accepted m vs (n : LtxNsReadWriteSet) : Prop :=
  match ln_Rwset n with Some kv => Forall (kv_read_accepted m vs (ln_Namespace n)) (Reads kv) | None => True end ∧
  Forall (coll_accepted m vs (ln_Namespace n)) (ln_CollectionHashedRwset n).
Definition tx_accepted m vs (t : LtxTxReadWriteSet) : Prop := Forall (ns_accepted m vs) (lt_NsRwset t).
#[export] Instance kv_read_accepted_dec m vs ns r : Decision (kv_read_accepted m vs ns r) := _.
#[export] Instance hash_read_accepted_dec m vs ns coll r : Decision (hash_read_accepted m vs ns coll r) := _.
#[export] Instance coll_accepted_dec m vs ns c : Decision (coll_accepted m vs ns c).
Proof. unfold coll_accepted. destruct (lc_HashedRwset c); apply _. Defined.
#[export] Instance ns_accepted_dec m vs n : Decision (ns_accepted m vs n).
Proof. unfold ns_accepted. destruct (ln_Rwset n); apply _. Defined.
#[export] Instance tx_accepted_dec m vs t : Decision (tx_accepted m vs t).
Proof. unfold tx_accepted. apply _. Defined.

(** The writes of a transaction, by encoded key, in the order they are made. *)
Definition ns_write_list (n : LtxNsReadWriteSet) : list (bytes * bool) :=
  ((λ w, (StateLevelDB_encodeDataKey (ln_Namespace n) (kvw_Key w), kvw_IsDelete w)) <$>
     match ln_Rwset n with Some kv => Writes kv | None => [] end) ++
  (ln_CollectionHashedRwset n ≫= λ c,
     (λ w, (StateLevelDB_encodeDataKey (deriveHashedDataNs (ln_Namespace n) (lc_CollectionName c)) (lwh_KeyHash w), lwh_IsDelete w)) <$>
       match lc_HashedRwset c with Some h => lh_HashedWrites h | None => [] end).
Definition record_writes (h : Height) (l : list (bytes * bool)) (m : gmap bytes VersionMVCC) : gmap bytes VersionMVCC :=
  foldl (λ m '(k, d), <[k := {| vm_Version := Some h; Is_Delete := d |}]> m) m l.

Definition ltx_present (t : LtxTxReadWriteSet) : Prop := tx_present (full_tx t).

Lemma validate_all_decide {A} (f : TxValidationCode → A → res (bool * TxValidationCode)) (P : A → Prop) `{!∀ x, Decision (P x)} status l :
  Forall (λ x, f status x = Ok (if decide (P x) then (true, status) else (false, TxValidationCode_MVCC_READ_CONFLICT))) l →
  validate_all f status l = Ok (if decide (Forall P l) then (true, status) else (false, TxValidationCode_MVCC_READ_CONFLICT)).
Proof.
  induction 1 as [|x l Hx _ IH]; cbn [validate_all].
  - by rewrite decide_True by constructor.
  - rewrite Hx. destruct (decide (P x)) as [HP|HP]; run.
    + rewrite IH. destruct (decide (Forall P l)) as [Hl|Hl].
      * by rewrite decide_True by by constructor.
      * by rewrite decide_False by by inversion 1.
    + by rewrite decide_False by by inversion 1.
Qed.

Lemma record_writes_app h l1 l2 m : record_writes h (l1 ++ l2) m = record_writes h l2 (record_writes h l1 m).
Proof. apply foldl_app. Qed.

Lemma applyNameSpaceWriteSet_spec m fat i n : ns_present (full_ns n) →
  applyNameSpaceWriteSet m fat i n = Ok (record_writes (NewHeight fat i) (ns_write_list n) m).
Proof.
  intros [Hkv Hc]. unfold applyNameSpaceWriteSet, ns_write_list. simpl in Hkv, Hc. destruct Hkv as [kv Hkv]. rewrite Hkv. cbn [deref]. run.
  rewrite record_writes_app. unfold od_ApplyWriteSet. unfold record_writes at 2. rewrite foldl_fmap.
  unfold NewKeyVersion. match goal with |- od_ApplyWriteHashSet ?m1 _ _ _ = _ => generalize m1 end. clear m Hkv kv. intros m.
  rewrite Forall_fmap in Hc. unfold od_ApplyWriteHashSet. revert m.
  induction Hc as [|c cs Hh _ IH]; intros m; [done|]. cbn [foldM]. unfold compose, coll_present in Hh. simpl in Hh.
  destruct (lc_HashedRwset c) as [x|] eqn:Hx; [|by destruct Hh]. cbn [deref]. run. rewrite IH.
  cbn [mbind list_bind]. rewrite Hx, record_writes_app. f_equal. f_equal. unfold record_writes. by rewrite foldl_fmap.
Qed.

Section accept.
Context {S : Type} `{!KVersionStoreHandler S} (od : S) (vs : versions) `{!KVersionLaws od vs}.

Lemma compare_versions_spec ns key v status m bk :
  match m !! bk with
  | Some _ => Ok (false, TxValidationCode_MVCC_READ_CONFLICT)
  | None => compare_versions (NewLiteVersion v) (GetKeyVersion od ns key) status
  end = Ok (if decide (read_accepted m vs bk (StateLevelDB_encodeDataKey ns key) v)
            then (true, status) else (false, TxValidationCode_MVCC_READ_CONFLICT)).
Proof.
  destruct (m !! bk) eqn:Hm; [rewrite decide_False; [done|by intros [? _]; congruence]|].
  pose proof (GetKeyVersion_law ns key) as Hlaw. destruct (vs _) as [h|] eqn:Hvs.
  - rewrite Hlaw. unfold compare_versions. destruct (NewLiteVersion v) as [h'|] eqn:Hv.
    + rewrite decide_False by naive_solver. destruct (AreSame (Some h) (Some h')) eqn:Hs; simpl.
      * rewrite decide_True; [done|]. apply AreSame_spec in Hs. split; [done|]. right. congruence.
      * rewrite decide_False; [done|]. intros [_ [?|Heq]]; [congruence|]. rewrite Hvs, Hv in Heq. apply AreSame_spec in Heq. congruence.
    + rewrite decide_True by done. rewrite decide_False; [done|]. intros [_ [?|?]]; congruence.
  - destruct Hlaw as [e ->]. simpl. rewrite decide_True; [done|]. split; [done|by left].
Qed.

Lemma validateNameSpaceReadSet_spec m n status : ns_present (full_ns n) →
  validateNameSpaceReadSet m n od status =
    Ok (if decide (ns_accepted m vs n) then (true, status) else (false, TxValidationCode_MVCC_READ_CONFLICT)).
Proof.
  intros [Hkv Hc]. simpl in Hkv, Hc. destruct Hkv as [kv Hkv]. rewrite Forall_fmap in Hc.
  assert (od_ValidateReadSet od m n status = Ok (if decide (Forall (kv_read_accepted m vs (ln_Namespace n)) (Reads kv))
    then (true, status) else (false, TxValidationCode_MVCC_READ_CONFLICT))) as Hr.
  { unfold od_ValidateReadSet. rewrite Hkv. cbn [deref]. run. apply validate_all_decide. apply Forall_forall. intros r _.
    apply compare_versions_spec. }
  assert (od_ValidateNsHashedReadSets od m n status = Ok (if decide (Forall (coll_accepted m vs (ln_Namespace n)) (ln_CollectionHashedRwset n))
    then (true, status) else (false, TxValidationCode_MVCC_READ_CONFLICT))) as Hh.
  { unfold od_ValidateNsHashedReadSets. apply validate_all_decide. eapply Forall_impl; [exact Hc|]. intros c [h Hh].
    simpl in Hh. destruct (lc_HashedRwset c) as [x|] eqn:Hx; [|done]. cbn [deref]. run. unfold od_validateCollHashedReadSet.
    rewrite (validate_all_decide _ (hash_read_accepted m vs (ln_Namespace n) (lc_CollectionName c))).
    - f_equal. apply decide_ext. unfold coll_accepted. by rewrite Hx.
    - apply Forall_forall. intros r _. apply compare_versions_spec. }
  unfold validateNameSpaceReadSet. rewrite Hr.
  assert (ns_accepted m vs n ↔ Forall (kv_read_accepted m vs (ln_Namespace n)) (Reads kv) ∧
    Forall (coll_accepted m vs (ln_Namespace n)) (ln_CollectionHashedRwset n)) as Hiff by (unfold ns_accepted; by rewrite Hkv).
  destruct (decide (Forall (kv_read_accepted _ _ _) _)).
  - rewrite Hh. destruct (decide (Forall (coll_accepted _ _ _) _)); [rewrite decide_True by tauto|rewrite decide_False by tauto]; done.
  - rewrite decide_False by tauto. done.
Qed.
End accept.

Lemma ltx_present_ns t : ltx_present t → Forall (λ n, ns_present (full_ns n)) (lt_NsRwset t).
Proof. unfold ltx_present, tx_present. simpl. by rewrite Forall_fmap. Qed.
Lemma validate_namespaces_spec {S} `{!KVersionStoreHandler S} (od : S) (vs : versions) `{!KVersionLaws od vs} t m status : ltx_present t →
  validate_all (λ status nsRwSet, validateNameSpaceReadSet m nsRwSet od status) status (lt_NsRwset t) =
    Ok (if decide (Forall (ns_accepted m vs) (lt_NsRwset t)) then (true, status) else (false, TxValidationCode_MVCC_READ_CONFLICT)).
Proof.
  intros Hpresent%ltx_present_ns. apply validate_all_decide. eapply Forall_impl; [exact Hpresent|]. intros n Hn.
  by apply validateNameSpaceReadSet_spec.
Qed.
Lemma apply_namespaces_spec t m fat i : ltx_present t →
  foldM (λ m nsRwSet, applyNameSpaceWriteSet m fat i nsRwSet) m (lt_NsRwset t) =
    Ok (record_writes (NewHeight fat i) (lt_NsRwset t ≫= ns_write_list) m).
Proof.
  intros Hpresent%ltx_present_ns. revert m. induction Hpresent as [|n l Hn _ IH]; intros m; [done|]. cbn [foldM].
  rewrite applyNameSpaceWriteSet_spec by done. run. cbn [mbind list_bind]. by rewrite IH, record_writes_app.
Qed.

(** The check always comes to a verdict, and leaves versions that can be
    stored. *)
Definition storable (m : gmap bytes VersionMVCC) : Prop := ∀ k v, m !! k = Some v → ∃ h, vm_Version v = Some h ∧ Height_wf h.
Lemma record_writes_storable h l : Height_wf h → ∀ m, storable m → storable (record_writes h l m).
Proof.
  intros Hh. induction l as [|[k d] l IH]; intros m Hm; [done|]. unfold record_writes. cbn [foldl]. apply IH. intros k' v.
  destruct (decide (k = k')) as [->|Hk]; [rewrite lookup_insert_eq; intros [= <-]; by exists h|rewrite lookup_insert_ne by done; apply Hm].
Qed.
Lemma validateEndorserTxn_total {S} `{!KVersionStoreHandler S} (od : S) (vs : versions) `{!KVersionLaws od vs} t m status fat i :
  ltx_present t → storable m → Height_wf (NewHeight fat i) →
  ∃ ok m' status', validateEndorserTxn t m od status fat i = Ok (ok, m', status') ∧ storable m'.
Proof.
  intros Hp Hm Hh. unfold validateEndorserTxn. rewrite (validate_namespaces_spec od vs) by done. destruct (decide _); run; [|by eexists _, _, _].
  rewrite apply_namespaces_spec by done. run. eexists _, _, _. split; [done|]. by apply record_writes_storable.
Qed.

(** C25: the verdict of the orderer on a transaction, on every branch: it is
    accepted exactly when each read finds its key unwritten in the block and
    missing from the store or at the version read, the hashed reads being looked
    up in the store under the public namespace. An accepted transaction records
    the version of the fat block for every key it writes, a later write of a key
    replacing an earlier one; a rejected one records nothing and is marked as a
    read conflict. *)
Theorem orderer_verdict {S} `{!KVersionStoreHandler S} (od : S) (vs : versions) (Hlaws : KVersionLaws od vs)
    (t : LtxTxReadWriteSet) (Hpresent : ltx_present t) m status fatBlockNum txnIdx :
  validateEndorserTxn t m od status fatBlockNum txnIdx =
    Ok (if decide (tx_accepted m vs t)
        then (true, record_writes (NewHeight fatBlockNum txnIdx) (lt_NsRwset t ≫= ns_write_list) m, status)
        else (false, m, TxValidationCode_MVCC_READ_CONFLICT)).
Proof.
  unfold validateEndorserTxn. rewrite (validate_namespaces_spec od vs) by done. unfold tx_accepted.
  destruct (decide _); run; [|done]. by rewrite apply_namespaces_spec.
Qed.

(** ** The LevelDB version store keeps the laws *)

Section ldb.
Context {L : Type} `{!GoLevelDB L} `{!GoLevelDBLaws L} `{!ProtoMessage DBMVCC} `{!ProtoNormalizes DBMVCC id}.

Definition version_op (dbName : bytes) (u : bytes * VersionMVCC) : ldb_op :=
  let K := constructLevelKey dbName u.1 in
  if Is_Delete u.2 then LDelete K else LPut K (match encodeValueMVCC u.2 with Ok b => b | _ => [] end).

Lemma encode_decode_MVCC v h : vm_Version v = Some h → Height_wf h →
  ∃ b, encodeValueMVCC v = Ok b ∧ decodeValueMVCC b = Ok v.
Proof.
  intros Hv Hh. unfold encodeValueMVCC. rewrite Hv. cbn [deref]. run.
  destruct (Marshal_total {| dbm_Version := Height_ToBytes h; dbm_IsDelete := Is_Delete v |}) as [b Hb].
  exists b. split; [done|]. unfold decodeValueMVCC. rewrite (Unmarshal_Marshal_norm _ _ Hb). run. simpl.
  rewrite <-(app_nil_r (Height_ToBytes h)), NewHeightFromBytes_ToBytes by done. run. destruct v; simpl in *. by subst.
Qed.

Lemma foldM_version_ops (l : list (bytes * VersionMVCC)) b :
  Forall (λ u, ∃ h, vm_Version u.2 = Some h ∧ Height_wf h) l →
  ∃ b', foldM (λ dbBatch '(k, vv),
      if Is_Delete vv then Ok (LevelBatch_Delete dbBatch k)
      else encodedVal ← encodeValueMVCC vv; LevelBatch_Put dbBatch k (Some encodedVal)) b l = Ok b' ∧
    lb_dbName b' = lb_dbName b ∧ lb_ops b' = lb_ops b ++ (version_op (lb_dbName b) <$> l).
Proof.
  intros Hl. revert b. induction Hl as [|[k v] l (h & Hv & Hh) _ IH]; intros b; [exists b; by rewrite app_nil_r|].
  destruct (encode_decode_MVCC v h Hv Hh) as (e & He & _).
  set (f := λ (dbBatch : LevelBatch) '(k, vv), _). 
  assert (∃ b1, f b (k, v) = Ok b1 ∧ lb_dbName b1 = lb_dbName b ∧ lb_ops b1 = lb_ops b ++ [version_op (lb_dbName b) (k, v)])
    as (b1 & Hb1 & Hn1 & Ho1).
  { subst f. unfold version_op; simpl. destruct (Is_Delete v); [by eexists|]. rewrite He. run. by eexists. }
  cbn [foldM]. rewrite Hb1. run. destruct (IH b1) as (b' & Hf & Hn & Ho). exists b'. split_and!; [exact Hf|congruence|].
  rewrite Ho, Ho1, Hn1, <-app_assoc. done.
Qed.

Lemma ApplyOrdererUpdates_contents (vdb : versionedDB L) m :
  (∀ k v, m !! k = Some v → ∃ h, vm_Version v = Some h ∧ Height_wf h) →
  ∃ vdb', versionedDB_ApplyOrdererUpdates vdb m = Ok vdb' ∧ vdb_dbName vdb' = vdb_dbName vdb ∧
    contents (vdb_db vdb') = apply_ldb_ops (contents (vdb_db vdb)) (version_op (vdb_dbName vdb) <$> map_to_list m).
Proof.
  intros Hm. unfold versionedDB_ApplyOrdererUpdates.
  destruct (foldM_version_ops (map_to_list m) (DBHandle_NewUpdateBatch (vdb_dbName vdb))) as (b & -> & Hn & Ho).
  { apply Forall_forall. intros [k v] Hin%elem_of_map_to_list. by apply (Hm k). }
  run. simpl in Ho. unfold DBHandle_WriteBatch. rewrite Ho. destruct (decide _) as [E|E].
  - run. eexists; split_and!; [done..|]. simpl. by rewrite E.
  - match goal with |- context [ldb_Write ?d ?o] => destruct (ldb_Write_law d o) as (db' & -> & Hc) end. run. by eexists.
Qed.

#[export] Instance ldb_version_store_laws : KVersionApplyLaws (versionedDB L).
Proof.
  intros vdb vs m Hlaws Hm. destruct (ApplyOrdererUpdates_contents vdb m Hm) as (vdb' & Happ & Hn & Hc).
  exists vdb'. split; [done|]. intros ns key. set (K := StateLevelDB_encodeDataKey ns key).
  assert (store vdb' !! K = match m !! K with Some v => op_val (version_op (vdb_dbName vdb) (K, v)) | None => store vdb !! K end) as HK.
  { unfold store. rewrite Hn, !lookup_view, Hc.
    rewrite (apply_ldb_ops_lookup _ _ _ ((λ v, op_val (version_op (vdb_dbName vdb) (K, v))) <$> m !! K)).
    - by destruct (m !! K).
    - intros op ([k v] & -> & Hin%elem_of_map_to_list)%list_elem_of_fmap Hk. unfold version_op in Hk; simpl in Hk.
      assert (k = K) as -> by (destruct (Is_Delete v); simpl in Hk; by apply constructLevelKey_inj in Hk). by rewrite Hin.
    - intros [? [v [Hv _]]%fmap_Some]. exists (version_op (vdb_dbName vdb) (K, v)). split.
      + apply list_elem_of_fmap. eexists; split; [done|]. by apply elem_of_map_to_list.
      + unfold version_op; simpl. by destruct (Is_Delete v). }
  pose proof (GetKeyVersion_law ns key) as Hold. fold K in Hold. simpl in Hold |- *.
  unfold versionedDB_GetKeyVersion, versionedDB_GetMVCCState in Hold |- *. fold K in Hold |- *. rewrite lookup_store in Hold |- *. rewrite HK.
  destruct (m !! K) as [v|] eqn:HmK; [|exact Hold]. simpl. destruct (Hm _ _ HmK) as (h & Hv & Hh).
  destruct (encode_decode_MVCC v h Hv Hh) as (e & He & Hd). unfold version_op; simpl. rewrite He.
  destruct (Is_Delete v) eqn:Hdel; simpl; [by eexists|]. rewrite Hv, Hd. simpl. by rewrite Hv.
Qed.
End ldb.

(** ** Private reads *)

(** A transaction that makes one read, public or hashed. *)
Definition public_read_tx (ns key : bytes) (v : option ProtoVersion) : LtxTxReadWriteSet :=
  {| lt_DataModel := KV; lt_NsRwset := [
       {| ln_Namespace := ns;
          ln_Rwset := Some {| Reads := [{| kvr_Key := key; kvr_Version := v |}]; RangeQueriesInfo := []; Writes := []; MetadataWrites := [] |};
          ln_CollectionHashedRwset := [] |}] |}.
Definition hashed_read_tx (ns coll keyHash : bytes) (v : option ProtoVersion) : LtxTxReadWriteSet :=
  {| lt_DataModel := KV; lt_NsRwset := [
       {| ln_Namespace := ns;
          ln_Rwset := Some {| Reads := []; RangeQueriesInfo := []; Writes := []; MetadataWrites := [] |};
          ln_CollectionHashedRwset := [
            {| lc_CollectionName := coll;
               lc_HashedRwset := Some {| lh_HashedReads := [{| rh_KeyHash := keyHash; rh_Version := v |}]; lh_HashedWrites := []; lh_MetadataWrites := [] |};
               lc_PvtRwsetHash := None |}] |}] |}.

(** C35: the orderer does not check the committed version of a private key. The
    version is in the store, under the derived namespace of the collection,
    where a read through that namespace is rejected unless it has this very
    version; but a hashed read of the key is accepted with whatever version, as
    long as the public namespace has no key named like the hash. *)
Theorem orderer_hashed_reads_unchecked {S} `{!KVersionStoreHandler S} (od : S) (vs : versions) (Hlaws : KVersionLaws od vs)
    ns coll keyHash h v m status fatBlockNum txnIdx
    (Hcommitted : vs (StateLevelDB_encodeDataKey (deriveHashedDataNs ns coll) keyHash) = Some h)
    (Hblock : m !! StateLevelDB_encodeDataKey (deriveHashedDataNs ns coll) keyHash = None)
    (Hpublic : vs (StateLevelDB_encodeDataKey ns keyHash) = None) :
  validateEndorserTxn (hashed_read_tx ns coll keyHash v) m od status fatBlockNum txnIdx = Ok (true, m, status) ∧
  validateEndorserTxn (public_read_tx (deriveHashedDataNs ns coll) keyHash v) m od status fatBlockNum txnIdx =
    Ok (if decide (NewLiteVersion v = Some h) then (true, m, status) else (false, m, TxValidationCode_MVCC_READ_CONFLICT)).
Proof.
  split; unfold validateEndorserTxn; cbn [hashed_read_tx public_read_tx lt_NsRwset validate_all];
    rewrite (validateNameSpaceReadSet_spec od vs) by (repeat constructor; by eexists).
  - rewrite decide_True; [done|]. split; [apply Forall_nil_2|]. simpl. apply Forall_singleton.
    unfold coll_accepted; simpl. apply Forall_singleton. split; [done|by left].
  - assert (ns_accepted m vs {| ln_Namespace := deriveHashedDataNs ns coll;
        ln_Rwset := Some {| Reads := [{| kvr_Key := keyHash; kvr_Version := v |}]; RangeQueriesInfo := []; Writes := []; MetadataWrites := [] |};
        ln_CollectionHashedRwset := [] |} ↔ NewLiteVersion v = Some h) as Hiff.
    { unfold ns_accepted; simpl. rewrite Forall_singleton. unfold kv_read_accepted, read_accepted; simpl.
      rewrite Hcommitted, Hblock. split; [intros [[_ [?|?]] _]; congruence|]. intros ->. auto. }
    destruct (decide (NewLiteVersion v = Some h)); [rewrite decide_True by tauto|rewrite decide_False by tauto]; done.
Qed.

(** ** Concrete stores *)

(** A store that is just the map of its versions. *)
#[local] Instance map_store : KVersionStoreHandler (gmap bytes Height) := {
  GetKeyVersion s ns key :=
    match s !! StateLevelDB_encodeDataKey ns key with Some h => Ok (Some h) | None => Err "key not found in db" end;
  ApplyOrdererUpdates s m := Ok (merge update_version s m)
}.
#[local] Instance map_store_laws (s : gmap bytes Height) : KVersionLaws s (λ k, s !! k).
Proof. intros ns key. simpl. destruct (s !! _); [done|by eexists]. Qed.

Definition sample_versions : gmap bytes Height :=
  {[StateLevelDB_encodeDataKey (B "cc") (B "k") := NewHeight 4 2;
    StateLevelDB_encodeDataKey (deriveHashedDataNs (B "cc") (B "col")) (B "kh") := NewHeight 4 3]}.
Lemma orderer_verdict_witness :
  validateEndorserTxn (public_read_tx (B "cc") (B "k") (Some {| pv_BlockNum := 4; pv_TxNum := 2 |})) ∅ sample_versions 254 9 0 =
    Ok (true, ∅, 254%Z) ∧
  validateEndorserTxn (public_read_tx (B "cc") (B "k") (Some {| pv_BlockNum := 3; pv_TxNum := 0 |})) ∅ sample_versions 254 9 0 =
    Ok (false, ∅, TxValidationCode_MVCC_READ_CONFLICT).
Proof.
  split; rewrite (orderer_verdict sample_versions (λ k, sample_versions !! k) _) by (repeat constructor; by eexists);
    vm_compute; reflexivity.
Defined.
Lemma orderer_hashed_reads_unchecked_witness :
  validateEndorserTxn (hashed_read_tx (B "cc") (B "col") (B "kh") None) ∅ sample_versions 254 9 0 = Ok (true, ∅, 254%Z).
Proof.
  refine (proj1 (orderer_hashed_reads_unchecked sample_versions (λ k, sample_versions !! k) _ (B "cc") (B "col") (B "kh")
    (NewHeight 4 3) None ∅ 254 9 0 _ _ _)); vm_compute; reflexivity.
Defined.
