(* ===== verification/SparseBlocks.v ===== *)
(** * Generation of the blocks of the organisations

  Models common/sparseblocks/sparseblockgenerator.go: the orderer cuts every
  ordered block, the fat block, into one block per organisation. The
  transactions of an organisation keep their order; a filter in the metadata of
  its block tells the peer where each transaction stood in the fat block and
  whether it passed the orderer's MVCC check.

  The maps that the code passes around and updates in place are threaded as
  values. A Go map is iterated in no fixed order; the model folds over
  [map_to_list], and the theorems do not depend on that order. The signer of
  the channel and the reader of the fat blocks are parameters. *)

From S2P Require Import Prelude SortedMap Encoding Version Separated StateDB Proto Rwset LevelDB StateLevelDB PrivState.
From S2P Require Import TxOps SparseTypes Validator LiteRwset LiteValidator Block BlockVerify LeanEnvelope BatchPreparer OrdererMVCC.
From stdpp Require Import options.
Local Open Scope nat_scope.
Set Default Proof Using "Type*".

Definition LitePeerChainId : bytes := B "lpeer".

(** ordererstatedb.TxnDetails; its [OrgList] is never set. *)
Record TxnDetails := { td_Indx : Z; td_TxnEnvBytes : bytes; td_TxnMVCCStatus : TxValidationCode }.

#[export] Instance TxnDetails_eq_dec : EqDecision TxnDetails.
Proof. solve_decision. Defined.

(** The maps that the loop over the transactions fills, and the type of the
    last approve or commit transaction. *)
Record aggregate := {
  ag_mvcc : gmap bytes VersionMVCC;
  ag_filters : gmap bytes SparseTxnFilterProto;
  ag_envs : gmap bytes (list TxnDetails);
  ag_blockType : option Z
}.
Definition empty_aggregate : aggregate := {| ag_mvcc := ∅; ag_filters := ∅; ag_envs := ∅; ag_blockType := None |}.

(** The parts of multichannel.ChainSupport that are used: [LastProcessed] is
    what the iterator of [GetLastProcessedBlk] returns. *)
Record ChainSupport := {
  cs_ChannelID : bytes;
  cs_LastProcessed : option Block;
  cs_NewSignatureHeader : Block → res SignatureHeader;
  cs_Sign : bytes → res bytes
}.

(** ** Lists of organisations *)

Fixpoint split_byte (s : bytes) (sep : byte) : list bytes :=
  match s with
  | [] => [[]]
  | b :: s =>
      if decide (b = sep) then [] :: split_byte s sep
      else match split_byte s sep with [] => [[b]] | w :: ws => (b :: w) :: ws end
  end.
Fixpoint trim_left (c : byte) (s : bytes) : bytes :=
  match s with b :: s' => if decide (b = c) then trim_left c s' else s | [] => [] end.
Definition strings_Trim (s : bytes) (c : byte) : bytes := reverse (trim_left c (reverse (trim_left c s))).
Definition parseOrgs (orgs : bytes) (orgsFromConfig : list bytes) : list bytes :=
  if decide (orgs = []) then orgsFromConfig else split_byte (strings_Trim orgs x22) x2c.


(** An assignment to an element of a slice. *)
Definition set_metadata (block : Block) (i : nat) (v : bytes) : res Block :=
  metadata ← deref (b_Metadata block);
  if decide (i < length metadata) then
    Ok {| b_Header := b_Header block; b_Data := b_Data block; b_Metadata := Some (<[i := v]> metadata); b_BlockType := b_BlockType block |}
  else Panic.
Definition set_block_type (block : Block) (t : Z) : Block :=
  {| b_Header := b_Header block; b_Data := b_Data block; b_Metadata := b_Metadata block; b_BlockType := t |}.

(** ** Sorting the transactions by organisation *)

Definition add_txn (number : Z) (td : TxnDetails) (ag : aggregate) (org : bytes) : aggregate :=
  let sparseFilter := default {| FatBlockNumber := number; TxnInfoList := [] |} (ag_filters ag !! org) in
  let info := {| IndexInFatBlock := td_Indx td; TxnMVCCStatus := td_TxnMVCCStatus td |} in
  {| ag_mvcc := ag_mvcc ag;
     ag_filters := <[org := {| FatBlockNumber := FatBlockNumber sparseFilter; TxnInfoList := TxnInfoList sparseFilter ++ [info] |}]> (ag_filters ag);
     ag_envs := <[org := default [] (ag_envs ag !! org) ++ [td]]> (ag_envs ag);
     ag_blockType := ag_blockType ag |}.

Section generator.
Context `{!Sha256} `{!ProtoMessage KVRWSet, !ProtoMessage HashedRWSet, !ProtoMessage TxReadWriteSet}.
Context `{!ProtoMessage Envelope, !ProtoMessage Payload, !ProtoPartial Payload, !ProtoMessage ChannelHeader, !ProtoMessage SignatureHeader}.
Context `{!ProtoMessage SerializedIdentity, !ProtoPartial SerializedIdentity, !ProtoMessage ChaincodeEvent, !ProtoPartial ChaincodeEvent}.
Context `{!ProtoMessage Transaction, !ProtoMessage ChaincodeActionPayload}.
Context `{!ProtoMessage ProposalResponsePayload, !ProtoMessage ChaincodeAction}.

(** The envelope of a transaction, its type and its channel header. An envelope
    that does not parse has the type 0; a payload that does not parse leaves the
    channel header nil, which is then dereferenced. *)
Definition parse_txn (envBytes : bytes) : res (option Envelope * Z * option ChannelHeader) :=
  match GetEnvelopeFromBlock envBytes with
  | Panic => Panic
  | Err _ => Ok (None, 0%Z, None)
  | Ok txnEnv =>
      match env_LeanEnv txnEnv with
      | Some _ => Ok (Some txnEnv, env_Type txnEnv, None)
      | None =>
          payload ← OrPanic (UnmarshalPayload (env_Payload txnEnv));
          hdr ← deref (pl_Header payload);
          txnChanHdr ← OrPanic (UnmarshalChannelHeader (hdr_ChannelHeader hdr));
          Ok (Some txnEnv, if decide (env_Type txnEnv ≠ HeaderType_MESSAGE) then env_Type txnEnv else chdr_Type txnChanHdr,
              Some txnChanHdr)
      end
  end.

Definition is_chaincode_txn (txType : Z) : bool :=
  bool_decide (txType = HeaderType_ENDORSER_TRANSACTION) || bool_decide (txType = HeaderType_APPROVE) ||
  bool_decide (txType = HeaderType_COMMIT).
(** The read-write set of a chaincode transaction; a transaction of an unknown
    type has none. *)
Definition txn_rwset (txnEnv : option Envelope) (txType : Z) : res (option LtxTxReadWriteSet) :=
  if is_chaincode_txn txType then
    txnEnv ← deref txnEnv;
    match env_LeanEnv txnEnv with
    | None => leanEnv ← OrPanic (GetLeanEnvFromCommonEnv txnEnv); Ok (le_Results leanEnv)
    | Some leanEnv => Ok (le_Results leanEnv)
    end
  else Ok None.
Definition txn_orgs (txnEnv : option Envelope) (txnChanHdr : option ChannelHeader) (orgsFromConfig : list bytes) : res (list bytes) :=
  orgList ← match txnChanHdr with
            | Some h => Ok (chdr_OrgsInvolved h)
            | None => txnEnv ← deref txnEnv; leanEnv ← deref (env_LeanEnv txnEnv); Ok (le_OrgsInvolved leanEnv)
            end;
  Ok (if decide (length orgList = 0) then parseOrgs [] orgsFromConfig else orgList).

Context {S : Type} `{!KVersionStoreHandler S}.

Definition aggregate_one (number : Z) (orgsFromConfig : list bytes) (mvccApplicable : bool) (versionDB : S)
    (ag : aggregate) (p : nat * bytes) : res aggregate :=
  let '(txnIndex, envBytes) := p in
  let configOrgList := orgsFromConfig ++ [LitePeerChainId] in
  let indx := Z.of_nat txnIndex in
  '(txnEnv, txType, txnChanHdr) ← parse_txn envBytes;
  if decide (txType = HeaderType_CONFIG) then
    Ok (foldl (add_txn number {| td_Indx := indx; td_TxnEnvBytes := envBytes; td_TxnMVCCStatus := 0 |}) ag configOrgList)
  else
    txRWSet ← txn_rwset txnEnv txType;
    match txRWSet with
    | None => Ok ag
    | Some txRWSet =>
        orgList ← txn_orgs txnEnv txnChanHdr orgsFromConfig;
        '(m, status) ← (if mvccApplicable then
            '(txnFilteringStatus, m, status) ← validateEndorserTxn txRWSet (ag_mvcc ag) versionDB 0 number indx;
            Ok (m, if (txnFilteringStatus : bool) then status else TxValidationCode_MVCC_READ_CONFLICT)
          else Ok (ag_mvcc ag, 0%Z));
        let '(orgList, blockType) :=
          if bool_decide (txType = HeaderType_APPROVE) || bool_decide (txType = HeaderType_COMMIT)
          then (configOrgList, Some txType) else (orgList, ag_blockType ag) in
        Ok (foldl (add_txn number {| td_Indx := indx; td_TxnEnvBytes := envBytes; td_TxnMVCCStatus := status |})
              {| ag_mvcc := m; ag_filters := ag_filters ag; ag_envs := ag_envs ag; ag_blockType := blockType |} orgList)
    end.

(** The sorted transactions and the block, whose type changes when it holds an
    approve or commit transaction. *)
Definition aggregateOrgEnvelope (blk : Block) (orgsFromConfig : list bytes) (mvccApplicable : bool) (versionDB : S) :
    res (aggregate * Block) :=
  data ← deref (b_Data blk);
  header ← deref (b_Header blk);
  ag ← foldM (aggregate_one (bh_Number header) orgsFromConfig mvccApplicable versionDB) empty_aggregate (imap (λ i d, (i, d)) data);
  Ok (ag, match ag_blockType ag with Some t => set_block_type blk t | None => blk end).

(** ** The blocks *)

(** The number and the previous hash come from the head of the organisation's
    chain. *)
Definition createNextBlock (txnDetailsList : list TxnDetails) (previousHash : bytes) (orgBlockNumber : Z) : Block * list Z :=
  let data := td_TxnEnvBytes <$> txnDetailsList in
  let block := NewBlock orgBlockNumber previousHash in
  ({| b_Header := Some {| bh_Number := orgBlockNumber; bh_PreviousHash := previousHash; bh_DataHash := BlockDataHash data |};
      b_Data := Some data; b_Metadata := b_Metadata block; b_BlockType := b_BlockType block |},
   td_Indx <$> txnDetailsList).
Definition next_org_block (heads : gmap bytes LastBlockMappingProto) (configBlockCheck : bool) (blockType : Z)
    (orgId : bytes) (txnDetailsList : list TxnDetails) : Block * list Z :=
  let '(prevOrgBlockHash, orgBlockNum) :=
    match heads !! orgId with
    | Some orgHeader => (LastOrgBlockHash orgHeader, u64 (LastOrgBlockNum orgHeader + 1))
    | None => ([], 0%Z)
    end in
  let '(orgBlock, txnIdxList) := createNextBlock txnDetailsList prevOrgBlockHash orgBlockNum in
  (set_block_type orgBlock (if configBlockCheck then HeaderType_CONFIG else blockType), txnIdxList).

Context `{!ProtoMessage MetadataMsg, !ProtoMessage OrdererBlockMetadata, !ProtoMessage LastConfig, !ProtoMessage SparseTxnFilterProto}.

Definition addOrgLastConfig (orgBlock : Block) (d : OrgBlockDetailsProto) : res (Block * OrgBlockDetailsProto) :=
  lastConfigValue ← MarshalOrPanic {| lcf_Index := ob_LastConfigBlockNum d |};
  v ← MarshalOrPanic {| md_Value := lastConfigValue; md_Signatures := [] |};
  orgBlock ← set_metadata orgBlock BlockMetadataIndex_LAST_CONFIG v;
  Ok (orgBlock, {| OrgBlockNumber := OrgBlockNumber d; Authpath := Authpath d; ob_Hash := ob_Hash d; TxnIndexList := TxnIndexList d;
                   PrevioushHash := PrevioushHash d; PrevFatblockNumber := PrevFatblockNumber d; ob_LastConfigBlockNum := ob_LastConfigBlockNum d;
                   MetadataSignature := MetadataSignature d; MetadataLastConfig := v; SparseBlockFilter := SparseBlockFilter d |}).

Definition addOrgBlockSignature (cs : ChainSupport) (orgBlock : Block) (consenterMetadata : bytes) (d : OrgBlockDetailsProto) :
    res (Block * OrgBlockDetailsProto) :=
  shdr ← OrPanic (cs_NewSignatureHeader cs orgBlock);
  signatureHeader ← MarshalOrPanic shdr;
  cm ← MarshalOrPanic {| md_Value := consenterMetadata; md_Signatures := [] |};
  blockSignatureValue ← MarshalOrPanic {| obm_LastConfig := Some {| lcf_Index := ob_LastConfigBlockNum d |}; obm_ConsenterMetadata := cm |};
  header ← deref (b_Header orgBlock);
  signature ← OrPanic (cs_Sign cs (blockSignatureValue ++ signatureHeader ++ BlockHeaderBytes header));
  v ← MarshalOrPanic {| md_Value := blockSignatureValue;
                        md_Signatures := [{| ms_SignatureHeader := signatureHeader; ms_Signature := signature |}] |};
  orgBlock ← set_metadata orgBlock BlockMetadataIndex_SIGNATURES v;
  Ok (orgBlock, {| OrgBlockNumber := OrgBlockNumber d; Authpath := Authpath d; ob_Hash := ob_Hash d; TxnIndexList := TxnIndexList d;
                   PrevioushHash := PrevioushHash d; PrevFatblockNumber := PrevFatblockNumber d; ob_LastConfigBlockNum := ob_LastConfigBlockNum d;
                   MetadataSignature := v; MetadataLastConfig := MetadataLastConfig d; SparseBlockFilter := SparseBlockFilter d |}).

Definition addMetadataFields (cs : ChainSupport) (orgBlock : Block) (d : OrgBlockDetailsProto) : res (Block * OrgBlockDetailsProto) :=
  v ← MarshalOrPanic {| md_Value := SparseBlockFilter d; md_Signatures := [] |};
  orgBlock ← set_metadata orgBlock BlockMetadataIndex_SPARSE_TXN_FILTER v;
  '(orgBlock, d) ← addOrgLastConfig orgBlock d;
  fatBlockConsenterMetadata ← OrPanic (GetConsenterMetadataFromBlock orgBlock);
  addOrgBlockSignature cs orgBlock (md_Value fatBlockConsenterMetadata) d.

(** The finished blocks, what is kept of them, and the heads of the chains. *)
Record skeleton := {
  sk_blocks : gmap bytes Block;
  sk_details : gmap bytes OrgBlockDetailsProto;
  sk_heads : gmap bytes LastBlockMappingProto
}.
(** One organisation: [prevHead] is the entry of the organisation in the map of
    the heads. *)
Definition finish_org (cs : ChainSupport) (configBlockCheck : bool) (filters : gmap bytes SparseTxnFilterProto) (lastFat : Z)
    (prevHead : option LastBlockMappingProto) (orgId : bytes) (orgBlock : Block) (txnIdxList : list Z) :
    res (Block * OrgBlockDetailsProto * LastBlockMappingProto) :=
  (* a nil filter does not marshal, and the error is only logged *)
  let sparseFilterBytes := match filters !! orgId with
    | Some f => match Marshal f with Ok b => b | _ => [] end | None => [] end in
  header ← deref (b_Header orgBlock);
  lastConfigBlockNumber ← (if configBlockCheck then Ok (bh_Number header)
    else head ← deref prevHead; Ok (lb_LastConfigBlockNum head));
  let head := {| LastOrgBlockNum := bh_Number header; LastOrgBlockHash := BlockHeaderHash header;
                 SourceFatBlockNum := lastFat; lb_LastConfigBlockNum := lastConfigBlockNumber |} in
  let d := {| OrgBlockNumber := bh_Number header; Authpath := []; ob_Hash := bh_DataHash header; TxnIndexList := txnIdxList;
              PrevioushHash := bh_PreviousHash header; PrevFatblockNumber := SourceFatBlockNum head;
              ob_LastConfigBlockNum := lastConfigBlockNumber; MetadataSignature := []; MetadataLastConfig := [];
              SparseBlockFilter := sparseFilterBytes |} in
  '(orgBlock, d) ← addMetadataFields cs orgBlock d;
  Ok (orgBlock, d, head).
Definition skeleton_one (cs : ChainSupport) (configBlockCheck : bool) (filters : gmap bytes SparseTxnFilterProto) (lastFat : Z)
    (sk : skeleton) (p : bytes * (Block * list Z)) : res skeleton :=
  let '(orgId, (orgBlock, txnIdxList)) := p in
  '(orgBlock, d, head) ← finish_org cs configBlockCheck filters lastFat (sk_heads sk !! orgId) orgId orgBlock txnIdxList;
  Ok {| sk_blocks := <[orgId := orgBlock]> (sk_blocks sk); sk_details := <[orgId := d]> (sk_details sk);
        sk_heads := <[orgId := head]> (sk_heads sk) |}.
Definition storeOrgBlockSkeleton (cs : ChainSupport) (localOrgBlocks : gmap bytes (Block * list Z)) (configBlockCheck : bool)
    (filters : gmap bytes SparseTxnFilterProto) (chHeader : ChannelHeadInfoProto) : res skeleton :=
  foldM (skeleton_one cs configBlockCheck filters (LastFatBlockNumberProcessed chHeader))
    {| sk_blocks := ∅; sk_details := ∅; sk_heads := OrgHeadPostion chHeader |} (map_to_list localOrgBlocks).

(** The header to start from: an orderer that switches over in the middle of a
    chain starts the chains at the last block, and records its number as the
    savepoint. *)
Definition startHeader (cs : ChainSupport) (number : Z) (chHeader : ChannelHeadInfoProto) : res (ChannelHeadInfoProto * option Z) :=
  if decide (OrgHeadPostion chHeader = ∅) then
    if decide (number ≠ 0%Z) then
      fatblock ← deref (cs_LastProcessed cs);
      header ← deref (b_Header fatblock);
      let savepoint := bh_Number header in
      lastConfigValue ← (if IsConfigBlock fatblock then Ok number
        else match GetLastConfigIndexFromBlock fatblock with Ok i => Ok i | Err _ => Ok 0%Z | Panic => Panic end);
      let m := {| LastOrgBlockNum := savepoint; LastOrgBlockHash := BlockHeaderHash header;
                  SourceFatBlockNum := savepoint; lb_LastConfigBlockNum := lastConfigValue |} in
      Ok ({| LastFatBlockNumberProcessed := savepoint;
             OrgHeadPostion := <[LitePeerChainId := m]> {[cs_ChannelID cs := m]} |}, Some savepoint)
    else Ok ({| LastFatBlockNumberProcessed := 0; OrgHeadPostion := ∅ |}, None)
  else Ok (chHeader, None).

Definition createOrgBlocks (cs : ChainSupport) (blk : Block) (chHeader : ChannelHeadInfoProto) (versionDB : S) (mvccApplicable : bool) :
    res (gmap bytes Block * FatBlockMerkleInfoProto * ChannelHeadInfoProto * option Z * S) :=
  header ← deref (b_Header blk);
  '(chHeader, savepoint) ← startHeader cs (bh_Number header) chHeader;
  let configBlockCheck := IsConfigBlock blk in
  '(ag, blk) ← aggregateOrgEnvelope blk [cs_ChannelID cs] mvccApplicable versionDB;
  versionDB ← (if mvccApplicable then OrPanic (od_ApplyBatch versionDB (ag_mvcc ag)) else Ok versionDB);
  let localOrgBlocks := map_imap (λ orgId l, Some (next_org_block (OrgHeadPostion chHeader) configBlockCheck (b_BlockType blk) orgId l)) (ag_envs ag) in
  let chHeader := {| LastFatBlockNumberProcessed := bh_Number header; OrgHeadPostion := OrgHeadPostion chHeader |} in
  sk ← storeOrgBlockSkeleton cs localOrgBlocks configBlockCheck (ag_filters ag) chHeader;
  Ok (sk_blocks sk, {| MerkleRoot := []; OrgHashMap := sk_details sk |},
      {| LastFatBlockNumberProcessed := bh_Number header; OrgHeadPostion := sk_heads sk |}, savepoint, versionDB).
End generator.

(** ** Which transactions an organisation gets *)

Definition info_of (td : TxnDetails) : TxnInfoProto := {| IndexInFatBlock := td_Indx td; TxnMVCCStatus := td_TxnMVCCStatus td |}.
Definition nonempty {A} (l : list A) : option (list A) := match l with [] => None | _ => Some l end.

(** The filters and the lists agree on the lists [L], and an organisation
    without transactions is in neither map. *)
Definition aligned (number : Z) (ag : aggregate) (L : bytes → list TxnDetails) : Prop := ∀ org,
  ag_envs ag !! org = nonempty (L org) ∧
  ag_filters ag !! org = (λ l, {| FatBlockNumber := number; TxnInfoList := info_of <$> l |}) <$> nonempty (L org).

(** The transactions that name the organisation, once for every time. *)
Definition sent_to (l : list (TxnDetails * list bytes)) (org : bytes) : list TxnDetails :=
  l ≫= λ '(td, orgs), (λ _, td) <$> filter (λ o, o = org) orgs.

Lemma nonempty_snoc {A} (l : list A) x : nonempty (l ++ [x]) = Some (l ++ [x]).
Proof. by destruct l. Qed.
Lemma nonempty_Some {A} (l : list A) : l ≠ [] → nonempty l = Some l.
Proof. by destruct l. Qed.
Lemma default_nonempty {A} (l : list A) : default [] (nonempty l) = l.
Proof. by destruct l. Qed.

Lemma add_txn_aligned number td ag L org : aligned number ag L →
  aligned number (add_txn number td ag org) (λ o, L o ++ (if decide (org = o) then [td] else [])).
Proof.
  intros Hal o. destruct (Hal org) as [He Hf]. unfold add_txn; simpl. rewrite He, Hf, default_nonempty.
  destruct (decide (org = o)) as [->|Hne].
  - rewrite !lookup_insert_eq, nonempty_snoc. split; [done|]. simpl. f_equal. rewrite fmap_app. by destruct (L o).
  - rewrite !lookup_insert_ne, app_nil_r by done. apply Hal.
Qed.

Lemma foldl_add_txn_aligned number td orgs : ∀ ag L, aligned number ag L →
  aligned number (foldl (add_txn number td) ag orgs) (λ o, L o ++ ((λ _, td) <$> filter (λ o', o' = o) orgs)).
Proof.
  induction orgs as [|org orgs IH]; intros ag L Hal; cbn [foldl].
  - intros o. rewrite app_nil_r. apply Hal.
  - specialize (IH _ _ (add_txn_aligned number td ag L org Hal)). intros o. specialize (IH o). cbv beta in IH.
    rewrite filter_cons. destruct (decide (org = o)); rewrite <-app_assoc in IH; exact IH.
Qed.

Section contents.
Context `{!Sha256} `{!ProtoMessage KVRWSet, !ProtoMessage HashedRWSet, !ProtoMessage TxReadWriteSet}.
Context `{!ProtoMessage Envelope, !ProtoMessage Payload, !ProtoPartial Payload, !ProtoMessage ChannelHeader, !ProtoMessage SignatureHeader}.
Context `{!ProtoMessage SerializedIdentity, !ProtoPartial SerializedIdentity, !ProtoMessage ChaincodeEvent, !ProtoPartial ChaincodeEvent}.
Context `{!ProtoMessage Transaction, !ProtoMessage ChaincodeActionPayload}.
Context `{!ProtoMessage ProposalResponsePayload, !ProtoMessage ChaincodeAction}.
Context {S : Type} `{!KVersionStoreHandler S}.

(** The organisations a transaction is sent to: all chains of the channel for a
    configuration, approve or commit transaction, those it names for an endorser
    transaction, none for any other. *)
Definition recipients (orgsFromConfig : list bytes) (envBytes : bytes) : res (list bytes) :=
  '(txnEnv, txType, txnChanHdr) ← parse_txn envBytes;
  if decide (txType = HeaderType_CONFIG) then Ok (orgsFromConfig ++ [LitePeerChainId])
  else
    txRWSet ← txn_rwset txnEnv txType;
    match txRWSet with
    | None => Ok []
    | Some _ =>
        orgList ← txn_orgs txnEnv txnChanHdr orgsFromConfig;
        Ok (if bool_decide (txType = HeaderType_APPROVE) || bool_decide (txType = HeaderType_COMMIT)
            then orgsFromConfig ++ [LitePeerChainId] else orgList)
    end.

Lemma aggregate_one_aligned number cfg mvcc (db : S) ag i b ag' L :
  aligned number ag L → aggregate_one number cfg mvcc db ag (i, b) = Ok ag' →
  ∃ st orgs, recipients cfg b = Ok orgs ∧
    aligned number ag' (λ o, L o ++ ((λ _, {| td_Indx := Z.of_nat i; td_TxnEnvBytes := b; td_TxnMVCCStatus := st |}) <$> filter (λ o', o' = o) orgs)).
Proof.
  intros Hal Hok. unfold aggregate_one in Hok. unfold recipients. apply bind_Ok in Hok as ([[env ty] ch] & -> & Hok). run.
  destruct (decide (ty = HeaderType_CONFIG)).
  - injection Hok as <-. exists 0%Z. eexists. split; [done|]. by apply foldl_add_txn_aligned.
  - apply bind_Ok in Hok as (rw & -> & Hok). run. destruct rw as [rw|].
    + apply bind_Ok in Hok as (orgs & -> & Hok). run. apply bind_Ok in Hok as ([m st] & _ & Hok).
      exists st. eexists. split; [done|]. destruct (_ || _); injection Hok as <-; by apply foldl_add_txn_aligned.
    + injection Hok as <-. exists 0%Z, []. split; [done|]. intros o. rewrite app_nil_r. apply Hal.
Qed.

(** One entry per transaction of the fat block. *)
Definition described (cfg : list bytes) (start : nat) (data : list bytes) (l : list (TxnDetails * list bytes)) : Prop :=
  length l = length data ∧
  ∀ i b, data !! i = Some b → ∃ st orgs, recipients cfg b = Ok orgs ∧
    l !! i = Some ({| td_Indx := Z.of_nat (start + i); td_TxnEnvBytes := b; td_TxnMVCCStatus := st |}, orgs).

Lemma foldM_aggregate_aligned number cfg mvcc (db : S) data : ∀ start ag ag' L, aligned number ag L →
  foldM (aggregate_one number cfg mvcc db) ag (imap (λ i d, (start + i, d)) data) = Ok ag' →
  ∃ l, described cfg start data l ∧ aligned number ag' (λ o, L o ++ sent_to l o).
Proof.
  induction data as [|b data IH]; intros start ag ag' L Hal Hf.
  - injection Hf as <-. exists []. split; [split; done|]. intros o. rewrite app_nil_r. apply Hal.
  - rewrite imap_cons in Hf. cbn [foldM] in Hf. apply bind_Ok in Hf as (ag1 & Hs & Hf). rewrite Nat.add_0_r in Hs.
    destruct (aggregate_one_aligned _ _ _ _ _ _ _ _ _ Hal Hs) as (st & orgs & Hr & Hal1).
    erewrite (imap_ext _ (λ i d, (Datatypes.S start + i, d))) in Hf by (intros; simpl; by rewrite Nat.add_succ_r).
    destruct (IH _ _ _ _ Hal1 Hf) as (l & [Hlen Hl] & Hal2).
    exists (({| td_Indx := Z.of_nat start; td_TxnEnvBytes := b; td_TxnMVCCStatus := st |}, orgs) :: l). split; [split|].
    + simpl. by rewrite Hlen.
    + intros [|i] b' Hb; simpl in *.
      * injection Hb as <-. exists st, orgs. split; [done|]. by rewrite Nat.add_0_r.
      * rewrite Nat.add_succ_r. by apply Hl.
    + intros o. specialize (Hal2 o). cbv beta in Hal2. rewrite <-app_assoc in Hal2. exact Hal2.
Qed.

Lemma aggregate_aligned blk cfg mvcc (db : S) ag blk' : aggregateOrgEnvelope blk cfg mvcc db = Ok (ag, blk') →
  ∃ h data l, b_Header blk = Some h ∧ b_Data blk = Some data ∧ described cfg 0 data l ∧ aligned (bh_Number h) ag (sent_to l).
Proof.
  unfold aggregateOrgEnvelope. intros Hok. apply bind_Ok in Hok as (data & Hd & Hok). apply bind_Ok in Hok as (h & Hh & Hok).
  apply bind_Ok in Hok as (ag1 & Hf & [= <- _]). apply deref_Ok in Hd, Hh.
  destruct (foldM_aggregate_aligned (bh_Number h) cfg mvcc db data 0 empty_aggregate ag1 (λ _, [])) as (l & Hl & Hal); [by intros o|done|].
  exists h, data, l. split_and!; done.
Qed.
End contents.

(** ** The finished blocks *)

Section blocks.
Context `{!Sha256} `{!ProtoMessage SignatureHeader}.
Context `{!ProtoMessage MetadataMsg, !ProtoMessage OrdererBlockMetadata, !ProtoMessage LastConfig, !ProtoMessage SparseTxnFilterProto}.

Lemma set_metadata_spec b i v b' : set_metadata b i v = Ok b' →
  b_Header b' = b_Header b ∧ b_Data b' = b_Data b ∧ b_BlockType b' = b_BlockType b ∧
  ∃ md, b_Metadata b = Some md ∧ i < length md ∧ b_Metadata b' = Some (<[i := v]> md).
Proof.
  unfold set_metadata. intros Hok. apply bind_Ok in Hok as (md & Hmd%deref_Ok & Hok). destruct (decide _); [|done].
  injection Hok as <-. simpl. eauto 10.
Qed.

(** What is left of the metadata, and what is kept of it for later. *)
Lemma addMetadataFields_spec cs b d b' d' : addMetadataFields cs b d = Ok (b', d') →
  b_Header b' = b_Header b ∧ b_Data b' = b_Data b ∧ b_BlockType b' = b_BlockType b ∧
  OrgBlockNumber d' = OrgBlockNumber d ∧ ob_Hash d' = ob_Hash d ∧ TxnIndexList d' = TxnIndexList d ∧
  PrevioushHash d' = PrevioushHash d ∧ SparseBlockFilter d' = SparseBlockFilter d ∧
  ∃ md filter, b_Metadata b = Some md ∧ BlockMetadataIndex_SPARSE_TXN_FILTER < length md ∧
    Marshal {| md_Value := SparseBlockFilter d; md_Signatures := [] |} = Ok filter ∧
    b_Metadata b' = Some (<[BlockMetadataIndex_SIGNATURES := MetadataSignature d']> (<[BlockMetadataIndex_LAST_CONFIG := MetadataLastConfig d']>
      (<[BlockMetadataIndex_SPARSE_TXN_FILTER := filter]> md))).
Proof.
  unfold addMetadataFields, addOrgLastConfig, addOrgBlockSignature, MarshalOrPanic, OrPanic. intros Hok.
  apply bind_Ok in Hok as (filter & Hfil & Hok). destruct (Marshal {| md_Value := SparseBlockFilter d; md_Signatures := [] |}) eqn:Hm; try done.
  injection Hfil as ->.
  apply bind_Ok in Hok as (b1 & (Hh1 & Hd1 & Ht1 & md & Hmd & Hlen & Hmd1)%set_metadata_spec & Hok).
  apply bind_Ok in Hok as ([b2 d2] & Hlc & Hok). apply bind_Ok in Hlc as (lcv & _ & Hlc). apply bind_Ok in Hlc as (v & _ & Hlc).
  apply bind_Ok in Hlc as (b3 & (Hh3 & Hd3 & Ht3 & md3 & Hmd3 & Hlen3 & Hmd3')%set_metadata_spec & [= <- <-]).
  apply bind_Ok in Hok as (cm & _ & Hok). apply bind_Ok in Hok as (sh & _ & Hok). apply bind_Ok in Hok as (shb & _ & Hok).
  apply bind_Ok in Hok as (cmb & _ & Hok). apply bind_Ok in Hok as (bsv & _ & Hok). apply bind_Ok in Hok as (h & _ & Hok).
  apply bind_Ok in Hok as (sig & _ & Hok). apply bind_Ok in Hok as (sv & _ & Hok).
  apply bind_Ok in Hok as (b4 & (Hh4 & Hd4 & Ht4 & md4 & Hmd4 & Hlen4 & Hmd4')%set_metadata_spec & [= <- <-]). simpl.
  split_and!; [congruence..|done|done|done|done|done|]. exists md, filter. split_and!; [done..|]. rewrite Hmd4'. congruence.
Qed.

Lemma skeleton_fold cs cfg filters lastFat l : ∀ sk sk', NoDup l.*1 →
  foldM (skeleton_one cs cfg filters lastFat) sk l = Ok sk' →
  (∀ org b idx, (org, (b, idx)) ∈ l → ∃ b' d head,
    finish_org cs cfg filters lastFat (sk_heads sk !! org) org b idx = Ok (b', d, head) ∧
    sk_blocks sk' !! org = Some b' ∧ sk_details sk' !! org = Some d ∧ sk_heads sk' !! org = Some head) ∧
  (∀ org, org ∉ l.*1 → sk_blocks sk' !! org = sk_blocks sk !! org ∧ sk_details sk' !! org = sk_details sk !! org ∧
    sk_heads sk' !! org = sk_heads sk !! org).
Proof.
  induction l as [|[o [b0 idx0]] l IH]; intros sk sk' Hnd Hf.
  - injection Hf as <-. split; [by intros ??? ?%elem_of_nil|done].
  - cbn [foldM] in Hf. apply bind_Ok in Hf as (sk1 & Hs & Hf). csimpl in *. apply NoDup_cons in Hnd as [Ho Hnd].
    apply bind_Ok in Hs as ([[b1 d1] h1] & Hfin & [= <-]). destruct (IH _ _ Hnd Hf) as [Hin Hout]. simpl in *. split.
    + intros org b idx [[= -> -> ->]|Hl]%elem_of_cons.
      * exists b1, d1, h1. split; [done|]. destruct (Hout o Ho) as (-> & -> & ->). by rewrite !lookup_insert_eq.
      * destruct (Hin _ _ _ Hl) as (b' & d & head & Hfo & ?). exists b', d, head. split; [|done].
        rewrite lookup_insert_ne in Hfo; [done|]. intros ->. apply Ho. apply list_elem_of_fmap. by exists (org, (b, idx)).
    + intros org [Hne Hn]%not_elem_of_cons. destruct (Hout org Hn) as (-> & -> & ->). by rewrite !lookup_insert_ne by done.
Qed.

Lemma storeOrgBlockSkeleton_spec cs blocks cfg filters chHeader sk :
  storeOrgBlockSkeleton cs blocks cfg filters chHeader = Ok sk → ∀ org,
  match blocks !! org with
  | None => sk_blocks sk !! org = None ∧ sk_details sk !! org = None ∧ sk_heads sk !! org = OrgHeadPostion chHeader !! org
  | Some (b, idx) => ∃ b' d head,
      finish_org cs cfg filters (LastFatBlockNumberProcessed chHeader) (OrgHeadPostion chHeader !! org) org b idx = Ok (b', d, head) ∧
      sk_blocks sk !! org = Some b' ∧ sk_details sk !! org = Some d ∧ sk_heads sk !! org = Some head
  end.
Proof.
  unfold storeOrgBlockSkeleton. intros Hf org. apply skeleton_fold in Hf as [Hin Hout]; [|apply NoDup_fst_map_to_list].
  destruct (blocks !! org) as [[b idx]|] eqn:Hb.
  - apply (Hin org b idx). by apply elem_of_map_to_list.
  - destruct (Hout org) as (-> & -> & ->); [|by simpl; rewrite !lookup_empty].
    intros ([o p] & -> & Hp%elem_of_map_to_list)%list_elem_of_fmap. simpl in Hb. by rewrite Hb in Hp.
Qed.
End blocks.

Section create.
Context `{!Sha256} `{!ProtoMessage KVRWSet, !ProtoMessage HashedRWSet, !ProtoMessage TxReadWriteSet}.
Context `{!ProtoMessage Envelope, !ProtoMessage Payload, !ProtoPartial Payload, !ProtoMessage ChannelHeader, !ProtoMessage SignatureHeader}.
Context `{!ProtoMessage SerializedIdentity, !ProtoPartial SerializedIdentity, !ProtoMessage ChaincodeEvent, !ProtoPartial ChaincodeEvent}.
Context `{!ProtoMessage Transaction, !ProtoMessage ChaincodeActionPayload}.
Context `{!ProtoMessage ProposalResponsePayload, !ProtoMessage ChaincodeAction}.
Context `{!ProtoMessage MetadataMsg, !ProtoMessage OrdererBlockMetadata, !ProtoMessage LastConfig, !ProtoMessage SparseTxnFilterProto}.
Context {S : Type} `{!KVersionStoreHandler S}.

(** The number and the previous hash of the next block of a chain. *)
Definition next_position (head : option LastBlockMappingProto) : Z * bytes :=
  match head with Some h => (u64 (LastOrgBlockNum h + 1), LastOrgBlockHash h) | None => (0%Z, []) end.

(** The block of one organisation: its header continues the organisation's
    chain, its data are the given transactions, and the metadata hold the filter
    and what is kept in the details. *)
Definition org_block_of (number : Z) (head : option LastBlockMappingProto) (tds : list TxnDetails)
    (b : Block) (d : OrgBlockDetailsProto) (head' : LastBlockMappingProto) : Prop :=
  let oh := {| bh_Number := (next_position head).1; bh_PreviousHash := (next_position head).2; bh_DataHash := BlockDataHash (td_TxnEnvBytes <$> tds) |} in
  b_Header b = Some oh ∧ b_Data b = Some (td_TxnEnvBytes <$> tds) ∧
  LastOrgBlockNum head' = bh_Number oh ∧ LastOrgBlockHash head' = BlockHeaderHash oh ∧
  OrgBlockNumber d = bh_Number oh ∧ PrevioushHash d = bh_PreviousHash oh ∧ ob_Hash d = bh_DataHash oh ∧ TxnIndexList d = td_Indx <$> tds ∧
  SparseBlockFilter d = match Marshal {| FatBlockNumber := number; TxnInfoList := info_of <$> tds |} with Ok f => f | _ => [] end ∧
  ∃ filter, Marshal {| md_Value := SparseBlockFilter d; md_Signatures := [] |} = Ok filter ∧
    b_Metadata b = Some [MetadataSignature d; MetadataLastConfig d; []; []; []; []; []; []; filter].

Lemma finish_org_spec cs cfg filters number head org bt tds b d head' :
  filters !! org = Some {| FatBlockNumber := number; TxnInfoList := info_of <$> tds |} →
  (let p := next_org_block (from_option (λ h, {[org := h]}) ∅ head) cfg bt org tds in
   finish_org cs cfg filters number head org p.1 p.2 = Ok (b, d, head')) →
  org_block_of number head tds b d head' ∧ (cfg = false → is_Some head).
Proof.
  intros Hf Hok. unfold next_org_block in Hok.
  assert ((from_option (λ h, {[org := h]}) ∅ head : gmap bytes LastBlockMappingProto) !! org = head) as Hlook
    by (destruct head; simpl; [by rewrite lookup_singleton_eq|by rewrite lookup_empty]). rewrite Hlook in Hok.
  unfold finish_org in Hok. rewrite Hf in Hok.
  destruct (match head with Some _ => _ | None => _ end) as [prev num] eqn:Hpos.
  assert (next_position head = (num, prev)) as Hnext by (destruct head; by injection Hpos as <- <-).
  cbn in Hok. apply bind_Ok in Hok as (lc & Hlc & Hok). apply bind_Ok in Hok as ([b1 d1] & Ha & [= <- <- <-]).
  apply addMetadataFields_spec in Ha as (Hh & Hd & _ & Hn & Hha & Hti & Hph & Hsf & md & filter & [= <-] & _ & Hm & Hmd).
  split; [|intros ->; apply bind_Ok in Hlc as (? & ?%deref_Ok & _); by eexists].
  unfold org_block_of. rewrite Hnext. simpl. split_and!; try done. exists filter. split; [by rewrite Hsf|]. by rewrite Hmd.
Qed.

Lemma createOrgBlocks_spec cs blk chHeader (db : S) mvcc blocks info chHeader' sp db' :
  createOrgBlocks cs blk chHeader db mvcc = Ok (blocks, info, chHeader', sp, db') →
  ∃ h data l start, b_Header blk = Some h ∧ b_Data blk = Some data ∧ described [cs_ChannelID cs] 0 data l ∧
    startHeader cs (bh_Number h) chHeader = Ok (start, sp) ∧ LastFatBlockNumberProcessed chHeader' = bh_Number h ∧
    ∀ org, match nonempty (sent_to l org) with
    | None => blocks !! org = None ∧ OrgHashMap info !! org = None ∧ OrgHeadPostion chHeader' !! org = OrgHeadPostion start !! org
    | Some tds => ∃ b d head, blocks !! org = Some b ∧ OrgHashMap info !! org = Some d ∧ OrgHeadPostion chHeader' !! org = Some head ∧
        org_block_of (bh_Number h) (OrgHeadPostion start !! org) tds b d head ∧
        (IsConfigBlock blk = false → is_Some (OrgHeadPostion start !! org))
    end.
Proof.
  unfold createOrgBlocks. intros Hok. apply bind_Ok in Hok as (h & Hh%deref_Ok & Hok). apply bind_Ok in Hok as ([start sp0] & Hst & Hok).
  apply bind_Ok in Hok as ([ag blk'] & Hag & Hok). apply bind_Ok in Hok as (db0 & _ & Hok). apply bind_Ok in Hok as (sk & Hsk & [= <- <- <- -> <-]).
  apply aggregate_aligned in Hag as (h' & data & l & Hh' & Hd & Hl & Hal). assert (h' = h) as -> by congruence.
  exists h, data, l, start. split_and!; [done..|]. intros org. pose proof (storeOrgBlockSkeleton_spec _ _ _ _ _ _ Hsk org) as Hspec.
  destruct (Hal org) as [He Hf]. rewrite map_lookup_imap, He in Hspec. simpl in Hspec |- *. destruct (nonempty (sent_to l org)) as [tds|] eqn:Htds; [|done].
  simpl in Hspec, Hf. destruct (next_org_block _ _ _ _ _) as [b idx] eqn:Hnb. destruct Hspec as (b' & d & head & Hfin & Hb & Hdd & Hhd).
  exists b', d, head. do 3 (split; [done|]).
  refine (finish_org_spec cs _ _ (bh_Number h) _ org _ tds b' d head Hf _); simpl.
  replace (next_org_block (from_option _ _ _) _ _ org tds) with (b, idx); [exact Hfin|]. rewrite <-Hnb. unfold next_org_block.
  destruct (OrgHeadPostion start !! org); simpl; [by rewrite lookup_singleton_eq|by rewrite lookup_empty].
Qed.

(** ** What the peers receive *)

Context `{!ProtoNormalizes MetadataMsg id, !ProtoNormalizes SparseTxnFilterProto id}.

Lemma org_block_filter number head tds b d head' oh : org_block_of number head tds b d head' → b_Header b = Some oh →
  bh_Number oh ≠ 0%Z → tds ≠ [] →
  extractSparseFilter b = Ok ({| FatBlockNumber := number; TxnInfoList := info_of <$> tds |}, true).
Proof.
  intros (Hh & _ & _ & _ & _ & _ & _ & _ & Hsf & filter & Hm & Hmd) Hh' Hn Htds. unfold extractSparseFilter. rewrite Hh'. cbn [deref]. run.
  rewrite decide_False by done. rewrite Hmd. cbn [deref]. run. rewrite decide_False by (simpl; unfold BlockMetadataIndex_SPARSE_TXN_FILTER; lia).
  unfold index; simpl. rewrite (Unmarshal_Marshal_norm _ _ Hm). cbn [id]. run. simpl. rewrite Hsf.
  destruct (Marshal_total {| FatBlockNumber := number; TxnInfoList := info_of <$> tds |}) as [f Hf]. rewrite Hf, (Unmarshal_Marshal_norm _ _ Hf). cbn [id].
  rewrite decide_False; [done|]. simpl. rewrite length_fmap. by destruct tds.
Qed.

(** C9: what the orderer makes of a fat block. Every organisation that some
    transaction is sent to gets exactly one block, and no other does. Its data
    are the transactions sent to the organisation, in the order of the fat
    block; its header continues the chain of the organisation. A peer that reads
    the filter of the block finds the number of the fat block and, for every
    transaction, its position there, so that it commits each valid transaction
    at the height the transaction has in the fat block, the same in the blocks
    of all organisations. *)
Theorem org_blocks_exact cs blk chHeader (db : S) mvcc blocks info chHeader' sp db'
    (Hok : createOrgBlocks cs blk chHeader db mvcc = Ok (blocks, info, chHeader', sp, db')) :
  ∃ h data l start, b_Header blk = Some h ∧ b_Data blk = Some data ∧ described [cs_ChannelID cs] 0 data l ∧
    startHeader cs (bh_Number h) chHeader = Ok (start, sp) ∧
    ∀ org, (sent_to l org = [] ∧ blocks !! org = None) ∨
      (sent_to l org ≠ [] ∧ ∃ b oh, blocks !! org = Some b ∧ b_Header b = Some oh ∧
         (bh_Number oh, bh_PreviousHash oh) = next_position (OrgHeadPostion start !! org) ∧
         b_Data b = Some (td_TxnEnvBytes <$> sent_to l org) ∧ bh_DataHash oh = BlockDataHash (td_TxnEnvBytes <$> sent_to l org) ∧
         (bh_Number oh ≠ 0%Z → ∃ filter, extractSparseFilter b = Ok (filter, true) ∧
            ∀ (txs : list transaction) tx td, sent_to l org !! indexInBlock tx = Some td →
              committingTxHeight {| blk_num := bh_Number oh; blk_txs := txs; sparseblockchainFilter := filter; sparseFilterExists := true |} tx =
              Ok (NewHeight (bh_Number h) (td_Indx td)))).
Proof.
  destruct (createOrgBlocks_spec _ _ _ _ _ _ _ _ _ _ Hok) as (h & data & l & start & Hh & Hd & Hl & Hst & _ & Horg).
  exists h, data, l, start. split_and!; [done..|]. intros org. specialize (Horg org). destruct (decide (sent_to l org = [])) as [Hs|Hs]; [left; rewrite Hs in Horg; split; [done|apply Horg]|].
  right. split; [done|]. rewrite (nonempty_Some _ Hs) in Horg. destruct Horg as (b & d & head & Hb & _ & _ & Hof & _).
  pose proof Hof as (Hbh & Hbd & _). exists b. eexists. split_and!; [done|exact Hbh| |done|done|]; [by destruct (next_position _)|].
  intros Hn. eexists. split; [by eapply org_block_filter|]. intros txs tx td Htd. unfold committingTxHeight. simpl in Hn |- *.
  rewrite bool_decide_eq_false_2 by done. cbn [negb andb]. unfold index. rewrite list_lookup_fmap, Htd. done.
Qed.
End create.
