(* ===== verification/OrgChain.v ===== *)
(** * Storage and delivery of the blocks of the organisations

  Models the part of common/sparseblocks that keeps the blocks of the
  organisations and serves them to the peers: storeBlockData, syncOrderer and
  the loop of processFatBlocks (sparseblockgenerator.go), the lookup of a block
  in the cache or its assembly from the fat block, the height of a chain and
  the iterator (sparseblockchain.go, sparseblockdeliver.go).

  The metadata store is the LevelDB handle of the channel's block files
  (blkstorage), used through [SparseMetadataReadWriter]. The cache is the
  library fastcache, a parameter: it may drop entries at any time. *)

From S2P Require Import Prelude SortedMap Encoding Version Separated StateDB Proto Rwset LevelDB StateLevelDB PrivState.
From S2P Require Import TxOps SparseTypes Validator LiteRwset LiteValidator Block BlockVerify LeanEnvelope BatchPreparer OrdererMVCC SparseBlocks.
From stdpp Require Import pretty options.
Local Open Scope nat_scope.
Set Default Proof Using "Type*".

(** ** The metadata store *)

(** blockledger.SparseMetadataReadWriter: [AppendOrgBlockIndex],
    [AppendOrgMerkleInfo], [SaveChannelHeadInfo] and [AppendSavePoint] are all
    [meta_Put], and [GetOrgMetaValue] and [GetSavePoint] are [meta_Get]. *)
Class SparseMetadataReadWriter (M : Type) := {
  meta_Put : M → bytes → bytes → res M;
  meta_Get : M → bytes → res (option bytes)
}.
Class SparseMetadataLaws (M : Type) `{!SparseMetadataReadWriter M} (bindings : M → gmap bytes bytes) : Prop := {
  meta_Put_law m k v : ∃ m', meta_Put m k v = Ok m' ∧ bindings m' = <[k := v]> (bindings m);
  meta_Get_law m k : meta_Get m k = Ok (bindings m !! k)
}.

(** The handle of the channel's block index. *)
#[export] Instance blockfileMgr_metadata {L} `{!GoLevelDB L} : SparseMetadataReadWriter (L * bytes) := {
  meta_Put m k v := db ← DBHandle_Put m.2 m.1 k v; Ok (db, m.2);
  meta_Get m k := DBHandle_Get m.2 m.1 k
}.

(** fastcache: a value that was set may be dropped; then [GetBig] returns the
    empty slice. *)
Class Cache (C : Type) := { cache_New : C; SetBig : C → bytes → bytes → C; GetBig : C → bytes → bytes }.
Class CacheLaws (C : Type) `{!Cache C} : Prop := {
  GetBig_New k : GetBig cache_New k = [];
  GetBig_SetBig c k v k' : GetBig (SetBig c k v) k' = [] ∨ GetBig (SetBig c k v) k' = if decide (k = k') then v else GetBig c k'
}.

(** ** Keys *)

Definition dot : byte := x2e.
Definition orgBlockKey (channelID orgID : bytes) (n : Z) : bytes := channelID ++ dot :: orgID ++ dot :: decimal n.
Definition merkleInfoKey (channelID : bytes) (n : Z) : bytes := channelID ++ dot :: decimal n.
Definition headInfoKey (channelID : bytes) : bytes := channelID ++ B ".ChannelHeadInfo".
Definition savepointKey (channelID : bytes) : bytes := B "savepoint-" ++ channelID.

(** ** The state of a channel *)

Record ChannelOrgChains (S M C : Type) := {
  oc_chHeader : ChannelHeadInfoProto;
  oc_versionDB : S;
  oc_meta : M;
  oc_orgChainMap : gmap bytes C;
  oc_container : gmap bytes bytes
}.
Arguments oc_chHeader {S M C}.
Arguments oc_versionDB {S M C}.
Arguments oc_meta {S M C}.
Arguments oc_orgChainMap {S M C}.
Arguments oc_container {S M C}.
Arguments Build_ChannelOrgChains {S M C}.

Section store.
Context {S M C : Type} `{!SparseMetadataReadWriter M} `{!Cache C}.
Context `{!ProtoMessage Block, !ProtoMessage FatBlockMerkleInfoProto, !ProtoMessage ChannelHeadInfoProto}.
Notation chains := (ChannelOrgChains S M C).

Definition store_org_block (channelID : bytes) (fatNumber : Z) (st : gmap bytes C * M) (p : bytes * Block) : res (gmap bytes C * M) :=
  let '(orgChainMap, meta) := st in
  let '(orgID, orgBlock) := p in
  orgBlockBytes ← MarshalOrPanic orgBlock;
  let cache := default cache_New (orgChainMap !! orgID) in
  header ← deref (b_Header orgBlock);
  let orgChainMap := <[orgID := SetBig cache (PutUint64 (bh_Number header)) orgBlockBytes]> orgChainMap in
  meta ← meta_Put meta (orgBlockKey channelID orgID (bh_Number header)) (PutUint64 fatNumber);
  Ok (orgChainMap, meta).

Definition storeBlockData (channelID : bytes) (fatNumber : Z) (st : chains) (orgBlockMap : gmap bytes Block)
    (fatBlockMerkleInfo : FatBlockMerkleInfoProto) (newChHeader : ChannelHeadInfoProto) (versionDB : S) (savepoint : option Z) : res chains :=
  (* the savepoint is written by createOrgBlocks *)
  meta ← match savepoint with
         | Some n => OrPanic (meta_Put (oc_meta st) (savepointKey channelID) (PutUint64 n))
         | None => Ok (oc_meta st)
         end;
  '(orgChainMap, meta) ← foldM (store_org_block channelID fatNumber) (oc_orgChainMap st, meta) (map_to_list orgBlockMap);
  fatBlockMerkleInfoBytes ← Marshal fatBlockMerkleInfo;
  channelHeaderMetadataBytes ← Marshal newChHeader;
  meta ← meta_Put meta (merkleInfoKey channelID (LastFatBlockNumberProcessed newChHeader)) fatBlockMerkleInfoBytes;
  let container := <[headInfoKey channelID := channelHeaderMetadataBytes]> (oc_container st) in
  meta ← meta_Put meta (headInfoKey channelID) channelHeaderMetadataBytes;
  Ok {| oc_chHeader := newChHeader; oc_versionDB := versionDB; oc_meta := meta; oc_orgChainMap := orgChainMap; oc_container := container |}.

Definition getChannelHeader (channelID : bytes) (meta : M) : res ChannelHeadInfoProto :=
  channelMetadataBytes ← meta_Get meta (headInfoKey channelID);
  match channelMetadataBytes with
  | None => Ok {| LastFatBlockNumberProcessed := 0; OrgHeadPostion := ∅ |}
  | Some b => OrPanic (Unmarshal b)
  end.
End store.

(** ** Processing fat blocks *)

Section process.
Context `{!Sha256} `{!ProtoMessage KVRWSet, !ProtoMessage HashedRWSet, !ProtoMessage TxReadWriteSet}.
Context `{!ProtoMessage Envelope, !ProtoMessage Payload, !ProtoPartial Payload, !ProtoMessage ChannelHeader, !ProtoMessage SignatureHeader}.
Context `{!ProtoMessage SerializedIdentity, !ProtoPartial SerializedIdentity, !ProtoMessage ChaincodeEvent, !ProtoPartial ChaincodeEvent}.
Context `{!ProtoMessage Transaction, !ProtoMessage ChaincodeActionPayload}.
Context `{!ProtoMessage ProposalResponsePayload, !ProtoMessage ChaincodeAction}.
Context `{!ProtoMessage MetadataMsg, !ProtoMessage OrdererBlockMetadata, !ProtoMessage LastConfig, !ProtoMessage SparseTxnFilterProto}.
Context `{!ProtoMessage Block, !ProtoMessage FatBlockMerkleInfoProto, !ProtoMessage ChannelHeadInfoProto}.
Context {S M C : Type} `{!KVersionStoreHandler S} `{!SparseMetadataReadWriter M} `{!Cache C}.
Notation chains := (ChannelOrgChains S M C).
(** [fat n] is what an iterator of the fat chain at position [n] returns. *)
Context (cs : ChainSupport) (mvccApplicable : bool) (fat : Z → option Block).

Definition process_block (st : chains) (fatBlock : Block) : res chains :=
  '(orgBlockMap, fatBlockMerkleInfo, newChHeader, savepoint, versionDB) ←
    createOrgBlocks cs fatBlock (oc_chHeader st) (oc_versionDB st) mvccApplicable;
  header ← deref (b_Header fatBlock);
  storeBlockData (cs_ChannelID cs) (bh_Number header) st orgBlockMap fatBlockMerkleInfo newChHeader versionDB savepoint.

Definition syncOrderer (latestFatBlockNumber nextBlockToBeProcessed : Z) (st : chains) : res chains :=
  foldM (λ st i, fatBlock ← deref (fat (u64 (nextBlockToBeProcessed + Z.of_nat i))); process_block st fatBlock) st
    (seq 0 (Z.to_nat (u64 (latestFatBlockNumber - nextBlockToBeProcessed)))).

(** A block received from the channel; a gap is filled from the fat chain
    first. *)
Definition process_received (st : chains) (fatBlock : Block) : res chains :=
  header ← deref (b_Header fatBlock);
  let next := u64 (LastFatBlockNumberProcessed (oc_chHeader st) + 1) in
  st ← (if decide (bh_Number header ≠ 0 ∧ next < bh_Number header)%Z
        then OrPanic (syncOrderer (bh_Number header) next st) else Ok st);
  process_block st fatBlock.

(** The loop over the blocks received so far. *)
Definition processFatBlocks (st : chains) (received : list Block) : res chains :=
  chHeader ← getChannelHeader (cs_ChannelID cs) (oc_meta st);
  let st := {| oc_chHeader := chHeader; oc_versionDB := oc_versionDB st; oc_meta := oc_meta st;
               oc_orgChainMap := oc_orgChainMap st; oc_container := oc_container st |} in
  st ← match decide (OrgHeadPostion chHeader = ∅), cs_LastProcessed cs with
       | left _, Some blk =>
           header ← deref (b_Header blk);
           fatBlock ← deref (fat (u64 (bh_Number header + 1)));
           process_block st fatBlock
       | _, _ => Ok st
       end;
  foldM process_received st received.
End process.

(** ** Retrieval *)

(** orderer.SeekPosition; [SeekOther] is a position without a type. *)
Inductive SeekPosition := SeekOldest | SeekNewest | SeekSpecified (n : Z) | SeekNextCommit | SeekOther.
Record orgCacheIterator := { oci_blockNumber : Z; oci_maxAvailableBlockNum : Z }.
(** [Waiting]: the call blocks until the chain grows. *)
Inductive next_result := Delivered (b : Block) (oci : orgCacheIterator) | Unavailable | Waiting.

Section retrieve.
Context {S M C : Type} `{!SparseMetadataReadWriter M} `{!Cache C}.
Context `{!ProtoMessage Block, !ProtoMessage FatBlockMerkleInfoProto, !ProtoMessage ChannelHeadInfoProto}.
Notation chains := (ChannelOrgChains S M C).
(** [reader] is RetrieveBlockByNumber of the fat chain; [MarshalNil] is what
    the protobuf library makes of a nil block. *)
Context (channelId mspId : bytes) (reader : Z → res Block) (MarshalNil : res bytes).

Definition OrgChainStore_Height (st : chains) : res Z :=
  ChannelMetadataBytes ← match oc_container st !! headInfoKey channelId with
    | Some b => Ok (Some b)
    | None => match meta_Get (oc_meta st) (headInfoKey channelId) with Ok r => Ok r | Err _ => Ok None | Panic => Panic end
    end;
  chHeader ← OrPanic (Unmarshal (A := ChannelHeadInfoProto) (default [] ChannelMetadataBytes));
  Ok (match OrgHeadPostion chHeader !! mspId with None => 0%Z | Some h => u64 (LastOrgBlockNum h + 1) end).

(** [binary.BigEndian.Uint64] of a slice that may be too short. *)
Definition read_Uint64 (b : bytes) : res Z := if decide (length b < 8) then Panic else Ok (Uint64 (take 8 b)).

(** A block that is not in the index gives the empty info and no error. *)
Definition searchAndRetreiveFatBlockMerkleInfo (meta : M) (orgblockNumber : Z) : res (FatBlockMerkleInfoProto * Z) :=
  fatBlockNumberBytes ← meta_Get meta (orgBlockKey channelId mspId orgblockNumber);
  match fatBlockNumberBytes with
  | None => Ok ({| MerkleRoot := []; OrgHashMap := ∅ |}, 0%Z)
  | Some b =>
      fatBlockNumber ← read_Uint64 b;
      fatBlockMerkleInfoBytes ← meta_Get meta (merkleInfoKey channelId fatBlockNumber);
      fatBlockMerkleInfo ← OrPanic (Unmarshal (default [] fatBlockMerkleInfoBytes));
      Ok (fatBlockMerkleInfo, fatBlockNumber)
  end.

Definition retrieveTxnListForOrgBlock (blk : Block) (txnIdxList : list Z) : res (list bytes) :=
  mapM (λ txnIdx, data ← deref (b_Data blk); index data (Z.to_nat txnIdx)) txnIdxList.

Definition assembleOrgBlock (fatblockMerkleInfo : FatBlockMerkleInfoProto) (fatBlockNum : Z) : res Block :=
  fatBlock ← OrPanic (reader fatBlockNum);
  d ← deref (OrgHashMap fatblockMerkleInfo !! mspId);
  txnEnvelopeByteList ← retrieveTxnListForOrgBlock fatBlock (TxnIndexList d);
  let orgBlock := NewBlock (OrgBlockNumber d) (PrevioushHash d) in
  let orgBlock := {| b_Header := Some {| bh_Number := OrgBlockNumber d; bh_PreviousHash := PrevioushHash d; bh_DataHash := ob_Hash d |};
                     b_Data := Some txnEnvelopeByteList; b_Metadata := b_Metadata orgBlock; b_BlockType := b_BlockType orgBlock |} in
  orgBlock ← set_metadata orgBlock BlockMetadataIndex_LAST_CONFIG (MetadataLastConfig d);
  orgBlock ← set_metadata orgBlock BlockMetadataIndex_SIGNATURES (MetadataSignature d);
  set_metadata orgBlock BlockMetadataIndex_SPARSE_TXN_FILTER (SparseBlockFilter d).

(** A missing savepoint counts as 0. *)
Definition lastProcessedOrdBlk (meta : M) : res Z :=
  match meta_Get meta (savepointKey channelId) with
  | Ok (Some b) => read_Uint64 b
  | Ok None | Err _ => Ok 0%Z
  | Panic => Panic
  end.
Definition retriveOrgBlockByNum (blockNum : Z) (store : C) (meta : M) : res Block :=
  let blockBytes := GetBig store (PutUint64 blockNum) in
  if decide (length blockBytes ≠ 0) then OrPanic (Unmarshal blockBytes)
  else
    last ← lastProcessedOrdBlk meta;
    if decide (blockNum <= last)%Z then reader blockNum
    else
      '(fatBlockMerkleInfo, fatBlockNumber) ← searchAndRetreiveFatBlockMerkleInfo meta blockNum;
      assembleOrgBlock fatBlockMerkleInfo fatBlockNumber.

(** The bytes of a block and whether they could be found. *)
Definition OrgChainStore_Get (key : bytes) (store : C) (meta : M) : res (bytes * bool) :=
  let blockBytes := GetBig store key in
  if decide (length blockBytes ≠ 0) then Ok (blockBytes, true)
  else
    blockNumKey ← read_Uint64 key;
    match retriveOrgBlockByNum blockNumKey store meta with
    | Panic => Panic
    | Ok block => b ← MarshalOrPanic block; Ok (b, true)
    | Err _ => b ← OrPanic MarshalNil; Ok (b, false)
    end.

(** The iterator and its first block, or [None] for the iterator that finds
    nothing. *)
Definition OrgChainStore_Iterator (st : chains) (seekPosition : SeekPosition) : res (option (orgCacheIterator * Z)) :=
  start ← match seekPosition with
    | SeekOldest => Ok (Some 0%Z)
    | SeekNewest => height ← OrgChainStore_Height st; Ok (Some (u64 (height - 1)))
    | SeekSpecified n => height ← OrgChainStore_Height st; Ok (if decide (height < n)%Z then None else Some n)
    | SeekNextCommit => height ← OrgChainStore_Height st; Ok (Some height)
    | SeekOther => Ok None
    end;
  match start with
  | None => Ok None
  | Some n =>
      height ← OrgChainStore_Height st;
      Ok (Some ({| oci_blockNumber := n; oci_maxAvailableBlockNum := u64 (height - 1) |}, n))
  end.

Definition orgCacheIterator_Next (st : chains) (oci : orgCacheIterator) : res next_result :=
  let n := oci_blockNumber oci in
  max ← (if decide (oci_maxAvailableBlockNum oci < n)%Z then
           height ← OrgChainStore_Height st;
           Ok (if decide (height <= n)%Z then None else Some (u64 (height - 1)))
         else Ok (Some (oci_maxAvailableBlockNum oci)));
  match max with
  | None => Ok Waiting
  | Some max =>
      let store := default cache_New (oc_orgChainMap st !! mspId) in
      '(result, ok) ← OrgChainStore_Get (PutUint64 n) store (oc_meta st);
      if negb ok || bool_decide (length result = 0) then Ok Unavailable
      else
        block ← OrPanic (Unmarshal result);
        Ok (Delivered block {| oci_blockNumber := u64 (n + 1); oci_maxAvailableBlockNum := max |})
  end.
End retrieve.

(** ** Keys do not clash *)

Lemma decimal_no_dot n : dot ∉ decimal n.
Proof. intros Hin. pose proof (proj1 (Forall_forall _ _) (decimal_digits n) _ Hin) as Hd. by apply (bool_decide_pack _) in Hd. Qed.

(** A word without the separator splits at the last one. *)
Lemma last_sep_inj (d : byte) (a a' x x' : bytes) :
  d ∉ x → d ∉ x' → a ++ d :: x = a' ++ d :: x' → a = a' ∧ x = x'.
Proof.
  intros Hx Hx' Heq. apply (f_equal reverse) in Heq. rewrite !reverse_app, !reverse_cons, <-!app_assoc in Heq. cbn [app] in Heq.
  apply sep_inj in Heq as [Hr Ha]; [|by rewrite elem_of_reverse..]. split; by apply (inj reverse).
Qed.

Lemma orgBlockKey_inj ch o o' n n' : (0 ≤ n)%Z → (0 ≤ n')%Z → orgBlockKey ch o n = orgBlockKey ch o' n' → o = o' ∧ n = n'.
Proof.
  unfold orgBlockKey. intros Hn Hn' [= Heq]%(inj (app ch)). apply last_sep_inj in Heq as [-> Hd]; [|apply decimal_no_dot..].
  split; [done|]. by apply decimal_inj.
Qed.
Lemma merkleInfoKey_inj ch n n' : (0 ≤ n)%Z → (0 ≤ n')%Z → merkleInfoKey ch n = merkleInfoKey ch n' → n = n'.
Proof. unfold merkleInfoKey. intros Hn Hn' [= Heq]%(inj (app ch)). by apply decimal_inj. Qed.
Lemma merkle_ne_org ch o n n' : merkleInfoKey ch n ≠ orgBlockKey ch o n'.
Proof.
  unfold merkleInfoKey, orgBlockKey. intros [= Heq]%(inj (app ch)). apply (decimal_no_dot n). rewrite Heq. set_solver.
Qed.
Lemma head_ne_org ch o n : headInfoKey ch ≠ orgBlockKey ch o n.
Proof.
  unfold headInfoKey, orgBlockKey. intros Heq%(inj (app ch)). change (B ".ChannelHeadInfo") with (dot :: B "ChannelHeadInfo") in Heq.
  injection Heq as Heq. assert (dot ∉ B "ChannelHeadInfo") as Hno by by apply (bool_decide_unpack _). apply Hno. rewrite Heq. set_solver.
Qed.
Lemma head_ne_merkle ch n : headInfoKey ch ≠ merkleInfoKey ch n.
Proof.
  unfold headInfoKey, merkleInfoKey. intros Heq%(inj (app ch)). change (B ".ChannelHeadInfo") with (dot :: B "ChannelHeadInfo") in Heq.
  injection Heq as Heq. pose proof (decimal_digits n) as Hd. rewrite <-Heq in Hd. inversion Hd as [|? ? Hc]. by apply (bool_decide_pack _) in Hc.
Qed.
(** The savepoint has fewer dots. *)
Definition dots (l : bytes) : nat := length (filter (λ b, b = dot) l).
Lemma dots_app l k : dots (l ++ k) = dots l + dots k.
Proof. unfold dots. by rewrite filter_app, length_app. Qed.
Lemma dots_cons l : dots (dot :: l) = Datatypes.S (dots l).
Proof. unfold dots. by rewrite filter_cons_True. Qed.
Lemma savepoint_ne ch x : savepointKey ch ≠ ch ++ dot :: x.
Proof. unfold savepointKey. intros Heq%(f_equal dots). rewrite !dots_app, dots_cons in Heq. change (dots (B "savepoint-")) with 0 in Heq. lia. Qed.
Lemma orgBlockKey_org ch o o' n n' : orgBlockKey ch o n = orgBlockKey ch o' n' → o = o'.
Proof. unfold orgBlockKey. intros [= Heq]%(inj (app ch)). by apply last_sep_inj in Heq as [-> _]; [|apply decimal_no_dot..]. Qed.

Lemma read_Uint64_Put n : is_u64 n → read_Uint64 (PutUint64 n) = Ok n.
Proof.
  intros Hn. unfold read_Uint64. assert (length (PutUint64 n) = 8) as Hl by apply length_be_bytes. rewrite Hl, decide_False by lia.
  rewrite take_ge by lia. unfold Uint64. by rewrite PutUint64_val.
Qed.

(** ** What storing leaves behind *)

Section stored.
Context {S M C : Type} `{!SparseMetadataReadWriter M} {bindings : M → gmap bytes bytes} `{!SparseMetadataLaws M bindings} `{!Cache C}.
Context `{!ProtoMessage Block, !ProtoMessage FatBlockMerkleInfoProto, !ProtoMessage ChannelHeadInfoProto}.
Notation chains := (ChannelOrgChains S M C).

Lemma meta_Put_inv m k v m' : meta_Put m k v = Ok m' → bindings m' = <[k := v]> (bindings m).
Proof. intros Hp. destruct (meta_Put_law m k v) as (m1 & Hp1 & Hb). congruence. Qed.
Lemma MarshalOrPanic_Ok {A} `{!ProtoMessage A} (a : A) b : MarshalOrPanic a = Ok b ↔ Marshal a = Ok b.
Proof. unfold MarshalOrPanic, OrPanic. by destruct (Marshal a). Qed.

Definition cache_after (old : option C) (b : Block) (new : option C) : Prop := ∃ bs h,
  Marshal b = Ok bs ∧ b_Header b = Some h ∧ new = Some (SetBig (default cache_New old) (PutUint64 (bh_Number h)) bs).

Lemma store_fold ch fatNumber l : ∀ cm m cm' m', NoDup l.*1 → foldM (store_org_block ch fatNumber) (cm, m) l = Ok (cm', m') →
  (∀ org b, (org, b) ∈ l → cache_after (cm !! org) b (cm' !! org) ∧
     ∀ h, b_Header b = Some h → bindings m' !! orgBlockKey ch org (bh_Number h) = Some (PutUint64 fatNumber)) ∧
  (∀ org, org ∉ l.*1 → cm' !! org = cm !! org) ∧
  (∀ k, (∀ org b h, (org, b) ∈ l → b_Header b = Some h → k ≠ orgBlockKey ch org (bh_Number h)) → bindings m' !! k = bindings m !! k).
Proof.
  induction l as [|[o b0] l IH]; intros cm m cm' m' Hnd Hf; [injection Hf as <- <-; split_and!; [by intros ?? ?%elem_of_nil|done..]|].
  cbn [foldM] in Hf. apply bind_Ok in Hf as ([cm1 m1] & Hs & Hf). csimpl in *. apply NoDup_cons in Hnd as [Ho Hnd].
  apply bind_Ok in Hs as (bs & Hbs%MarshalOrPanic_Ok & Hs). apply bind_Ok in Hs as (h0 & Hh0%deref_Ok & Hs).
  apply bind_Ok in Hs as (m2 & Hm2%meta_Put_inv & [= <- <-]). destruct (IH _ _ _ _ Hnd Hf) as (Hin & Hout & Hk). split_and!.
  - intros org b [[= -> ->]|Hl]%elem_of_cons.
    + split; [exists bs, h0; split_and!; [done..|]; by rewrite (Hout o Ho), lookup_insert_eq|].
      intros h Hh. assert (h = h0) as -> by congruence. rewrite Hk, Hm2, lookup_insert_eq; [done|].
      intros o' b' h' Hl _ ?%orgBlockKey_org. subst o'. apply Ho. apply list_elem_of_fmap. by exists (o, b').
    + destruct (Hin _ _ Hl) as [Hc Hi]. split; [|done]. rewrite lookup_insert_ne in Hc; [done|].
      intros ->. apply Ho. apply list_elem_of_fmap. by exists (org, b).
  - intros org [Hne Hn]%not_elem_of_cons. by rewrite Hout, lookup_insert_ne.
  - intros k Hkne. rewrite Hk, Hm2, lookup_insert_ne; [done| |].
    + intros <-. by eapply (Hkne o b0 h0); [left|..].
    + intros org b h Hl. apply Hkne. by right.
Qed.

Lemma storeBlockData_spec ch fatNumber (st st' : chains) blocks info hdr db sp :
  storeBlockData ch fatNumber st blocks info hdr db sp = Ok st' →
  (∀ org b, blocks !! org = Some b → cache_after (oc_orgChainMap st !! org) b (oc_orgChainMap st' !! org) ∧
     ∀ h, b_Header b = Some h → bindings (oc_meta st') !! orgBlockKey ch org (bh_Number h) = Some (PutUint64 fatNumber)) ∧
  (∀ org, blocks !! org = None → oc_orgChainMap st' !! org = oc_orgChainMap st !! org) ∧
  (∃ infob, Marshal info = Ok infob ∧ bindings (oc_meta st') !! merkleInfoKey ch (LastFatBlockNumberProcessed hdr) = Some infob) ∧
  (∃ hdrb, Marshal hdr = Ok hdrb ∧ oc_container st' !! headInfoKey ch = Some hdrb ∧ bindings (oc_meta st') !! headInfoKey ch = Some hdrb) ∧
  oc_chHeader st' = hdr ∧ oc_versionDB st' = db ∧
  bindings (oc_meta st') !! savepointKey ch = match sp with Some n => Some (PutUint64 n) | None => bindings (oc_meta st) !! savepointKey ch end ∧
  (∀ k, k ≠ headInfoKey ch → k ≠ savepointKey ch → k ≠ merkleInfoKey ch (LastFatBlockNumberProcessed hdr) →
     (∀ org b h, blocks !! org = Some b → b_Header b = Some h → k ≠ orgBlockKey ch org (bh_Number h)) →
     bindings (oc_meta st') !! k = bindings (oc_meta st) !! k).
Proof.
  unfold storeBlockData. intros Hok. apply bind_Ok in Hok as (m0 & Hm0 & Hok). apply bind_Ok in Hok as ([cm m1] & Hf & Hok).
  apply bind_Ok in Hok as (infob & Hi & Hok). apply bind_Ok in Hok as (hdrb & Hh & Hok).
  apply bind_Ok in Hok as (m2 & Hm2%meta_Put_inv & Hok). apply bind_Ok in Hok as (m3 & Hm3%meta_Put_inv & [= <-]). simpl.
  apply store_fold in Hf as (Hin & Hout & Hk); [|apply NoDup_fst_map_to_list].
  assert (bindings m0 = match sp with Some n => <[savepointKey ch := PutUint64 n]> (bindings (oc_meta st)) | None => bindings (oc_meta st) end) as Hb0.
  { destruct sp; [|by injection Hm0 as ->]. unfold OrPanic in Hm0. destruct (meta_Put _ _ _) eqn:E; try done. injection Hm0 as ->. by apply meta_Put_inv. }
  rewrite Hm3, Hm2. split_and!.
  - intros org b Hb%elem_of_map_to_list. destruct (Hin _ _ Hb) as [Hc Hi']. split; [done|]. intros h Hh'.
    rewrite !lookup_insert_ne; [by apply Hi'|apply merkle_ne_org|apply head_ne_org].
  - intros org Hb. apply Hout. intros ([o b] & -> & Hl%elem_of_map_to_list)%list_elem_of_fmap. simpl in *. congruence.
  - exists infob. split; [done|]. rewrite lookup_insert_ne, lookup_insert_eq; [done|apply head_ne_merkle].
  - exists hdrb. by rewrite !lookup_insert_eq.
  - done.
  - done.
  - rewrite !lookup_insert_ne; [|by apply not_eq_sym, savepoint_ne|by apply not_eq_sym, savepoint_ne].
    rewrite Hk; [|intros; apply savepoint_ne]. rewrite Hb0. destruct sp; [by rewrite lookup_insert_eq|done].
  - intros k H1 H2 H3 H4. rewrite !lookup_insert_ne by done. rewrite Hk.
    + rewrite Hb0. destruct sp; [by rewrite lookup_insert_ne by done|done].
    + intros org b h Hl%elem_of_map_to_list. by apply H4.
Qed.
End stored.

(** ** Runs *)

Lemma described_sent `{!Sha256} `{!ProtoMessage KVRWSet, !ProtoMessage HashedRWSet, !ProtoMessage TxReadWriteSet}
  `{!ProtoMessage Envelope, !ProtoMessage Payload, !ProtoPartial Payload, !ProtoMessage ChannelHeader, !ProtoMessage SignatureHeader}
  `{!ProtoMessage SerializedIdentity, !ProtoPartial SerializedIdentity, !ProtoMessage ChaincodeEvent, !ProtoPartial ChaincodeEvent}
  `{!ProtoMessage Transaction, !ProtoMessage ChaincodeActionPayload, !ProtoMessage ProposalResponsePayload, !ProtoMessage ChaincodeAction}
  cfg data l org td :
  described cfg 0 data l → td ∈ sent_to l org → ∃ i, td_Indx td = Z.of_nat i ∧ data !! i = Some (td_TxnEnvBytes td).
Proof.
  intros [Hlen Hl] Htd. unfold sent_to in Htd. apply list_elem_of_bind in Htd as ([td' orgs] & Hin & [i Hi]%list_elem_of_lookup).
  apply list_elem_of_fmap in Hin as (o & -> & _). destruct (lookup_lt_is_Some_2 data i) as [b Hb]; [rewrite <-Hlen; by eapply lookup_lt_Some|].
  destruct (Hl i b Hb) as (st & orgs' & _ & Hli). rewrite Hli in Hi. injection Hi as <- <-. simpl. by exists i.
Qed.

Lemma retrieve_described blk data (tds : list TxnDetails) : b_Data blk = Some data →
  (∀ td, td ∈ tds → ∃ i, td_Indx td = Z.of_nat i ∧ data !! i = Some (td_TxnEnvBytes td)) →
  retrieveTxnListForOrgBlock blk (td_Indx <$> tds) = Ok (td_TxnEnvBytes <$> tds).
Proof.
  intros Hd Hin. apply mapM_Ok. apply Forall2_fmap, Forall_Forall2_diag, Forall_forall. intros td Htd.
  destruct (Hin td Htd) as (i & Hi & Hb). rewrite Hd, Hi, Nat2Z.id. unfold index. simpl. by rewrite Hb.
Qed.

Section runs.
Context `{!Sha256} `{!ProtoMessage KVRWSet, !ProtoMessage HashedRWSet, !ProtoMessage TxReadWriteSet}.
Context `{!ProtoMessage Envelope, !ProtoMessage Payload, !ProtoPartial Payload, !ProtoMessage ChannelHeader, !ProtoMessage SignatureHeader}.
Context `{!ProtoMessage SerializedIdentity, !ProtoPartial SerializedIdentity, !ProtoMessage ChaincodeEvent, !ProtoPartial ChaincodeEvent}.
Context `{!ProtoMessage Transaction, !ProtoMessage ChaincodeActionPayload}.
Context `{!ProtoMessage ProposalResponsePayload, !ProtoMessage ChaincodeAction}.
Context `{!ProtoMessage MetadataMsg, !ProtoMessage OrdererBlockMetadata, !ProtoMessage LastConfig, !ProtoMessage SparseTxnFilterProto}.
Context `{!ProtoMessage Block, !ProtoMessage FatBlockMerkleInfoProto, !ProtoMessage ChannelHeadInfoProto}.
Context {S M C : Type} `{!KVersionStoreHandler S} `{!SparseMetadataReadWriter M} (bindings : M → gmap bytes bytes) `{!Cache C}.
Context (cs : ChainSupport) (mvccApplicable : bool) (reader : Z → res Block).
Notation chains := (ChannelOrgChains S M C).
Notation ch := (cs_ChannelID cs).

Definition cache_of (st : chains) (org : bytes) : C := default cache_New (oc_orgChainMap st !! org).
Definition heads (st : chains) : gmap bytes LastBlockMappingProto := OrgHeadPostion (oc_chHeader st).

(** [org_run st L]: the orderer reached the state [st] and has made the blocks
    [L org] for every organisation [org]. The fat blocks are those of the
    ledger, they come in order, and no chain reaches 2^64 blocks. The caches may
    lose entries at any time. *)
Inductive org_run : chains → (bytes → list Block) → Prop :=
| org_run_start st : heads st = ∅ → oc_orgChainMap st = ∅ → org_run st (λ _, [])
| org_run_evict st st' L : org_run st L → oc_chHeader st' = oc_chHeader st → oc_meta st' = oc_meta st → oc_container st' = oc_container st →
    (∀ org k, GetBig (cache_of st' org) k = [] ∨ GetBig (cache_of st' org) k = GetBig (cache_of st org) k) → org_run st' L
| org_run_block st st' L blk h start blocks info hdr sp db : org_run st L →
    b_Header blk = Some h → is_u64 (bh_Number h) → reader (bh_Number h) = Ok blk →
    (heads st ≠ ∅ → LastFatBlockNumberProcessed (oc_chHeader st) < bh_Number h)%Z →
    startHeader cs (bh_Number h) (oc_chHeader st) = Ok (start, sp) →
    (∀ org head, OrgHeadPostion start !! org = Some head → 0 ≤ LastOrgBlockNum head < two64 - 2)%Z →
    createOrgBlocks cs blk (oc_chHeader st) (oc_versionDB st) mvccApplicable = Ok (blocks, info, hdr, sp, db) →
    storeBlockData ch (bh_Number h) st blocks info hdr db sp = Ok st' →
    org_run st' (λ org, L org ++ option_list (blocks !! org)).

(** The block of the organisation can be assembled from the store and the fat
    chain. *)
Definition stored (st : chains) (org : bytes) (b : Block) : Prop := ∃ h data fatNumber infob info d fatBlock filter,
  b_Header b = Some h ∧ b_Data b = Some data ∧
  bindings (oc_meta st) !! orgBlockKey ch org (bh_Number h) = Some (PutUint64 fatNumber) ∧
  is_u64 fatNumber ∧ (fatNumber <= LastFatBlockNumberProcessed (oc_chHeader st))%Z ∧
  bindings (oc_meta st) !! merkleInfoKey ch fatNumber = Some infob ∧ Unmarshal infob = Ok info ∧ OrgHashMap info !! org = Some d ∧
  reader fatNumber = Ok fatBlock ∧ retrieveTxnListForOrgBlock fatBlock (TxnIndexList d) = Ok data ∧
  OrgBlockNumber d = bh_Number h ∧ PrevioushHash d = bh_PreviousHash h ∧ ob_Hash d = bh_DataHash h ∧
  b_Metadata b = Some [MetadataSignature d; MetadataLastConfig d; []; []; []; []; []; []; filter] ∧
  Marshal {| md_Value := SparseBlockFilter d; md_Signatures := [] |} = Ok filter ∧
  ∃ tds, tds ≠ [] ∧ SparseBlockFilter d = match Marshal {| FatBlockNumber := fatNumber; TxnInfoList := info_of <$> tds |} with Ok f => f | _ => [] end.

Record org_inv (st : chains) (L : bytes → list Block) : Prop := {
  inv_last org b : last (L org) = Some b → ∃ h head, b_Header b = Some h ∧ heads st !! org = Some head ∧
    LastOrgBlockNum head = bh_Number h ∧ LastOrgBlockHash head = BlockHeaderHash h;
  inv_num org b : b ∈ L org → ∃ h head, b_Header b = Some h ∧ heads st !! org = Some head ∧ (0 <= bh_Number h <= LastOrgBlockNum head)%Z;
  inv_verified org i : i < length (L org) → VerifyBlockHash i (L org) = Ok ();
  inv_stored org b : b ∈ L org → stored st org b;
  inv_cache org b h : b ∈ L org → b_Header b = Some h →
    GetBig (cache_of st org) (PutUint64 (bh_Number h)) = [] ∨ Marshal b = Ok (GetBig (cache_of st org) (PutUint64 (bh_Number h)));
  inv_heads_u64 org head : heads st !! org = Some head → (0 <= LastOrgBlockNum head < two64 - 1)%Z;
  inv_container org b : b ∈ L org → ∃ hb, oc_container st !! headInfoKey ch = Some hb ∧ Unmarshal hb = Ok (oc_chHeader st)
}.

Lemma startHeader_keeps number hdr start sp org head :
  startHeader cs number hdr = Ok (start, sp) → OrgHeadPostion hdr !! org = Some head → start = hdr ∧ sp = None.
Proof.
  unfold startHeader. intros Hst Hh. destruct (decide (OrgHeadPostion hdr = ∅)) as [E|]; [by rewrite E, lookup_empty in Hh|].
  by injection Hst as <- <-.
Qed.


(** One step of a run, seen from one organisation. *)
Section step.
Context `{!SparseMetadataLaws M bindings} `{!CacheLaws C} `{!ProtoNormalizes FatBlockMerkleInfoProto id} `{!ProtoNormalizes ChannelHeadInfoProto id}.
Context (st st' : chains) (L : bytes → list Block) (blk : Block) (h : BlockHeader) (start hdr : ChannelHeadInfoProto)
  (blocks : gmap bytes Block) (info : FatBlockMerkleInfoProto) (sp : option Z) (db : S).
Context (Hinv : org_inv st L) (Hh : b_Header blk = Some h) (Hu64 : is_u64 (bh_Number h)) (Hreader : reader (bh_Number h) = Ok blk).
Context (Horder : heads st ≠ ∅ → (LastFatBlockNumberProcessed (oc_chHeader st) < bh_Number h)%Z).
Context (Hstart : startHeader cs (bh_Number h) (oc_chHeader st) = Ok (start, sp)).
Context (Hbound : ∀ org head, OrgHeadPostion start !! org = Some head → (0 ≤ LastOrgBlockNum head < two64 - 2)%Z).
Context (Hcreate : createOrgBlocks cs blk (oc_chHeader st) (oc_versionDB st) mvccApplicable = Ok (blocks, info, hdr, sp, db)).
Context (Hstore : storeBlockData ch (bh_Number h) st blocks info hdr db sp = Ok st').

Lemma step_org : LastFatBlockNumberProcessed hdr = bh_Number h ∧ oc_chHeader st' = hdr ∧ ∀ org,
  (blocks !! org = None ∧ heads st' !! org = OrgHeadPostion start !! org) ∨
  (∃ b d head tds, blocks !! org = Some b ∧ OrgHashMap info !! org = Some d ∧ heads st' !! org = Some head ∧
     org_block_of (bh_Number h) (OrgHeadPostion start !! org) tds b d head ∧ tds ≠ [] ∧
     retrieveTxnListForOrgBlock blk (td_Indx <$> tds) = Ok (td_TxnEnvBytes <$> tds)).
Proof.
  destruct (createOrgBlocks_spec _ _ _ _ _ _ _ _ _ _ Hcreate) as (h' & data & l & start' & Hh' & Hd & Hl & Hst' & Hlast & Horg).
  assert (h' = h) as -> by congruence. assert (start' = start) as -> by congruence.
  destruct (storeBlockData_spec _ _ _ _ _ _ _ _ _ Hstore) as (_ & _ & _ & _ & Hhdr & _).
  split_and!; [done..|]. intros org. specialize (Horg org). unfold heads. rewrite Hhdr.
  destruct (decide (sent_to l org = [])) as [E|E]; [rewrite E in Horg; left; naive_solver|].
  rewrite (nonempty_Some _ E) in Horg. right. destruct Horg as (b & d & head & Hb & Hdd & Hhd & Hof & _).
  exists b, d, head, (sent_to l org). split_and!; [done..|]. eapply retrieve_described; [done|]. intros td. by apply described_sent with [ch].
Qed.

(** The heads of the organisations that have blocks already. *)
Lemma old_start org b : b ∈ L org → OrgHeadPostion start = heads st ∧ heads st ≠ ∅.
Proof.
  intros Hb. destruct (inv_num _ _ Hinv org b Hb) as (hb & head & _ & Hhead & _).
  destruct (startHeader_keeps _ _ _ _ _ _ Hstart Hhead) as [-> _]. split; [done|]. unfold heads in *. intros E. by rewrite E, lookup_empty in Hhead.
Qed.

(** The number of the new block of an organisation. *)
Lemma new_number org b d head tds hb : org_block_of (bh_Number h) (OrgHeadPostion start !! org) tds b d head → b_Header b = Some hb →
  (0 <= bh_Number hb < two64 - 1)%Z ∧ LastOrgBlockNum head = bh_Number hb ∧
  (∀ old, OrgHeadPostion start !! org = Some old → bh_Number hb = LastOrgBlockNum old + 1)%Z.
Proof.
  intros (Hbh & _ & Hn & _) Hhb. rewrite Hbh in Hhb. injection Hhb as <-. simpl in *. rewrite Hn. unfold next_position.
  destruct (OrgHeadPostion start !! org) as [old|] eqn:Hold; simpl; [|split_and!; done].
  pose proof (Hbound org old Hold) as Hb. unfold u64. rewrite Z.mod_small by (unfold two64 in *; lia).
  split_and!; [unfold two64 in *; lia|unfold two64 in *; lia|done|]. intros ? [= <-]. done.
Qed.

Lemma old_stored org b : b ∈ L org → stored st' org b.
Proof.
  intros Hb. destruct (inv_stored _ _ Hinv org b Hb) as (hb & data & fn & infob & inf & d & fb & filter & Hhb & Hd & Hk & Hfn & Hle & Hmk & Hun & Hdd & Hr & Hret & H1 & H2 & H3 & Hmd & Hfil & Htds).
  destruct (inv_num _ _ Hinv org b Hb) as (hb' & head & Hhb' & Hhead & Hnum). assert (hb' = hb) as -> by congruence.
  destruct (old_start org b Hb) as [Hst Hne]. pose proof (Horder Hne) as Hord. destruct step_org as (Hlast & Hhdr & Horg).
  destruct (storeBlockData_spec _ _ _ _ _ _ _ _ _ Hstore) as (_ & _ & _ & _ & _ & _ & _ & Hkeep).
  exists hb, data, fn, infob, inf, d, fb, filter. split_and!; try done; [|rewrite Hhdr, Hlast; lia|].
  - rewrite Hkeep; [done|by apply not_eq_sym, head_ne_org|by apply not_eq_sym, savepoint_ne|by apply not_eq_sym, merkle_ne_org|].
    intros o b' h' Hb' Hh' Heq. destruct (Horg o) as [[? _]|(b1 & d1 & head1 & tds & Hb1 & _ & _ & Hof & _)]; [congruence|].
    assert (b1 = b') as -> by congruence. pose proof (orgBlockKey_org _ _ _ _ _ Heq) as ->.
    destruct (new_number _ _ _ _ _ _ Hof Hh') as ([? _] & _ & Hnn). rewrite Hst in Hnn. specialize (Hnn _ Hhead).
    apply orgBlockKey_inj in Heq; lia.
  - rewrite Hkeep; [done|by apply not_eq_sym, head_ne_merkle|by apply not_eq_sym, savepoint_ne| |intros; apply merkle_ne_org].
    rewrite Hlast. intros Heq%merkleInfoKey_inj; [lia|apply Hfn|apply Hu64].
Qed.

Lemma new_stored org b : blocks !! org = Some b → stored st' org b.
Proof.
  intros Hb. destruct step_org as (Hlast & Hhdr & Horg). destruct (Horg org) as [[? _]|(b1 & d & head & tds & Hb1 & Hd & _ & Hof & Hne & Hret)]; [congruence|].
  assert (b1 = b) as -> by congruence. destruct Hof as (Hbh & Hbd & _ & _ & Hn & Hp & Hhash & Hidx & Hsf & filter & Hfil & Hmd).
  destruct (storeBlockData_spec _ _ _ _ _ _ _ _ _ Hstore) as (Hblk & _ & (infob & Hi & Hmk) & _).
  destruct (Hblk org b Hb) as [_ Hkey]. eexists _, _, (bh_Number h), infob, info, d, blk, filter.
  split_and!; [exact Hbh|exact Hbd|exact (Hkey _ Hbh)|done|by rewrite Hhdr, Hlast|by rewrite <-Hlast|
    exact (Unmarshal_Marshal_norm _ _ Hi)|done|done|by rewrite Hidx|done..|by exists tds].
Qed.

Lemma PutUint64_inj a b : is_u64 a → is_u64 b → PutUint64 a = PutUint64 b → a = b.
Proof. intros Ha Hb Heq%(f_equal be_val). by rewrite !PutUint64_val in Heq. Qed.

(** The new block continues the chain. *)
Lemma new_link org b d head tds prev :
  org_block_of (bh_Number h) (OrgHeadPostion start !! org) tds b d head → last (L org) = Some prev → link prev b.
Proof.
  intros (Hbh & _) Hprev. destruct (inv_last _ _ Hinv org prev Hprev) as (ph & old & Hph & Hold & Hn & Hhash).
  assert (prev ∈ L org) as Hin by (rewrite last_lookup in Hprev; by eapply list_elem_of_lookup_2).
  destruct (old_start org prev Hin) as [Hst _]. rewrite Hst, Hold in Hbh.
  eexists ph, _. split_and!; [done|exact Hbh|..]; simpl; congruence.
Qed.

Lemma step_cache org b hb : b ∈ L org ++ option_list (blocks !! org) → b_Header b = Some hb →
  GetBig (cache_of st' org) (PutUint64 (bh_Number hb)) = [] ∨ Marshal b = Ok (GetBig (cache_of st' org) (PutUint64 (bh_Number hb))).
Proof.
  intros Hin Hhb. destruct (storeBlockData_spec _ _ _ _ _ _ _ _ _ Hstore) as (Hblk & Hnone & _).
  destruct (blocks !! org) as [nb|] eqn:Hnb.
  - destruct (Hblk org nb Hnb) as [(bs & nh & Hm & Hnh & Hc) _]. unfold cache_of. rewrite Hc. simpl. fold (cache_of st org).
    destruct (GetBig_SetBig (cache_of st org) (PutUint64 (bh_Number nh)) bs (PutUint64 (bh_Number hb))) as [|Hget]; [by left|].
    rewrite Hget. apply elem_of_app in Hin as [Hin|Hin%list_elem_of_singleton].
    + rewrite decide_False; [by apply (inv_cache _ _ Hinv org)|]. intros Heq. destruct step_org as (_ & _ & Horg).
      destruct (Horg org) as [[? _]|(b1 & d & head & tds & Hb1 & _ & _ & Hof & _)]; [congruence|]. assert (b1 = nb) as -> by congruence.
      destruct (inv_num _ _ Hinv org b Hin) as (hb' & old & Hhb' & Hold & Hnum). assert (hb' = hb) as -> by congruence.
      destruct (old_start org b Hin) as [Hst _]. destruct (new_number _ _ _ _ _ _ Hof Hnh) as (Hu & _ & Hnn).
      rewrite Hst in Hnn. specialize (Hnn _ Hold). pose proof (inv_heads_u64 _ _ Hinv org old Hold) as Hou.
      apply PutUint64_inj in Heq; [lia|unfold is_u64 in *; lia..].
    + subst b. right. assert (hb = nh) as -> by congruence. by rewrite decide_True.
  - rewrite app_nil_r in Hin. unfold cache_of. rewrite (Hnone org Hnb). by apply (inv_cache _ _ Hinv org).
Qed.

Lemma org_inv_step : org_inv st' (λ org, L org ++ option_list (blocks !! org)).
Proof.
  destruct step_org as (Hlast & Hhdr & Horg). split.
  - intros org b Hb. destruct (Horg org) as [[Hn Hhd]|(nb & d & head & tds & Hnb & _ & Hhd & Hof & _)].
    + rewrite Hn, app_nil_r in Hb. destruct (inv_last _ _ Hinv org b Hb) as (hb & old & Hhb & Hold & ?). exists hb, old.
      split_and!; try tauto. rewrite Hhd. rewrite last_lookup in Hb. by destruct (old_start org b (list_elem_of_lookup_2 _ _ _ Hb)) as [-> _].
    + rewrite Hnb in Hb. simpl in Hb. rewrite last_snoc in Hb. injection Hb as <-. destruct Hof as (Hbh & _ & ? & ? & _). by eexists _, head.
  - intros org b [Hb|Hb]%elem_of_app.
    + destruct (inv_num _ _ Hinv org b Hb) as (hb & old & Hhb & Hold & Hnum). destruct (old_start org b Hb) as [Hst _].
      destruct (Horg org) as [[Hn Hhd]|(nb & d & head & tds & Hnb & _ & Hhd & Hof & _)].
      * exists hb, old. rewrite Hhd, Hst. done.
      * exists hb, head. split_and!; [done..|lia|]. pose proof Hof as (Hbh & _). destruct (new_number _ _ _ _ _ _ Hof Hbh) as (_ & -> & Hnn).
        rewrite (Hnn old) by by rewrite Hst. lia.
    + destruct (Horg org) as [[Hn Hhd]|(nb & d & head & tds & Hnb & _ & Hhd & Hof & _)]; [rewrite Hn in Hb; by apply elem_of_nil in Hb|].
      rewrite Hnb in Hb. apply list_elem_of_singleton in Hb as ->. pose proof Hof as (Hbh & _).
      destruct (new_number _ _ _ _ _ _ Hof Hbh) as ([? _] & Heq & _). eexists _, head. split_and!; [exact Hbh|done|done|by rewrite Heq].
  - intros org i Hi. destruct (Horg org) as [[Hn _]|(nb & d & head & tds & Hnb & _ & _ & Hof & Hne & _)].
    + rewrite Hn, app_nil_r in *. by apply (inv_verified _ _ Hinv).
    + rewrite Hnb in *. pose proof Hof as (Hbh & Hbd & _).
      eapply VerifyBlockHash_snoc; [by intros; apply (inv_verified _ _ Hinv)|exact Hbh|exact Hbd|by destruct tds|done| |done].
      intros prev. by apply (new_link org nb d head tds).
  - intros org b [Hb|Hb]%elem_of_app; [by apply old_stored|]. apply new_stored.
    destruct (blocks !! org); [by apply list_elem_of_singleton in Hb as ->|by apply elem_of_nil in Hb].
  - intros org b hb. apply step_cache.
  - intros org head Hhead. destruct (Horg org) as [[_ Hhd]|(nb & d & head' & tds & _ & _ & Hhd & Hof & _)].
    + rewrite Hhd in Hhead. pose proof (Hbound org head Hhead). lia.
    + assert (head' = head) as -> by congruence. pose proof Hof as (Hbh & _). by destruct (new_number _ _ _ _ _ _ Hof Hbh) as (? & -> & _).
  - intros org b _. destruct (storeBlockData_spec _ _ _ _ _ _ _ _ _ Hstore) as (_ & _ & _ & (hb & Hm & Hc & _) & Hst' & _).
    exists hb. split; [done|]. rewrite Hst'. exact (Unmarshal_Marshal_norm _ _ Hm).
Qed.
End step.

Context `{!SparseMetadataLaws M bindings} `{!CacheLaws C} `{!ProtoNormalizes FatBlockMerkleInfoProto id} `{!ProtoNormalizes ChannelHeadInfoProto id}.

Lemma org_run_inv st L : org_run st L → org_inv st L.
Proof.
  induction 1 as [st Hh Hc|st st' L Hrun IH Hh Hm Hcont Hc|st st' L blk h start blocks info hdr sp db Hrun IH].
  - split; try (intros; simpl in *; by (done || lia)); try (by intros ?? ?%elem_of_nil); try (by intros ??? ?%elem_of_nil).
    intros org head Hhead. by rewrite Hh, lookup_empty in Hhead.
  - destruct IH as [I1 I2 I3 I4 I5 I6 I7]. unfold heads in *. split; unfold heads; try rewrite Hh; try done.
    + intros org b Hb. destruct (I4 org b Hb) as (? & ? & ? & ? & ? & ? & ? & ? & Hs). unfold stored. rewrite Hh, Hm. eauto 20.
    + intros org b hb Hb Hhb. destruct (Hc org (PutUint64 (bh_Number hb))) as [->| ->]; [by left|]. by apply I5.
    + intros org b Hb. rewrite Hcont. by apply (I7 org b).
  - by eapply org_inv_step.
Qed.

(** C6: every organisation gets a proper chain. Whatever fat blocks the orderer
    has processed, the blocks it made for an organisation pass the verification
    of a sequence of blocks, each at its index: the data match the header, the
    numbers are consecutive and each block names the hash of the one before;
    and the head that the orderer has recorded is the last of them. *)
Theorem org_chains_verified st L (Hrun : org_run st L) org :
  (∀ i, i < length (L org) → VerifyBlockHash i (L org) = Ok ()) ∧
  (∀ b, last (L org) = Some b → ∃ h head, b_Header b = Some h ∧ OrgHeadPostion (oc_chHeader st) !! org = Some head ∧
     LastOrgBlockNum head = bh_Number h ∧ LastOrgBlockHash head = BlockHeaderHash h).
Proof. apply org_run_inv in Hrun. split; [apply (inv_verified _ _ Hrun)|apply (inv_last _ _ Hrun)]. Qed.

(** ** Retrieving a block *)

Context `{!ProtoNormalizes Block id}.

(** The assembled block: the header and the data of the original, its
    signatures and last configuration, but the filter without its wrapping and
    the type of the block reset. *)
Definition assembled (b b' : Block) : Prop := ∃ sig lc raw filter,
  b_Header b' = b_Header b ∧ b_Data b' = b_Data b ∧ b_BlockType b' = 0%Z ∧
  b_Metadata b = Some [sig; lc; []; []; []; []; []; []; filter] ∧ b_Metadata b' = Some [sig; lc; []; []; []; []; []; []; raw] ∧
  Marshal {| md_Value := raw; md_Signatures := [] |} = Ok filter ∧
  ∃ f, TxnInfoList f ≠ [] ∧ raw = match Marshal f with Ok r => r | _ => [] end.

Lemma assemble_stored st org b h last : stored st org b → b_Header b = Some h →
  GetBig (cache_of st org) (PutUint64 (bh_Number h)) = [] → lastProcessedOrdBlk ch (oc_meta st) = Ok last → (last < bh_Number h)%Z →
  ∃ b', retriveOrgBlockByNum ch org reader (bh_Number h) (cache_of st org) (oc_meta st) = Ok b' ∧ assembled b b'.
Proof.
  intros (h' & data & fn & infob & inf & d & fb & filter & Hhb & Hd & Hk & Hfn & _ & Hmk & Hun & Hdd & Hr & Hret & H1 & H2 & H3 & Hmd & Hfil & tds & Hne & Hsf) Hh Hc Hlast Hlt.
  assert (h' = h) as -> by congruence. unfold retriveOrgBlockByNum. rewrite Hc, decide_False by (simpl; lia). rewrite Hlast, bind_Ok_eq, decide_False by lia.
  unfold searchAndRetreiveFatBlockMerkleInfo. rewrite !meta_Get_law, bind_Ok_eq, Hk, read_Uint64_Put, bind_Ok_eq by done.
  rewrite meta_Get_law, bind_Ok_eq, Hmk. cbn [from_option id]. rewrite Hun. unfold OrPanic at 1. rewrite !bind_Ok_eq.
  unfold assembleOrgBlock. rewrite Hr. unfold OrPanic. rewrite bind_Ok_eq, Hdd. cbn [deref]. rewrite bind_Ok_eq, Hret, bind_Ok_eq.
  eexists. split; [reflexivity|]. eexists _, _, (SparseBlockFilter d), _. split_and!; [simpl|simpl; by rewrite Hd|done|exact Hmd|done|done|].
  - rewrite Hhb, H1, H2, H3. by destruct h.
  - eexists. split; [|exact Hsf]. simpl. by destruct tds.
Qed.

Lemma assembled_verifies (policies : bytes → option (list SignedData → res unit)) chainID seqNum b b' :
  assembled b b' → VerifyBlock policies chainID seqNum b' = VerifyBlock policies chainID seqNum b.
Proof.
  intros (sig & lc & raw & filter & Hh & Hd & _ & Hm & Hm' & _). unfold VerifyBlock, GetChannelIDFromBlock, VerifyTransactionsAreWellFormed, GetMetadataFromBlock, index.
  assert (IsConfigBlock b' = IsConfigBlock b) as -> by (unfold IsConfigBlock; by rewrite Hd).
  assert (signed_data b' = signed_data b) as -> by (unfold signed_data; by rewrite Hh).
  rewrite Hh, Hd, Hm, Hm'. done.
Qed.

(** Found in the cache or assembled, the block is the one that was made. *)
Lemma retrieve_block st L org b h last : org_inv st L → b ∈ L org → b_Header b = Some h →
  lastProcessedOrdBlk ch (oc_meta st) = Ok last → (last < bh_Number h)%Z →
  ∃ b', retriveOrgBlockByNum ch org reader (bh_Number h) (cache_of st org) (oc_meta st) = Ok b' ∧ (b' = b ∨ assembled b b').
Proof.
  intros Hinv Hb Hh Hlast Hlt. destruct (decide (GetBig (cache_of st org) (PutUint64 (bh_Number h)) = [])) as [Hc|Hc].
  - destruct (assemble_stored st org b h last) as (b' & ? & ?); [by apply (inv_stored _ _ Hinv)|done..|]. eauto.
  - destruct (inv_cache _ _ Hinv org b h Hb Hh) as [|Hm]; [done|]. exists b. split; [|by left]. unfold retriveOrgBlockByNum.
    rewrite decide_True; [|by destruct (GetBig _ _)]. by rewrite (Unmarshal_Marshal_norm _ _ Hm).
Qed.

(** C13: no block of an organisation is lost when the cache drops it. A block
    beyond the savepoint is found again by its number, from the cache or
    assembled from the fat block, with the header and the data it was made
    with, and a peer verifies it with the same outcome. *)
Theorem org_block_retrievable st L org b h last (Hrun : org_run st L) (Hb : b ∈ L org) (Hh : b_Header b = Some h)
    (Hlast : lastProcessedOrdBlk ch (oc_meta st) = Ok last) (Hlt : (last < bh_Number h)%Z) :
  ∃ b', retriveOrgBlockByNum ch org reader (bh_Number h) (cache_of st org) (oc_meta st) = Ok b' ∧
    b_Header b' = b_Header b ∧ b_Data b' = b_Data b ∧
    ∀ policies chainID seqNum, VerifyBlock policies chainID seqNum b' = VerifyBlock policies chainID seqNum b.
Proof.
  apply org_run_inv in Hrun. destruct (retrieve_block st L org b h last Hrun Hb Hh Hlast Hlt) as (b' & Hr & [->|Ha]); [by exists b|].
  exists b'. split; [done|]. pose proof Ha as (? & ? & ? & ? & ? & ? & _). split_and!; [done..|]. intros. by apply assembled_verifies.
Qed.

(** C34: the filter of a block does not survive eviction. The cached block
    carries the filter as the value of a metadata message, the assembled block
    carries the bare filter, and a peer that reads the bare filter as a metadata
    message finds no value in it: it takes the block for one without a filter
    and commits its transactions at the number of the organisation's block
    instead of the fat block's. *)
Theorem evicted_filter_lost `{!ProtoNormalizes MetadataMsg id, !ProtoNormalizes SparseTxnFilterProto id} st L org b h last
    (Hrun : org_run st L) (Hb : b ∈ L org) (Hh : b_Header b = Some h)
    (Hlast : lastProcessedOrdBlk ch (oc_meta st) = Ok last) (Hlt : (0 ≤ last < bh_Number h)%Z)
    (Hevicted : GetBig (cache_of st org) (PutUint64 (bh_Number h)) = [])
    (Hwire : ∀ (f : SparseTxnFilterProto) raw, Marshal f = Ok raw → ∃ m, Unmarshal (A := MetadataMsg) raw = Ok m ∧ md_Value m = [])
    (Hempty : Unmarshal (A := SparseTxnFilterProto) [] = Ok emptySparseFilter) :
  ∃ b' filter, retriveOrgBlockByNum ch org reader (bh_Number h) (cache_of st org) (oc_meta st) = Ok b' ∧
    extractSparseFilter b = Ok (filter, true) ∧ extractSparseFilter b' = Ok (emptySparseFilter, false).
Proof.
  apply org_run_inv in Hrun. destruct (assemble_stored st org b h last) as (b' & Hr & Ha); [by apply (inv_stored _ _ Hrun)|done..|lia|].
  destruct Ha as (sig & lc & raw & filter & Hh' & _ & _ & Hm & Hm' & Hfil & f & Hne & Hraw).
  destruct (Marshal_total f) as [fb Hf]. rewrite Hf in Hraw. subst raw. exists b', f. split; [done|].
  unfold extractSparseFilter. rewrite Hh', Hh, Hm, Hm'. cbn [deref]. rewrite !bind_Ok_eq, !decide_False by lia.
  rewrite !decide_False by (simpl; unfold BlockMetadataIndex_SPARSE_TXN_FILTER; lia). unfold index; simpl.
  rewrite (Unmarshal_Marshal_norm _ _ Hfil). destruct (Hwire f fb Hf) as (m & -> & Hv). rewrite !bind_Ok_eq, Hv, Hempty. cbn [id md_Value].
  rewrite (Unmarshal_Marshal_norm _ _ Hf). cbn [id]. split; [|done]. rewrite decide_False; [done|]. by destruct (TxnInfoList f).
Qed.

(** ** Reading a chain to its end *)

Lemma VerifyBlockHash_number i bs b prev h ph : VerifyBlockHash (Datatypes.S i) bs = Ok () → bs !! Datatypes.S i = Some b → bs !! i = Some prev →
  b_Header b = Some h → b_Header prev = Some ph → u64 (bh_Number ph + 1) = bh_Number h.
Proof.
  unfold VerifyBlockHash, index. intros Hv Hb Hp Hh Hph. rewrite Hb, Hp in Hv. destruct (decide _); [done|]. rewrite bind_Ok_eq, Hh in Hv.
  apply bind_Ok in Hv as (_ & _ & Hv). apply bind_Ok in Hv as (data & _ & Hv). destruct (decide _); [done|]. rewrite bind_Ok_eq, Hph in Hv.
  destruct (decide _) as [|Hn]; [done|]. by apply dec_stable in Hn.
Qed.

Lemma chain_numbers st L org b0 h0 : org_inv st L → L org !! 0 = Some b0 → b_Header b0 = Some h0 →
  ∀ i b h, L org !! i = Some b → b_Header b = Some h → bh_Number h = (bh_Number h0 + Z.of_nat i)%Z.
Proof.
  intros Hinv H0 Hh0. induction i as [|i IH]; intros b h Hb Hh; [assert (h = h0) as -> by congruence; lia|].
  destruct (lookup_lt_is_Some_2 (L org) i) as [p Hp]; [apply lookup_lt_Some in Hb; lia|].
  destruct (inv_num _ _ Hinv org p (list_elem_of_lookup_2 _ _ _ Hp)) as (ph & head & Hph & Hhead & Hnum).
  pose proof (inv_heads_u64 _ _ Hinv org head Hhead) as Hu. specialize (IH _ _ Hp Hph).
  rewrite <-(VerifyBlockHash_number i (L org) b p h ph); [|apply (inv_verified _ _ Hinv); by eapply lookup_lt_Some|done..].
  unfold u64. rewrite Z.mod_small by lia. lia.
Qed.

Lemma Height_spec st L org b head : org_inv st L → b ∈ L org → heads st !! org = Some head →
  OrgChainStore_Height ch org st = Ok (LastOrgBlockNum head + 1)%Z.
Proof.
  intros Hinv Hb Hhead. destruct (inv_container _ _ Hinv org b Hb) as (hb & Hc & Hun). unfold OrgChainStore_Height.
  rewrite Hc, bind_Ok_eq. cbn [from_option id]. rewrite Hun. unfold OrPanic. rewrite bind_Ok_eq. unfold heads in Hhead. rewrite Hhead.
  pose proof (inv_heads_u64 _ _ Hinv org head Hhead) as Hu. unfold u64. by rewrite Z.mod_small by lia.
Qed.

Context (MarshalNil : res bytes) (Hbytes : ∀ (b : Block) bs, Marshal b = Ok bs → b_Header b ≠ None → bs ≠ []).

Lemma Next_delivers st L org b h last max head : org_inv st L → b ∈ L org → b_Header b = Some h →
  lastProcessedOrdBlk ch (oc_meta st) = Ok last → (last < bh_Number h)%Z → heads st !! org = Some head → (max <= LastOrgBlockNum head)%Z →
  ∃ b' max', orgCacheIterator_Next ch org reader MarshalNil st {| oci_blockNumber := bh_Number h; oci_maxAvailableBlockNum := max |} =
      Ok (Delivered b' {| oci_blockNumber := bh_Number h + 1; oci_maxAvailableBlockNum := max' |}) ∧
    (b' = b ∨ assembled b b') ∧ (max' <= LastOrgBlockNum head)%Z.
Proof.
  intros Hinv Hb Hh Hlast Hlt Hhead Hmax. destruct (inv_num _ _ Hinv org b Hb) as (h' & head' & Hh' & Hhead' & Hnum).
  assert (h' = h) as -> by congruence. assert (head' = head) as -> by congruence. pose proof (inv_heads_u64 _ _ Hinv org head Hhead) as Hu.
  assert (∃ bs b', OrgChainStore_Get ch org reader MarshalNil (PutUint64 (bh_Number h)) (cache_of st org) (oc_meta st) = Ok (bs, true) ∧
    bs ≠ [] ∧ Unmarshal bs = Ok b' ∧ (b' = b ∨ assembled b b')) as (bs & b' & Hget & Hne & Hun & Hab).
  { unfold OrgChainStore_Get. destruct (decide (GetBig (cache_of st org) (PutUint64 (bh_Number h)) = [])) as [Hc|Hc].
    - rewrite Hc, decide_False by (simpl; lia). rewrite read_Uint64_Put, bind_Ok_eq by (unfold is_u64; lia).
      destruct (retrieve_block st L org b h last) as (b' & -> & Hab); [done..|]. destruct (Marshal_total b') as [bs Hbs].
      unfold MarshalOrPanic, OrPanic. rewrite Hbs, bind_Ok_eq. exists bs, b'. split_and!; [done| |exact (Unmarshal_Marshal_norm _ _ Hbs)|done].
      apply (Hbytes b' bs Hbs). destruct Hab as [->|(? & ? & ? & ? & -> & _)]; by rewrite Hh.
    - rewrite decide_True by (by destruct (GetBig _ _)). destruct (inv_cache _ _ Hinv org b h Hb Hh) as [|Hm]; [done|].
      eexists _, b. split_and!; [done|done|exact (Unmarshal_Marshal_norm _ _ Hm)|by left]. }
  set (max' := if decide (max < bh_Number h)%Z then LastOrgBlockNum head else max).
  exists b', max'. split_and!; [|done|subst max'; destruct (decide _); lia]. unfold orgCacheIterator_Next. cbn [oci_blockNumber oci_maxAvailableBlockNum].
  assert ((if decide (max < bh_Number h)%Z then
      height ← OrgChainStore_Height ch org st; Ok (if decide (height <= bh_Number h)%Z then None else Some (u64 (height - 1)))
    else Ok (Some max)) = Ok (Some max')) as ->.
  { subst max'. destruct (decide _); [|done]. rewrite (Height_spec st L org b head) by done. rewrite bind_Ok_eq, decide_False by lia.
    do 2 f_equal. unfold u64. rewrite Z.mod_small by lia. lia. }
  rewrite bind_Ok_eq. unfold cache_of in Hget. rewrite Hget, bind_Ok_eq. rewrite bool_decide_eq_false_2 by by destruct bs. cbn [negb orb].
  rewrite Hun. unfold OrPanic. rewrite bind_Ok_eq. unfold u64. by rewrite Z.mod_small by lia.
Qed.

(** [k] calls of [Next], all of which deliver. *)
Fixpoint deliver (org : bytes) (st : chains) (k : nat) (oci : orgCacheIterator) : res (list Block * orgCacheIterator) :=
  match k with
  | O => Ok ([], oci)
  | Datatypes.S k =>
      r ← orgCacheIterator_Next ch org reader MarshalNil st oci;
      match r with
      | Delivered b oci => '(bs, oci) ← deliver org st k oci; Ok (b :: bs, oci)
      | _ => Err "no block delivered"
      end
  end.

Lemma deliver_suffix st L org b0 h0 last head : org_inv st L → L org !! 0 = Some b0 → b_Header b0 = Some h0 →
  lastProcessedOrdBlk ch (oc_meta st) = Ok last → (last < bh_Number h0)%Z → heads st !! org = Some head →
  ∀ k i max, i + k = length (L org) → (max <= LastOrgBlockNum head)%Z → ∃ bs max',
    deliver org st k {| oci_blockNumber := bh_Number h0 + Z.of_nat i; oci_maxAvailableBlockNum := max |} =
      Ok (bs, {| oci_blockNumber := bh_Number h0 + Z.of_nat (length (L org)); oci_maxAvailableBlockNum := max' |}) ∧
    Forall2 (λ b b', b' = b ∨ assembled b b') (drop i (L org)) bs ∧ (max' <= LastOrgBlockNum head)%Z.
Proof.
  intros Hinv H0 Hh0 Hlast Hlt Hhead. induction k as [|k IH]; intros i max Hi Hmax.
  - exists [], max. rewrite drop_ge by lia. split_and!; [|constructor|done]. simpl. do 3 f_equal. lia.
  - destruct (lookup_lt_is_Some_2 (L org) i) as [b Hb]; [lia|]. pose proof (list_elem_of_lookup_2 _ _ _ Hb) as Hin.
    destruct (inv_num _ _ Hinv org b Hin) as (h & _ & Hh & _). pose proof (chain_numbers st L org b0 h0 Hinv H0 Hh0 i b h Hb Hh) as Hn.
    destruct (Next_delivers st L org b h last max head) as (b' & max1 & Hnx & Hab & Hm1); [done..|lia|done|done|].
    destruct (IH (Datatypes.S i) max1) as (bs & max' & Hd & Hall & Hm'); [lia|done|]. exists (b' :: bs), max'. cbn [deliver].
    rewrite <-Hn, Hnx, bind_Ok_eq. replace (bh_Number h + 1)%Z with (bh_Number h0 + Z.of_nat (Datatypes.S i))%Z by lia. rewrite Hd, bind_Ok_eq.
    split_and!; [done| |done]. rewrite (drop_S _ _ _ Hb). by constructor.
Qed.

(** C14: a peer that reads a chain gets all of it. When an iterator is opened at
    the first block of an organisation's chain, beyond the savepoint, every call
    of [Next] delivers the next block, cached or assembled, until the last one
    has been delivered; only then does the iterator wait. *)
Theorem iterator_delivers_chain st L org b0 h0 last (Hrun : org_run st L) (H0 : L org !! 0 = Some b0) (Hh0 : b_Header b0 = Some h0)
    (Hlast : lastProcessedOrdBlk ch (oc_meta st) = Ok last) (Hlt : (last < bh_Number h0)%Z) :
  ∃ oci bs oci', OrgChainStore_Iterator ch org st (SeekSpecified (bh_Number h0)) = Ok (Some (oci, bh_Number h0)) ∧
    deliver org st (length (L org)) oci = Ok (bs, oci') ∧
    Forall2 (λ b b', b_Header b' = b_Header b ∧ b_Data b' = b_Data b) (L org) bs ∧
    orgCacheIterator_Next ch org reader MarshalNil st oci' = Ok Waiting.
Proof.
  apply org_run_inv in Hrun. pose proof (list_elem_of_lookup_2 _ _ _ H0) as Hin.
  destruct (inv_num _ _ Hrun org b0 Hin) as (h & head & Hh & Hhead & Hnum). assert (h = h0) as -> by congruence.
  pose proof (inv_heads_u64 _ _ Hrun org head Hhead) as Hu. pose proof (Height_spec st L org b0 head Hrun Hin Hhead) as Hheight.
  destruct (deliver_suffix st L org b0 h0 last head Hrun H0 Hh0 Hlast Hlt Hhead (length (L org)) 0 (LastOrgBlockNum head)) as (bs & max' & Hd & Hall & Hm); [lia|lia|].
  eexists _, bs, _. split_and!; [|rewrite Z.add_0_r in Hd; exact Hd| |].
  - unfold OrgChainStore_Iterator. rewrite Hheight, !bind_Ok_eq, decide_False by lia. rewrite bind_Ok_eq. do 4 f_equal. unfold u64. rewrite Z.mod_small by lia. lia.
  - eapply Forall2_impl; [exact Hall|]. intros b b' [->|(? & ? & ? & ? & ? & ? & _)]; done.
  - destruct (last_is_Some (L org)) as [_ Hl]. destruct Hl as [bl Hbl]; [intros E; by rewrite E in H0|]. pose proof Hbl as Hbl'. rewrite last_lookup in Hbl.
    destruct (inv_last _ _ Hrun org bl Hbl') as (hl & head' & Hhl & Hhead' & Hnl & _). assert (head' = head) as -> by congruence.
    pose proof (chain_numbers st L org b0 h0 Hrun H0 Hh0 _ bl hl Hbl Hhl) as Hnn. pose proof (lookup_lt_Some _ _ _ H0) as Hpos.
    unfold orgCacheIterator_Next. cbn [oci_blockNumber oci_maxAvailableBlockNum]. rewrite decide_True by lia.
    rewrite Hheight, bind_Ok_eq, decide_True by lia. done.
Qed.
End runs.

(** ** The LevelDB metadata store *)

#[export] Instance blockfileMgr_metadata_laws {L} `{!GoLevelDB L} `{!GoLevelDBLaws L} :
  SparseMetadataLaws (L * bytes) (λ m, view (contents m.1) m.2).
Proof.
  split.
  - intros [db name] k v. unfold meta_Put; simpl. unfold DBHandle_Put.
    destruct (ldb_Write_law db [LPut (constructLevelKey name k) v]) as (db' & -> & Hc). rewrite bind_Ok_eq. eexists. split; [done|]. simpl.
    apply map_eq. intros k'. rewrite lookup_view, Hc. simpl. destruct (decide (k' = k)) as [->|Hk]; [by rewrite !lookup_insert_eq|].
    rewrite !lookup_insert_ne, lookup_view by (done || by intros ?%constructLevelKey_inj). done.
  - intros [db name] k. unfold meta_Get; simpl. unfold DBHandle_Get. by rewrite ldb_Get_law, lookup_view.
Qed.

(** ** A sample run: the orderer switches over after block 4 of the ledger *)

#[local] Existing Instance map_store.
Definition no_codec A : ProtoMessage A := {| Marshal _ := Err "no codec"; Unmarshal _ := Err "no codec" |}.
#[local] Instance sample_oc_sha : Sha256 := λ b, b.
#[local] Instance sample_oc_kv : ProtoMessage KVRWSet := no_codec _.
#[local] Instance sample_oc_hkv : ProtoMessage HashedRWSet := no_codec _.
#[local] Instance sample_oc_txrw : ProtoMessage TxReadWriteSet := no_codec _.
#[local] Instance sample_oc_sid : ProtoMessage SerializedIdentity := no_codec _.
#[local] Instance sample_oc_ev : ProtoMessage ChaincodeEvent := no_codec _.
#[local] Instance sample_oc_tx : ProtoMessage Transaction := no_codec _.
#[local] Instance sample_oc_cap : ProtoMessage ChaincodeActionPayload := no_codec _.
#[local] Instance sample_oc_prp : ProtoMessage ProposalResponsePayload := no_codec _.
#[local] Instance sample_oc_ca : ProtoMessage ChaincodeAction := no_codec _.
#[local] Instance sample_oc_payload : ProtoMessage Payload := no_codec _.
#[local] Instance sample_oc_chdr : ProtoMessage ChannelHeader := no_codec _.
#[local] Instance sample_oc_ppayload : ProtoPartial Payload := λ _, {| pl_Header := None; pl_Data := [] |}.
#[local] Instance sample_oc_psid : ProtoPartial SerializedIdentity := λ _, {| sid_Mspid := []; sid_IdBytes := [] |}.
#[local] Instance sample_oc_pev : ProtoPartial ChaincodeEvent := λ _, {| cev_ChaincodeId := []; cev_TxId := []; cev_EventName := []; cev_Payload := [] |}.
#[local] Instance sample_oc_shdr : ProtoMessage SignatureHeader := {| Marshal s := Ok (sh_Creator s); Unmarshal b := Ok {| sh_Creator := b; sh_Nonce := [] |} |}.
(** Every envelope is an endorser transaction without reads and writes; [t9]
    names an organisation that has no chain. *)
#[local] Instance sample_oc_env : ProtoMessage Envelope := {|
  Marshal e := Ok (env_Payload e);
  Unmarshal b := Ok {| env_Payload := b; env_Signature := []; env_Type := HeaderType_ENDORSER_TRANSACTION;
    env_LeanEnv := Some {| le_ChannelId := B "ch"; le_TxId := b; le_ShardId := 0; le_OrgsInvolved := if decide (b = B "t9") then [B "Org9"] else []; le_Nonce := [];
      le_TlsCertHash := []; le_Results := Some {| lt_DataModel := KV; lt_NsRwset := [] |}; le_Meta := None |} |}
|}.

Definition zero_block : Block := {| b_Header := None; b_Data := None; b_Metadata := None; b_BlockType := 0 |}.
#[local] Instance sample_oc_md : ProtoMessage MetadataMsg := tagged_proto MetadataMsg x01 {| md_Value := []; md_Signatures := [] |}.
#[local] Instance sample_oc_obm : ProtoMessage OrdererBlockMetadata := tagged_proto OrdererBlockMetadata x02 {| obm_LastConfig := None; obm_ConsenterMetadata := [] |}.
#[local] Instance sample_oc_lc : ProtoMessage LastConfig := tagged_proto LastConfig x03 {| lcf_Index := 0 |}.
#[local] Instance sample_oc_filter : ProtoMessage SparseTxnFilterProto := tagged_proto SparseTxnFilterProto x04 emptySparseFilter.
#[local] Instance sample_oc_block : ProtoMessage Block := tagged_proto Block x05 zero_block.
#[local] Instance sample_oc_info : ProtoMessage FatBlockMerkleInfoProto := tagged_proto FatBlockMerkleInfoProto x06 {| MerkleRoot := []; OrgHashMap := ∅ |}.
#[local] Instance sample_oc_head : ProtoMessage ChannelHeadInfoProto :=
  tagged_proto ChannelHeadInfoProto x07 {| LastFatBlockNumberProcessed := 0; OrgHeadPostion := ∅ |}.
#[local] Instance sample_oc_md_laws : ProtoNormalizes MetadataMsg id := tagged_proto_laws _ _ _.
#[local] Instance sample_oc_filter_laws : ProtoNormalizes SparseTxnFilterProto id := tagged_proto_laws _ _ _.
#[local] Instance sample_oc_block_laws : ProtoNormalizes Block id := tagged_proto_laws _ _ _.
#[local] Instance sample_oc_info_laws : ProtoNormalizes FatBlockMerkleInfoProto id := tagged_proto_laws _ _ _.
#[local] Instance sample_oc_head_laws : ProtoNormalizes ChannelHeadInfoProto id := tagged_proto_laws _ _ _.

#[local] Instance map_cache : Cache (gmap bytes bytes) := {| cache_New := ∅; SetBig c k v := <[k := v]> c; GetBig c k := default [] (c !! k) |}.
#[local] Instance map_cache_laws : CacheLaws (gmap bytes bytes).
Proof.
  split; [done|]. intros c k v k'. right. simpl. destruct (decide (k = k')) as [->|Hk]; [by rewrite lookup_insert_eq|by rewrite lookup_insert_ne].
Qed.

Definition sample_fat (n : Z) (data : list bytes) : Block :=
  {| b_Header := Some {| bh_Number := n; bh_PreviousHash := []; bh_DataHash := BlockDataHash data |}; b_Data := Some data;
     b_Metadata := Some (replicate 9 []); b_BlockType := 0 |}.
Definition sample_cs : ChainSupport := {|
  cs_ChannelID := B "ch"; cs_LastProcessed := Some (sample_fat 4 [B "t0"]);
  cs_NewSignatureHeader := λ _, Ok {| sh_Creator := B "o"; sh_Nonce := [] |}; cs_Sign := λ m, Ok [x00] |}.
Definition sample_reader (n : Z) : res Block := Ok (sample_fat n [B "t1"; B "t2"]).
Definition sample_oc_start : ChannelOrgChains (gmap bytes Height) (gmap bytes bytes * bytes) (gmap bytes bytes) := {|
  oc_chHeader := {| LastFatBlockNumberProcessed := 0; OrgHeadPostion := ∅ |}; oc_versionDB := ∅; oc_meta := (∅, B "ch");
  oc_orgChainMap := ∅; oc_container := ∅ |}.
Definition sample_created :=
  createOrgBlocks sample_cs (sample_fat 5 [B "t1"; B "t2"]) (oc_chHeader sample_oc_start) (oc_versionDB sample_oc_start) true.
Definition sample_stored :=
  match sample_created with
  | Ok (blocks, info, hdr, sp, db) => storeBlockData (B "ch") 5 sample_oc_start blocks info hdr db sp
  | _ => Err "not created"
  end.
Notation sample_run_to st L := (org_run sample_cs true sample_reader st L).

(** The block made for the channel, and the state that keeps it. *)
Definition sample_check : bool :=
  match sample_created, sample_stored with
  | Ok (blocks, _, _, _, _), Ok st =>
      match blocks !! B "ch", lastProcessedOrdBlk (B "ch") (oc_meta st) with
      | Some b, Ok last => match b_Header b with Some h => bool_decide (bh_Number h = 5%Z) && bool_decide (last = 4%Z) | None => false end
      | _, _ => false
      end
  | _, _ => false
  end.
Lemma sample_start_check :
  match startHeader sample_cs 5 (oc_chHeader sample_oc_start) with
  | Ok (start, _) => bool_decide (map_Forall (λ _ head, (0 ≤ LastOrgBlockNum head < two64 - 2)%Z) (OrgHeadPostion start))
  | _ => true
  end.
Proof. vm_compute. exact I. Qed.
Lemma sample_run : ∃ st L b h, sample_run_to st L ∧ L (B "ch") = [b] ∧ b_Header b = Some h ∧ bh_Number h = 5%Z ∧
  lastProcessedOrdBlk (B "ch") (oc_meta st) = Ok 4%Z.
Proof.
  assert (sample_check = true) as Hc by (vm_compute; reflexivity). unfold sample_check, sample_stored in Hc.
  destruct sample_created as [[[[[blocks info] hdr] sp] db]| |] eqn:Hcr; [|discriminate Hc..].
  destruct (storeBlockData _ _ _ _ _ _ _ _) as [st| |] eqn:Hst; [|discriminate Hc..].
  destruct (blocks !! B "ch") as [b|] eqn:Hb; [|discriminate Hc]. destruct (lastProcessedOrdBlk _ _) as [last| |] eqn:Hl; [|discriminate Hc..].
  destruct (b_Header b) as [h|] eqn:Hh; [|discriminate Hc]. apply andb_prop in Hc as [H5%bool_decide_eq_true H4%bool_decide_eq_true].
  unfold sample_created in Hcr. pose proof (createOrgBlocks_spec _ _ _ _ _ _ _ _ _ _ Hcr) as Hspec.
  destruct Hspec as (h' & data & l & start & Hh' & _ & _ & Hstart & _). injection Hh' as <-.
  change (startHeader sample_cs 5 (oc_chHeader sample_oc_start) = Ok (start, sp)) in Hstart.
  exists st, (λ org, [] ++ option_list (blocks !! org)), b, h. rewrite Hb, <-H4, <-Hl. split_and!; [|done..].
  eapply (org_run_block _ _ _ sample_oc_start st (λ _, []) (sample_fat 5 [B "t1"; B "t2"]) _ start blocks info hdr sp db);
    [by apply org_run_start|reflexivity|by split; vm_compute|reflexivity|done|exact Hstart| |exact Hcr|exact Hst].
  pose proof sample_start_check as Hs. rewrite Hstart in Hs. intros org head. by apply (bool_decide_unpack _ Hs).
Qed.

(** The same run after the caches have been emptied. *)
Definition evict {S M C} (st : ChannelOrgChains S M C) : ChannelOrgChains S M C :=
  {| oc_chHeader := oc_chHeader st; oc_versionDB := oc_versionDB st; oc_meta := oc_meta st; oc_orgChainMap := ∅; oc_container := oc_container st |}.
Lemma sample_evicted st L : sample_run_to st L → sample_run_to (evict st) L.
Proof. intros Hrun. apply (org_run_evict _ _ _ st); [done..|]. intros org k. left. unfold cache_of, evict. simpl. by rewrite lookup_empty. Qed.

Lemma org_chains_verified_witness : ∃ st L b, sample_run_to st L ∧ L (B "ch") = [b] ∧ VerifyBlockHash 0 [b] = Ok ().
Proof.
  destruct sample_run as (st & L & b & h & Hrun & HL & _). exists st, L, b. split_and!; [done..|]. rewrite <-HL.
  apply (org_chains_verified _ sample_cs true sample_reader st L Hrun (B "ch")). rewrite HL. simpl. lia.
Defined.

Lemma org_block_retrievable_witness : ∃ st L b b', sample_run_to st L ∧ L (B "ch") = [b] ∧
  retriveOrgBlockByNum (B "ch") (B "ch") sample_reader 5 (cache_of st (B "ch")) (oc_meta st) = Ok b' ∧ b_Header b' = b_Header b.
Proof.
  destruct sample_run as (st & L & b & h & Hrun & HL & Hh & H5 & Hlast). apply sample_evicted in Hrun.
  destruct (org_block_retrievable _ sample_cs true sample_reader (evict st) L (B "ch") b h 4 Hrun) as (b' & Hr & Hh' & _);
    [rewrite HL; left|done|exact Hlast|rewrite H5; lia|]. rewrite H5 in Hr. by exists (evict st), L, b, b'.
Defined.

Lemma evicted_filter_lost_witness : ∃ st L b b' filter, sample_run_to st L ∧ L (B "ch") = [b] ∧
  retriveOrgBlockByNum (B "ch") (B "ch") sample_reader 5 (cache_of st (B "ch")) (oc_meta st) = Ok b' ∧
  extractSparseFilter b = Ok (filter, true) ∧ extractSparseFilter b' = Ok (emptySparseFilter, false).
Proof.
  destruct sample_run as (st & L & b & h & Hrun & HL & Hh & H5 & Hlast). apply sample_evicted in Hrun.
  destruct (evicted_filter_lost _ sample_cs true sample_reader (evict st) L (B "ch") b h 4 Hrun) as (b' & filter & Hr & Hf & Hf');
    [rewrite HL; left|done|exact Hlast|rewrite H5; lia|done| |done|].
  - intros f raw [= <-]. destruct (decide (f = emptySparseFilter)) as [->|]; eexists; split; done.
  - rewrite H5 in Hr. by exists (evict st), L, b, b', filter.
Defined.

Lemma iterator_delivers_chain_witness : ∃ st L oci bs oci', sample_run_to st L ∧
  OrgChainStore_Iterator (B "ch") (B "ch") st (SeekSpecified 5) = Ok (Some (oci, 5%Z)) ∧
  deliver sample_cs sample_reader (Err "nil") (B "ch") st (length (L (B "ch"))) oci = Ok (bs, oci') ∧ length bs = 1 ∧
  orgCacheIterator_Next (B "ch") (B "ch") sample_reader (Err "nil") st oci' = Ok Waiting.
Proof.
  destruct sample_run as (st & L & b & h & Hrun & HL & Hh & H5 & Hlast). apply sample_evicted in Hrun.
  destruct (iterator_delivers_chain _ sample_cs true sample_reader (Err "nil")) with (st := evict st) (L := L) (org := B "ch") (b0 := b) (h0 := h) (last := 4%Z)
    as (oci & bs & oci' & Hit & Hd & Hall & Hw); [|done|by rewrite HL|done|exact Hlast|rewrite H5; lia|].
  - intros b1 bs1 [= <-] Hn. destruct (decide (b1 = zero_block)) as [->|]; [by destruct Hn|done].
  - rewrite H5 in Hit. exists (evict st), L, oci, bs, oci'. split_and!; [done..| |done]. rewrite HL in Hall. apply Forall2_length in Hall. done.
Defined.

Lemma org_blocks_exact_witness : ∃ (blocks : gmap bytes Block) b l, described [B "ch"] 0 [B "t1"; B "t2"] l ∧ sent_to l (B "ch") ≠ [] ∧
  blocks !! B "ch" = Some b ∧ b_Data b = Some (td_TxnEnvBytes <$> sent_to l (B "ch")).
Proof.
  assert (sample_check = true) as Hc by (vm_compute; reflexivity). unfold sample_check, sample_stored in Hc.
  destruct sample_created as [[[[[blocks info] hdr] sp] db]| |] eqn:Hcr; [|discriminate Hc..]. unfold sample_created in Hcr.
  destruct (storeBlockData _ _ _ _ _ _ _ _) as [st| |] eqn:Hst; [|discriminate Hc..].
  pose proof (org_blocks_exact _ _ _ _ _ _ _ _ _ _ Hcr) as Hx. destruct Hx as (h & data & l & start & Hh & Hd & Hl & Hs & Horg).
  injection Hd as <-. destruct (Horg (B "ch")) as [[_ E]|(Hne & b & oh & Hb & _ & _ & Hbd & _)]; [by rewrite E in Hc|]. exact (ex_intro _ blocks (ex_intro _ b (ex_intro _ l (conj Hl (conj Hne (conj Hb Hbd)))))).
Defined.

(** An organisation that a transaction names before any configuration block has
    started its chain stops the orderer: there is no head to take the last
    configuration from. *)
Lemma new_org_panics :
  createOrgBlocks sample_cs (sample_fat 6 [B "t9"]) {| LastFatBlockNumberProcessed := 5; OrgHeadPostion :=
    {[ B "ch" := {| LastOrgBlockNum := 5; LastOrgBlockHash := []; SourceFatBlockNum := 5; lb_LastConfigBlockNum := 0 |} ]} |} (∅ : gmap bytes Height) true = Panic.
Proof. vm_compute. reflexivity. Qed.

(** The iterator of a chain without blocks does not wait: the highest available
    number wraps around, and the block it then looks for is nowhere. *)
Lemma empty_chain_iterator_panics : ∃ oci,
  OrgChainStore_Iterator (B "ch") (B "Org9") sample_oc_start SeekOldest = Ok (Some (oci, 0%Z)) ∧
  orgCacheIterator_Next (B "ch") (B "Org9") sample_reader (Err "nil") sample_oc_start
    {| oci_blockNumber := 1; oci_maxAvailableBlockNum := oci_maxAvailableBlockNum oci |} = Panic.
Proof. eexists. split; vm_compute; reflexivity. Qed.
