(* ===== verification/OrgProgress.v ===== *)
(** * The orderer keeps up with the ledger

  The generator of the organisations' blocks (SparseBlocks, OrgChain) panics on
  anything it does not expect, and a block that it cannot process stops the
  chains of all organisations. This file states what a fat block must satisfy
  to be processed and shows that a received block is then processed, together
  with all blocks of the ledger that were missed before it. *)

From S2P Require Import Prelude SortedMap Encoding Version Separated StateDB Proto Rwset LevelDB StateLevelDB PrivState.
From S2P Require Import TxOps SparseTypes Validator LiteRwset LiteValidator Block BlockVerify LeanEnvelope BatchPreparer OrdererMVCC SparseBlocks OrgChain.
From stdpp Require Import options.
Local Open Scope nat_scope.
Set Default Proof Using "Type*".

Section totality.
Context `{!Sha256} `{!ProtoMessage KVRWSet, !ProtoMessage HashedRWSet, !ProtoMessage TxReadWriteSet}.
Context `{!ProtoMessage Envelope, !ProtoMessage Payload, !ProtoPartial Payload, !ProtoMessage ChannelHeader, !ProtoMessage SignatureHeader}.
Context `{!ProtoMessage SerializedIdentity, !ProtoPartial SerializedIdentity, !ProtoMessage ChaincodeEvent, !ProtoPartial ChaincodeEvent}.
Context `{!ProtoMessage Transaction, !ProtoMessage ChaincodeActionPayload}.
Context `{!ProtoMessage ProposalResponsePayload, !ProtoMessage ChaincodeAction}.
Context {S : Type} `{!KVersionStoreHandler S} `{!KVersionApplyLaws S}.

(** ** Sorting the transactions *)

(** The read-write set of a chaincode transaction has no nil parts. *)
Definition rwset_present (envBytes : bytes) : Prop := ∀ txnEnv txType txnChanHdr rw,
  parse_txn envBytes = Ok (txnEnv, txType, txnChanHdr) → txn_rwset txnEnv txType = Ok (Some rw) → ltx_present rw.

Lemma foldl_add_txn_mvcc number td orgs : ∀ ag, ag_mvcc (foldl (add_txn number td) ag orgs) = ag_mvcc ag.
Proof. induction orgs as [|o orgs IH]; intros ag; [done|]. cbn [foldl]. by rewrite IH. Qed.

Lemma aggregate_one_total number cfg mvcc (db : S) vs `{!KVersionLaws db vs} ag i b orgs :
  recipients cfg b = Ok orgs → rwset_present b → is_u64 number → is_u64 (Z.of_nat i) → storable (ag_mvcc ag) →
  ∃ ag', aggregate_one number cfg mvcc db ag (i, b) = Ok ag' ∧ storable (ag_mvcc ag').
Proof.
  intros Hr Hp Hn Hi Hm. unfold recipients in Hr. unfold aggregate_one. apply bind_Ok in Hr as ([[env ty] chh] & Hpt & Hr).
  rewrite Hpt, bind_Ok_eq. destruct (decide (ty = HeaderType_CONFIG)); [eexists; split; [done|by rewrite foldl_add_txn_mvcc]|].
  apply bind_Ok in Hr as (rw & Hrw & Hr). rewrite Hrw, bind_Ok_eq. destruct rw as [rw|]; [|by exists ag].
  apply bind_Ok in Hr as (orgs' & -> & _). rewrite bind_Ok_eq.
  assert (∃ m status, (if mvcc then
      '(txnFilteringStatus, m, status) ← validateEndorserTxn rw (ag_mvcc ag) db 0 number (Z.of_nat i);
      Ok (m, if (txnFilteringStatus : bool) then status else TxValidationCode_MVCC_READ_CONFLICT)
    else Ok (ag_mvcc ag, 0%Z)) = Ok (m, status) ∧ storable m) as (m & status & -> & Hm').
  { destruct mvcc; [|by eexists _, _].
    destruct (validateEndorserTxn_total db vs rw (ag_mvcc ag) 0 number (Z.of_nat i)) as (ok & m & s & -> & ?); [by eapply Hp|done|by split|].
    rewrite bind_Ok_eq. by eexists _, _. }
  rewrite bind_Ok_eq. destruct (_ || _); (eexists; split; [done|by rewrite foldl_add_txn_mvcc]).
Qed.

Definition sortable (cfg : list bytes) (data : list bytes) : Prop :=
  (Z.of_nat (length data) <= two64)%Z ∧ ∀ b, b ∈ data → (∃ orgs, recipients cfg b = Ok orgs) ∧ rwset_present b.

Lemma aggregate_total blk cfg mvcc (db : S) vs `{!KVersionLaws db vs} h data :
  b_Header blk = Some h → b_Data blk = Some data → is_u64 (bh_Number h) → sortable cfg data →
  ∃ ag blk', aggregateOrgEnvelope blk cfg mvcc db = Ok (ag, blk') ∧ storable (ag_mvcc ag).
Proof.
  intros Hh Hd Hn [Hlen Hall]. unfold aggregateOrgEnvelope. rewrite Hh, Hd. cbn [deref]. rewrite !bind_Ok_eq.
  destruct (foldM_total (aggregate_one (bh_Number h) cfg mvcc db) (λ ag, storable (ag_mvcc ag)) (imap (λ i d, (i, d)) data) empty_aggregate)
    as (ag & -> & Hs); [intros k v; simpl; by rewrite lookup_empty| |rewrite bind_Ok_eq; by eexists _, _].
  intros ag [i b] Hin Hs. apply list_elem_of_lookup in Hin as [j Hj]. rewrite list_lookup_imap in Hj.
  destruct (data !! j) as [b'|] eqn:Hb; [|done]. injection Hj as <- <-. pose proof (lookup_lt_Some _ _ _ Hb).
  destruct (Hall b' (list_elem_of_lookup_2 _ _ _ Hb)) as [[orgs Ho] Hp].
  eapply aggregate_one_total; [done..|unfold is_u64; lia|done].
Qed.

Lemma sent_to_recipient cfg data l org : described cfg 0 data l → sent_to l org ≠ [] →
  ∃ b orgs, b ∈ data ∧ recipients cfg b = Ok orgs ∧ org ∈ orgs.
Proof.
  intros [Hlen Hl] Hne. destruct (sent_to l org) as [|td tds] eqn:E; [done|]. assert (td ∈ sent_to l org) as Htd by (rewrite E; left).
  unfold sent_to in Htd. apply list_elem_of_bind in Htd as ([td' orgs] & Hin & [i Hi]%list_elem_of_lookup).
  apply list_elem_of_fmap in Hin as (o & _ & [-> Ho]%list_elem_of_filter).
  destruct (lookup_lt_is_Some_2 data i) as [b Hb]; [rewrite <-Hlen; by eapply lookup_lt_Some|].
  destruct (Hl i b Hb) as (st & orgs' & Hr & Hli). rewrite Hli in Hi. injection Hi as _ ->.
  exists b, orgs. split_and!; [by eapply list_elem_of_lookup_2|done..].
Qed.

(** ** Making the blocks *)

Context `{!ProtoMessage MetadataMsg, !ProtoMessage OrdererBlockMetadata, !ProtoMessage LastConfig, !ProtoMessage SparseTxnFilterProto}.
Context `{!ProtoNormalizes MetadataMsg id, !ProtoNormalizes OrdererBlockMetadata id, !ProtoNormalizes LastConfig id}.
Context (Hmd_empty : Unmarshal (A := MetadataMsg) [] = Ok {| md_Value := []; md_Signatures := [] |}).
Context (Hsh_total : ∀ s : SignatureHeader, ∃ b, Marshal s = Ok b).
Context (cs : ChainSupport) (Hsigner : ∀ b, ∃ s, cs_NewSignatureHeader cs b = Ok s) (Hsign : ∀ m, ∃ s, cs_Sign cs m = Ok s).
Notation ch := (cs_ChannelID cs).

Lemma MarshalOrPanic_total {A} `{!ProtoMessage A, !ProtoNormalizes A id} (a : A) : ∃ b, MarshalOrPanic a = Ok b.
Proof. destruct (Marshal_total a) as [b Hb]. exists b. unfold MarshalOrPanic. by rewrite Hb. Qed.

(** A new block has nine empty slots of metadata. *)
Definition fresh (b : Block) : Prop := is_Some (b_Header b) ∧ b_Metadata b = Some (replicate 9 []).

Lemma set_metadata_Ok hd data md ty i v : i < length md →
  set_metadata {| b_Header := hd; b_Data := data; b_Metadata := Some md; b_BlockType := ty |} i v =
    Ok {| b_Header := hd; b_Data := data; b_Metadata := Some (<[i := v]> md); b_BlockType := ty |}.
Proof. intros Hi. unfold set_metadata. cbn [deref b_Metadata]. by rewrite bind_Ok_eq, decide_True. Qed.

Lemma addMetadataFields_total b d : fresh b → ∃ b' d', addMetadataFields cs b d = Ok (b', d').
Proof.
  destruct b as [hd data md ty]. intros [[h Hh] Hmd]. simpl in Hh, Hmd. subst hd md.
  unfold addMetadataFields, addOrgLastConfig, addOrgBlockSignature.
  destruct (MarshalOrPanic_total {| md_Value := SparseBlockFilter d; md_Signatures := [] |}) as [v1 ->]. rewrite bind_Ok_eq.
  rewrite set_metadata_Ok, bind_Ok_eq by (simpl; unfold BlockMetadataIndex_SPARSE_TXN_FILTER; lia).
  destruct (MarshalOrPanic_total {| lcf_Index := ob_LastConfigBlockNum d |}) as [v2 ->]. rewrite bind_Ok_eq.
  destruct (MarshalOrPanic_total {| md_Value := v2; md_Signatures := [] |}) as [v3 ->]. rewrite bind_Ok_eq.
  rewrite set_metadata_Ok, !bind_Ok_eq by (simpl; unfold BlockMetadataIndex_LAST_CONFIG; lia).
  assert (∀ hd data md ty, md !! 0 = Some [] → md !! 3 = Some [] → OrPanic (GetConsenterMetadataFromBlock
    {| b_Header := hd; b_Data := data; b_Metadata := Some md; b_BlockType := ty |}) = Ok {| md_Value := []; md_Signatures := [] |}) as Hcm.
  { clear -Hmd_empty. intros hd data md ty H0 H3. unfold GetConsenterMetadataFromBlock, GetMetadataFromBlock, index. cbn [b_Metadata].
    change BlockMetadataIndex_SIGNATURES with 0. change BlockMetadataIndex_ORDERER with 3. apply lookup_lt_Some in H3 as Hl.
    rewrite !decide_False by lia. rewrite H0, H3. run. rewrite Hmd_empty. by run. }
  rewrite Hcm by done. rewrite bind_Ok_eq. clear Hcm.
  match goal with |- context [cs_NewSignatureHeader cs ?b] => destruct (Hsigner b) as [sh ->] end. cbn [OrPanic]. rewrite bind_Ok_eq.
  destruct (Hsh_total sh) as [shb Hshb%MarshalOrPanic_Ok]. rewrite Hshb, bind_Ok_eq.
  match goal with |- context [MarshalOrPanic ?m] => destruct (MarshalOrPanic_total m) as [v4 ->] end. rewrite bind_Ok_eq.
  match goal with |- context [MarshalOrPanic ?m] => destruct (MarshalOrPanic_total m) as [v5 ->] end. rewrite bind_Ok_eq.
  cbn [deref b_Header]. rewrite bind_Ok_eq.
  match goal with |- context [cs_Sign cs ?b] => destruct (Hsign b) as [sig ->] end. cbn [OrPanic]. rewrite bind_Ok_eq.
  match goal with |- context [MarshalOrPanic ?m] => destruct (MarshalOrPanic_total m) as [v6 ->] end. rewrite bind_Ok_eq.
  rewrite set_metadata_Ok, bind_Ok_eq by (simpl; unfold BlockMetadataIndex_SIGNATURES; lia). by eexists _, _.
Qed.

Lemma finish_org_total configBlockCheck filters lastFat prevHead org b idx : fresh b → (configBlockCheck = false → is_Some prevHead) →
  ∃ r, finish_org cs configBlockCheck filters lastFat prevHead org b idx = Ok r.
Proof.
  intros Hb Hhead. pose proof Hb as [[h Hh] _]. unfold finish_org. rewrite Hh. cbn [deref]. rewrite bind_Ok_eq.
  assert (∃ n, (if configBlockCheck then Ok (bh_Number h) else head ← deref prevHead; Ok (lb_LastConfigBlockNum head)) = Ok n) as [n ->].
  { destruct configBlockCheck; [by eexists|]. destruct (Hhead eq_refl) as [head ->]. by eexists. }
  rewrite bind_Ok_eq. match goal with |- context [addMetadataFields cs b ?d] => destruct (addMetadataFields_total b d Hb) as (b' & d' & ->) end.
  by eexists.
Qed.

Lemma storeOrgBlockSkeleton_total blocks configBlockCheck filters hdr : map_Forall (λ _ p, fresh p.1) blocks →
  (configBlockCheck = false → map_Forall (λ org _, is_Some (OrgHeadPostion hdr !! org)) blocks) →
  ∃ sk, storeOrgBlockSkeleton cs blocks configBlockCheck filters hdr = Ok sk.
Proof.
  intros Hfresh Hheads. unfold storeOrgBlockSkeleton.
  match goal with |- context [foldM ?f ?a ?l] => destruct (foldM_total f (λ sk, ∀ org, is_Some (OrgHeadPostion hdr !! org) → is_Some (sk_heads sk !! org)) l a)
    as (sk & Hsk & _); [done| |by exists sk] end.
  intros sk [org [b idx]] Hin%elem_of_map_to_list Hsk. unfold skeleton_one.
  destruct (finish_org_total configBlockCheck filters (LastFatBlockNumberProcessed hdr) (sk_heads sk !! org) org b idx) as [[[b' d] head] ->];
    [exact (Hfresh _ _ Hin)|intros Hc; apply Hsk; by apply (Hheads Hc _ _ Hin)|].
  rewrite bind_Ok_eq. eexists. split; [done|]. simpl. intros o Ho. destruct (decide (org = o)) as [->|]; [by rewrite lookup_insert_eq|].
  rewrite lookup_insert_ne by done. by apply Hsk.
Qed.

Lemma next_org_block_fresh heads configBlockCheck bt org tds : fresh (next_org_block heads configBlockCheck bt org tds).1.
Proof. unfold next_org_block. destruct (heads !! org); (split; [by eexists|done]). Qed.

(** The block gives every one of its recipients a head to continue from, unless
    it is a configuration block. *)
Lemma createOrgBlocks_total blk hdr (db : S) vs `{!KVersionLaws db vs} mvcc h data start sp :
  b_Header blk = Some h → b_Data blk = Some data → is_u64 (bh_Number h) → sortable [ch] data →
  startHeader cs (bh_Number h) hdr = Ok (start, sp) →
  (IsConfigBlock blk = false → ∀ b orgs org, b ∈ data → recipients [ch] b = Ok orgs → org ∈ orgs → is_Some (OrgHeadPostion start !! org)) →
  ∃ blocks info hdr' db' vs', createOrgBlocks cs blk hdr db mvcc = Ok (blocks, info, hdr', sp, db') ∧ KVersionLaws db' vs'.
Proof.
  intros Hh Hd Hn Hsort Hst Hheads. unfold createOrgBlocks. rewrite Hh. cbn [deref]. rewrite bind_Ok_eq, Hst, bind_Ok_eq.
  destruct (aggregate_total blk [ch] mvcc db vs h data) as (ag & blk' & Hag & Hs); [done..|]. rewrite Hag, bind_Ok_eq.
  assert (∃ db' vs', (if mvcc then OrPanic (od_ApplyBatch db (ag_mvcc ag)) else Ok db) = Ok db' ∧ KVersionLaws db' vs') as (db' & vs' & -> & Hdb').
  { destruct mvcc; [|by exists db, vs]. unfold od_ApplyBatch. destruct (ApplyOrdererUpdates_law db vs (ag_mvcc ag) _ Hs) as (db' & -> & ?). by eexists _, _. }
  rewrite bind_Ok_eq. apply aggregate_aligned in Hag as (h' & data' & l & Hh' & Hd' & Hl & Hal). assert (data' = data) as -> by congruence.
  match goal with |- context [storeOrgBlockSkeleton cs ?bs ?c ?f ?hd] => destruct (storeOrgBlockSkeleton_total bs c f hd) as [sk ->] end.
  - intros org p Hp. rewrite map_lookup_imap in Hp. destruct (ag_envs ag !! org); [|done]. injection Hp as <-. apply next_org_block_fresh.
  - intros Hc org p Hp. rewrite map_lookup_imap in Hp. destruct (Hal org) as [He _]. rewrite He in Hp. simpl.
    destruct (decide (sent_to l org = [])) as [E|E]; [by rewrite E in Hp|]. apply (sent_to_recipient _ _ _ _ Hl) in E as (b & orgs & Hb & Hr & Ho).
    by apply (Hheads Hc b orgs org).
  - rewrite bind_Ok_eq. by eexists _, _, _, db', vs'.
Qed.
End totality.

(** ** Storing the blocks *)

Section storing.
Context {S M C : Type} `{!SparseMetadataReadWriter M} {bindings : M → gmap bytes bytes} `{!SparseMetadataLaws M bindings} `{!Cache C}.
Context `{!ProtoMessage Block, !ProtoMessage FatBlockMerkleInfoProto, !ProtoMessage ChannelHeadInfoProto}.
Context `{!ProtoNormalizes Block id, !ProtoNormalizes FatBlockMerkleInfoProto id, !ProtoNormalizes ChannelHeadInfoProto id}.

Lemma meta_Put_total (m : M) k v : ∃ m', meta_Put m k v = Ok m'.
Proof. destruct (meta_Put_law m k v) as (m' & ? & _). eauto. Qed.

Lemma storeBlockData_total channelID fatNumber (st : ChannelOrgChains S M C) blocks info hdr db sp :
  map_Forall (λ _ b, is_Some (b_Header b)) blocks → ∃ st', storeBlockData channelID fatNumber st blocks info hdr db sp = Ok st'.
Proof.
  intros Hall. unfold storeBlockData.
  assert (∃ m, match sp with Some n => OrPanic (meta_Put (oc_meta st) (savepointKey channelID) (PutUint64 n)) | None => Ok (oc_meta st) end = Ok m) as [m ->].
  { destruct sp as [n|]; [|by eexists]. destruct (meta_Put_total (oc_meta st) (savepointKey channelID) (PutUint64 n)) as [m ->]. by eexists. }
  rewrite bind_Ok_eq.
  destruct (foldM_total (store_org_block channelID fatNumber) (λ _, True) (map_to_list blocks) (oc_orgChainMap st, m)) as ([cm m1] & -> & _); [done| |].
  { intros [cm1 m1] [org b] Hin%elem_of_map_to_list _. destruct (Hall _ _ Hin) as [h Hh]. unfold store_org_block.
    destruct (MarshalOrPanic_total b) as [bs ->]. rewrite bind_Ok_eq, Hh. cbn [deref]. rewrite bind_Ok_eq.
    destruct (meta_Put_total m1 (orgBlockKey channelID org (bh_Number h)) (PutUint64 fatNumber)) as [m2 ->]. rewrite bind_Ok_eq. by eexists. }
  rewrite bind_Ok_eq. destruct (Marshal_total info) as [ib ->]. rewrite bind_Ok_eq. destruct (Marshal_total hdr) as [hb ->]. rewrite bind_Ok_eq.
  destruct (meta_Put_total m1 (merkleInfoKey channelID (LastFatBlockNumberProcessed hdr)) ib) as [m2 ->]. rewrite bind_Ok_eq.
  destruct (meta_Put_total m2 (headInfoKey channelID) hb) as [m3 ->]. rewrite bind_Ok_eq. by eexists.
Qed.
End storing.

(** ** Catching up *)

Section progress.
Context `{!Sha256} `{!ProtoMessage KVRWSet, !ProtoMessage HashedRWSet, !ProtoMessage TxReadWriteSet}.
Context `{!ProtoMessage Envelope, !ProtoMessage Payload, !ProtoPartial Payload, !ProtoMessage ChannelHeader, !ProtoMessage SignatureHeader}.
Context `{!ProtoMessage SerializedIdentity, !ProtoPartial SerializedIdentity, !ProtoMessage ChaincodeEvent, !ProtoPartial ChaincodeEvent}.
Context `{!ProtoMessage Transaction, !ProtoMessage ChaincodeActionPayload}.
Context `{!ProtoMessage ProposalResponsePayload, !ProtoMessage ChaincodeAction}.
Context `{!ProtoMessage MetadataMsg, !ProtoMessage OrdererBlockMetadata, !ProtoMessage LastConfig, !ProtoMessage SparseTxnFilterProto}.
Context `{!ProtoNormalizes MetadataMsg id, !ProtoNormalizes OrdererBlockMetadata id, !ProtoNormalizes LastConfig id}.
Context `{!ProtoMessage Block, !ProtoMessage FatBlockMerkleInfoProto, !ProtoMessage ChannelHeadInfoProto}.
Context `{!ProtoNormalizes Block id, !ProtoNormalizes FatBlockMerkleInfoProto id, !ProtoNormalizes ChannelHeadInfoProto id}.
Context {S M C : Type} `{!KVersionStoreHandler S} `{!KVersionApplyLaws S}.
Context `{!SparseMetadataReadWriter M} (bindings : M → gmap bytes bytes) `{!SparseMetadataLaws M bindings} `{!Cache C}.
Context (Hmd_empty : Unmarshal (A := MetadataMsg) [] = Ok {| md_Value := []; md_Signatures := [] |}).
Context (Hsh_total : ∀ s : SignatureHeader, ∃ b, Marshal s = Ok b).
Context (cs : ChainSupport) (Hsigner : ∀ b, ∃ s, cs_NewSignatureHeader cs b = Ok s) (Hsign : ∀ m, ∃ s, cs_Sign cs m = Ok s).
Context (mvccApplicable : bool) (fat : Z → option Block) (reader : Z → res Block).
Notation chains := (ChannelOrgChains S M C).
Notation ch := (cs_ChannelID cs).

(** What block [n] of the ledger must satisfy where the organisations [known]
    have chains: it is stored under its number, the recipients of each of its
    transactions can be told, the read-write sets have no nil parts, and all
    recipients are known unless it is a configuration block. *)
Record processable (known : bytes → Prop) (n : Z) (blk : Block) : Prop := {
  pr_header : ∃ h, b_Header blk = Some h ∧ bh_Number h = n;
  pr_reader : reader n = Ok blk;
  pr_data : ∃ data, b_Data blk = Some data ∧ sortable [ch] data ∧
    (IsConfigBlock blk = false → ∀ b orgs org, b ∈ data → recipients [ch] b = Ok orgs → org ∈ orgs → known org)
}.

Definition known_in (st : chains) (org : bytes) : Prop := is_Some (heads st !! org).

(** A state of a run from which the orderer can go on; [room] blocks still fit
    into every chain. *)
Record ready (st : chains) (L : bytes → list Block) (n room : Z) : Prop := {
  rd_run : org_run cs mvccApplicable reader st L;
  rd_heads : heads st ≠ ∅;
  rd_last : LastFatBlockNumberProcessed (oc_chHeader st) = n;
  rd_versions : ∃ vs, KVersionLaws (oc_versionDB st) vs;
  rd_room org head : heads st !! org = Some head → (0 <= LastOrgBlockNum head < two64 - 2 - room)%Z
}.

(** The heads after a block: those before it, or one further. *)
Lemma heads_after (st : chains) blk blocks info hdr sp db h : heads st ≠ ∅ → b_Header blk = Some h →
  createOrgBlocks cs blk (oc_chHeader st) (oc_versionDB st) mvccApplicable = Ok (blocks, info, hdr, sp, db) →
  LastFatBlockNumberProcessed hdr = bh_Number h ∧ map_Forall (λ _ b, is_Some (b_Header b)) blocks ∧
  ∀ org, OrgHeadPostion hdr !! org = heads st !! org ∨
    ∃ head, OrgHeadPostion hdr !! org = Some head ∧ LastOrgBlockNum head = (next_position (heads st !! org)).1.
Proof.
  intros Hne Hh Hcr. destruct (createOrgBlocks_spec _ _ _ _ _ _ _ _ _ _ Hcr) as (h' & data & l & start & Hh' & _ & _ & Hst & Hlast & Horg).
  unfold startHeader in Hst. rewrite decide_False in Hst by exact Hne. injection Hst as <- _. assert (h' = h) as -> by congruence.
  split_and!; [done| |].
  - intros org b Hb. specialize (Horg org). destruct (nonempty _); [|destruct Horg; congruence].
    destruct Horg as (b' & d & head & Hb' & _ & _ & Hof & _). assert (b' = b) as -> by congruence. destruct Hof as [-> _]. by eexists.
  - intros org. specialize (Horg org). destruct (nonempty _); [|left; by destruct Horg as (_ & _ & ->)].
    destruct Horg as (b & d & head & _ & _ & Hhead & Hof & _). right. exists head. split; [done|]. by destruct Hof as (_ & _ & -> & _).
Qed.

(** The transaction is in the chain of each of its recipients. *)
Definition delivered (L : bytes → list Block) (b : bytes) : Prop := ∀ orgs org, recipients [ch] b = Ok orgs → org ∈ orgs →
  ∃ ob data, ob ∈ L org ∧ b_Data ob = Some data ∧ b ∈ data.
Definition all_delivered (L : bytes → list Block) (blk : Block) : Prop := ∀ data b, b_Data blk = Some data → b ∈ data → delivered L b.

Lemma all_delivered_prefix L L' blk : (∀ org, L org `prefix_of` L' org) → all_delivered L blk → all_delivered L' blk.
Proof.
  intros Hpre Hall data b Hd Hb orgs org Hr Ho. destruct (Hall data b Hd Hb orgs org Hr Ho) as (ob & od & Hob & ?). exists ob, od. split; [|done].
  destruct (Hpre org) as [k ->]. apply elem_of_app. by left.
Qed.
Lemma created_delivered blk hdr (db : S) blocks info hdr' sp db' (L : bytes → list Block) :
  createOrgBlocks cs blk hdr db mvccApplicable = Ok (blocks, info, hdr', sp, db') → all_delivered (λ org, L org ++ option_list (blocks !! org)) blk.
Proof.
  intros Hcr data b Hd [i Hi]%list_elem_of_lookup orgs org Hr Ho.
  destruct (createOrgBlocks_spec _ _ _ _ _ _ _ _ _ _ Hcr) as (h & data' & l & start & _ & Hd' & [_ Hl] & _ & _ & Horg).
  assert (data' = data) as -> by congruence. destruct (Hl i b Hi) as (st & orgs' & Hr' & Hli). assert (orgs' = orgs) as -> by congruence.
  match type of Hli with _ = Some (?td, _) => assert (td ∈ sent_to l org) as Hin end.
  { unfold sent_to. apply list_elem_of_bind. eexists. split; [|by eapply list_elem_of_lookup_2]. apply list_elem_of_fmap. exists org.
    split; [done|]. by apply list_elem_of_filter. }
  specialize (Horg org). rewrite nonempty_Some in Horg by (intros E; rewrite E in Hin; by apply elem_of_nil in Hin).
  destruct Horg as (ob & d & head & Hob & _ & _ & (_ & Hod & _) & _). exists ob. eexists. split_and!; [|exact Hod|].
  - rewrite Hob. apply elem_of_app. right. by apply list_elem_of_singleton.
  - apply list_elem_of_fmap. eexists. by split; [|exact Hin].
Qed.

Lemma process_block_ready st L n room blk : ready st L n room → (0 <= n)%Z → (n + 1 < two64)%Z → (1 <= room < two64 - 2)%Z →
  processable (known_in st) (n + 1) blk →
  ∃ st' L', process_block cs mvccApplicable st blk = Ok st' ∧ ready st' L' (n + 1) (room - 1) ∧
    (∀ org, L org `prefix_of` L' org) ∧ (∀ org, known_in st org → known_in st' org) ∧ all_delivered L' blk.
Proof.
  intros [Hrun Hne Hlast [vs Hvs] Hroom] Hn Hn1 Hr [(h & Hh & Hnum) Hreader (data & Hd & Hsort & Hknown)].
  assert (startHeader cs (bh_Number h) (oc_chHeader st) = Ok (oc_chHeader st, None)) as Hst by (unfold startHeader; by rewrite decide_False by exact Hne).
  assert (is_u64 (bh_Number h)) as Hu by (unfold is_u64; lia).
  destruct (createOrgBlocks_total Hmd_empty Hsh_total cs Hsigner Hsign blk (oc_chHeader st) (oc_versionDB st) vs mvccApplicable h data (oc_chHeader st) None)
    as (blocks & info & hdr & db & vs' & Hcr & Hdb); [done..|].
  destruct (heads_after _ _ _ _ _ _ _ _ Hne Hh Hcr) as (Hfat & Hbl & Hheads).
  destruct (storeBlockData_total (bindings := bindings) ch (bh_Number h) st blocks info hdr db None Hbl) as [st' Hstore].
  destruct (storeBlockData_spec (bindings := bindings) _ _ _ _ _ _ _ _ _ Hstore) as (_ & _ & _ & _ & Hhdr & Hver & _).
  assert (∀ org, known_in st org → known_in st' org) as Hkn.
  { intros org Hk. unfold known_in, heads in *. rewrite Hhdr. destruct (Hheads org) as [->|(head & -> & _)]; [done|by eexists]. }
  exists st', (λ org, L org ++ option_list (blocks !! org)). split_and!; [| |intros org; by apply prefix_app_r|done|by eapply created_delivered].
  { unfold process_block. rewrite Hcr, bind_Ok_eq, Hh. cbn [deref]. by rewrite bind_Ok_eq. }
  split; [|intros E|by rewrite Hhdr, Hfat|exists vs'; by rewrite Hver|].
  - eapply org_run_block; [exact Hrun|exact Hh|exact Hu|by rewrite Hnum|intros; lia|exact Hst| |exact Hcr|exact Hstore].
    intros org head Hhead. specialize (Hroom org head Hhead). lia.
  - apply Hne, map_eq. intros org. rewrite lookup_empty. apply eq_None_not_Some. intros Hk. apply Hkn in Hk as [? Hk]. by rewrite E, lookup_empty in Hk.
  - intros org head. unfold heads. rewrite Hhdr. destruct (Hheads org) as [->|(head' & -> & Hl)]; [intros Hhead%Hroom; lia|intros [= <-]].
    rewrite Hl. unfold next_position. destruct (heads st !! org) as [old|] eqn:Hold; simpl; [|lia].
    specialize (Hroom org old Hold). rewrite u64_small; lia.
Qed.

(** The blocks that were missed. *)
Lemma sync_ready (known : bytes → Prop) k : ∀ st L n room i, ready st L (n + Z.of_nat i) room → (∀ org, known org → known_in st org) →
  (0 <= n)%Z → (n + Z.of_nat (i + k) + 1 <= two64)%Z → (Z.of_nat k <= room < two64 - 2)%Z →
  (∀ j, (n + Z.of_nat i < j <= n + Z.of_nat (i + k))%Z → ∃ blk, fat j = Some blk ∧ processable known j blk) →
  ∃ st' L', foldM (λ st i, fatBlock ← deref (fat (u64 (n + 1 + Z.of_nat i))); process_block cs mvccApplicable st fatBlock) st (seq i k) = Ok st' ∧
    ready st' L' (n + Z.of_nat (i + k)) (room - Z.of_nat k) ∧ (∀ org, L org `prefix_of` L' org) ∧ (∀ org, known org → known_in st' org) ∧
    ∀ j blk, (n + Z.of_nat i < j <= n + Z.of_nat (i + k))%Z → fat j = Some blk → all_delivered L' blk.
Proof.
  induction k as [|k IH]; intros st L n room i Hrd Hkn Hn Hmax Hroom Hblocks.
  - exists st, L. rewrite Nat.add_0_r, Z.sub_0_r. split_and!; [done..|]. intros; lia.
  - destruct (Hblocks (n + 1 + Z.of_nat i)%Z) as (blk & Hfat & Hp); [lia|]. cbn [seq foldM]. rewrite (u64_small (n + 1 + Z.of_nat i)), Hfat by lia.
    cbn [deref]. rewrite bind_Ok_eq. destruct (process_block_ready st L (n + Z.of_nat i) room blk) as (st1 & L1 & -> & Hrd1 & Hpre1 & Hkn1 & Hdel1); [done|lia..| |].
    { replace (n + Z.of_nat i + 1)%Z with (n + 1 + Z.of_nat i)%Z by lia. destruct Hp as [H1 H2 (data & Hd & Hs & Hk)]. split; [done..|].
      exists data. split_and!; [done..|]. intros Hc b orgs org Hb Hr Ho. apply Hkn. by eapply Hk. }
    rewrite bind_Ok_eq. destruct (IH st1 L1 n (room - 1)%Z (Datatypes.S i)) as (st' & L' & -> & Hrd' & Hpre & Hkn' & Hdel);
      [replace (n + Z.of_nat (Datatypes.S i))%Z with (n + Z.of_nat i + 1)%Z by lia; done|by auto|lia..| |].
    { intros j Hj. apply Hblocks. lia. }
    exists st', L'. split_and!; [done| |intros org; by etrans; [apply Hpre1|apply Hpre]|done|].
    2: { intros j b Hj Hb. destruct (decide (j = n + 1 + Z.of_nat i)%Z) as [->|]; [|apply (Hdel j); [lia|done]].
      assert (b = blk) as -> by congruence. by eapply all_delivered_prefix. }
    replace (n + Z.of_nat (i + Datatypes.S k))%Z with (n + Z.of_nat (Datatypes.S i + k))%Z by lia.
    by replace (room - Z.of_nat (Datatypes.S k))%Z with (room - 1 - Z.of_nat k)%Z by lia.
Qed.

(** C10: the orderer keeps up with the ledger. Let it have processed the ledger up
    to block [n], and let it receive a later block. If the blocks from [n + 1] up
    to the received one are processable, then all of them are processed, the
    missed ones first and read from the ledger: the generator does not panic,
    the run goes on, every chain only grows, and every transaction of these
    blocks is then in the chain of each of its recipients. *)
Theorem orderer_catches_up st L n m blk (Hready : ready st L n (m - n)) (Hn : (0 <= n < m)%Z) (Hm : (m + 1 < two64 - 2)%Z)
    (Hmissed : ∀ j, (n < j < m)%Z → ∃ b, fat j = Some b ∧ processable (known_in st) j b) (Hreceived : processable (known_in st) m blk) :
  ∃ st' L', process_received cs mvccApplicable fat st blk = Ok st' ∧ org_run cs mvccApplicable reader st' L' ∧
    LastFatBlockNumberProcessed (oc_chHeader st') = m ∧ (∀ org, L org `prefix_of` L' org) ∧
    all_delivered L' blk ∧ ∀ j b, (n < j < m)%Z → fat j = Some b → all_delivered L' b.
Proof.
  pose proof (rd_last _ _ _ _ Hready) as Hlast. destruct (pr_header _ _ _ Hreceived) as (h & Hh & Hnum). unfold process_received.
  rewrite Hh. cbn [deref]. rewrite bind_Ok_eq, Hlast, Hnum. rewrite (u64_small (n + 1)) by lia.
  destruct (sync_ready (known_in st) (Z.to_nat (m - 1 - n)) st L n (m - n) 0) as (st1 & L1 & Hs & Hrd1 & Hpre1 & Hkn1 & Hdel1); [by rewrite Z.add_0_r|done|lia..| |].
  { intros j Hj. apply Hmissed. lia. }
  assert ((if decide (m ≠ 0 ∧ n + 1 < m)%Z then OrPanic (syncOrderer cs mvccApplicable fat m (n + 1) st) else Ok st) = Ok st1) as ->.
  { destruct (decide _).
    - unfold syncOrderer. rewrite (u64_small (m - (n + 1))) by lia. replace (m - (n + 1))%Z with (m - 1 - n)%Z by lia. by rewrite Hs.
    - replace (Z.to_nat (m - 1 - n)) with 0 in Hs by lia. done. }
  replace (n + Z.of_nat (0 + Z.to_nat (m - 1 - n)))%Z with (m - 1)%Z in Hrd1 by lia.
  replace (m - n - Z.of_nat (Z.to_nat (m - 1 - n)))%Z with 1%Z in Hrd1 by lia.
  rewrite bind_Ok_eq. destruct (process_block_ready st1 L1 (m - 1) 1 blk) as (st' & L' & Hp & Hrd' & Hpre & _ & Hdel); [done|lia..| |].
  { replace (m - 1 + 1)%Z with m by lia. destruct Hreceived as [H1 H2 (data & Hd & Hso & Hk)]. split; [done..|].
    exists data. split_and!; [done..|]. intros Hc b orgs org Hb Hr Ho. apply Hkn1. by eapply Hk. }
  exists st', L'. split_and!; [done|apply Hrd'|rewrite (rd_last _ _ _ _ Hrd'); lia|intros org; by etrans; [apply Hpre1|apply Hpre]|done|].
  intros j b Hj Hb. apply (all_delivered_prefix L1); [done|]. apply (Hdel1 j); [lia|done].
Qed.
End progress.

(** ** A sample: blocks 6 and 7 after the switch-over *)

#[local] Existing Instances map_store map_store_laws sample_oc_sha sample_oc_kv sample_oc_hkv sample_oc_txrw sample_oc_sid sample_oc_ev sample_oc_tx
  sample_oc_cap sample_oc_prp sample_oc_ca sample_oc_payload sample_oc_chdr sample_oc_ppayload sample_oc_psid sample_oc_pev sample_oc_shdr
  sample_oc_env sample_oc_md sample_oc_obm sample_oc_lc sample_oc_filter sample_oc_block sample_oc_info sample_oc_head sample_oc_md_laws
  sample_oc_filter_laws sample_oc_block_laws sample_oc_info_laws sample_oc_head_laws map_cache.
#[local] Instance sample_obm_laws : ProtoNormalizes OrdererBlockMetadata id := tagged_proto_laws _ _ _.
#[local] Instance sample_lc_laws : ProtoNormalizes LastConfig id := tagged_proto_laws _ _ _.
#[local] Instance map_store_apply_laws : KVersionApplyLaws (gmap bytes Height).
Proof.
  intros s vs m Hs _. eexists. split; [done|]. intros ns key. specialize (Hs ns key). simpl in Hs |- *. rewrite lookup_merge. unfold diag_None.
  destruct (vs _) as [h|]; [|destruct Hs as [e Hs]]; destruct (s !! _); destruct (m !! _) as [v|]; simpl; try done; try (injection Hs as ->);
    try (by eexists); destruct (Is_Delete v); simpl; try (by eexists); destruct (vm_Version v); (done || by eexists).
Qed.

Definition sample_ready_check : bool :=
  match sample_created, sample_stored with
  | Ok _, Ok st => bool_decide (LastFatBlockNumberProcessed (oc_chHeader st) = 5%Z) && bool_decide (is_Some (heads st !! B "ch")) &&
      bool_decide (map_Forall (λ _ head, (0 <= LastOrgBlockNum head < two64 - 4)%Z) (heads st))
  | _, _ => false
  end.
Lemma sample_ready : ∃ st L, ready sample_cs true sample_reader st L 5 2 ∧ known_in st (B "ch").
Proof.
  assert (sample_ready_check = true) as Hc by (vm_compute; reflexivity). unfold sample_ready_check, sample_stored in Hc.
  destruct sample_created as [[[[[blocks info] hdr] sp] db]| |] eqn:Hcr; [|discriminate Hc..].
  destruct (storeBlockData _ _ _ _ _ _ _ _) as [st| |] eqn:Hst; [|discriminate Hc..].
  apply andb_prop in Hc as [[H5%bool_decide_eq_true Hch%bool_decide_eq_true]%andb_prop Hb%bool_decide_eq_true].
  unfold sample_created in Hcr. pose proof (createOrgBlocks_spec _ _ _ _ _ _ _ _ _ _ Hcr) as (h' & data & l & start & Hh' & _ & _ & Hstart & _).
  injection Hh' as <-. change (startHeader sample_cs 5 (oc_chHeader sample_oc_start) = Ok (start, sp)) in Hstart.
  exists st. eexists. split; [split|done].
  - eapply (org_run_block _ _ _ sample_oc_start st (λ _, []) (sample_fat 5 [B "t1"; B "t2"]) _ start blocks info hdr sp db);
      [by apply org_run_start|reflexivity|by split; vm_compute|reflexivity|done|exact Hstart| |exact Hcr|exact Hst].
    pose proof sample_start_check as Hs. rewrite Hstart in Hs. intros org head. by apply (bool_decide_unpack _ Hs).
  - intros E. rewrite E, lookup_empty in Hch. by destruct Hch.
  - done.
  - eexists. apply map_store_laws.
  - intros org head Hhead. specialize (Hb org head Hhead). simpl in Hb. lia.
Qed.

Lemma sample_processable known n : known (B "ch") → processable sample_cs sample_reader known n (sample_fat n [B "t1"; B "t2"]).
Proof.
  intros Hk. split; [by eexists|done|]. eexists. split_and!; [done| |].
  - split; [done|]. intros b Hb. split; [exists [B "ch"]|].
    + rewrite !elem_of_cons, elem_of_nil in Hb. destruct Hb as [->|[->|[]]]; vm_compute; reflexivity.
    + intros env ty chh rw. rewrite !elem_of_cons, elem_of_nil in Hb. destruct Hb as [->|[->|[]]]; intros [= <- <- <-] [= <-]; apply Forall_nil_2.
  - intros _ b orgs org Hb Hr Ho. rewrite !elem_of_cons, elem_of_nil in Hb. assert (orgs = [B "ch"]) as -> by (destruct Hb as [->|[->|[]]]; by injection Hr as <-).
    by apply list_elem_of_singleton in Ho as ->.
Qed.

Lemma orderer_catches_up_witness : ∃ st st',
  process_received sample_cs true (λ n, Some (sample_fat n [B "t1"; B "t2"])) st (sample_fat 7 [B "t1"; B "t2"]) = Ok st' ∧
  LastFatBlockNumberProcessed (oc_chHeader st) = 5%Z ∧ LastFatBlockNumberProcessed (oc_chHeader st') = 7%Z.
Proof.
  destruct sample_ready as (st & L & Hrd & Hch).
  assert (Unmarshal (A := MetadataMsg) [] = Ok {| md_Value := []; md_Signatures := [] |}) as Hmd by done.
  assert (∀ s : SignatureHeader, ∃ b, Marshal s = Ok b) as Hsh by by eexists.
  assert (∀ b, ∃ s, cs_NewSignatureHeader sample_cs b = Ok s) as Hsigner by by eexists.
  assert (∀ m, ∃ s, cs_Sign sample_cs m = Ok s) as Hsign by by eexists.
  destruct (orderer_catches_up (λ m, view (contents m.1) m.2) Hmd Hsh sample_cs Hsigner Hsign true (λ n, Some (sample_fat n [B "t1"; B "t2"])) sample_reader
    st L 5 7 (sample_fat 7 [B "t1"; B "t2"]) Hrd) as (st' & L' & Hp & _ & H7 & _).
  - lia.
  - vm_compute. reflexivity.
  - intros j _. eexists. split; [done|]. by apply sample_processable.
  - by apply sample_processable.
  - exists st, st'. split_and!; [done|exact (rd_last _ _ _ _ _ _ _ Hrd)|done].
Defined.
