(* ===== verification/Batching.v ===== *)
(** * The ordering service with follower batching

    The block cutter (orderer/common/blockcutter/blockcutter.go), the batcher
    that every orderer runs, follower or leader, and the way the leader turns
    the batches into blocks (orderer/consensus/etcdraft/chain.go and
    blockcreator.go). The batcher is a machine that reacts to requests and to
    its timer, the leader one that serves submitted batches and hands blocks to
    the consensus. What the chain asks of the channel (the configuration, the
    sequence number, the processing of messages) is a record that every step
    receives, so that it may change from one step to the next. *)
From S2P Require Import Prelude SortedMap Encoding Proto Rwset Merkle Block BlockVerify.
From stdpp Require Import options.
Local Open Scope nat_scope.
Set Default Proof Using "Type*".

(** ** Messages *)

(** The limits of the channel configuration that the block cutter reads. *)
Record BatchSize := { MaxMessageCount : Z; PreferredMaxBytes : Z }.
(** A request with one envelope, or with batches of such requests. *)
Inductive SubmitRequest := Build_SubmitRequest {
  sr_LastValidationSeq : Z;
  sr_Payload : option Envelope;
  sr_IsConfig : bool;
  sr_Batches : list (list SubmitRequest)
}.
Notation Batch := (list SubmitRequest).
Definition with_payload (req : SubmitRequest) (payload : option Envelope) : SubmitRequest :=
  {| sr_LastValidationSeq := sr_LastValidationSeq req; sr_Payload := payload; sr_IsConfig := sr_IsConfig req; sr_Batches := sr_Batches req |}.

(** What the chain asks of the channel. *)
Record ConsenterSupport := {
  OrdererConfig : option BatchSize;
  Sequence : Z;
  ProcessConfigMsg : option Envelope → res (option Envelope);
  ProcessNormalMsg : option Envelope → res unit;
  checkForEvictionNCertRotation : option Envelope → bool
}.

(** ** The block cutter *)

Record receiver := {
  pendingBatch : list Envelope;
  pendingFollowerBatch : Batch;
  pendingBatchSizeBytes : Z;
  MaxBatchSize : Z
}.
Definition NewReceiverImpl (maxBatchSize : Z) : receiver :=
  {| pendingBatch := []; pendingFollowerBatch := []; pendingBatchSizeBytes := 0; MaxBatchSize := maxBatchSize |}.
Definition messageSizeBytes (message : Envelope) : Z :=
  u32 (Z.of_nat (length (env_Payload message)) + Z.of_nat (length (env_Signature message))).
Definition Cut (r : receiver) : list Envelope * receiver :=
  (pendingBatch r,
   {| pendingBatch := []; pendingFollowerBatch := pendingFollowerBatch r; pendingBatchSizeBytes := 0; MaxBatchSize := MaxBatchSize r |}).
Definition CutBatch (r : receiver) : Batch * receiver :=
  (pendingFollowerBatch r,
   {| pendingBatch := pendingBatch r; pendingFollowerBatch := []; pendingBatchSizeBytes := 0; MaxBatchSize := MaxBatchSize r |}).
(** The local limit replaces the one of the channel. *)
Definition batch_size (r : receiver) (batchSize : BatchSize) : BatchSize :=
  if decide (MaxBatchSize r ≠ 0%Z) then {| MaxMessageCount := MaxBatchSize r; PreferredMaxBytes := PreferredMaxBytes batchSize |} else batchSize.

Definition Ordered (cfg : option BatchSize) (r : receiver) (msg : Envelope) : res (list (list Envelope) * bool * receiver) :=
  match cfg with
  | None => Panic
  | Some batchSize =>
      let batchSize := batch_size r batchSize in
      let size := messageSizeBytes msg in
      if (PreferredMaxBytes batchSize <? size)%Z then
        let '(messageBatches, r) := if decide (0 < length (pendingBatch r)) then let '(b, r) := Cut r in ([b], r) else ([], r) in
        Ok (messageBatches ++ [[msg]], false, r)
      else
        let '(messageBatches, r) :=
          if (PreferredMaxBytes batchSize <? u32 (pendingBatchSizeBytes r + size))%Z then let '(b, r) := Cut r in ([b], r) else ([], r) in
        let r := {| pendingBatch := pendingBatch r ++ [msg]; pendingFollowerBatch := pendingFollowerBatch r;
                    pendingBatchSizeBytes := u32 (pendingBatchSizeBytes r + size); MaxBatchSize := MaxBatchSize r |} in
        if (MaxMessageCount batchSize <=? u32 (Z.of_nat (length (pendingBatch r))))%Z
        then let '(b, r) := Cut r in Ok (messageBatches ++ [b], false, r)
        else Ok (messageBatches, true, r)
  end.

Definition OrderedBatch (cfg : option BatchSize) (r : receiver) (req : SubmitRequest) : res (list Batch * bool * receiver) :=
  match cfg with
  | None => Panic
  | Some batchSize =>
      let batchSize := batch_size r batchSize in
      payload ← deref (sr_Payload req);
      let size := messageSizeBytes payload in
      if (PreferredMaxBytes batchSize <? size)%Z then
        let '(messageBatches, r) := if decide (0 < length (pendingFollowerBatch r)) then let '(b, r) := CutBatch r in ([b], r) else ([], r) in
        Ok (messageBatches ++ [[req]], false, r)
      else
        let '(messageBatches, r) :=
          if (PreferredMaxBytes batchSize <? u32 (pendingBatchSizeBytes r + size))%Z then let '(b, r) := CutBatch r in ([b], r) else ([], r) in
        let r := {| pendingBatch := pendingBatch r; pendingFollowerBatch := pendingFollowerBatch r ++ [req];
                    pendingBatchSizeBytes := u32 (pendingBatchSizeBytes r + size); MaxBatchSize := MaxBatchSize r |} in
        if (MaxMessageCount batchSize <=? u32 (Z.of_nat (length (pendingFollowerBatch r))))%Z
        then let '(b, r) := CutBatch r in Ok (messageBatches ++ [b], false, r)
        else Ok (messageBatches, true, r)
  end.

(** ** The batcher *)

(** The state of the batcher: the block cutter, whether the timer runs, whether
    a transfer of the leadership is in progress, the batches handed to
    [Submit] so far and the configuration requests handed to a transfer. *)
Record batcher := {
  bt_receiver : receiver;
  bt_ticking : bool;
  bt_transfer : bool;
  bt_submitted : list (list Batch);
  bt_handedOver : list SubmitRequest
}.
Definition new_batcher (maxBatchSize : Z) : batcher :=
  {| bt_receiver := NewReceiverImpl maxBatchSize; bt_ticking := false; bt_transfer := false; bt_submitted := []; bt_handedOver := [] |}.

(** The result is the batches, whether requests are pending, and the request
    whose eviction or certificate rotation this node has to give up the
    leadership for. *)
Definition orderedBatch (s : ConsenterSupport) (r : receiver) (msg : SubmitRequest) :
    res (list Batch * bool * receiver * option SubmitRequest) :=
  if sr_IsConfig msg then
    msg ← (if (sr_LastValidationSeq msg <? Sequence s)%Z
           then payload ← ProcessConfigMsg s (sr_Payload msg); Ok (with_payload msg payload)
           else Ok msg);
    if checkForEvictionNCertRotation s (sr_Payload msg) then Ok ([], false, r, Some msg)
    else
      let '(existingPendingBatch, r) := CutBatch r in
      Ok ((if decide (length existingPendingBatch ≠ 0) then [existingPendingBatch] else []) ++ [[msg]], false, r, None)
  else
    '(batches, pending, r) ← OrderedBatch (OrdererConfig s) r msg;
    Ok (batches, pending, r, None).

Inductive event :=
  | Request (s : ConsenterSupport) (req : SubmitRequest)
  | TimerExpired
  | TransferEnded
  | BecomeFollower.

(** The timer only expires while it runs; the transfer ends and the loss of the
    leadership come from other goroutines. *)
Definition batcher_step (st : batcher) (e : event) : res batcher :=
  match e with
  | Request s req =>
      match orderedBatch s (bt_receiver st) req with
      | Panic => Panic
      | Err _ => Ok st
      | Ok (batches, pending, r, evicting) =>
          Ok {| bt_receiver := r; bt_ticking := pending;
                bt_transfer := bt_transfer st || bool_decide (is_Some evicting);
                bt_submitted := bt_submitted st ++
                  (if decide (0 < length batches ∧ 0 < length (hd [] batches)) then [batches] else []);
                bt_handedOver := bt_handedOver st ++ (if bt_transfer st then [] else option_list evicting) |}
      end
  | TimerExpired =>
      if bt_ticking st then
        let '(batch, r) := CutBatch (bt_receiver st) in
        Ok {| bt_receiver := r; bt_ticking := false; bt_transfer := bt_transfer st;
              bt_submitted := bt_submitted st ++ (if decide (length batch = 0) then [] else [[batch]]);
              bt_handedOver := bt_handedOver st |}
      else Ok st
  | TransferEnded =>
      Ok {| bt_receiver := bt_receiver st; bt_ticking := bt_ticking st; bt_transfer := false;
            bt_submitted := bt_submitted st; bt_handedOver := bt_handedOver st |}
  | BecomeFollower =>
      Ok {| bt_receiver := (Cut (bt_receiver st)).2; bt_ticking := bt_ticking st; bt_transfer := bt_transfer st;
            bt_submitted := bt_submitted st; bt_handedOver := bt_handedOver st |}
  end.
Definition batcher_run (maxBatchSize : Z) (es : list event) : res batcher := foldM batcher_step (new_batcher maxBatchSize) es.

(** ** The leader *)

Record blockCreator := { bc_hash : bytes; bc_number : Z }.

Section leader.
Context `{!Sha256} `{!ProtoMessage Envelope, !ProtoMessage Payload, !ProtoMessage ChannelHeader}.

(** The block over the marshalled envelopes, after the last one created. *)
Definition next_block (bc : blockCreator) (data : list bytes) : Block * blockCreator :=
  let number := u64 (bc_number bc + 1) in
  let header := {| bh_Number := number; bh_PreviousHash := bc_hash bc; bh_DataHash := BlockDataHash data |} in
  let block := NewBlock number (bc_hash bc) in
  ({| b_Header := Some header; b_Data := Some data; b_Metadata := b_Metadata block; b_BlockType := b_BlockType block |},
   {| bc_hash := BlockHeaderHash header; bc_number := number |}).
Definition blockCreator_createNextBlock (bc : blockCreator) (envs : list Envelope) : res (Block * blockCreator) :=
  data ← mapM MarshalOrPanic envs;
  Ok (next_block bc data).
Definition createNextBlockWithBatch (bc : blockCreator) (batch : Batch) : res (Block * blockCreator) :=
  data ← mapM (λ req, env ← deref (sr_Payload req); MarshalOrPanic env) batch;
  Ok (next_block bc data).

Definition checkValidationStatusOfTxns (s : ConsenterSupport) (inbatch : Batch) : res Batch :=
  first ← index inbatch 0;
  if sr_IsConfig first then
    if (sr_LastValidationSeq first <? Sequence s)%Z
    then payload ← ProcessConfigMsg s (sr_Payload first); Ok (<[0 := with_payload first payload]> inbatch)
    else Ok inbatch
  else
    foldM (λ outReq req,
        if (sr_LastValidationSeq req <? Sequence s)%Z then
          match ProcessNormalMsg s (sr_Payload req) with
          | Ok _ => Ok (outReq ++ [req])
          | Err _ => Ok outReq
          | Panic => Panic
          end
        else Ok (outReq ++ [req])) [] inbatch.

(** The leader: its block creator, the channel of blocks towards the goroutine
    that proposes them, the blocks proposed, and what holds back requests. *)
Record Leader := {
  ld_bc : blockCreator;
  ld_propC : list Block;
  ld_proposed : list Block;
  ld_configInflight : bool;
  ld_blockInflight : Z;
  ld_accepting : bool
}.

Fixpoint proposeBatch (s : ConsenterSupport) (maxInflightBlocks : nat) (c : Leader) (batches : list Batch) : res Leader :=
  match batches with
  | [] => Ok c
  | batch :: batches =>
      match checkValidationStatusOfTxns s batch with
      | Panic => Panic
      | Err _ => Ok c
      | Ok batch =>
          '(b, bc) ← createNextBlockWithBatch (ld_bc c) batch;
          if decide (length (ld_propC c) < maxInflightBlocks) then
            proposeBatch s maxInflightBlocks
              {| ld_bc := bc; ld_propC := ld_propC c ++ [b]; ld_proposed := ld_proposed c;
                 ld_configInflight := ld_configInflight c || IsConfigBlock b;
                 ld_blockInflight := ld_blockInflight c + 1; ld_accepting := ld_accepting c |} batches
          else Panic
      end
  end.

(** The submit case of [runBatch] on the leader. *)
Definition serve_submit (s : ConsenterSupport) (maxInflightBlocks : nat) (c : Leader) (req : SubmitRequest) : res Leader :=
  c ← proposeBatch s maxInflightBlocks c (sr_Batches req);
  Ok {| ld_bc := ld_bc c; ld_propC := ld_propC c; ld_proposed := ld_proposed c; ld_configInflight := ld_configInflight c;
        ld_blockInflight := ld_blockInflight c;
        ld_accepting := negb (ld_configInflight c || (Z.of_nat maxInflightBlocks <=? ld_blockInflight c)%Z) |}.

(** The proposing goroutine takes one block. *)
Definition propose_one (c : Leader) : Leader :=
  match ld_propC c with
  | [] => c
  | b :: rest =>
      {| ld_bc := ld_bc c; ld_propC := rest; ld_proposed := ld_proposed c ++ [b]; ld_configInflight := ld_configInflight c;
         ld_blockInflight := ld_blockInflight c; ld_accepting := ld_accepting c |}
  end.

(** Starting to serve after an election, at the last block of the ledger. *)
Definition start_serving (last : BlockHeader) : Leader :=
  {| ld_bc := {| bc_hash := BlockHeaderHash last; bc_number := bh_Number last |}; ld_propC := []; ld_proposed := [];
     ld_configInflight := false; ld_blockInflight := 0; ld_accepting := true |}.

Inductive leader_event := Submitted (s : ConsenterSupport) (req : SubmitRequest) | Proposed.
Definition leader_step (maxInflightBlocks : nat) (c : Leader) (e : leader_event) : res Leader :=
  match e with
  | Submitted s req => serve_submit s maxInflightBlocks c req
  | Proposed => Ok (propose_one c)
  end.
End leader.

(** ** What the batcher does with its events *)

(** The request as it is ordered: a configuration request whose sequence number
    is behind is processed again. *)
Definition revalidated (s : ConsenterSupport) (req : SubmitRequest) : res SubmitRequest :=
  if sr_IsConfig req && (sr_LastValidationSeq req <? Sequence s)%Z
  then payload ← ProcessConfigMsg s (sr_Payload req); Ok (with_payload req payload) else Ok req.
(** This node gives up the leadership instead of ordering the request. *)
Definition evicting (e : event) : bool :=
  match e with
  | Request s req =>
      match revalidated s req with Ok req => sr_IsConfig req && checkForEvictionNCertRotation s (sr_Payload req) | _ => false end
  | _ => false
  end.
(** The requests that an event adds to the order. *)
Definition accepted (e : event) : list SubmitRequest :=
  match e with
  | Request s req => match revalidated s req with Ok req' => if evicting e then [] else [req'] | _ => [] end
  | _ => []
  end.
(** The event can be handled: the channel is configured, the request carries an
    envelope and its processing returns one. *)
Definition event_ok (e : event) : Prop :=
  match e with
  | Request s req =>
      (sr_IsConfig req = false → is_Some (OrdererConfig s)) ∧
      match revalidated s req with Ok req' => is_Some (sr_Payload req') | Err _ => True | Panic => False end
  | _ => True
  end.

Lemma messageSizeBytes_range e : (0 <= messageSizeBytes e < two32)%Z.
Proof. unfold messageSizeBytes, u32. apply Z.mod_pos_bound. done. Qed.

(** The counter is exact enough to never cut an empty batch. *)
Definition counter_ok (r : receiver) : Prop := pendingFollowerBatch r = [] → pendingBatchSizeBytes r = 0%Z.

Lemma OrderedBatch_spec cfg r req batches pending r' :
  OrderedBatch cfg r req = Ok (batches, pending, r') → counter_ok r →
  concat batches ++ pendingFollowerBatch r' = pendingFollowerBatch r ++ [req] ∧ counter_ok r' ∧
  pending = bool_decide (pendingFollowerBatch r' ≠ []) ∧ Forall (λ b, b ≠ []) batches ∧ length batches ≤ 2.
Proof.
  unfold OrderedBatch. destruct cfg as [bs|]; [|done]. intros Hok Hc. apply bind_Ok in Hok as (env & _ & Hok).
  pose proof (messageSizeBytes_range env) as Hr. destruct (Z.ltb_spec (PreferredMaxBytes (batch_size r bs)) (messageSizeBytes env)).
  { destruct (decide (0 < length (pendingFollowerBatch r))) as [Hp|Hp]; injection Hok as <- <- <-; simpl.
    - split_and!; [by rewrite app_nil_r|done|done| |lia]. repeat constructor; [|done]. by destruct (pendingFollowerBatch r); simpl in *; [lia|].
    - assert (pendingFollowerBatch r = []) as E by (destruct (pendingFollowerBatch r); simpl in *; [done|lia]).
      rewrite E. split_and!; [done|done|done| |lia]. by repeat constructor. }
  destruct (Z.ltb_spec (PreferredMaxBytes (batch_size r bs)) (u32 (pendingBatchSizeBytes r + messageSizeBytes env))) as [Ho|Ho].
  - assert (pendingFollowerBatch r ≠ []) as Hne.
    { intros E. rewrite (Hc E) in Ho. simpl in Ho. unfold u32 in Ho. rewrite Z.mod_small in Ho by done. lia. }
    unfold counter_ok. destruct (Z.leb_spec (MaxMessageCount (batch_size r bs)) (u32 (Z.of_nat (length ([req] : Batch))))); simpl in Hok;
      [rewrite (proj2 (Z.leb_le _ _)) in Hok by done|rewrite (proj2 (Z.leb_gt _ _)) in Hok by done]; injection Hok as <- <- <-; simpl;
      rewrite ?app_nil_r; split_and!; try done; try lia; by repeat constructor.
  - unfold counter_ok. destruct (_ <=? _)%Z; injection Hok as <- <- <-; simpl; rewrite ?app_nil_r; split_and!; try done; try lia.
    + repeat constructor. by destruct (pendingFollowerBatch r).
    + by destruct (pendingFollowerBatch r).
    + rewrite bool_decide_eq_true_2; [done|]. by destruct (pendingFollowerBatch r).
Qed.

(** A batch holds ordinary requests or a single configuration request. *)
Definition normal (b : Batch) : Prop := Forall (λ req, sr_IsConfig req = false) b.
Definition batch_wf (b : Batch) : Prop := b ≠ [] ∧ (normal b ∨ ∃ req, b = [req]).

Lemma revalidated_config s req req' : revalidated s req = Ok req' → sr_IsConfig req' = sr_IsConfig req.
Proof. unfold revalidated. destruct (_ && _); [|by intros [= <-]]. intros (p & _ & [= <-])%bind_Ok. done. Qed.

Lemma orderedBatch_spec s r req batches pending r' ev :
  orderedBatch s r req = Ok (batches, pending, r', ev) → counter_ok r → normal (pendingFollowerBatch r) →
  concat batches ++ pendingFollowerBatch r' = pendingFollowerBatch r ++ accepted (Request s req) ∧
  counter_ok r' ∧ normal (pendingFollowerBatch r') ∧ Forall batch_wf batches ∧ length batches ≤ 2 ∧
  (evicting (Request s req) = false → pending = bool_decide (pendingFollowerBatch r' ≠ [])).
Proof.
  unfold orderedBatch, accepted, evicting. intros Hok Hc Hn. destruct (sr_IsConfig req) eqn:Hcfg.
  - apply bind_Ok in Hok as (req' & Hre & Hok). assert (revalidated s req = Ok req') as Hre' by (unfold revalidated; by rewrite Hcfg).
    rewrite Hre', (revalidated_config _ _ _ Hre'), Hcfg. simpl. destruct (checkForEvictionNCertRotation s (sr_Payload req')).
    + injection Hok as <- <- <- <-. rewrite app_nil_r. split_and!; [done|done|done|done|simpl; lia|done].
    + injection Hok as <- <- <- <-. simpl. unfold counter_ok; simpl. destruct (pendingFollowerBatch r) as [|x l]; simpl.
      * split_and!; [done|done|by constructor| |lia|done]. constructor; [|done]. split; [done|]. right. by eexists.
      * rewrite app_nil_r. split_and!; [done|done|by constructor| |lia|done]. constructor; [by split; [|left]|]. constructor; [|done]. split; [done|]. right. by eexists.
  - apply bind_Ok in Hok as ([[bs p] r1] & Ho & Hok). injection Hok as <- <- <- <-.
    destruct (OrderedBatch_spec _ _ _ _ _ _ Ho Hc) as (Hcat & Hc' & Hp & Hne & Hl2).
    assert (revalidated s req = Ok req) as -> by (unfold revalidated; by rewrite Hcfg). rewrite Hcfg. simpl.
    assert (Forall (λ req, sr_IsConfig req = false) (concat bs ++ pendingFollowerBatch r1)) as Hall.
    { rewrite Hcat. apply Forall_app. split; [done|by constructor]. }
    apply Forall_app in Hall as [Hbs Hr1]. split_and!; [done..| |done|done].
    apply Forall_concat in Hbs. apply (Forall_impl _ _ _ (proj2 (Forall_and _ _) (conj Hne Hbs))). intros b [Hb Hnb]. split; [done|by left].
Qed.

Lemma bind_Err {A B} (m : res A) (f : A → res B) e : m ≫= f = Err e → m = Err e ∨ ∃ a, m = Ok a ∧ f a = Err e.
Proof. destruct m; simpl; [right; by eexists|left; congruence|done]. Qed.
Lemma orderedBatch_Err s r req e : orderedBatch s r req = Err e → accepted (Request s req) = [].
Proof.
  unfold orderedBatch, accepted, revalidated. destruct (sr_IsConfig req); simpl.
  - intros [->|(req' & _ & Hf)]%bind_Err; [done|]. by destruct (checkForEvictionNCertRotation _ _).
  - intros [Ho|([[? ?] ?] & _ & ?)]%bind_Err; [|done]. exfalso. unfold OrderedBatch in Ho. destruct (OrdererConfig s) as [bs|]; [|done].
    apply bind_Err in Ho as [Ho|(p & _ & Ho)]; [by destruct (sr_Payload req)|]. repeat case_match; simplify_eq.
Qed.

(** ** Runs of the batcher *)

Notation pending_of st := (pendingFollowerBatch (bt_receiver st)).
Definition batcher_inv (st : batcher) : Prop :=
  counter_ok (bt_receiver st) ∧ normal (pending_of st) ∧ Forall (Forall batch_wf) (bt_submitted st) ∧ Forall (λ bs, 1 <= length bs <= 2) (bt_submitted st).

Lemma submitted_batches (batches : list Batch) : Forall batch_wf batches →
  (if decide (0 < length batches ∧ 0 < length (hd [] batches)) then [batches] else []) = (match batches with [] => [] | _ => [batches] end).
Proof.
  intros Hwf. destruct batches as [|b bs]; [by rewrite decide_False by (simpl; lia)|]. apply Forall_cons in Hwf as [[Hb _] _].
  rewrite decide_True; [done|]. destruct b; [done|]. simpl. lia.
Qed.

Lemma batcher_step_spec st e st' : batcher_step st e = Ok st' → batcher_inv st →
  batcher_inv st' ∧ concat (concat (bt_submitted st')) ++ pending_of st' = concat (concat (bt_submitted st)) ++ pending_of st ++ accepted e ∧
  (evicting e = false → bt_ticking st = bool_decide (pending_of st ≠ []) → bt_ticking st' = bool_decide (pending_of st' ≠ [])).
Proof.
  intros Hstep (Hc & Hn & Hwf & Hne). destruct e as [s req| | |]; simpl in Hstep.
  - destruct (orderedBatch s (bt_receiver st) req) as [[[[batches pending] r] ev]|e|] eqn:Ho; [|injection Hstep as <-|done].
    + destruct (orderedBatch_spec _ _ _ _ _ _ _ Ho Hc Hn) as (Hcat & Hc' & Hn' & Hwf' & Hl2 & Hp).
      rewrite submitted_batches in Hstep by done. injection Hstep as <-. unfold batcher_inv; cbn [bt_receiver bt_submitted bt_ticking]. split_and!; [done|done| | |by rewrite <-Hcat, app_assoc; destruct batches; rewrite ?concat_app, ?app_nil_r, ?concat_app; simpl; rewrite ?app_nil_r|intros He _; by apply Hp].
      * apply Forall_app. split; [done|]. destruct batches; [constructor|]. constructor; [done|constructor].
      * apply Forall_app. split; [done|]. destruct batches; [constructor|]. constructor; [simpl in *; lia|constructor].
    + rewrite (orderedBatch_Err _ _ _ _ Ho), app_nil_r. done.
  - destruct (bt_ticking st) eqn:Ht; injection Hstep as <-; simpl; rewrite app_nil_r; [|by rewrite <-Ht].
    unfold batcher_inv, counter_ok; cbn [bt_receiver bt_submitted bt_ticking pendingFollowerBatch]. destruct (pending_of st) as [|x l] eqn:Hp; simpl.
    + rewrite !app_nil_r. split_and!; [done|by constructor|done..].
    + rewrite concat_app. simpl. rewrite concat_app. simpl. rewrite !app_nil_r. 
      split_and!; [done|constructor| | |done|done]; (apply Forall_app; split; [done|]); constructor; [|constructor|simpl; lia|constructor].
      constructor; [|constructor]. split; [done|by left].
  - injection Hstep as <-. simpl. by rewrite app_nil_r.
  - injection Hstep as <-. simpl. by rewrite app_nil_r.
Qed.

Lemma batcher_fold es : ∀ st st', foldM batcher_step st es = Ok st' → batcher_inv st →
  batcher_inv st' ∧ concat (concat (bt_submitted st')) ++ pending_of st' = concat (concat (bt_submitted st)) ++ pending_of st ++ (es ≫= accepted) ∧
  (Forall (λ e, evicting e = false) es → bt_ticking st = bool_decide (pending_of st ≠ []) → bt_ticking st' = bool_decide (pending_of st' ≠ [])).
Proof.
  induction es as [|e es IH]; intros st st' Hrun Hinv.
  - injection Hrun as <-. simpl. by rewrite app_nil_r.
  - apply bind_Ok in Hrun as (st1 & Hst & Hrun). destruct (batcher_step_spec _ _ _ Hst Hinv) as (Hinv1 & Hcat1 & Ht1).
    destruct (IH _ _ Hrun Hinv1) as (Hinv' & Hcat & Ht). split_and!; [done| |].
    + rewrite Hcat, app_assoc, Hcat1, <-!app_assoc. done.
    + intros [He Hes]%Forall_cons Htick. auto.
Qed.

Lemma batcher_step_total st e : event_ok e → ∃ st', batcher_step st e = Ok st'.
Proof.
  destruct e as [s req| | |]; simpl; intros Hok; [|by destruct (bt_ticking st); eexists|by eexists|by eexists].
  destruct (orderedBatch s (bt_receiver st) req) as [[[[? ?] ?] ?]|e|] eqn:Ho; [by eexists|by eexists|]. exfalso.
  unfold orderedBatch in Ho. unfold revalidated in Hok. destruct Hok as [Hcfg Hok]. destruct (sr_IsConfig req); simpl in Hok.
  - destruct (if _ : bool then _ else _) as [req'| |]; simpl in Ho; [|done|done]. by destruct (checkForEvictionNCertRotation _ _).
  - destruct (Hcfg eq_refl) as [bs Hbs], Hok as [env Henv]. unfold OrderedBatch in Ho. rewrite Hbs, Henv in Ho. simpl in Ho. repeat case_match; simplify_eq.
Qed.
Lemma batcher_total es : ∀ st, Forall event_ok es → ∃ st', foldM batcher_step st es = Ok st'.
Proof.
  induction es as [|e es IH]; intros st Hes; [by eexists|]. apply Forall_cons in Hes as [He Hes].
  destruct (batcher_step_total st e He) as [st1 Hst]. destruct (IH st1 Hes) as [st' Hst']. exists st'. simpl. by rewrite Hst, bind_Ok_eq.
Qed.

Lemma new_batcher_inv max : batcher_inv (new_batcher max).
Proof. split_and!; [done|constructor..]. Qed.

(** C26: the batcher orders every request exactly once. Whatever requests,
    timer expirations, transfers and losses of the leadership happen, and
    however the configuration changes, the batches submitted so far followed by
    the pending requests are the accepted requests in the order they came. No
    submitted batch is empty, and a configuration request is alone in its
    batch. *)
Theorem batcher_exactly_once max es (Hok : Forall event_ok es) :
  ∃ st, batcher_run max es = Ok st ∧
    concat (concat (bt_submitted st)) ++ pending_of st = es ≫= accepted ∧
    Forall (Forall batch_wf) (bt_submitted st) ∧ normal (pending_of st).
Proof.
  destruct (batcher_total es (new_batcher max) Hok) as [st Hrun]. exists st. split; [done|].
  destruct (batcher_fold es _ _ Hrun (new_batcher_inv max)) as ((_ & Hn & Hwf & _) & Hcat & _). done.
Qed.

(** C29: requests never wait without a timer. As long as no request makes the
    node give up its leadership, the timer runs exactly while requests are
    pending, and its expiration submits all of them. *)
Theorem pending_requests_timed max es (Hok : Forall event_ok es) (Hev : Forall (λ e, evicting e = false) es) :
  ∃ st, batcher_run max es = Ok st ∧ bt_ticking st = bool_decide (pending_of st ≠ []) ∧
    ∃ st', batcher_run max (es ++ [TimerExpired]) = Ok st' ∧ pending_of st' = [] ∧
      concat (concat (bt_submitted st')) = es ≫= accepted.
Proof.
  destruct (batcher_total es (new_batcher max) Hok) as [st Hrun]. exists st.
  destruct (batcher_fold es _ _ Hrun (new_batcher_inv max)) as (Hinv & Hcat & Ht). specialize (Ht Hev eq_refl). split_and!; [done|done|].
  assert (∃ st', batcher_step st TimerExpired = Ok st' ∧ pending_of st' = []) as (st' & Hst' & Hp).
  { simpl. rewrite Ht. destruct (pending_of st) eqn:Hp; [|by eexists]. by exists st. }
  exists st'. destruct (batcher_step_spec _ _ _ Hst' Hinv) as (_ & Hcat' & _). split_and!; [|done|].
  - unfold batcher_run. rewrite foldM_app. unfold batcher_run in Hrun. rewrite Hrun, bind_Ok_eq. simpl in Hst' |- *. by rewrite Hst'.
  - rewrite Hp, app_nil_r in Hcat'. rewrite Hcat'. simpl. by rewrite app_nil_r.
Qed.

(** ** The limits on batches *)

Definition batch_bytes (b : Batch) : Z := foldr (λ req n, (from_option messageSizeBytes 0%Z (sr_Payload req) + n)%Z) 0%Z b.
Lemma batch_bytes_snoc b req env : sr_Payload req = Some env → batch_bytes (b ++ [req]) = (batch_bytes b + messageSizeBytes env)%Z.
Proof. intros He. induction b as [|x b IH]; simpl; [rewrite He; simpl; lia|]. rewrite IH. lia. Qed.

Section limits.
Context (cfg : BatchSize) (max : Z).
Notation limit := (batch_size (NewReceiverImpl max) cfg).
Context (Hmax : (1 <= MaxMessageCount limit < two32)%Z) (Hpref : (0 <= PreferredMaxBytes cfg < 2147483648)%Z).

Definition within_limits (b : Batch) : Prop :=
  (Z.of_nat (length b) <= MaxMessageCount limit)%Z ∧ ((batch_bytes b <= PreferredMaxBytes cfg)%Z ∨ length b = 1).
Definition counted (r : receiver) : Prop :=
  MaxBatchSize r = max ∧ pendingBatchSizeBytes r = batch_bytes (pendingFollowerBatch r) ∧
  (0 <= pendingBatchSizeBytes r <= PreferredMaxBytes cfg)%Z ∧ (Z.of_nat (length (pendingFollowerBatch r)) < MaxMessageCount limit)%Z.

Lemma counted_limits r : counted r → within_limits (pendingFollowerBatch r).
Proof using. intros (_ & Hc & Hp & Hl). split; [lia|left; lia]. Qed.
Lemma counted_cut r : counted r → counted (CutBatch r).2.
Proof using Hmax Hpref. intros (Hm & _). split_and!; simpl; [done|done|lia|lia|lia]. Qed.
Lemma single_limits req : within_limits [req].
Proof using Hmax. split; [simpl; lia|by right]. Qed.
Lemma limit_preferred r : MaxBatchSize r = max → batch_size r cfg = limit ∧ PreferredMaxBytes limit = PreferredMaxBytes cfg.
Proof using. intros Hm. unfold batch_size. rewrite Hm. simpl. by destruct (decide _). Qed.

(** Adding a request that fits to the pending ones. *)
Lemma counted_enqueue r req env r1 : counted r → sr_Payload req = Some env →
  (pendingBatchSizeBytes r + messageSizeBytes env <= PreferredMaxBytes cfg)%Z →
  r1 = {| pendingBatch := pendingBatch r; pendingFollowerBatch := pendingFollowerBatch r ++ [req];
          pendingBatchSizeBytes := u32 (pendingBatchSizeBytes r + messageSizeBytes env); MaxBatchSize := MaxBatchSize r |} →
  within_limits (pendingFollowerBatch r1) ∧ counted (CutBatch r1).2 ∧
  ((u32 (Z.of_nat (length (pendingFollowerBatch r1))) < MaxMessageCount limit)%Z → counted r1).
Proof using Hmax Hpref.
  intros (Hm & Hc & Hp & Hl) He Hfit ->. pose proof (messageSizeBytes_range env) as Hr. simpl.
  rewrite length_app. simpl. unfold u32. rewrite !Z.mod_small by (unfold two32 in *; lia). unfold within_limits, counted. simpl.
  rewrite length_app, (batch_bytes_snoc _ _ env) by done. simpl. split_and!; [lia|left; lia|done|done|lia..|]. intros Hlt. split_and!; [done|lia..].
Qed.

Lemma OrderedBatch_limits r req batches pending r' : OrderedBatch (Some cfg) r req = Ok (batches, pending, r') → counted r →
  Forall within_limits batches ∧ counted r'.
Proof using Hmax Hpref.
  unfold OrderedBatch. intros Hok Hc. pose proof (proj1 Hc) as Hm. destruct (limit_preferred r Hm) as [Hbs Hpr]. rewrite Hbs in Hok. cbv zeta in Hok. rewrite Hpr in Hok.
  apply bind_Ok in Hok as (env & He%deref_Ok & Hok). pose proof (counted_limits r Hc) as Hlim. pose proof (single_limits req) as Hs.
  destruct (Z.ltb_spec (PreferredMaxBytes cfg) (messageSizeBytes env)).
  { destruct (decide (0 < length (pendingFollowerBatch r))); injection Hok as <- <- <-; simpl; split; try done; try by apply (counted_cut r).
    - by repeat (constructor; [done|]).
    - by constructor. }
  pose proof (messageSizeBytes_range env) as Hr. pose proof Hc as (_ & _ & Hb & _).
  assert (u32 (pendingBatchSizeBytes r + messageSizeBytes env) = pendingBatchSizeBytes r + messageSizeBytes env)%Z as Hu
    by (unfold u32; apply Z.mod_small; unfold two32 in *; lia).
  destruct (Z.ltb_spec (PreferredMaxBytes cfg) (u32 (pendingBatchSizeBytes r + messageSizeBytes env))) as [Ho|Ho]; simpl in Hok.
  - destruct (counted_enqueue _ req env _ (counted_cut r Hc) He ltac:(simpl; lia) eq_refl) as (Hl1 & Hc1 & Hc2).
    destruct (_ <=? _)%Z eqn:Hle in Hok; injection Hok as <- <- <-; (split; [by repeat (constructor; [done|])|]); [done|]. by apply Hc2, Z.leb_gt.
  - destruct (counted_enqueue _ req env _ Hc He ltac:(lia) eq_refl) as (Hl1 & Hc1 & Hc2).
    destruct (_ <=? _)%Z eqn:Hle in Hok; injection Hok as <- <- <-; (split; [by repeat (constructor; [done|])|]); [done|]. by apply Hc2, Z.leb_gt.
Qed.

(** An event under this configuration, other than the loss of the leadership. *)
Definition configured (e : event) : Prop :=
  match e with Request s _ => OrdererConfig s = Some cfg | BecomeFollower => False | _ => True end.

Lemma batcher_step_limits st e st' : batcher_step st e = Ok st' → configured e → counted (bt_receiver st) →
  Forall (Forall within_limits) (bt_submitted st) → counted (bt_receiver st') ∧ Forall (Forall within_limits) (bt_submitted st').
Proof using Hmax Hpref.
  intros Hstep He Hc Hl. destruct e as [s req| | |]; simpl in Hstep, He; [| |by injection Hstep as <-|done].
  - destruct (orderedBatch s (bt_receiver st) req) as [[[[batches pending] r] ev]|e|] eqn:Ho; [|by injection Hstep as <-|done].
    assert (Forall within_limits batches ∧ counted r) as [Hb Hr].
    { clear Hstep. unfold orderedBatch in Ho. rewrite He in Ho. destruct (sr_IsConfig req).
      - apply bind_Ok in Ho as (req' & _ & Ho). destruct (checkForEvictionNCertRotation _ _); injection Ho as <- <- <- <-; [done|].
        split; [|by apply counted_cut]. apply Forall_app. split; [|constructor; [apply single_limits|done]].
        destruct (decide _); [constructor; [by apply counted_limits|done]|done].
      - apply bind_Ok in Ho as ([[bs p] r1] & Ho & [= <- <- <- <-]). by eapply OrderedBatch_limits. }
    injection Hstep as <-. cbn [bt_receiver bt_submitted]. split; [done|]. apply Forall_app. split; [done|].
    destruct (decide _); [by constructor|done].
  - destruct (bt_ticking st); injection Hstep as <-; [|done]. cbn [bt_receiver bt_submitted]. split; [by apply counted_cut|].
    apply Forall_app. split; [done|]. destruct (decide _); [done|]. constructor; [|done]. constructor; [by apply counted_limits|done].
Qed.

End limits.

(** ** The two cutters *)

Definition carries (req : SubmitRequest) (env : Envelope) : Prop := sr_Payload req = Some env.
Definition mirrors (r r' : receiver) : Prop :=
  Forall2 carries (pendingFollowerBatch r) (pendingBatch r') ∧
  pendingBatchSizeBytes r = pendingBatchSizeBytes r' ∧ MaxBatchSize r = MaxBatchSize r'.

(** the cutter of requests cuts where the cutter of envelopes cuts. Given
    the same envelopes in the same order, [OrderedBatch] and [Ordered] return
    batches of the same envelopes, agree on whether messages are pending, and
    keep corresponding states; both stop without a configuration. *)
Theorem OrderedBatch_mirrors_Ordered cfg r r' req env (Hr : mirrors r r') (Hreq : sr_Payload req = Some env) :
  match OrderedBatch cfg r req, Ordered cfg r' env with
  | Ok (batches, pending, r1), Ok (batches', pending', r1') =>
      Forall2 (Forall2 carries) batches batches' ∧ pending = pending' ∧ mirrors r1 r1'
  | Panic, Panic => True
  | _, _ => False
  end.
Proof.
  destruct Hr as (Hp & Hs & Hm). unfold OrderedBatch, Ordered. destruct cfg as [bs|]; [|done]. rewrite Hreq. cbn [deref]. rewrite bind_Ok_eq. cbv zeta.
  assert (batch_size r bs = batch_size r' bs) as -> by (unfold batch_size; by rewrite Hm). rewrite (Forall2_length _ _ _ Hp), Hs.
  assert (Forall2 (Forall2 carries) [[req]] [[env]]) as H1 by (by repeat constructor).
  destruct (_ <? _)%Z.
  { destruct (decide _); simpl; split_and!; try done. constructor; [done|done]. }
  destruct (_ <? _)%Z; simpl.
  - destruct (_ <=? _)%Z; simpl; split_and!; try done; repeat (constructor; try done).
  - assert (Forall2 carries (pendingFollowerBatch r ++ [req]) (pendingBatch r' ++ [env])) as Happ by (apply Forall2_app; [done|by constructor]).
    rewrite (Forall2_length _ _ _ Happ). destruct (_ <=? _)%Z; simpl; split_and!; try done; repeat (constructor; try done); simpl; by rewrite ?Hs.
Qed.

(** ** The chain of the leader *)

Section chain.
Context `{!Sha256} `{!ProtoMessage Envelope, !ProtoMessage Payload, !ProtoMessage ChannelHeader}.

(** Blocks that continue a chain from a header, and the header of the last. *)
Inductive chained (h0 : BlockHeader) : list Block → BlockHeader → Prop :=
| chained_nil : chained h0 [] h0
| chained_snoc bs h b h' data : chained h0 bs h → b_Header b = Some h' → b_Data b = Some data →
    bh_DataHash h' = BlockDataHash data → bh_Number h' = u64 (bh_Number h + 1) → bh_PreviousHash h' = BlockHeaderHash h →
    chained h0 (bs ++ [b]) h'.

Lemma chained_verified h0 bs hl base b0 : chained h0 bs hl → Forall (λ b, b_Data b ≠ Some []) bs →
  (∀ i, i < length base → VerifyBlockHash i base = Ok ()) → last base = Some b0 → b_Header b0 = Some h0 →
  (∀ i, i < length (base ++ bs) → VerifyBlockHash i (base ++ bs) = Ok ()) ∧ ∃ bl, last (base ++ bs) = Some bl ∧ b_Header bl = Some hl.
Proof.
  intros Hch Hne Hv H0 Hh0. induction Hch as [|bs h b h' data Hch IH Hh Hd Hdh Hn Hp]; [rewrite app_nil_r; split; [done|by exists b0]|].
  apply Forall_app in Hne as [Hne [Hb _]%Forall_cons]. destruct (IH Hne) as [Hall (bl & Hl & Hbl)]. rewrite app_assoc. split.
  - eapply VerifyBlockHash_snoc; [done|done|done|by intros ->|done|]. intros prev Hprev. rewrite Hl in Hprev. injection Hprev as <-.
    by exists h, h'.
  - exists b. by rewrite last_snoc.
Qed.

Definition created (c : Leader) : list Block := ld_proposed c ++ ld_propC c.
Definition req_bytes (req : SubmitRequest) : res bytes := env ← deref (sr_Payload req); MarshalOrPanic env.
(** The batches of a request that survive the validation; the first one that
    fails ends the loop. *)
Fixpoint validated (s : ConsenterSupport) (batches : list Batch) : list Batch :=
  match batches with
  | [] => []
  | b :: bs => match checkValidationStatusOfTxns s b with Ok b' => b' :: validated s bs | _ => [] end
  end.
Definition served (e : leader_event) : list Batch := match e with Submitted s req => validated s (sr_Batches req) | Proposed => [] end.
Definition holds (b : Block) (batch : Batch) : Prop := ∃ data, b_Data b = Some data ∧ mapM req_bytes batch = Ok data.

Definition leader_inv (h0 : BlockHeader) (c : Leader) (kept : list Batch) : Prop :=
  Forall2 holds (created c) kept ∧ ∃ hl, chained h0 (created c) hl ∧ bc_hash (ld_bc c) = BlockHeaderHash hl ∧ bc_number (ld_bc c) = bh_Number hl.

Lemma proposeBatch_inv h0 s max batches : ∀ c c' kept, proposeBatch s max c batches = Ok c' → leader_inv h0 c kept →
  leader_inv h0 c' (kept ++ validated s batches).
Proof.
  induction batches as [|batch batches IH]; intros c c' kept Hok Hinv; simpl in *; [injection Hok as <-; by rewrite app_nil_r|].
  destruct (checkValidationStatusOfTxns s batch) as [b'|e|]; [|injection Hok as <-; by rewrite app_nil_r|done].
  apply bind_Ok in Hok as ([b bc] & Hcr & Hok). apply bind_Ok in Hcr as (data & Hdata & Hcr). injection Hcr as <- <-.
  destruct (decide _); [|done]. apply IH with (kept := kept ++ [b']) in Hok; [by rewrite <-app_assoc in Hok|].
  destruct Hinv as (Hh & hl & Hch & Hbh & Hbn). split; unfold created in *; simpl; rewrite app_assoc.
  - apply Forall2_app; [done|]. constructor; [|done]. by exists data.
  - eexists. split; [|by split].
    eapply (chained_snoc _ _ hl); [exact Hch|reflexivity|reflexivity|reflexivity|simpl; by rewrite Hbn|exact Hbh].
Qed.
Lemma propose_one_created c : created (propose_one c) = created c ∧ ld_bc (propose_one c) = ld_bc c.
Proof. unfold propose_one, created. destruct (ld_propC c) as [|b l] eqn:E; simpl; [by rewrite E|]. by rewrite <-app_assoc. Qed.

Lemma leader_fold h0 max es : ∀ c c' kept, foldM (leader_step max) c es = Ok c' → leader_inv h0 c kept → leader_inv h0 c' (kept ++ (es ≫= served)).
Proof.
  induction es as [|e es IH]; intros c c' kept Hrun Hinv; [injection Hrun as <-; by rewrite app_nil_r|].
  apply bind_Ok in Hrun as (c1 & Hst & Hrun). simpl. rewrite app_assoc. eapply IH; [exact Hrun|]. destruct e as [s req|]; simpl in Hst.
  - apply bind_Ok in Hst as (c2 & Hp & [= <-]). by apply (proposeBatch_inv h0) with (kept := kept) in Hp.
  - injection Hst as <-. simpl. rewrite app_nil_r. unfold leader_inv. destruct (propose_one_created c) as [-> ->]. done.
Qed.
Lemma start_serving_inv h0 : leader_inv h0 (start_serving h0) [].
Proof. split; [constructor|]. exists h0. split_and!; [constructor|done|done]. Qed.

Lemma holds_data bs kept : Forall2 holds bs kept → mapM req_bytes (concat kept) = Ok (bs ≫= λ b, default [] (b_Data b)).
Proof.
  intros Hall. apply mapM_Ok. induction Hall as [|b batch bs kept (data & Hd & Hm) Hall IH]; simpl; [constructor|].
  apply Forall2_app; [|done]. rewrite Hd. by apply mapM_Ok.
Qed.

Lemma holds_nonempty bs kept : Forall2 holds bs kept → Forall batch_wf kept → Forall (λ b, b_Data b ≠ Some []) bs.
Proof.
  induction 1 as [|b batch bs kept (data & Hd & Hm) Hh IH]; intros Hwf; [done|]. apply Forall_cons in Hwf as [[Hne _] Hwf].
  constructor; [|by apply IH]. rewrite Hd. intros [= ->]. by apply mapM_Ok, Forall2_nil_inv_r in Hm.
Qed.

(** Requests that were validated under the present configuration stay as they are. *)
Definition fresh (s : ConsenterSupport) (b : Batch) : Prop := b ≠ [] ∧ Forall (λ req, Sequence s <= sr_LastValidationSeq req)%Z b.
Lemma fresh_validated s batches : Forall (fresh s) batches → validated s batches = batches.
Proof.
  induction 1 as [|b bs [Hne Hb] Hbs IH]; simpl; [done|]. assert (checkValidationStatusOfTxns s b = Ok b) as ->; [|by rewrite IH].
  unfold checkValidationStatusOfTxns. destruct b as [|req b]; [done|]. rewrite index_0, bind_Ok_eq. pose proof (proj1 (proj1 (Forall_cons _ _ _) Hb)) as H1. simpl in H1.
  destruct (sr_IsConfig req); [by rewrite (proj2 (Z.ltb_ge _ _)) by done|].
  assert (∀ l out, Forall (λ req, Sequence s <= sr_LastValidationSeq req)%Z l → foldM (λ outReq req, if (sr_LastValidationSeq req <? Sequence s)%Z then
    match ProcessNormalMsg s (sr_Payload req) with Ok _ => Ok (outReq ++ [req]) | Err _ => Ok outReq | Panic => Panic end else Ok (outReq ++ [req])) out l = Ok (out ++ l)) as Hf.
  { clear. induction l as [|x l IH]; intros out Hl; simpl; [by rewrite app_nil_r|]. apply Forall_cons in Hl as [Hx Hl].
    rewrite (proj2 (Z.ltb_ge _ _)) by done. rewrite bind_Ok_eq, IH by done. by rewrite <-app_assoc. }
  by rewrite Hf.
Qed.
End chain.

(** ** From the requests to the blocks *)

Definition batch_request (batches : list Batch) : SubmitRequest :=
  {| sr_LastValidationSeq := 0; sr_Payload := None; sr_IsConfig := false; sr_Batches := batches |}.
Lemma accepted_payload es : Forall event_ok es → Forall (λ req, is_Some (sr_Payload req)) (es ≫= accepted).
Proof.
  induction 1 as [|e es He Hes IH]; simpl; [done|]. apply Forall_app. split; [|done]. destruct e as [s req| | |]; simpl in *; [|done..].
  destruct (revalidated s req); [|done..]. destruct He as [_ He]. destruct (_ && _); [done|by constructor].
Qed.

Section composition.
Context `{!Sha256} `{!ProtoMessage Envelope, !ProtoMessage Payload, !ProtoMessage ChannelHeader}.

Definition submits (les : list leader_event) : list (list Batch) :=
  les ≫= λ e, match e with Submitted _ req => [sr_Batches req] | Proposed => [] end.
(** The leader serves each request and hands over its blocks before the next. *)
Definition schedule (s : ConsenterSupport) (subs : list (list Batch)) : list leader_event :=
  subs ≫= λ bs, Submitted s (batch_request bs) :: replicate (length bs) Proposed.
Lemma submits_app l k : submits (l ++ k) = submits l ++ submits k.
Proof. apply bind_app. Qed.
Lemma submits_schedule s subs : submits (schedule s subs) = subs.
Proof.
  induction subs as [|bs subs IH]; [done|].
  change (schedule s (bs :: subs)) with ((Submitted s (batch_request bs) :: replicate (length bs) Proposed) ++ schedule s subs).
  rewrite submits_app, IH. change (([bs] ++ submits (replicate (length bs) Proposed)) ++ subs = bs :: subs).
  assert (submits (replicate (length bs) Proposed) = []) as -> by (clear; by induction (length bs)). done.
Qed.

Lemma schedule_submitted s subs s' req : Submitted s' req ∈ schedule s subs → s' = s ∧ sr_Batches req ∈ subs.
Proof.
  intros (bs & Hin & Hbs)%list_elem_of_bind. apply elem_of_cons in Hin as [[= -> ->]|Hin]; [done|].
  by apply elem_of_replicate in Hin as [[=] _].
Qed.

(** Envelopes can be marshalled. *)
Context (Marshal_envelope : ∀ env : Envelope, ∃ b, Marshal env = Ok b).

Lemma proposeBatch_total s max batches : ∀ c, Forall (fresh s) batches → Forall (Forall (λ req, is_Some (sr_Payload req))) batches →
  length (ld_propC c) + length batches ≤ max → ∃ c', proposeBatch s max c batches = Ok c' ∧ length (ld_propC c') = length (ld_propC c) + length batches.
Proof.
  induction batches as [|b bs IH]; intros c Hf Hp Hlen; simpl in *; [exists c; split; [done|lia]|].
  apply Forall_cons in Hf as [Hf Hfs], Hp as [Hp Hps].
  pose proof (fresh_validated s [b] ltac:(by constructor)) as Hv. simpl in Hv.
  destruct (checkValidationStatusOfTxns s b) as [b'| |]; [|discriminate Hv..]. injection Hv as ->.
  unfold createNextBlockWithBatch. assert (∃ data, mapM (λ req, env ← deref (sr_Payload req); MarshalOrPanic env) b = Ok data) as [data ->].
  { clear -Hp Marshal_envelope. induction Hp as [|req b [env He] Hp [data IH]]; [by exists []|]. destruct (Marshal_envelope env) as [x Hx].
    exists (x :: data). apply mapM_Ok in IH. apply mapM_Ok. constructor; [|done]. rewrite He. cbn [deref]. rewrite bind_Ok_eq. unfold MarshalOrPanic. by rewrite Hx. }
  rewrite bind_Ok_eq. cbn -[decide proposeBatch]. rewrite decide_True by lia.
  edestruct IH as (c' & -> & Hlen'); [done|done| |exists c'; split; [done|]]; simpl in *; rewrite length_app in *; simpl in *; lia.
Qed.
Lemma drain_total max n : ∀ c, length (ld_propC c) = n → ∃ c', foldM (leader_step max) c (replicate n Proposed) = Ok c' ∧ ld_propC c' = [].
Proof.
  induction n as [|n IH]; intros c Hn; [exists c; split; [done|by apply nil_length_inv]|]. cbn [replicate foldM leader_step]. rewrite bind_Ok_eq. apply IH.
  unfold propose_one. destruct (ld_propC c); simpl in *; lia.
Qed.
Lemma schedule_total s max subs : ∀ c, ld_propC c = [] → Forall (λ bs, length bs ≤ max) subs → Forall (Forall (fresh s)) subs →
  Forall (Forall (Forall (λ req, is_Some (sr_Payload req)))) subs → ∃ c', foldM (leader_step max) c (schedule s subs) = Ok c'.
Proof.
  induction subs as [|bs subs IH]; intros c Hc Hl Hf Hp; [by exists c|].
  apply Forall_cons in Hl as [Hl Hls], Hf as [Hf Hfs], Hp as [Hp Hps].
  change (schedule s (bs :: subs)) with (Submitted s (batch_request bs) :: replicate (length bs) Proposed ++ schedule s subs).
  destruct (proposeBatch_total s max bs c Hf Hp) as (c1 & Hc1 & Hlen); [rewrite Hc; simpl; lia|]. rewrite Hc in Hlen.
  cbn [foldM leader_step]. unfold serve_submit. cbn [batch_request sr_Batches]. rewrite Hc1, !bind_Ok_eq, foldM_app.
  match goal with |- context [foldM (leader_step max) ?c0 (replicate _ _)] => destruct (drain_total max (length bs) c0 Hlen) as (c3 & -> & Hnil') end.
  rewrite bind_Ok_eq. by apply IH.
Qed.

Lemma served_fresh les : (∀ s req, Submitted s req ∈ les → Forall (fresh s) (sr_Batches req)) → les ≫= served = concat (submits les).
Proof.
  induction les as [|e les IH]; intros Hf; [done|]. change (e :: les) with ([e] ++ les). rewrite submits_app, concat_app, <-IH by (intros s req Hin; apply Hf; by right).
  rewrite bind_app. f_equal. destruct e as [s req|]; simpl; [|done]. rewrite !app_nil_r. apply fresh_validated, Hf. by left.
Qed.

Lemma submitted_fresh s max es st : batcher_run max es = Ok st →
  Forall (λ req, Sequence s <= sr_LastValidationSeq req)%Z (es ≫= accepted) → Forall (Forall (fresh s)) (bt_submitted st).
Proof using.
  intros Hrun Hf. destruct (batcher_fold es _ _ Hrun (new_batcher_inv max)) as ((_ & _ & Hwf & _) & Hcat & _).
  simpl in Hcat. rewrite <-Hcat in Hf. apply Forall_app in Hf as [Hf _].
  apply (proj1 (Forall_concat _ _)) in Hf. apply (proj1 (Forall_concat _ _)) in Hf.
  eapply Forall_impl; [exact (proj2 (Forall_and _ _) (conj Hwf Hf))|]. intros bs [Hb Hs].
  eapply Forall_impl; [exact (proj2 (Forall_and _ _) (conj Hb Hs))|]. intros b [[Hne _] Hb']. done.
Qed.

End composition.

(** ** What goes wrong *)

Section errors.
Context `{!Sha256} `{!ProtoMessage Envelope, !ProtoMessage Payload, !ProtoMessage ChannelHeader}.
Context `{!ProtoMessage MetadataMsg, !ProtoMessage SignatureHeader}.

(** a batch can lose all its requests to the revalidation, and the leader
    still makes a block of it. When the configuration has advanced and every
    request of the batch is now refused, the block has no transactions, and no
    node that verifies it, alone or in a sequence, accepts it. *)
Theorem emptied_batch_unverifiable s max c req batch
    (Hn : sr_IsConfig req = false) (Hstale : Forall (λ r, (sr_LastValidationSeq r < Sequence s)%Z) (req :: batch))
    (Hrefused : Forall (λ r, ∃ e, ProcessNormalMsg s (sr_Payload r) = Err e) (req :: batch))
    (Hroom : length (ld_propC c) < max) (Hnum : (0 <= bc_number (ld_bc c) < two64 - 1)%Z) :
  ∃ c' b, proposeBatch s max c [req :: batch] = Ok c' ∧ created c' = created c ++ [b] ∧ b_Data b = Some [] ∧
    (∀ base, VerifyBlockHash (length base) (base ++ [b]) = Err "block has malformed transactions") ∧
    ∀ policies chainID seqNum, VerifyBlock policies chainID seqNum b ≠ Ok ().
Proof.
  assert (checkValidationStatusOfTxns s (req :: batch) = Ok []) as Hv.
  { unfold checkValidationStatusOfTxns. rewrite index_0, bind_Ok_eq, Hn. revert Hstale Hrefused. generalize (req :: batch). clear.
    induction l as [|r l IH]; intros Hs Hr; [done|]. apply Forall_cons in Hs as [Hs Hss], Hr as [[e He] Hrs]. cbn [foldM].
    rewrite (proj2 (Z.ltb_lt _ _)), He, bind_Ok_eq by done. by apply IH. }
  cbn [proposeBatch]. rewrite Hv. unfold createNextBlockWithBatch. cbn [mapM]. change (mret []) with (Ok ([] : list bytes)). rewrite !bind_Ok_eq.
  cbn -[decide]. rewrite decide_True by done. eexists _, _. split; [reflexivity|]. unfold created; cbn [ld_proposed ld_propC]. rewrite app_assoc. split_and!; [done|done|..].
  - intros base. unfold VerifyBlockHash, index. rewrite length_app, decide_False by (simpl; lia). rewrite list_lookup_middle by done.
    cbn -[decide]. unfold u64. rewrite Z.mod_small by lia. by rewrite (proj2 (Z.ltb_lt _ _)) by lia.
  - intros policies chainID seqNum. unfold VerifyBlock. cbn -[decide]. by destruct (decide _).
Qed.

(** a configuration request that evicts the node, or rotates its
    certificate, is lost. The batcher orders nothing of it, stops the timer of
    the requests that are still pending, and leaves the request to the transfer
    of the leadership, which submits it as it is; but a leader makes blocks of
    the batches of a submitted request only, and this one has none. *)
Theorem evicting_request_lost s st req
    (He : evicting (Request s req) = true) (Htr : bt_transfer st = false) (Hb : sr_Batches req = []) :
  ∃ st' req', revalidated s req = Ok req' ∧ batcher_step st (Request s req) = Ok st' ∧
    bt_handedOver st' = bt_handedOver st ++ [req'] ∧ bt_submitted st' = bt_submitted st ∧
    pending_of st' = pending_of st ∧ bt_ticking st' = false ∧
    ∀ s' max c, ∃ c', serve_submit s' max c req' = Ok c' ∧ created c' = created c.
Proof.
  unfold evicting in He. destruct (revalidated s req) as [req'| |] eqn:Hre; [|done..]. apply andb_prop in He as [Hc Hev].
  assert (sr_Batches req' = []) as Hb'.
  { unfold revalidated in Hre. destruct (_ && _); [|by injection Hre as <-]. apply bind_Ok in Hre as (p & _ & [= <-]). done. }
  assert (orderedBatch s (bt_receiver st) req = Ok ([], false, bt_receiver st, Some req')) as Ho.
  { unfold orderedBatch. pose proof (revalidated_config _ _ _ Hre) as Hcc. rewrite Hc in Hcc. rewrite <-Hcc.
    unfold revalidated in Hre. rewrite <-Hcc in Hre. simpl in Hre. by rewrite Hre, bind_Ok_eq, Hev. }
  eexists _, req'. split; [done|]. cbn [batcher_step]. rewrite Ho, Htr. split; [reflexivity|]. cbn [bt_handedOver bt_submitted bt_receiver bt_ticking].
  rewrite submitted_batches, app_nil_r by constructor. split_and!; [done..|]. intros s' max c. unfold serve_submit. rewrite Hb'. by eexists.
Qed.
End errors.

(** ** Samples *)

#[local] Instance sample_bt_sha : Sha256 := λ b, b.
#[local] Instance sample_bt_env : ProtoMessage Envelope := {|
  Marshal e := Ok (env_Payload e); Unmarshal b := Ok {| env_Payload := b; env_Signature := []; env_Type := 0; env_LeanEnv := None |} |}.
#[local] Instance sample_bt_payload : ProtoMessage Payload := {| Marshal _ := Err "no codec"; Unmarshal _ := Err "no codec" |}.
#[local] Instance sample_bt_chdr : ProtoMessage ChannelHeader := {| Marshal _ := Err "no codec"; Unmarshal _ := Err "no codec" |}.
#[local] Instance sample_bt_md : ProtoMessage MetadataMsg := {| Marshal _ := Err "no codec"; Unmarshal _ := Err "no codec" |}.
#[local] Instance sample_bt_shdr : ProtoMessage SignatureHeader := {| Marshal _ := Err "no codec"; Unmarshal _ := Err "no codec" |}.

(** Batches of at most two messages and ten bytes; ordinary messages are no
    longer accepted, and the node is evicted by any configuration. *)
Definition sample_cfg : BatchSize := {| MaxMessageCount := 2; PreferredMaxBytes := 10 |}.
Definition sample_support : ConsenterSupport := {|
  OrdererConfig := Some sample_cfg; Sequence := 1; ProcessConfigMsg p := Ok p; ProcessNormalMsg _ := Err "access denied";
  checkForEvictionNCertRotation := λ _, true |}.
Definition sample_request (seq : Z) (isConfig : bool) (payload : bytes) : SubmitRequest :=
  {| sr_LastValidationSeq := seq; sr_Payload := Some {| env_Payload := payload; env_Signature := []; env_Type := 0; env_LeanEnv := None |};
     sr_IsConfig := isConfig; sr_Batches := [] |}.
Definition sample_events : list event :=
  [Request sample_support (sample_request 1 false (B "first")); Request sample_support (sample_request 1 false (B "too long for a batch"));
   Request sample_support (sample_request 1 false (B "third")); TimerExpired; Request sample_support (sample_request 1 false (B "fourth"))].
Lemma sample_events_ok : Forall event_ok sample_events.
Proof. repeat constructor; by eexists. Qed.

Lemma batcher_exactly_once_witness : ∃ st, batcher_run 0 sample_events = Ok st ∧
  concat (concat (bt_submitted st)) ++ pending_of st = sample_events ≫= accepted ∧ length (sample_events ≫= accepted) = 4.
Proof.
  destruct (batcher_exactly_once 0 sample_events sample_events_ok) as (st & Hrun & Hcat & _). exists st. split_and!; [done|done|reflexivity].
Defined.

Lemma pending_requests_timed_witness : ∃ st, batcher_run 0 (sample_events ++ [TimerExpired]) = Ok st ∧
  concat (concat (bt_submitted st)) = sample_events ≫= accepted.
Proof.
  destruct (pending_requests_timed 0 sample_events sample_events_ok) as (_ & _ & _ & st & Hrun & _ & Hcat); [by repeat constructor|]. exists st. split; assumption.
Defined.

Definition sample_state : batcher := match batcher_run 0 sample_events with Ok st => st | _ => new_batcher 0 end.
Lemma sample_runs : batcher_run 0 sample_events = Ok sample_state.
Proof. vm_compute. reflexivity. Qed.

Lemma OrderedBatch_mirrors_Ordered_witness : ∃ r r', mirrors r r' ∧ length (pendingBatch r') = 1 ∧
  match OrderedBatch (Some sample_cfg) r (sample_request 1 false (B "b")), Ordered (Some sample_cfg) r' {| env_Payload := B "b"; env_Signature := []; env_Type := 0; env_LeanEnv := None |} with
  | Ok (batches, _, _), Ok (batches', _, _) => Forall2 (Forall2 carries) batches batches' ∧ length batches = 1
  | _, _ => False
  end.
Proof.
  set (e := {| env_Payload := B "a"; env_Signature := []; env_Type := 0; env_LeanEnv := None |}).
  exists {| pendingBatch := []; pendingFollowerBatch := [sample_request 1 false (B "a")]; pendingBatchSizeBytes := 1; MaxBatchSize := 0 |},
    {| pendingBatch := [e]; pendingFollowerBatch := []; pendingBatchSizeBytes := 1; MaxBatchSize := 0 |}.
  assert (mirrors {| pendingBatch := []; pendingFollowerBatch := [sample_request 1 false (B "a")]; pendingBatchSizeBytes := 1; MaxBatchSize := 0 |}
    {| pendingBatch := [e]; pendingFollowerBatch := []; pendingBatchSizeBytes := 1; MaxBatchSize := 0 |}) as Hm by (by repeat constructor).
  split_and!; [done|done|].
  pose proof (OrderedBatch_mirrors_Ordered (Some sample_cfg) _ _ (sample_request 1 false (B "b")) _ Hm eq_refl) as Hx.
  vm_compute in Hx. vm_compute. by destruct Hx.
Defined.

Definition sample_base : list Block := [(next_block {| bc_hash := []; bc_number := 6 |} [B "genesis"]).1].

Lemma emptied_batch_unverifiable_witness : ∃ c' b,
  proposeBatch sample_support 5 (start_serving {| bh_Number := 7; bh_PreviousHash := []; bh_DataHash := [] |}) [[sample_request 0 false (B "stale")]] = Ok c' ∧
  created c' = [b] ∧ VerifyBlockHash 0 [b] = Err "block has malformed transactions".
Proof.
  destruct (emptied_batch_unverifiable sample_support 5 (start_serving {| bh_Number := 7; bh_PreviousHash := []; bh_DataHash := [] |})
    (sample_request 0 false (B "stale")) []) as (c' & b & Hp & Hc & _ & Hv & _); [done|by repeat constructor|by repeat econstructor|simpl; lia|simpl; unfold two64; lia|].
  exists c', b. split; [exact Hp|]. split; [exact Hc|]. exact (Hv []).
Defined.

(** A request waits while the configuration request makes the node give up its
    leadership. *)
Lemma evicting_request_lost_witness : ∃ st', batcher_step sample_state (Request sample_support (sample_request 1 true (B "cfg"))) = Ok st' ∧
  bt_ticking sample_state = true ∧ bt_ticking st' = false ∧ pending_of st' ≠ [].
Proof.
  destruct (evicting_request_lost sample_support sample_state (sample_request 1 true (B "cfg"))) as (st' & req' & _ & Hst & _ & _ & Hp & Ht & _); [done|vm_compute; done|done|].
  exists st'. split; [exact Hst|]. split; [vm_compute; reflexivity|]. split; [exact Ht|]. rewrite Hp. vm_compute. discriminate.
Defined.

(** The loss of the leadership resets the size of the pending batch without
    cutting the batch of requests, so that the batch outgrows the limit. *)
Lemma leadership_loss_forgets_size :
  let es := [Request sample_support (sample_request 1 false (B "1234567")); BecomeFollower; Request sample_support (sample_request 1 false (B "1234567"))] in
  match batcher_run 0 es with Ok st => batch_bytes <$> concat (bt_submitted st) = [14%Z] | _ => False end.
Proof. vm_compute. reflexivity. Qed.

(** The size of a message does not include its lean envelope. *)
Lemma lean_envelope_not_counted leanEnv :
  messageSizeBytes {| env_Payload := []; env_Signature := B "signature"; env_Type := 3; env_LeanEnv := leanEnv |} = 9%Z.
Proof. reflexivity. Qed.
