(* ===== verification/Policies.v ===== *)
(** * Signature policies

  Models common/cauthdsl (cauthdsl.go, policy.go), the collection of the valid
  identities of a signature set (common/policies/policy.go) and the implicit
  meta policies (common/policies/implicitmeta.go). An identity is whatever the
  membership service returns: its type, its deserialisation, its identifier,
  the verification of its signatures and the principals it satisfies are
  parameters. The evaluation marks the identities it has used in a slice that
  the code updates in place; here the marks are threaded. *)

From S2P Require Import Prelude Encoding Proto Block BlockVerify.
From stdpp Require Import options.
Local Open Scope nat_scope.
Set Default Proof Using "Type*".

(** A rule that is a nil pointer is [None]; [UnknownType] stands for a rule
    whose oneof is not set. *)
Inductive SignaturePolicy :=
  | SignedBy (i : Z)
  | NOutOf (n : Z) (rules : list (option SignaturePolicy))
  | UnknownType.

Section cauthdsl.
Context {Identity MSPPrincipal : Type} (SatisfiesPrincipal : Identity → MSPPrincipal → res unit).

Notation evaluator := (list Identity → list bool → res (bool * list bool)).

(** The loop over the signers of a [SignedBy] rule, from index [i]. *)
Fixpoint signed_by (signedByID : MSPPrincipal) (i : nat) (signedData : list Identity) (used : list bool) : res (bool * list bool) :=
  match signedData with
  | [] => Ok (false, used)
  | sd :: rest =>
      u ← index used i;
      if u : bool then signed_by signedByID (S i) rest used
      else
        match SatisfiesPrincipal sd signedByID with
        | Ok _ => Ok (true, <[i := true]> used)
        | Err _ => signed_by signedByID (S i) rest used
        | Panic => Panic
        end
  end.
(** The loop over the rules of a gate: a rule that fails leaves no marks. *)
Fixpoint gate (policies : list evaluator) (signedData : list Identity) (verified : Z) (used : list bool) : res (Z * list bool) :=
  match policies with
  | [] => Ok (verified, used)
  | policy :: policies =>
      '(ok, _used) ← policy signedData used;
      if ok : bool then gate policies signedData (verified + 1)%Z _used else gate policies signedData verified used
  end.

Fixpoint compile (identities : list MSPPrincipal) (policy : SignaturePolicy) : res evaluator :=
  match policy with
  | NOutOf n rules =>
      policies ← (fix compile_rules (rules : list (option SignaturePolicy)) : res (list evaluator) :=
        match rules with
        | [] => Ok []
        | None :: _ => Err "Empty policy element"
        | Some rule :: rules =>
            compiledPolicy ← compile identities rule;
            compiled ← compile_rules rules;
            Ok (compiledPolicy :: compiled)
        end) rules;
      Ok (λ signedData used,
        '(verified, used) ← gate policies signedData 0 used;
        Ok ((n <=? verified)%Z, used))
  | SignedBy i =>
      if decide (i < 0 ∨ Z.of_nat (length identities) <= i)%Z then Err "identity index out of range"
      else
        signedByID ← index identities (Z.to_nat i);
        Ok (λ signedData used, signed_by signedByID 0 signedData used)
  | UnknownType => Err "Unknown type"
  end.

(** The evaluator of a policy envelope; [None] is a nil rule. *)
Definition NewPolicy (identities : list MSPPrincipal) (rule : option SignaturePolicy) : res evaluator :=
  match rule with None => Err "Empty policy element" | Some rule => compile identities rule end.

(** [None] is a nil policy. *)
Definition EvaluateIdentities (p : option evaluator) (identities : list Identity) : res unit :=
  match p with
  | None => Err "No such policy"
  | Some evaluate =>
      '(ok, _) ← evaluate identities (replicate (length identities) false);
      if ok : bool then Ok () else Err "signature set did not satisfy policy"
  end.

Context (DeserializeIdentity : bytes → res Identity) (Mspid Id : Identity → bytes) (Verify : Identity → bytes → bytes → res unit).

(** One entry of the signature set: the keys seen so far and the identities. *)
Definition collect_identity (acc : gset bytes * list Identity) (sd : SignedData) : res (gset bytes * list Identity) :=
  match DeserializeIdentity (sd_Identity sd) with
  | Err _ => Ok acc
  | Panic => Panic
  | Ok identity =>
      let key := Mspid identity ++ Id identity in
      if decide (key ∈ acc.1) then Ok acc
      else
        match Verify identity (sd_Data sd) (sd_Signature sd) with
        | Err _ => Ok acc
        | Panic => Panic
        | Ok _ => Ok ({[key]} ∪ acc.1, acc.2 ++ [identity])
        end
  end.
Definition SignatureSetToValidIdentities (signedData : list SignedData) : res (list Identity) :=
  acc ← foldM collect_identity (∅, []) signedData;
  Ok acc.2.
Definition EvaluateSignedData (p : option evaluator) (signatureSet : list SignedData) : res unit :=
  match p with
  | None => Err "no such policy"
  | Some _ => ids ← SignatureSetToValidIdentities signatureSet; EvaluateIdentities p ids
  end.
End cauthdsl.

(** ** Implicit meta policies *)

Inductive ImplicitMetaRule := ANY | ALL | MAJORITY | OtherRule.
(** A policy is known by how it evaluates a signature set. *)
Record ImplicitMetaPolicy (A : Type) := { Threshold : Z; SubPolicies : list (A → res unit) }.
Arguments Threshold {A}.
Arguments SubPolicies {A}.
Definition NewImplicitMetaPolicy {A} (rule : ImplicitMetaRule) (subPolicies : list (A → res unit)) : ImplicitMetaPolicy A :=
  let n := Z.of_nat (length subPolicies) in
  let threshold := match rule with ANY => 1 | ALL => n | MAJORITY => n / 2 + 1 | OtherRule => 0 end%Z in
  {| Threshold := if decide (length subPolicies = 0) then 0%Z else threshold; SubPolicies := subPolicies |}.
(** The loop, with what remains of the threshold; the result is [true] as soon
    as nothing remains after a satisfied policy. *)
Fixpoint count_down {A} (x : A) (subPolicies : list (A → res unit)) (remaining : Z) : res (Z * bool) :=
  match subPolicies with
  | [] => Ok (remaining, false)
  | policy :: subPolicies =>
      match policy x with
      | Panic => Panic
      | Err _ => count_down x subPolicies remaining
      | Ok _ => if decide (remaining - 1 = 0)%Z then Ok (0%Z, true) else count_down x subPolicies (remaining - 1)
      end
  end.
Definition ImplicitMetaPolicy_Evaluate {A} (imp : ImplicitMetaPolicy A) (x : A) : res unit :=
  '(remaining, done) ← count_down x (SubPolicies imp) (Threshold imp);
  if (done : bool) || bool_decide (remaining = 0%Z) then Ok () else Err "implicit policy evaluation failed".

(** ** What a satisfied policy means *)

Section spec.
Context {Identity MSPPrincipal : Type} (SatisfiesPrincipal : Identity → MSPPrincipal → res unit).
Context (principals : list MSPPrincipal) (ids : list Identity).

(** The policy is satisfied by the identities at the given positions, one for
    each [SignedBy] rule that counts. *)
Inductive satisfied : SignaturePolicy → list nat → Prop :=
| satisfied_by i p k id : (0 <= i)%Z → principals !! Z.to_nat i = Some p → ids !! k = Some id → SatisfiesPrincipal id p = Ok () →
    satisfied (SignedBy i) [k]
| satisfied_gate n rules ks count : satisfied_rules rules ks count → (n <= Z.of_nat count)%Z → satisfied (NOutOf n rules) ks
with satisfied_rules : list (option SignaturePolicy) → list nat → nat → Prop :=
| satisfied_nil : satisfied_rules [] [] 0
| satisfied_skip rule rules ks count : satisfied_rules rules ks count → satisfied_rules (rule :: rules) ks count
| satisfied_take rule rules ks ks' count : satisfied rule ks → satisfied_rules rules ks' count →
    satisfied_rules (Some rule :: rules) (ks ++ ks') (S count).

(** The marks after using the identities at the given positions. *)
Definition marked (used : list bool) (ks : list nat) (used' : list bool) : Prop :=
  NoDup ks ∧ (∀ k, k ∈ ks → used !! k = Some false) ∧ ∀ k, used' !! k = if decide (k ∈ ks) then Some true else used !! k.
Lemma marked_nil used : marked used [] used.
Proof. split_and!; [constructor|by intros k []%elem_of_nil|]. intros k. by rewrite decide_False by apply not_elem_of_nil. Qed.
Lemma marked_app used ks1 used1 ks2 used2 : marked used ks1 used1 → marked used1 ks2 used2 → marked used (ks1 ++ ks2) used2.
Proof.
  intros (N1 & F1 & M1) (N2 & F2 & M2).
  assert (∀ k, k ∈ ks2 → k ∉ ks1 ∧ used !! k = Some false) as Hd.
  { intros k Hk. pose proof (F2 k Hk) as Hf. rewrite M1 in Hf. by destruct (decide (k ∈ ks1)). }
  split_and!.
  - apply NoDup_app. split_and!; [done| |done]. intros k H1 H2. by apply (Hd k) in H2 as [? _].
  - intros k [?|Hk]%elem_of_app; [by apply F1|by apply Hd].
  - intros k. rewrite M2, M1. destruct (decide (k ∈ ks2)), (decide (k ∈ ks1)), (decide (k ∈ ks1 ++ ks2)) as [Hin|Hin]; rewrite elem_of_app in Hin; naive_solver.
Qed.

Lemma signed_by_marks p : ∀ l pre used ok used', ids = pre ++ l →
  signed_by SatisfiesPrincipal p (length pre) l used = Ok (ok, used') →
  if ok then ∃ k id, ids !! k = Some id ∧ SatisfiesPrincipal id p = Ok () ∧ marked used [k] used' else used' = used.
Proof.
  induction l as [|sd l IH]; intros pre used ok used' Hids Hok; simpl in Hok; [by injection Hok as <- <-|].
  apply bind_Ok in Hok as (u & Hu & Hok). unfold index in Hu. destruct (used !! length pre) as [u'|] eqn:Hl; [|done]. injection Hu as ->.
  assert (∀ ok used', signed_by SatisfiesPrincipal p (S (length pre)) l used = Ok (ok, used') →
    if ok then ∃ k id, ids !! k = Some id ∧ SatisfiesPrincipal id p = Ok () ∧ marked used [k] used' else used' = used) as Hnext.
  { intros ok' used'' Hs. apply (IH (pre ++ [sd])); [by rewrite <-app_assoc|]. rewrite length_app. simpl. by rewrite Nat.add_1_r. }
  destruct u; [by apply Hnext|]. destruct (SatisfiesPrincipal sd p) as [[]| |] eqn:Hs; [|by apply Hnext|done].
  injection Hok as <- <-. exists (length pre), sd. split_and!; [rewrite Hids; by rewrite list_lookup_middle|done|].
  split_and!; [apply NoDup_singleton|by intros k ->%list_elem_of_singleton|]. intros k. destruct (decide (k ∈ _)) as [->%list_elem_of_singleton|Hk].
  - rewrite list_lookup_insert_eq; [done|]. by eapply lookup_lt_Some.
  - rewrite list_lookup_insert_ne; [done|]. intros <-. apply Hk. by left.
Qed.
End spec.

(** Induction over a policy and the rules of its gates. *)
Lemma policy_ind (P : SignaturePolicy → Prop) :
  (∀ i, P (SignedBy i)) → (∀ n rules, Forall (λ r, from_option P True r) rules → P (NOutOf n rules)) → P UnknownType → ∀ p, P p.
Proof.
  intros Hs Hg Hu. fix IH 1. intros [i|n rules|]; [apply Hs| |apply Hu]. apply Hg. induction rules as [|[r|] rules IHr]; constructor; simpl; [apply IH|done|done|done].
Qed.

Section soundness.
Context {Identity MSPPrincipal : Type} (SatisfiesPrincipal : Identity → MSPPrincipal → res unit).
Context (principals : list MSPPrincipal) (ids : list Identity).
Notation sat := (satisfied SatisfiesPrincipal principals ids).
Notation sat_rules := (satisfied_rules SatisfiesPrincipal principals ids).

(** An evaluator of a policy is sound if it only accepts when unmarked
    identities satisfy the policy, and marks these. *)
Definition sound (policy : SignaturePolicy) (ev : list Identity → list bool → res (bool * list bool)) : Prop :=
  ∀ used used', ev ids used = Ok (true, used') → ∃ ks, sat policy ks ∧ marked used ks used'.

Lemma gate_sound rules evs : Forall2 (λ r ev, ∃ p, r = Some p ∧ sound p ev) rules evs → ∀ v used v' used', gate evs ids v used = Ok (v', used') →
  ∃ ks count, sat_rules rules ks count ∧ v' = (v + Z.of_nat count)%Z ∧ marked used ks used'.
Proof.
  induction 1 as [|r ev rules evs (p & -> & Hs) Hall IH]; intros v used v' used' Hok; simpl in Hok.
  - injection Hok as <- <-. exists [], 0. split_and!; [constructor|lia|apply marked_nil].
  - apply bind_Ok in Hok as ([ok u1] & Hev & Hok). destruct ok.
    + destruct (Hs _ _ Hev) as (ks1 & Hsat & Hm1). destruct (IH _ _ _ _ Hok) as (ks & count & Hr & -> & Hm).
      exists (ks1 ++ ks), (S count). split_and!; [by constructor|lia|by eapply marked_app].
    + destruct (IH _ _ _ _ Hok) as (ks & count & Hr & -> & Hm). exists ks, count. split_and!; [by constructor|done|done].
Qed.

Lemma compile_sound policy : ∀ ev, compile SatisfiesPrincipal principals policy = Ok ev → sound policy ev.
Proof.
  induction policy as [i|n rules IH|] using policy_ind; intros ev Hok; simpl in Hok; [| |done].
  - destruct (decide _) as [|Hr]; [done|]. apply bind_Ok in Hok as (p & Hp & [= <-]). intros used used' Hev.
    unfold index in Hp. destruct (principals !! Z.to_nat i) as [p'|] eqn:Hl; [|done]. injection Hp as ->.
    destruct (signed_by_marks SatisfiesPrincipal principals ids p ids [] used true used' eq_refl Hev) as (k & id & Hk & Hs & Hm).
    exists [k]. split; [|done]. eapply satisfied_by; [lia|done..].
  - apply bind_Ok in Hok as (evs & Hevs & [= <-]). intros used used' Hev. apply bind_Ok in Hev as ([v u] & Hg & Hev).
    injection Hev as Hle <-. apply Z.leb_le in Hle.
    assert (Forall2 (λ r ev, ∃ p, r = Some p ∧ sound p ev) rules evs) as Hall.
    { clear Hg Hle. revert evs Hevs. induction IH as [|[r|] rules Hr Hrs IHr]; intros evs Hevs; [by injection Hevs as <-| |done].
      apply bind_Ok in Hevs as (ev & Hev & Hevs). apply bind_Ok in Hevs as (evs' & Hevs' & [= <-]). constructor; [|by apply IHr].
      exists r. split; [done|]. by apply Hr. }
    destruct (gate_sound _ _ Hall _ _ _ _ Hg) as (ks & count & Hr & -> & Hm). exists ks. split; [|done]. econstructor; [done|lia].
Qed.
End soundness.

Section signatures.
Context {Identity MSPPrincipal : Type} (SatisfiesPrincipal : Identity → MSPPrincipal → res unit).
Context (DeserializeIdentity : bytes → res Identity) (Mspid Id : Identity → bytes) (Verify : Identity → bytes → bytes → res unit).
Notation key id := (Mspid id ++ Id id).

Lemma valid_identities sigs ids : SignatureSetToValidIdentities DeserializeIdentity Mspid Id Verify sigs = Ok ids →
  NoDup ((λ id, key id) <$> ids) ∧
  ∀ id, id ∈ ids → ∃ sd, sd ∈ sigs ∧ DeserializeIdentity (sd_Identity sd) = Ok id ∧ Verify id (sd_Data sd) (sd_Signature sd) = Ok ().
Proof.
  unfold SignatureSetToValidIdentities. intros (acc & Hf & [= <-])%bind_Ok.
  assert (∀ l acc0 acc, foldM (collect_identity DeserializeIdentity Mspid Id Verify) acc0 l = Ok acc → l ⊆ sigs →
    (∀ k, k ∈ acc0.1 ↔ k ∈ (λ id, key id) <$> acc0.2) ∧ NoDup ((λ id, key id) <$> acc0.2) ∧
    (∀ id, id ∈ acc0.2 → ∃ sd, sd ∈ sigs ∧ DeserializeIdentity (sd_Identity sd) = Ok id ∧ Verify id (sd_Data sd) (sd_Signature sd) = Ok ()) →
    NoDup ((λ id, key id) <$> acc.2) ∧
    ∀ id, id ∈ acc.2 → ∃ sd, sd ∈ sigs ∧ DeserializeIdentity (sd_Identity sd) = Ok id ∧ Verify id (sd_Data sd) (sd_Signature sd) = Ok ()) as Hind.
  { clear. induction l as [|sd l IH]; intros acc0 acc Hf Hsub (Hk & Hn & Hv); [by injection Hf as <-|].
    apply bind_Ok in Hf as (acc1 & H1 & Hf). apply (IH _ _ Hf); [set_solver|]. unfold collect_identity in H1.
    destruct (DeserializeIdentity (sd_Identity sd)) as [id| |] eqn:Hd; [|by injection H1 as <-|done].
    destruct (decide _) as [|Hnew]; [by injection H1 as <-|]. destruct (Verify id _ _) as [[]| |] eqn:Hver; [|by injection H1 as <-|done].
    injection H1 as <-. simpl. rewrite fmap_app. split_and!.
    - intros k. rewrite elem_of_union, elem_of_singleton, elem_of_app, Hk. simpl. rewrite list_elem_of_singleton. tauto.
    - apply NoDup_app. split_and!; [done| |apply NoDup_singleton]. intros k Hin ->%list_elem_of_singleton. by apply Hnew, Hk.
    - intros id' [?| ->%list_elem_of_singleton]%elem_of_app; [by apply Hv|]. exists sd. split_and!; [set_solver|done|done]. }
  apply (Hind _ _ _ Hf); [done|]. simpl. split_and!; [|constructor|by intros id []%elem_of_nil]. intros k. by rewrite elem_of_empty, elem_of_nil.
Qed.

(** C11: a signature policy is only satisfied by distinct signers. If a compiled
    policy accepts a signature set, there are identities with pairwise distinct
    identifiers, each with a valid signature in the set, and an assignment of
    different ones of them to the principals of the policy that satisfies every
    gate the policy needs. *)
Theorem policy_acceptance_sound principals policy ev sigs
    (Hc : NewPolicy SatisfiesPrincipal principals (Some policy) = Ok ev)
    (Hok : EvaluateSignedData DeserializeIdentity Mspid Id Verify (Some ev) sigs = Ok ()) :
  ∃ ids ks, NoDup ((λ id, key id) <$> ids) ∧
    (∀ id, id ∈ ids → ∃ sd, sd ∈ sigs ∧ DeserializeIdentity (sd_Identity sd) = Ok id ∧ Verify id (sd_Data sd) (sd_Signature sd) = Ok ()) ∧
    satisfied SatisfiesPrincipal principals ids policy ks ∧ NoDup ks.
Proof.
  apply bind_Ok in Hok as (ids & Hids & Hok). simpl in Hok. apply bind_Ok in Hok as ([ok used] & Hev & Hok). destruct ok; [|done].
  destruct (valid_identities _ _ Hids) as [Hn Hv]. destruct (compile_sound _ principals ids policy ev Hc _ _ Hev) as (ks & Hs & Hm & _). by exists ids, ks.
Qed.
End signatures.

(** ** Implicit meta policies *)

Definition satisfied_count {A} (x : A) (subPolicies : list (A → res unit)) : nat := length (filter (λ p, is_ok (p x) = true) subPolicies).

Lemma count_down_spec {A} (x : A) subs : Forall (λ p, p x ≠ Panic) subs → ∀ remaining, ∃ rest stop,
  count_down x subs remaining = Ok (rest, stop) ∧
  (stop || bool_decide (rest = 0%Z) = true ↔ (remaining = 0%Z ∧ satisfied_count x subs = 0) ∨ (1 <= remaining <= Z.of_nat (satisfied_count x subs))%Z).
Proof.
  unfold satisfied_count. induction 1 as [|p subs Hp Hsubs IH]; intros remaining; simpl.
  - exists remaining, false. split; [done|]. simpl. rewrite bool_decide_eq_true. lia.
  - rewrite filter_cons. destruct (p x) as [[]|e|] eqn:Hx; [|rewrite decide_False by done; apply IH|done].
    rewrite (decide_True (P := is_ok _ = true)) by done. cbn [length]. destruct (decide (remaining - 1 = 0)%Z) as [Hr|Hr].
    + exists 0%Z, true. split; [done|]. simpl. split; [|done]. intros _. right. lia.
    + destruct (IH (remaining - 1)%Z) as (rest & stop & -> & Hiff). exists rest, stop. split; [done|]. rewrite Hiff. lia.
Qed.

(** C37: an implicit meta policy counts the sub-policies that are satisfied.
    ANY, ALL and MAJORITY accept when at least one, all, or more than half of
    the sub-policies accept, and without sub-policies always. A rule the code
    does not know is accepted exactly when no sub-policy is satisfied. *)
Theorem implicit_meta_counts {A} (x : A) rule subs (Hp : Forall (λ p, p x ≠ Panic) subs) :
  ImplicitMetaPolicy_Evaluate (NewImplicitMetaPolicy rule subs) x = Ok () ↔
  match rule with
  | ANY => subs = [] ∨ 1 <= satisfied_count x subs
  | ALL => satisfied_count x subs = length subs
  | MAJORITY => subs = [] ∨ length subs < 2 * satisfied_count x subs
  | OtherRule => satisfied_count x subs = 0
  end.
Proof.
  unfold ImplicitMetaPolicy_Evaluate, NewImplicitMetaPolicy. cbn [Threshold SubPolicies].
  set (t := if decide (length subs = 0) then 0%Z else _). destruct (count_down_spec x subs Hp t) as (rest & stop & -> & Hiff).
  rewrite bind_Ok_eq. assert (satisfied_count x subs <= length subs) as Hle by (unfold satisfied_count; apply length_filter).
  assert (((if stop || bool_decide (rest = 0%Z) then Ok () else Err "implicit policy evaluation failed") = Ok ()) ↔ stop || bool_decide (rest = 0%Z) = true) as ->
    by (destruct (_ || _); split; congruence).
  rewrite Hiff. subst t. assert (subs = [] ↔ length subs = 0) as Hnil by (by rewrite length_zero_iff_nil). pose proof (Z.div_mod (Z.of_nat (length subs)) 2). pose proof (Z.mod_pos_bound (Z.of_nat (length subs)) 2).
  destruct (decide (length subs = 0)), rule; rewrite ?Hnil; lia.
Qed.

(** ** Samples *)

(** Identities are numbers; an identity satisfies the principals of its list. *)
Definition sample_satisfies (id : nat) (p : list nat) : res unit := if decide (id ∈ p) then Ok () else Err "not of this principal".
Definition sample_deserialize (b : bytes) : res nat := match b with [b] => Ok (Z.to_nat (byteZ b)) | _ => Err "bad identity" end.
Definition sample_id (id : nat) : bytes := [Zbyte (Z.of_nat id)].
Definition sample_sig (id : byte) : SignedData := {| sd_Data := B "block"; sd_Identity := [id]; sd_Signature := [id] |}.
Definition sample_verify (id : nat) (data sig : bytes) : res unit := if decide (sig = sample_id id) then Ok () else Err "bad signature".
Definition two_of : SignaturePolicy := NOutOf 2 [Some (SignedBy 0); Some (SignedBy 1)].
Definition sample_ev := match compile sample_satisfies [[1; 2]; [1]] two_of with Ok ev => ev | _ => λ _ used, Ok (false, used) end.

Lemma policy_acceptance_sound_witness : ∃ ids ks, satisfied sample_satisfies [[1; 2]; [1]] ids two_of ks ∧ NoDup ks ∧
  ∀ id, id ∈ ids → ∃ sd, sd ∈ [sample_sig x02; sample_sig x02; sample_sig x01] ∧ sample_verify id (sd_Data sd) (sd_Signature sd) = Ok ().
Proof.
  destruct (policy_acceptance_sound sample_satisfies sample_deserialize (λ _, []) sample_id sample_verify [[1; 2]; [1]] two_of sample_ev
    [sample_sig x02; sample_sig x02; sample_sig x01] ltac:(reflexivity) ltac:(vm_compute; reflexivity)) as (ids & ks & _ & Hv & Hs & Hn).
  exists ids, ks. split_and!; [done|done|]. intros id Hid. destruct (Hv id Hid) as (sd & Hin & _ & Hver). by exists sd.
Defined.

(** The evaluation does not backtrack: with the signers in the other order the
    first rule takes the only identity that satisfies the second. *)
Lemma evaluation_order_matters :
  EvaluateSignedData sample_deserialize (λ _, []) sample_id sample_verify (Some sample_ev) [sample_sig x01; sample_sig x02] =
    Err "signature set did not satisfy policy" ∧
  satisfied sample_satisfies [[1; 2]; [1]] [1; 2] two_of [1; 0].
Proof.
  split; [vm_compute; reflexivity|]. eapply (satisfied_gate _ _ _ _ _ _ 2); [|done].
  apply (satisfied_take _ _ _ _ _ [1] [0]); [by eapply (satisfied_by _ _ _ 0 [1; 2] 1 2)|].
  apply (satisfied_take _ _ _ _ _ [0] []); [by eapply (satisfied_by _ _ _ 1 [1] 0 1)|constructor].
Qed.

Lemma implicit_meta_counts_witness :
  ImplicitMetaPolicy_Evaluate (NewImplicitMetaPolicy MAJORITY [(λ _, Ok ()); (λ _, Err "no"); (λ _, Ok ())]) () = Ok ().
Proof. apply (proj2 (implicit_meta_counts () MAJORITY [(λ _, Ok ()); (λ _, Err "no"); (λ _, Ok ())] ltac:(by repeat constructor))). right. vm_compute. lia. Defined.
