(* ===== verification/PayloadsBuffer.v ===== *)
(** * The buffer of blocks that arrive by gossip

  Models gossip/state/payloads_buffer.go and the loop of
  gossip/state/state.go that empties the buffer (deliverPayloads): blocks arrive
  in any order and more than once, and leave the buffer in the order of their
  numbers. The channel that signals the arrival of the next block holds at most
  one token. The locks make every operation atomic, so a run is a sequence of
  operations. What happens to a block that has left the buffer is not part of
  the model. *)

From S2P Require Import Prelude.
From stdpp Require Import gmap options.
Local Open Scope nat_scope.
Set Default Proof Using "Type*".

Record GossipPayload := { gp_SeqNum : Z; gp_Data : bytes; gp_PrivateData : list bytes }.

Record PayloadsBufferImpl := { next : Z; buf : gmap Z GossipPayload; readyChan : nat }.
Definition NewPayloadsBuffer (next : Z) : PayloadsBufferImpl := {| next := next; buf := ∅; readyChan := 0 |}.

Definition Push (b : PayloadsBufferImpl) (payload : GossipPayload) : PayloadsBufferImpl :=
  let seqNum := gp_SeqNum payload in
  if decide (seqNum < next b)%Z then b
  else if decide (is_Some (buf b !! seqNum)) then b
  else {| next := next b; buf := <[seqNum := payload]> (buf b);
          readyChan := if decide (seqNum = next b ∧ readyChan b = 0) then 1 else readyChan b |}.

(** With [drainReadChannel]: an empty buffer leaves no token. *)
Definition Pop (b : PayloadsBufferImpl) : option GossipPayload * PayloadsBufferImpl :=
  match buf b !! next b with
  | None => (None, b)
  | Some result =>
      let buf' := delete (next b) (buf b) in
      (Some result, {| next := u64 (next b + 1); buf := buf'; readyChan := if decide (buf' = ∅) then 0 else readyChan b |})
  end.

(** ** The consumer *)

(** The buffer, whether the consumer is inside its inner loop, and the payloads
    it has taken so far. *)
Record provider := { pv_payloads : PayloadsBufferImpl; pv_collecting : bool; pv_popped : list GossipPayload }.
Inductive operation := Arrive (payload : GossipPayload) | TakeReady | TakePayload.
Definition deliverPayloads_step (s : provider) (op : operation) : provider :=
  match op with
  | Arrive payload => {| pv_payloads := Push (pv_payloads s) payload; pv_collecting := pv_collecting s; pv_popped := pv_popped s |}
  | TakeReady =>
      let b := pv_payloads s in
      if decide (pv_collecting s = false ∧ 0 < readyChan b)
      then {| pv_payloads := {| next := next b; buf := buf b; readyChan := readyChan b - 1 |}; pv_collecting := true; pv_popped := pv_popped s |}
      else s
  | TakePayload =>
      if pv_collecting s then
        match Pop (pv_payloads s) with
        | (None, b) => {| pv_payloads := b; pv_collecting := false; pv_popped := pv_popped s |}
        | (Some payload, b) => {| pv_payloads := b; pv_collecting := true; pv_popped := pv_popped s ++ [payload] |}
        end
      else s
  end.
Definition deliver_run (start : Z) (ops : list operation) : provider :=
  foldl deliverPayloads_step {| pv_payloads := NewPayloadsBuffer start; pv_collecting := false; pv_popped := [] |} ops.

(** ** Order and completeness *)

Section runs.
Context (start : Z).

Definition arrived (ops : list operation) (p : GossipPayload) : Prop := Arrive p ∈ ops.
(** The numbers that leave the buffer count up from the start; what has arrived
    is in the buffer or has left it; a buffered next block has been signalled. *)
Record provider_inv (ops : list operation) (s : provider) : Prop := {
  inv_order : gp_SeqNum <$> pv_popped s = (λ i, (start + Z.of_nat i)%Z) <$> seq 0 (length (pv_popped s));
  inv_next : next (pv_payloads s) = (start + Z.of_nat (length (pv_popped s)))%Z;
  inv_buf : ∀ n p, buf (pv_payloads s) !! n = Some p → gp_SeqNum p = n ∧ (next (pv_payloads s) <= n)%Z ∧ arrived ops p;
  inv_popped : ∀ p, p ∈ pv_popped s → arrived ops p;
  inv_kept : ∀ p, arrived ops p → (gp_SeqNum p < next (pv_payloads s))%Z ∨ is_Some (buf (pv_payloads s) !! gp_SeqNum p);
  inv_signalled : is_Some (buf (pv_payloads s) !! next (pv_payloads s)) → pv_collecting s = true ∨ 0 < readyChan (pv_payloads s)
}.

Lemma arrived_mono ops op p : arrived ops p → arrived (ops ++ [op]) p.
Proof. unfold arrived. set_solver. Qed.

Lemma arrived_snoc ops op p : arrived (ops ++ [op]) p → arrived ops p ∨ op = Arrive p.
Proof. intros [?| ->%list_elem_of_singleton]%elem_of_app; auto. Qed.
Lemma inv_extend ops s op : provider_inv ops s →
  (∀ p, op = Arrive p → (gp_SeqNum p < next (pv_payloads s))%Z ∨ is_Some (buf (pv_payloads s) !! gp_SeqNum p)) → provider_inv (ops ++ [op]) s.
Proof.
  intros [Ho Hn Hb Hp Hk Hs] Hop. split; [done|done| | | |done].
  - intros n p Hl. destruct (Hb n p Hl) as (? & ? & ?). auto using arrived_mono.
  - intros p Hin. apply arrived_mono, Hp, Hin.
  - intros p [Ha| ->]%arrived_snoc; [by apply Hk|by apply Hop].
Qed.

Lemma inv_strip ops op s : (∀ p, op ≠ Arrive p) → provider_inv (ops ++ [op]) s → provider_inv ops s.
Proof.
  intros Hop [Ho Hn Hb Hp Hk Hs]. assert (∀ p, arrived (ops ++ [op]) p → arrived ops p) as Hst by (intros p [?| ->]%arrived_snoc; [done|by destruct (Hop p)]).
  split; [done|done| | | |done].
  - intros n p Hl. destruct (Hb n p Hl) as (? & ? & ?). auto.
  - auto.
  - intros p Ha. apply Hk, arrived_mono, Ha.
Qed.

Lemma Push_inv ops s payload : provider_inv ops s → provider_inv (ops ++ [Arrive payload]) (deliverPayloads_step s (Arrive payload)).
Proof.
  intros Hinv. assert (∀ b, b = pv_payloads s → {| pv_payloads := b; pv_collecting := pv_collecting s; pv_popped := pv_popped s |} = s) as Hid
    by (intros b ->; by destruct s). cbn [deliverPayloads_step]. unfold Push.
  destruct (decide (gp_SeqNum payload < next (pv_payloads s))%Z) as [Hlt|Hge]; [rewrite Hid by done; apply inv_extend; [done|by intros p [= <-]; left]|].
  destruct (decide (is_Some _)) as [Hdup|Hnew]; [rewrite Hid by done; apply inv_extend; [done|by intros p [= <-]; right]|].
  destruct Hinv as [Ho Hn Hb Hp Hk Hs].
  apply eq_None_not_Some in Hnew. split; cbn [pv_payloads pv_collecting pv_popped next buf readyChan]; [done|done| | | |].
  - intros n p. destruct (decide (n = gp_SeqNum payload)) as [->|Hne].
    + rewrite lookup_insert_eq. intros [= <-]. split_and!; [done|lia|]. unfold arrived. set_solver.
    + rewrite lookup_insert_ne by done. intros Hl. destruct (Hb n p Hl) as (? & ? & ?). auto using arrived_mono.
  - intros p Hin. apply arrived_mono, Hp, Hin.
  - intros p [Ha|[= ->]]%arrived_snoc; [|right; by rewrite lookup_insert_eq].
    destruct (Hk p Ha) as [?|Hsome]; [by left|right]. destruct (decide (gp_SeqNum p = gp_SeqNum payload)) as [->|Hne]; [by rewrite lookup_insert_eq|by rewrite lookup_insert_ne].
  - intros Hx. destruct (decide (gp_SeqNum payload = next (pv_payloads s))) as [He|Hne].
    + right. destruct (decide (_ ∧ _)) as [?|Hd]; [lia|]. destruct (readyChan (pv_payloads s)); [by destruct Hd|lia].
    + rewrite lookup_insert_ne in Hx by done. destruct (Hs Hx) as [?|?]; [by left|right]. by rewrite decide_False by (intros [? _]; done).
Qed.

Lemma TakeReady_inv ops s : provider_inv ops s → provider_inv (ops ++ [TakeReady]) (deliverPayloads_step s TakeReady).
Proof.
  intros Hinv. simpl. destruct (decide _) as [Hd|Hd]; [|by apply inv_extend].
  apply (inv_extend _ _ TakeReady) in Hinv; [|done]. destruct Hinv as [Ho Hn Hb Hp Hk Hs]. split; simpl; auto.
Qed.

Lemma TakePayload_inv ops s : provider_inv ops s → (next (pv_payloads s) + 1 < two64)%Z → (0 <= start)%Z →
  provider_inv (ops ++ [TakePayload]) (deliverPayloads_step s TakePayload).
Proof.
  intros Hinv Hmax H0. apply (inv_extend _ _ TakePayload) in Hinv; [|done]. simpl.
  destruct (pv_collecting s) eqn:Hc; [|done]. destruct Hinv as [Ho Hn Hb Hp Hk Hs]. unfold Pop.
  destruct (buf (pv_payloads s) !! next (pv_payloads s)) as [p|] eqn:Hl; [|split; simpl; auto; rewrite Hl; by intros []].
  assert (u64 (next (pv_payloads s) + 1) = next (pv_payloads s) + 1)%Z as Hu by (unfold u64; apply Z.mod_small; lia).
  destruct (Hb _ _ Hl) as (Hseq & _ & Ha). split; cbn [pv_payloads pv_collecting pv_popped next buf readyChan]; rewrite ?Hu.
  - rewrite length_app, fmap_app, Ho, seq_app, fmap_app. simpl. by rewrite Hseq, Hn.
  - rewrite length_app. simpl. lia.
  - intros n q. destruct (decide (n = next (pv_payloads s))) as [->|Hne]; [by rewrite lookup_delete_eq|]. rewrite lookup_delete_ne by done.
    intros Hq. destruct (Hb n q Hq) as (? & ? & ?). split_and!; [done|lia|done].
  - intros q [Hq| ->%list_elem_of_singleton]%elem_of_app; auto.
  - intros q Hq. destruct (decide (gp_SeqNum q = next (pv_payloads s))) as [E|Hne]; [left; lia|].
    destruct (Hk q Hq) as [?|?]; [left; lia|right]. by rewrite lookup_delete_ne.
  - by left.
Qed.

Definition no_overflow (ops : list operation) : Prop := (0 <= start ∧ start + Z.of_nat (length ops) < two64)%Z.
Lemma popped_length ops : ∀ s, length (pv_popped (foldl deliverPayloads_step s ops)) <= length (pv_popped s) + length ops.
Proof.
  induction ops as [|op ops IH]; intros s; simpl; [lia|]. etrans; [apply IH|]. enough (length (pv_popped (deliverPayloads_step s op)) <= length (pv_popped s) + 1) by lia.
  destruct op; simpl; [lia|destruct (decide _); simpl; lia|]. destruct (pv_collecting s); [|lia]. destruct (Pop _) as [[q|] b]; simpl; rewrite ?length_app; simpl; lia.
Qed.

Lemma deliver_run_inv ops : no_overflow ops → provider_inv ops (deliver_run start ops).
Proof.
  induction ops as [|op ops IH] using rev_ind; intros [H0 Hlen].
  - unfold deliver_run. simpl. split; simpl; [done|lia|by intros n p; rewrite lookup_empty|by intros p []%elem_of_nil|by intros p []%elem_of_nil|].
    by rewrite lookup_empty; intros [].
  - rewrite length_app in Hlen. simpl in Hlen. unfold deliver_run. rewrite foldl_app. fold (deliver_run start ops). simpl.
    assert (provider_inv ops (deliver_run start ops)) as Hinv by (apply IH; split; lia). destruct op; [by apply Push_inv|by apply TakeReady_inv|].
    apply TakePayload_inv; [done| |done]. rewrite (inv_next _ _ Hinv). pose proof (popped_length ops {| pv_payloads := NewPayloadsBuffer start; pv_collecting := false; pv_popped := [] |}) as Hl.
    unfold deliver_run. simpl in Hl. lia.
Qed.

(** From a state in which the consumer collects and the payloads up to a number
    have arrived, as many steps take them all. *)
Lemma collect_all ops k j : ∀ s, (∀ i, i < k → ∃ p, arrived ops p ∧ gp_SeqNum p = (start + Z.of_nat i)%Z) → provider_inv ops s →
  (0 <= start)%Z → (start + Z.of_nat k < two64)%Z → (length (pv_popped s) < k → pv_collecting s = true) → k <= length (pv_popped s) + j →
  k <= length (pv_popped (foldl deliverPayloads_step s (replicate j TakePayload))).
Proof.
  induction j as [|j IH]; intros s Harr Hinv H0 Hmax Hc Hk; [simpl; lia|]. cbn [replicate foldl].
  destruct (decide (k <= length (pv_popped s))) as [Hge|Hlt].
  { clear -Hge. assert (∀ l s, k <= length (pv_popped s) → k <= length (pv_popped (foldl deliverPayloads_step s l))) as Hmono.
    { induction l as [|op l IH]; intros s0 Hs; simpl; [done|]. apply IH. destruct op; simpl; [done|by destruct (decide _)|].
      destruct (pv_collecting s0); [|done]. destruct (Pop _) as [[q|] b]; simpl; rewrite ?length_app; lia. }
    apply (Hmono (TakePayload :: replicate j TakePayload)). done. }
  assert (is_Some (buf (pv_payloads s) !! next (pv_payloads s))) as [p Hp].
  { destruct (Harr (length (pv_popped s))) as (p & Ha & Hseq); [lia|]. rewrite (inv_next _ _ Hinv), <-Hseq.
    destruct (inv_kept _ _ Hinv p Ha) as [Hl|Hl]; [|done]. rewrite (inv_next _ _ Hinv) in Hl. lia. }
  assert (length (pv_popped (deliverPayloads_step s TakePayload)) = length (pv_popped s) + 1 ∧ pv_collecting (deliverPayloads_step s TakePayload) = true) as [Hl' Hc'].
  { simpl. rewrite Hc by lia. unfold Pop. rewrite Hp. simpl. rewrite length_app. done. }
  apply IH; [done| |done|done|by rewrite Hc'|lia]. apply (inv_strip _ TakePayload); [done|]. apply TakePayload_inv; [done| |done]. rewrite (inv_next _ _ Hinv). lia.
Qed.
End runs.

(** C28: the blocks leave the buffer in order, each once, and none is
    forgotten. Whatever arrives in whatever order, the numbers of the payloads
    taken are consecutive from the first one expected, and each of them has
    arrived; and when the payloads of the first numbers have all arrived, the
    signal is there or the consumer is awake, so that one look at the signal and
    as many steps of the consumer take them. *)
Theorem payloads_in_order start ops k
    (Hno : no_overflow start (ops ++ TakeReady :: replicate k TakePayload))
    (Harr : ∀ i, i < k → ∃ p, arrived ops p ∧ gp_SeqNum p = (start + Z.of_nat i)%Z) :
  let s := deliver_run start (ops ++ TakeReady :: replicate k TakePayload) in
  k <= length (pv_popped s) ∧
  gp_SeqNum <$> pv_popped s = (λ i, (start + Z.of_nat i)%Z) <$> seq 0 (length (pv_popped s)) ∧
  ∀ p, p ∈ pv_popped s → arrived ops p.
Proof.
  pose proof (deliver_run_inv start _ Hno) as Hinv. destruct Hno as [H0 Hno]. rewrite length_app in Hno. simpl in Hno. rewrite length_replicate in Hno.
  intros s. split; [|split; [apply (inv_order _ _ _ Hinv)|]].
  - subst s. unfold deliver_run. rewrite foldl_app. fold (deliver_run start ops). cbn [foldl].
    assert (provider_inv start ops (deliver_run start ops)) as Hr by (apply deliver_run_inv; split; lia).
    apply (collect_all start (ops ++ [TakeReady])); [|by apply TakeReady_inv|done|lia| |lia].
    + intros i Hi. destruct (Harr i Hi) as (p & Ha & ?). exists p. split; [by apply arrived_mono|done].
    + intros Hlt. simpl in Hlt |- *. destruct (decide _) as [|Hd] eqn:Hdec; [done|].
      destruct (pv_collecting (deliver_run start ops)) eqn:Hc; [done|]. exfalso.
      destruct (Harr (length (pv_popped (deliver_run start ops)))) as (p & Ha & Hseq); [lia|].
      destruct (inv_signalled _ _ _ Hr) as [?|?]; [|congruence|lia]. rewrite (inv_next _ _ _ Hr), <-Hseq.
      destruct (inv_kept _ _ _ Hr p Ha) as [Hl|Hl]; [|done]. rewrite (inv_next _ _ _ Hr) in Hl. lia.
  - intros p Hp. pose proof (inv_popped _ _ _ Hinv p Hp) as Ha. unfold arrived in *. apply elem_of_app in Ha as [?|Ha]; [done|].
    apply elem_of_cons in Ha as [[=]|[[=] _]%elem_of_replicate].
Qed.

Lemma payloads_in_order_witness :
  let pl n := {| gp_SeqNum := n; gp_Data := []; gp_PrivateData := [] |} in
  gp_SeqNum <$> pv_popped (deliver_run 5 ([Arrive (pl 6%Z); Arrive (pl 4%Z); Arrive (pl 6%Z); Arrive (pl 5%Z)] ++ TakeReady :: replicate 2 TakePayload)) = [5; 6]%Z.
Proof.
  intros pl. pose proof (payloads_in_order 5 [Arrive (pl 6%Z); Arrive (pl 4%Z); Arrive (pl 6%Z); Arrive (pl 5%Z)] 2) as Hx.
  destruct Hx as (Hk & Ho & _).
  - split; [lia|vm_compute; reflexivity].
  - intros [|[|i]] Hi; [exists (pl 5%Z)|exists (pl 6%Z)|lia]; (split; [unfold arrived; set_solver|done]).
  - rewrite Ho. vm_compute. reflexivity.
Defined.
