(* ===== verification/BlockSerial.v ===== *)
(** * Serialisation of blocks

  Models common/ledger/blkstorage/block_serialization.go and protobuf_util.go:
  the format of a block in a block file, the positions of its transactions, and
  GetOrComputeTxIDFromEnvelope (protoutil/txutils.go), which names them. The
  format has no place for the type of a block. *)

From S2P Require Import Prelude Encoding Version Proto Rwset LiteRwset Block.
From stdpp Require Import options.
Local Open Scope Z_scope.
Set Default Proof Using "Type*".

Definition len {A} (l : list A) : Z := Z.of_nat (length l).

(** ** proto.Buffer *)

(** [bits.Len64] and [protowire.SizeVarint]. *)
Definition Len64 (v : Z) : Z := if decide (v = 0) then 0 else Z.log2 v + 1.
Definition SizeVarint (v : Z) : Z := (9 * Len64 v + 64) / 64.

(** [EncodeRawBytes]: the length and the bytes. *)
Definition raw (b : bytes) : bytes := EncodeVarint (len b) ++ b.

(** The unread bytes and the position that the wrapper counts. *)
Record buffer := { buf : bytes; position : Z }.
Definition newBuffer (b : bytes) : buffer := {| buf := b; position := 0 |}.
Definition buffer_DecodeVarint (b : buffer) : res (Z * buffer) :=
  match ConsumeVarint 10 0 0 (buf b) with
  | Some (val, n) => Ok (val, {| buf := drop n (buf b); position := position b + SizeVarint val |})
  | None => Err "error decoding varint with proto.Buffer"
  end.
Definition buffer_DecodeRawBytes (b : buffer) : res (bytes * buffer) :=
  match ConsumeVarint 10 0 0 (buf b) with
  | Some (m, n) =>
      let rest := drop n (buf b) in
      if decide (m > len rest) then Err "error decoding raw bytes with proto.Buffer"
      else
        let val := take (Z.to_nat m) rest in
        Ok (val, {| buf := drop (Z.to_nat m) rest; position := position b + (SizeVarint (len val) + len val) |})
  | None => Err "error decoding raw bytes with proto.Buffer"
  end.
Definition GetBytesConsumed (b : buffer) : Z := position b.

(** ** Transaction IDs *)

Definition hex_digit (z : Z) : byte := Zbyte (if decide (z < 10) then 48 + z else 87 + z).
Definition hex_EncodeToString (b : bytes) : bytes := b ≫= λ x, [hex_digit (byteZ x / 16); hex_digit (byteZ x mod 16)].

Record locPointer := { lp_offset : Z; bytesLength : Z }.
Record txindexInfo := { ti_txID : bytes; ti_loc : locPointer }.
Record serializedBlockInfo := { sbi_blockHeader : BlockHeader; sbi_txOffsets : list txindexInfo; sbi_metadata : list bytes }.

Section serialization.
Context `{!Sha256} `{!ProtoMessage Envelope, !ProtoMessage Payload, !ProtoMessage ChannelHeader, !ProtoMessage SignatureHeader}.

Definition ComputeTxID (nonce creator : bytes) : bytes := hex_EncodeToString (ComputeSHA256 (nonce ++ creator)).
Definition GetOrComputeTxIDFromEnvelope (txEnvelopBytes : bytes) : res bytes :=
  txEnvelope ← Unmarshal (A := Envelope) txEnvelopBytes;
  match env_LeanEnv txEnvelope with
  | Some leanEnv => Ok (le_TxId leanEnv)
  | None =>
      txPayload ← UnmarshalPayload (env_Payload txEnvelope);
      match pl_Header txPayload with
      | None => Err "error getting txID from header: payload header is nil"
      | Some header =>
          chdr ← UnmarshalChannelHeader (hdr_ChannelHeader header);
          if decide (chdr_TxId chdr ≠ []) then Ok (chdr_TxId chdr)
          else
            sighdr ← Unmarshal (A := SignatureHeader) (hdr_SignatureHeader header);
            Ok (ComputeTxID (sh_Nonce sighdr) (sh_Creator sighdr))
      end
  end.
(** The error is only logged, and the ID left empty. *)
Definition txid_or_empty (txEnvelopeBytes : bytes) : res bytes :=
  match GetOrComputeTxIDFromEnvelope txEnvelopeBytes with Ok txid => Ok txid | Err _ => Ok [] | Panic => Panic end.

(** ** Writing *)

Definition addHeaderBytes (blockHeader : BlockHeader) (buf : bytes) : bytes :=
  buf ++ EncodeVarint (bh_Number blockHeader) ++ raw (bh_DataHash blockHeader) ++ raw (bh_PreviousHash blockHeader).
Definition add_tx (st : bytes * list txindexInfo) (txEnvelopeBytes : bytes) : res (bytes * list txindexInfo) :=
  let '(buf, txOffsets) := st in
  let offset := len buf in
  txid ← txid_or_empty txEnvelopeBytes;
  let buf := buf ++ raw txEnvelopeBytes in
  Ok (buf, txOffsets ++ [{| ti_txID := txid; ti_loc := {| lp_offset := offset; bytesLength := len buf - offset |} |}]).
Definition addDataBytesAndConstructTxIndexInfo (blockData : list bytes) (buf : bytes) : res (bytes * list txindexInfo) :=
  foldM add_tx (buf ++ EncodeVarint (len blockData), []) blockData.
(** Nil metadata is tested for and then dereferenced. *)
Definition addMetadataBytes (blockMetadata : option (list bytes)) (buf : bytes) : res bytes :=
  let numItems := match blockMetadata with Some md => len md | None => 0 end in
  let buf := buf ++ EncodeVarint numItems in
  md ← deref blockMetadata;
  Ok (foldl (λ buf b, buf ++ raw b) buf md).

Definition serializeBlock (block : Block) : res (bytes * serializedBlockInfo) :=
  header ← deref (b_Header block);
  let buf := addHeaderBytes header [] in
  data ← deref (b_Data block);
  '(buf, txOffsets) ← addDataBytesAndConstructTxIndexInfo data buf;
  buf ← addMetadataBytes (b_Metadata block) buf;
  md ← deref (b_Metadata block);
  Ok (buf, {| sbi_blockHeader := header; sbi_txOffsets := txOffsets; sbi_metadata := md |}).

(** ** Reading *)

Definition extractHeader (b : buffer) : res (BlockHeader * buffer) :=
  '(number, b) ← buffer_DecodeVarint b;
  '(dataHash, b) ← buffer_DecodeRawBytes b;
  '(previousHash, b) ← buffer_DecodeRawBytes b;
  Ok ({| bh_Number := number; bh_PreviousHash := previousHash; bh_DataHash := dataHash |}, b).
Fixpoint extract_txs (n : nat) (b : buffer) : res (list bytes * list txindexInfo * buffer) :=
  match n with
  | O => Ok ([], [], b)
  | S n =>
      let txOffset := GetBytesConsumed b in
      '(txEnvBytes, b) ← buffer_DecodeRawBytes b;
      txid ← txid_or_empty txEnvBytes;
      let idxInfo := {| ti_txID := txid; ti_loc := {| lp_offset := txOffset; bytesLength := GetBytesConsumed b - txOffset |} |} in
      '(data, txOffsets, b) ← extract_txs n b;
      Ok (txEnvBytes :: data, idxInfo :: txOffsets, b)
  end.
Definition extractData (b : buffer) : res (list bytes * list txindexInfo * buffer) :=
  '(numItems, b) ← buffer_DecodeVarint b; extract_txs (Z.to_nat numItems) b.
Fixpoint extract_entries (n : nat) (b : buffer) : res (list bytes * buffer) :=
  match n with
  | O => Ok ([], b)
  | S n =>
      '(metadataEntry, b) ← buffer_DecodeRawBytes b;
      '(metadata, b) ← extract_entries n b;
      Ok (metadataEntry :: metadata, b)
  end.
Definition extractMetadata (b : buffer) : res (list bytes * buffer) :=
  '(numItems, b) ← buffer_DecodeVarint b; extract_entries (Z.to_nat numItems) b.

Definition deserializeBlock (serializedBlockBytes : bytes) : res Block :=
  let b := newBuffer serializedBlockBytes in
  '(header, b) ← extractHeader b;
  '(data, _, b) ← extractData b;
  '(metadata, b) ← extractMetadata b;
  Ok {| b_Header := Some header; b_Data := Some data; b_Metadata := Some metadata; b_BlockType := 0 |}.
Definition extractSerializedBlockInfo (serializedBlockBytes : bytes) : res serializedBlockInfo :=
  let b := newBuffer serializedBlockBytes in
  '(header, b) ← extractHeader b;
  '(_, txOffsets, b) ← extractData b;
  '(metadata, b) ← extractMetadata b;
  Ok {| sbi_blockHeader := header; sbi_txOffsets := txOffsets; sbi_metadata := metadata |}.
End serialization.

(** ** Reading what was written *)

Lemma Len64_shift v : 128 ≤ v → Len64 v = Len64 (v / 128) + 7.
Proof.
  intros Hv. unfold Len64. assert (1 ≤ v / 128) by (apply Z.div_le_lower_bound; lia). rewrite !decide_False by lia.
  change 128 with (2 ^ 7). rewrite <-Z.shiftr_div_pow2, Z.log2_shiftr by lia.
  assert (7 ≤ Z.log2 v) by (change 7 with (Z.log2 128); by apply Z.log2_le_mono). lia.
Qed.
Lemma Len64_bounds v : 0 < v → 1 ≤ Len64 v.
Proof. intros Hv. unfold Len64. rewrite decide_False by lia. pose proof (Z.log2_nonneg v). lia. Qed.
Lemma Len64_le v k : 0 ≤ k → 0 ≤ v < 2 ^ k → Len64 v ≤ k.
Proof.
  intros Hk Hv. unfold Len64. destruct (decide (v = 0)); [lia|]. assert (Z.log2 v < k) by (apply Z.log2_lt_pow2; lia). lia.
Qed.

Lemma AppendVarint_S fuel v : AppendVarint (S fuel) v =
  if decide (v < 128) then [Zbyte v] else Zbyte (Z.lor (Z.land v 127) 128) :: AppendVarint fuel (Z.shiftr v 7).
Proof. done. Qed.
Lemma SizeVarint_Append fuel v : 0 ≤ v → Len64 v ≤ 7 * Z.of_nat fuel → v < 2 ^ 64 → (0 < fuel)%nat →
  len (AppendVarint fuel v) = SizeVarint v.
Proof.
  unfold SizeVarint, len. revert v. induction fuel as [|fuel IH]; intros v Hv Hf H64 Hpos; [lia|]. rewrite AppendVarint_S.
  destruct (decide (v < 128)) as [Hlt|Hge].
  - assert (Len64 v ≤ 7) by (by apply Len64_le). assert (0 ≤ Len64 v) by (unfold Len64; destruct (decide _); [lia|pose proof (Z.log2_nonneg v); lia]).
    apply (Z.div_unique_pos _ _ _ (9 * Len64 v)); simpl; lia.
  - rewrite shiftr7. pose proof (Len64_shift v ltac:(lia)) as Hs. assert (1 ≤ v / 128) by (apply Z.div_le_lower_bound; lia).
    pose proof (Len64_bounds (v / 128) ltac:(lia)). pose proof (Len64_le v 64 ltac:(lia) ltac:(lia)).
    cbn [length]. rewrite Nat2Z.inj_succ, IH; [|lia|lia| |lia].
    + rewrite Hs. set (x := Len64 (v / 128)) in *. pose proof (Z.div_mod (9 * x + 64) 64 ltac:(lia)).
      pose proof (Z.div_mod (9 * (x + 7) + 64) 64 ltac:(lia)). pose proof (Z.mod_pos_bound (9 * x + 64) 64 ltac:(lia)).
      pose proof (Z.mod_pos_bound (9 * (x + 7) + 64) 64 ltac:(lia)). lia.
    + apply Z.div_lt_upper_bound; lia.
Qed.
Lemma SizeVarint_length v : is_u64 v → SizeVarint v = len (EncodeVarint v).
Proof.
  intros [H1 H2]. symmetry. apply SizeVarint_Append; [done| |exact H2|lia].
  etrans; [by apply (Len64_le v 64)|lia].
Qed.

Lemma ConsumeVarint_Encode v rest : is_u64 v → ConsumeVarint 10 0 0 (EncodeVarint v ++ rest) = Some (v, length (EncodeVarint v)).
Proof.
  intros [H1 H2]. unfold EncodeVarint. rewrite Consume_Append; change (2 ^ (7 * Z.of_nat 0)) with 1; try lia.
  by rewrite Z.mul_1_r, Z.add_0_l, Nat.add_0_l.
Qed.

Lemma len_app {A} (l k : list A) : len (l ++ k) = len l + len k.
Proof. unfold len. rewrite length_app. lia. Qed.
Lemma len_nonneg {A} (l : list A) : 0 ≤ len l.
Proof. unfold len. lia. Qed.
Lemma to_nat_len {A} (l : list A) : Z.to_nat (len l) = length l.
Proof. apply Nat2Z.id. Qed.
Lemma len_nil {A} : len (@nil A) = 0.
Proof. done. Qed.
Lemma len_cons {A} (x : A) l : len (x :: l) = 1 + len l.
Proof. unfold len. simpl. lia. Qed.

Lemma buffer_DecodeVarint_Encode v rest p : is_u64 v →
  buffer_DecodeVarint {| buf := EncodeVarint v ++ rest; position := p |} = Ok (v, {| buf := rest; position := p + len (EncodeVarint v) |}).
Proof.
  intros Hv. unfold buffer_DecodeVarint. cbn [buf position]. rewrite ConsumeVarint_Encode by done. by rewrite drop_app_length, SizeVarint_length.
Qed.
Lemma buffer_DecodeRawBytes_raw b rest p : len b < two64 →
  buffer_DecodeRawBytes {| buf := raw b ++ rest; position := p |} = Ok (b, {| buf := rest; position := p + len (raw b) |}).
Proof.
  intros Hb. pose proof (len_nonneg b). assert (is_u64 (len b)) as Hu by (unfold is_u64; lia). unfold buffer_DecodeRawBytes, raw. cbn [buf position].
  rewrite <-app_assoc, ConsumeVarint_Encode by done. rewrite drop_app_length, len_app.
  rewrite decide_False by (pose proof (len_nonneg rest); lia). rewrite to_nat_len, take_app_length, drop_app_length, SizeVarint_length by done. by rewrite len_app.
Qed.

Lemma EncodeVarint_nonempty v : (0 < length (EncodeVarint v))%nat.
Proof. unfold EncodeVarint. rewrite AppendVarint_S. destruct (decide _); simpl; lia. Qed.
Lemma len_EncodeVarint v : 0 < len (EncodeVarint v).
Proof. pose proof (EncodeVarint_nonempty v). unfold len. lia. Qed.

Section roundtrip.
Context `{!Sha256} `{!ProtoMessage Envelope, !ProtoMessage Payload, !ProtoMessage ChannelHeader, !ProtoMessage SignatureHeader}.

Definition raws (l : list bytes) : bytes := l ≫= raw.

(** The positions of the transactions in a block whose data start at [start]. *)
Fixpoint tx_locs (start : Z) (data : list bytes) (txids : list bytes) : list txindexInfo :=
  match data, txids with
  | tx :: data, txid :: txids =>
      {| ti_txID := txid; ti_loc := {| lp_offset := start; bytesLength := len (raw tx) |} |} :: tx_locs (start + len (raw tx)) data txids
  | _, _ => []
  end.
Definition block_prefix (h : BlockHeader) (data : list bytes) : bytes := addHeaderBytes h [] ++ EncodeVarint (len data).
Definition block_bytes (h : BlockHeader) (data md : list bytes) : bytes :=
  block_prefix h data ++ raws data ++ EncodeVarint (len md) ++ raws md.

Lemma foldl_raws md : ∀ buf, foldl (λ buf b, buf ++ raw b) buf md = buf ++ raws md.
Proof.
  induction md as [|b md IH]; intros buf; cbn [foldl]; [by rewrite app_nil_r|]. rewrite IH, <-app_assoc. done.
Qed.

Lemma add_tx_Ok buf offs tx txid : txid_or_empty tx = Ok txid →
  add_tx (buf, offs) tx = Ok (buf ++ raw tx, offs ++ [{| ti_txID := txid; ti_loc := {| lp_offset := len buf; bytesLength := len (raw tx) |} |}]).
Proof. intros Ht. unfold add_tx. rewrite Ht. run. replace (len (buf ++ raw tx) - len buf) with (len (raw tx)) by (rewrite len_app; lia). done. Qed.
Lemma add_tx_fold data txids : mapM txid_or_empty data = Ok txids → ∀ buf offs,
  foldM add_tx (buf, offs) data = Ok (buf ++ raws data, offs ++ tx_locs (len buf) data txids).
Proof.
  intros Hm%mapM_Ok. induction Hm as [|tx txid data txids Ht _ IH]; intros buf offs; cbn [foldM tx_locs].
  - by rewrite !app_nil_r.
  - rewrite (add_tx_Ok _ _ _ txid) by done. run. by rewrite IH, len_app, <-!app_assoc.
Qed.

Lemma extract_txs_raws data txids : mapM txid_or_empty data = Ok txids → Forall (λ tx, len tx < two64) data → ∀ rest p,
  extract_txs (length data) {| buf := raws data ++ rest; position := p |} =
    Ok (data, tx_locs p data txids, {| buf := rest; position := p + len (raws data) |}).
Proof.
  intros Hm%mapM_Ok. induction Hm as [|tx txid data txids Ht _ IH]; intros Hall rest p; cbn [extract_txs tx_locs length].
  - change (len (raws [])) with 0. by rewrite Z.add_0_r.
  - apply Forall_cons in Hall as [Htx Hall]. unfold raws. cbn [mbind list_bind]. fold (raws data). rewrite <-app_assoc, buffer_DecodeRawBytes_raw by done.
    run. rewrite Ht. run. rewrite IH by done. run. unfold GetBytesConsumed. cbn [position]. rewrite len_app.
    replace (p + len (raw tx) - p) with (len (raw tx)) by lia. by rewrite Z.add_assoc.
Qed.
Lemma extract_entries_raws md : Forall (λ e, len e < two64) md → ∀ rest p,
  extract_entries (length md) {| buf := raws md ++ rest; position := p |} = Ok (md, {| buf := rest; position := p + len (raws md) |}).
Proof.
  induction 1 as [|e md He _ IH]; intros rest p; cbn [extract_entries length].
  - change (len (raws [])) with 0. by rewrite Z.add_0_r.
  - unfold raws. cbn [mbind list_bind]. fold (raws md). rewrite <-app_assoc, buffer_DecodeRawBytes_raw by done.
    run. rewrite IH by done. run. by rewrite len_app, Z.add_assoc.
Qed.

(** What can be written: no part is nil, the number is a [uint64], no length
    exceeds one, and no transaction makes the protobuf library panic. *)
Record serializable (b : Block) (h : BlockHeader) (data md txids : list bytes) : Prop := {
  ser_header : b_Header b = Some h;
  ser_data : b_Data b = Some data;
  ser_metadata : b_Metadata b = Some md;
  ser_txids : mapM txid_or_empty data = Ok txids;
  ser_number : is_u64 (bh_Number h);
  ser_size : len (block_bytes h data md) < two64
}.

Lemma raws_elem l b : b ∈ l → len b ≤ len (raws l).
Proof.
  induction l as [|x l IH]; [by intros ?%elem_of_nil|]. unfold raws. cbn [mbind list_bind]. fold (raws l). rewrite len_app.
  unfold raw. rewrite len_app. pose proof (len_nonneg (EncodeVarint (len x))). pose proof (len_nonneg (raws l)). pose proof (len_nonneg x).
  intros [->|Hb%IH]%elem_of_cons; lia.
Qed.
Lemma raws_length l : len l ≤ len (raws l).
Proof.
  induction l as [|x l IH]; [done|]. unfold raws. cbn [mbind list_bind]. fold (raws l). rewrite len_app, len_cons.
  assert (1 ≤ len (raw x)); [|lia]. unfold raw. rewrite len_app. pose proof (len_nonneg x).
  pose proof (EncodeVarint_nonempty (len x)). unfold len in *. lia.
Qed.

Lemma serializable_small b h data md txids : serializable b h data md txids →
  is_u64 (len data) ∧ is_u64 (len md) ∧ len (bh_DataHash h) < two64 ∧ len (bh_PreviousHash h) < two64 ∧
  Forall (λ tx, len tx < two64) data ∧ Forall (λ e, len e < two64) md.
Proof.
  intros Hs. pose proof (ser_size _ _ _ _ _ Hs) as Hl. unfold block_bytes, block_prefix, addHeaderBytes in Hl. rewrite !len_app, len_nil in Hl.
  unfold raw in Hl. rewrite !len_app in Hl. pose proof (raws_length data). pose proof (raws_length md).
  repeat match type of Hl with context [len ?l] => lazymatch goal with H : 0 ≤ len l |- _ => fail | _ => pose proof (len_nonneg l) end end.
  pose proof (len_nonneg data). pose proof (len_nonneg md). unfold is_u64. split_and!; try lia.
  - apply Forall_forall. intros tx Htx%raws_elem. lia.
  - apply Forall_forall. intros e He%raws_elem. lia.
Qed.

Definition block_info (h : BlockHeader) (data md txids : list bytes) : serializedBlockInfo :=
  {| sbi_blockHeader := h; sbi_txOffsets := tx_locs (len (block_prefix h data)) data txids; sbi_metadata := md |}.

Lemma serializeBlock_spec b h data md txids : serializable b h data md txids →
  serializeBlock b = Ok (block_bytes h data md, block_info h data md txids).
Proof.
  intros [Hh Hd Hm Ht _ _]. unfold serializeBlock. rewrite Hh, Hd, Hm. cbn [deref]. run.
  unfold addDataBytesAndConstructTxIndexInfo. rewrite (add_tx_fold data txids) by done. run.
  unfold addMetadataBytes. cbn [deref]. run. rewrite foldl_raws. fold (block_prefix h data). unfold block_bytes. by rewrite <-!app_assoc.
Qed.

Lemma extract_spec b h data md txids rest : serializable b h data md txids →
  ∃ b1 b2 b3, extractHeader (newBuffer (block_bytes h data md ++ rest)) = Ok (h, b1) ∧
    extractData b1 = Ok (data, tx_locs (len (block_prefix h data)) data txids, b2) ∧ extractMetadata b2 = Ok (md, b3).
Proof.
  intros Hs. destruct (serializable_small _ _ _ _ _ Hs) as (Hld & Hlm & Hdh & Hph & Hall & Hallm). pose proof (ser_number _ _ _ _ _ Hs) as Hn.
  unfold newBuffer, block_bytes, block_prefix, addHeaderBytes. cbn [app]. rewrite <-!app_assoc. eexists _, _, _. split_and!.
  - unfold extractHeader. rewrite buffer_DecodeVarint_Encode by done. run. rewrite buffer_DecodeRawBytes_raw by done. run.
    rewrite buffer_DecodeRawBytes_raw by done. run. by destruct h.
  - unfold extractData. rewrite buffer_DecodeVarint_Encode by done. run. rewrite to_nat_len.
    rewrite (extract_txs_raws data txids) by (done || apply (ser_txids _ _ _ _ _ Hs)). do 4 f_equal. rewrite !len_app. lia.
  - unfold extractMetadata. rewrite buffer_DecodeVarint_Encode by done. run. rewrite to_nat_len.
    by rewrite extract_entries_raws.
Qed.

(** The type of a block is not written. *)
Definition typeless (b : Block) : Block := {| b_Header := b_Header b; b_Data := b_Data b; b_Metadata := b_Metadata b; b_BlockType := 0 |}.

Lemma deserializeBlock_spec b h data md txids : serializable b h data md txids → deserializeBlock (block_bytes h data md) = Ok (typeless b).
Proof.
  intros Hs. destruct (extract_spec _ _ _ _ _ [] Hs) as (b1 & b2 & b3 & H1 & H2 & H3). rewrite app_nil_r in H1.
  unfold deserializeBlock. rewrite H1. run. rewrite H2. run. rewrite H3. run. unfold typeless. by destruct Hs as [-> -> -> _ _ _].
Qed.
Lemma extractSerializedBlockInfo_spec b h data md txids : serializable b h data md txids →
  extractSerializedBlockInfo (block_bytes h data md) = Ok (block_info h data md txids).
Proof.
  intros Hs. destruct (extract_spec _ _ _ _ _ [] Hs) as (b1 & b2 & b3 & H1 & H2 & H3). rewrite app_nil_r in H1.
  unfold extractSerializedBlockInfo. rewrite H1. run. rewrite H2. run. rewrite H3. done.
Qed.

(** Where a transaction stands. *)
Lemma tx_locs_lookup data txids i tx txid : ∀ start, data !! i = Some tx → txids !! i = Some txid →
  tx_locs start data txids !! i =
    Some {| ti_txID := txid; ti_loc := {| lp_offset := start + len (raws (take i data)); bytesLength := len (raw tx) |} |}.
Proof.
  revert txids i. induction data as [|x data IH]; intros [|y txids] [|i] start Hd Ht; simplify_eq/=; try done.
  - change (len (raws [])) with 0. by rewrite Z.add_0_r.
  - rewrite IH by done. unfold raws. cbn [mbind list_bind]. rewrite len_app. by rewrite Z.add_assoc.
Qed.
Lemma length_tx_locs data txids : length data = length txids → ∀ start, length (tx_locs start data txids) = length data.
Proof. revert txids. induction data as [|x data IH]; intros [|y txids] Hl start; simplify_eq/=; [done|]. by rewrite IH. Qed.
Lemma raws_take_drop data i tx : data !! i = Some tx → raws data = raws (take i data) ++ raw tx ++ raws (drop (S i) data).
Proof. intros Hi. rewrite <-(take_drop_middle data i tx) at 1 by done. unfold raws. rewrite bind_app, bind_cons. done. Qed.

(** The slice of the bytes at a position. *)
Definition slice (b : bytes) (offset length : Z) : bytes := take (Z.to_nat length) (drop (Z.to_nat offset) b).
Lemma slice_app pre x post : slice (pre ++ x ++ post) (len pre) (len x) = x.
Proof. unfold slice. rewrite !to_nat_len, drop_app_length. by rewrite take_app_length. Qed.

Lemma tx_slice h data md txids i tx txid : data !! i = Some tx → txids !! i = Some txid →
  ∃ loc, tx_locs (len (block_prefix h data)) data txids !! i = Some {| ti_txID := txid; ti_loc := loc |} ∧
    0 ≤ lp_offset loc ∧ bytesLength loc = len (raw tx) ∧ lp_offset loc + bytesLength loc ≤ len (block_bytes h data md) ∧
    slice (block_bytes h data md) (lp_offset loc) (bytesLength loc) = raw tx.
Proof.
  intros Hd Ht. eexists. split; [by apply tx_locs_lookup|]. cbn [lp_offset bytesLength]. unfold block_bytes.
  rewrite (raws_take_drop data i tx) by done. pose proof (len_nonneg (block_prefix h data)). pose proof (len_nonneg (raws (take i data))).
  rewrite !len_app. pose proof (len_nonneg (raws (drop (S i) data))). pose proof (len_nonneg (EncodeVarint (len md))). pose proof (len_nonneg (raws md)).
  split_and!; [lia|done|lia|]. rewrite <-!app_assoc, (app_assoc (block_prefix h data)), <-len_app. apply slice_app.
Qed.

(** Whatever [serializeBlock] accepts can be read back, if its number and its
    size fit. *)
Lemma add_tx_fold_inv data : ∀ st st', foldM add_tx st data = Ok st' → ∃ txids, mapM txid_or_empty data = Ok txids.
Proof.
  induction data as [|tx data IH]; intros [buf offs] st' Hf; cbn [foldM mapM] in *; [by eexists|].
  apply bind_Ok in Hf as (st1 & H1 & Hf). apply IH in Hf as [txids ->]. unfold add_tx in H1.
  apply bind_Ok in H1 as (txid & -> & _). run. by eexists.
Qed.
Lemma serializeBlock_inv b bs info : serializeBlock b = Ok (bs, info) → ∃ h data md txids,
  b_Header b = Some h ∧ b_Data b = Some data ∧ b_Metadata b = Some md ∧ mapM txid_or_empty data = Ok txids ∧
  bs = block_bytes h data md ∧ info = block_info h data md txids.
Proof.
  unfold serializeBlock, addMetadataBytes. destruct (b_Header b) as [h|], (b_Data b) as [data|]; cbn [deref]; run; try done.
  intros ([buf offs] & Ha & Hs)%bind_Ok. destruct (b_Metadata b) as [md|]; [|done]. cbn [deref] in Hs. rewrite !bind_Ok_eq in Hs.
  destruct (add_tx_fold_inv _ _ _ Ha) as [txids Ht]. unfold addDataBytesAndConstructTxIndexInfo in Ha. rewrite (add_tx_fold data txids) in Ha by done.
  simplify_eq. exists h, data, md, txids. split_and!; try done. unfold block_bytes, block_prefix. by rewrite foldl_raws, <-!app_assoc.
Qed.

(** C31: Every block that [serializeBlock] accepts, if its number is a uint64 and
    its serialized form is not longer than one, is read back from its bytes by
    [deserializeBlock] with all but its type; [extractSerializedBlockInfo]
    computes from the bytes the same header, metadata, transaction IDs and
    positions as the serialization did; and at the recorded position of each
    transaction stands that transaction, with its ID, ready to be decoded. *)
Theorem block_serialization_roundtrip b bs info : serializeBlock b = Ok (bs, info) →
  (∀ h, b_Header b = Some h → is_u64 (bh_Number h)) → len bs < two64 →
  deserializeBlock bs = Ok (typeless b) ∧ extractSerializedBlockInfo bs = Ok info ∧
  ∀ data i tx, b_Data b = Some data → data !! i = Some tx → ∃ txid loc b',
    sbi_txOffsets info !! i = Some {| ti_txID := txid; ti_loc := loc |} ∧ txid_or_empty tx = Ok txid ∧
    0 ≤ lp_offset loc ∧ lp_offset loc + bytesLength loc ≤ len bs ∧
    buffer_DecodeRawBytes (newBuffer (slice bs (lp_offset loc) (bytesLength loc))) = Ok (tx, b').
Proof.
  intros (h & data & md & txids & Hh & Hd & Hm & Ht & -> & ->)%serializeBlock_inv Hn Hlen.
  assert (Hs : serializable b h data md txids) by (split; auto). split_and!; [by eapply deserializeBlock_spec|by eapply extractSerializedBlockInfo_spec|].
  intros data' i tx Hd' Hi. rewrite Hd in Hd'. injection Hd' as <-. apply mapM_Ok in Ht. destruct (Forall2_lookup_l _ _ _ _ _ Ht Hi) as (txid & Htx & Hid).
  destruct (tx_slice h data md txids i tx txid Hi Htx) as (loc & Hloc & H0 & _ & Hend & Hsl). exists txid, loc, {| buf := []; position := len (raw tx) |}.
  split_and!; [done..|]. rewrite Hsl. unfold newBuffer. rewrite <-(app_nil_r (raw tx)), buffer_DecodeRawBytes_raw; [by rewrite app_nil_r|].
  destruct (serializable_small _ _ _ _ _ Hs) as (_ & _ & _ & _ & Hall & _). by eapply (Forall_lookup_1 _ _ _ _ Hall).
Qed.
End roundtrip.
