(* ===== verification/BlockFiles.v ===== *)
(** * Block files

  Models the files of common/ledger/blkstorage: the stream over the blocks of a
  file and of a sequence of files (block_stream.go), the scan for the last
  complete block, the information about the files and its reconstruction after
  a crash (blockfile_mgr.go, blockfile_helper.go), the reader and the writer
  (blockfile_rw.go).

  The directory of a ledger is a map from names to contents. A stream is a
  position in a file; it sees the contents at the time of the call. *)

From S2P Require Import Prelude Encoding Version Proto Rwset LiteRwset Block BlockSerial.
From stdpp Require Import options.
Local Open Scope Z_scope.
Set Default Proof Using "Type*".

Notation dir := (gmap bytes bytes).

Definition blockfilePrefix : bytes := B "blockfile_".
Definition deriveBlockfilePath (suffixNum : Z) : bytes := blockfilePrefix ++ pad6 suffixNum.
Definition isBlockFileName (name : bytes) : bool := bool_decide (blockfilePrefix `prefix_of` name).

(** ** Writing and reading *)

(** Opening for appending creates the file. *)
Definition newBlockfileWriter (d : dir) (name : bytes) : dir :=
  match d !! name with Some _ => d | None => <[name := []]> d end.
Definition truncateFile (d : dir) (name : bytes) (targetSize : Z) : dir :=
  match d !! name with
  | Some f => if decide (len f > targetSize) then <[name := take (Z.to_nat targetSize) f]> d else d
  | None => d
  end.
Definition append_file (d : dir) (name b : bytes) : dir := <[name := default [] (d !! name) ++ b]> d.
(** [ReadAt] fails when the file ends before the buffer is full. *)
Definition blockfileReader_read (d : dir) (name : bytes) (offset length : Z) : res bytes :=
  match d !! name with
  | None => Err "error opening block file reader for file"
  | Some f =>
      if decide (length < 0) then Panic
      else if decide (offset < 0 ∨ len f < offset + length) then Err "error reading block file"
      else Ok (slice f offset length)
  end.

(** ** The stream over one file *)

Record blockfileStream := { bfs_fileNum : Z; bfs_currentOffset : Z }.
Record blockPlacementInfo := { bpi_fileNum : Z; blockStartOffset : Z; blockBytesOffset : Z }.
Definition ErrUnexpectedEndOfBlockfile : String.string := "unexpected end of blockfile"%string.

Definition newBlockfileStream (d : dir) (fileNum startOffset : Z) : res blockfileStream :=
  match d !! deriveBlockfilePath fileNum with
  | None => Err "error opening block file"
  | Some _ =>
      if decide (startOffset < 0) then Err "error seeking block file"
      else Ok {| bfs_fileNum := fileNum; bfs_currentOffset := startOffset |}
  end.

(** [None] at the end of the file. *)
Definition bfs_next (d : dir) (s : blockfileStream) : res (option (bytes * blockPlacementInfo) * blockfileStream) :=
  match d !! deriveBlockfilePath (bfs_fileNum s) with
  | None => Err "error getting block file stat"
  | Some f =>
      if decide (bfs_currentOffset s = len f) then Ok (None, s)
      else
        let remainingBytes := len f - bfs_currentOffset s in
        let '(peekBytes, moreContentAvailable) := if decide (remainingBytes < 8) then (remainingBytes, false) else (8, true) in
        if decide (peekBytes < 0) then Err "error peeking bytes from block file"
        else
          let unread := drop (Z.to_nat (bfs_currentOffset s)) f in
          let '(length, n) := DecodeVarint (take (Z.to_nat peekBytes) unread) in
          if decide (n = 0%nat) then (if moreContentAvailable : bool then Panic else Err ErrUnexpectedEndOfBlockfile)
          else
            let bytesExpected := Z.of_nat n + int_of_u64 length in
            if decide (bytesExpected > remainingBytes) then Err ErrUnexpectedEndOfBlockfile
            else if decide (int_of_u64 length < 0) then Panic
            else
              let blockBytes := take (Z.to_nat length) (drop n unread) in
              let placement := {| bpi_fileNum := bfs_fileNum s; blockStartOffset := bfs_currentOffset s;
                                  blockBytesOffset := bfs_currentOffset s + Z.of_nat n |} in
              Ok (Some (blockBytes, placement),
                  {| bfs_fileNum := bfs_fileNum s; bfs_currentOffset := bfs_currentOffset s + (Z.of_nat n + length) |})
  end.

(** ** The stream over several files *)

Record blockStream := { bst_currentFileNum : Z; bst_endFileNum : Z; bst_currentFileStream : blockfileStream }.
Definition newBlockStream (d : dir) (startFileNum startOffset endFileNum : Z) : res blockStream :=
  s ← newBlockfileStream d startFileNum startOffset;
  Ok {| bst_currentFileNum := startFileNum; bst_endFileNum := endFileNum; bst_currentFileStream := s |}.
Definition moveToNextBlockfileStream (d : dir) (s : blockStream) : res blockStream :=
  let n := bst_currentFileNum s + 1 in
  fs ← newBlockfileStream d n 0;
  Ok {| bst_currentFileNum := n; bst_endFileNum := bst_endFileNum s; bst_currentFileStream := fs |}.
(** Every recursive call is on the next file, which has to exist: the number of
    files is enough fuel. *)
Fixpoint bst_next_loop (fuel : nat) (d : dir) (s : blockStream) : res (option (bytes * blockPlacementInfo) * blockStream) :=
  '(r, fs) ← bfs_next d (bst_currentFileStream s);
  let s := {| bst_currentFileNum := bst_currentFileNum s; bst_endFileNum := bst_endFileNum s; bst_currentFileStream := fs |} in
  if bool_decide (r = None) && bool_decide (bst_currentFileNum s < bst_endFileNum s ∨ bst_endFileNum s < 0) then
    s ← moveToNextBlockfileStream d s;
    match fuel with O => Panic | S fuel => bst_next_loop fuel d s end
  else Ok (r, s).
Definition bst_next (d : dir) (s : blockStream) : res (option (bytes * blockPlacementInfo) * blockStream) :=
  bst_next_loop (size d) d s.

(** ** What the manager knows about the files *)

Record blockfilesInfo := { latestFileNumber : Z; latestFileSize : Z; noBlockFiles : bool; lastPersistedBlock : Z }.
Definition blockfilesInfo_marshal (i : blockfilesInfo) : bytes :=
  EncodeVarint (u64 (latestFileNumber i)) ++ EncodeVarint (u64 (latestFileSize i)) ++ EncodeVarint (lastPersistedBlock i) ++
  EncodeVarint (if noBlockFiles i then 1 else 0).
Definition blockfilesInfo_unmarshal (b : bytes) : res blockfilesInfo :=
  let b := newBuffer b in
  '(fileNumber, b) ← buffer_DecodeVarint b;
  '(fileSize, b) ← buffer_DecodeVarint b;
  '(lastBlock, b) ← buffer_DecodeVarint b;
  '(noBlockFilesMarker, b) ← buffer_DecodeVarint b;
  Ok {| latestFileNumber := int_of_u64 fileNumber; latestFileSize := int_of_u64 fileSize;
        noBlockFiles := bool_decide (noBlockFilesMarker = 1); lastPersistedBlock := lastBlock |}.

(** The last complete block, the offset where it ends and the number of blocks.
    Every round but the last moves the offset on, so the size of the file is
    enough fuel. *)
Fixpoint scan_loop (fuel : nat) (d : dir) (s : blockfileStream) (last : option bytes) (numBlocks : Z) : res (option bytes * Z * Z) :=
  match bfs_next d s with
  | Ok (Some (blockBytes, _), s) =>
      match fuel with O => Panic | S fuel => scan_loop fuel d s (Some blockBytes) (numBlocks + 1) end
  | Ok (None, s) => Ok (last, bfs_currentOffset s, numBlocks)
  | Err e => if decide (e = ErrUnexpectedEndOfBlockfile) then Ok (last, bfs_currentOffset s, numBlocks) else Err e
  | Panic => Panic
  end.
Definition file_size (d : dir) (fileNum : Z) : nat := length (default [] (d !! deriveBlockfilePath fileNum)).
Definition scanForLastCompleteBlock (d : dir) (fileNum startingOffset : Z) : res (option bytes * Z * Z) :=
  s ← newBlockfileStream d fileNum startingOffset;
  scan_loop (S (file_size d fileNum)) d s None 0.

Definition retrieveLastFileSuffix (d : dir) : res Z :=
  foldM (λ biggestFileNum name,
      if isBlockFileName name then
        fileNum ← Atoi (drop (length blockfilePrefix) name);
        Ok (if decide (fileNum > biggestFileNum) then fileNum else biggestFileNum)
      else Ok biggestFileNum)
    (-1) (map_to_list d).*1.

Section info.
Context `{!Sha256} `{!ProtoMessage Envelope, !ProtoMessage Payload, !ProtoMessage ChannelHeader, !ProtoMessage SignatureHeader}.

Definition constructBlockfilesInfo (d : dir) : res blockfilesInfo :=
  lastFileNum ← retrieveLastFileSuffix d;
  if decide (lastFileNum = -1) then
    Ok {| latestFileNumber := 0; latestFileSize := 0; noBlockFiles := true; lastPersistedBlock := 0 |}
  else
    _ ← deref (d !! deriveBlockfilePath lastFileNum);
    '(lastBlockBytes, endOffsetLastBlock, numBlocksInFile) ← scanForLastCompleteBlock d lastFileNum 0;
    lastBlockBytes ← (if decide (numBlocksInFile = 0 ∧ lastFileNum > 0) then
        _ ← deref (d !! deriveBlockfilePath (lastFileNum - 1));
        '(lastBlockBytes, _, _) ← scanForLastCompleteBlock d (lastFileNum - 1) 0;
        Ok lastBlockBytes
      else Ok lastBlockBytes);
    lastBlockNumber ← match lastBlockBytes with
      | Some bytes => lastBlock ← deserializeBlock bytes; header ← deref (b_Header lastBlock); Ok (bh_Number header)
      | None => Ok 0
      end;
    Ok {| latestFileNumber := lastFileNum; latestFileSize := endOffsetLastBlock;
          noBlockFiles := bool_decide (lastFileNum = 0 ∧ numBlocksInFile = 0); lastPersistedBlock := lastBlockNumber |}.

(** The saved information is brought up to date with the file it names. *)
Definition syncBlockfilesInfoFromFS (d : dir) (i : blockfilesInfo) : res blockfilesInfo :=
  match d !! deriveBlockfilePath (latestFileNumber i) with
  | None => Ok i
  | Some f =>
      if decide (len f = latestFileSize i) then Ok i
      else
        '(_, endOffsetLastBlock, numBlocks) ← OrPanic (scanForLastCompleteBlock d (latestFileNumber i) (latestFileSize i));
        if decide (numBlocks = 0) then
          Ok {| latestFileNumber := latestFileNumber i; latestFileSize := endOffsetLastBlock; noBlockFiles := noBlockFiles i;
                lastPersistedBlock := lastPersistedBlock i |}
        else
          Ok {| latestFileNumber := latestFileNumber i; latestFileSize := endOffsetLastBlock; noBlockFiles := false;
                lastPersistedBlock := if noBlockFiles i then u64 (numBlocks - 1) else u64 (lastPersistedBlock i + numBlocks) |}
  end.

Definition retrieveFirstBlockNumFromFile (d : dir) (fileNum : Z) : res Z :=
  s ← newBlockfileStream d fileNum 0;
  '(r, _) ← bfs_next d s;
  blockInfo ← extractSerializedBlockInfo (from_option fst [] r);
  Ok (bh_Number (sbi_blockHeader blockInfo)).

(** The interval shrinks in every round, so the last file number is enough
    fuel. *)
Fixpoint search_loop (fuel : nat) (d : dir) (blockNum beginFile endFile : Z) : res Z :=
  if decide (endFile ≠ beginFile) then
    match fuel with
    | O => Panic
    | S fuel =>
        let searchFile := beginFile + (endFile - beginFile) / 2 + 1 in
        n ← retrieveFirstBlockNumFromFile d searchFile;
        if decide (n = blockNum) then Ok searchFile
        else if decide (n > blockNum) then search_loop fuel d blockNum beginFile (searchFile - 1)
        else search_loop fuel d blockNum searchFile endFile
    end
  else Ok beginFile.
Definition binarySearchFileNumForBlock (d : dir) (blockNum : Z) : res Z :=
  i ← constructBlockfilesInfo d;
  search_loop (Z.to_nat (latestFileNumber i)) d blockNum 0 (latestFileNumber i).
End info.

(** ** Streams over what was written *)

Lemma deriveBlockfilePath_inj n n' : 0 ≤ n < two63 → 0 ≤ n' < two63 → deriveBlockfilePath n = deriveBlockfilePath n' → n = n'.
Proof.
  intros Hn Hn' Heq%(inj (app blockfilePrefix)). pose proof (Atoi_pad6 n Hn) as H1. rewrite Heq, Atoi_pad6 in H1 by done. by injection H1.
Qed.
Lemma deriveBlockfilePath_is n : isBlockFileName (deriveBlockfilePath n) = true.
Proof. apply bool_decide_eq_true. by eexists. Qed.

(** The peeked bytes hold the length of any block below 2^56 bytes. *)
Definition two56 : Z := 72057594037927936.
Lemma length_varint_small v : 0 ≤ v < two56 → (length (EncodeVarint v) ≤ 8)%nat.
Proof.
  intros Hv. assert (is_u64 v) as Hu by (unfold is_u64, two56, two64 in *; lia). pose proof (SizeVarint_length v Hu) as Hs.
  unfold SizeVarint, len in Hs. pose proof (Len64_le v 56 ltac:(lia) ltac:(unfold two56 in Hv; lia)).
  assert ((9 * Len64 v + 64) / 64 < 9) by (apply Z.div_lt_upper_bound; lia). lia.
Qed.

(** A cut varint is not taken for a number. *)
Lemma ConsumeVarint_S fuel i v y b : ConsumeVarint (S fuel) i v (y :: b) =
  let v := u64 (v + Z.shiftl (byteZ y) (7 * Z.of_nat i)) in
  match fuel with
  | O => if decide (byteZ y < 2) then Some (v, S i) else None
  | _ => if decide (byteZ y < 128) then Some (v, S i) else ConsumeVarint fuel (S i) (u64 (v - Z.shiftl 128 (7 * Z.of_nat i))) b
  end.
Proof. done. Qed.
Lemma ConsumeVarint_cut fuel : ∀ i v w k, (k < length (AppendVarint fuel w))%nat → 0 ≤ w →
  ConsumeVarint fuel i v (take k (AppendVarint fuel w)) = None.
Proof.
  induction fuel as [|fuel IH]; intros i v w k Hk Hw; [done|]. rewrite AppendVarint_S in *. destruct (decide (w < 128)) as [Hlt|Hge].
  - simpl in Hk. assert (k = 0%nat) as -> by lia. done.
  - destruct k as [|k]; [done|]. cbn [take]. cbn [length] in Hk. rewrite ConsumeVarint_S. cbn zeta. rewrite low7_byte.
    pose proof (Z.mod_pos_bound w 128 ltac:(lia)). destruct fuel as [|fuel]; [by rewrite decide_False by lia|].
    rewrite decide_False by lia. apply IH; [lia|]. rewrite shiftr7. apply Z.div_pos; lia.
Qed.
Lemma DecodeVarint_cut v k : 0 ≤ v → (k < length (EncodeVarint v))%nat → DecodeVarint (take k (EncodeVarint v)) = (0, 0%nat).
Proof. intros Hv Hk. unfold DecodeVarint. by rewrite ConsumeVarint_cut. Qed.

Lemma int_of_u64_small v : 0 ≤ v < two63 → int_of_u64 v = v.
Proof. intros Hv. unfold int_of_u64. by rewrite decide_True by lia. Qed.

Section stream.
Context (d : dir) (fileNum : Z) (f : bytes) (Hf : d !! deriveBlockfilePath fileNum = Some f).
Notation at_offset n := {| bfs_fileNum := fileNum; bfs_currentOffset := n |}.

Lemma bfs_next_end : bfs_next d (at_offset (len f)) = Ok (None, at_offset (len f)).
Proof. unfold bfs_next. cbn [bfs_fileNum bfs_currentOffset]. rewrite Hf. by rewrite decide_True. Qed.

(** The peeked bytes start with the length. *)
Lemma peek_length pre b post : f = pre ++ raw b ++ post → len b < two56 →
  ∃ k, take k (drop (length pre) f) = take k (raw b ++ post) ∧
    DecodeVarint (take (Z.to_nat (if decide (len f - len pre < 8) then len f - len pre else 8)) (drop (length pre) f)) = (len b, length (EncodeVarint (len b))).
Proof.
  intros -> Hb. rewrite drop_app_length. exists 0%nat. split; [done|]. pose proof (len_nonneg b).
  pose proof (length_varint_small (len b) ltac:(lia)) as H8. rewrite len_app, len_app.
  set (k := Z.to_nat _). assert (length (EncodeVarint (len b)) ≤ k)%nat as Hk.
  { subst k. pose proof (len_nonneg post). unfold raw. rewrite len_app. unfold len in *. destruct (decide _); lia. }
  unfold raw. rewrite <-app_assoc. rewrite take_app_ge by done. rewrite DecodeVarint_Encode; [done|unfold is_u64, two56, two64 in *; lia].
Qed.

Lemma bfs_next_raw pre b post : f = pre ++ raw b ++ post → len b < two56 →
  bfs_next d (at_offset (len pre)) =
    Ok (Some (b, {| bpi_fileNum := fileNum; blockStartOffset := len pre; blockBytesOffset := len pre + len (EncodeVarint (len b)) |}),
        at_offset (len pre + len (raw b))).
Proof.
  intros Heq Hb. destruct (peek_length pre b post Heq Hb) as (_ & _ & Hpeek). pose proof (len_nonneg b). pose proof (len_nonneg post).
  pose proof (EncodeVarint_nonempty (len b)) as Hne. unfold bfs_next. cbn [bfs_fileNum bfs_currentOffset]. rewrite Hf.
  assert (len f = len pre + (len (EncodeVarint (len b)) + len b + len post)) as Hlen by (rewrite Heq, !len_app; unfold raw; rewrite len_app; lia).
  pose proof (len_EncodeVarint (len b)). rewrite decide_False by lia. rewrite to_nat_len.
  set (c := decide (len f - len pre < 8)) in *. assert ((if c then (len f - len pre, false) else (8, true)) = ((if c then len f - len pre else 8), if c then false else true))
    as -> by by destruct c. cbv beta iota.
  rewrite decide_False by (destruct c; lia). rewrite Hpeek. rewrite decide_False by lia.
  rewrite int_of_u64_small by (unfold two56, two63 in *; lia). rewrite decide_False by (unfold len in *; lia). rewrite decide_False by lia.
  rewrite Heq, drop_app_length. unfold raw at 1. rewrite <-app_assoc, drop_app_length, to_nat_len, take_app_length.
  unfold raw. by rewrite len_app.
Qed.

(** A block that was written in part only. *)
Definition torn (junk : bytes) : Prop := ∃ b rest, len b < two56 ∧ raw b = junk ++ rest ∧ rest ≠ [].

Lemma bfs_next_torn pre junk : f = pre ++ junk → torn junk → junk ≠ [] →
  bfs_next d (at_offset (len pre)) = Err ErrUnexpectedEndOfBlockfile.
Proof.
  intros Heq (b & rest & Hb & Hraw & Hrest) Hj. pose proof (len_nonneg b). pose proof (length_varint_small (len b) ltac:(lia)) as H8.
  unfold bfs_next. cbn [bfs_fileNum bfs_currentOffset]. rewrite Hf.
  assert (len f = len pre + len junk) as Hlen by (rewrite Heq, len_app; lia).
  assert (0 < len junk) by (unfold len; destruct junk; [done|simpl; lia]). assert (0 < len rest) by (unfold len; destruct rest; [done|simpl; lia]).
  rewrite decide_False by lia. rewrite to_nat_len, Heq, drop_app_length, <-Heq, Hlen. replace (len pre + len junk - len pre) with (len junk) by lia.
  assert (len (EncodeVarint (len b)) + len b = len junk + len rest) as Htot by (rewrite <-!len_app, <-Hraw; done).
  destruct (decide (length junk < length (EncodeVarint (len b)))%nat) as [Hcut|Hfull].
  - rewrite decide_True by (unfold len; lia). rewrite decide_False by lia. rewrite to_nat_len, take_ge by lia.
    assert (junk = take (length junk) (EncodeVarint (len b))) as ->.
    { rewrite <-(take_app_length junk rest) at 1. rewrite <-Hraw. unfold raw. by rewrite take_app_le by lia. }
    rewrite DecodeVarint_cut by (rewrite ?length_take; lia). done.
  - assert (∃ j, junk = EncodeVarint (len b) ++ j) as [j ->].
    { exists (drop (length (EncodeVarint (len b))) junk). rewrite <-(take_drop (length (EncodeVarint (len b))) junk) at 1. f_equal.
      rewrite <-(take_app_le junk rest) by lia. rewrite <-Hraw. unfold raw. by rewrite take_app_length. }
    rewrite len_app in *. set (k := decide _).
    assert ((if k then (len (EncodeVarint (len b)) + len j, false) else (8, true)) = ((if k then len (EncodeVarint (len b)) + len j else 8), if k then false else true))
      as -> by by destruct k. cbv beta iota. rewrite decide_False by (destruct k; lia).
    rewrite take_app_ge by (destruct k; unfold len in *; lia). rewrite DecodeVarint_Encode by (unfold is_u64, two56, two64 in *; lia).
    pose proof (EncodeVarint_nonempty (len b)). rewrite decide_False by lia. rewrite int_of_u64_small by (unfold two56, two63 in *; lia).
    rewrite decide_True; [done|]. unfold len in *. lia.
Qed.

Lemma scan_loop_spec blocks : Forall (λ b, len b < two56) blocks → ∀ fuel pre junk last n,
  f = pre ++ raws blocks ++ junk → torn junk → (length blocks ≤ fuel)%nat →
  scan_loop fuel d (at_offset (len pre)) last n = Ok (default last (Some <$> list.last blocks), len pre + len (raws blocks), n + len blocks).
Proof.
  induction 1 as [|b blocks Hb _ IH]; intros fuel pre junk last n Heq Ht Hfuel.
  - change (raws []) with (@nil byte) in *. rewrite app_nil_l in Heq. rewrite !len_nil, !Z.add_0_r.
    assert (bfs_next d (at_offset (len pre)) = Ok (None, at_offset (len pre)) ∨ bfs_next d (at_offset (len pre)) = Err ErrUnexpectedEndOfBlockfile) as Hn.
    { destruct (decide (junk = [])) as [->|Hj]; [left|right; by eapply bfs_next_torn]. rewrite app_nil_r in Heq. rewrite <-Heq. apply bfs_next_end. }
    destruct fuel; cbn [scan_loop]; destruct Hn as [-> | ->]; try done; by rewrite decide_True.
  - destruct fuel as [|fuel]; [simpl in Hfuel; lia|]. unfold raws in Heq. rewrite bind_cons, <-app_assoc in Heq. fold (raws blocks) in Heq.
    cbn [scan_loop]. rewrite (bfs_next_raw pre b (raws blocks ++ junk)) by done. rewrite <-len_app.
    rewrite (IH fuel (pre ++ raw b) junk); [|by rewrite <-app_assoc|done|simpl in Hfuel; lia].
    unfold raws. rewrite bind_cons. fold (raws blocks). rewrite !len_app, len_cons. f_equal. f_equal; [f_equal|]; [|lia|lia].
    rewrite last_cons. by destruct (list.last blocks).
Qed.
End stream.

(** ** Directories *)

(** The directory holds the blocks [segs], one list for each file. File [jf] is
    the one written to: it may end in a block that was written in part, the
    files before it are not empty, and a file after it is. *)
Record image (d : dir) (segs : list (list bytes)) (jf : nat) (junk : bytes) : Prop := {
  im_file j seg : segs !! j = Some seg → d !! deriveBlockfilePath (Z.of_nat j) = Some (raws seg ++ if decide (j = jf) then junk else []);
  im_only name : isBlockFileName name = true → is_Some (d !! name) → ∃ j, (j < length segs)%nat ∧ name = deriveBlockfilePath (Z.of_nat j);
  im_before j seg : segs !! j = Some seg → (j < jf)%nat → seg ≠ [];
  im_after j seg : segs !! j = Some seg → (jf < j)%nat → seg = [];
  im_length : (jf ≤ length segs ≤ jf + 2)%nat;
  im_count : len segs < two63;
  im_small : Forall (Forall (λ b, len b < two56)) segs;
  im_torn : torn junk
}.

Lemma suffix_fold (n : Z) (l : list bytes) : ∀ acc, acc < n → n < two63 →
  (∀ name, name ∈ l → isBlockFileName name = true → ∃ j, 0 ≤ j < n ∧ name = deriveBlockfilePath j) →
  ∃ r, foldM (λ biggestFileNum name,
      if isBlockFileName name then
        fileNum ← Atoi (drop (length blockfilePrefix) name);
        Ok (if decide (fileNum > biggestFileNum) then fileNum else biggestFileNum)
      else Ok biggestFileNum) acc l = Ok r ∧ acc ≤ r < n ∧ (∀ j, 0 ≤ j < n → deriveBlockfilePath j ∈ l → j ≤ r).
Proof.
  induction l as [|name l IH]; intros acc Hacc Hn Hl; [exists acc; split_and!; [done|lia|done|by intros ?? ?%elem_of_nil]|].
  cbn [foldM]. destruct (isBlockFileName name) eqn:Hname.
  - destruct (Hl name) as (j & Hj & ->); [left|done|]. unfold deriveBlockfilePath at 1. rewrite drop_app_length, Atoi_pad6 by lia. run.
    destruct (IH (if decide (j > acc) then j else acc)) as (r & -> & Hr & Hall); [destruct (decide _); lia|done|intros; apply Hl; [by right|done]|].
    exists r. split_and!; [done|destruct (decide _); lia|lia|]. intros k Hk [Heq|Hin]%elem_of_cons; [|by apply Hall].
    apply deriveBlockfilePath_inj in Heq as ->; [|lia..]. destruct (decide _); lia.
  - run. destruct (IH acc) as (r & -> & Hr & Hall); [done|done|intros; apply Hl; [by right|done]|].
    exists r. split_and!; [done|lia|lia|]. intros k Hk [Heq|Hin]%elem_of_cons; [|by apply Hall]. by rewrite <-Heq, deriveBlockfilePath_is in Hname.
Qed.
Lemma retrieveLastFileSuffix_image d segs jf junk : image d segs jf junk → retrieveLastFileSuffix d = Ok (len segs - 1).
Proof.
  intros Him. unfold retrieveLastFileSuffix. destruct (suffix_fold (len segs) (map_to_list d).*1 (-1)) as (r & -> & Hr & Hall).
  - pose proof (len_nonneg segs). lia.
  - apply (im_count _ _ _ _ Him).
  - intros name ([k f] & -> & Hin%elem_of_map_to_list)%list_elem_of_fmap Hname. destruct (im_only _ _ _ _ Him k Hname) as (j & Hj & ->); [by eexists|].
    exists (Z.of_nat j). unfold len. split; [lia|done].
  - f_equal. destruct (decide (segs = [])) as [->|Hne]; [rewrite len_nil in *; lia|]. destruct (last segs) as [seg|] eqn:Hlast; [|by apply last_None in Hlast].
    rewrite last_lookup in Hlast. assert (length segs ≠ 0%nat) by by destruct segs.
    assert (Z.of_nat (pred (length segs)) ≤ r); [|unfold len in *; lia]. apply Hall; [unfold len; lia|].
    apply list_elem_of_fmap. eexists (_, _). split; [|apply elem_of_map_to_list, (im_file _ _ _ _ Him), Hlast]. done.
Qed.

(** The directory after the writes of the manager. *)
Lemma raws_app l k : raws (l ++ k) = raws l ++ raws k.
Proof. unfold raws. by rewrite bind_app. Qed.
Lemma raws_one b : raws [b] = raw b.
Proof. unfold raws. rewrite bind_cons. apply app_nil_r. Qed.

Lemma scan_image d segs jf junk j seg n : image d segs jf junk → segs !! j = Some seg → (n ≤ length seg)%nat →
  scanForLastCompleteBlock d (Z.of_nat j) (len (raws (take n seg))) =
    Ok (last (drop n seg), len (raws seg), len seg - Z.of_nat n).
Proof.
  intros Him Hj Hn. unfold scanForLastCompleteBlock, newBlockfileStream. pose proof (im_file _ _ _ _ Him j seg Hj) as Hf. rewrite Hf.
  rewrite decide_False by (pose proof (len_nonneg (raws (take n seg))); lia). run.
  assert (Forall (λ b, len b < two56) seg) as Hsm by (apply (proj1 (Forall_lookup _ _) (im_small _ _ _ _ Him) j seg Hj)).
  rewrite <-(take_drop n seg), raws_app, <-app_assoc in Hf.
  rewrite (scan_loop_spec d (Z.of_nat j) _ Hf (drop n seg) (Forall_drop _ _ _ Hsm) _ _ (if decide (j = jf) then junk else [])); [|done| |].
  - rewrite <-len_app, <-raws_app, take_drop, Z.add_0_l. f_equal. f_equal; [f_equal; by destruct (last _)|].
    unfold len. rewrite length_drop. lia.
  - destruct (decide _); [apply (im_torn _ _ _ _ Him)|]. exists [], (raw []). split_and!; [done|done|done].
  - unfold file_size. rewrite Hf. cbn [from_option id]. rewrite !length_app, length_drop. pose proof (raws_length (drop n seg)) as Hl.
    unfold len in Hl. rewrite length_drop in Hl. lia.
Qed.

(** The information that describes [n] blocks of the file [jf]. *)
Definition info_of (segs : list (list bytes)) (jf n : nat) : blockfilesInfo :=
  let count := len (concat (take jf segs)) + Z.of_nat n in
  {| latestFileNumber := Z.of_nat jf; latestFileSize := len (raws (take n (default [] (segs !! jf))));
     noBlockFiles := bool_decide (count = 0); lastPersistedBlock := if decide (count = 0) then 0 else count - 1 |}.

Lemma blockfilesInfo_roundtrip i : 0 ≤ latestFileNumber i < two63 → 0 ≤ latestFileSize i < two63 → is_u64 (lastPersistedBlock i) →
  blockfilesInfo_unmarshal (blockfilesInfo_marshal i) = Ok i.
Proof.
  intros Hn Hs Hl. unfold blockfilesInfo_unmarshal, blockfilesInfo_marshal, newBuffer. rewrite !u64_small by (unfold two63, two64 in *; lia).
  rewrite <-(app_nil_r (EncodeVarint (if noBlockFiles i then _ else _))).
  rewrite buffer_DecodeVarint_Encode by (unfold is_u64, two63, two64 in *; lia). run.
  rewrite buffer_DecodeVarint_Encode by (unfold is_u64, two63, two64 in *; lia). run.
  rewrite buffer_DecodeVarint_Encode by done. run.
  rewrite buffer_DecodeVarint_Encode by (destruct (noBlockFiles i); unfold is_u64, two64; lia). run.
  rewrite !int_of_u64_small by done. destruct i as [? ? [] ?]; done.
Qed.

Section recover.
Context `{!Sha256} `{!ProtoMessage Envelope, !ProtoMessage Payload, !ProtoMessage ChannelHeader, !ProtoMessage SignatureHeader}.

(** The blocks are numbered from 0. *)
Definition numbered (blocks : list bytes) : Prop := ∀ i b, blocks !! i = Some b →
  ∃ block h, deserializeBlock b = Ok block ∧ b_Header block = Some h ∧ bh_Number h = Z.of_nat i.

Lemma concat_take_S {A} (segs : list (list A)) j seg : segs !! j = Some seg → concat (take (S j) segs) = concat (take j segs) ++ seg.
Proof. intros Hj. rewrite (take_S_r _ _ _ Hj), concat_app. simpl. by rewrite app_nil_r. Qed.
Lemma concat_full d segs jf junk seg : image d segs jf junk → segs !! jf = Some seg → concat segs = concat (take jf segs) ++ seg.
Proof.
  intros Him Hj. rewrite <-(take_drop (S jf) segs) at 1. rewrite concat_app, (concat_take_S _ _ _ Hj).
  assert (concat (drop (S jf) segs) = []) as ->; [|by rewrite app_nil_r].
  assert (Forall (λ s, s = []) (drop (S jf) segs)) as Hall.
  { apply Forall_lookup. intros i s Hi. rewrite lookup_drop in Hi. apply (im_after _ _ _ _ Him _ _ Hi). lia. }
  induction Hall as [|s l -> _ IH]; [done|]. exact IH.
Qed.
Lemma concat_before_nonempty d segs jf junk : image d segs jf junk → (0 < jf)%nat → concat (take jf segs) ≠ [].
Proof.
  intros Him Hjf Hc. destruct segs as [|seg segs]; [pose proof (im_length _ _ _ _ Him); simpl in *; lia|].
  destruct jf as [|jf]; [lia|]. simpl in Hc. apply app_eq_nil in Hc as [-> _]. by apply (im_before _ _ _ _ Him 0 []).
Qed.

Lemma scan_image_0 d segs jf junk j seg : image d segs jf junk → segs !! j = Some seg →
  scanForLastCompleteBlock d (Z.of_nat j) 0 = Ok (last seg, len (raws seg), len seg).
Proof. intros Him Hj. pose proof (scan_image _ _ _ _ j seg 0 Him Hj ltac:(lia)) as Hs. by rewrite drop_0, Z.sub_0_r in Hs. Qed.

Lemma last_number blocks : numbered blocks → blocks ≠ [] → ∃ b block h,
  last blocks = Some b ∧ deserializeBlock b = Ok block ∧ b_Header block = Some h ∧ bh_Number h = len blocks - 1.
Proof.
  intros Hnum Hne. destruct (last blocks) as [b|] eqn:Hl; [|by apply last_None in Hl]. exists b. rewrite last_lookup in Hl.
  destruct (Hnum _ _ Hl) as (block & h & Hd & Hh & Hn). exists block, h. split_and!; [done..|]. rewrite Hn. unfold len.
  assert (length blocks ≠ 0%nat) by by destruct blocks. lia.
Qed.

(** Without saved information the files are scanned. *)
Lemma constructBlockfilesInfo_image d segs jf junk : image d segs jf junk → S jf = length segs → numbered (concat segs) →
  constructBlockfilesInfo d = Ok (info_of segs jf (length (default [] (segs !! jf)))).
Proof.
  intros Him Hjf Hnum. unfold constructBlockfilesInfo. rewrite (retrieveLastFileSuffix_image _ _ _ _ Him). run.
  destruct (lookup_lt_is_Some_2 segs jf) as [seg Hj]; [lia|]. assert (len segs - 1 = Z.of_nat jf) as -> by (unfold len; lia).
  rewrite decide_False by lia. rewrite (im_file _ _ _ _ Him jf seg Hj). cbn [deref]. run. rewrite (scan_image_0 _ _ _ _ jf seg Him Hj). run.
  pose proof (concat_full _ _ _ _ _ Him Hj) as Hcat. unfold info_of. rewrite Hj. cbn [from_option id]. rewrite firstn_all.
  assert (len (concat (take jf segs)) + Z.of_nat (length seg) = len (concat segs)) as -> by (rewrite Hcat, len_app; done).
  assert ((if decide (len seg = 0 ∧ Z.of_nat jf > 0) then
      _ ← deref (d !! deriveBlockfilePath (Z.of_nat jf - 1));
      '(lastBlockBytes, _, _) ← scanForLastCompleteBlock d (Z.of_nat jf - 1) 0;
      Ok lastBlockBytes
    else Ok (last seg)) = Ok (last (concat segs))) as ->.
  { destruct (decide _) as [[Hs Hpos]|Hd].
    - destruct jf as [|j]; [lia|]. destruct (lookup_lt_is_Some_2 segs j) as [seg' Hj']; [lia|]. replace (Z.of_nat (S j) - 1) with (Z.of_nat j) by lia.
      rewrite (im_file _ _ _ _ Him j seg' Hj'). cbn [deref]. run. rewrite (scan_image_0 _ _ _ _ j seg' Him Hj'). run. f_equal. rewrite Hcat.
      assert (seg = []) as -> by (destruct seg; [done|unfold len in Hs; simpl in Hs; lia]). rewrite app_nil_r, (concat_take_S _ _ _ Hj'), last_app.
      destruct (last seg') eqn:El; [done|]. apply last_None in El. by destruct (im_before _ _ _ _ Him j seg' Hj'); [lia|].
    - rewrite Hcat, last_app. destruct (last seg) eqn:El; [done|]. apply last_None in El as ->. destruct jf; [done|]. unfold len in Hd; simpl in Hd. lia. }
  run. destruct (decide (concat segs = [])) as [E|E].
  - rewrite E. cbn [last]. run. rewrite E in Hcat. symmetry in Hcat. apply app_eq_nil in Hcat as [H1 ->].
    destruct jf; [done|]. by destruct (concat_before_nonempty _ _ _ _ Him ltac:(lia)).
  - destruct (last_number _ Hnum E) as (b & block & h & -> & Hd & Hh & Hn). rewrite Hd. run. rewrite Hh. cbn [deref]. run. rewrite Hn.
    assert (len (concat segs) ≠ 0) by (unfold len; destruct (concat segs); [done|simpl; lia]). rewrite decide_False by done.
    rewrite (bool_decide_eq_false_2 (len (concat segs) = 0)) by done. rewrite bool_decide_eq_false_2; [done|]. intros [Hz Hs]. apply E. rewrite Hcat.
    assert (jf = 0%nat) as -> by lia. destruct seg; [done|]. unfold len in Hs. simpl in Hs. lia.
Qed.
Lemma constructBlockfilesInfo_empty d junk : image d [] 0 junk → constructBlockfilesInfo d = Ok (info_of [] 0 0).
Proof. intros Him. unfold constructBlockfilesInfo. by rewrite (retrieveLastFileSuffix_image _ _ _ _ Him). Qed.

(** Saved information is brought up to date. *)
Lemma syncBlockfilesInfoFromFS_image d segs jf junk n : image d segs jf junk → (n ≤ length (default [] (segs !! jf)))%nat →
  len (concat segs) < two64 →
  syncBlockfilesInfoFromFS d (info_of segs jf n) = Ok (info_of segs jf (length (default [] (segs !! jf)))).
Proof.
  intros Him Hn Hmax. unfold syncBlockfilesInfoFromFS. cbn [latestFileNumber info_of].
  destruct (segs !! jf) as [seg|] eqn:Hj.
  2: { assert (d !! deriveBlockfilePath (Z.of_nat jf) = None) as ->; [|simpl in Hn; f_equal; f_equal; simpl; lia].
       apply eq_None_not_Some. intros Hs. destruct (im_only _ _ _ _ Him _ (deriveBlockfilePath_is _) Hs) as (j & Hjl & Heq).
       pose proof (im_count _ _ _ _ Him) as Hc. pose proof (im_length _ _ _ _ Him). apply lookup_ge_None in Hj.
       apply deriveBlockfilePath_inj in Heq; unfold len in *; lia. }
  cbn [from_option id] in *. rewrite (im_file _ _ _ _ Him jf seg Hj). destruct (decide (jf = jf)) as [_|]; [|done].
  assert (latestFileSize (info_of segs jf n) = len (raws (take n seg))) as Hsize by (unfold info_of; by rewrite Hj). rewrite Hsize.
  pose proof (concat_full _ _ _ _ _ Him Hj) as Hcat. rewrite Hcat, len_app in Hmax. pose proof (len_nonneg (concat (take jf segs))).
  destruct (decide (len (raws seg ++ junk) = len (raws (take n seg)))) as [Heq|Hne].
  - f_equal. unfold info_of. rewrite Hj. cbn [from_option id]. rewrite firstn_all.
    assert (n = length seg) as ->; [|by rewrite firstn_all]. rewrite <-(take_drop n seg) in Heq at 1. rewrite raws_app, !len_app in Heq.
    pose proof (raws_length (drop n seg)) as Hl. pose proof (len_nonneg junk). unfold len in Hl, Heq. rewrite length_drop in Hl. unfold len in *. lia.
  - rewrite (scan_image _ _ _ _ jf seg n Him Hj Hn). cbn [OrPanic]. run. unfold info_of. rewrite Hj. cbn [from_option id lastPersistedBlock noBlockFiles latestFileNumber]. rewrite firstn_all.
    destruct (decide (len seg - Z.of_nat n = 0)) as [Hz|Hnz]; [assert (n = length seg) as -> by (unfold len in Hz; lia); done|].
    f_equal. f_equal; [|].
    + symmetry. apply bool_decide_eq_false_2. unfold len in *. lia.
    + destruct (decide (_ + Z.of_nat n = 0)) as [Hc|Hc].
      * rewrite bool_decide_eq_true_2 by done. rewrite decide_False by (unfold len in *; lia). rewrite u64_small by (unfold len in *; lia). unfold len in *; lia.
      * rewrite bool_decide_eq_false_2 by done. rewrite decide_False by (unfold len in *; lia). rewrite u64_small by (unfold len in *; lia). unfold len in *; lia.
Qed.
End recover.

(** ** Reading on through the files *)

(** Blocks with their places: the file, the offset and the bytes. *)
Fixpoint locs_file (j off : Z) (seg : list bytes) : list (Z * Z * bytes) :=
  match seg with [] => [] | b :: seg => (j, off, b) :: locs_file j (off + len (raw b)) seg end.
Fixpoint locs (j : Z) (segs : list (list bytes)) : list (Z * Z * bytes) :=
  match segs with [] => [] | seg :: segs => locs_file j 0 seg ++ locs (j + 1) segs end.

Lemma locs_file_bytes j seg : ∀ off, (locs_file j off seg).*2 = seg.
Proof. induction seg as [|b seg IH]; intros off; csimpl; [done|]. by rewrite IH. Qed.
Lemma locs_bytes segs : ∀ j, (locs j segs).*2 = concat segs.
Proof. induction segs as [|seg segs IH]; intros j; csimpl; [done|]. by rewrite fmap_app, locs_file_bytes, IH. Qed.
Lemma locs_file_app j s1 s2 : ∀ off, locs_file j off (s1 ++ s2) = locs_file j off s1 ++ locs_file j (off + len (raws s1)) s2.
Proof.
  induction s1 as [|b s1 IH]; intros off; cbn [locs_file app]; [change (raws []) with (@nil byte); by rewrite len_nil, Z.add_0_r|].
  rewrite IH. unfold raws. rewrite bind_cons, len_app, Z.add_assoc. done.
Qed.
Lemma locs_app s1 s2 : ∀ j, locs j (s1 ++ s2) = locs j s1 ++ locs (j + len s1) s2.
Proof.
  induction s1 as [|seg s1 IH]; intros j; cbn [locs app]; [by rewrite len_nil, Z.add_0_r|]. rewrite IH, app_assoc, len_cons. do 2 f_equal. lia.
Qed.
Lemma locs_file_lookup j seg i p o b : ∀ off, locs_file j off seg !! i = Some (p, o, b) →
  p = j ∧ ∃ s1 s2, seg = s1 ++ b :: s2 ∧ o = off + len (raws s1) ∧ length s1 = i.
Proof.
  revert i. induction seg as [|x seg IH]; intros [|i] off Hi; simplify_eq/=.
  - split; [done|]. exists [], seg. split_and!; [done| |done]. change (raws []) with (@nil byte). rewrite len_nil. lia.
  - destruct (IH _ _ Hi) as (-> & s1 & s2 & -> & -> & <-). split; [done|]. exists (x :: s1), s2. split_and!; [done| |done].
    unfold raws. rewrite bind_cons, len_app. lia.
Qed.
Lemma length_locs_file j seg off : length (locs_file j off seg) = length seg.
Proof. by rewrite <-(locs_file_bytes j seg off) at 2; rewrite length_fmap. Qed.
Lemma length_locs segs j : length (locs j segs) = length (concat segs).
Proof. by rewrite <-(locs_bytes segs j), length_fmap. Qed.
Lemma locs_lookup segs i p o b : ∀ j, locs j segs !! i = Some (p, o, b) →
  ∃ n seg s1 s2, p = j + Z.of_nat n ∧ segs !! n = Some seg ∧ seg = s1 ++ b :: s2 ∧ o = len (raws s1) ∧ i = (length (concat (take n segs)) + length s1)%nat.
Proof.
  revert i. induction segs as [|seg segs IH]; intros i j Hi; [done|]. cbn [locs] in Hi. apply lookup_app_Some in Hi as [Hi|[Hge Hi]].
  - apply locs_file_lookup in Hi as (-> & s1 & s2 & -> & -> & <-). exists 0%nat, (s1 ++ b :: s2), s1, s2. split_and!; [lia|done|done|lia|done].
  - destruct (IH _ _ Hi) as (n & seg' & s1 & s2 & -> & Hn & -> & -> & Hi'). exists (S n), (s1 ++ b :: s2), s1, s2. split_and!; [lia|done|done|done|].
    cbn [take concat]. rewrite length_locs_file in *. rewrite length_app. lia.
Qed.

Definition placement_of (p o : Z) (b : bytes) : blockPlacementInfo :=
  {| bpi_fileNum := p; blockStartOffset := o; blockBytesOffset := o + len (EncodeVarint (len b)) |}.

(** A block is read from its place. *)
Lemma bfs_next_loc d segs jf junk i p o b : image d segs jf junk → locs 0 segs !! i = Some (p, o, b) →
  newBlockfileStream d p o = Ok {| bfs_fileNum := p; bfs_currentOffset := o |} ∧
  ∃ s', bfs_next d {| bfs_fileNum := p; bfs_currentOffset := o |} = Ok (Some (b, placement_of p o b), s').
Proof.
  intros Him Hi. destruct (locs_lookup _ _ _ _ _ _ Hi) as (n & seg & s1 & s2 & -> & Hn & -> & -> & _). rewrite Z.add_0_l.
  pose proof (im_file _ _ _ _ Him _ _ Hn) as Hf. unfold newBlockfileStream. rewrite Hf.
  rewrite decide_False by (pose proof (len_nonneg (raws s1)); lia). split; [done|]. eexists. unfold placement_of.
  rewrite raws_app in Hf. unfold raws at 2 in Hf. rewrite bind_cons, <-!app_assoc in Hf. eapply bfs_next_raw; [exact Hf|done|].
  pose proof (proj1 (Forall_lookup _ _) (im_small _ _ _ _ Him) _ _ Hn) as Hs. apply Forall_app in Hs as [_ Hs]. by apply Forall_cons in Hs as [? _].
Qed.

(** The stream gives these blocks and is then in a state with [fin]. *)
Fixpoint reads (d : dir) (fin : blockStream → Prop) (s : blockStream) (l : list (Z * Z * bytes)) : Prop :=
  match l with
  | [] => fin s
  | (p, o, b) :: l => ∃ s', bst_next d s = Ok (Some (b, placement_of p o b), s') ∧ reads d fin s' l
  end.
Definition at_end (d : dir) (s : blockStream) : Prop := ∃ s', bst_next d s = Ok (None, s').

Section streams.
Context (d : dir) (segs : list (list bytes)) (jf : nat) (Him : image d segs jf []) (e : Z).
Notation at_pos j o := {| bst_currentFileNum := Z.of_nat j; bst_endFileNum := e;
                          bst_currentFileStream := {| bfs_fileNum := Z.of_nat j; bfs_currentOffset := o |} |}.

Lemma file_contents j seg : segs !! j = Some seg → d !! deriveBlockfilePath (Z.of_nat j) = Some (raws seg).
Proof. intros Hj. rewrite (im_file _ _ _ _ Him j seg Hj). destruct (decide _); by rewrite app_nil_r. Qed.

Lemma bst_next_here fuel j s1 b s2 : segs !! j = Some (s1 ++ b :: s2) →
  bst_next_loop fuel d (at_pos j (len (raws s1))) =
    Ok (Some (b, placement_of (Z.of_nat j) (len (raws s1)) b), at_pos j (len (raws (s1 ++ [b])))).
Proof.
  intros Hj. pose proof (file_contents _ _ Hj) as Hf. rewrite raws_app in Hf. unfold raws at 2 in Hf. rewrite bind_cons in Hf.
  assert (len b < two56) as Hb.
  { pose proof (proj1 (Forall_lookup _ _) (im_small _ _ _ _ Him) _ _ Hj) as Hs. apply Forall_app in Hs as [_ Hs]. by apply Forall_cons in Hs as [? _]. }
  assert (bfs_next d {| bfs_fileNum := Z.of_nat j; bfs_currentOffset := len (raws s1) |} =
    Ok (Some (b, placement_of (Z.of_nat j) (len (raws s1)) b), {| bfs_fileNum := Z.of_nat j; bfs_currentOffset := len (raws (s1 ++ [b])) |})) as Hn.
  { unfold placement_of. rewrite raws_app, raws_one, len_app. by eapply bfs_next_raw. }
  destruct fuel; cbn [bst_next_loop bst_currentFileStream bst_currentFileNum bst_endFileNum]; rewrite Hn; done.
Qed.
Lemma bst_next_end fuel j seg : segs !! j = Some seg →
  bst_next_loop fuel d (at_pos j (len (raws seg))) =
    if decide (Z.of_nat j < e ∨ e < 0) then
      s ← moveToNextBlockfileStream d (at_pos j (len (raws seg))); match fuel with O => Panic | S fuel => bst_next_loop fuel d s end
    else Ok (None, at_pos j (len (raws seg))).
Proof.
  intros Hj. pose proof (file_contents _ _ Hj) as Hf.
  assert (bfs_next d {| bfs_fileNum := Z.of_nat j; bfs_currentOffset := len (raws seg) |} = Ok (None, {| bfs_fileNum := Z.of_nat j; bfs_currentOffset := len (raws seg) |}))
    as Hn by by apply bfs_next_end.
  destruct fuel; cbn [bst_next_loop bst_currentFileStream bst_currentFileNum bst_endFileNum]; rewrite Hn; cbn [from_option]; run;
    rewrite bool_decide_eq_true_2 by done; cbn [andb bst_currentFileNum bst_endFileNum]; by destruct (decide _); [rewrite bool_decide_eq_true_2|rewrite bool_decide_eq_false_2].
Qed.
Lemma bst_move j seg seg' : segs !! j = Some seg → segs !! S j = Some seg' → (Z.of_nat j < e ∨ e < 0) → ∀ fuel,
  bst_next_loop (S fuel) d (at_pos j (len (raws seg))) = bst_next_loop fuel d (at_pos (S j) 0).
Proof.
  intros Hj Hj' He fuel. rewrite (bst_next_end _ _ _ Hj), decide_True by done. unfold moveToNextBlockfileStream, newBlockfileStream. cbn [bst_currentFileNum bst_endFileNum].
  replace (Z.of_nat j + 1) with (Z.of_nat (S j)) by lia. rewrite (file_contents _ _ Hj'). rewrite decide_False by lia. done.
Qed.

Lemma size_pos : (jf < length segs)%nat → ∃ k, size d = S k.
Proof.
  intros Hl. destruct (lookup_lt_is_Some_2 segs jf Hl) as [seg Hs]. pose proof (file_contents _ _ Hs) as Hf.
  destruct (size d) eqn:E; [|by eexists]. apply map_size_empty_inv in E as ->. by rewrite lookup_empty in Hf.
Qed.

(** The blocks from a position on. *)
Lemma reads_from (fin : blockStream → Prop) : (Z.of_nat jf ≤ e ∨ e < 0) → (jf < length segs)%nat →
  (∀ j seg, segs !! j = Some seg → j = jf ∨ (S j = jf ∧ segs !! jf = Some []) → fin (at_pos j (len (raws seg)))) →
  ∀ j s1 s2, segs !! j = Some (s1 ++ s2) → (j ≤ jf)%nat →
  reads d fin (at_pos j (len (raws s1))) (locs_file (Z.of_nat j) (len (raws s1)) s2 ++ locs (Z.of_nat j + 1) (take (jf - j) (drop (S j) segs))).
Proof.
  intros He Hlen Hfin j s1 s2 Hj Hjf. destruct (size_pos Hlen) as [k Hk]. remember (jf - j)%nat as r eqn:Hr. revert j s1 s2 Hj Hjf Hr.
  induction r as [|r IHr]; intros j s1 s2 Hj Hjf Hr; revert s1 Hj; induction s2 as [|b s2 IHs]; intros s1 Hj.
  - rewrite app_nil_r in Hj. apply Hfin; [done|]. left. lia.
  - cbn [locs_file app reads]. eexists. split; [by eapply bst_next_here|].
    specialize (IHs (s1 ++ [b])). rewrite <-app_assoc, raws_app, raws_one, len_app in IHs. rewrite raws_app, raws_one, len_app. exact (IHs Hj).
  - rewrite app_nil_r in Hj. cbn [locs_file app]. destruct (lookup_lt_is_Some_2 segs (S j)) as [seg' Hj']; [lia|].
    rewrite (drop_S _ _ _ Hj'). cbn [take locs]. specialize (IHr (S j) [] seg' Hj' ltac:(lia) ltac:(lia)).
    change (raws []) with (@nil byte) in IHr. rewrite len_nil in IHr. replace (Z.of_nat j + 1) with (Z.of_nat (S j)) by lia.
    destruct seg' as [|b seg'].
    + destruct r as [|r]; [|by destruct (im_before _ _ _ _ Him (S j) [] Hj'); [lia|]]. apply Hfin; [done|]. right.
      split; [lia|]. by replace jf with (S j) by lia.
    + cbn [locs_file app reads] in IHr |- *. destruct IHr as (s' & Hs' & Hg). exists s'. split; [|done]. unfold bst_next in *. rewrite Hk in *.
      rewrite (bst_move _ _ _ Hj Hj') by lia. rewrite <-Hs'. pose proof (bst_next_here k (S j) [] b seg' Hj') as H1.
      pose proof (bst_next_here (S k) (S j) [] b seg' Hj') as H2. change (raws []) with (@nil byte) in H1, H2. rewrite len_nil in H1, H2. congruence.
  - cbn [locs_file app reads]. eexists. split; [by eapply bst_next_here|].
    specialize (IHs (s1 ++ [b])). rewrite <-app_assoc, raws_app, raws_one, len_app in IHs. rewrite raws_app, raws_one, len_app. exact (IHs Hj).
Qed.

Lemma at_end_last j seg : e = Z.of_nat jf → (jf < length segs)%nat → segs !! j = Some seg → j = jf ∨ (S j = jf ∧ segs !! jf = Some []) →
  at_end d (at_pos j (len (raws seg))).
Proof.
  intros He Hlen Hj [->|[Hjf Hs]]; eexists; unfold bst_next.
  - rewrite (bst_next_end _ _ _ Hj). rewrite decide_False by lia. done.
  - destruct (size_pos Hlen) as [k ->]. rewrite <-Hjf in Hs. rewrite (bst_move _ _ _ Hj Hs) by lia.
    pose proof (bst_next_end k _ _ Hs) as Hn. change (raws []) with (@nil byte) in Hn. rewrite len_nil, decide_False in Hn by lia. exact Hn.
Qed.
End streams.

(** The rest of the located blocks after block [i]. *)
Lemma locs_rest segs jf junk d j s1 s2 : image d segs jf junk → segs !! j = Some (s1 ++ s2) → (j ≤ jf < length segs)%nat →
  locs 0 segs = locs 0 (take j segs) ++ locs_file (Z.of_nat j) 0 s1 ++
    (locs_file (Z.of_nat j) (len (raws s1)) s2 ++ locs (Z.of_nat j + 1) (take (jf - j) (drop (S j) segs))).
Proof.
  intros Him Hj [Hjf Hlen]. rewrite <-(take_drop_middle segs j _ Hj) at 1. rewrite locs_app. f_equal.
  assert (0 + len (take j segs) = Z.of_nat j) as -> by (unfold len; rewrite length_take; apply lookup_lt_Some in Hj; lia).
  cbn [locs]. rewrite locs_file_app, Z.add_0_l, <-!app_assoc. do 2 f_equal.
  rewrite <-(take_drop (jf - j) (drop (S j) segs)) at 1. rewrite locs_app. rewrite <-(app_nil_r (locs _ (take _ _))) at 2. f_equal.
  rewrite drop_drop. generalize (Z.of_nat j + 1 + len (take (jf - j) (drop (S j) segs))).
  assert (Forall (λ s, s = []) (drop (S j + (jf - j)) segs)) as Hall.
  { apply Forall_lookup. intros i s Hi. rewrite lookup_drop in Hi. apply (im_after _ _ _ _ Him _ _ Hi). lia. }
  induction Hall as [|s l -> _ IH]; intros z; [done|]. apply IH.
Qed.

(** The blocks from a place on. *)
Lemma locs_split d segs jf junk i p o b : image d segs jf junk → (jf < length segs)%nat → locs 0 segs !! i = Some (p, o, b) →
  ∃ j s1 s2, p = Z.of_nat j ∧ o = len (raws s1) ∧ segs !! j = Some (s1 ++ b :: s2) ∧ (j ≤ jf)%nat ∧
    drop i (locs 0 segs) = locs_file (Z.of_nat j) (len (raws s1)) (b :: s2) ++ locs (Z.of_nat j + 1) (take (jf - j) (drop (S j) segs)).
Proof.
  intros Him Hlen Hi. destruct (locs_lookup _ _ _ _ _ _ Hi) as (j & seg & s1 & s2 & -> & Hj & -> & -> & ->). exists j, s1, s2.
  assert (j ≤ jf)%nat. { destruct (decide (j ≤ jf)%nat); [done|]. apply (im_after _ _ _ _ Him) in Hj; [by destruct s1|lia]. }
  split_and!; [lia|done..|]. rewrite (locs_rest _ _ _ _ _ _ _ Him Hj) by done. rewrite app_assoc, drop_app_length'; [done|].
  rewrite length_app, length_locs, length_locs_file. done.
Qed.

Lemma locs_nil segs : Forall (λ s, s = []) segs → ∀ j, locs j segs = [].
Proof. induction 1 as [|s l -> _ IH]; intros j; [done|]. apply IH. Qed.
(** A block appended to the last file comes last. *)
Lemma locs_snoc d segs jf junk seg b : image d segs jf junk → segs !! jf = Some seg →
  locs 0 (<[jf := seg ++ [b]]> segs) = locs 0 segs ++ [(Z.of_nat jf, len (raws seg), b)].
Proof.
  intros Him Hj. apply lookup_lt_Some in Hj as Hlt.
  assert (Hd : Forall (λ s, s = []) (drop (S jf) segs)).
  { apply Forall_lookup. intros i s Hi. rewrite lookup_drop in Hi. apply (im_after _ _ _ _ Him _ _ Hi). lia. }
  rewrite insert_take_drop by done. rewrite <-(take_drop_middle segs jf seg Hj) at 3.
  rewrite !locs_app. cbn [locs]. rewrite !(locs_nil _ Hd), !app_nil_r, locs_file_app, app_assoc.
  assert (0 + len (take jf segs) = Z.of_nat jf) as -> by (unfold len; rewrite length_take; lia). by rewrite Z.add_0_l.
Qed.

(** ** Writing *)

Lemma torn_nil : torn [].
Proof. exists [], (raw []). done. Qed.

Section writes.
Context (d : dir) (segs : list (list bytes)) (jf : nat) (junk : bytes) (Him : image d segs jf junk).

Lemma image_insert segs' jf' junk' (c : bytes) : (jf' < length segs')%nat →
  (∀ seg, segs' !! jf' = Some seg → c = raws seg ++ junk') →
  (∀ j seg, segs' !! j = Some seg → j ≠ jf' → d !! deriveBlockfilePath (Z.of_nat j) = Some (raws seg)) →
  (length segs ≤ length segs')%nat →
  (∀ j seg, segs' !! j = Some seg → (j < jf')%nat → seg ≠ []) → (∀ j seg, segs' !! j = Some seg → (jf' < j)%nat → seg = []) →
  (jf' ≤ length segs' ≤ jf' + 2)%nat → len segs' < two63 → Forall (Forall (λ b, len b < two56)) segs' → torn junk' →
  image (<[deriveBlockfilePath (Z.of_nat jf') := c]> d) segs' jf' junk'.
Proof.
  intros Hjf Hc Hrest Hgrow Hbef Haft Hlen Hcount Hsmall Htorn.
  split; [|intros name Hname Hs|exact Hbef|exact Haft|exact Hlen|exact Hcount|exact Hsmall|exact Htorn].
  - intros j seg Hj. destruct (decide (j = jf')) as [->|Hne]; [rewrite lookup_insert_eq; f_equal; by apply Hc|].
    rewrite app_nil_r, lookup_insert_ne; [by apply Hrest|]. intros Heq. apply Hne.
    apply deriveBlockfilePath_inj in Heq; apply lookup_lt_Some in Hj; unfold len in *; lia.
  - destruct (decide (name = deriveBlockfilePath (Z.of_nat jf'))) as [->|Hne]; [by exists jf'|]. rewrite lookup_insert_ne in Hs by done.
    destruct (im_only _ _ _ _ Him name Hname Hs) as (j & Hj & ->). exists j. split; [lia|done].
Qed.

Lemma file_of j seg : segs !! j = Some seg → j ≠ jf → d !! deriveBlockfilePath (Z.of_nat j) = Some (raws seg).
Proof. intros Hj Hne. rewrite (im_file _ _ _ _ Him j seg Hj), decide_False by done. by rewrite app_nil_r. Qed.

(** Part of a block, or the rest of it, is appended. *)
Lemma image_append_part x : (jf < length segs)%nat → torn (junk ++ x) →
  image (append_file d (deriveBlockfilePath (Z.of_nat jf)) x) segs jf (junk ++ x).
Proof.
  intros Hjf Ht. unfold append_file. apply image_insert; [done| |by apply file_of|done|apply (im_before _ _ _ _ Him)|apply (im_after _ _ _ _ Him)
    |apply (im_length _ _ _ _ Him)|apply (im_count _ _ _ _ Him)|apply (im_small _ _ _ _ Him)|done].
  intros seg Hj. rewrite (im_file _ _ _ _ Him jf seg Hj), decide_True by done. cbn [from_option id]. by rewrite app_assoc.
Qed.
Lemma image_append_whole x b seg : segs !! jf = Some seg → junk ++ x = raw b → len b < two56 →
  image (append_file d (deriveBlockfilePath (Z.of_nat jf)) x) (<[jf := seg ++ [b]]> segs) jf [].
Proof.
  intros Hj Hx Hb. pose proof (lookup_lt_Some _ _ _ Hj). unfold append_file. apply image_insert; rewrite ?length_insert; [done| | |done| | | | | |apply torn_nil].
  - intros s Hs. rewrite list_lookup_insert_eq in Hs by done. injection Hs as <-. rewrite (im_file _ _ _ _ Him jf seg Hj), decide_True by done.
    cbn [from_option id]. by rewrite app_nil_r, raws_app, raws_one, <-Hx, app_assoc.
  - intros j s Hs Hne. rewrite list_lookup_insert_ne in Hs by done. by apply file_of.
  - intros j s Hs Hlt. rewrite list_lookup_insert_ne in Hs by lia. by apply (im_before _ _ _ _ Him j s).
  - intros j s Hs Hlt. rewrite list_lookup_insert_ne in Hs by lia. by apply (im_after _ _ _ _ Him j s).
  - apply (im_length _ _ _ _ Him).
  - unfold len. rewrite length_insert. apply (im_count _ _ _ _ Him).
  - apply Forall_insert; [apply (im_small _ _ _ _ Him)|]. apply Forall_app. split; [|by constructor].
    apply (proj1 (Forall_lookup _ _) (im_small _ _ _ _ Him) _ _ Hj).
Qed.
Lemma image_truncate seg : segs !! jf = Some seg → image (truncateFile d (deriveBlockfilePath (Z.of_nat jf)) (len (raws seg))) segs jf [].
Proof.
  intros Hj. pose proof (lookup_lt_Some _ _ _ Hj). unfold truncateFile. pose proof (im_file _ _ _ _ Him jf seg Hj) as Hf. rewrite decide_True in Hf by done. rewrite Hf.
  assert (image (<[deriveBlockfilePath (Z.of_nat jf) := raws seg]> d) segs jf []) as Hi.
  { apply image_insert; [done| |by apply file_of|done|apply (im_before _ _ _ _ Him)|apply (im_after _ _ _ _ Him)
      |apply (im_length _ _ _ _ Him)|apply (im_count _ _ _ _ Him)|apply (im_small _ _ _ _ Him)|apply torn_nil].
    intros s Hs. assert (s = seg) as -> by congruence. by rewrite app_nil_r. }
  destruct (decide _) as [|Hle]; [by rewrite to_nat_len, take_app_length|]. rewrite len_app in Hle.
  assert (junk = []) as Hjk by (destruct junk; [done|unfold len in Hle; simpl in Hle; lia]). rewrite Hjk, app_nil_r in Hf.
  by rewrite insert_id in Hi.
Qed.

(** The file of a new ledger, and the next file. *)
Lemma image_open_same : (jf < length segs)%nat → newBlockfileWriter d (deriveBlockfilePath (Z.of_nat jf)) = d.
Proof.
  intros Hjf. destruct (lookup_lt_is_Some_2 segs jf Hjf) as [seg Hj]. unfold newBlockfileWriter. by rewrite (im_file _ _ _ _ Him jf seg Hj).
Qed.
Lemma image_open_first : segs = [] → image (newBlockfileWriter d (deriveBlockfilePath 0)) [[]] 0 [].
Proof.
  intros Hnil. unfold newBlockfileWriter. assert (d !! deriveBlockfilePath 0 = None) as ->.
  { apply eq_None_not_Some. intros Hs. destruct (im_only _ _ _ _ Him _ (deriveBlockfilePath_is _) Hs) as (j & Hj & _). rewrite Hnil in Hj. simpl in Hj. lia. }
  apply (image_insert [[]] 0); rewrite ?Hnil; simpl; try lia; try done.
  - intros seg [= <-]. done.
  - intros [|[|j]] seg Hj Hne; done.
  - intros [|j] seg Hj Hlt; [lia|done].
  - by repeat constructor.
  - apply torn_nil.
Qed.
Lemma image_open_next seg : segs !! jf = Some seg → len segs + 1 < two63 →
  ∃ segs', image (newBlockfileWriter d (deriveBlockfilePath (Z.of_nat (S jf)))) segs' jf junk ∧
    (segs' = segs ∨ segs' = segs ++ [[]]) ∧ segs' !! S jf = Some [].
Proof.
  intros Hj Hc. pose proof (lookup_lt_Some _ _ _ Hj). unfold newBlockfileWriter. destruct (segs !! S jf) as [s|] eqn:Hs.
  - exists segs. assert (s = []) as -> by (apply (im_after _ _ _ _ Him _ _ Hs); lia). rewrite (im_file _ _ _ _ Him _ _ Hs). split_and!; [done|by left|done].
  - apply lookup_ge_None in Hs. assert (length segs = S jf) as Hl by lia. exists (segs ++ [[]]). split_and!;
      [|by right|rewrite lookup_app_r, Hl, Nat.sub_diag by lia; done].
    assert (d !! deriveBlockfilePath (Z.of_nat (S jf)) = None) as ->.
    { apply eq_None_not_Some. intros Hsome. destruct (im_only _ _ _ _ Him _ (deriveBlockfilePath_is _) Hsome) as (j & Hjl & Heq).
      apply deriveBlockfilePath_inj in Heq; unfold len in *; lia. }
    split.
    + intros j sg [Hjs|[Hge Hjs]]%lookup_app_Some.
      * apply lookup_lt_Some in Hjs as Hlt. rewrite lookup_insert_ne; [by apply (im_file _ _ _ _ Him)|]. intros Heq.
        apply deriveBlockfilePath_inj in Heq; unfold len in *; lia.
      * apply list_lookup_singleton_Some in Hjs as [Hj0 <-]. assert (j = S jf) as -> by lia. rewrite lookup_insert_eq, decide_False by lia. done.
    + intros name Hname [f Hsome]. rewrite length_app. simpl. destruct (decide (name = deriveBlockfilePath (Z.of_nat (S jf)))) as [->|Hne]; [exists (S jf); split; [lia|done]|].
      rewrite lookup_insert_ne in Hsome by done. destruct (im_only _ _ _ _ Him name Hname) as (j & Hjl & ->); [by eexists|]. exists j. split; [lia|done].
    + intros j sg [Hjs|[Hge Hjs]]%lookup_app_Some Hlt; [by apply (im_before _ _ _ _ Him j)|lia].
    + intros j sg [Hjs|[Hge Hjs]]%lookup_app_Some Hlt; [by apply (im_after _ _ _ _ Him j)|]. by apply list_lookup_singleton_Some in Hjs as [_ <-].
    + rewrite length_app. simpl. lia.
    + rewrite len_app. exact Hc.
    + apply Forall_app. split; [apply (im_small _ _ _ _ Him)|by repeat constructor].
    + apply (im_torn _ _ _ _ Him).
Qed.
End writes.
Lemma image_move d segs jf seg : image d segs jf [] → segs !! jf = Some seg → seg ≠ [] → segs !! S jf = Some [] → image d segs (S jf) [].
Proof.
  intros Him Hj Hne Hs. pose proof (lookup_lt_Some _ _ _ Hs). pose proof (im_length _ _ _ _ Him). split.
  - intros j sg Hjs. rewrite (im_file _ _ _ _ Him _ _ Hjs). by do 2 destruct (decide _).
  - apply (im_only _ _ _ _ Him).
  - intros j sg Hjs Hlt. destruct (decide (j = jf)) as [->|]; [congruence|]. apply (im_before _ _ _ _ Him _ _ Hjs). lia.
  - intros j sg Hjs Hlt. apply (im_after _ _ _ _ Him _ _ Hjs). lia.
  - lia.
  - apply (im_count _ _ _ _ Him).
  - apply (im_small _ _ _ _ Him).
  - apply torn_nil.
Qed.
