(* ===== verification/BlockIndex.v ===== *)
(** * The index of the blocks

  Models common/ledger/blkstorage/blockindex.go: the index of a ledger, kept in
  a LevelDB handle, from block hashes, block numbers, transaction IDs and
  positions of transactions to locations in the block files. *)

From S2P Require Import Prelude SortedMap Encoding Version Separated Proto Rwset LiteRwset LevelDB Block BlockSerial BlockFiles.
From stdpp Require Import options.
Local Open Scope Z_scope.
Set Default Proof Using "Type*".

Inductive IndexableAttr := IndexableAttrBlockNum | IndexableAttrBlockHash | IndexableAttrTxID | IndexableAttrBlockNumTranNum.
#[export] Instance IndexableAttr_eq_dec : EqDecision IndexableAttr.
Proof. solve_decision. Defined.

(** ** Locations *)

Record fileLocPointer := { fileSuffixNum : Z; flp_loc : locPointer }.
Definition newFileLocationPointer (fileSuffixNum beginningOffset : Z) (relativeLP : locPointer) : fileLocPointer :=
  {| fileSuffixNum := fileSuffixNum;
     flp_loc := {| lp_offset := beginningOffset + lp_offset relativeLP; bytesLength := bytesLength relativeLP |} |}.
Definition fileLocPointer_marshal (flp : fileLocPointer) : bytes :=
  EncodeVarint (u64 (fileSuffixNum flp)) ++ EncodeVarint (u64 (lp_offset (flp_loc flp))) ++ EncodeVarint (u64 (bytesLength (flp_loc flp))).
Definition fileLocPointer_unmarshal (b : bytes) : res fileLocPointer :=
  let b := newBuffer b in
  '(n, b) ← buffer_DecodeVarint b;
  '(o, b) ← buffer_DecodeVarint b;
  '(l, b) ← buffer_DecodeVarint b;
  Ok {| fileSuffixNum := int_of_u64 n; flp_loc := {| lp_offset := int_of_u64 o; bytesLength := int_of_u64 l |} |}.

(** storage.proto *)
Record TxIDIndexValue := { BlkLocation : bytes; TxLocation : bytes; TxValidationCode : Z }.

(** ** Keys *)

Definition blockNumIdxKeyPrefix : byte := x6e.
Definition blockHashIdxKeyPrefix : byte := x68.
Definition txIDIdxKeyPrefix : byte := x74.
Definition blockNumTranNumIdxKeyPrefix : byte := x61.
Definition indexSavePointKey : bytes := B "indexCheckpointKey".

Definition constructBlockNumKey (blockNum : Z) : bytes := blockNumIdxKeyPrefix :: EncodeOrderPreservingVarUint64 blockNum.
Definition constructBlockHashKey (blockHash : bytes) : bytes := blockHashIdxKeyPrefix :: blockHash.
Definition constructTxIDKey (txID : bytes) (blkNum txNum : Z) : bytes :=
  txIDIdxKeyPrefix :: EncodeOrderPreservingVarUint64 (len txID) ++ txID ++ EncodeOrderPreservingVarUint64 blkNum ++
  EncodeOrderPreservingVarUint64 txNum.
Definition constructBlockNumTranNumKey (blockNum txNum : Z) : bytes :=
  blockNumTranNumIdxKeyPrefix :: EncodeOrderPreservingVarUint64 blockNum ++ EncodeOrderPreservingVarUint64 txNum.
Record rangeScan := { startKey : bytes; stopKey : bytes }.
Definition constructTxIDRangeScan (txID : bytes) : rangeScan :=
  let sk := txIDIdxKeyPrefix :: EncodeOrderPreservingVarUint64 (len txID) ++ txID in
  {| startKey := sk; stopKey := sk ++ [xff] |}.

Definition retrieveTxID (encodedTxIDKey : bytes) : res bytes :=
  match encodedTxIDKey with
  | [] => Err "invalid txIDKey - zero-length slice"
  | b :: remainingBytes =>
      if decide (b ≠ txIDIdxKeyPrefix) then Err "invalid txIDKey - unexpected prefix"
      else
        '(txIDLen, n) ← DecodeOrderPreservingVarUint64 remainingBytes;
        let remainingBytes := drop n remainingBytes in
        if decide (len remainingBytes <= int_of_u64 txIDLen) then Err "invalid txIDKey, fewer bytes present"
        else if decide (int_of_u64 txIDLen < 0) then Panic
        else Ok (take (Z.to_nat txIDLen) remainingBytes)
  end.
Definition retrieveBlockNum (encodedTxIDKey : bytes) (BlkNumStartingIndex : nat) : res Z :=
  if decide (length encodedTxIDKey < BlkNumStartingIndex)%nat then Panic
  else '(n, _) ← DecodeOrderPreservingVarUint64 (drop BlkNumStartingIndex encodedTxIDKey); Ok n.

Definition encodeBlockNum (blockNum : Z) : bytes := EncodeVarint blockNum.
Definition decodeBlockNum (blockNumBytes : bytes) : Z := (DecodeVarint blockNumBytes).1.

(** ** Operations *)

Record blockIdxInfo := {
  bii_blockNum : Z;
  bii_blockHash : bytes;
  bii_flp : fileLocPointer;
  bii_txOffsets : list txindexInfo;
  bii_metadata : list bytes
}.
Definition errIndexSavePointKeyNotPresent : String.string := "NoBlockIndexed"%string.
Definition errNilValue : String.string := String.EmptyString.

Section index.
Context {L : Type} `{!GoLevelDB L} `{!ProtoMessage TxIDIndexValue}.
(** The configured attributes and the name of the handle. *)
Context (indexItems : list IndexableAttr) (dbName : bytes).

Definition isAttributeIndexed (attribute : IndexableAttr) : bool := bool_decide (attribute ∈ indexItems).

Definition getLastBlockIndexed (db : L) : res Z :=
  blockNumBytes ← DBHandle_Get dbName db indexSavePointKey;
  match blockNumBytes with
  | None => Err errIndexSavePointKeyNotPresent
  | Some b => Ok (decodeBlockNum b)
  end.

(** The entries for the transaction at position [i]. *)
Definition txid_entry (i : blockIdxInfo) (txsfltr : bytes) (batch : LevelBatch) (p : nat * txindexInfo) : res LevelBatch :=
  let '(n, txoffset) := p in
  let txFlp := newFileLocationPointer (fileSuffixNum (bii_flp i)) (lp_offset (flp_loc (bii_flp i))) (ti_loc txoffset) in
  code ← ValidationFlags_Flag txsfltr n;
  indexValBytes ← Marshal {| BlkLocation := fileLocPointer_marshal (bii_flp i); TxLocation := fileLocPointer_marshal txFlp;
                             TxValidationCode := code |};
  LevelBatch_Put batch (constructTxIDKey (ti_txID txoffset) (bii_blockNum i) (Z.of_nat n)) (Some indexValBytes).
Definition trannum_entry (i : blockIdxInfo) (batch : LevelBatch) (p : nat * txindexInfo) : res LevelBatch :=
  let '(n, txoffset) := p in
  let txFlp := newFileLocationPointer (fileSuffixNum (bii_flp i)) (lp_offset (flp_loc (bii_flp i))) (ti_loc txoffset) in
  LevelBatch_Put batch (constructBlockNumTranNumKey (bii_blockNum i) (Z.of_nat n)) (Some (fileLocPointer_marshal txFlp)).
(** The batch that [indexBlock] writes; [None] if nothing is indexed. *)
Definition index_batch (i : blockIdxInfo) : res (option LevelBatch) :=
  if decide (indexItems = []) then Ok None
  else
    let txs := imap (λ n t, (n, t)) (bii_txOffsets i) in
    txsfltr ← index (bii_metadata i) BlockMetadataIndex_TRANSACTIONS_FILTER;
    let batch := DBHandle_NewUpdateBatch dbName in
    let flpBytes := fileLocPointer_marshal (bii_flp i) in
    batch ← (if isAttributeIndexed IndexableAttrBlockHash
             then LevelBatch_Put batch (constructBlockHashKey (bii_blockHash i)) (Some flpBytes) else Ok batch);
    batch ← (if isAttributeIndexed IndexableAttrBlockNum
             then LevelBatch_Put batch (constructBlockNumKey (bii_blockNum i)) (Some flpBytes) else Ok batch);
    batch ← (if isAttributeIndexed IndexableAttrTxID then foldM (txid_entry i txsfltr) batch txs else Ok batch);
    batch ← (if isAttributeIndexed IndexableAttrBlockNumTranNum then foldM (trannum_entry i) batch txs else Ok batch);
    batch ← LevelBatch_Put batch indexSavePointKey (Some (encodeBlockNum (bii_blockNum i)));
    Ok (Some batch).
Definition indexBlock (db : L) (i : blockIdxInfo) : res L :=
  batch ← index_batch i;
  match batch with Some batch => DBHandle_WriteBatch db batch | None => Ok db end.

Definition getBlockLocByHash (db : L) (blockHash : bytes) : res fileLocPointer :=
  if negb (isAttributeIndexed IndexableAttrBlockHash) then Err "block hashes not maintained in index"
  else
    b ← DBHandle_Get dbName db (constructBlockHashKey blockHash);
    match b with None => Err "no such block hash in index" | Some b => fileLocPointer_unmarshal b end.
Definition getBlockLocByBlockNum (db : L) (blockNum : Z) : res fileLocPointer :=
  if negb (isAttributeIndexed IndexableAttrBlockNum) then Err "block numbers not maintained in index"
  else
    b ← DBHandle_Get dbName db (constructBlockNumKey blockNum);
    match b with None => Err "no such block number in index" | Some b => fileLocPointer_unmarshal b end.
Definition getTXLocByBlockNumTranNum (db : L) (blockNum tranNum : Z) : res fileLocPointer :=
  if negb (isAttributeIndexed IndexableAttrBlockNumTranNum) then Err "<blockNumber, transactionNumber> tuple not maintained in index"
  else
    b ← DBHandle_Get dbName db (constructBlockNumTranNumKey blockNum tranNum);
    match b with None => Err "no such blockNumber, transactionNumber in index" | Some b => fileLocPointer_unmarshal b end.

(** The entry for the first block that holds the transaction. *)
Definition getTxIDVal (db : L) (txID : bytes) : res (TxIDIndexValue * Z) :=
  if negb (isAttributeIndexed IndexableAttrTxID) then Err "transaction IDs not maintained in index"
  else
    let r := constructTxIDRangeScan txID in
    itr ← DBHandle_GetIterator dbName db (Some (startKey r)) (Some (stopKey r));
    '(present, _) ← Iterator_Next itr;
    match present with
    | None => Err "no such transaction ID in index"
    | Some (key, valBytes) =>
        if decide (valBytes = []) then Err errNilValue
        else
          val ← Unmarshal valBytes;
          blockNum ← retrieveBlockNum key (length (startKey r));
          Ok (val, blockNum)
    end.
Definition getTxLoc (db : L) (txID : bytes) : res fileLocPointer :=
  '(v, _) ← getTxIDVal db txID; fileLocPointer_unmarshal (TxLocation v).
Definition getBlockLocByTxID (db : L) (txID : bytes) : res fileLocPointer :=
  '(v, _) ← getTxIDVal db txID; fileLocPointer_unmarshal (BlkLocation v).
Definition getTxValidationCodeByTxID (db : L) (txID : bytes) : res (Z * Z) :=
  '(v, blkNum) ← getTxIDVal db txID; Ok (TxValidationCode v, blkNum).
Definition index_txIDExists (db : L) (txID : bytes) : res bool :=
  if negb (isAttributeIndexed IndexableAttrTxID) then Err "transaction IDs not maintained in index"
  else
    let r := constructTxIDRangeScan txID in
    itr ← DBHandle_GetIterator dbName db (Some (startKey r)) (Some (stopKey r));
    '(present, _) ← Iterator_Next itr;
    Ok (bool_decide (is_Some present)).

(** ** Transaction IDs in snapshots *)

(** The IDs in the order of the keys, without repetition; the code writes them
    to a file. The comparison with the previous ID starts with the empty one,
    so an empty ID is left out. *)
Fixpoint unique_txids (previousTxID : bytes) (kvs : list (bytes * bytes)) : res (list bytes) :=
  match kvs with
  | [] => Ok []
  | (key, _) :: kvs =>
      key ← retrieveAppKey key;
      txID ← retrieveTxID key;
      if decide (previousTxID = txID) then unique_txids previousTxID kvs
      else rest ← unique_txids txID kvs; Ok (txID :: rest)
  end.
Definition exportUniqueTxIDs (db : L) : res (list bytes) :=
  if negb (isAttributeIndexed IndexableAttrTxID) then Err "transaction IDs not maintained in index"
  else
    itr ← DBHandle_GetIterator dbName db (Some [txIDIdxKeyPrefix]) (Some [x75]);
    unique_txids [] (it_rest itr).

Definition importTxIDsBatchSize : Z := 10000.
Fixpoint import_loop (lastBlockNumInSnapshot : Z) (db : L) (batch : LevelBatch) (i : Z) (txIDs : list bytes) : res (L * LevelBatch) :=
  match txIDs with
  | [] => Ok (db, batch)
  | txID :: txIDs =>
      batch ← LevelBatch_Put batch (constructTxIDKey txID lastBlockNumInSnapshot i) (Some []);
      '(db, batch) ← (if decide ((i + 1) mod importTxIDsBatchSize = 0)
                      then db ← DBHandle_WriteBatch db batch; Ok (db, LevelBatch_Reset batch)
                      else Ok (db, batch));
      import_loop lastBlockNumInSnapshot db batch (i + 1) txIDs
  end.
Definition importTxIDsFromSnapshot (txIDs : list bytes) (lastBlockNumInSnapshot : Z) (db : L) : res L :=
  '(db, batch) ← import_loop lastBlockNumInSnapshot db (DBHandle_NewUpdateBatch dbName) 0 txIDs;
  batch ← LevelBatch_Put batch indexSavePointKey (Some (encodeBlockNum lastBlockNumInSnapshot));
  DBHandle_WriteBatch db batch.
End index.

(** ** What a batch leaves in the database *)

Section writes.
Context {L : Type} `{!GoLevelDB L} `{!GoLevelDBLaws L} (dbName : bytes).

Definition put_ops (puts : list (bytes * bytes)) : list ldb_op := (λ p, LPut (constructLevelKey dbName p.1) p.2) <$> puts.
Definition insert_all (m : gmap bytes bytes) (puts : list (bytes * bytes)) : gmap bytes bytes := foldl (λ m p, <[p.1 := p.2]> m) m puts.

Lemma view_put m k v : view (<[constructLevelKey dbName k := v]> m) dbName = <[k := v]> (view m dbName).
Proof.
  apply map_eq. intros k'. rewrite lookup_view. destruct (decide (k = k')) as [->|Hk]; [by rewrite !lookup_insert_eq|].
  rewrite !lookup_insert_ne, lookup_view by (done || by intros ?%constructLevelKey_inj). done.
Qed.
Lemma write_puts (db : L) puts : ∃ db', ldb_Write db (put_ops puts) = Ok db' ∧
  view (contents db') dbName = insert_all (view (contents db) dbName) puts.
Proof.
  destruct (ldb_Write_law db (put_ops puts)) as (db' & Hw & Hc). exists db'. split; [done|]. rewrite Hc. clear Hw Hc.
  generalize (contents db). induction puts as [|[k v] puts IH]; intros m; [done|]. simpl. unfold apply_ldb_ops in *. simpl. by rewrite IH, view_put.
Qed.

Lemma insert_all_app m l1 l2 : insert_all m (l1 ++ l2) = insert_all (insert_all m l1) l2.
Proof. apply foldl_app. Qed.
Lemma lookup_insert_all_None puts m k : k ∉ puts.*1 → insert_all m puts !! k = m !! k.
Proof.
  revert m. induction puts as [|[k' v] puts IH]; intros m Hk; [done|]. simpl in *. apply not_elem_of_cons in Hk as [? ?].
  unfold insert_all in *. simpl. rewrite IH by done. by rewrite lookup_insert_ne.
Qed.
(** A key whose values agree has that value. *)
Lemma lookup_insert_all puts m k v : (k, v) ∈ puts → (∀ v', (k, v') ∈ puts → v' = v) → insert_all m puts !! k = Some v.
Proof.
  revert m. induction puts as [|[k' v'] puts IH] using rev_ind; intros m Hin Hu; [by apply elem_of_nil in Hin|].
  rewrite insert_all_app. simpl. destruct (decide (k' = k)) as [->|Hk].
  - unfold insert_all at 1. simpl. rewrite lookup_insert_eq. f_equal. apply Hu. set_solver.
  - unfold insert_all at 1. simpl. rewrite lookup_insert_ne by done. apply IH; [set_solver|]. intros v'' ?. apply Hu. set_solver.
Qed.
Lemma lookup_insert_all_inv puts m k v : insert_all m puts !! k = Some v → (k, v) ∈ puts ∨ m !! k = Some v.
Proof.
  revert m. induction puts as [|[k' v'] puts IH]; intros m Hl; [by right|]. apply IH in Hl as [?|Hl]; [left; by right|].
  simpl in Hl. apply lookup_insert_Some in Hl as [[-> ->]|[_ ?]]; [left; left|by right].
Qed.
(** Two maps that agree on some keys agree on them after the same writes. *)
Lemma insert_all_agree (P : bytes → Prop) puts m m' : (∀ k, P k → m !! k = m' !! k) → ∀ k, P k → insert_all m puts !! k = insert_all m' puts !! k.
Proof.
  revert m m'. induction puts as [|[k' v'] puts IH]; intros m m' Hm k Hk; [by apply Hm|]. apply IH; [|done]. intros k'' ?. simpl.
  destruct (decide (k' = k'')) as [->|]; [by rewrite !lookup_insert_eq|]. rewrite !lookup_insert_ne by done. by apply Hm.
Qed.

(** A batch that holds the given bindings. *)
Definition holds (b : LevelBatch) (puts : list (bytes * bytes)) : Prop := lb_ops b = put_ops puts ∧ lb_dbName b = dbName.
Lemma holds_Put b puts k v : holds b puts → ∃ b', LevelBatch_Put b k (Some v) = Ok b' ∧ holds b' (puts ++ [(k, v)]).
Proof. intros [Ho Hn]. eexists. split; [done|]. split; [|done]. simpl. rewrite Ho, Hn. unfold put_ops. by rewrite fmap_app. Qed.
Lemma holds_foldM {A} (f : LevelBatch → A → res LevelBatch) (g : A → bytes * bytes) l : ∀ b puts,
  (∀ x b, x ∈ l → f b x = LevelBatch_Put b (g x).1 (Some (g x).2)) →
  holds b puts → ∃ b', foldM f b l = Ok b' ∧ holds b' (puts ++ (g <$> l)).
Proof.
  induction l as [|x l IH]; intros b puts Hf Hb; [exists b; by rewrite app_nil_r|].
  destruct (holds_Put b puts (g x).1 (g x).2 Hb) as (b1 & Hp & Hb1). cbn [foldM]. rewrite Hf, Hp by left. run.
  destruct (IH b1 _ ltac:(intros; apply Hf; by right) Hb1) as (b2 & ? & Hb2). exists b2. split; [done|].
  rewrite <-app_assoc in Hb2. simpl in *. by destruct (g x).
Qed.
Lemma holds_imap {A} (f : LevelBatch → nat * A → res LevelBatch) (g : nat → A → bytes * bytes) l b puts :
  (∀ n x b, l !! n = Some x → f b (n, x) = LevelBatch_Put b (g n x).1 (Some (g n x).2)) →
  holds b puts → ∃ b', foldM f b (imap (λ n t, (n, t)) l) = Ok b' ∧ holds b' (puts ++ imap g l).
Proof.
  intros Hf Hb. replace (imap g l) with ((λ p, g p.1 p.2) <$> imap (λ n t, (n, t)) l) by by rewrite fmap_imap.
  apply holds_foldM; [|done]. intros [n x] b' (? & ? & [= <- <-] & Hx)%elem_of_lookup_imap. by apply Hf.
Qed.
End writes.

(** ** Keys *)

Lemma constructBlockNumKey_inj n n' : is_u64 n → is_u64 n' → constructBlockNumKey n = constructBlockNumKey n' → n = n'.
Proof.
  intros Hn Hn' [= Heq]. rewrite <-(app_nil_r (EncodeOrderPreservingVarUint64 n)), <-(app_nil_r (EncodeOrderPreservingVarUint64 n')) in Heq.
  by apply EncodeOrderPreserving_inj in Heq as [-> _].
Qed.
Lemma constructBlockNumTranNumKey_inj n n' t t' : is_u64 n → is_u64 n' → is_u64 t → is_u64 t' →
  constructBlockNumTranNumKey n t = constructBlockNumTranNumKey n' t' → n = n' ∧ t = t'.
Proof.
  intros Hn Hn' Ht Ht' [= Heq]. apply EncodeOrderPreserving_inj in Heq as [-> Heq]; [|done..]. split; [done|].
  rewrite <-(app_nil_r (EncodeOrderPreservingVarUint64 t)), <-(app_nil_r (EncodeOrderPreservingVarUint64 t')) in Heq.
  by apply EncodeOrderPreserving_inj in Heq as [-> _].
Qed.
(** The keys of a transaction are those that extend the start of its scan. *)
Lemma constructTxIDKey_split txID b n : constructTxIDKey txID b n =
  startKey (constructTxIDRangeScan txID) ++ EncodeOrderPreservingVarUint64 b ++ EncodeOrderPreservingVarUint64 n.
Proof. unfold constructTxIDKey, constructTxIDRangeScan. simpl. by rewrite <-app_assoc. Qed.
Lemma txid_startKey_inj txID txID' x y : len txID < two64 → len txID' < two64 →
  startKey (constructTxIDRangeScan txID) ++ x = startKey (constructTxIDRangeScan txID') ++ y → txID = txID' ∧ x = y.
Proof.
  intros H1 H2 [= Heq]. rewrite <-!app_assoc in Heq. pose proof (len_nonneg txID). pose proof (len_nonneg txID').
  apply EncodeOrderPreserving_inj in Heq as [Hl Heq]; [|unfold is_u64; lia..]. apply app_inj_1 in Heq; [done|]. unfold len in Hl. lia.
Qed.
Lemma constructTxIDKey_inj txID txID' b b' n n' : len txID < two64 → len txID' < two64 → is_u64 b → is_u64 b' → is_u64 n → is_u64 n' →
  constructTxIDKey txID b n = constructTxIDKey txID' b' n' → txID = txID' ∧ b = b' ∧ n = n'.
Proof.
  intros H1 H2 Hb Hb' Hn Hn' Heq. rewrite !constructTxIDKey_split in Heq. apply txid_startKey_inj in Heq as [-> Heq]; [|done..].
  apply EncodeOrderPreserving_inj in Heq as [-> Heq]; [|done..].
  rewrite <-(app_nil_r (EncodeOrderPreservingVarUint64 n)), <-(app_nil_r (EncodeOrderPreservingVarUint64 n')) in Heq.
  by apply EncodeOrderPreserving_inj in Heq as [-> _].
Qed.

Lemma EncodeOrderPreserving_below_ff n x : bytes_lt (EncodeOrderPreservingVarUint64 n ++ x) [xff].
Proof.
  rewrite EncodeOrderPreserving_alt. assert (length (PutUint64 n) = 8%nat) as -> by apply length_be_bytes. generalize (PutUint64 n). intros bs.
  unfold bytes_lt. cbn [app bytes_compare]. rewrite byteZ_Zbyte, Z.mod_small by lia. change (byteZ xff) with 255.
  by rewrite (proj2 (Z.compare_lt_iff _ _)) by lia.
Qed.
Lemma constructTxIDKey_compare txID j n j' n' : is_u64 j → is_u64 n → is_u64 j' → is_u64 n' →
  bytes_lt (constructTxIDKey txID j n) (constructTxIDKey txID j' n') → j < j' ∨ (j = j' ∧ n < n').
Proof.
  intros Hj Hn Hj' Hn'. unfold bytes_lt. rewrite !constructTxIDKey_split, bytes_compare_app, EncodeOrderPreserving_compare by done.
  rewrite <-(app_nil_r (EncodeOrderPreservingVarUint64 n)), <-(app_nil_r (EncodeOrderPreservingVarUint64 n')), EncodeOrderPreserving_compare by done.
  destruct (Z.compare_spec j j'), (Z.compare_spec n n'); try done; auto.
Qed.
Lemma retrieveBlockNum_key txID b n : is_u64 b → retrieveBlockNum (constructTxIDKey txID b n) (length (startKey (constructTxIDRangeScan txID))) = Ok b.
Proof.
  intros Hb. rewrite constructTxIDKey_split. unfold retrieveBlockNum. rewrite decide_False by (rewrite length_app; lia).
  rewrite drop_app_length, Decode_EncodeOrderPreserving by done. by run.
Qed.

Definition flp_wf (flp : fileLocPointer) : Prop :=
  0 ≤ fileSuffixNum flp < two63 ∧ 0 ≤ lp_offset (flp_loc flp) < two63 ∧ 0 ≤ bytesLength (flp_loc flp) < two63.
Lemma fileLocPointer_roundtrip flp : flp_wf flp → fileLocPointer_unmarshal (fileLocPointer_marshal flp) = Ok flp.
Proof.
  intros (H1 & H2 & H3). unfold fileLocPointer_unmarshal, fileLocPointer_marshal, newBuffer. rewrite !u64_small by (unfold two63, two64 in *; lia).
  rewrite <-(app_nil_r (EncodeVarint (bytesLength _))).
  do 3 (rewrite buffer_DecodeVarint_Encode by (unfold is_u64, two63, two64 in *; lia); run).
  rewrite !int_of_u64_small by done. by destruct flp as [? []].
Qed.

(** ** The contents of the index *)

(** The messages of the index come back as they were written; only a message
    with no field set has an empty encoding. *)
Class TxIDIndexValueLaws `{!ProtoMessage TxIDIndexValue} : Prop :=
  TxIDIndexValue_law v : 0 ≤ TxValidationCode v < 256 → BlkLocation v ≠ [] → ∃ b, Marshal v = Ok b ∧ b ≠ [] ∧ Unmarshal b = Ok v.

Definition when (b : bool) (l : list (bytes * bytes)) : list (bytes * bytes) := if b then l else [].
Lemma elem_of_when b l p : p ∈ when b l ↔ b = true ∧ p ∈ l.
Proof. destruct b; simpl; set_solver. Qed.

Section contents.
Context {L : Type} `{!GoLevelDB L} `{!GoLevelDBLaws L} `{!ProtoMessage TxIDIndexValue} `{!TxIDIndexValueLaws}.
Context (indexItems : list IndexableAttr) (dbName : bytes).
Notation bindings db := (view (contents db) dbName).
Notation indexed_attr := (isAttributeIndexed indexItems).

Definition marshalled (v : TxIDIndexValue) : bytes := match Marshal v with Ok b => b | _ => [] end.
Definition tx_flp (i : blockIdxInfo) (t : txindexInfo) : fileLocPointer :=
  newFileLocationPointer (fileSuffixNum (bii_flp i)) (lp_offset (flp_loc (bii_flp i))) (ti_loc t).
Definition tx_code (i : blockIdxInfo) (n : nat) : Z := from_option byteZ 0 (default [] (bii_metadata i !! BlockMetadataIndex_TRANSACTIONS_FILTER) !! n).
Definition tx_value (i : blockIdxInfo) (n : nat) (t : txindexInfo) : TxIDIndexValue :=
  {| BlkLocation := fileLocPointer_marshal (bii_flp i); TxLocation := fileLocPointer_marshal (tx_flp i t); TxValidationCode := tx_code i n |}.
Definition hash_puts (i : blockIdxInfo) := when (indexed_attr IndexableAttrBlockHash) [(constructBlockHashKey (bii_blockHash i), fileLocPointer_marshal (bii_flp i))].
Definition num_puts (i : blockIdxInfo) := when (indexed_attr IndexableAttrBlockNum) [(constructBlockNumKey (bii_blockNum i), fileLocPointer_marshal (bii_flp i))].
Definition txid_puts (i : blockIdxInfo) := when (indexed_attr IndexableAttrTxID)
  (imap (λ n t, (constructTxIDKey (ti_txID t) (bii_blockNum i) (Z.of_nat n), marshalled (tx_value i n t))) (bii_txOffsets i)).
Definition trannum_puts (i : blockIdxInfo) := when (indexed_attr IndexableAttrBlockNumTranNum)
  (imap (λ n t, (constructBlockNumTranNumKey (bii_blockNum i) (Z.of_nat n), fileLocPointer_marshal (tx_flp i t))) (bii_txOffsets i)).
Definition index_puts (i : blockIdxInfo) : list (bytes * bytes) :=
  hash_puts i ++ num_puts i ++ txid_puts i ++ trannum_puts i ++ [(indexSavePointKey, encodeBlockNum (bii_blockNum i))].

(** A block the index can take in: its metadata has a code for every
    transaction and its locations fit an int64. *)
Record indexable (i : blockIdxInfo) : Prop := {
  ix_filter : ∃ f, bii_metadata i !! BlockMetadataIndex_TRANSACTIONS_FILTER = Some f ∧
    (IndexableAttrTxID ∈ indexItems → length (bii_txOffsets i) ≤ length f)%nat;
  ix_number : is_u64 (bii_blockNum i);
  ix_txs : len (bii_txOffsets i) < two64;
  ix_txids t : t ∈ bii_txOffsets i → len (ti_txID t) < two64;
  ix_flp : flp_wf (bii_flp i);
  ix_tx_flp t : t ∈ bii_txOffsets i → flp_wf (tx_flp i t)
}.

Lemma fileLocPointer_marshal_nonempty flp : fileLocPointer_marshal flp ≠ [].
Proof. unfold fileLocPointer_marshal. pose proof (EncodeVarint_nonempty (u64 (fileSuffixNum flp))). destruct (EncodeVarint _); simpl in *; [lia|done]. Qed.
Lemma tx_value_law i n t : ∃ b, Marshal (tx_value i n t) = Ok b ∧ b ≠ [] ∧ Unmarshal b = Ok (tx_value i n t).
Proof.
  apply TxIDIndexValue_law; [|apply fileLocPointer_marshal_nonempty]. cbn. unfold tx_code.
  destruct (default [] _ !! n) as [c|]; [|cbn; lia]. cbn. pose proof (byteZ_range c). lia.
Qed.

Lemma index_batch_spec i : indexItems ≠ [] → indexable i → ∃ batch, index_batch indexItems dbName i = Ok (Some batch) ∧ lb_ops batch = put_ops dbName (index_puts i).
Proof.
  intros Hne Hi. destruct (ix_filter i Hi) as (f & Hf & Hlen). unfold index_batch. rewrite decide_False by done.
  unfold index at 1. rewrite Hf. run.
  assert (H0 : holds dbName (DBHandle_NewUpdateBatch dbName) []) by done.
  assert (∃ b, (if indexed_attr IndexableAttrBlockHash then LevelBatch_Put (DBHandle_NewUpdateBatch dbName) (constructBlockHashKey (bii_blockHash i))
    (Some (fileLocPointer_marshal (bii_flp i))) else Ok (DBHandle_NewUpdateBatch dbName)) = Ok b ∧ holds dbName b (hash_puts i)) as (b1 & -> & H1).
  { unfold hash_puts. destruct (indexed_attr _); [by apply (holds_Put _ _ [])|by eexists]. }
  run.
  assert (∃ b, (if indexed_attr IndexableAttrBlockNum then LevelBatch_Put b1 (constructBlockNumKey (bii_blockNum i))
    (Some (fileLocPointer_marshal (bii_flp i))) else Ok b1) = Ok b ∧ holds dbName b (hash_puts i ++ num_puts i)) as (b2 & -> & H2).
  { unfold num_puts. destruct (indexed_attr IndexableAttrBlockNum); [by apply holds_Put|exists b1; by rewrite app_nil_r]. }
  run.
  assert (∃ b, (if indexed_attr IndexableAttrTxID then foldM (txid_entry i f) b2 (imap (λ n t, (n, t)) (bii_txOffsets i)) else Ok b2) = Ok b ∧
    holds dbName b ((hash_puts i ++ num_puts i) ++ txid_puts i)) as (b3 & -> & H3).
  { unfold txid_puts. destruct (indexed_attr IndexableAttrTxID) eqn:Ha; [|exists b2; by rewrite app_nil_r]. cbn [when].
    apply bool_decide_eq_true in Ha. apply holds_imap; [|done]. intros n t b Ht. cbn [fst snd txid_entry].
    apply lookup_lt_Some in Ht as Hn. destruct (lookup_lt_is_Some_2 f n) as [c Hc]; [specialize (Hlen Ha); lia|].
    unfold ValidationFlags_Flag, index. rewrite Hc. run. fold (tx_flp i t).
    replace {| BlkLocation := _; TxLocation := _; TxValidationCode := _ |} with (tx_value i n t) by (unfold tx_value, tx_code; by rewrite Hf; cbn; rewrite Hc).
    unfold marshalled. destruct (tx_value_law i n t) as (v & -> & _). by run. }
  run.
  assert (∃ b, (if indexed_attr IndexableAttrBlockNumTranNum then foldM (trannum_entry i) b3 (imap (λ n t, (n, t)) (bii_txOffsets i)) else Ok b3) = Ok b ∧
    holds dbName b (((hash_puts i ++ num_puts i) ++ txid_puts i) ++ trannum_puts i)) as (b4 & -> & H4).
  { unfold trannum_puts. destruct (indexed_attr IndexableAttrBlockNumTranNum); [|exists b3; by rewrite app_nil_r]. cbn [when]. by apply holds_imap. }
  run. destruct (holds_Put _ b4 _ indexSavePointKey (encodeBlockNum (bii_blockNum i)) H4) as (b5 & -> & H5 & _). run.
  exists b5. split; [done|]. rewrite H5. unfold index_puts. by rewrite <-!app_assoc.
Qed.
(** The keys of the index. *)
Definition index_key (k : bytes) : Prop :=
  k = indexSavePointKey ∨ ∃ p r, k = p :: r ∧ p ∈ [blockNumIdxKeyPrefix; blockHashIdxKeyPrefix; txIDIdxKeyPrefix; blockNumTranNumIdxKeyPrefix].
(** The index holds the blocks [l], in order. *)
Record index_of (db : L) (l : list blockIdxInfo) : Prop := {
  io_indexable : Forall indexable l;
  io_number j i : l !! j = Some i → bii_blockNum i = Z.of_nat j;
  io_bindings k : index_key k → bindings db !! k = insert_all ∅ (l ≫= index_puts) !! k
}.

Lemma index_of_nil db : (∀ k, index_key k → bindings db !! k = None) → index_of db [].
Proof. intros Hk. split; [constructor|done|]. intros k ?. cbn. rewrite lookup_empty. by apply Hk. Qed.
Lemma index_of_step db db' l i : index_of db l → indexable i → bii_blockNum i = Z.of_nat (length l) →
  ldb_Write db (put_ops dbName (index_puts i)) = Ok db' → index_of db' (l ++ [i]).
Proof.
  intros [Hok Hnum Hb] Hi Hn Hw. destruct (write_puts dbName db (index_puts i)) as (db1 & Hw' & Hv).
  assert (db' = db1) as -> by congruence. split.
  - by apply Forall_app_2; [|constructor].
  - intros j i' Hj. apply lookup_app_Some in Hj as [Hj|[Hge Hj]]; [by apply Hnum|]. apply list_lookup_singleton_Some in Hj as [? <-]. rewrite Hn. f_equal. lia.
  - intros k Hk. rewrite Hv, bind_app, insert_all_app. cbn [mbind list_bind]. rewrite app_nil_r. by apply (insert_all_agree index_key).
Qed.
Lemma index_of_other db db' l : index_of db l → (∀ k, index_key k → bindings db' !! k = bindings db !! k) → index_of db' l.
Proof. intros [Hok Hnum Hb] Hsame. split; [done|done|]. intros k Hk. rewrite Hsame by done. by apply Hb. Qed.

Lemma elem_of_index_puts i k v : (k, v) ∈ index_puts i ↔
  (IndexableAttrBlockHash ∈ indexItems ∧ k = constructBlockHashKey (bii_blockHash i) ∧ v = fileLocPointer_marshal (bii_flp i)) ∨
  (IndexableAttrBlockNum ∈ indexItems ∧ k = constructBlockNumKey (bii_blockNum i) ∧ v = fileLocPointer_marshal (bii_flp i)) ∨
  (IndexableAttrTxID ∈ indexItems ∧ ∃ n t, bii_txOffsets i !! n = Some t ∧ k = constructTxIDKey (ti_txID t) (bii_blockNum i) (Z.of_nat n) ∧
    v = marshalled (tx_value i n t)) ∨
  (IndexableAttrBlockNumTranNum ∈ indexItems ∧ ∃ n t, bii_txOffsets i !! n = Some t ∧
    k = constructBlockNumTranNumKey (bii_blockNum i) (Z.of_nat n) ∧ v = fileLocPointer_marshal (tx_flp i t)) ∨
  (k = indexSavePointKey ∧ v = encodeBlockNum (bii_blockNum i)).
Proof.
  unfold index_puts, hash_puts, num_puts, txid_puts, trannum_puts. rewrite !elem_of_app, !elem_of_when, !list_elem_of_singleton, !elem_of_lookup_imap.
  unfold isAttributeIndexed. rewrite !bool_decide_eq_true. naive_solver.
Qed.

Section lookups.
Context (db : L) (l : list blockIdxInfo) (Hdb : index_of db l).

Lemma binding_of k v j i : index_key k → l !! j = Some i → (k, v) ∈ index_puts i →
  (∀ i' v', i' ∈ l → (k, v') ∈ index_puts i' → v' = v) → bindings db !! k = Some v.
Proof.
  intros Hk Hj Hin Hu. rewrite (io_bindings _ _ Hdb) by done. apply lookup_insert_all.
  - apply list_elem_of_bind. exists i. split; [done|]. by eapply list_elem_of_lookup_2.
  - intros v' (i' & ? & ?)%list_elem_of_bind. by eapply Hu.
Qed.
Lemma binding_inv k v : index_key k → bindings db !! k = Some v → ∃ j i, l !! j = Some i ∧ (k, v) ∈ index_puts i.
Proof.
  intros Hk. rewrite (io_bindings _ _ Hdb) by done. intros [Hin|Hin]%lookup_insert_all_inv; [|done].
  apply list_elem_of_bind in Hin as (i & ? & [j Hj]%list_elem_of_lookup_1). eauto.
Qed.
Lemma indexable_at j i : l !! j = Some i → indexable i ∧ bii_blockNum i = Z.of_nat j ∧ is_u64 (Z.of_nat j).
Proof.
  intros Hj. pose proof (io_number _ _ Hdb _ _ Hj) as Hn. assert (indexable i) as Hi by (eapply Forall_lookup_1; [apply (io_indexable _ _ Hdb)|done]).
  split_and!; [done..|]. rewrite <-Hn. apply Hi.
Qed.
(** Blocks with the same number are the same block. *)
Lemma same_number i i' : i ∈ l → i' ∈ l → bii_blockNum i = bii_blockNum i' → i = i'.
Proof.
  intros [j Hj]%list_elem_of_lookup_1 [j' Hj']%list_elem_of_lookup_1. rewrite (io_number _ _ Hdb _ _ Hj), (io_number _ _ Hdb _ _ Hj').
  intros ->%Nat2Z.inj. by simplify_eq.
Qed.
Lemma number_u64 i : i ∈ l → is_u64 (bii_blockNum i).
Proof. intros Hi. eapply Forall_forall in Hi; [|apply (io_indexable _ _ Hdb)]. apply Hi. Qed.
Lemma txnum_u64 i n t : i ∈ l → bii_txOffsets i !! n = Some t → is_u64 (Z.of_nat n) ∧ len (ti_txID t) < two64.
Proof.
  intros Hi Ht. eapply Forall_forall in Hi; [|apply (io_indexable _ _ Hdb)]. split; [|eapply ix_txids; [done|by eapply list_elem_of_lookup_2]].
  apply lookup_lt_Some in Ht. pose proof (ix_txs _ Hi). unfold len in *. unfold is_u64. lia.
Qed.

Lemma getBlockLocByBlockNum_spec j i : IndexableAttrBlockNum ∈ indexItems → l !! j = Some i →
  getBlockLocByBlockNum indexItems dbName db (Z.of_nat j) = Ok (bii_flp i).
Proof.
  intros Ha Hj. destruct (indexable_at _ _ Hj) as (Hi & Hn & Hu). unfold getBlockLocByBlockNum, isAttributeIndexed, DBHandle_Get.
  rewrite bool_decide_true by done. simpl. rewrite ldb_Get_law. run. rewrite <-lookup_view. rewrite (binding_of _ (fileLocPointer_marshal (bii_flp i)) j i).
  - apply fileLocPointer_roundtrip, Hi.
  - right. eexists _, _. split; [done|]. set_solver.
  - done.
  - apply elem_of_index_puts. rewrite Hn. naive_solver.
  - intros i' v' Hi' [(? & ? & ?)|[(_ & Heq & ->)|[(_ & ? & ? & ? & ? & ?)|[(_ & ? & ? & ? & ? & ?)|(? & ?)]]]]%elem_of_index_puts; try done.
    apply constructBlockNumKey_inj in Heq; [|done|by apply number_u64]. do 2 f_equal. apply same_number; [done| |congruence]. by eapply list_elem_of_lookup_2.
Qed.
Lemma getBlockLocByBlockNum_none n : IndexableAttrBlockNum ∈ indexItems → is_u64 n → Z.of_nat (length l) ≤ n →
  getBlockLocByBlockNum indexItems dbName db n = Err "no such block number in index".
Proof.
  intros Ha Hu Hn. unfold getBlockLocByBlockNum, isAttributeIndexed, DBHandle_Get. rewrite bool_decide_true by done. simpl. rewrite ldb_Get_law. run.
  rewrite <-lookup_view. destruct (bindings db !! _) as [v|] eqn:Hv; [|done]. exfalso.
  apply binding_inv in Hv as (j & i & Hj & Hin); [|right; eexists _, _; split; [done|set_solver]].
  apply elem_of_index_puts in Hin as [(? & ? & ?)|[(_ & Heq & ->)|[(_ & ? & ? & ? & ? & ?)|[(_ & ? & ? & ? & ? & ?)|(? & ?)]]]]; try done.
  destruct (indexable_at _ _ Hj) as (_ & Hbn & Hju). rewrite Hbn in Heq. apply constructBlockNumKey_inj in Heq; [|done..].
  apply lookup_lt_Some in Hj. lia.
Qed.
Lemma getTXLocByBlockNumTranNum_spec j i n t : IndexableAttrBlockNumTranNum ∈ indexItems → l !! j = Some i → bii_txOffsets i !! n = Some t →
  getTXLocByBlockNumTranNum indexItems dbName db (Z.of_nat j) (Z.of_nat n) = Ok (tx_flp i t).
Proof.
  intros Ha Hj Ht. destruct (indexable_at _ _ Hj) as (Hi & Hn & Hu). apply list_elem_of_lookup_2 in Hj as Hil.
  destruct (txnum_u64 _ _ _ Hil Ht) as [Hnu _].
  unfold getTXLocByBlockNumTranNum, isAttributeIndexed, DBHandle_Get.
  rewrite bool_decide_true by done. simpl. rewrite ldb_Get_law. run. rewrite <-lookup_view. rewrite (binding_of _ (fileLocPointer_marshal (tx_flp i t)) j i).
  - apply fileLocPointer_roundtrip. apply ix_tx_flp; [done|]. by eapply list_elem_of_lookup_2.
  - right. eexists _, _. split; [done|]. set_solver.
  - done.
  - apply elem_of_index_puts. rewrite Hn. naive_solver.
  - intros i' v' Hi' [(? & ? & ?)|[(_ & ? & ->)|[(_ & ? & ? & ? & ? & ?)|[(_ & n' & t' & Ht' & Heq & ->)|(? & ?)]]]]%elem_of_index_puts; try done.
    apply constructBlockNumTranNumKey_inj in Heq as [Heq ->%Nat2Z.inj]; [|done|by apply number_u64|done|by eapply txnum_u64].
    rewrite <-Hn in Heq. apply same_number in Heq as ->; [|done..]. by simplify_eq.
Qed.
Lemma getLastBlockIndexed_spec : getLastBlockIndexed dbName db =
  match last l with None => Err errIndexSavePointKeyNotPresent | Some i => Ok (bii_blockNum i) end.
Proof.
  unfold getLastBlockIndexed, DBHandle_Get. rewrite ldb_Get_law. run. rewrite <-lookup_view, (io_bindings _ _ Hdb) by by left.
  destruct (last l) as [i|] eqn:Hl; [|apply last_None in Hl; by rewrite Hl]. apply last_Some in Hl as [l' Hl].
  assert (is_u64 (bii_blockNum i)) by (apply number_u64; rewrite Hl; set_solver). rewrite Hl, bind_app, insert_all_app. cbn [mbind list_bind]. rewrite app_nil_r.
  unfold index_puts. rewrite !insert_all_app. unfold insert_all at 1. simpl. rewrite lookup_insert_eq. unfold decodeBlockNum, encodeBlockNum.
  rewrite <-(app_nil_r (EncodeVarint _)), DecodeVarint_Encode; done.
Qed.
Lemma getBlockLocByHash_spec i : IndexableAttrBlockHash ∈ indexItems → i ∈ l → (∀ i', i' ∈ l → bii_blockHash i' = bii_blockHash i → i' = i) →
  getBlockLocByHash indexItems dbName db (bii_blockHash i) = Ok (bii_flp i).
Proof.
  intros Ha [j Hj]%list_elem_of_lookup_1 Hu. destruct (indexable_at _ _ Hj) as (Hi & Hn & _). unfold getBlockLocByHash, isAttributeIndexed, DBHandle_Get.
  rewrite bool_decide_true by done. simpl. rewrite ldb_Get_law. run. rewrite <-lookup_view. rewrite (binding_of _ (fileLocPointer_marshal (bii_flp i)) j i).
  - apply fileLocPointer_roundtrip, Hi.
  - right. eexists _, _. split; [done|]. set_solver.
  - done.
  - apply elem_of_index_puts. naive_solver.
  - intros i' v' Hi' [(_ & Heq & ->)|[(_ & ? & ->)|[(_ & ? & ? & ? & ? & ?)|[(_ & ? & ? & ? & ? & ?)|(? & ?)]]]]%elem_of_index_puts; try done.
    injection Heq as Heq. by rewrite (Hu i').
Qed.

(** *** Transaction IDs *)

(** The transaction [t] of the block [i] is at position [n] of block [j] and
    has the given ID. *)
Definition occurs (txID : bytes) (j n : nat) (i : blockIdxInfo) (t : txindexInfo) : Prop :=
  l !! j = Some i ∧ bii_txOffsets i !! n = Some t ∧ ti_txID t = txID.

Lemma occurs_u64 txID j n i t : occurs txID j n i t → is_u64 (Z.of_nat j) ∧ is_u64 (Z.of_nat n) ∧ len txID < two64.
Proof.
  intros (Hj & Ht & <-). destruct (indexable_at _ _ Hj) as (_ & _ & ?). split; [done|]. eapply txnum_u64; [|done]. by eapply list_elem_of_lookup_2.
Qed.

(** The scan for an ID meets the entries of its transactions. *)
Lemma txid_range_elem txID k v : IndexableAttrTxID ∈ indexItems → len txID < two64 →
  (k, v) ∈ range_o (bindings db) (startKey (constructTxIDRangeScan txID)) (Some (stopKey (constructTxIDRangeScan txID))) ↔
  ∃ j n i t, occurs txID j n i t ∧ k = constructTxIDKey txID (Z.of_nat j) (Z.of_nat n) ∧ v = marshalled (tx_value i n t).
Proof.
  intros Ha Hlen. unfold range_o. rewrite list_elem_of_filter, elem_of_sorted_kvs. unfold in_range_o. cbn [fst stopKey constructTxIDRangeScan].
  change (txIDIdxKeyPrefix :: _ ++ _) with (startKey (constructTxIDRangeScan txID)). rewrite prefix_range_iff. split.
  - intros [(y & -> & Hy) Hb]. apply binding_inv in Hb as (j & i & Hj & Hin); [|right; eexists _, _; split; [done|set_solver]].
    apply elem_of_index_puts in Hin as [(? & ? & ?)|[(_ & ? & ?)|[(_ & n & t & Ht & Heq & ->)|[(_ & ? & ? & ? & ? & ?)|(? & ?)]]]]; try done.
    rewrite constructTxIDKey_split in Heq. apply txid_startKey_inj in Heq as [-> ->]; [|done|].
    + exists j, n, i, t. split_and!; [done..| |done]. rewrite constructTxIDKey_split. by rewrite (io_number _ _ Hdb _ _ Hj).
    + eapply txnum_u64; [by eapply list_elem_of_lookup_2|done].
  - intros (j & n & i & t & Ho & -> & ->). destruct (occurs_u64 _ _ _ _ _ Ho) as (Hju & Hnu & _). destruct Ho as (Hj & Ht & Hid). split.
    + rewrite constructTxIDKey_split. eexists. split; [done|]. apply EncodeOrderPreserving_below_ff.
    + eapply binding_of; [|done| |].
      * right. eexists _, _. split; [done|]. set_solver.
      * apply elem_of_index_puts. right. right. left. split; [done|]. exists n, t. rewrite Hid, (io_number _ _ Hdb _ _ Hj). done.
      * intros i' v' Hi' [(? & ? & ?)|[(_ & ? & ->)|[(_ & n' & t' & Ht' & Heq & ->)|[(_ & ? & ? & ? & ? & ?)|(? & ?)]]]]%elem_of_index_puts; try done.
        destruct (txnum_u64 _ _ _ Hi' Ht').
        apply constructTxIDKey_inj in Heq as (_ & Heq & ->%Nat2Z.inj); [|done..|by apply number_u64|done|done].
        assert (i' = i) as -> by (apply same_number; [done|by eapply list_elem_of_lookup_2|by rewrite (io_number _ _ Hdb _ _ Hj)]). by simplify_eq.
Qed.

Lemma index_txIDExists_spec txID : x00 ∉ dbName → IndexableAttrTxID ∈ indexItems → len txID < two64 →
  ∃ b, index_txIDExists indexItems dbName db txID = Ok b ∧ (b = true ↔ ∃ j n i t, occurs txID j n i t).
Proof.
  intros H0 Ha Hlen. unfold index_txIDExists, isAttributeIndexed. rewrite bool_decide_true by done. simpl.
  set (r := constructTxIDRangeScan txID).
  destruct (GetIterator_spec dbName db (Some (startKey r)) (Some (stopKey r)) H0) as (itr & Hi & Hr & _). cbn in Hi. rewrite Hi. run. cbn [default] in Hr.
  pose proof (λ k v, txid_range_elem txID k v Ha Hlen) as Hel. fold r in Hel. unfold Iterator_Next. rewrite Hr.
  destruct (range_o _ _ _) as [|[k v] rest]; cbn.
  - eexists. split; [done|]. split; [done|]. intros (j & n & i & t & Ho). exfalso. eapply not_elem_of_nil, Hel. eauto 10.
  - rewrite retrieveAppKey_construct by done. run. eexists. split; [done|]. split; [|done]. intros _.
    destruct (proj1 (Hel k v)) as (j & n & i & t & ? & _); [left|]. eauto.
Qed.

(** The entry found for an ID is that of its first transaction. *)
Lemma getTxIDVal_spec txID j n i t : x00 ∉ dbName → IndexableAttrTxID ∈ indexItems → occurs txID j n i t →
  (∀ j' n' i' t', occurs txID j' n' i' t' → (j < j')%nat ∨ (j = j' ∧ n ≤ n')%nat) →
  getTxIDVal indexItems dbName db txID = Ok (tx_value i n t, Z.of_nat j).
Proof.
  intros H0 Ha Ho Hfirst. destruct (occurs_u64 _ _ _ _ _ Ho) as (Hju & Hnu & Hlen).
  unfold getTxIDVal, isAttributeIndexed. rewrite bool_decide_true by done. simpl. set (r := constructTxIDRangeScan txID).
  destruct (GetIterator_spec dbName db (Some (startKey r)) (Some (stopKey r)) H0) as (itr & Hi & Hr & _). cbn in Hi. rewrite Hi. run. cbn [default] in Hr.
  pose proof (λ k v, txid_range_elem txID k v Ha Hlen) as Hel. fold r in Hel.
  assert (Hs : StronglySorted key_lt (range_o (bindings db) (startKey r) (Some (stopKey r)))) by apply ssorted_filter, sorted_kvs_sorted.
  unfold Iterator_Next. rewrite Hr. destruct (range_o _ _ _) as [|[k v] rest]; cbn.
  { exfalso. eapply not_elem_of_nil, Hel. eauto 10. }
  assert ((k, v) = (constructTxIDKey txID (Z.of_nat j) (Z.of_nat n), marshalled (tx_value i n t))) as [= -> ->].
  { assert ((constructTxIDKey txID (Z.of_nat j) (Z.of_nat n), marshalled (tx_value i n t)) ∈ (k, v) :: rest) as [Heq|Hin]%elem_of_cons
      by (apply Hel; eauto 10); [done|]. exfalso.
    destruct (proj1 (Hel k v)) as (j' & n' & i' & t' & Ho' & -> & _); [left|]. inversion Hs as [|? ? _ Hall]; subst.
    eapply Forall_forall in Hin; [|done]. unfold key_lt in Hin. cbn in Hin. destruct (occurs_u64 _ _ _ _ _ Ho') as (? & ? & _).
    apply constructTxIDKey_compare in Hin; [|done..]. specialize (Hfirst _ _ _ _ Ho'). lia. }
  rewrite retrieveAppKey_construct by done. run. unfold marshalled. destruct (tx_value_law i n t) as (b & -> & Hne & Hu).
  rewrite decide_False by done. rewrite Hu. run.
  change (retrieveBlockNum _ _) with (retrieveBlockNum (constructTxIDKey txID (Z.of_nat j) (Z.of_nat n)) (length (startKey r))).
  unfold r. rewrite retrieveBlockNum_key by done. by run.
Qed.
Lemma getTxIDVal_none txID : x00 ∉ dbName → IndexableAttrTxID ∈ indexItems → len txID < two64 →
  (∀ j n i t, ¬ occurs txID j n i t) → getTxIDVal indexItems dbName db txID = Err "no such transaction ID in index".
Proof.
  intros H0 Ha Hlen Hno. unfold getTxIDVal, isAttributeIndexed. rewrite bool_decide_true by done. simpl. set (r := constructTxIDRangeScan txID).
  destruct (GetIterator_spec dbName db (Some (startKey r)) (Some (stopKey r)) H0) as (itr & Hi & Hr & _). cbn in Hi. rewrite Hi. run. cbn [default] in Hr.
  pose proof (λ k v, txid_range_elem txID k v Ha Hlen) as Hel. fold r in Hel. unfold Iterator_Next. rewrite Hr.
  destruct (range_o _ _ _) as [|[k v] rest]; [done|]. destruct (proj1 (Hel k v)) as (j & n & i & t & Ho & _); [left|]. by destruct (Hno j n i t).
Qed.
End lookups.
End contents.
