(* ===== verification/BlockStore.v ===== *)
(** * The block store

  Models the block file manager of common/ledger/blkstorage (blockfile_mgr.go),
  from the start with its recovery after a crash to the retrieval of blocks.

  The disk of a ledger is its directory and the database of its index. The
  operations record what they write to the disk, in order: a crash leaves the
  disk as it is after some of the writes, the last of which may be cut short. *)

From S2P Require Import Prelude SortedMap Encoding Version Separated Proto Rwset LiteRwset LevelDB Block BlockSerial BlockFiles BlockIndex.
From stdpp Require Import options.
Local Open Scope Z_scope.
Set Default Proof Using "Type*".

Record BootstrappingSnapshotInfo := { bsi_LastBlockNum : Z; bsi_LastBlockHash : bytes; bsi_PreviousBlockHash : bytes }.
Record BlockchainInfo := {
  Height : Z;
  CurrentBlockHash : bytes;
  PreviousBlockHash : bytes;
  bci_LastBlockInSnapshot : option Z
}.
Definition blkMgrInfoKey : bytes := B "blkMgrInfo".
Definition bootstrappingSnapshotInfoFile : bytes := B "bootstrappingSnapshot.info".

Record blockfileMgr := {
  bm_blockfilesInfo : blockfilesInfo;
  bm_bootstrappingSnapshotInfo : option BootstrappingSnapshotInfo;
  bm_currentFileWriter : bytes;
  bm_bcInfo : BlockchainInfo
}.

(** ** The disk *)

Inductive disk_op :=
| OpenFile (name : bytes)
| AppendFile (name b : bytes)
| TruncateFile (name : bytes) (targetSize : Z)
| RemoveFile (name : bytes)
| WriteFile (name b : bytes)
| WriteDB (ops : list ldb_op).
(** What a crash may leave of a write: files are written from the front. *)
Inductive partial : disk_op → disk_op → Prop :=
| partial_append name b b' : b' `prefix_of` b → partial (AppendFile name b) (AppendFile name b')
| partial_write name b b' : b' `prefix_of` b → partial (WriteFile name b) (WriteFile name b').

Section disk.
Context {L : Type} `{!GoLevelDB L}.

Record disk := { dk_dir : dir; dk_db : L }.
Definition apply_disk_op (d : disk) (o : disk_op) : res disk :=
  match o with
  | OpenFile name => Ok {| dk_dir := newBlockfileWriter (dk_dir d) name; dk_db := dk_db d |}
  | AppendFile name b => Ok {| dk_dir := append_file (dk_dir d) name b; dk_db := dk_db d |}
  | TruncateFile name n => Ok {| dk_dir := truncateFile (dk_dir d) name n; dk_db := dk_db d |}
  | RemoveFile name => Ok {| dk_dir := delete name (dk_dir d); dk_db := dk_db d |}
  | WriteFile name b => Ok {| dk_dir := <[name := b]> (dk_dir d); dk_db := dk_db d |}
  | WriteDB ops => db ← ldb_Write (dk_db d) ops; Ok {| dk_dir := dk_dir d; dk_db := db |}
  end.

(** The disk and the writes made so far. *)
Record world := { w_disk : disk; w_log : list disk_op }.
Definition at_start (d : disk) : world := {| w_disk := d; w_log := [] |}.
Definition emit (w : world) (o : disk_op) : res world :=
  d ← apply_disk_op (w_disk w) o; Ok {| w_disk := d; w_log := w_log w ++ [o] |}.

(** A crash during a sequence of writes. *)
Inductive crashed (d : disk) : list disk_op → disk → Prop :=
| crashed_here ops : crashed d ops d
| crashed_partial o o' ops d' : partial o o' → apply_disk_op d o' = Ok d' → crashed d (o :: ops) d'
| crashed_later o ops d1 d2 : apply_disk_op d o = Ok d1 → crashed d1 ops d2 → crashed d (o :: ops) d2.
End disk.
Arguments disk : clear implicits.
Arguments world : clear implicits.

(** What goes wrong while a block is added: the length or the block is written
    only in part, or a write to the database fails. *)
Inductive io_outcome := IoOk | IoLengthFails (n : nat) | IoBlockFails (n : nat) | IoSaveFails | IoIndexFails.

(** What the outcome leaves of a write, and whether it succeeds. *)
Definition io_length (io : io_outcome) (b : bytes) : bytes * bool := match io with IoLengthFails n => (take n b, false) | _ => (b, true) end.
Definition io_block (io : io_outcome) (b : bytes) : bytes * bool := match io with IoBlockFails n => (take n b, false) | _ => (b, true) end.
Definition io_save_fails (io : io_outcome) : bool := match io with IoSaveFails => true | _ => false end.
Definition io_index_fails (io : io_outcome) (batch : option LevelBatch) : bool :=
  match io, batch with IoIndexFails, Some _ => true | _, _ => false end.

Section manager.
Context {L : Type} `{!GoLevelDB L} `{!Sha256} `{!ProtoMessage TxIDIndexValue, !ProtoMessage BootstrappingSnapshotInfo}.
Context `{!ProtoMessage Envelope, !ProtoMessage Payload, !ProtoMessage ChannelHeader, !ProtoMessage SignatureHeader}.
(** The configuration of the store. *)
Context (indexItems : list IndexableAttr) (dbName : bytes) (maxBlockfileSize : Z).
Notation world := (world L).

Definition firstPossibleBlockNumberInBlockFiles (mgr : blockfileMgr) : Z :=
  match bm_bootstrappingSnapshotInfo mgr with None => 0 | Some i => u64 (bsi_LastBlockNum i + 1) end.
Definition bootstrappedFromSnapshot (mgr : blockfileMgr) : bool := bool_decide (firstPossibleBlockNumberInBlockFiles mgr > 0).

Definition loadBlkfilesInfo (db : L) : res (option blockfilesInfo) :=
  b ← DBHandle_Get dbName db blkMgrInfoKey;
  match b with None => Ok None | Some b => i ← blockfilesInfo_unmarshal b; Ok (Some i) end.
Definition save_op (i : blockfilesInfo) : disk_op :=
  WriteDB [LPut (constructLevelKey dbName blkMgrInfoKey) (blockfilesInfo_marshal i)].

(** ** Adding a block *)

Definition moveToNextFile (mgr : blockfileMgr) (w : world) : res (blockfileMgr * world) :=
  let i := {| latestFileNumber := latestFileNumber (bm_blockfilesInfo mgr) + 1; latestFileSize := 0; noBlockFiles := false;
              lastPersistedBlock := lastPersistedBlock (bm_blockfilesInfo mgr) |} in
  let name := deriveBlockfilePath (latestFileNumber i) in
  w ← emit w (OpenFile name);
  w ← OrPanic (emit w (save_op i));
  Ok ({| bm_blockfilesInfo := i; bm_bootstrappingSnapshotInfo := bm_bootstrappingSnapshotInfo mgr; bm_currentFileWriter := name;
         bm_bcInfo := bm_bcInfo mgr |}, w).

Definition updateBlockchainInfo (info : BlockchainInfo) (latestBlockHash previousHash : bytes) : BlockchainInfo :=
  {| Height := u64 (Height info + 1); CurrentBlockHash := latestBlockHash; PreviousBlockHash := previousHash;
     bci_LastBlockInSnapshot := bci_LastBlockInSnapshot info |}.
Definition shift_locs (n : Z) (txOffsets : list txindexInfo) : list txindexInfo :=
  (λ t, {| ti_txID := ti_txID t; ti_loc := {| lp_offset := lp_offset (ti_loc t) + n; bytesLength := bytesLength (ti_loc t) |} |}) <$> txOffsets.

(** After a failure the file is cut back to the size known before; the result
    is whether the block was added. *)
Definition addBlock (io : io_outcome) (mgr : blockfileMgr) (block : Block) (w : world) : res (bool * blockfileMgr * world) :=
  header ← deref (b_Header block);
  if decide (bh_Number header ≠ Height (bm_bcInfo mgr)) then Err "unexpected block number"
  else if decide (bh_PreviousHash header ≠ CurrentBlockHash (bm_bcInfo mgr)) then Err "unexpected Previous block hash"
  else
    '(blockBytes, info) ← serializeBlock block;
    let blockHash := BlockHeaderHash header in
    let blockBytesEncodedLen := EncodeVarint (len blockBytes) in
    let totalBytesToAppend := len blockBytes + len blockBytesEncodedLen in
    let currentOffset := latestFileSize (bm_blockfilesInfo mgr) in
    '(mgr, w, currentOffset) ← (if decide (currentOffset + totalBytesToAppend > maxBlockfileSize)
                                then '(mgr, w) ← moveToNextFile mgr w; Ok (mgr, w, 0)
                                else Ok (mgr, w, currentOffset));
    let name := bm_currentFileWriter mgr in
    let truncate w := w ← emit w (TruncateFile name (latestFileSize (bm_blockfilesInfo mgr))); Ok (false, mgr, w) in
    let '(written, complete) := io_length io blockBytesEncodedLen in
    w ← emit w (AppendFile name written);
    if negb complete then truncate w
    else
      let '(written, complete) := io_block io blockBytes in
      w ← emit w (AppendFile name written);
      if negb complete then truncate w
      else
        let newInfo := {| latestFileNumber := latestFileNumber (bm_blockfilesInfo mgr);
                          latestFileSize := latestFileSize (bm_blockfilesInfo mgr) + totalBytesToAppend;
                          noBlockFiles := false; lastPersistedBlock := bh_Number header |} in
        if io_save_fails io then truncate w
        else
          w ← emit w (save_op newInfo);
          md ← deref (b_Metadata block);
          match index_batch indexItems dbName {| bii_blockNum := bh_Number header; bii_blockHash := blockHash;
            bii_flp := {| fileSuffixNum := latestFileNumber newInfo; flp_loc := {| lp_offset := currentOffset; bytesLength := 0 |} |};
            bii_txOffsets := shift_locs (len blockBytesEncodedLen) (sbi_txOffsets info); bii_metadata := md |} with
          | Panic => Panic
          | Err _ => Ok (false, mgr, w)
          | Ok batch =>
              if io_index_fails io batch then Ok (false, mgr, w)
              else
                w ← match batch with Some batch => emit w (WriteDB (lb_ops batch)) | None => Ok w end;
                Ok (true, {| bm_blockfilesInfo := newInfo; bm_bootstrappingSnapshotInfo := bm_bootstrappingSnapshotInfo mgr;
                             bm_currentFileWriter := name;
                             bm_bcInfo := updateBlockchainInfo (bm_bcInfo mgr) blockHash (bh_PreviousHash header) |}, w)
          end.

(** ** Reading blocks *)

Definition fetchBlockBytes (d : dir) (lp : fileLocPointer) : res bytes :=
  s ← newBlockfileStream d (fileSuffixNum lp) (lp_offset (flp_loc lp));
  '(r, _) ← bfs_next d s;
  Ok (from_option fst [] r).
Definition fetchBlock (d : dir) (lp : fileLocPointer) : res Block := b ← fetchBlockBytes d lp; deserializeBlock b.
Definition fetchRawBytes (d : dir) (lp : fileLocPointer) : res bytes :=
  blockfileReader_read d (deriveBlockfilePath (fileSuffixNum lp)) (lp_offset (flp_loc lp)) (bytesLength (flp_loc lp)).
Definition fetchTransactionEnvelope (d : dir) (lp : fileLocPointer) : res Envelope :=
  txEnvelopeBytes ← fetchRawBytes d lp;
  let '(_, n) := DecodeVarint txEnvelopeBytes in
  GetEnvelopeFromBlock (drop n txEnvelopeBytes).

Definition retrieveBlockByHash (d : disk L) (blockHash : bytes) : res Block :=
  loc ← getBlockLocByHash indexItems dbName (dk_db d) blockHash; fetchBlock (dk_dir d) loc.
(** The number 2^64 - 1 asks for the last block. *)
Definition retrieveBlockByNumber (mgr : blockfileMgr) (d : disk L) (blockNum : Z) : res Block :=
  let blockNum := if decide (blockNum = MaxUint64) then u64 (Height (bm_bcInfo mgr) - 1) else blockNum in
  if decide (blockNum < firstPossibleBlockNumberInBlockFiles mgr) then Err "cannot serve block"
  else loc ← getBlockLocByBlockNum indexItems dbName (dk_db d) blockNum; fetchBlock (dk_dir d) loc.
Definition retrieveBlockByTxID (d : disk L) (txID : bytes) : res Block :=
  loc ← getBlockLocByTxID indexItems dbName (dk_db d) txID; fetchBlock (dk_dir d) loc.
Definition retrieveTxValidationCodeByTxID (d : disk L) (txID : bytes) : res (Z * Z) :=
  getTxValidationCodeByTxID indexItems dbName (dk_db d) txID.
Definition retrieveBlockHeaderByNumber (mgr : blockfileMgr) (d : disk L) (blockNum : Z) : res BlockHeader :=
  if decide (blockNum < firstPossibleBlockNumberInBlockFiles mgr) then Err "cannot serve block"
  else
    loc ← getBlockLocByBlockNum indexItems dbName (dk_db d) blockNum;
    blockBytes ← fetchBlockBytes (dk_dir d) loc;
    info ← extractSerializedBlockInfo blockBytes;
    Ok (sbi_blockHeader info).
Definition retrieveTransactionByID (d : disk L) (txID : bytes) : res Envelope :=
  loc ← getTxLoc indexItems dbName (dk_db d) txID; fetchTransactionEnvelope (dk_dir d) loc.
Definition retrieveTransactionByBlockNumTranNum (mgr : blockfileMgr) (d : disk L) (blockNum tranNum : Z) : res Envelope :=
  if decide (blockNum < firstPossibleBlockNumberInBlockFiles mgr) then Err "cannot serve block"
  else loc ← getTXLocByBlockNumTranNum indexItems dbName (dk_db d) blockNum tranNum; fetchTransactionEnvelope (dk_dir d) loc.
Definition txIDExists (d : disk L) (txID : bytes) : res bool := index_txIDExists indexItems dbName (dk_db d) txID.

(** ** Starting up *)

(** The blocks that follow in the stream are indexed; the files do not change
    meanwhile, and every round moves on, so the size of the files is enough
    fuel. *)
Fixpoint sync_loop (fuel : nat) (s : blockStream) (w : world) : res world :=
  '(r, s) ← bst_next (dk_dir (w_disk w)) s;
  match r with
  | None => Ok w
  | Some (blockBytes, placement) =>
      info ← extractSerializedBlockInfo blockBytes;
      let numBytesToShift := blockBytesOffset placement - blockStartOffset placement in
      let header := sbi_blockHeader info in
      batch ← index_batch indexItems dbName {| bii_blockNum := bh_Number header; bii_blockHash := BlockHeaderHash header;
        bii_flp := {| fileSuffixNum := bpi_fileNum placement; flp_loc := {| lp_offset := blockStartOffset placement; bytesLength := 0 |} |};
        bii_txOffsets := shift_locs numBytesToShift (sbi_txOffsets info); bii_metadata := sbi_metadata info |};
      w ← match batch with Some batch => emit w (WriteDB (lb_ops batch)) | None => Ok w end;
      match fuel with O => Panic | S fuel => sync_loop fuel s w end
  end.
Definition total_size (d : dir) : nat := sum_list_with length (map_to_list d).*2.

Definition syncIndex (mgr : blockfileMgr) (w : world) : res world :=
  let d := w_disk w in
  last ← match getLastBlockIndexed dbName (dk_db d) with
         | Ok n => Ok (Some n)
         | Err e => if decide (e = errIndexSavePointKeyNotPresent) then Ok None else Err e
         | Panic => Panic
         end;
  let nextIndexableBlock := match last with Some n => u64 (n + 1) | None => 0 end in
  let lastBlockIndexed := default 0 last in
  let i := bm_blockfilesInfo mgr in
  if bool_decide (nextIndexableBlock = 0) && bootstrappedFromSnapshot mgr then Err "cannot sync index with block files"
  else if noBlockFiles i then Ok w
  else if decide (nextIndexableBlock = u64 (lastPersistedBlock i + 1)) then Ok w
  else
    firstAvailableBlkNum ← retrieveFirstBlockNumFromFile (dk_dir d) 0;
    '(startFileNum, startOffset, skipFirstBlock) ← (if decide (nextIndexableBlock > firstAvailableBlkNum) then
        flp ← getBlockLocByBlockNum indexItems dbName (dk_db d) lastBlockIndexed;
        Ok (fileSuffixNum flp, lp_offset (flp_loc flp), true)
      else Ok (0, 0, false));
    stream ← newBlockStream (dk_dir d) startFileNum startOffset (latestFileNumber i);
    stream ← (if skipFirstBlock : bool then
        '(r, stream) ← bst_next (dk_dir d) stream;
        match r with None => Err "block bytes should not be nil here" | Some _ => Ok stream end
      else Ok stream);
    sync_loop (total_size (dk_dir d)) stream w.

Definition loadBootstrappingSnapshotInfo (d : dir) : res (option BootstrappingSnapshotInfo) :=
  match d !! bootstrappingSnapshotInfoFile with None => Ok None | Some b => i ← Unmarshal b; Ok (Some i) end.

Definition newBlockfileMgr (w : world) : res (blockfileMgr * world) :=
  loaded ← OrPanic (loadBlkfilesInfo (dk_db (w_disk w)));
  i ← match loaded with
      | None => OrPanic (constructBlockfilesInfo (dk_dir (w_disk w)))
      | Some i => syncBlockfilesInfoFromFS (dk_dir (w_disk w)) i
      end;
  w ← OrPanic (emit w (save_op i));
  let name := deriveBlockfilePath (latestFileNumber i) in
  w ← OrPanic (emit w (OpenFile name));
  w ← OrPanic (emit w (TruncateFile name (latestFileSize i)));
  bsi ← loadBootstrappingSnapshotInfo (dk_dir (w_disk w));
  let bcInfo := match bsi with
    | None => {| Height := 0; CurrentBlockHash := []; PreviousBlockHash := []; bci_LastBlockInSnapshot := None |}
    | Some b => {| Height := u64 (bsi_LastBlockNum b + 1); CurrentBlockHash := bsi_LastBlockHash b; PreviousBlockHash := bsi_PreviousBlockHash b;
                   bci_LastBlockInSnapshot := Some (bsi_LastBlockNum b) |}
    end in
  let mgr := {| bm_blockfilesInfo := i; bm_bootstrappingSnapshotInfo := bsi; bm_currentFileWriter := name; bm_bcInfo := bcInfo |} in
  w ← syncIndex mgr w;
  if noBlockFiles i then Ok (mgr, w)
  else
    lastBlockHeader ← OrPanic (retrieveBlockHeaderByNumber mgr (w_disk w) (lastPersistedBlock i));
    Ok ({| bm_blockfilesInfo := i; bm_bootstrappingSnapshotInfo := bsi; bm_currentFileWriter := name;
           bm_bcInfo := {| Height := u64 (lastPersistedBlock i + 1); CurrentBlockHash := BlockHeaderHash lastBlockHeader;
                           PreviousBlockHash := bh_PreviousHash lastBlockHeader; bci_LastBlockInSnapshot := bci_LastBlockInSnapshot bcInfo |} |}, w).
End manager.
