(* ===== verification/BlockRecovery.v ===== *)
(** * The block store survives crashes

  A ledger is opened, blocks are added, writes fail and the process dies at any
  write: after the next start the store holds exactly the acknowledged blocks,
  or these and the block that was being added, and serves all of them. *)

From S2P Require Import Prelude SortedMap Encoding Version Separated Proto Rwset LiteRwset LevelDB Block BlockSerial BlockFiles BlockIndex BlockStore.
From stdpp Require Import options.
Local Open Scope Z_scope.
Set Default Proof Using "Type*".

(** ** Sequences of writes *)

Section traces.
Context {L : Type} `{!GoLevelDB L}.

Lemma crashed_nil (d d' : disk L) : crashed d [] d' → d' = d.
Proof. by inversion 1. Qed.
Lemma crashed_cons (d d' : disk L) o ops : crashed d (o :: ops) d' →
  d' = d ∨ (∃ o', partial o o' ∧ apply_disk_op d o' = Ok d') ∨
  ∃ d1, apply_disk_op d o = Ok d1 ∧ crashed d1 ops d'.
Proof. inversion 1; subst; [by left|right; left; by eauto 10|right; right; by eauto]. Qed.
Lemma crashed_app (d d' : disk L) ops1 : ∀ ops2, crashed d (ops1 ++ ops2) d' →
  crashed d ops1 d' ∨ ∃ d1, foldM apply_disk_op d ops1 = Ok d1 ∧ crashed d1 ops2 d'.
Proof.
  revert d. induction ops1 as [|o ops1 IH]; intros d ops2 Hc; [right; by exists d|]. cbn [app] in Hc.
  apply crashed_cons in Hc as [->|[(o' & Hp & Ha)|(d1 & Ho & Hc)]].
  - left. constructor.
  - left. by eapply crashed_partial.
  - apply IH in Hc as [Hc|(d2 & Hf & Hc)]; [left; by eapply crashed_later|]. right. exists d2. split; [|done]. cbn [foldM]. by rewrite Ho.
Qed.

(** A run from [w] to [w'] that leaves a disk with [Q] whenever it is cut short. *)
Definition traced (Q : disk L → Prop) (w w' : world L) : Prop :=
  ∃ ops, w_log w' = w_log w ++ ops ∧ foldM apply_disk_op (w_disk w) ops = Ok (w_disk w') ∧ ∀ d, crashed (w_disk w) ops d → Q d.

Lemma traced_refl Q w : Q (w_disk w) → traced Q w w.
Proof. intros HQ. exists []. rewrite app_nil_r. split_and!; [done..|]. by intros d ->%crashed_nil. Qed.
Lemma traced_trans Q w1 w2 w3 : traced Q w1 w2 → traced Q w2 w3 → traced Q w1 w3.
Proof.
  intros (ops1 & Hl1 & Hf1 & Hq1) (ops2 & Hl2 & Hf2 & Hq2). exists (ops1 ++ ops2). split_and!.
  - by rewrite Hl2, Hl1, app_assoc.
  - by rewrite foldM_app, Hf1.
  - intros d [Hc|(d1 & Hf & Hc)]%crashed_app; [by apply Hq1|]. rewrite Hf1 in Hf. simplify_eq. by apply Hq2.
Qed.
Lemma traced_emit Q w o w' : emit w o = Ok w' → Q (w_disk w) → Q (w_disk w') →
  (∀ o' d, partial o o' → apply_disk_op (w_disk w) o' = Ok d → Q d) → traced Q w w'.
Proof.
  unfold emit. intros He HQ HQ' Hp. apply bind_Ok in He as (d1 & Ha & [= <-]). exists [o]. split_and!; [done|cbn [foldM]; by rewrite Ha|].
  intros d [->|[(o' & ? & ?)|(d2 & Ho & ->%crashed_nil)]]%crashed_cons; [done|by eapply Hp|]. assert (d2 = d1) as -> by congruence. done.
Qed.
(** Writes that a crash does not cut short. *)
Lemma traced_emit_whole Q w o w' : emit w o = Ok w' → Q (w_disk w) → Q (w_disk w') → (∀ o', ¬ partial o o') → traced Q w w'.
Proof. intros He HQ HQ' Hno. eapply traced_emit; [done..|]. intros o' d Hp. by destruct (Hno o'). Qed.
Lemma traced_weaken (Q Q' : disk L → Prop) w w' : traced Q w w' → (∀ d, Q d → Q' d) → traced Q' w w'.
Proof. intros (ops & ? & ? & ?) HQ. exists ops. split_and!; auto. Qed.
Lemma traced_crash Q d w' d' : traced Q (at_start d) w' → crashed d (w_log w') d' → Q d'.
Proof. intros (ops & Hl & _ & HQ). cbn in Hl. rewrite Hl. apply HQ. Qed.
End traces.

Lemma total_size_delete (d : dir) k b : d !! k = Some b → total_size d = (length b + total_size (delete k d))%nat.
Proof. intros Hd. unfold total_size. by rewrite <-(map_to_list_delete d k b Hd). Qed.
Lemma total_size_ge ks : NoDup ks → ∀ d : dir, (sum_list_with (λ k, length (default [] (d !! k))) ks ≤ total_size d)%nat.
Proof.
  induction 1 as [|k ks Hk _ IH]; intros d; [cbn; lia|]. cbn. destruct (d !! k) as [b|] eqn:Hd; cbn; [|apply IH].
  rewrite (total_size_delete _ _ _ Hd). specialize (IH (delete k d)).
  assert (∀ l, k ∉ l → sum_list_with (λ k', length (default [] (delete k d !! k'))) l = sum_list_with (λ k', length (default [] (d !! k'))) l) as Heq.
  { induction l as [|k' l IHl]; intros Hl; [done|]. apply not_elem_of_cons in Hl as [? ?]. cbn. by rewrite IHl, lookup_delete_ne. }
  rewrite Heq in IH by done. lia.
Qed.

Lemma append_append (d : dir) name x y : append_file (append_file d name x) name y = append_file d name (x ++ y).
Proof. unfold append_file. rewrite lookup_insert_eq. cbn. by rewrite insert_insert_eq, app_assoc. Qed.
(** Cutting a file back to its size undoes what was appended. *)
Lemma truncate_append (d : dir) name x y : d !! name = Some x → truncateFile (append_file d name y) name (len x) = d.
Proof.
  intros Hd. unfold truncateFile, append_file. rewrite Hd, lookup_insert_eq. cbn [default from_option id].
  destruct (decide _) as [|Hge].
  - rewrite to_nat_len, take_app_length, insert_insert_eq. by apply insert_id.
  - rewrite len_app in Hge. assert (y = []) as -> by (destruct y; [done|unfold len in Hge; cbn in Hge; lia]). rewrite app_nil_r. by apply insert_id.
Qed.

(** ** The blocks of a ledger *)

Section chain.
Context {L : Type} `{!GoLevelDB L} `{!GoLevelDBLaws L} `{!Sha256} `{!ProtoMessage TxIDIndexValue} `{!TxIDIndexValueLaws}.
Context `{!ProtoMessage BootstrappingSnapshotInfo}.
Context `{!ProtoMessage Envelope, !ProtoMessage Payload, !ProtoMessage ChannelHeader, !ProtoMessage SignatureHeader}.
Context (indexItems : list IndexableAttr) (dbName : bytes) (maxBlockfileSize : Z).
Notation bindings db := (view (contents db) dbName).

(** A block the store takes: it can be serialised, it fits a file, and its
    metadata has a code for every transaction. *)
Record storable (b : Block) (h : BlockHeader) (data md txids : list bytes) : Prop := {
  sto_serializable : serializable b h data md txids;
  sto_fits : len (raw (block_bytes h data md)) ≤ maxBlockfileSize;
  sto_filter : ∃ f, md !! BlockMetadataIndex_TRANSACTIONS_FILTER = Some f ∧ (IndexableAttrTxID ∈ indexItems → length data ≤ length f)%nat;
  sto_txids txid : txid ∈ txids → len txid < two64
}.
(** The blocks, numbered from 0. *)
Definition chain (c : list Block) : Prop := ∀ j b, c !! j = Some b → ∃ h data md txids, storable b h data md txids ∧ bh_Number h = Z.of_nat j.

Definition frame (b : Block) : bytes := match serializeBlock b with Ok (bytes, _) => bytes | _ => [] end.
(** What the index holds for a block at a place. *)
Definition entry (p : Z * Z * bytes) : blockIdxInfo :=
  let '(f, o, b) := p in
  let info := match extractSerializedBlockInfo b with
              | Ok info => info
              | _ => {| sbi_blockHeader := {| bh_Number := 0; bh_PreviousHash := []; bh_DataHash := [] |}; sbi_txOffsets := []; sbi_metadata := [] |}
              end in
  {| bii_blockNum := bh_Number (sbi_blockHeader info); bii_blockHash := BlockHeaderHash (sbi_blockHeader info);
     bii_flp := {| fileSuffixNum := f; flp_loc := {| lp_offset := o; bytesLength := 0 |} |};
     bii_txOffsets := shift_locs (len (EncodeVarint (len b))) (sbi_txOffsets info); bii_metadata := sbi_metadata info |}.

Lemma frame_storable b h data md txids : storable b h data md txids → frame b = block_bytes h data md.
Proof. intros [Hs _ _ _]. unfold frame. by rewrite (serializeBlock_spec _ _ _ _ _ Hs). Qed.
Lemma entry_storable b h data md txids f o : storable b h data md txids →
  entry (f, o, frame b) = {| bii_blockNum := bh_Number h; bii_blockHash := BlockHeaderHash h;
    bii_flp := {| fileSuffixNum := f; flp_loc := {| lp_offset := o; bytesLength := 0 |} |};
    bii_txOffsets := shift_locs (len (EncodeVarint (len (frame b)))) (tx_locs (len (block_prefix h data)) data txids); bii_metadata := md |}.
Proof.
  intros Hs. unfold entry. rewrite (frame_storable _ _ _ _ _ Hs), (extractSerializedBlockInfo_spec _ _ _ _ _ (sto_serializable _ _ _ _ _ Hs)). done.
Qed.

Lemma chain_app c b h data md txids : chain c → storable b h data md txids → bh_Number h = Z.of_nat (length c) → chain (c ++ [b]).
Proof.
  intros Hc Hs Hn j b' [Hj|[Hge Hj]]%lookup_app_Some; [by apply Hc|]. apply list_lookup_singleton_Some in Hj as [? <-].
  exists h, data, md, txids. split; [done|]. rewrite Hn. f_equal. lia.
Qed.
Lemma chain_take c n : chain c → chain (take n c).
Proof. intros Hc j b [Hj _]%lookup_take_Some. by apply Hc. Qed.
Lemma chain_numbered c : chain c → numbered (frame <$> c).
Proof.
  intros Hc i f Hi. apply list_lookup_fmap_Some in Hi as (b & -> & Hb). destruct (Hc _ _ Hb) as (h & data & md & txids & Hs & Hn).
  exists (typeless b), h. rewrite (frame_storable _ _ _ _ _ Hs). destruct Hs as [Hs _ _ _]. rewrite (deserializeBlock_spec _ _ _ _ _ Hs).
  split_and!; [done| |done]. unfold typeless. cbn. apply Hs.
Qed.

Context (Hmax : 0 ≤ maxBlockfileSize < two56).

Lemma storable_lengths b h data md txids : storable b h data md txids → length txids = length data ∧ len data ≤ len (block_bytes h data md).
Proof.
  intros [Hs _ _ _]. split; [symmetry; by eapply Forall2_length, mapM_Ok, Hs|]. etrans; [apply raws_length|]. unfold block_bytes. rewrite !len_app.
  pose proof (len_nonneg (block_prefix h data)). pose proof (len_nonneg (EncodeVarint (len md))). pose proof (len_nonneg (raws md)). lia.
Qed.
(** The location of a transaction. *)
Lemma storable_tx b h data md txids n tx txid : storable b h data md txids → data !! n = Some tx → txids !! n = Some txid → ∀ p o,
  ∃ t, bii_txOffsets (entry (p, o, frame b)) !! n = Some t ∧ ti_txID t = txid ∧
    0 ≤ lp_offset (ti_loc t) ∧ bytesLength (ti_loc t) = len (raw tx) ∧ lp_offset (ti_loc t) + bytesLength (ti_loc t) ≤ len (raw (frame b)) ∧
    slice (raw (frame b)) (lp_offset (ti_loc t)) (bytesLength (ti_loc t)) = raw tx.
Proof.
  intros Hs Hd Ht p o. rewrite (entry_storable _ _ _ _ _ _ _ Hs), (frame_storable _ _ _ _ _ Hs).
  destruct (tx_slice h data md txids n tx txid Hd Ht) as (loc & Hl & H1 & H2 & H3 & H4). eexists. split.
  { cbn [bii_txOffsets]. unfold shift_locs. by rewrite list_lookup_fmap, Hl. }
  cbn [ti_txID ti_loc lp_offset bytesLength]. pose proof (len_nonneg (EncodeVarint (len (block_bytes h data md)))). unfold raw at 2. rewrite len_app.
  split_and!; [done|lia|done|lia|]. rewrite <-H4. unfold slice, raw at 1. f_equal. rewrite Z2Nat.inj_add, Nat.add_comm by lia.
  by rewrite <-drop_drop, to_nat_len, drop_app_length.
Qed.
Lemma entry_indexable b h data md txids f o : storable b h data md txids → 0 ≤ f < two63 → 0 ≤ o → o + len (raw (frame b)) ≤ maxBlockfileSize →
  indexable indexItems (entry (f, o, frame b)).
Proof.
  intros Hs Hf Ho Hfits. destruct (storable_lengths _ _ _ _ _ Hs) as [Hlen Hdata]. pose proof (entry_storable _ _ _ _ _ f o Hs) as He.
  assert (Htx : ∀ t, t ∈ bii_txOffsets (entry (f, o, frame b)) → ∃ n, txids !! n = Some (ti_txID t) ∧ 0 ≤ lp_offset (ti_loc t) ∧
    0 ≤ bytesLength (ti_loc t) ∧ lp_offset (ti_loc t) + bytesLength (ti_loc t) ≤ len (raw (frame b))).
  { intros t [n Hn]%list_elem_of_lookup_1. exists n. apply lookup_lt_Some in Hn as Hlt. rewrite He in Hlt. cbn [bii_txOffsets] in Hlt. unfold shift_locs in Hlt.
    rewrite length_fmap, length_tx_locs in Hlt by done. destruct (lookup_lt_is_Some_2 data n Hlt) as [tx Htx].
    destruct (lookup_lt_is_Some_2 txids n) as [txid Hid]; [lia|].
    destruct (storable_tx _ _ _ _ _ n tx txid Hs Htx Hid f o) as (t' & Ht' & Hi & H1 & H2 & H3 & _). simplify_eq. split_and!; [done|done|rewrite H2; apply len_nonneg|done]. }
  assert (Hflp : bii_flp (entry (f, o, frame b)) = {| fileSuffixNum := f; flp_loc := {| lp_offset := o; bytesLength := 0 |} |}) by by rewrite He.
  pose proof (len_nonneg (raw (frame b))).
  split.
  - rewrite He. cbn [bii_txOffsets bii_metadata]. unfold shift_locs. rewrite length_fmap, length_tx_locs by done. apply Hs.
  - rewrite He. apply Hs.
  - rewrite He. cbn [bii_txOffsets bii_metadata]. unfold shift_locs, len. rewrite length_fmap, length_tx_locs by done. pose proof (ser_size _ _ _ _ _ (sto_serializable _ _ _ _ _ Hs)).
    unfold len in *. lia.
  - intros t (n & Hn & _)%Htx. apply (sto_txids _ _ _ _ _ Hs). by eapply list_elem_of_lookup_2.
  - rewrite Hflp. unfold flp_wf. cbn. unfold two56, two63 in *. lia.
  - intros t (n & _ & ? & ? & ?)%Htx. unfold flp_wf, tx_flp, newFileLocationPointer. rewrite Hflp. cbn. unfold two56, two63 in *. lia.
Qed.

(** ** The state of the disk *)

Definition two62 : Z := 4611686018427387904.
(** The block files hold the blocks [c], as [segs], and after those of file
    [jf], the one being written, the rest [junk] of an interrupted write. *)
Record files_ok (f : dir) (c : list Block) (segs : list (list bytes)) (jf : nat) (junk : bytes) : Prop := {
  fo_image : image f segs jf junk;
  fo_chain : chain c;
  fo_bytes : concat segs = frame <$> c;
  fo_sizes : Forall (λ seg, len (raws seg) ≤ maxBlockfileSize) segs;
  fo_next seg : segs !! jf = Some seg → is_Some (segs !! S jf) → seg ≠ [];
  fo_current : segs = [] ∧ jf = 0%nat ∨ (jf < length segs)%nat;
  fo_snapshot : f !! bootstrappingSnapshotInfoFile = None;
  fo_count : len c ≤ two62
}.
(** The database holds the first [s] blocks in the index, and knows of the files
    up to [n] blocks of file [jf], if it knows of them at all. *)
Record db_ok (db : L) (c : list Block) (segs : list (list bytes)) (jf s : nat) : Prop := {
  do_index : index_of indexItems dbName db (take s (entry <$> locs 0 segs));
  do_indexed : (s ≤ length c)%nat;
  do_info : match bindings db !! blkMgrInfoKey with
            | None => segs = [] ∨ S jf = length segs
            | Some v => ∃ n, (n ≤ length (default [] (segs !! jf)))%nat ∧ v = blockfilesInfo_marshal (info_of segs jf n)
            end
}.
Definition disk_ok (c : list Block) (d : disk L) : Prop :=
  ∃ segs jf junk s, files_ok (dk_dir d) c segs jf junk ∧ db_ok (dk_db d) c segs jf s.

(** *** The places of the blocks *)

Section places.
Context (f : dir) (c : list Block) (segs : list (list bytes)) (jf : nat) (junk : bytes) (Hf : files_ok f c segs jf junk).

Lemma length_places : length (locs 0 segs) = length c.
Proof. by rewrite length_locs, (fo_bytes _ _ _ _ _ Hf), length_fmap. Qed.
Lemma files_count : (length segs ≤ length c + 2)%nat.
Proof.
  pose proof (fo_image _ _ _ _ _ Hf) as Him. pose proof (im_length _ _ _ _ Him).
  assert (jf ≤ length (concat (take jf segs)))%nat as Hjf.
  { assert (Hall : Forall (λ s, s ≠ []) (take jf segs)).
    { apply Forall_lookup. intros i seg [Hi ?]%lookup_take_Some. by apply (im_before _ _ _ _ Him i). }
    assert (length (take jf segs) = jf) as Hl by (rewrite length_take; lia). rewrite <-Hl at 1. clear Hl. induction Hall as [|x l Hx _ IH]; [done|].
    cbn. rewrite length_app. destruct x; [done|]. cbn. lia. }
  assert (length (concat (take jf segs)) ≤ length (concat segs))%nat; [|rewrite (fo_bytes _ _ _ _ _ Hf), length_fmap in *; lia].
  rewrite <-(take_drop jf segs) at 2. rewrite concat_app, length_app. lia.
Qed.
Lemma place_of j b : c !! j = Some b → ∃ p o, locs 0 segs !! j = Some (p, o, frame b).
Proof.
  intros Hj. destruct (lookup_lt_is_Some_2 (locs 0 segs) j) as [[[p o] x] Hx]; [rewrite length_places; by eapply lookup_lt_Some|].
  exists p, o. rewrite Hx. do 2 f_equal. pose proof (locs_bytes segs 0) as Hb. rewrite (fo_bytes _ _ _ _ _ Hf) in Hb.
  apply (f_equal (.!! j)) in Hb. rewrite !list_lookup_fmap, Hx, Hj in Hb. by simplify_eq/=.
Qed.
Lemma place_block j p o x : locs 0 segs !! j = Some (p, o, x) → ∃ b, c !! j = Some b ∧ x = frame b.
Proof.
  intros Hx. destruct (lookup_lt_is_Some_2 c j) as [b Hb]; [rewrite <-length_places; by eapply lookup_lt_Some|].
  exists b. destruct (place_of _ _ Hb) as (? & ? & ?). by simplify_eq.
Qed.
(** The frame of a block is at its place in its file. *)
Lemma place_bytes j p o x : locs 0 segs !! j = Some (p, o, x) →
  0 ≤ p < two63 ∧ 0 ≤ o ∧ o + len (raw x) ≤ maxBlockfileSize ∧
  ∃ pre post, f !! deriveBlockfilePath p = Some (pre ++ raw x ++ post) ∧ o = len pre.
Proof.
  intros Hx. pose proof (fo_image _ _ _ _ _ Hf) as Him. destruct (locs_lookup _ _ _ _ _ _ Hx) as (n & seg & s1 & s2 & -> & Hn & -> & -> & _).
  pose proof (proj1 (Forall_lookup _ _) (fo_sizes _ _ _ _ _ Hf) _ _ Hn) as Hsz. cbn beta in Hsz.
  pose proof (im_file _ _ _ _ Him _ _ Hn) as Hfile. rewrite Z.add_0_l.
  assert (Hr : raws (s1 ++ x :: s2) = raws s1 ++ raw x ++ raws s2) by (rewrite raws_app; f_equal). rewrite Hr in Hsz, Hfile.
  rewrite !len_app in Hsz. pose proof (len_nonneg (raws s1)). pose proof (len_nonneg (raws s2)). split_and!; [lia| |done|lia|].
  - apply lookup_lt_Some in Hn. pose proof (im_count _ _ _ _ Him). unfold len in *. lia.
  - rewrite <-!app_assoc in Hfile. by eauto.
Qed.
Lemma place_entry j p o x : locs 0 segs !! j = Some (p, o, x) →
  indexable indexItems (entry (p, o, x)) ∧ bii_blockNum (entry (p, o, x)) = Z.of_nat j ∧
  bii_flp (entry (p, o, x)) = {| fileSuffixNum := p; flp_loc := {| lp_offset := o; bytesLength := 0 |} |}.
Proof.
  intros Hx. destruct (place_block _ _ _ _ Hx) as (b & Hb & ->). destruct (fo_chain _ _ _ _ _ Hf _ _ Hb) as (h & data & md & txids & Hs & Hn).
  destruct (place_bytes _ _ _ _ Hx) as (? & ? & ? & _). split; [by eapply entry_indexable|]. by rewrite (entry_storable _ _ _ _ _ _ _ Hs).
Qed.
End places.

(** *** Writes to the files *)

Lemma blockfile_not_snapshot n : deriveBlockfilePath n ≠ bootstrappingSnapshotInfoFile.
Proof. intros Heq. pose proof (deriveBlockfilePath_is n) as Hi. by rewrite Heq in Hi. Qed.
Lemma storable_small b h data md txids : storable b h data md txids → len (frame b) < two56.
Proof.
  intros Hs. rewrite (frame_storable _ _ _ _ _ Hs). pose proof (sto_fits _ _ _ _ _ Hs) as Hf. unfold raw in Hf. rewrite len_app in Hf.
  pose proof (len_nonneg (EncodeVarint (len (block_bytes h data md)))). lia.
Qed.

Section files.
Context (f : dir) (c : list Block) (segs : list (list bytes)) (jf : nat) (junk : bytes) (Hf : files_ok f c segs jf junk).

Lemma files_writer_snapshot n : newBlockfileWriter f (deriveBlockfilePath n) !! bootstrappingSnapshotInfoFile = None.
Proof. unfold newBlockfileWriter. destruct (f !! _); [apply Hf|]. rewrite lookup_insert_ne by apply blockfile_not_snapshot. apply Hf. Qed.
Lemma files_open_first : segs = [] → files_ok (newBlockfileWriter f (deriveBlockfilePath 0)) c [[]] 0 [].
Proof.
  intros Hs. pose proof (fo_bytes _ _ _ _ _ Hf) as Hb. rewrite Hs in Hb. destruct Hf as [Him Hc _ _ _ _ _ Hn]. split; [| | | | | | |done].
  - by eapply image_open_first.
  - done.
  - done.
  - repeat constructor. change (len (raws [])) with 0. lia.
  - intros seg ? [? Hs']. done.
  - right. cbn. lia.
  - apply files_writer_snapshot.
Qed.
Lemma files_truncate seg : segs !! jf = Some seg → files_ok (truncateFile f (deriveBlockfilePath (Z.of_nat jf)) (len (raws seg))) c segs jf [].
Proof.
  intros Hj. destruct Hf as [Him Hc Hb Hs Hn Hcur Hsn Hcnt]. split; try done; [by eapply image_truncate|].
  unfold truncateFile. destruct (f !! deriveBlockfilePath _); [|done]. destruct (decide _); [|done]. by rewrite lookup_insert_ne by apply blockfile_not_snapshot.
Qed.
Lemma append_snapshot n x : append_file f (deriveBlockfilePath n) x !! bootstrappingSnapshotInfoFile = None.
Proof. unfold append_file. rewrite lookup_insert_ne by apply blockfile_not_snapshot. apply Hf. Qed.
Lemma files_append_part x : (jf < length segs)%nat → torn (junk ++ x) → files_ok (append_file f (deriveBlockfilePath (Z.of_nat jf)) x) c segs jf (junk ++ x).
Proof.
  intros Hj Ht. pose proof (append_snapshot (Z.of_nat jf) x). destruct Hf as [Him Hc Hb Hs Hn Hcur Hsn Hcnt]. split; try done. by apply image_append_part.
Qed.
Lemma files_append_whole x seg b h data md txids : segs !! jf = Some seg → junk ++ x = raw (frame b) →
  storable b h data md txids → bh_Number h = Z.of_nat (length c) → len (raws seg) + len (raw (frame b)) ≤ maxBlockfileSize → len c < two62 →
  files_ok (append_file f (deriveBlockfilePath (Z.of_nat jf)) x) (c ++ [b]) (<[jf := seg ++ [frame b]]> segs) jf [].
Proof.
  intros Hj Hx Hs Hnum Hfit Hcount. pose proof (append_snapshot (Z.of_nat jf) x). destruct Hf as [Him Hc Hb Hsz Hn Hcur Hsn Hcnt].
  apply lookup_lt_Some in Hj as Hlt. split.
  - eapply image_append_whole; [done..|]. by eapply storable_small.
  - by eapply chain_app.
  - pose proof (locs_snoc _ _ _ _ _ (frame b) Him Hj) as Hl. apply (f_equal (fmap snd)) in Hl. rewrite fmap_app, !locs_bytes, Hb in Hl.
    by rewrite fmap_app.
  - apply Forall_insert; [done|]. by rewrite raws_app, raws_one, len_app.
  - intros sg Hsg _. rewrite list_lookup_insert_eq in Hsg by done. simplify_eq. by destruct seg.
  - right. by rewrite length_insert.
  - done.
  - rewrite len_app. change (len [b]) with 1. lia.
Qed.
Lemma files_open_next seg : segs !! jf = Some seg → seg ≠ [] →
  ∃ segs', files_ok (newBlockfileWriter f (deriveBlockfilePath (Z.of_nat (S jf)))) c segs' jf junk ∧
    (segs' = segs ∨ segs' = segs ++ [[]]) ∧ segs' !! S jf = Some [].
Proof.
  intros Hj Hne. pose proof (files_count _ _ _ _ _ Hf) as Hfc. pose proof (files_writer_snapshot (Z.of_nat (S jf))). destruct Hf as [Him Hc Hb Hsz Hn Hcur Hsn Hcnt].
  destruct (image_open_next _ _ _ _ Him seg Hj) as (segs' & Him' & Hsegs & Hnext); [unfold len, two62, two63 in *; lia|].
  exists segs'. split; [|done]. apply lookup_lt_Some in Hj as Hlt. split; try done.
  - rewrite <-Hb. destruct Hsegs as [->| ->]; [done|]. rewrite concat_app. cbn. by rewrite app_nil_r.
  - destruct Hsegs as [->| ->]; [done|]. apply Forall_app. split; [done|]. repeat constructor. change (len (raws [])) with 0. lia.
  - intros sg Hsg _. destruct Hsegs as [->| ->]; [by simplify_eq|]. rewrite lookup_app_l in Hsg by done. by simplify_eq.
  - right. destruct Hsegs as [->| ->]; [done|]. rewrite length_app. lia.
Qed.
Lemma files_move seg : junk = [] → segs !! jf = Some seg → seg ≠ [] → segs !! S jf = Some [] → files_ok f c segs (S jf) [].
Proof.
  intros Hjunk Hj Hne Hnext. destruct Hf as [Him Hc Hb Hsz Hn Hcur Hsn Hcnt]. rewrite Hjunk in Him.
  assert (Him' : image f segs (S jf) []) by (by eapply image_move). apply lookup_lt_Some in Hnext as Hlt. split; try done.
  - intros sg Hsg [y Hy]. apply lookup_lt_Some in Hy. pose proof (im_length _ _ _ _ Him). lia.
  - by right.
Qed.
End files.

(** *** Writes to the database *)

Lemma blkMgrInfoKey_not_index : ¬ index_key blkMgrInfoKey.
Proof. intros [Hk|(p & r & [= <- _] & Hk)]; [done|]. rewrite !elem_of_cons, elem_of_nil in Hk. by destruct Hk as [?|[?|[?|[?|?]]]]. Qed.
Lemma index_puts_keys i k : k ∈ (index_puts indexItems i).*1 → index_key k.
Proof.
  intros ([k' v] & -> & Hin)%list_elem_of_fmap. apply elem_of_index_puts in Hin.
  destruct Hin as [(_ & -> & _)|[(_ & -> & _)|[(_ & ? & ? & _ & -> & _)|[(_ & ? & ? & _ & -> & _)|(-> & _)]]]]; [right..|by left];
    (eexists _, _; split; [done|]; rewrite !elem_of_cons; clear; auto 10).
Qed.

Lemma db_put_info db l v : index_of indexItems dbName db l →
  ∃ db', ldb_Write db [LPut (constructLevelKey dbName blkMgrInfoKey) v] = Ok db' ∧ index_of indexItems dbName db' l ∧
    bindings db' !! blkMgrInfoKey = Some v.
Proof.
  intros Hi. destruct (write_puts dbName db [(blkMgrInfoKey, v)]) as (db' & Hw & Hv). exists db'. split; [done|]. rewrite Hv. cbn. rewrite lookup_insert_eq.
  split; [|done]. eapply index_of_other; [done|]. intros k Hk. rewrite Hv. cbn. rewrite lookup_insert_ne; [done|]. intros <-.
  by apply blkMgrInfoKey_not_index in Hk.
Qed.
Lemma db_save db c segs jf s n : db_ok db c segs jf s → (n ≤ length (default [] (segs !! jf)))%nat →
  ∃ db', ldb_Write db [LPut (constructLevelKey dbName blkMgrInfoKey) (blockfilesInfo_marshal (info_of segs jf n))] = Ok db' ∧
    db_ok db' c segs jf s ∧ bindings db' !! blkMgrInfoKey = Some (blockfilesInfo_marshal (info_of segs jf n)).
Proof.
  intros [Hi Hs _] Hn. destruct (db_put_info db _ (blockfilesInfo_marshal (info_of segs jf n)) Hi) as (db' & Hw & Hi' & Hb). exists db'.
  split_and!; [done| |done]. split; [done..|]. rewrite Hb. eauto.
Qed.

Context (Hnum : IndexableAttrBlockNum ∈ indexItems).

Lemma db_index_next f c segs jf junk db s p : files_ok f c segs jf junk → db_ok db c segs jf s → locs 0 segs !! s = Some p →
  ∃ batch db', index_batch indexItems dbName (entry p) = Ok (Some batch) ∧ ldb_Write db (lb_ops batch) = Ok db' ∧
    db_ok db' c segs jf (S s) ∧ bindings db' !! blkMgrInfoKey = bindings db !! blkMgrInfoKey.
Proof.
  intros Hf [Hi Hs Hinfo] Hp. destruct p as [[p o] x]. destruct (place_entry _ _ _ _ _ Hf _ _ _ _ Hp) as (Hix & Hbn & _).
  destruct (index_batch_spec indexItems dbName (entry (p, o, x))) as (batch & Hb & Hops); [by intros ->; apply elem_of_nil in Hnum|done|].
  destruct (write_puts dbName db (index_puts indexItems (entry (p, o, x)))) as (db' & Hw & Hv). rewrite <-Hops in Hw. exists batch, db'.
  assert (Hb' : bindings db' !! blkMgrInfoKey = bindings db !! blkMgrInfoKey).
  { rewrite Hv. apply lookup_insert_all_None. intros ?%index_puts_keys. by apply blkMgrInfoKey_not_index. }
  assert (Hlt : (s < length (locs 0 segs))%nat) by (by eapply lookup_lt_Some).
  split_and!; [done|done| |done]. split.
  - rewrite (take_S_r _ s (entry (p, o, x))) by (rewrite list_lookup_fmap, Hp; done). eapply index_of_step; [done|done| |by rewrite <-Hops].
    rewrite length_take, length_fmap, Nat.min_l by lia. done.
  - rewrite <-(length_places _ _ _ _ _ Hf). lia.
  - by rewrite Hb'.
Qed.

(** ** Reading *)

Section reading.
Context (d : disk L) (c : list Block) (segs : list (list bytes)) (jf : nat) (junk : bytes) (s : nat).
Context (Hf : files_ok (dk_dir d) c segs jf junk) (Hi : index_of indexItems dbName (dk_db d) (take s (entry <$> locs 0 segs))).
Context (mgr : blockfileMgr) (Hmgr : bm_bootstrappingSnapshotInfo mgr = None).

Lemma entry_at j b : (j < s)%nat → c !! j = Some b → ∃ p o, locs 0 segs !! j = Some (p, o, frame b) ∧
  take s (entry <$> locs 0 segs) !! j = Some (entry (p, o, frame b)).
Proof.
  intros Hj Hb. destruct (place_of _ _ _ _ _ Hf _ _ Hb) as (p & o & Hp). exists p, o. split; [done|].
  by rewrite lookup_take_lt, list_lookup_fmap, Hp by done.
Qed.
Lemma fetchBlockBytes_place j p o x : locs 0 segs !! j = Some (p, o, x) → fetchBlockBytes (dk_dir d) (bii_flp (entry (p, o, x))) = Ok x.
Proof.
  intros Hp. destruct (place_entry _ _ _ _ _ Hf _ _ _ _ Hp) as (_ & _ & ->). unfold fetchBlockBytes. cbn [fileSuffixNum lp_offset flp_loc].
  destruct (bfs_next_loc _ _ _ _ _ _ _ _ (fo_image _ _ _ _ _ Hf) Hp) as (-> & s' & Hn). run. rewrite Hn. by run.
Qed.
Lemma getBlockLoc_place j b : (j < s)%nat → c !! j = Some b →
  ∃ loc, getBlockLocByBlockNum indexItems dbName (dk_db d) (Z.of_nat j) = Ok loc ∧ fetchBlockBytes (dk_dir d) loc = Ok (frame b).
Proof.
  intros Hj Hb. destruct (entry_at _ _ Hj Hb) as (p & o & Hp & He). rewrite (getBlockLocByBlockNum_spec _ _ _ _ Hi _ _ Hnum He).
  eexists. split; [done|]. by eapply fetchBlockBytes_place.
Qed.
Lemma not_max j b : c !! j = Some b → Z.of_nat j ≠ MaxUint64 ∧ is_u64 (Z.of_nat j).
Proof.
  intros Hj%lookup_lt_Some. pose proof (fo_count _ _ _ _ _ Hf). unfold len, two62, MaxUint64, is_u64, two64 in *. lia.
Qed.
Lemma first_block : firstPossibleBlockNumberInBlockFiles mgr = 0.
Proof. unfold firstPossibleBlockNumberInBlockFiles. by rewrite Hmgr. Qed.

Lemma retrieveBlockByNumber_spec j b : (j < s)%nat → c !! j = Some b →
  retrieveBlockByNumber indexItems dbName mgr d (Z.of_nat j) = Ok (typeless b).
Proof.
  intros Hj Hb. unfold retrieveBlockByNumber. destruct (not_max _ _ Hb) as [Hne _]. rewrite first_block, (decide_False _ _ Hne), decide_False by lia.
  destruct (getBlockLoc_place _ _ Hj Hb) as (loc & -> & Hl). run. unfold fetchBlock. rewrite Hl. run.
  destruct (fo_chain _ _ _ _ _ Hf _ _ Hb) as (h & data & md & txids & Hs & _). rewrite (frame_storable _ _ _ _ _ Hs).
  by eapply deserializeBlock_spec, Hs.
Qed.
Lemma retrieveBlockHeaderByNumber_spec j b : (j < s)%nat → c !! j = Some b →
  ∃ h, b_Header b = Some h ∧ retrieveBlockHeaderByNumber indexItems dbName mgr d (Z.of_nat j) = Ok h.
Proof.
  intros Hj Hb. unfold retrieveBlockHeaderByNumber. rewrite first_block, decide_False by lia.
  destruct (getBlockLoc_place _ _ Hj Hb) as (loc & -> & Hl). run. rewrite Hl. run.
  destruct (fo_chain _ _ _ _ _ Hf _ _ Hb) as (h & data & md & txids & Hs & _). rewrite (frame_storable _ _ _ _ _ Hs).
  exists h. split; [apply Hs|]. rewrite (extractSerializedBlockInfo_spec _ _ _ _ _ (sto_serializable _ _ _ _ _ Hs)). by run.
Qed.
Lemma retrieveBlockByNumber_none n : Z.of_nat (length c) ≤ n < MaxUint64 → s = length c →
  retrieveBlockByNumber indexItems dbName mgr d n = Err "no such block number in index".
Proof.
  intros Hn Hs. unfold retrieveBlockByNumber. assert (Hne : n ≠ MaxUint64) by lia. rewrite first_block, (decide_False _ _ Hne), decide_False by lia.
  rewrite (getBlockLocByBlockNum_none _ _ _ _ Hi); [done|done|unfold is_u64, MaxUint64, two64 in *; lia|].
  rewrite length_take, length_fmap, (length_places _ _ _ _ _ Hf). lia.
Qed.

(** A transaction is read from its place inside its block. *)
Lemma fetchTransactionEnvelope_place j p o b n tx txid h data md txids : locs 0 segs !! j = Some (p, o, frame b) → storable b h data md txids →
  data !! n = Some tx → txids !! n = Some txid →
  ∃ t, bii_txOffsets (entry (p, o, frame b)) !! n = Some t ∧ ti_txID t = txid ∧
    fetchTransactionEnvelope (dk_dir d) (tx_flp (entry (p, o, frame b)) t) = GetEnvelopeFromBlock tx.
Proof.
  intros Hp Hs Hd Ht. destruct (storable_tx _ _ _ _ _ n tx txid Hs Hd Ht p o) as (t & Hn & Hid & H1 & H2 & H3 & H4). exists t. split_and!; [done..|].
  destruct (place_entry _ _ _ _ _ Hf _ _ _ _ Hp) as (_ & _ & Hflp). destruct (place_bytes _ _ _ _ _ Hf _ _ _ _ Hp) as (_ & _ & _ & pre & post & Hfile & ->).
  unfold fetchTransactionEnvelope, fetchRawBytes, tx_flp, newFileLocationPointer. rewrite Hflp. cbn [fileSuffixNum flp_loc lp_offset bytesLength].
  unfold blockfileReader_read. rewrite Hfile. pose proof (len_nonneg pre). pose proof (len_nonneg (raw tx)). pose proof (len_nonneg post).
  rewrite decide_False by lia. rewrite decide_False by (rewrite !len_app; lia). run.
  assert (slice (pre ++ raw (frame b) ++ post) (len pre + lp_offset (ti_loc t)) (bytesLength (ti_loc t)) = raw tx) as ->.
  { rewrite <-H4. unfold slice. rewrite Z2Nat.inj_add by lia. rewrite <-drop_drop, to_nat_len, drop_app_length.
    rewrite drop_app_le, take_app_le; [done|rewrite length_drop|]; unfold len in *; lia. }
  unfold raw. rewrite DecodeVarint_Encode; [by rewrite drop_app_length|].
  pose proof (len_nonneg tx). assert (len tx ≤ len (raw tx)) by (unfold raw; rewrite len_app; pose proof (len_nonneg (EncodeVarint (len tx))); lia).
  destruct (place_bytes _ _ _ _ _ Hf _ _ _ _ Hp) as (_ & ? & ? & _). unfold is_u64, two56, two64 in *. lia.
Qed.
End reading.

(** ** Bringing the index up to date *)

Lemma files_fuel f c segs jf junk : files_ok f c segs jf junk → (length c ≤ total_size f)%nat.
Proof.
  intros Hf. pose proof (fo_image _ _ _ _ _ Hf) as Him.
  etrans; [|apply (total_size_ge ((deriveBlockfilePath ∘ Z.of_nat) <$> seq 0 (length segs)))].
  - rewrite <-(length_fmap frame c), <-(fo_bytes _ _ _ _ _ Hf).
    assert (Hall : ∀ j seg, segs !! j = Some seg → (length seg ≤ length (default [] (f !! deriveBlockfilePath (Z.of_nat (0 + j)))))%nat).
    { intros j seg Hj. cbn [Nat.add]. rewrite (im_file _ _ _ _ Him _ _ Hj). cbn. rewrite length_app. pose proof (raws_length seg). unfold len in *. lia. }
    clear -Hall. revert Hall. generalize 0%nat. induction segs as [|seg l IH]; intros k Hall; [cbn; lia|]. cbn. rewrite length_app.
    apply Nat.add_le_mono; [specialize (Hall 0%nat seg eq_refl); by rewrite Nat.add_0_r in Hall|]. apply IH. intros j sg Hj.
    specialize (Hall (S j) sg Hj). by rewrite Nat.add_succ_r in Hall.
  - apply NoDup_fmap_2_strong; [|apply NoDup_seq]. intros i j Hi%elem_of_seq Hj%elem_of_seq Heq. pose proof (im_count _ _ _ _ Him).
    apply deriveBlockfilePath_inj in Heq; unfold len in *; lia.
Qed.

Section sync.
Context (c : list Block) (segs : list (list bytes)) (jf : nat) (f : dir) (Hf : files_ok f c segs jf []).

Lemma emit_index w s p : dk_dir (w_disk w) = f → db_ok (dk_db (w_disk w)) c segs jf s → locs 0 segs !! s = Some p →
  ∃ batch w', index_batch indexItems dbName (entry p) = Ok (Some batch) ∧ emit w (WriteDB (lb_ops batch)) = Ok w' ∧
    dk_dir (w_disk w') = f ∧ db_ok (dk_db (w_disk w')) c segs jf (S s) ∧
    bindings (dk_db (w_disk w')) !! blkMgrInfoKey = bindings (dk_db (w_disk w)) !! blkMgrInfoKey ∧ traced (disk_ok c) w w'.
Proof.
  intros Hd Hdb Hp. destruct (db_index_next _ _ _ _ _ _ _ _ Hf Hdb Hp) as (batch & db' & Hb & Hw & Hdb' & Hk).
  set (w' := {| w_disk := {| dk_dir := f; dk_db := db' |}; w_log := w_log w ++ [WriteDB (lb_ops batch)] |}).
  assert (He : emit w (WriteDB (lb_ops batch)) = Ok w') by (unfold emit; cbn; by rewrite Hw, Hd).
  exists batch, w'. split_and!; [done..|]. eapply traced_emit_whole; [done| | |by inversion 1].
  - exists segs, jf, [], s. by rewrite Hd.
  - exists segs, jf, [], (S s). done.
Qed.

Lemma sync_loop_spec k : ∀ s stream w fuel, dk_dir (w_disk w) = f → db_ok (dk_db (w_disk w)) c segs jf s →
  reads f (at_end f) stream (drop s (locs 0 segs)) → (length c - s = k)%nat → (k ≤ fuel)%nat →
  ∃ w', sync_loop indexItems dbName fuel stream w = Ok w' ∧ dk_dir (w_disk w') = f ∧ db_ok (dk_db (w_disk w')) c segs jf (length c) ∧
    bindings (dk_db (w_disk w')) !! blkMgrInfoKey = bindings (dk_db (w_disk w)) !! blkMgrInfoKey ∧ traced (disk_ok c) w w'.
Proof.
  induction k as [|k IH]; intros s stream w fuel Hd Hdb Hr Hk Hfuel; pose proof (do_indexed _ _ _ _ _ Hdb) as Hs.
  - rewrite drop_ge in Hr by (rewrite (length_places _ _ _ _ _ Hf); lia). destruct Hr as [s' Hn]. exists w.
    assert (s = length c) as -> by lia. split_and!; try done.
    + destruct fuel; cbn [sync_loop]; rewrite Hd, Hn; by run.
    + apply traced_refl. exists segs, jf, [], (length c). by rewrite Hd.
  - destruct (lookup_lt_is_Some_2 (locs 0 segs) s) as [p Hp]; [rewrite (length_places _ _ _ _ _ Hf); lia|].
    rewrite (drop_S _ _ _ Hp) in Hr. destruct p as [[p o] x]. destruct Hr as (s' & Hn & Hr). destruct fuel as [|fuel]; [lia|].
    destruct (emit_index _ _ _ Hd Hdb Hp) as (batch & w1 & Hb & He & Hd1 & Hdb1 & Hk1 & Ht1).
    destruct (IH (S s) s' w1 fuel Hd1 Hdb1 Hr ltac:(lia) ltac:(lia)) as (w2 & Hl & Hd2 & Hdb2 & Hk2 & Ht2). exists w2.
    split_and!; [|done|done|by rewrite Hk2|by eapply traced_trans]. cbn [sync_loop]. rewrite Hd, Hn. run.
    destruct (place_block _ _ _ _ _ Hf _ _ _ _ Hp) as (b & Hcb & ->). destruct (fo_chain _ _ _ _ _ Hf _ _ Hcb) as (h & data & md & txids & Hst & _).
    pose proof (extractSerializedBlockInfo_spec _ _ _ _ _ (sto_serializable _ _ _ _ _ Hst)) as Hinfo. rewrite <-(frame_storable _ _ _ _ _ Hst) in Hinfo.
    rewrite Hinfo. run. cbn [sbi_blockHeader block_info bpi_fileNum blockStartOffset blockBytesOffset placement_of sbi_txOffsets sbi_metadata].
    replace (o + len (EncodeVarint (len (frame b))) - o) with (len (EncodeVarint (len (frame b)))) by lia.
    rewrite <-(entry_storable _ _ _ _ _ p o Hst), Hb. run. rewrite He. run. exact Hl.
Qed.

Context (Hcur : (jf < length segs)%nat).
Notation full_info := (info_of segs jf (length (default [] (segs !! jf)))).

Lemma full_info_spec seg : segs !! jf = Some seg → full_info =
  {| latestFileNumber := Z.of_nat jf; latestFileSize := len (raws seg); noBlockFiles := bool_decide (len c = 0);
     lastPersistedBlock := if decide (len c = 0) then 0 else len c - 1 |}.
Proof.
  intros Hj. unfold info_of. rewrite Hj. cbn [default from_option id]. rewrite firstn_all.
  assert (len (concat (take jf segs)) + Z.of_nat (length seg) = len c) as ->; [|done]. pose proof (concat_full _ _ _ _ _ (fo_image _ _ _ _ _ Hf) Hj) as Hc.
  rewrite (fo_bytes _ _ _ _ _ Hf) in Hc. apply (f_equal length) in Hc. rewrite length_fmap, length_app in Hc. unfold len. lia.
Qed.

(** The stream that starts at the block last indexed. *)
Lemma stream_from i p : locs 0 segs !! i = Some p → ∃ stream stream', newBlockStream f p.1.1 p.1.2 (Z.of_nat jf) = Ok stream ∧
  reads f (at_end f) stream (drop i (locs 0 segs)) ∧ bst_next f stream = Ok (Some (p.2, placement_of p.1.1 p.1.2 p.2), stream') ∧
  reads f (at_end f) stream' (drop (S i) (locs 0 segs)).
Proof.
  destruct p as [[p o] x]. intros Hp. pose proof (fo_image _ _ _ _ _ Hf) as Him.
  destruct (locs_split _ _ _ _ _ _ _ _ Him Hcur Hp) as (j & s1 & s2 & -> & -> & Hj & Hle & Hdrop).
  pose proof (reads_from f segs jf Him (Z.of_nat jf) (at_end f) ltac:(lia) Hcur ltac:(intros; by eapply at_end_last) j s1 (x :: s2) Hj Hle) as Hr.
  rewrite <-Hdrop in Hr. unfold newBlockStream. destruct (bfs_next_loc _ _ _ _ _ _ _ _ Him Hp) as [Hopen _]. cbn [fst snd]. rewrite Hopen. run.
  rewrite (drop_S _ _ _ Hp) in Hr. destruct Hr as (s' & Hn & Hr). eexists _, s'. split_and!; [done| |done|done].
  rewrite (drop_S _ _ _ Hp). by exists s'.
Qed.
(** The stream over all blocks. *)
Lemma stream_all : ∃ stream, newBlockStream f 0 0 (Z.of_nat jf) = Ok stream ∧ reads f (at_end f) stream (locs 0 segs).
Proof.
  pose proof (fo_image _ _ _ _ _ Hf) as Him. destruct (lookup_lt_is_Some_2 segs 0) as [seg Hseg]; [lia|].
  pose proof (reads_from f segs jf Him (Z.of_nat jf) (at_end f) ltac:(lia) Hcur ltac:(intros; by eapply at_end_last) 0 [] seg Hseg ltac:(lia)) as Hr.
  pose proof (locs_rest segs jf [] f 0 [] seg Him Hseg ltac:(lia)) as Hl. rewrite take_0 in Hl. cbn [locs locs_file app] in Hl. rewrite <-Hl in Hr.
  unfold newBlockStream, newBlockfileStream. rewrite (im_file _ _ _ _ Him _ _ Hseg : f !! deriveBlockfilePath 0 = _). by eauto.
Qed.
Lemma retrieveFirstBlockNum_spec : c ≠ [] → retrieveFirstBlockNumFromFile f 0 = Ok 0.
Proof.
  intros Hne. destruct c as [|b0 c'] eqn:Hc; [done|]. rewrite <-Hc in *. assert (Hb0 : c !! 0%nat = Some b0) by by rewrite Hc.
  destruct (place_of _ _ _ _ _ Hf _ _ Hb0) as (p & o & Hp). pose proof (fo_image _ _ _ _ _ Hf) as Him.
  destruct (locs_lookup _ _ _ _ _ _ Hp) as (j & seg & s1 & s2 & -> & Hj & -> & -> & Hi). destruct s1; [|cbn in Hi; lia].
  assert (j = 0%nat) as ->.
  { destruct j as [|j]; [done|]. destruct (lookup_lt_is_Some_2 segs 0) as [s0 Hs0]; [lia|]. exfalso.
    assert (s0 ≠ []) as Hs0ne.
    { apply (im_before _ _ _ _ Him _ _ Hs0). destruct (decide (jf = 0%nat)) as [Hjf|]; [|lia]. by apply (im_after _ _ _ _ Him) in Hj; [|lia]. }
    destruct segs as [|s0' segs']; [done|]. simplify_eq/=. rewrite length_app in Hi. destruct s0; [done|]. cbn in Hi. lia. }
  unfold retrieveFirstBlockNumFromFile. destruct (bfs_next_loc _ _ _ _ _ _ _ _ Him Hp) as (Ho & s' & Hn). rewrite Z.add_0_l in *.
  change (len (raws [])) with 0 in *. change (Z.of_nat 0) with 0 in *. rewrite Ho. run. rewrite Hn. run. cbn [from_option fst].
  destruct (fo_chain _ _ _ _ _ Hf _ _ Hb0) as (h & data & md & txids & Hs & Hnum0). rewrite (frame_storable _ _ _ _ _ Hs).
  rewrite (extractSerializedBlockInfo_spec _ _ _ _ _ (sto_serializable _ _ _ _ _ Hs)). run. cbn. by rewrite Hnum0.
Qed.

Lemma syncIndex_spec mgr w s : dk_dir (w_disk w) = f → db_ok (dk_db (w_disk w)) c segs jf s →
  bm_bootstrappingSnapshotInfo mgr = None → bm_blockfilesInfo mgr = full_info →
  ∃ w', syncIndex indexItems dbName mgr w = Ok w' ∧ dk_dir (w_disk w') = f ∧ db_ok (dk_db (w_disk w')) c segs jf (length c) ∧
    bindings (dk_db (w_disk w')) !! blkMgrInfoKey = bindings (dk_db (w_disk w)) !! blkMgrInfoKey ∧ traced (disk_ok c) w w'.
Proof.
  intros Hd Hdb Hbs Hinfo. pose proof (do_indexed _ _ _ _ _ Hdb) as Hs. pose proof (fo_count _ _ _ _ _ Hf) as Hcount.
  destruct (lookup_lt_is_Some_2 segs jf Hcur) as [seg Hseg]. rewrite (full_info_spec _ Hseg) in Hinfo.
  assert (Hw : ∀ s', s' = length c → s = s' → ∃ w', Ok w = Ok w' ∧ dk_dir (w_disk w') = f ∧ db_ok (dk_db (w_disk w')) c segs jf (length c) ∧
    bindings (dk_db (w_disk w')) !! blkMgrInfoKey = bindings (dk_db (w_disk w)) !! blkMgrInfoKey ∧ traced (disk_ok c) w w').
  { intros s' -> ->. exists w. split_and!; [done..|]. apply traced_refl. exists segs, jf, [], (length c). by rewrite Hd. }
  unfold syncIndex. rewrite (getLastBlockIndexed_spec _ _ _ _ (do_index _ _ _ _ _ Hdb)), Hinfo. cbn [noBlockFiles lastPersistedBlock latestFileNumber].
  assert (Hboot : bootstrappedFromSnapshot mgr = false) by (unfold bootstrappedFromSnapshot, firstPossibleBlockNumberInBlockFiles; by rewrite Hbs).
  rewrite Hboot. clear Hinfo.
  destruct (decide (s = 0%nat)) as [->|Hs0].
  - rewrite take_0. cbn [last]. rewrite (decide_True (P := errIndexSavePointKeyNotPresent = _)) by done. run. cbn [default]. rewrite andb_false_r. destruct (bool_decide (len c = 0)) eqn:Hc.
    { apply bool_decide_eq_true in Hc. eapply Hw; [done|]. unfold len in Hc. lia. }
    apply bool_decide_eq_false in Hc. rewrite (decide_False (P := len c = 0)) by done.
    rewrite decide_False by (rewrite u64_small; unfold len, two62, two64 in *; lia). rewrite Hd, retrieveFirstBlockNum_spec by by intros ->. run.
    rewrite (decide_False (P := 0 > 0)) by lia. run. destruct stream_all as (stream & -> & Hr). run. by eapply sync_loop_spec; [done|done| |done|rewrite Nat.sub_0_r; by eapply files_fuel].
  - destruct (lookup_lt_is_Some_2 (locs 0 segs) (s - 1)) as [p Hp]; [rewrite (length_places _ _ _ _ _ Hf); lia|].
    assert (Hlast : last (take s (entry <$> locs 0 segs)) = Some (entry p)).
    { rewrite last_lookup, length_take, length_fmap, (length_places _ _ _ _ _ Hf), Nat.min_l by lia.
      rewrite lookup_take_lt by lia. by rewrite list_lookup_fmap, <-Nat.sub_1_r, Hp. }
    rewrite Hlast. destruct p as [[p o] x]. destruct (place_entry _ _ _ _ _ Hf _ _ _ _ Hp) as (_ & Hbn & Hflp). rewrite Hbn. run. cbn [default].
    rewrite andb_false_r. assert (Hc : len c ≠ 0) by (unfold len; lia). rewrite bool_decide_false by done.
    rewrite (decide_False (P := len c = 0)) by done. rewrite !u64_small by (unfold len, two62, two64 in *; lia).
    destruct (decide (_ = _)) as [Heq|Hne]; [eapply Hw; [done|unfold len in *; lia]|]. rewrite Hd, retrieveFirstBlockNum_spec by by intros ->. run.
    rewrite decide_True by lia. unfold default, id.
    rewrite (getBlockLocByBlockNum_spec _ _ _ _ (do_index _ _ _ _ _ Hdb) _ (entry (p, o, x)) Hnum)
      by (rewrite lookup_take_lt by lia; by rewrite list_lookup_fmap, Hp).
    run. rewrite Hflp. cbn [fileSuffixNum flp_loc lp_offset]. destruct (stream_from _ _ Hp) as (stream & stream' & Ho & _ & Hn & Hr). cbn [fst snd] in *.
    rewrite Ho. run. rewrite Hn. run. replace (S (s - 1)) with s in Hr by lia.
    eapply sync_loop_spec; [done|done|done|done|]. pose proof (files_fuel _ _ _ _ _ Hf). lia.
Qed.
End sync.

(** ** Starting up *)

Notation full_info segs jf := (info_of segs jf (length (default [] (segs !! jf)))).
Definition chain_info (c : list Block) : BlockchainInfo :=
  match last c ≫= b_Header with
  | None => {| Height := 0; CurrentBlockHash := []; PreviousBlockHash := []; bci_LastBlockInSnapshot := None |}
  | Some h => {| Height := len c; CurrentBlockHash := BlockHeaderHash h; PreviousBlockHash := bh_PreviousHash h; bci_LastBlockInSnapshot := None |}
  end.
(** A running manager: everything on disk is complete and known to it. *)
Record mgr_at (segs : list (list bytes)) (jf : nat) (mgr : blockfileMgr) (c : list Block) (d : disk L) : Prop := {
  mo_files : files_ok (dk_dir d) c segs jf [];
  mo_current : (jf < length segs)%nat;
  mo_db : db_ok (dk_db d) c segs jf (length c);
  mo_saved : bindings (dk_db d) !! blkMgrInfoKey = Some (blockfilesInfo_marshal (full_info segs jf));
  mo_info : bm_blockfilesInfo mgr = full_info segs jf;
  mo_snapshot : bm_bootstrappingSnapshotInfo mgr = None;
  mo_writer : bm_currentFileWriter mgr = deriveBlockfilePath (Z.of_nat jf);
  mo_chain : bm_bcInfo mgr = chain_info c
}.
Definition mgr_ok (mgr : blockfileMgr) (c : list Block) (d : disk L) : Prop := ∃ segs jf, mgr_at segs jf mgr c d.

Lemma emit_save w c segs jf junk s n : files_ok (dk_dir (w_disk w)) c segs jf junk → db_ok (dk_db (w_disk w)) c segs jf s →
  (n ≤ length (default [] (segs !! jf)))%nat →
  ∃ w', emit w (save_op dbName (info_of segs jf n)) = Ok w' ∧ dk_dir (w_disk w') = dk_dir (w_disk w) ∧ db_ok (dk_db (w_disk w')) c segs jf s ∧
    bindings (dk_db (w_disk w')) !! blkMgrInfoKey = Some (blockfilesInfo_marshal (info_of segs jf n)) ∧ traced (disk_ok c) w w'.
Proof.
  intros Hf Hdb Hn. destruct (db_save _ _ _ _ _ _ Hdb Hn) as (db' & Hw & Hdb' & Hb).
  set (w' := {| w_disk := {| dk_dir := dk_dir (w_disk w); dk_db := db' |}; w_log := w_log w ++ [save_op dbName (info_of segs jf n)] |}).
  assert (He : emit w (save_op dbName (info_of segs jf n)) = Ok w') by (unfold emit, save_op; cbn [apply_disk_op]; by rewrite Hw).
  exists w'. split_and!; [done..|]. eapply traced_emit_whole; [done| | |by inversion 1]; exists segs, jf, junk, s; done.
Qed.

(** Both ways of finding out about the files arrive at the same. *)
Lemma load_info d c segs jf junk s : files_ok (dk_dir d) c segs jf junk → db_ok (dk_db d) c segs jf s →
  ∃ loaded, OrPanic (loadBlkfilesInfo dbName (dk_db d)) = Ok loaded ∧
    match loaded with None => OrPanic (constructBlockfilesInfo (dk_dir d)) | Some i => syncBlockfilesInfoFromFS (dk_dir d) i end = Ok (full_info segs jf).
Proof.
  intros Hf Hdb. pose proof (fo_image _ _ _ _ _ Hf) as Him. pose proof (do_info _ _ _ _ _ Hdb) as Hinfo. pose proof (fo_count _ _ _ _ _ Hf) as Hcount.
  unfold loadBlkfilesInfo, DBHandle_Get. rewrite ldb_Get_law, <-lookup_view. run. destruct (bindings (dk_db d) !! blkMgrInfoKey) as [v|].
  - destruct Hinfo as (n & Hn & ->). exists (Some (info_of segs jf n)). split.
    + rewrite blockfilesInfo_roundtrip; [by run|..].
      * cbn. pose proof (im_count _ _ _ _ Him). destruct (fo_current _ _ _ _ _ Hf) as [[-> ->]|?]; unfold len, two63 in *; cbn in *; lia.
      * cbn [latestFileSize info_of]. pose proof (len_nonneg (raws (take n (default [] (segs !! jf))))). split; [done|].
        destruct (segs !! jf) as [seg|] eqn:Hj; cbn [default from_option]; [unfold id|by cbn; rewrite take_nil].
        pose proof (proj1 (Forall_lookup _ _) (fo_sizes _ _ _ _ _ Hf) _ _ Hj) as Hsz. cbn beta in Hsz. rewrite <-(take_drop n seg), raws_app, len_app in Hsz.
        pose proof (len_nonneg (raws (drop n seg))). unfold two56, two63 in *. lia.
      * cbn [lastPersistedBlock info_of]. destruct (decide _); [unfold is_u64, two64; lia|]. pose proof (len_nonneg (concat (take jf segs))).
        assert (len (concat (take jf segs)) + Z.of_nat n ≤ len c) as Hle; [|unfold is_u64, two62, two64 in *; lia].
        destruct (segs !! jf) as [seg|] eqn:Hj; cbn in Hn.
        { pose proof (concat_full _ _ _ _ _ Him Hj) as Hc. rewrite (fo_bytes _ _ _ _ _ Hf) in Hc. apply (f_equal length) in Hc.
          rewrite length_fmap, length_app in Hc. unfold len. lia. }
        destruct (fo_current _ _ _ _ _ Hf) as [[-> ->]|?]; [cbn; rewrite len_nil; pose proof (len_nonneg c); lia|]. apply lookup_ge_None in Hj. lia.
    + apply (syncBlockfilesInfoFromFS_image _ _ _ junk); [done..|]. rewrite (fo_bytes _ _ _ _ _ Hf). unfold len. rewrite length_fmap.
      unfold len, two62, two64 in *. lia.
  - exists None. split; [done|]. destruct Hinfo as [Hs|Hl].
    + destruct (fo_current _ _ _ _ _ Hf) as [[-> ->]|?]; [|by rewrite Hs in *; cbn in *; lia]. by rewrite (constructBlockfilesInfo_empty _ junk).
    + rewrite (constructBlockfilesInfo_image _ segs jf junk); [by run|done..|]. rewrite (fo_bytes _ _ _ _ _ Hf). eapply chain_numbered, (fo_chain _ _ _ _ _ Hf).
Qed.

(** Opening the writer makes the file exist. *)
Lemma emit_open w c segs jf junk s : files_ok (dk_dir (w_disk w)) c segs jf junk → db_ok (dk_db (w_disk w)) c segs jf s →
  bindings (dk_db (w_disk w)) !! blkMgrInfoKey = Some (blockfilesInfo_marshal (full_info segs jf)) →
  ∃ w' segs' junk', emit w (OpenFile (deriveBlockfilePath (Z.of_nat jf))) = Ok w' ∧ dk_db (w_disk w') = dk_db (w_disk w) ∧
    files_ok (dk_dir (w_disk w')) c segs' jf junk' ∧ (jf < length segs')%nat ∧ db_ok (dk_db (w_disk w')) c segs' jf s ∧
    full_info segs' jf = full_info segs jf ∧ traced (disk_ok c) w w'.
Proof.
  intros Hf Hdb Hb. set (d' := newBlockfileWriter (dk_dir (w_disk w)) (deriveBlockfilePath (Z.of_nat jf))).
  set (w' := {| w_disk := {| dk_dir := d'; dk_db := dk_db (w_disk w) |}; w_log := w_log w ++ [OpenFile (deriveBlockfilePath (Z.of_nat jf))] |}).
  assert (Hall : ∃ segs' junk', files_ok d' c segs' jf junk' ∧ (jf < length segs')%nat ∧ db_ok (dk_db (w_disk w)) c segs' jf s ∧
    full_info segs' jf = full_info segs jf).
  { destruct (fo_current _ _ _ _ _ Hf) as [[-> ->]|Hlt].
    - exists [[]], []. split_and!; [by eapply files_open_first|cbn; lia| |done]. destruct Hdb as [Hi Hs _]. split; [done|done|]. rewrite Hb. by exists 0%nat.
    - exists segs, junk. unfold d'. by rewrite (image_open_same _ _ _ _ (fo_image _ _ _ _ _ Hf)). }
  destruct Hall as (segs' & junk' & Hf' & Hlt & Hdb' & Heq). exists w', segs', junk'.
  split_and!; [done..|]. eapply (traced_emit_whole _ _ (OpenFile _)); [done| | |by inversion 1]; [by exists segs, jf, junk, s|by exists segs', jf, junk', s].
Qed.
Lemma emit_truncate w c segs jf junk s : files_ok (dk_dir (w_disk w)) c segs jf junk → (jf < length segs)%nat → db_ok (dk_db (w_disk w)) c segs jf s →
  ∃ w', emit w (TruncateFile (deriveBlockfilePath (Z.of_nat jf)) (latestFileSize (full_info segs jf))) = Ok w' ∧ dk_db (w_disk w') = dk_db (w_disk w) ∧
    files_ok (dk_dir (w_disk w')) c segs jf [] ∧ traced (disk_ok c) w w'.
Proof.
  intros Hf Hlt Hdb. destruct (lookup_lt_is_Some_2 segs jf Hlt) as [seg Hseg].
  assert (latestFileSize (full_info segs jf) = len (raws seg)) as -> by (unfold info_of; rewrite Hseg; cbn; by rewrite firstn_all).
  pose proof (files_truncate _ _ _ _ _ Hf _ Hseg) as Hf'.
  eexists. split; [done|]. cbn. split_and!; [done..|]. eapply (traced_emit_whole _ _ (TruncateFile _ _)); [done| | |by inversion 1]; [by exists segs, jf, junk, s|by exists segs, jf, [], s].
Qed.

Lemma newBlockfileMgr_spec c d : disk_ok c d →
  ∃ mgr w, newBlockfileMgr indexItems dbName (at_start d) = Ok (mgr, w) ∧ mgr_ok mgr c (w_disk w) ∧ traced (disk_ok c) (at_start d) w.
Proof.
  intros (segs & jf & junk & s & Hf & Hdb). unfold newBlockfileMgr. cbn [w_disk at_start].
  destruct (load_info _ _ _ _ _ _ Hf Hdb) as (loaded & -> & Hload). run. rewrite Hload. run. clear loaded Hload.
  destruct (emit_save (at_start d) _ _ _ _ _ _ Hf Hdb (Nat.le_refl _)) as (w1 & -> & Hd1 & Hdb1 & Hb1 & Ht1). cbn [OrPanic]. run. cbn [w_disk at_start] in Hd1. rewrite <-Hd1 in Hf.
  change (latestFileNumber (full_info segs jf)) with (Z.of_nat jf).
  destruct (emit_open w1 _ _ _ _ _ Hf Hdb1 Hb1) as (w2 & segs2 & junk2 & -> & Hd2 & Hf2 & Hlt & Hdb2 & Hinfo & Ht2). cbn [OrPanic]. run. rewrite <-Hinfo in *. rewrite <-Hd2 in Hb1.
  destruct (emit_truncate w2 _ _ _ _ _ Hf2 Hlt Hdb2) as (w3 & -> & Hd3 & Hf3 & Ht3). cbn [OrPanic]. run. rewrite <-Hd3 in Hdb2, Hb1.
  unfold loadBootstrappingSnapshotInfo. rewrite (fo_snapshot _ _ _ _ _ Hf3). run.
  set (mgr0 := {| bm_blockfilesInfo := full_info segs2 jf; bm_bootstrappingSnapshotInfo := None;
    bm_currentFileWriter := deriveBlockfilePath (Z.of_nat jf);
    bm_bcInfo := {| Height := 0; CurrentBlockHash := []; PreviousBlockHash := []; bci_LastBlockInSnapshot := None |} |}).
  destruct (syncIndex_spec _ _ _ _ Hf3 Hlt mgr0 w3 s eq_refl Hdb2 eq_refl eq_refl) as (w4 & -> & Hd4 & Hdb4 & Hb4 & Ht4). run.
  rewrite <-Hd4 in Hf3. rewrite <-Hb4 in Hb1.
  assert (Ht : traced (disk_ok c) (at_start d) w4) by (eapply traced_trans; [done|]; eapply traced_trans; [done|]; by eapply traced_trans).
  destruct (lookup_lt_is_Some_2 segs2 jf Hlt) as [seg Hseg]. pose proof (full_info_spec _ _ _ _ Hf3 Hlt _ Hseg) as Hfull.
  assert (noBlockFiles (full_info segs2 jf) = bool_decide (len c = 0)) as -> by by rewrite Hfull.
  destruct (bool_decide (len c = 0)) eqn:Hc.
  - apply bool_decide_eq_true in Hc. exists mgr0, w4. split_and!; [done| |done]. exists segs2, jf. split; try done. by destruct c.
  - apply bool_decide_eq_false in Hc. assert (lastPersistedBlock (full_info segs2 jf) = len c - 1) as -> by (by rewrite Hfull; cbn; rewrite decide_False).
    destruct (last c) as [b|] eqn:Hlast; [|by apply last_None in Hlast; subst]. rewrite last_lookup in Hlast.
    destruct (retrieveBlockHeaderByNumber_spec (w_disk w4) c segs2 jf [] (length c) Hf3 (do_index _ _ _ _ _ Hdb4) mgr0 eq_refl (pred (length c)) b) as (h & Hh & Hr);
      [apply lookup_lt_Some in Hlast; lia|done|].
    pose proof (fo_count _ _ _ _ _ Hf3). pose proof (len_nonneg c). replace (Z.of_nat (pred (length c))) with (len c - 1) in Hr by (unfold len in *; lia).
    rewrite Hr. cbn [OrPanic]. run. rewrite Z.sub_add, u64_small by (unfold two62, two64 in *; lia). eexists _, w4. split_and!; [done| |done]. exists segs2, jf.
    split; try done. cbn. unfold chain_info. by rewrite last_lookup, Hlast; cbn; rewrite Hh.
Qed.

(** ** Adding a block *)

Lemma info_of_snoc segs jf n : (jf < length segs)%nat → info_of (segs ++ [[]]) jf n = info_of segs jf n.
Proof. intros Hlt. unfold info_of. by rewrite take_app_le, lookup_app_l by lia. Qed.
Lemma locs_snoc_nil segs : locs 0 (segs ++ [[]]) = locs 0 segs.
Proof. rewrite locs_app. cbn. by rewrite app_nil_r. Qed.

Lemma moveToNextFile_spec segs jf mgr c w seg : mgr_at segs jf mgr c (w_disk w) → segs !! jf = Some seg → seg ≠ [] →
  ∃ segs' mgr' w', moveToNextFile dbName mgr w = Ok (mgr', w') ∧ mgr_at segs' (S jf) mgr' c (w_disk w') ∧ segs' !! S jf = Some [] ∧
    traced (disk_ok c) w w'.
Proof.
  intros [Hf Hcur Hdb Hb Hinfo Hsn Hw Hc] Hseg Hne. destruct (files_open_next _ _ _ _ _ Hf _ Hseg Hne) as (segs' & Hf1 & Hsegs & Hnext).
  assert (Hlocs : locs 0 segs' = locs 0 segs) by (destruct Hsegs as [->| ->]; [done|apply locs_snoc_nil]).
  assert (Hseg' : segs' !! jf = Some seg) by (destruct Hsegs as [->| ->]; [done|by rewrite lookup_app_l]).
  assert (Hcne : len c ≠ 0).
  { intros Hc0. assert (c = []) as -> by (by destruct c). pose proof (concat_full _ _ _ _ _ (fo_image _ _ _ _ _ Hf) Hseg) as Hcc.
    rewrite (fo_bytes _ _ _ _ _ Hf) in Hcc. by destruct seg, (concat (take jf segs)). }
  pose proof (files_move _ _ _ _ _ Hf1 _ eq_refl Hseg' Hne Hnext) as Hf2. apply lookup_lt_Some in Hnext as Hlt.
  pose proof (full_info_spec _ _ _ _ Hf Hcur _ Hseg) as Hfull. pose proof (full_info_spec _ _ _ _ Hf2 Hlt _ Hnext) as Hfull2.
  unfold moveToNextFile. rewrite Hinfo, Hfull. cbn [latestFileNumber lastPersistedBlock]. rewrite (decide_False _ _ Hcne).
  replace (Z.of_nat jf + 1) with (Z.of_nat (S jf)) by lia.
  set (w1 := {| w_disk := {| dk_dir := newBlockfileWriter (dk_dir (w_disk w)) (deriveBlockfilePath (Z.of_nat (S jf))); dk_db := dk_db (w_disk w) |};
                w_log := w_log w ++ [OpenFile (deriveBlockfilePath (Z.of_nat (S jf)))] |}).
  assert (emit w (OpenFile (deriveBlockfilePath (Z.of_nat (S jf)))) = Ok w1) as -> by done. run.
  assert (Hdb1 : db_ok (dk_db (w_disk w1)) c segs' jf (length c)).
  { destruct Hdb as [Hi Hs Hd]. split; [by rewrite Hlocs|done|]. change (dk_db (w_disk w1)) with (dk_db (w_disk w)). rewrite Hb. exists (length seg). rewrite Hseg, Hseg'. split; [done|].
    destruct Hsegs as [->| ->]; [done|]. by rewrite info_of_snoc. }
  assert (Ht1 : traced (disk_ok c) w w1).
  { eapply (traced_emit_whole _ _ (OpenFile _)); [done| | |by inversion 1]; [by exists segs, jf, [], (length c)|by exists segs', jf, [], (length c)]. }
  assert (Hi2 : {| latestFileNumber := Z.of_nat (S jf); latestFileSize := 0; noBlockFiles := false; lastPersistedBlock := len c - 1 |} = full_info segs' (S jf)).
  { rewrite Hfull2, (bool_decide_false _ Hcne), (decide_False _ _ Hcne). done. }
  rewrite Hi2. destruct (db_put_info _ _ (blockfilesInfo_marshal (full_info segs' (S jf))) (do_index _ _ _ _ _ Hdb1)) as (db2 & Hwr & Hi' & Hb2).
  set (w2 := {| w_disk := {| dk_dir := dk_dir (w_disk w1); dk_db := db2 |}; w_log := w_log w1 ++ [save_op dbName (full_info segs' (S jf))] |}).
  assert (He2 : emit w1 (save_op dbName (full_info segs' (S jf))) = Ok w2) by (unfold emit, save_op; cbn [apply_disk_op]; by rewrite Hwr).
  assert (Hdb2 : db_ok db2 c segs' (S jf) (length c)) by (split; [done|done|rewrite Hb2; by eauto]).
  rewrite He2. cbn [OrPanic]. run. eexists segs', _, w2. split_and!; [done|by split|done|].
  eapply traced_trans; [done|]. eapply traced_emit_whole; [done| | |by inversion 1]; [by exists segs', jf, [], (length c)|by exists segs', (S jf), [], (length c)].
Qed.

(** What is left of a block that is being added: nothing, or all of it. *)
Definition added_or_not (c : list Block) (b : Block) (d : disk L) : Prop := disk_ok c d ∨ disk_ok (c ++ [b]) d.

Section append.
Context (segs : list (list bytes)) (jf : nat) (mgr : blockfileMgr) (c : list Block) (d : disk L) (Hm : mgr_at segs jf mgr c d).
Context (b : Block) (h : BlockHeader) (data md txids : list bytes) (Hs : storable b h data md txids) (Hn : bh_Number h = Z.of_nat (length c)).
Context (Hcount : len c < two62) (seg : list bytes) (Hseg : segs !! jf = Some seg).
Context (Hfits : len (raws seg) + len (raw (frame b)) ≤ maxBlockfileSize).
Notation name := (deriveBlockfilePath (Z.of_nat jf)).
Notation segs' := (<[jf := seg ++ [frame b]]> segs).

Lemma append_whole : files_ok (append_file (dk_dir d) name (raw (frame b))) (c ++ [b]) segs' jf [] ∧ db_ok (dk_db d) (c ++ [b]) segs' jf (length c).
Proof.
  destruct Hm as [Hf Hcur Hdb Hb _ _ _ _]. split.
  - by eapply files_append_whole.
  - pose proof (length_places _ _ _ _ _ Hf) as Hl. destruct Hdb as [Hi Hle Hinfo]. split.
    + rewrite (locs_snoc _ _ _ _ _ _ (fo_image _ _ _ _ _ Hf) Hseg), fmap_app, take_app_le by (rewrite length_fmap; lia). done.
    + rewrite length_app. lia.
    + rewrite Hb. exists (length seg). rewrite list_lookup_insert_eq by done. cbn. rewrite length_app. split; [lia|].
      unfold info_of. rewrite Hseg, list_lookup_insert_eq, take_insert_ge by done. cbn. by rewrite firstn_all, take_app_length.
Qed.
Lemma append_crash y : y `prefix_of` raw (frame b) → added_or_not c b {| dk_dir := append_file (dk_dir d) name y; dk_db := dk_db d |}.
Proof.
  intros [rest Hy]. destruct (decide (rest = [])) as [->|Hne].
  - right. rewrite app_nil_r in Hy. rewrite <-Hy. exists segs', jf, [], (length c). apply append_whole.
  - left. destruct Hm as [Hf Hcur Hdb _ _ _ _ _]. exists segs, jf, y, (length c). split; [|done].
    apply (files_append_part _ _ _ _ _ Hf); [done|]. exists (frame b), rest. split_and!; [by eapply storable_small|done|done].
Qed.
Lemma emit_append w x y : w_disk w = {| dk_dir := append_file (dk_dir d) name x; dk_db := dk_db d |} → x ++ y `prefix_of` raw (frame b) →
  ∃ w', emit w (AppendFile name y) = Ok w' ∧ w_disk w' = {| dk_dir := append_file (dk_dir d) name (x ++ y); dk_db := dk_db d |} ∧
    traced (added_or_not c b) w w'.
Proof.
  intros Hd Hp.
  set (w' := {| w_disk := {| dk_dir := append_file (dk_dir d) name (x ++ y); dk_db := dk_db d |}; w_log := w_log w ++ [AppendFile name y] |}).
  assert (He : ∀ z, apply_disk_op (w_disk w) (AppendFile name z) = Ok {| dk_dir := append_file (dk_dir d) name (x ++ z); dk_db := dk_db d |}).
  { intros z. cbn [apply_disk_op]. rewrite Hd. cbn [dk_dir dk_db]. by rewrite append_append. }
  assert (He' : emit w (AppendFile name y) = Ok w') by (unfold emit; by rewrite He).
  exists w'. split_and!; [done..|]. eapply traced_emit; [done| | |].
  - rewrite Hd. apply append_crash. etrans; [|done]. by eexists.
  - by apply append_crash.
  - intros o' d' Hy'. inversion Hy' as [? ? y' Hy''|]; simplify_eq. rewrite He. intros [= <-]. apply append_crash. etrans; [|done].
    destruct Hy'' as [r ->]. exists r. by rewrite app_assoc.
Qed.
Lemma emit_append_truncate w x : w_disk w = {| dk_dir := append_file (dk_dir d) name x; dk_db := dk_db d |} → x `prefix_of` raw (frame b) →
  ∃ w', emit w (TruncateFile name (latestFileSize (bm_blockfilesInfo mgr))) = Ok w' ∧ w_disk w' = d ∧ traced (added_or_not c b) w w'.
Proof.
  intros Hd Hp. destruct Hm as [Hf Hcur Hdb Hb Hinfo _ _ _]. rewrite Hinfo, (full_info_spec _ _ _ _ Hf Hcur _ Hseg). cbn [latestFileSize].
  assert (Hfile : dk_dir d !! name = Some (raws seg)).
  { rewrite (im_file _ _ _ _ (fo_image _ _ _ _ _ Hf) _ _ Hseg). rewrite decide_True by done. by rewrite app_nil_r. }
  assert (Hback : truncateFile (dk_dir (w_disk w)) name (len (raws seg)) = dk_dir d) by (rewrite Hd; by apply truncate_append).
  set (w' := {| w_disk := d; w_log := w_log w ++ [TruncateFile name (len (raws seg))] |}).
  assert (He : emit w (TruncateFile name (len (raws seg))) = Ok w').
  { unfold emit. cbn [apply_disk_op]. rewrite Hback, Hd. cbn [dk_db]. by destruct d. }
  exists w'. split_and!; [done..|]. eapply traced_emit_whole; [done|by rewrite Hd; apply append_crash| |by inversion 1].
  left. exists segs, jf, [], (length c). done.
Qed.
(** After the whole block is written the rest is done. *)
Lemma complete_block w : w_disk w = {| dk_dir := append_file (dk_dir d) name (raw (frame b)); dk_db := dk_db d |} →
  ∃ w1 batch w2, emit w (save_op dbName (full_info segs' jf)) = Ok w1 ∧
    index_batch indexItems dbName (entry (Z.of_nat jf, len (raws seg), frame b)) = Ok (Some batch) ∧ emit w1 (WriteDB (lb_ops batch)) = Ok w2 ∧
    files_ok (dk_dir (w_disk w2)) (c ++ [b]) segs' jf [] ∧ db_ok (dk_db (w_disk w2)) (c ++ [b]) segs' jf (length (c ++ [b])) ∧
    bindings (dk_db (w_disk w2)) !! blkMgrInfoKey = Some (blockfilesInfo_marshal (full_info segs' jf)) ∧
    traced (disk_ok (c ++ [b])) w w1 ∧ traced (disk_ok (c ++ [b])) w w2.
Proof.
  intros Hd. destruct append_whole as [Hf' Hdb']. assert (Hfd : dk_dir (w_disk w) = append_file (dk_dir d) name (raw (frame b))) by by rewrite Hd.
  assert (Hdd : dk_db (w_disk w) = dk_db d) by by rewrite Hd. rewrite <-Hfd in Hf'. rewrite <-Hdd in Hdb'.
  destruct (emit_save w _ _ _ _ _ _ Hf' Hdb' (Nat.le_refl _)) as (w1 & He1 & Hd1 & Hdb1 & Hb1 & Ht1). rewrite <-Hd1 in Hf'.
  assert (Hp : locs 0 segs' !! length c = Some (Z.of_nat jf, len (raws seg), frame b)).
  { destruct Hm as [Hf _ _ _ _ _ _ _]. rewrite (locs_snoc _ _ _ _ _ _ (fo_image _ _ _ _ _ Hf) Hseg).
    rewrite lookup_app_r by (rewrite (length_places _ _ _ _ _ Hf); lia). by rewrite (length_places _ _ _ _ _ Hf), Nat.sub_diag. }
  destruct (emit_index _ _ _ _ Hf' w1 _ _ eq_refl Hdb1 Hp) as (batch & w2 & Hb2 & He2 & Hd2 & Hdb2 & Hk2 & Ht2).
  exists w1, batch, w2. rewrite length_app, Nat.add_1_r. split_and!; [done|done|done|by rewrite Hd2|done|by rewrite Hk2|done|by eapply traced_trans].
Qed.
(** What the manager then knows. *)
Lemma append_info : {| latestFileNumber := latestFileNumber (bm_blockfilesInfo mgr);
    latestFileSize := latestFileSize (bm_blockfilesInfo mgr) + (len (frame b) + len (EncodeVarint (len (frame b))));
    noBlockFiles := false; lastPersistedBlock := bh_Number h |} = full_info segs' jf.
Proof.
  destruct append_whole as [Hf' _]. assert (Hlt : (jf < length segs')%nat) by (rewrite length_insert; by eapply lookup_lt_Some).
  rewrite (mo_info _ _ _ _ _ Hm), (full_info_spec _ _ _ _ (mo_files _ _ _ _ _ Hm) (mo_current _ _ _ _ _ Hm) _ Hseg).
  rewrite (full_info_spec _ _ _ _ Hf' Hlt (seg ++ [frame b])) by (apply list_lookup_insert_eq; by eapply lookup_lt_Some).
  cbn [latestFileNumber latestFileSize]. pose proof (len_nonneg c). assert (Hne : len (c ++ [b]) ≠ 0) by (rewrite len_app; change (len [b]) with 1; lia).
  rewrite (bool_decide_false _ Hne), (decide_False _ _ Hne), raws_app, raws_one, !len_app. unfold raw. rewrite len_app. change (len [b]) with 1.
  rewrite Hn. unfold len. f_equal; lia.
Qed.
End append.

Lemma chain_info_height c : chain c → Height (chain_info c) = len c.
Proof.
  intros Hc. unfold chain_info. destruct (last c) as [b|] eqn:Hl; [|by apply last_None in Hl as ->]. cbn. rewrite last_lookup in Hl.
  destruct (Hc _ _ Hl) as (h & data & md & txids & Hs & _). by rewrite (ser_header _ _ _ _ _ (sto_serializable _ _ _ _ _ Hs)).
Qed.
Lemma chain_info_snoc c b h : b_Header b = Some h → chain_info (c ++ [b]) =
  {| Height := len c + 1; CurrentBlockHash := BlockHeaderHash h; PreviousBlockHash := bh_PreviousHash h; bci_LastBlockInSnapshot := None |}.
Proof. intros Hh. unfold chain_info. rewrite last_snoc. cbn. rewrite Hh, len_app. done. Qed.

(** A new file is begun when the block does not fit the current one. *)
Lemma choose_file segs jf mgr c w b h data md txids : mgr_at segs jf mgr c (w_disk w) → storable b h data md txids →
  ∃ segs1 jf1 seg1 mgr1 w1,
    (if decide (latestFileSize (bm_blockfilesInfo mgr) + (len (frame b) + len (EncodeVarint (len (frame b)))) > maxBlockfileSize)
     then '(mgr, w) ← moveToNextFile dbName mgr w; Ok (mgr, w, 0)
     else Ok (mgr, w, latestFileSize (bm_blockfilesInfo mgr))) = Ok (mgr1, w1, len (raws seg1)) ∧
    mgr_at segs1 jf1 mgr1 c (w_disk w1) ∧ segs1 !! jf1 = Some seg1 ∧ len (raws seg1) + len (raw (frame b)) ≤ maxBlockfileSize ∧
    bm_bcInfo mgr1 = bm_bcInfo mgr ∧ traced (disk_ok c) w w1.
Proof.
  intros Hm Hs. pose proof (sto_fits _ _ _ _ _ Hs) as Hfits. rewrite <-(frame_storable _ _ _ _ _ Hs) in Hfits.
  assert (Hraw : len (raw (frame b)) = len (frame b) + len (EncodeVarint (len (frame b)))) by (unfold raw; rewrite len_app; lia).
  destruct (lookup_lt_is_Some_2 segs jf (mo_current _ _ _ _ _ Hm)) as [seg Hseg].
  assert (Hsize : latestFileSize (bm_blockfilesInfo mgr) = len (raws seg)).
  { rewrite (mo_info _ _ _ _ _ Hm). by rewrite (full_info_spec _ _ _ _ (mo_files _ _ _ _ _ Hm) (mo_current _ _ _ _ _ Hm) _ Hseg). }
  rewrite Hsize. destruct (decide _) as [Hbig|Hok].
  - assert (seg ≠ []) as Hne by (intros ->; change (len (raws [])) with 0 in *; lia).
    destruct (moveToNextFile_spec _ _ _ _ _ _ Hm Hseg Hne) as (segs' & mgr' & w' & Hmv & Hm' & Hnext & Ht).
    exists segs', (S jf), [], mgr', w'. rewrite Hmv. change (len (raws [])) with 0. split_and!; [by run|done|done|lia| |done].
    by rewrite (mo_chain _ _ _ _ _ Hm), (mo_chain _ _ _ _ _ Hm').
  - exists segs, jf, seg, mgr, w. split_and!; [done..|lia|done|]. destruct Hm. apply traced_refl. by exists segs, jf, [], (length c).
Qed.

Lemma append_nothing segs jf mgr c d : mgr_at segs jf mgr c d → d = {| dk_dir := append_file (dk_dir d) (deriveBlockfilePath (Z.of_nat jf)) []; dk_db := dk_db d |}.
Proof.
  intros Hm. destruct (lookup_lt_is_Some_2 segs jf (mo_current _ _ _ _ _ Hm)) as [seg Hseg].
  assert (Hfile : dk_dir d !! deriveBlockfilePath (Z.of_nat jf) = Some (raws seg)).
  { rewrite (im_file _ _ _ _ (fo_image _ _ _ _ _ (mo_files _ _ _ _ _ Hm)) _ _ Hseg). rewrite decide_True by done. by rewrite app_nil_r. }
  unfold append_file. rewrite Hfile. cbn [default from_option id]. rewrite app_nil_r, insert_id by done. by destruct d.
Qed.

Lemma addBlock_spec io mgr c d b h data md txids : mgr_ok mgr c d → storable b h data md txids → len c < two62 →
  bh_Number h = Height (bm_bcInfo mgr) → bh_PreviousHash h = CurrentBlockHash (bm_bcInfo mgr) →
  ∃ ok mgr' w, addBlock indexItems dbName maxBlockfileSize io mgr b (at_start d) = Ok (ok, mgr', w) ∧ (ok = true ↔ io = IoOk) ∧
    (io ≠ IoIndexFails → mgr_ok mgr' (if ok then c ++ [b] else c) (w_disk w)) ∧ traced (added_or_not c b) (at_start d) w.
Proof.
  intros (segs0 & jf0 & Hm0) Hs Hcount Hn Hprev. pose proof (ser_header _ _ _ _ _ (sto_serializable _ _ _ _ _ Hs)) as Hh.
  pose proof (ser_metadata _ _ _ _ _ (sto_serializable _ _ _ _ _ Hs)) as Hmd.
  unfold addBlock. rewrite Hh. cbn [deref]. run. rewrite decide_False by (by intros []). rewrite decide_False by (by intros []).
  rewrite (serializeBlock_spec _ _ _ _ _ (sto_serializable _ _ _ _ _ Hs)), <-(frame_storable _ _ _ _ _ Hs). run.
  destruct (choose_file _ _ _ _ (at_start d) _ _ _ _ _ Hm0 Hs) as (segs & jf & seg & mgr1 & w1 & -> & Hm & Hseg & Hfits & Hbc & Ht1). run.
  apply (traced_weaken _ (added_or_not c b)) in Ht1; [|by left]. rewrite (mo_writer _ _ _ _ _ Hm).
  rewrite (mo_chain _ _ _ _ _ Hm0), (chain_info_height c) in Hn by apply Hm0.
  assert (Htr : ∀ w x, w_disk w = {| dk_dir := append_file (dk_dir (w_disk w1)) (deriveBlockfilePath (Z.of_nat jf)) x; dk_db := dk_db (w_disk w1) |} →
    x `prefix_of` raw (frame b) → traced (added_or_not c b) (at_start d) w → io ≠ IoOk → ∃ ok mgr' w',
    (w' ← emit w (TruncateFile (deriveBlockfilePath (Z.of_nat jf)) (latestFileSize (bm_blockfilesInfo mgr1))); Ok (false, mgr1, w')) = Ok (ok, mgr', w') ∧
    (ok = true ↔ io = IoOk) ∧ (io ≠ IoIndexFails → mgr_ok mgr' (if ok then c ++ [b] else c) (w_disk w')) ∧ traced (added_or_not c b) (at_start d) w').
  { intros w x Hd Hp Ht Hio. destruct (emit_append_truncate _ _ _ _ _ Hm _ _ _ _ _ Hs Hn Hcount _ Hseg Hfits w x Hd Hp) as (w' & -> & Hd' & Ht'). run.
    exists false, mgr1, w'. split_and!; [done|done| |by eapply traced_trans]. intros _. exists segs, jf. by rewrite Hd'. }
  destruct (emit_append _ _ _ _ _ Hm _ _ _ _ _ Hs Hn Hcount _ Hseg Hfits w1 [] (io_length io (EncodeVarint (len (frame b)))).1) as (w2 & He2 & Hd2 & Ht2).
  { by eapply append_nothing. }
  { unfold raw. apply prefix_app_r. destruct io; cbn; try done. apply prefix_take. }
  assert (Ht2' : traced (added_or_not c b) (at_start d) w2) by (by eapply traced_trans).
  assert ((∃ n, io = IoLengthFails n) ∨ io_length io (EncodeVarint (len (frame b))) = (EncodeVarint (len (frame b)), true)) as [[n ->]|Hl] by (destruct io; eauto).
  { cbn [io_length fst] in *. rewrite He2. run. cbn [negb]. eapply Htr; [done| |done|done]. unfold raw. apply prefix_app_r, prefix_take. }
  rewrite Hl in *. cbn [fst app] in *. rewrite He2. run. cbn [negb].
  destruct (emit_append _ _ _ _ _ Hm _ _ _ _ _ Hs Hn Hcount _ Hseg Hfits w2 (EncodeVarint (len (frame b))) (io_block io (frame b)).1 Hd2) as (w3 & He3 & Hd3 & Ht3).
  { unfold raw. apply prefix_app. destruct io; cbn; try done. apply prefix_take. }
  assert (Ht3' : traced (added_or_not c b) (at_start d) w3) by (by eapply traced_trans).
  assert ((∃ n, io = IoBlockFails n) ∨ io_block io (frame b) = (frame b, true)) as [[n ->]|Hb] by (destruct io; eauto).
  { cbn [io_block fst] in *. rewrite He3. run. cbn [negb]. eapply Htr; [done| |done|done]. unfold raw. apply prefix_app, prefix_take. }
  rewrite Hb in *. cbn [fst] in *. rewrite He3. run. cbn [negb]. fold (raw (frame b)) in Hd3.
  destruct (io_save_fails io) eqn:Hio3; [eapply Htr; [done|done|done|by destruct io]|].
  destruct (complete_block _ _ _ _ _ Hm _ _ _ _ _ Hs Hn Hcount _ Hseg Hfits w3 Hd3) as (w4 & batch & w5 & He4 & Hbatch & He5 & Hf5 & Hdb5 & Hb5 & Ht4 & Ht5).
  apply (traced_weaken _ (added_or_not c b)) in Ht4, Ht5; [|by right..].
  pose proof (append_info _ _ _ _ _ Hm _ _ _ _ _ Hs Hn Hcount _ Hseg Hfits) as Hnew.
  rewrite Hnew, He4. run. rewrite Hmd. cbn [deref]. run.
  change (latestFileNumber (full_info (<[jf:=seg ++ [frame b]]> segs) jf)) with (Z.of_nat jf). cbn [sbi_txOffsets block_info].
  rewrite <-(entry_storable _ _ _ _ _ (Z.of_nat jf) (len (raws seg)) Hs), Hbatch.
  destruct (io_index_fails io (Some batch)) eqn:Hio4.
  - exists false, mgr1, w4. split_and!; [done|by destruct io|by destruct io|by eapply traced_trans].
  - rewrite He5. run. eexists true, _, w5. split_and!; [done| | |by eapply traced_trans].
    + split; [|done]. intros _. destruct io; done.
    + intros _. exists (<[jf := seg ++ [frame b]]> segs), jf. split; try done; [rewrite length_insert; apply Hm|apply Hm|]. cbn [bm_bcInfo].
      rewrite (mo_chain _ _ _ _ _ Hm), (chain_info_snoc _ _ _ Hh). unfold updateBlockchainInfo. rewrite chain_info_height by apply Hm.
      pose proof (len_nonneg c). rewrite u64_small by (unfold two62, two64 in *; lia). f_equal.
      unfold chain_info. by destruct (last c ≫= b_Header).
Qed.
End chain.
