(* ===== verification/BlockServe.v ===== *)
(** * What the block store serves

  A running manager that knows everything on its disk answers every query about
  the blocks: by number, by hash, by transaction ID and by position. *)

From S2P Require Import Prelude SortedMap Encoding Version Separated Proto Rwset LiteRwset LevelDB Block BlockSerial BlockFiles BlockIndex BlockStore BlockRecovery.
From stdpp Require Import options.
Local Open Scope Z_scope.
Set Default Proof Using "Type*".

Section serve.
Context {L : Type} `{!GoLevelDB L} `{!GoLevelDBLaws L} `{!Sha256} `{!ProtoMessage TxIDIndexValue} `{!TxIDIndexValueLaws}.
Context `{!ProtoMessage BootstrappingSnapshotInfo}.
Context `{!ProtoMessage Envelope, !ProtoMessage Payload, !ProtoMessage ChannelHeader, !ProtoMessage SignatureHeader}.
Context (indexItems : list IndexableAttr) (dbName : bytes) (maxBlockfileSize : Z).
Notation bindings db := (view (contents db) dbName).
Notation storable := (storable indexItems maxBlockfileSize).
Notation chain := (chain indexItems maxBlockfileSize).
Notation mgr_ok := (mgr_ok indexItems dbName maxBlockfileSize).
Notation disk_ok := (disk_ok indexItems dbName maxBlockfileSize).

(** ** What a store serves *)

Definition block_data (b : Block) : list bytes := default [] (b_Data b).
Definition block_txids (b : Block) : list bytes := match mapM txid_or_empty (block_data b) with Ok l => l | _ => [] end.
(** The transaction at position [k] of block [j] of [c], with its ID. *)
Definition tx_at (c : list Block) (j k : nat) (b : Block) (tx txid : bytes) : Prop :=
  c !! j = Some b ∧ block_data b !! k = Some tx ∧ block_txids b !! k = Some txid.
Definition first_at (c : list Block) (j k : nat) (b : Block) (tx txid : bytes) : Prop :=
  tx_at c j k b tx txid ∧ ∀ j' k' b' tx', tx_at c j' k' b' tx' txid → (j < j')%nat ∨ (j = j' ∧ k ≤ k')%nat.
(** The code of a transaction in the metadata of its block. *)
Definition block_code (b : Block) (k : nat) : Z :=
  from_option byteZ 0 (default [] (default [] (b_Metadata b) !! BlockMetadataIndex_TRANSACTIONS_FILTER) !! k).
Definition block_hash (b : Block) : option bytes := BlockHeaderHash <$> b_Header b.

(** The store holds exactly the blocks [c]. *)
Record serves (mgr : blockfileMgr) (d : disk L) (c : list Block) : Prop := {
  sv_info : bm_bcInfo mgr = chain_info c;
  sv_block j b : c !! j = Some b → retrieveBlockByNumber indexItems dbName mgr d (Z.of_nat j) = Ok (typeless b);
  sv_last b : last c = Some b → retrieveBlockByNumber indexItems dbName mgr d MaxUint64 = Ok (typeless b);
  sv_beyond n : len c ≤ n < MaxUint64 → retrieveBlockByNumber indexItems dbName mgr d n = Err "no such block number in index";
  sv_hash j b hash : IndexableAttrBlockHash ∈ indexItems → c !! j = Some b → block_hash b = Some hash →
    (∀ j' b', c !! j' = Some b' → block_hash b' = Some hash → j' = j) → retrieveBlockByHash indexItems dbName d hash = Ok (typeless b);
  sv_tx j k b tx txid : IndexableAttrBlockNumTranNum ∈ indexItems → tx_at c j k b tx txid →
    retrieveTransactionByBlockNumTranNum indexItems dbName mgr d (Z.of_nat j) (Z.of_nat k) = GetEnvelopeFromBlock tx;
  sv_txid j k b tx txid : IndexableAttrTxID ∈ indexItems → first_at c j k b tx txid →
    retrieveTransactionByID indexItems dbName d txid = GetEnvelopeFromBlock tx ∧
    retrieveBlockByTxID indexItems dbName d txid = Ok (typeless b) ∧
    retrieveTxValidationCodeByTxID indexItems dbName d txid = Ok (block_code b k, Z.of_nat j);
  sv_exists txid : IndexableAttrTxID ∈ indexItems → len txid < two64 →
    ∃ found, txIDExists indexItems dbName d txid = Ok found ∧ (found = true ↔ ∃ j k b tx, tx_at c j k b tx txid)
}.

Context (Hmax : 0 ≤ maxBlockfileSize < two56) (Hnum : IndexableAttrBlockNum ∈ indexItems) (Hname : x00 ∉ dbName).

Section served.
Context (mgr : blockfileMgr) (c : list Block) (d : disk L) (segs : list (list bytes)) (jf : nat)
  (Hm : mgr_at indexItems dbName maxBlockfileSize segs jf mgr c d).
Notation entries := (take (length c) (entry <$> locs 0 segs)).

Lemma served_index : index_of indexItems dbName (dk_db d) entries.
Proof. apply Hm. Qed.
Lemma served_files : files_ok indexItems maxBlockfileSize (dk_dir d) c segs jf [].
Proof. apply Hm. Qed.
Lemma served_entry j b : c !! j = Some b → ∃ p o, locs 0 segs !! j = Some (p, o, frame b) ∧ entries !! j = Some (entry (p, o, frame b)).
Proof. intros Hj. eapply (entry_at _ _ _ Hmax Hnum d c segs jf [] _ served_files served_index); [by eapply lookup_lt_Some|done]. Qed.
Lemma entry_served j i : entries !! j = Some i → ∃ b p o, c !! j = Some b ∧ locs 0 segs !! j = Some (p, o, frame b) ∧ i = entry (p, o, frame b).
Proof.
  intros [Hj Hlt]%lookup_take_Some. apply list_lookup_fmap_Some in Hj as ([[p o] x] & -> & Hp).
  destruct (place_block _ _ Hmax _ _ _ _ _ served_files _ _ _ _ Hp) as (b & Hb & ->). by exists b, p, o.
Qed.
Lemma served_storable j b : c !! j = Some b → ∃ h md txids, storable b h (block_data b) md txids ∧ block_txids b = txids ∧ b_Metadata b = Some md ∧ b_Header b = Some h.
Proof.
  intros Hj. destruct (fo_chain _ _ _ _ _ _ _ served_files _ _ Hj) as (h & data & md & txids & Hs & _).
  pose proof (sto_serializable _ _ _ _ _ _ _ Hs) as Hser. unfold block_txids, block_data. rewrite (ser_data _ _ _ _ _ Hser). cbn.
  rewrite (ser_txids _ _ _ _ _ Hser). exists h, md, txids. split_and!; [done|done|apply Hser|apply Hser].
Qed.

(** The transactions of the index are those of the blocks. *)
Lemma occurs_iff txid j k : (∃ i t, occurs entries txid j k i t) ↔ ∃ b tx, tx_at c j k b tx txid.
Proof.
  split.
  - intros (i & t & Hi & Ht & Hid). destruct (entry_served _ _ Hi) as (b & p & o & Hb & Hp & ->). exists b.
    destruct (served_storable _ _ Hb) as (h & md & txids & Hs & Htx & _). pose proof Ht as Hk. apply lookup_lt_Some in Hk.
    rewrite (entry_storable _ _ _ _ _ _ _ _ _ Hs) in Hk. cbn [bii_txOffsets] in Hk. unfold shift_locs in Hk.
    destruct (storable_lengths _ _ Hmax _ _ _ _ _ Hs) as [Hl _]. rewrite length_fmap, length_tx_locs in Hk by done.
    destruct (lookup_lt_is_Some_2 (block_data b) k Hk) as [tx Htxk]. destruct (lookup_lt_is_Some_2 txids k) as [id Hidk]; [lia|].
    exists tx. destruct (storable_tx _ _ Hmax _ _ _ _ _ k tx id Hs Htxk Hidk p o) as (t' & Ht' & Hid' & _). simplify_eq. split_and!; [done..|]. congruence.
  - intros (b & tx & Hb & Htx & Hid). destruct (served_entry _ _ Hb) as (p & o & Hp & He). destruct (served_storable _ _ Hb) as (h & md & txids & Hs & Ht & _).
    rewrite Ht in Hid. destruct (storable_tx _ _ Hmax _ _ _ _ _ k tx txid Hs Htx Hid p o) as (t & Hk & Hid' & _). exists (entry (p, o, frame b)), t. done.
Qed.
Lemma occurs_tx txid j k b tx : tx_at c j k b tx txid → ∃ i t, occurs entries txid j k i t ∧
  fetchBlock (dk_dir d) (bii_flp i) = Ok (typeless b) ∧ fetchTransactionEnvelope (dk_dir d) (tx_flp i t) = GetEnvelopeFromBlock tx ∧
  tx_code i k = block_code b k.
Proof.
  intros (Hb & Htx & Hid). destruct (served_entry _ _ Hb) as (p & o & Hp & He). destruct (served_storable _ _ Hb) as (h & md & txids & Hs & Ht & Hmd & _).
  rewrite Ht in Hid. destruct (fetchTransactionEnvelope_place _ _ _ Hmax Hnum d _ _ _ _ _ served_files served_index _ _ _ _ _ _ _ _ _ _ _ Hp Hs Htx Hid) as (t & Hk & Hid' & Hfetch).
  exists (entry (p, o, frame b)), t. split_and!; [done| |done|].
  - unfold fetchBlock. rewrite (fetchBlockBytes_place _ _ _ Hmax Hnum d _ _ _ _ _ served_files served_index _ _ _ _ Hp). run. rewrite (frame_storable _ _ _ _ _ _ _ Hs).
    eapply deserializeBlock_spec, Hs.
  - rewrite (entry_storable _ _ _ _ _ _ _ _ _ Hs). unfold tx_code, block_code. cbn. by rewrite Hmd.
Qed.

Lemma served_txid j k b tx txid : IndexableAttrTxID ∈ indexItems → first_at c j k b tx txid →
  retrieveTransactionByID indexItems dbName d txid = GetEnvelopeFromBlock tx ∧
  retrieveBlockByTxID indexItems dbName d txid = Ok (typeless b) ∧
  retrieveTxValidationCodeByTxID indexItems dbName d txid = Ok (block_code b k, Z.of_nat j).
Proof.
  intros Ha [Htx Hfirst]. destruct (occurs_tx _ _ _ _ _ Htx) as (i & t & Ho & Hblock & Henv & Hcode).
  assert (Hval : getTxIDVal indexItems dbName (dk_db d) txid = Ok (tx_value i k t, Z.of_nat j)).
  { eapply getTxIDVal_spec; [exact served_index|done|done|done|]. intros j' k' i' t' Ho'.
    destruct (proj1 (occurs_iff txid j' k')) as (b' & tx' & ?); [by eauto|]. by eapply Hfirst. }
  destruct Ho as (Hi & Ht & Hid). assert (Hix : indexable indexItems i) by (eapply Forall_lookup_1; [apply (io_indexable _ _ _ _ served_index)|done]).
  unfold retrieveTransactionByID, getTxLoc, retrieveBlockByTxID, getBlockLocByTxID, retrieveTxValidationCodeByTxID, getTxValidationCodeByTxID.
  rewrite Hval. run. unfold tx_value. cbn [TxLocation BlkLocation TxValidationCode]. rewrite !fileLocPointer_roundtrip; [run; by rewrite Hcode|apply Hix|].
  apply (ix_tx_flp _ _ Hix). by eapply list_elem_of_lookup_2.
Qed.
Lemma served_hash j b hash : IndexableAttrBlockHash ∈ indexItems → c !! j = Some b → block_hash b = Some hash →
  (∀ j' b', c !! j' = Some b' → block_hash b' = Some hash → j' = j) → retrieveBlockByHash indexItems dbName d hash = Ok (typeless b).
Proof.
  intros Ha Hb Hh Hu. destruct (served_entry _ _ Hb) as (p & o & Hp & He). destruct (served_storable _ _ Hb) as (h & md & txids & Hs & _ & _ & Hhd).
  assert (Hash : ∀ j i, entries !! j = Some i → ∃ b, c !! j = Some b ∧ block_hash b = Some (bii_blockHash i)).
  { intros j' i (b' & p' & o' & Hb' & _ & ->)%entry_served. exists b'. split; [done|].
    destruct (served_storable _ _ Hb') as (h' & md' & txids' & Hs' & _ & _ & Hh'). unfold block_hash. rewrite Hh'.
    by rewrite (entry_storable _ _ _ _ _ _ _ _ _ Hs'). }
  destruct (Hash _ _ He) as (b' & Hb' & Hhb). assert (b' = b) as -> by congruence.
  assert (Hhe : bii_blockHash (entry (p, o, frame b)) = hash) by congruence. unfold retrieveBlockByHash. rewrite <-Hhe. rewrite (getBlockLocByHash_spec _ _ _ _ served_index (entry (p, o, frame b)) Ha).
  - run. unfold fetchBlock. rewrite (fetchBlockBytes_place _ _ _ Hmax Hnum d _ _ _ _ _ served_files served_index _ _ _ _ Hp). run.
    rewrite (frame_storable _ _ _ _ _ _ _ Hs). eapply deserializeBlock_spec, Hs.
  - by eapply list_elem_of_lookup_2.
  - intros i' [j' Hi']%list_elem_of_lookup_1 Heq. destruct (Hash _ _ Hi') as (b' & Hb'' & Hhb'). rewrite Heq, Hhe in Hhb'.
    rewrite (Hu _ _ Hb'' Hhb') in Hi'. by simplify_eq.
Qed.
Lemma served_number j b : c !! j = Some b → retrieveBlockByNumber indexItems dbName mgr d (Z.of_nat j) = Ok (typeless b).
Proof.
  intros Hb. eapply (retrieveBlockByNumber_spec _ _ _ Hmax Hnum d _ _ _ _ _ served_files served_index mgr (mo_snapshot _ _ _ _ _ _ _ _ Hm)); [by eapply lookup_lt_Some|done].
Qed.
Lemma served_last b : last c = Some b → retrieveBlockByNumber indexItems dbName mgr d MaxUint64 = Ok (typeless b).
Proof.
  intros Hl. rewrite last_lookup in Hl. pose proof (served_number _ _ Hl) as Hr. pose proof (fo_count _ _ _ _ _ _ _ served_files) as Hcount.
  apply lookup_lt_Some in Hl as Hlt. rewrite <-Hr. unfold retrieveBlockByNumber. rewrite (decide_True (P := MaxUint64 = MaxUint64)) by done.
  rewrite (decide_False (P := Z.of_nat (pred (length c)) = MaxUint64)) by (unfold len, two62, MaxUint64, two64 in *; lia).
  assert (u64 (Height (bm_bcInfo mgr) - 1) = Z.of_nat (pred (length c))) as ->; [|done].
  rewrite (mo_chain _ _ _ _ _ _ _ _ Hm), (chain_info_height _ _ Hmax Hnum) by apply served_files.
  rewrite u64_small; unfold len, two62, two64 in *; lia.
Qed.
Lemma served_beyond n : len c ≤ n < MaxUint64 → retrieveBlockByNumber indexItems dbName mgr d n = Err "no such block number in index".
Proof.
  intros Hn. by eapply (retrieveBlockByNumber_none _ _ _ Hmax Hnum d _ _ _ _ _ served_files served_index mgr (mo_snapshot _ _ _ _ _ _ _ _ Hm)).
Qed.
Lemma served_tx j k b tx txid : IndexableAttrBlockNumTranNum ∈ indexItems → tx_at c j k b tx txid →
  retrieveTransactionByBlockNumTranNum indexItems dbName mgr d (Z.of_nat j) (Z.of_nat k) = GetEnvelopeFromBlock tx.
Proof.
  intros Ha Htx. destruct (occurs_tx _ _ _ _ _ Htx) as (i & t & (Hi & Ht & _) & _ & Henv & _). unfold retrieveTransactionByBlockNumTranNum.
  rewrite (first_block _ (mo_snapshot _ _ _ _ _ _ _ _ Hm)), decide_False by lia.
  rewrite (getTXLocByBlockNumTranNum_spec _ _ _ _ served_index _ _ _ _ Ha Hi Ht). by run.
Qed.
Lemma served_exists txid : IndexableAttrTxID ∈ indexItems → len txid < two64 →
  ∃ found, txIDExists indexItems dbName d txid = Ok found ∧ (found = true ↔ ∃ j k b tx, tx_at c j k b tx txid).
Proof.
  intros Ha Hl. destruct (index_txIDExists_spec _ _ _ _ served_index txid Hname Ha Hl) as (found & Hf & Hiff). exists found. split; [done|].
  rewrite Hiff. split; intros (j & k & Hjk).
  - destruct (proj1 (occurs_iff txid j k) Hjk) as (b & tx & ?). by eauto.
  - exists j, k. by apply occurs_iff.
Qed.
End served.

Lemma mgr_ok_serves mgr c d : mgr_ok mgr c d → serves mgr d c.
Proof.
  intros (segs & jf & Hm). split.
  - apply Hm.
  - by eapply served_number.
  - by eapply served_last.
  - by eapply served_beyond.
  - by eapply served_hash.
  - by eapply served_tx.
  - by eapply served_txid.
  - by eapply served_exists.
Qed.
Lemma mgr_ok_disk mgr c d : mgr_ok mgr c d → disk_ok c d.
Proof. intros (segs & jf & []). by exists segs, jf, [], (length c). Qed.
End serve.
