(* ===== verification/BlockRollback.v ===== *)
(** * Rolling the block store back

  Models the offline tools of common/ledger/blkstorage that cut a ledger back
  while the peer is stopped: the rollback to an earlier block (rollback.go) and
  the reset to the genesis block (reset.go). *)

From S2P Require Import Prelude SortedMap Encoding Version Separated Proto Rwset LiteRwset LevelDB Block BlockSerial BlockFiles BlockIndex BlockStore BlockRecovery BlockServe.
From stdpp Require Import options.
Local Open Scope Z_scope.
Set Default Proof Using "Type*".

(** [strconv.ParseUint(s, 10, 64)]. *)
Definition ParseUint (s : bytes) : res Z :=
  match s, digits_val 0 s with
  | _ :: _, Some v => if decide (v < two64) then Ok v else Err "value out of range"
  | _, _ => Err "invalid syntax"
  end.
Definition fileNamePreRestHt : bytes := B "__preResetHeight".
Definition backupGenesisFile : bytes := B "__backupGenesisBlockBytes".

Section tools.
Context {L : Type} `{!GoLevelDB L} `{!Sha256} `{!ProtoMessage TxIDIndexValue, !ProtoMessage BootstrappingSnapshotInfo}.
Context `{!ProtoMessage Envelope, !ProtoMessage Payload, !ProtoMessage ChannelHeader, !ProtoMessage SignatureHeader}.
Context (indexItems : list IndexableAttr) (dbName : bytes).
Notation world := (world L).

(** ** reset.go *)

Definition recordHeightIfGreaterThanPreviousRecording (w : world) : res world :=
  let d := dk_dir (w_disk w) in
  blkfilesInfo ← constructBlockfilesInfo d;
  previuoslyRecordedHt ← match d !! fileNamePreRestHt with Some htBytes => ParseUint htBytes | None => Ok 0 end;
  let currentHt := u64 (lastPersistedBlock blkfilesInfo + 1) in
  if decide (currentHt > previuoslyRecordedHt) then emit w (WriteFile fileNamePreRestHt (decimal currentHt)) else Ok w.

(** [os.Remove]. *)
Definition remove_file (w : world) (name : bytes) : res world :=
  if decide (is_Some (dk_dir (w_disk w) !! name)) then emit w (RemoveFile name) else Err "no such file or directory".
(** The files numbered [from + k] down to [from + 1]. *)
Fixpoint remove_files (from : Z) (k : nat) (w : world) : res world :=
  match k with
  | O => Ok w
  | S k' => w ← remove_file w (deriveBlockfilePath (from + Z.of_nat k)); remove_files from k' w
  end.

(** The data hash of a deserialised header is never nil, so the number
    decides. *)
Definition assertIsGenesisBlock (blockBytes : bytes) : res unit :=
  block ← deserializeBlock blockBytes;
  header ← deref (b_Header block);
  if decide (bh_Number header ≠ 0) then Err "The supplied bytes are not of genesis block" else Ok tt.
Definition retrieveGenesisBlkOffsetAndMakeACopy (w : world) : res (bytes * Z * world) :=
  let d := dk_dir (w_disk w) in
  s ← newBlockfileStream d 0 0;
  '(r, s) ← bfs_next d s;
  let genesisBlockBytes := from_option fst [] r in
  _ ← assertIsGenesisBlock genesisBlockBytes;
  w ← emit w (WriteFile backupGenesisFile genesisBlockBytes);
  Ok (deriveBlockfilePath 0, bfs_currentOffset s, w).
Definition resetToGenesisBlk (w : world) : res world :=
  lastFileNum ← retrieveLastFileSuffix (dk_dir (w_disk w));
  if decide (lastFileNum < 0) then Ok w
  else
    '(zeroFilePath, genesisBlkEndOffset, w) ← retrieveGenesisBlkOffsetAndMakeACopy w;
    w ← remove_files 0 (Z.to_nat lastFileNum) w;
    emit w (TruncateFile zeroFilePath genesisBlkEndOffset).
(** The part of [ResetBlockStore] for one ledger; the index is deleted before. *)
Definition reset_ledger (w : world) : res world :=
  w ← recordHeightIfGreaterThanPreviousRecording w;
  resetToGenesisBlk w.

(** ** rollback.go *)

Definition addIndexEntriesToBeDeleted (batch : LevelBatch) (blockInfo : serializedBlockInfo) : LevelBatch :=
  let header := sbi_blockHeader blockInfo in
  let txs := imap (λ n t, (n, t)) (sbi_txOffsets blockInfo) in
  let batch := if isAttributeIndexed indexItems IndexableAttrBlockHash then LevelBatch_Delete batch (constructBlockHashKey (BlockHeaderHash header)) else batch in
  let batch := if isAttributeIndexed indexItems IndexableAttrBlockNum then LevelBatch_Delete batch (constructBlockNumKey (bh_Number header)) else batch in
  let batch := if isAttributeIndexed indexItems IndexableAttrBlockNumTranNum
               then foldl (λ batch p, LevelBatch_Delete batch (constructBlockNumTranNumKey (bh_Number header) (Z.of_nat p.1))) batch txs else batch in
  if isAttributeIndexed indexItems IndexableAttrTxID
  then foldl (λ batch p, LevelBatch_Delete batch (constructTxIDKey (ti_txID p.2) (bh_Number header) (Z.of_nat p.1))) batch txs else batch.

Fixpoint delete_loop (numberOfBlocksToRetrieve : nat) (d : dir) (stream : blockStream) (batch : LevelBatch) : res LevelBatch :=
  match numberOfBlocksToRetrieve with
  | O => Ok batch
  | S k =>
      '(r, stream) ← bst_next d stream;
      blockInfo ← extractSerializedBlockInfo (from_option fst [] r);
      delete_loop k d stream (addIndexEntriesToBeDeleted batch blockInfo)
  end.
Definition deleteIndexEntriesRange (startBlkNum endBlkNum : Z) (w : world) : res world :=
  let d := dk_dir (w_disk w) in
  lp ← getBlockLocByBlockNum indexItems dbName (dk_db (w_disk w)) startBlkNum;
  stream ← newBlockStream d (fileSuffixNum lp) (lp_offset (flp_loc lp)) (-1);
  batch ← delete_loop (Z.to_nat (u64 (endBlkNum - startBlkNum + 1))) d stream (DBHandle_NewUpdateBatch dbName);
  batch ← LevelBatch_Put batch indexSavePointKey (Some (encodeBlockNum (u64 (startBlkNum - 1))));
  emit w (WriteDB (lb_ops batch)).

Definition batchLimit : Z := 10.
(** Every round removes at least one block, so the number of blocks is enough
    fuel. *)
Fixpoint rollback_loop (fuel : nat) (targetBlockNum lastBlock : Z) (w : world) : res world :=
  let start := u64 (targetBlockNum + 1) in
  if decide (lastBlock >= start) then
    match fuel with
    | O => Panic
    | S fuel =>
        let start := if decide (u64 (lastBlock - start) >= batchLimit) then u64 (lastBlock - batchLimit + 1) else start in
        w ← deleteIndexEntriesRange start lastBlock w;
        rollback_loop fuel targetBlockNum (u64 (start - 1)) w
    end
  else Ok w.
Definition rollbackBlockIndex (targetBlockNum : Z) (w : world) : res world :=
  match getLastBlockIndexed dbName (dk_db (w_disk w)) with
  | Ok lastBlockNumber => rollback_loop (S (Z.to_nat lastBlockNumber)) targetBlockNum lastBlockNumber w
  | Err e => if decide (e = errIndexSavePointKeyNotPresent) then Ok w else Err e
  | Panic => Panic
  end.

(** The loop ends at the block or at the end of the file. *)
Fixpoint end_loop (fuel : nat) (d : dir) (s : blockfileStream) (blockNum : Z) : res Z :=
  '(r, s) ← bfs_next d s;
  blockInfo ← extractSerializedBlockInfo (from_option fst [] r);
  if decide (bh_Number (sbi_blockHeader blockInfo) = blockNum) then Ok (bfs_currentOffset s)
  else match fuel with O => Panic | S fuel => end_loop fuel d s blockNum end.
Definition calculateEndOffSet (d : dir) (targetBlkFileNum blockNum : Z) : res Z :=
  s ← newBlockfileStream d targetBlkFileNum 0;
  end_loop (file_size d targetBlkFileNum) d s blockNum.
Definition rollbackBlockFiles (targetBlockNum : Z) (w : world) : res world :=
  w ← emit w (WriteDB [LDelete (constructLevelKey dbName blkMgrInfoKey)]);
  targetFileNum ← binarySearchFileNumForBlock (dk_dir (w_disk w)) targetBlockNum;
  lastFileNum ← retrieveLastFileSuffix (dk_dir (w_disk w));
  w ← remove_files targetFileNum (Z.to_nat (lastFileNum - targetFileNum)) w;
  endOffset ← calculateEndOffSet (dk_dir (w_disk w)) targetFileNum targetBlockNum;
  emit w (TruncateFile (deriveBlockfilePath targetFileNum) endOffset).

Definition Rollback (targetBlockNum : Z) (w : world) : res world :=
  w ← recordHeightIfGreaterThanPreviousRecording w;
  w ← rollbackBlockIndex targetBlockNum w;
  rollbackBlockFiles targetBlockNum w.
Definition validateTargetBlkNum (d : dir) (targetBlockNum : Z) : res unit :=
  blkfilesInfo ← constructBlockfilesInfo d;
  if decide (lastPersistedBlock blkfilesInfo <= targetBlockNum) then Err "target block number should be less than the biggest block number" else Ok tt.
(** The directory of the ledger exists or not. *)
Definition ValidateRollbackParams (ledgerDir : option dir) (targetBlockNum : Z) : res unit :=
  match ledgerDir with
  | None => Err "ledgerID does not exist"
  | Some d => validateTargetBlkNum d targetBlockNum
  end.
End tools.

Lemma elem_of_firsts {A B} (l : list (A * B)) k : k ∈ l.*1 ↔ ∃ v, (k, v) ∈ l.
Proof. rewrite list_elem_of_fmap. split; [intros ([k' v] & -> & ?); by exists v|intros [v ?]; by exists (k, v)]. Qed.

(** ** Parts of a chain of files *)

Lemma locs_take segs k : ∃ rest, locs 0 segs = locs 0 (take k segs) ++ rest.
Proof. exists (locs (0 + len (take k segs)) (drop k segs)). rewrite <-(take_drop k segs) at 1. apply locs_app. Qed.

(** The number of blocks in the files before file [j]. *)
Notation blocks_before segs j := (length (concat (take j segs))).
Lemma before_S {A} (segs : list (list A)) j seg : segs !! j = Some seg → blocks_before segs (S j) = (blocks_before segs j + length seg)%nat.
Proof. intros Hj. by rewrite (concat_take_S _ _ _ Hj), length_app. Qed.
Lemma before_mono {A} (segs : list (list A)) i j : (i ≤ j)%nat → (blocks_before segs i ≤ blocks_before segs j)%nat.
Proof. intros Hij. rewrite <-(take_drop i (take j segs)), take_take, Nat.min_l by lia. rewrite concat_app, length_app. lia. Qed.
Lemma loc_in_file segs t seg i x : segs !! t = Some seg → seg !! i = Some x →
  locs 0 segs !! (blocks_before segs t + i)%nat = Some (Z.of_nat t, len (raws (take i seg)), x).
Proof.
  intros Ht Hi. rewrite <-(take_drop_middle segs t seg Ht) at 2. rewrite locs_app, lookup_app_r; rewrite length_locs; [|lia].
  replace (blocks_before segs t + i - blocks_before segs t)%nat with i by lia. cbn [locs].
  rewrite lookup_app_l by (rewrite length_locs_file; by eapply lookup_lt_Some).
  rewrite <-(take_drop_middle seg i x Hi) at 1. rewrite locs_file_app, lookup_app_r; rewrite length_locs_file, length_take; [|lia].
  apply lookup_lt_Some in Hi as Hil. rewrite Nat.min_l, Nat.sub_diag by lia. cbn [locs_file lookup list_lookup].
  assert (0 + len (take t segs) = Z.of_nat t) as -> by (unfold len; rewrite length_take; apply lookup_lt_Some in Ht; lia). by rewrite Z.add_0_l.
Qed.

Section proofs.
Context {L : Type} `{!GoLevelDB L} `{!GoLevelDBLaws L} `{!Sha256} `{!ProtoMessage TxIDIndexValue} `{!TxIDIndexValueLaws}.
Context `{!ProtoMessage BootstrappingSnapshotInfo}.
Context `{!ProtoMessage Envelope, !ProtoMessage Payload, !ProtoMessage ChannelHeader, !ProtoMessage SignatureHeader}.
Context (indexItems : list IndexableAttr) (dbName : bytes) (maxBlockfileSize : Z).
Notation bindings db := (view (contents db) dbName).
Notation files_ok := (files_ok indexItems maxBlockfileSize).
Notation db_ok := (db_ok indexItems dbName).
Notation disk_ok := (disk_ok indexItems dbName maxBlockfileSize).
Notation mgr_ok := (mgr_ok indexItems dbName maxBlockfileSize).
Context (Hmax : 0 ≤ maxBlockfileSize < two56) (Hnum : IndexableAttrBlockNum ∈ indexItems) (Hname : x00 ∉ dbName).

Lemma files_write f c segs jf junk name b : files_ok f c segs jf junk → isBlockFileName name = false → name ≠ bootstrappingSnapshotInfoFile →
  files_ok (<[name := b]> f) c segs jf junk.
Proof.
  intros [[H1 H2 H3 H4 H5 H6 H7 H8] Hc Hb Hs Hn Hcur Hsn Hcnt] Hno Hne. split; try done.
  - split; try done.
    + intros j seg Hj. rewrite lookup_insert_ne by (intros ->; by rewrite deriveBlockfilePath_is in Hno). by apply H1.
    + intros name' Hname'. rewrite lookup_insert_ne by (intros ->; congruence). by apply H2.
  - by rewrite lookup_insert_ne.
Qed.

(** ** Removing blocks from the index *)

(** The keys of a block, the savepoint apart. *)
Definition del_keys (info : serializedBlockInfo) : list bytes :=
  let n := bh_Number (sbi_blockHeader info) in
  (if isAttributeIndexed indexItems IndexableAttrBlockHash then [constructBlockHashKey (BlockHeaderHash (sbi_blockHeader info))] else []) ++
  (if isAttributeIndexed indexItems IndexableAttrBlockNum then [constructBlockNumKey n] else []) ++
  (if isAttributeIndexed indexItems IndexableAttrBlockNumTranNum then imap (λ k _, constructBlockNumTranNumKey n (Z.of_nat k)) (sbi_txOffsets info) else []) ++
  (if isAttributeIndexed indexItems IndexableAttrTxID then imap (λ k t, constructTxIDKey (ti_txID t) n (Z.of_nat k)) (sbi_txOffsets info) else []).
Definition deletes (keys : list bytes) : list ldb_op := (λ k, LDelete (constructLevelKey dbName k)) <$> keys.

Lemma foldl_Delete {A} (key : A → bytes) (l : list A) : ∀ b, lb_dbName b = dbName →
  lb_ops (foldl (λ b p, LevelBatch_Delete b (key p)) b l) = lb_ops b ++ deletes (key <$> l) ∧
  lb_dbName (foldl (λ b p, LevelBatch_Delete b (key p)) b l) = dbName.
Proof.
  induction l as [|x l IH]; intros b Hb; cbn; [by rewrite app_nil_r|]. destruct (IH (LevelBatch_Delete b (key x)) Hb) as [-> ->].
  split; [|done]. cbn. by rewrite <-app_assoc, Hb.
Qed.
Lemma addIndexEntriesToBeDeleted_ops batch info : lb_dbName batch = dbName →
  lb_ops (addIndexEntriesToBeDeleted indexItems batch info) = lb_ops batch ++ deletes (del_keys info) ∧
  lb_dbName (addIndexEntriesToBeDeleted indexItems batch info) = dbName.
Proof.
  intros Hb. unfold addIndexEntriesToBeDeleted, del_keys. set (txs := imap (λ n t, (n, t)) (sbi_txOffsets info)).
  set (b1 := if isAttributeIndexed indexItems IndexableAttrBlockHash then _ else batch).
  assert (lb_dbName b1 = dbName ∧ lb_ops b1 = lb_ops batch ++ deletes (if isAttributeIndexed indexItems IndexableAttrBlockHash
    then [constructBlockHashKey (BlockHeaderHash (sbi_blockHeader info))] else [])) as [Hb1 Ho1].
  { unfold b1. destruct (isAttributeIndexed _ _); cbn; [by rewrite Hb|by rewrite app_nil_r]. }
  set (b2 := if isAttributeIndexed indexItems IndexableAttrBlockNum then _ else b1).
  assert (lb_dbName b2 = dbName ∧ lb_ops b2 = lb_ops b1 ++ deletes (if isAttributeIndexed indexItems IndexableAttrBlockNum
    then [constructBlockNumKey (bh_Number (sbi_blockHeader info))] else [])) as [Hb2 Ho2].
  { unfold b2. destruct (isAttributeIndexed indexItems IndexableAttrBlockNum); cbn; [by rewrite Hb1|by rewrite app_nil_r]. }
  set (b3 := if isAttributeIndexed indexItems IndexableAttrBlockNumTranNum then _ else b2).
  assert (lb_dbName b3 = dbName ∧ lb_ops b3 = lb_ops b2 ++ deletes (if isAttributeIndexed indexItems IndexableAttrBlockNumTranNum
    then imap (λ k _, constructBlockNumTranNumKey (bh_Number (sbi_blockHeader info)) (Z.of_nat k)) (sbi_txOffsets info) else [])) as [Hb3 Ho3].
  { unfold b3. destruct (isAttributeIndexed indexItems IndexableAttrBlockNumTranNum); [|by rewrite app_nil_r].
    destruct (foldl_Delete (λ p : nat * txindexInfo, constructBlockNumTranNumKey (bh_Number (sbi_blockHeader info)) (Z.of_nat p.1)) txs b2 Hb2) as [-> ->].
    unfold txs. by rewrite fmap_imap. }
  destruct (isAttributeIndexed indexItems IndexableAttrTxID).
  - destruct (foldl_Delete (λ p : nat * txindexInfo, constructTxIDKey (ti_txID p.2) (bh_Number (sbi_blockHeader info)) (Z.of_nat p.1)) txs b3 Hb3) as [-> ->].
    split; [|done]. rewrite Ho3, Ho2, Ho1. unfold txs. rewrite fmap_imap. unfold deletes. by rewrite !fmap_app, <-!app_assoc.
  - split; [|done]. rewrite Ho3, Ho2, Ho1. unfold deletes. by rewrite !fmap_app, <-!app_assoc, app_nil_r.
Qed.

Lemma elem_of_del_keys p o x info k : extractSerializedBlockInfo x = Ok info →
  k ∈ del_keys info ↔ k ∈ (index_puts indexItems (entry (p, o, x))).*1 ∧ k ≠ indexSavePointKey.
Proof.
  intros Hx. rewrite elem_of_firsts. unfold entry. rewrite Hx. unfold del_keys, isAttributeIndexed.
  rewrite !elem_of_app. split.
  - intros [Hk|[Hk|[Hk|Hk]]]; case_bool_decide as Ha; try (by apply elem_of_nil in Hk).
    + apply list_elem_of_singleton in Hk as ->. split; [|done]. eexists. apply elem_of_index_puts. by left.
    + apply list_elem_of_singleton in Hk as ->. split; [|done]. eexists. apply elem_of_index_puts. right. by left.
    + apply elem_of_lookup_imap in Hk as (n & t & -> & Ht). split; [|done]. eexists. apply elem_of_index_puts. right. right. right. left.
      split; [done|]. do 2 eexists. split; [cbn; unfold shift_locs; by rewrite list_lookup_fmap, Ht|done].
    + apply elem_of_lookup_imap in Hk as (n & t & -> & Ht). split; [|done]. eexists. apply elem_of_index_puts. right. right. left.
      split; [done|]. do 2 eexists. split; [cbn; unfold shift_locs; by rewrite list_lookup_fmap, Ht|done].
  - intros [[v Hk] Hne]. apply elem_of_index_puts in Hk. cbn in Hk. unfold shift_locs in Hk.
    destruct Hk as [(Ha & -> & _)|[(Ha & -> & _)|[(Ha & n & t & Ht & -> & _)|[(Ha & n & t & Ht & -> & _)|(-> & _)]]]]; [| | | |done].
    + left. rewrite bool_decide_true by done. by left.
    + right. left. rewrite bool_decide_true by done. by left.
    + right. right. right. rewrite bool_decide_true by done. apply list_lookup_fmap_Some in Ht as (t' & -> & Ht). apply elem_of_lookup_imap. by exists n, t'.
    + right. right. left. rewrite bool_decide_true by done. apply list_lookup_fmap_Some in Ht as (t' & -> & Ht). apply elem_of_lookup_imap. by exists n, t'.
Qed.

(** No two blocks have a key in common. *)
Definition separate (l1 l2 : list blockIdxInfo) : Prop :=
  ∀ i i' k, i ∈ l1 → i' ∈ l2 → k ∈ (index_puts indexItems i).*1 → k ∈ (index_puts indexItems i').*1 → k = indexSavePointKey.

Lemma index_delete db db' l1 i l2 keys : index_of indexItems dbName db ((l1 ++ [i]) ++ l2) → separate (l1 ++ [i]) l2 →
  (∀ k, k ∈ keys ↔ k ≠ indexSavePointKey ∧ ∃ i, i ∈ l2 ∧ k ∈ (index_puts indexItems i).*1) →
  ldb_Write db (deletes keys ++ [LPut (constructLevelKey dbName indexSavePointKey) (encodeBlockNum (bii_blockNum i))]) = Ok db' →
  index_of indexItems dbName db' (l1 ++ [i]) ∧ ∀ k, ¬ index_key k → bindings db' !! k = bindings db !! k.
Proof.
  intros [Hix Hn Hb] Hsep Hkeys Hw. destruct (ldb_Write_law db (deletes keys ++ [LPut (constructLevelKey dbName indexSavePointKey) (encodeBlockNum (bii_blockNum i))])) as (db1 & Hw1 & Hc).
  rewrite Hw in Hw1. injection Hw1 as <-.
  assert (Hops : ∀ k o, (k = indexSavePointKey → o = Some (Some (encodeBlockNum (bii_blockNum i)))) → (k ≠ indexSavePointKey → k ∈ keys → o = Some None) →
    (k ≠ indexSavePointKey → k ∉ keys → o = None) → bindings db' !! k = match o with Some v => v | None => bindings db !! k end).
  { intros k o H1 H2 H3. rewrite !lookup_view, Hc. apply apply_ldb_ops_lookup.
    - intros op [(k' & -> & Hk)%list_elem_of_fmap| ->%list_elem_of_singleton]%elem_of_app Heq; cbn [op_key op_val] in *; apply constructLevelKey_inj in Heq; [|by rewrite H1].
      subst k'. apply H2; [|done]. by apply Hkeys.
    - intros Ho. destruct (decide (k = indexSavePointKey)) as [->|Hne].
      + eexists. split; [apply elem_of_app; right; by left|done].
      + destruct (decide (k ∈ keys)) as [Hk|Hk]; [|rewrite H3 in Ho by done; by destruct Ho]. exists (LDelete (constructLevelKey dbName k)). split; [|done].
        apply elem_of_app. left. apply list_elem_of_fmap. by exists k. }
  split; [split|].
  - by apply Forall_app in Hix as [? _].
  - intros j i' Hj. apply Hn. by apply lookup_app_l_Some.
  - intros k Hk. destruct (decide (k = indexSavePointKey)) as [->|Hne].
    { rewrite (Hops _ (Some (Some (encodeBlockNum (bii_blockNum i))))); [|done..]. rewrite bind_app, insert_all_app. cbn [mbind list_bind]. rewrite app_nil_r.
      unfold index_puts at 2. rewrite !app_assoc, insert_all_app. cbn. by rewrite lookup_insert_eq. }
    destruct (decide (k ∈ keys)) as [Hin|Hin].
    + rewrite (Hops _ (Some None)); [|done..]. symmetry. rewrite lookup_insert_all_None; [apply lookup_empty|].
      intros [v (i1 & Hk1 & Hi1)%list_elem_of_bind]%elem_of_firsts. apply Hkeys in Hin as [_ (i' & Hi' & Hki')].
      apply Hne. eapply (Hsep i1 i'); [done|done| |done]. apply elem_of_firsts. by exists v.
    + rewrite (Hops _ None), Hb by done. rewrite bind_app, insert_all_app. rewrite lookup_insert_all_None; [done|].
      intros [v (i1 & Hk1 & Hi1)%list_elem_of_bind]%elem_of_firsts. apply Hin, Hkeys. split; [done|].
      exists i1. split; [done|]. apply elem_of_firsts. by exists v.
  - intros k Hk. rewrite (Hops _ None); [done|intros ->; destruct Hk; by left| |done]. intros _ [_ (i' & _ & Hk')]%Hkeys. destruct Hk.
    by eapply index_puts_keys.
Qed.

(** The hashes of the blocks differ. *)
Definition distinct_hashes (c : list Block) : Prop :=
  IndexableAttrBlockHash ∈ indexItems → ∀ j j' b b' h, c !! j = Some b → c !! j' = Some b' → block_hash b = Some h → block_hash b' = Some h → j = j'.

Section index.
Context (c : list Block) (segs : list (list bytes)) (jf : nat) (f : dir) (Hf : files_ok f c segs jf []) (Hcur : (jf < length segs)%nat).
Context (Hhash : distinct_hashes c).
Notation entries := (entry <$> locs 0 segs).

Lemma place_info j p o x : locs 0 segs !! j = Some (p, o, x) → ∃ b h info, c !! j = Some b ∧ b_Header b = Some h ∧ extractSerializedBlockInfo x = Ok info ∧
  sbi_blockHeader info = h ∧ bii_blockHash (entry (p, o, x)) = BlockHeaderHash h.
Proof.
  intros Hp. destruct (place_block _ _ Hmax _ _ _ _ _ Hf _ _ _ _ Hp) as (b & Hb & ->). destruct (fo_chain _ _ _ _ _ _ _ Hf _ _ Hb) as (h & data & md & txids & Hs & _).
  pose proof (extractSerializedBlockInfo_spec _ _ _ _ _ (sto_serializable _ _ _ _ _ _ _ Hs)) as Hx. rewrite <-(frame_storable _ _ _ _ _ _ _ Hs) in Hx.
  exists b, h. eexists. split_and!; [done|apply Hs|done|done|]. by rewrite (entry_storable _ _ _ _ _ _ _ _ _ Hs).
Qed.
Lemma key_owner j j' q q' k : locs 0 segs !! j = Some q → locs 0 segs !! j' = Some q' → k ∈ (index_puts indexItems (entry q)).*1 →
  k ∈ (index_puts indexItems (entry q')).*1 → k ≠ indexSavePointKey → j = j'.
Proof.
  destruct q as [[p o] x], q' as [[p' o'] x']. intros Hq Hq' [v Hk]%elem_of_firsts [v' Hk']%elem_of_firsts Hne.
  destruct (place_entry _ _ Hmax _ _ _ _ _ Hf _ _ _ _ Hq) as (Hi & Hn & _), (place_entry _ _ Hmax _ _ _ _ _ Hf _ _ _ _ Hq') as (Hi' & Hn' & _).
  pose proof (ix_number _ _ Hi) as Hu. pose proof (ix_number _ _ Hi') as Hu'. rewrite Hn in Hu. rewrite Hn' in Hu'.
  assert (Htx : ∀ i n t, indexable indexItems i → bii_txOffsets i !! n = Some t → is_u64 (Z.of_nat n) ∧ len (ti_txID t) < two64).
  { intros i n t Hix Ht. split; [|apply (ix_txids _ _ Hix); by eapply list_elem_of_lookup_2]. apply lookup_lt_Some in Ht. pose proof (ix_txs _ _ Hix).
    unfold len, is_u64 in *. lia. }
  apply elem_of_index_puts in Hk, Hk'. rewrite Hn in Hk. rewrite Hn' in Hk'.
  destruct Hk as [(Ha & -> & _)|[(_ & -> & _)|[(_ & n & t & Ht & -> & _)|[(_ & n & t & Ht & -> & _)|(-> & _)]]]]; [| | | |done];
    destruct Hk' as [(_ & Heq & _)|[(_ & Heq & _)|[(_ & n' & t' & Ht' & Heq & _)|[(_ & n' & t' & Ht' & Heq & _)|(Heq & _)]]]]; try done.
  - assert (bii_blockHash (entry (p, o, x)) = bii_blockHash (entry (p', o', x'))) as Hsame by (unfold constructBlockHashKey in Heq; congruence).
    destruct (place_info _ _ _ _ Hq) as (b & h & ? & Hb & Hh & _ & _ & He), (place_info _ _ _ _ Hq') as (b' & h' & ? & Hb' & Hh' & _ & _ & He').
    eapply (Hhash Ha); [done|done| |]; unfold block_hash; [by rewrite Hh|]. rewrite Hh'. cbn [fmap option_fmap option_map]. congruence.
  - by apply constructBlockNumKey_inj, Nat2Z.inj in Heq.
  - destruct (Htx _ _ _ Hi Ht), (Htx _ _ _ Hi' Ht'). apply constructTxIDKey_inj in Heq as (_ & Heq & _); [|done..]. by apply Nat2Z.inj in Heq.
  - destruct (Htx _ _ _ Hi Ht), (Htx _ _ _ Hi' Ht'). apply constructBlockNumTranNumKey_inj in Heq as (Heq & _); [|done..]. by apply Nat2Z.inj in Heq.
Qed.

Definition place_keys (q : Z * Z * bytes) : list bytes := match extractSerializedBlockInfo q.2 with Ok info => del_keys info | _ => [] end.
Lemma delete_loop_spec l2 : ∀ l1 stream batch, (∀ q, q ∈ l1 → ∃ info, extractSerializedBlockInfo q.2 = Ok info) →
  reads f (λ _, True) stream (l1 ++ l2) → lb_dbName batch = dbName →
  ∃ batch', delete_loop indexItems (length l1) f stream batch = Ok batch' ∧ lb_ops batch' = lb_ops batch ++ deletes (l1 ≫= place_keys) ∧ lb_dbName batch' = dbName.
Proof.
  induction l1 as [|[[p o] x] l1 IH]; intros stream batch Hx Hr Hb; [exists batch; by rewrite app_nil_r|].
  destruct Hr as (s' & Hn & Hr). destruct (Hx (p, o, x)) as [info Hi]; [by left|]. cbn [snd] in Hi.
  destruct (addIndexEntriesToBeDeleted_ops batch info Hb) as [Ho Hb'].
  destruct (IH s' (addIndexEntriesToBeDeleted indexItems batch info) ltac:(intros; apply Hx; by right) Hr Hb') as (batch' & Hl & Ho' & Hn').
  exists batch'. cbn [delete_loop length]. rewrite Hn. run. cbn [from_option fst]. rewrite Hi. run. split_and!; [done| |done].
  rewrite Ho', Ho. unfold place_keys at 2. cbn [mbind list_bind snd]. rewrite Hi. unfold deletes. by rewrite fmap_app, <-app_assoc.
Qed.

Lemma deleteIndexEntriesRange_spec w s a : dk_dir (w_disk w) = f → db_ok (dk_db (w_disk w)) c segs jf s → (1 ≤ a < s)%nat →
  ∃ w', deleteIndexEntriesRange indexItems dbName (Z.of_nat a) (Z.of_nat s - 1) w = Ok w' ∧ dk_dir (w_disk w') = f ∧ db_ok (dk_db (w_disk w')) c segs jf a ∧
    traced (disk_ok c) w w'.
Proof.
  intros Hd Hdb Has. pose proof (do_indexed _ _ _ _ _ _ _ Hdb) as Hs. pose proof (do_index _ _ _ _ _ _ _ Hdb) as Hi. pose proof (fo_count _ _ _ _ _ _ _ Hf) as Hcount.
  pose proof (length_places _ _ Hmax _ _ _ _ _ Hf) as Hl. unfold deleteIndexEntriesRange. rewrite Hd.
  destruct (lookup_lt_is_Some_2 (locs 0 segs) a) as [[[p o] x] Hp]; [lia|]. destruct (place_entry _ _ Hmax _ _ _ _ _ Hf _ _ _ _ Hp) as (_ & _ & Hflp).
  rewrite (getBlockLocByBlockNum_spec _ _ _ _ Hi a (entry (p, o, x)) Hnum) by (rewrite lookup_take_lt by lia; by rewrite list_lookup_fmap, Hp). run.
  rewrite Hflp. cbn [fileSuffixNum flp_loc lp_offset].
  assert (Hst : ∃ stream, newBlockStream f p o (-1) = Ok stream ∧ reads f (λ _, True) stream (drop a (locs 0 segs))).
  { pose proof (fo_image _ _ _ _ _ _ _ Hf) as Him. destruct (locs_split _ _ _ _ _ _ _ _ Him Hcur Hp) as (j & s1 & s2 & -> & -> & Hj & Hle & Hdrop).
    pose proof (reads_from f segs jf Him (-1) (λ _, True) ltac:(lia) Hcur ltac:(done) j s1 (x :: s2) Hj Hle) as Hr. rewrite <-Hdrop in Hr.
    unfold newBlockStream. destruct (bfs_next_loc _ _ _ _ _ _ _ _ Him Hp) as [-> _]. run. by eexists. }
  destruct Hst as (stream & -> & Hr). run. set (l1 := take (s - a) (drop a (locs 0 segs))).
  assert (Hl1 : length l1 = (s - a)%nat) by (unfold l1; rewrite length_take, length_drop; lia).
  rewrite <-(take_drop (s - a) (drop a (locs 0 segs))) in Hr. fold l1 in Hr.
  replace (Z.to_nat (u64 (Z.of_nat s - 1 - Z.of_nat a + 1))) with (length l1) by (rewrite u64_small; unfold len, two62, two64 in *; lia).
  assert (Hx : ∀ q, q ∈ l1 → ∃ j, locs 0 segs !! j = Some q ∧ (a ≤ j < s)%nat).
  { intros q [j Hj]%list_elem_of_lookup_1. apply lookup_take_Some in Hj as [Hj Hlt]. rewrite lookup_drop in Hj. exists (a + j)%nat. split; [done|lia]. }
  assert (Hinfo : ∀ q, q ∈ l1 → ∃ info, extractSerializedBlockInfo q.2 = Ok info).
  { intros [[p' o'] x'] (j & Hj & _)%Hx. destruct (place_info _ _ _ _ Hj) as (? & ? & info & _ & _ & ? & _). by exists info. }
  destruct (delete_loop_spec _ l1 stream (DBHandle_NewUpdateBatch dbName) Hinfo Hr eq_refl) as (batch & -> & Hops & Hbn). run.
  unfold LevelBatch_Put. run. rewrite Hbn, Hops. cbn [lb_ops DBHandle_NewUpdateBatch app].
  rewrite u64_small by (unfold len, two62, two64 in *; lia).
  destruct (lookup_lt_is_Some_2 (locs 0 segs) (a - 1)) as [q Hq]; [lia|]. assert (Hqn : bii_blockNum (entry q) = Z.of_nat a - 1).
  { destruct q as [[p' o'] x']. destruct (place_entry _ _ Hmax _ _ _ _ _ Hf _ _ _ _ Hq) as (_ & -> & _). lia. }
  rewrite <-Hqn. set (ops := deletes (l1 ≫= place_keys) ++ _). destruct (ldb_Write_law (dk_db (w_disk w)) ops) as (db' & Hw & _).
  assert (Htake : take s entries = (take (a - 1) entries ++ [entry q]) ++ (entry <$> l1)).
  { unfold l1. rewrite <-(take_S_r _ (a - 1) (entry q)) by (by rewrite list_lookup_fmap, Hq). replace (S (a - 1)) with a by lia.
    rewrite fmap_take, fmap_drop, take_drop_commute. replace (a + (s - a))%nat with s by lia.
    rewrite <-(take_drop a (take s entries)) at 1. by rewrite take_take, Nat.min_l by lia. }
  assert (Hta : take a entries = take (a - 1) entries ++ [entry q]).
  { rewrite <-(take_S_r _ (a - 1) (entry q)) by (by rewrite list_lookup_fmap, Hq). f_equal. lia. }
  rewrite Htake in Hi. destruct (index_delete _ db' _ _ _ (l1 ≫= place_keys) Hi) as [Hi' Hother]; [| |done|].
  - rewrite <-Hta. intros i i' k Hin Hin' Hk Hk'. destruct (decide (k = indexSavePointKey)) as [|Hne]; [done|]. exfalso.
    apply list_elem_of_lookup_1 in Hin as [j Hj]. apply lookup_take_Some in Hj as [Hj Hja]. apply list_lookup_fmap_Some in Hj as (q1 & -> & Hj).
    apply list_elem_of_fmap in Hin' as (q2 & -> & Hq2). destruct (Hx _ Hq2) as (j' & Hj' & ?).
    pose proof (key_owner _ _ _ _ _ Hj Hj' Hk Hk' Hne). lia.
  - intros k. rewrite list_elem_of_bind. split.
    + intros ([[p' o'] x'] & Hk & Hq'). destruct (Hinfo _ Hq') as [info Hxi]. unfold place_keys in Hk. cbn [snd] in *. rewrite Hxi in Hk.
      apply (elem_of_del_keys p' o' x' info k Hxi) in Hk as [Hk Hne]. split; [done|]. exists (entry (p', o', x')). split; [|done]. apply list_elem_of_fmap. by eexists.
    + intros [Hne (i & ([[p' o'] x'] & -> & Hq')%list_elem_of_fmap & Hk)]. destruct (Hinfo _ Hq') as [info Hxi]. exists (p', o', x'). split; [|done].
      unfold place_keys. cbn [snd] in *. rewrite Hxi. by apply (elem_of_del_keys p' o' x' info k Hxi).
  - set (w' := {| w_disk := {| dk_dir := f; dk_db := db' |}; w_log := w_log w ++ [WriteDB ops] |}).
    assert (He : emit w (WriteDB ops) = Ok w') by (unfold emit; cbn [apply_disk_op]; rewrite Hw, Hd; done).
    assert (Hdb' : db_ok db' c segs jf a).
    { split; [by rewrite Hta|lia|]. rewrite (Hother blkMgrInfoKey blkMgrInfoKey_not_index). apply Hdb. }
    exists w'. split_and!; [done..|]. eapply traced_emit_whole; [done| | |by inversion 1].
    + exists segs, jf, [], s. by rewrite Hd.
    + by exists segs, jf, [], a.
Qed.

Lemma rollback_loop_spec n fuel : ∀ w s, dk_dir (w_disk w) = f → db_ok (dk_db (w_disk w)) c segs jf s → (1 ≤ s ≤ fuel + S n)%nat → (S n ≤ length c)%nat →
  ∃ w', rollback_loop indexItems dbName fuel (Z.of_nat n) (Z.of_nat s - 1) w = Ok w' ∧ dk_dir (w_disk w') = f ∧
    db_ok (dk_db (w_disk w')) c segs jf (min s (S n)) ∧ traced (disk_ok c) w w'.
Proof.
  pose proof (fo_count _ _ _ _ _ _ _ Hf) as Hcount. induction fuel as [|fuel IH]; intros w s Hd Hdb Hfuel Hn; cbn [rollback_loop];
    pose proof (do_indexed _ _ _ _ _ _ _ Hdb) as Hs; rewrite (u64_small (Z.of_nat n + 1)) by (unfold len, two62, two64 in *; lia).
  - rewrite decide_False by lia. exists w. rewrite Nat.min_l by lia. split_and!; [done..|]. apply traced_refl. exists segs, jf, [], s. by rewrite Hd.
  - destruct (decide (_ >= _)) as [Hge|Hlt].
    + rewrite (u64_small (Z.of_nat s - 1 - (Z.of_nat n + 1))) by (unfold len, two62, two64 in *; lia).
      assert (Ha : ∃ a : nat, (if decide (Z.of_nat s - 1 - (Z.of_nat n + 1) >= batchLimit) then u64 (Z.of_nat s - 1 - batchLimit + 1) else Z.of_nat n + 1) = Z.of_nat a ∧
        (S n ≤ a < s)%nat).
      { unfold batchLimit. destruct (decide _); [|exists (S n); lia]. exists (s - 10)%nat. rewrite u64_small by (unfold len, two62, two64 in *; lia). lia. }
      destruct Ha as (a & -> & Ha). destruct (deleteIndexEntriesRange_spec w s a Hd Hdb ltac:(lia)) as (w1 & -> & Hd1 & Hdb1 & Ht1). run.
      rewrite u64_small by (unfold len, two62, two64 in *; lia).
      destruct (IH w1 a Hd1 Hdb1 ltac:(lia) Hn) as (w2 & -> & Hd2 & Hdb2 & Ht2). exists w2. rewrite Nat.min_r in Hdb2 |- * by lia.
      split_and!; [done..|]. by eapply traced_trans.
    + exists w. rewrite Nat.min_l by lia. split_and!; [done..|]. apply traced_refl. exists segs, jf, [], s. by rewrite Hd.
Qed.
Lemma rollbackBlockIndex_spec n w s : dk_dir (w_disk w) = f → db_ok (dk_db (w_disk w)) c segs jf s → (S n ≤ length c)%nat →
  ∃ w', rollbackBlockIndex indexItems dbName (Z.of_nat n) w = Ok w' ∧ dk_dir (w_disk w') = f ∧
    db_ok (dk_db (w_disk w')) c segs jf (min s (S n)) ∧ traced (disk_ok c) w w'.
Proof.
  intros Hd Hdb Hn. pose proof (do_indexed _ _ _ _ _ _ _ Hdb) as Hs. unfold rollbackBlockIndex. rewrite (getLastBlockIndexed_spec _ _ _ _ (do_index _ _ _ _ _ _ _ Hdb)).
  pose proof (length_places _ _ Hmax _ _ _ _ _ Hf) as Hl. destruct (decide (s = 0%nat)) as [->|Hs0].
  - rewrite take_0. cbn [last]. rewrite (decide_True (P := errIndexSavePointKeyNotPresent = _)) by done. exists w. split_and!; [done..|].
    apply traced_refl. exists segs, jf, [], 0%nat. by rewrite Hd.
  - destruct (lookup_lt_is_Some_2 (locs 0 segs) (s - 1)) as [p Hp]; [lia|].
    assert (last (take s entries) = Some (entry p)) as ->.
    { rewrite last_lookup, length_take, length_fmap, Hl, Nat.min_l by lia. rewrite lookup_take_lt by lia. by rewrite list_lookup_fmap, <-Nat.sub_1_r, Hp. }
    destruct p as [[p o] x]. destruct (place_entry _ _ Hmax _ _ _ _ _ Hf _ _ _ _ Hp) as (_ & Hbn & _). rewrite Hbn.
    replace (Z.of_nat (s - 1)) with (Z.of_nat s - 1) by lia. apply rollback_loop_spec; [done|done|lia|done].
Qed.
End index.

(** ** Removing blocks from the files *)

Section files.
Context (c : list Block) (segs : list (list bytes)) (jf : nat) (f : dir) (Hf : files_ok f c segs jf []) (Hlast : S jf = length segs).
Notation before j := (blocks_before segs j).

Lemma before_all : before (length segs) = length c.
Proof. by rewrite firstn_all, (fo_bytes _ _ _ _ _ _ _ Hf), length_fmap. Qed.
(** The file of a block. *)
Lemma file_of_block n : (n < length c)%nat → ∃ t seg, segs !! t = Some seg ∧ (before t ≤ n < before t + length seg)%nat.
Proof.
  intros Hn0. rewrite <-before_all in Hn0. revert Hn0. generalize (Nat.le_refl (length segs)).
  assert (∀ k, (k ≤ length segs)%nat → (n < before k)%nat → ∃ t seg, segs !! t = Some seg ∧ (before t ≤ n < before t + length seg)%nat) as Hall; [|by apply Hall].
  intros k. induction k as [|k IH]; intros Hk Hn; [rewrite take_0 in Hn; cbn in Hn; lia|].
  destruct (lookup_lt_is_Some_2 segs k) as [seg Hseg]; [lia|]. rewrite (before_S _ _ _ Hseg) in Hn.
  destruct (decide (n < before k)%nat) as [Hlt|Hge]; [apply IH; lia|]. exists k, seg. split; [done|lia].
Qed.

(** The first block of a file, unless it is empty. *)
Lemma retrieveFirst_spec j seg : segs !! j = Some seg →
  retrieveFirstBlockNumFromFile f (Z.of_nat j) = match seg with [] => retrieveFirstBlockNumFromFile f (Z.of_nat j) | _ => Ok (Z.of_nat (before j)) end ∧
  (seg = [] → ∃ e, retrieveFirstBlockNumFromFile f (Z.of_nat j) = Err e).
Proof.
  intros Hj. pose proof (fo_image _ _ _ _ _ _ _ Hf) as Him. split.
  - destruct seg as [|x seg]; [done|].
    assert (Hp : locs 0 segs !! before j = Some (Z.of_nat j, 0, x)).
    { assert (Hl : locs 0 segs = locs 0 (take j segs) ++ locs (0 + len (take j segs)) ((x :: seg) :: drop (S j) segs)).
      { rewrite <-locs_app. f_equal. symmetry. by apply take_drop_middle. }
      rewrite Hl, lookup_app_r by (rewrite length_locs; lia). rewrite length_locs, Nat.sub_diag. cbn [locs locs_file app lookup list_lookup].
      do 3 f_equal. unfold len. rewrite length_take. apply lookup_lt_Some in Hj. lia. }
    unfold retrieveFirstBlockNumFromFile. destruct (bfs_next_loc _ _ _ _ _ _ _ _ Him Hp) as (-> & s' & Hn). run. rewrite Hn. run. cbn [from_option fst].
    destruct (place_block _ _ Hmax _ _ _ _ _ Hf _ _ _ _ Hp) as (b & Hb & ->). destruct (fo_chain _ _ _ _ _ _ _ Hf _ _ Hb) as (h & data & md & txids & Hs & Hnum0).
    rewrite (frame_storable _ _ _ _ _ _ _ Hs), (extractSerializedBlockInfo_spec _ _ _ _ _ (sto_serializable _ _ _ _ _ _ _ Hs)). run. cbn. by rewrite Hnum0.
  - intros ->. unfold retrieveFirstBlockNumFromFile, newBlockfileStream. pose proof (im_file _ _ _ _ Him _ _ Hj) as Hfile. rewrite Hfile.
    rewrite decide_False by lia. run. unfold bfs_next. cbn [bfs_fileNum bfs_currentOffset]. rewrite Hfile.
    replace (raws [] ++ (if decide (j = jf) then [] else [])) with (@nil byte) by (by destruct (decide _)). rewrite decide_True by done. run. by eexists.
Qed.

(** The binary search finds the file, unless it looks into an empty one. *)
Lemma search_loop_spec n t seg fuel : ∀ b e, segs !! t = Some seg → (before t ≤ n < before t + length seg)%nat → (b ≤ t ≤ e)%nat → (e < length segs)%nat → (e - b ≤ fuel)%nat →
  (search_loop fuel f (Z.of_nat n) (Z.of_nat b) (Z.of_nat e) = Ok (Z.of_nat t) ∨
   ((∃ j, segs !! j = Some [] ∧ (b < j)%nat) ∧ ∃ err, search_loop fuel f (Z.of_nat n) (Z.of_nat b) (Z.of_nat e) = Err err)).
Proof.
  induction fuel as [|fuel IH]; intros b e Ht Hn Hbe Hlen Hfuel; cbn [search_loop]; (destruct (decide (Z.of_nat e ≠ Z.of_nat b)) as [Hne|Heq]; [|left; f_equal; lia]); [lia|].
  set (m := (b + (e - b) / 2 + 1)%nat). assert (Hdiv : ((e - b) / 2 < e - b)%nat) by (apply Nat.div_lt; lia).
  assert (Z.of_nat b + (Z.of_nat e - Z.of_nat b) / 2 + 1 = Z.of_nat m) as ->.
  { unfold m. rewrite <-Nat2Z.inj_sub by lia. change 2 with (Z.of_nat 2). rewrite <-Nat2Z.inj_div. lia. }
  destruct (lookup_lt_is_Some_2 segs m) as [sm Hm]; [unfold m; lia|]. destruct (retrieveFirst_spec _ _ Hm) as [Hfirst Hempty].
  destruct sm as [|x sm].
  { right. destruct (Hempty eq_refl) as [err Herr]. rewrite Herr. run. split; [exists m; split; [done|unfold m; lia]|]. by eexists. }
  rewrite Hfirst. run. pose proof (before_S _ _ _ Ht) as Hbt.
  destruct (decide (Z.of_nat (before m) = Z.of_nat n)) as [Heq|Hneq].
  - left. do 2 f_equal. pose proof (before_S _ _ _ Hm) as Hbm. cbn [length] in Hbm. destruct (decide (m = t)) as [|Hmt]; [done|].
    destruct (decide (m < t)%nat); [pose proof (before_mono segs (S m) t); lia|pose proof (before_mono segs (S t) m); lia].
  - destruct (decide (Z.of_nat (before m) > Z.of_nat n)) as [Hgt|Hle].
    + assert (t < m)%nat by (destruct (decide (t < m)%nat); [done|pose proof (before_mono segs m t); lia]).
      replace (Z.of_nat m - 1) with (Z.of_nat (m - 1)) by lia. apply IH; [done|done|lia|unfold m in *; lia|unfold m in *; lia].
    + assert (m ≤ t)%nat by (destruct (decide (m ≤ t)%nat); [done|pose proof (before_mono segs (S t) m); lia]).
      destruct (IH m e Ht Hn ltac:(lia) Hlen ltac:(unfold m in *; lia)) as [?|[(j & ? & ?) ?]]; [by left|right]. split; [exists j; split; [done|unfold m in *; lia]|done].
Qed.
Lemma binarySearch_spec n t seg : segs !! t = Some seg → (before t ≤ n < before t + length seg)%nat →
  binarySearchFileNumForBlock f (Z.of_nat n) = Ok (Z.of_nat t) ∨
  ((∃ j, segs !! j = Some [] ∧ (0 < j)%nat) ∧ ∃ err, binarySearchFileNumForBlock f (Z.of_nat n) = Err err).
Proof.
  intros Ht Hn. unfold binarySearchFileNumForBlock. pose proof (fo_image _ _ _ _ _ _ _ Hf) as Him.
  rewrite (constructBlockfilesInfo_image _ _ _ _ Him Hlast) by (rewrite (fo_bytes _ _ _ _ _ _ _ Hf); eapply chain_numbered, Hf). run.
  change (latestFileNumber (info_of _ _ _)) with (Z.of_nat jf). rewrite Nat2Z.id. apply lookup_lt_Some in Ht as Hlt.
  apply (search_loop_spec n t seg jf 0 jf); [done|done|lia|lia|lia].
Qed.

Lemma concat_take_bytes j : concat (take j segs) = frame <$> take (before j) c.
Proof.
  rewrite fmap_take, <-(fo_bytes _ _ _ _ _ _ _ Hf). rewrite <-(take_drop j segs) at 3. by rewrite concat_app, take_app_length.
Qed.
(** The last file is removed. *)
Lemma files_remove_last : (0 < jf)%nat → files_ok (delete (deriveBlockfilePath (Z.of_nat jf)) f) (take (before jf) c) (take jf segs) (pred jf) [].
Proof.
  intros Hpos. pose proof Hf as [[H1 H2 H3 H4 H5 H6 H7 H8] Hc Hb Hs Hn Hcur Hsn Hcnt].
  assert (Hl : length (take jf segs) = jf) by (rewrite length_take; lia). split.
  - split; [| | | |lia| |by apply Forall_take|done].
    + intros j seg [Hj Hlt]%lookup_take_Some. rewrite lookup_delete_ne by (intros Heq%deriveBlockfilePath_inj; unfold len in *; lia).
      rewrite (H1 _ _ Hj). do 2 f_equal. by destruct (decide (j = jf)), (decide (j = pred jf)).
    + intros name Hname' [x Hx]. apply lookup_delete_Some in Hx as [Hne Hx]. destruct (H2 name Hname') as (j & Hj & ->); [by eexists|]. exists j. split; [|done].
      rewrite Hl. destruct (decide (j = jf)) as [->|]; [done|lia].
    + intros j seg [Hj Hlt]%lookup_take_Some Hlt'. apply (H3 _ _ Hj). lia.
    + intros j seg [Hj Hlt]%lookup_take_Some Hlt'. lia.
    + unfold len in *. lia.
  - by apply chain_take.
  - apply concat_take_bytes.
  - by apply Forall_take.
  - intros seg _ [x [_ Hx]%lookup_take_Some]. lia.
  - right. lia.
  - by rewrite lookup_delete_ne by apply blockfile_not_snapshot.
  - unfold len in *. rewrite length_take. lia.
Qed.
(** The last file is cut after some of its blocks. *)
Lemma files_cut_last s1 s2 : segs !! jf = Some (s1 ++ s2) → s1 ≠ [] →
  files_ok (truncateFile f (deriveBlockfilePath (Z.of_nat jf)) (len (raws s1))) (take (before jf + length s1) c) (take jf segs ++ [s1]) jf [].
Proof.
  intros Hj Hne. pose proof Hf as [[H1 H2 H3 H4 H5 H6 H7 H8] Hc Hb Hs Hn Hcur Hsn Hcnt].
  assert (Hl : length (take jf segs ++ [s1]) = length segs) by (rewrite length_app, length_take; cbn; lia).
  assert (Hfile : truncateFile f (deriveBlockfilePath (Z.of_nat jf)) (len (raws s1)) = <[deriveBlockfilePath (Z.of_nat jf) := raws s1]> f).
  { assert (Hcont : f !! deriveBlockfilePath (Z.of_nat jf) = Some (raws s1 ++ raws s2)).
    { rewrite (H1 _ _ Hj), raws_app. by rewrite decide_True, app_nil_r. }
    unfold truncateFile. rewrite Hcont. destruct (decide _) as [|Hge].
    - by rewrite to_nat_len, take_app_length.
    - rewrite len_app in Hge. assert (Hs2 : raws s2 = []) by (destruct (raws s2); [done|unfold len in Hge; cbn in Hge; lia]).
      symmetry. apply insert_id. by rewrite Hcont, Hs2, app_nil_r. }
  assert (Hlook : ∀ j seg, (take jf segs ++ [s1]) !! j = Some seg → (j < jf)%nat ∧ segs !! j = Some seg ∨ j = jf ∧ seg = s1).
  { intros j seg Hjs. apply lookup_app_Some in Hjs as [[Hjs Hlt]%lookup_take_Some|[Hge Hjs]]; [by left|right].
    apply list_lookup_singleton_Some in Hjs as [Hj0 <-]. rewrite length_take in *. split; [lia|done]. }
  rewrite Hfile. split.
  - split; [| | | |lia| |apply Forall_app; split; [by apply Forall_take|]|done].
    + intros j seg [[Hlt Hjs]|[-> ->]]%Hlook.
      * rewrite lookup_insert_ne by (intros Heq%deriveBlockfilePath_inj; unfold len in *; lia). by apply H1.
      * rewrite lookup_insert_eq, decide_True, app_nil_r by done. done.
    + intros name Hname' Hx. rewrite Hl. destruct (decide (name = deriveBlockfilePath (Z.of_nat jf))) as [->|Hne']; [exists jf; split; [lia|done]|].
      rewrite lookup_insert_ne in Hx by done. by apply H2.
    + intros j seg [[_ Hjs]|[-> ->]]%Hlook Hlt; [by eapply H3|done].
    + intros j seg [[Hlt' _]|[-> ->]]%Hlook Hlt; lia.
    + unfold len in *. lia.
    + repeat constructor. pose proof (proj1 (Forall_lookup _ _) H7 _ _ Hj) as Hsm. by apply Forall_app in Hsm as [? _].
  - by apply chain_take.
  - rewrite concat_app. cbn [concat]. rewrite app_nil_r, fmap_take, <-Hb. rewrite (concat_full _ _ _ _ _ (fo_image _ _ _ _ _ _ _ Hf) Hj), app_assoc.
    rewrite take_app_le by (rewrite length_app; lia). symmetry. apply take_ge. rewrite length_app. lia.
  - apply Forall_app. split; [by apply Forall_take|]. constructor; [|done]. pose proof (proj1 (Forall_lookup _ _) Hs _ _ Hj) as Hsz. cbn beta in Hsz.
    rewrite raws_app, len_app in Hsz. pose proof (len_nonneg (raws s2)). lia.
  - intros seg _ [x Hx]. apply lookup_lt_Some in Hx. lia.
  - right. lia.
  - by rewrite lookup_insert_ne by apply blockfile_not_snapshot.
  - unfold len in *. rewrite length_take. lia.
Qed.
End files.

(** The index of the first blocks stays good when the files lose later ones. *)
Lemma db_ok_cut db c segs jf s c' segs' jf' : db_ok db c segs jf s → bindings db !! blkMgrInfoKey = None → locs 0 segs' `prefix_of` locs 0 segs →
  (s ≤ length c')%nat → (s ≤ length (locs 0 segs'))%nat → S jf' = length segs' → db_ok db c' segs' jf' s.
Proof.
  intros [Hi Hs Hinfo] Hnone [rest Hl] Hc Hlen Hjf. split; [|done|rewrite Hnone; by right].
  rewrite Hl, fmap_app, take_app_le in Hi by (rewrite length_fmap; lia). done.
Qed.
(** The disk holds at least [c1] and at most [c2]. *)
Definition between (c1 c2 : list Block) (d : disk L) : Prop := ∃ c, c1 `prefix_of` c ∧ c `prefix_of` c2 ∧ disk_ok c d.

Section cutting.
Context (c : list Block) (segs : list (list bytes)) (n : nat) (t : nat) (seg : list bytes) (Ht : segs !! t = Some seg).
Notation before j := (blocks_before segs j).
Context (Hn : (before t ≤ n < before t + length seg)%nat) (s : nat) (Hs : (s ≤ S n)%nat) (Hnc : (n < length c)%nat).
(** The files up to number [k] are left. *)
Record stage (k : nat) (d : disk L) : Prop := {
  sg_files : files_ok (dk_dir d) (take (before (S k)) c) (take (S k) segs) k [];
  sg_len : length (take (S k) segs) = S k;
  sg_db : db_ok (dk_db d) (take (before (S k)) c) (take (S k) segs) k s;
  sg_none : bindings (dk_db d) !! blkMgrInfoKey = None
}.

Lemma stage_between k d : (t ≤ k)%nat → stage k d → between (take (S n) c) c d.
Proof.
  intros Htk Hst. exists (take (before (S k)) c). split_and!.
  - assert (S n ≤ before (S k))%nat as Hle.
    { etrans; [|apply (before_mono segs (S t) (S k)); lia]. rewrite (before_S _ _ _ Ht). lia. }
    exists (drop (S n) (take (before (S k)) c)). rewrite <-(take_drop (S n) (take (before (S k)) c)) at 1. by rewrite take_take, Nat.min_l.
  - apply prefix_take.
  - destruct Hst. by exists (take (S k) segs), k, [], s.
Qed.
Lemma stage_remove k w : (t < k)%nat → stage k (w_disk w) → ∃ w', remove_file w (deriveBlockfilePath (Z.of_nat k)) = Ok w' ∧ stage (pred k) (w_disk w') ∧
  traced (between (take (S n) c) c) w w'.
Proof.
  intros Htk Hst. pose proof Hst as [Hf Hl Hdb Hnone]. pose proof (fo_image _ _ _ _ _ _ _ Hf) as Him.
  destruct (lookup_lt_is_Some_2 (take (S k) segs) k) as [sk Hsk]; [lia|]. unfold remove_file.
  rewrite decide_True by (rewrite (im_file _ _ _ _ Him _ _ Hsk); by eexists).
  pose proof (files_remove_last _ _ _ _ Hf ltac:(lia) ltac:(lia)) as Hf'. rewrite !take_take, !Nat.min_l in Hf' by (try apply before_mono; lia).
  replace k with (S (pred k)) in Hf' at 2 3 by lia.
  set (w' := {| w_disk := {| dk_dir := delete (deriveBlockfilePath (Z.of_nat k)) (dk_dir (w_disk w)); dk_db := dk_db (w_disk w) |};
                w_log := w_log w ++ [RemoveFile (deriveBlockfilePath (Z.of_nat k))] |}).
  assert (Hst' : stage (pred k) (w_disk w')).
  { assert (Hlen : length (take (S (pred k)) segs) = S (pred k)) by (rewrite length_take in *; lia). split; [exact Hf'|done| |done].
    eapply db_ok_cut; [exact Hdb|done| | | |done].
    - destruct (locs_take (take (S k) segs) (S (pred k))) as [rest Hrest]. exists rest. by rewrite Hrest, take_take, Nat.min_l by lia.
    - rewrite length_take. assert (S n ≤ before (S (pred k)))%nat; [|lia]. etrans; [|apply (before_mono segs (S t)); lia]. rewrite (before_S _ _ _ Ht). lia.
    - rewrite length_locs. assert (S n ≤ before (S (pred k)))%nat; [|lia]. etrans; [|apply (before_mono segs (S t)); lia]. rewrite (before_S _ _ _ Ht). lia. }
  exists w'. split_and!; [done..|]. eapply (traced_emit_whole _ _ (RemoveFile _)); [done| | |by inversion 1].
  - eapply stage_between; [|done]. lia.
  - eapply stage_between; [|done]. lia.
Qed.
Lemma remove_files_spec k : ∀ w, stage (t + k) (w_disk w) → ∃ w', remove_files (Z.of_nat t) k w = Ok w' ∧ stage t (w_disk w') ∧
  traced (between (take (S n) c) c) w w'.
Proof.
  induction k as [|k IH]; intros w Hst; cbn [remove_files].
  - rewrite Nat.add_0_r in Hst. exists w. split_and!; [done..|]. apply traced_refl. by eapply stage_between.
  - destruct (stage_remove (t + S k) w ltac:(lia) Hst) as (w1 & Hr & Hst1 & Ht1). replace (Z.of_nat t + Z.of_nat (S k)) with (Z.of_nat (t + S k)) by lia.
    rewrite Hr. run. replace (pred (t + S k)) with (t + k)%nat in Hst1 by lia. destruct (IH w1 Hst1) as (w2 & -> & Hst2 & Ht2).
    exists w2. split_and!; [done..|]. by eapply traced_trans.
Qed.

Lemma end_loop_spec d fuel : stage t d → ∀ i, (before t + i ≤ n)%nat → (n - before t - i ≤ fuel)%nat →
  end_loop fuel (dk_dir d) {| bfs_fileNum := Z.of_nat t; bfs_currentOffset := len (raws (take i seg)) |} (Z.of_nat n) =
    Ok (len (raws (take (S (n - before t)) seg))).
Proof.
  intros [Hf Hl _ _]. pose proof (fo_image _ _ _ _ _ _ _ Hf) as Him.
  assert (Hseg : take (S t) segs !! t = Some seg) by (by rewrite lookup_take_lt by lia).
  assert (Hfile : dk_dir d !! deriveBlockfilePath (Z.of_nat t) = Some (raws seg)) by (rewrite (im_file _ _ _ _ Him _ _ Hseg), decide_True by done; by rewrite app_nil_r).
  assert (Hbt : blocks_before (take (S t) segs) t = before t) by (by rewrite take_take, Nat.min_l by lia).
  assert (Hstep : ∀ i x, seg !! i = Some x → ∃ pl info,
    bfs_next (dk_dir d) {| bfs_fileNum := Z.of_nat t; bfs_currentOffset := len (raws (take i seg)) |} =
      Ok (Some (x, pl), {| bfs_fileNum := Z.of_nat t; bfs_currentOffset := len (raws (take (S i) seg)) |}) ∧
    extractSerializedBlockInfo x = Ok info ∧ bh_Number (sbi_blockHeader info) = Z.of_nat (before t + i)).
  { intros i x Hi. pose proof (loc_in_file _ _ _ _ _ Hseg Hi) as Hp. rewrite Hbt in Hp.
    destruct (place_block _ _ Hmax _ _ _ _ _ Hf _ _ _ _ Hp) as (b & Hb & ->). destruct (fo_chain _ _ _ _ _ _ _ Hf _ _ Hb) as (h & data & md & txids & Hst & Hnum0).
    rewrite (frame_storable _ _ _ _ _ _ _ Hst) in *. do 2 eexists. split_and!; [|by eapply extractSerializedBlockInfo_spec, Hst|done].
    rewrite (take_S_r _ _ _ Hi), raws_app, raws_one, len_app. eapply bfs_next_raw; [exact Hfile| |].
    - rewrite <-(take_drop_middle _ _ _ Hi) at 1. rewrite raws_app. f_equal.
    - rewrite <-(frame_storable _ _ _ _ _ _ _ Hst). by eapply storable_small. }
  induction fuel as [|fuel IH]; intros i Hi Hfuel; destruct (lookup_lt_is_Some_2 seg i) as [x Hx]; try lia; destruct (Hstep _ _ Hx) as (pl & info & Hnext & Hinfo & Hno);
    cbn [end_loop]; rewrite Hnext; run; cbn [from_option fst]; rewrite Hinfo; run; rewrite Hno.
  - rewrite decide_True by lia. cbn [bfs_currentOffset]. by replace (n - before t)%nat with i by lia.
  - destruct (decide (Z.of_nat (before t + i) = Z.of_nat n)) as [Heq|Hne]; [cbn [bfs_currentOffset]; by replace (n - before t)%nat with i by lia|].
    apply IH; lia.
Qed.
Lemma calculateEndOffSet_spec d : stage t d → calculateEndOffSet (dk_dir d) (Z.of_nat t) (Z.of_nat n) = Ok (len (raws (take (S (n - before t)) seg))).
Proof.
  intros Hst. pose proof Hst as [Hf Hl _ _]. pose proof (fo_image _ _ _ _ _ _ _ Hf) as Him.
  assert (Hseg : take (S t) segs !! t = Some seg) by (by rewrite lookup_take_lt by lia).
  assert (Hfile : dk_dir d !! deriveBlockfilePath (Z.of_nat t) = Some (raws seg)) by (rewrite (im_file _ _ _ _ Him _ _ Hseg), decide_True by done; by rewrite app_nil_r).
  unfold calculateEndOffSet, newBlockfileStream. rewrite Hfile, decide_False by lia. run.
  apply (end_loop_spec d _ Hst 0); [lia|]. unfold file_size. rewrite Hfile. cbn. pose proof (raws_length seg). unfold len in *. lia.
Qed.
(** The last step. *)
Lemma stage_truncate w : stage t (w_disk w) → ∃ w',
  emit w (TruncateFile (deriveBlockfilePath (Z.of_nat t)) (len (raws (take (S (n - before t)) seg)))) = Ok w' ∧ disk_ok (take (S n) c) (w_disk w') ∧
  traced (between (take (S n) c) c) w w'.
Proof.
  intros Hst. pose proof Hst as [Hf Hl Hdb Hnone]. set (s1 := take (S (n - before t)) seg).
  assert (Hseg : take (S t) segs !! t = Some (s1 ++ drop (S (n - before t)) seg)) by (rewrite lookup_take_lt by lia; unfold s1; by rewrite take_drop).
  assert (Hs1 : length s1 = S (n - before t)) by (unfold s1; rewrite length_take; lia).
  pose proof (files_cut_last _ _ _ _ Hf ltac:(lia) _ _ Hseg ltac:(by intros Heq; rewrite Heq in Hs1)) as Hf'.
  assert (Htt : take t (take (S t) segs) = take t segs) by (rewrite take_take; f_equal; lia). rewrite !Htt in Hf'.
  assert (Hc : take (before t + length s1) (take (before (S t)) c) = take (S n) c).
  { rewrite take_take, Nat.min_l; [f_equal; lia|]. rewrite (before_S _ _ _ Ht). lia. }
  rewrite Hc in Hf'.
  set (w' := {| w_disk := {| dk_dir := truncateFile (dk_dir (w_disk w)) (deriveBlockfilePath (Z.of_nat t)) (len (raws s1)); dk_db := dk_db (w_disk w) |};
                w_log := w_log w ++ [TruncateFile (deriveBlockfilePath (Z.of_nat t)) (len (raws s1))] |}).
  assert (Hlt : length (take t segs ++ [s1]) = S t) by (rewrite length_app; rewrite length_take in *; cbn; lia).
  assert (Hok : disk_ok (take (S n) c) (w_disk w')).
  { exists (take t segs ++ [s1]), t, [], s. split; [exact Hf'|]. eapply db_ok_cut; [exact Hdb|done| |rewrite length_take; lia| |done].
    - rewrite (take_S_r _ _ _ Ht), !locs_app. cbn [locs]. rewrite !app_nil_r. apply prefix_app. unfold s1. rewrite <-(take_drop (S (n - before t)) seg) at 2.
      rewrite locs_file_app. apply prefix_app_r. done.
    - rewrite length_locs, concat_app, length_app. cbn. rewrite app_nil_r. lia. }
  exists w'. split_and!; [done..|]. eapply (traced_emit_whole _ _ (TruncateFile _ _)); [done| | |by inversion 1].
  - eapply stage_between; [|done]. lia.
  - exists (take (S n) c). split_and!; [done|apply prefix_take|done].
Qed.
End cutting.

(** ** The tools *)

(** After a clean stop the last file is the one to be written next. *)
Lemma last_file segs jf mgr c d : mgr_at indexItems dbName maxBlockfileSize segs jf mgr c d →
  ∃ jf', files_ok (dk_dir d) c segs jf' [] ∧ S jf' = length segs.
Proof.
  intros Hm. pose proof (mo_files _ _ _ _ _ _ _ _ Hm) as Hf. pose proof (mo_current _ _ _ _ _ _ _ _ Hm) as Hcur. pose proof (fo_image _ _ _ _ _ _ _ Hf) as Him.
  destruct (decide (length segs = S jf)) as [Hl|Hl]; [by exists jf|]. pose proof (im_length _ _ _ _ Him). exists (S jf). split; [|lia].
  destruct (lookup_lt_is_Some_2 segs jf) as [seg Hseg]; [lia|]. destruct (lookup_lt_is_Some_2 segs (S jf)) as [seg' Hseg']; [lia|].
  assert (seg' = []) as -> by (apply (im_after _ _ _ _ Him _ _ Hseg'); lia). eapply (files_move _ _ Hmax); [exact Hf|done|done| |done].
  apply (fo_next _ _ _ _ _ _ _ Hf _ Hseg). by eexists.
Qed.

(** The height noted for the operator does not concern the store. *)
Lemma recordHeight_spec w c segs jf w' : files_ok (dk_dir (w_disk w)) c segs jf [] → disk_ok c (w_disk w) →
  recordHeightIfGreaterThanPreviousRecording w = Ok w' →
  files_ok (dk_dir (w_disk w')) c segs jf [] ∧ dk_db (w_disk w') = dk_db (w_disk w) ∧
  (∀ j, dk_dir (w_disk w') !! deriveBlockfilePath j = dk_dir (w_disk w) !! deriveBlockfilePath j) ∧ traced (disk_ok c) w w'.
Proof.
  intros Hf Hd Hr. unfold recordHeightIfGreaterThanPreviousRecording in Hr. apply bind_Ok in Hr as (info & _ & Hr). apply bind_Ok in Hr as (prev & _ & Hr).
  assert (Hwrite : ∀ b, disk_ok c {| dk_dir := <[fileNamePreRestHt := b]> (dk_dir (w_disk w)); dk_db := dk_db (w_disk w) |}).
  { intros b. destruct Hd as (segs' & jf' & junk' & s' & Hf' & Hdb'). exists segs', jf', junk', s'. split; [|done]. by apply files_write. }
  destruct (decide _) as [_|_].
  - unfold emit in Hr. cbn [apply_disk_op] in Hr. rewrite bind_Ok_eq in Hr. injection Hr as <-. cbn [w_disk dk_dir dk_db]. split_and!; [by apply files_write|done| |].
    + intros j. apply lookup_insert_ne. intros Heq. pose proof (deriveBlockfilePath_is j) as Hi. by rewrite <-Heq in Hi.
    + eapply (traced_emit _ _ (WriteFile _ _)); [done|done|by apply Hwrite|]. intros o' d' Hp. inversion Hp as [|? ? b' _]; subst. cbn. intros [= <-]. by apply Hwrite.
  - injection Hr as <-. split_and!; [done..|]. by apply traced_refl.
Qed.
Lemma recordHeight_ok w c segs jf : files_ok (dk_dir (w_disk w)) c segs jf [] → S jf = length segs →
  (∀ b, dk_dir (w_disk w) !! fileNamePreRestHt = Some b → ∃ h, ParseUint b = Ok h) → ∃ w', recordHeightIfGreaterThanPreviousRecording w = Ok w'.
Proof.
  intros Hf Hl Hparse. unfold recordHeightIfGreaterThanPreviousRecording. pose proof (fo_image _ _ _ _ _ _ _ Hf) as Him.
  rewrite (constructBlockfilesInfo_image _ _ _ _ Him Hl) by (rewrite (fo_bytes _ _ _ _ _ _ _ Hf); eapply chain_numbered, Hf). run.
  assert (∃ prev, (match dk_dir (w_disk w) !! fileNamePreRestHt with Some htBytes => ParseUint htBytes | None => Ok 0 end) = Ok prev) as [prev ->].
  { destruct (_ !! _) as [b|]; [by apply Hparse|by eexists]. }
  run. destruct (decide _); by eexists.
Qed.

Lemma rollbackBlockFiles_spec n w c segs jf s : files_ok (dk_dir (w_disk w)) c segs jf [] → S jf = length segs → disk_ok c (w_disk w) →
  index_of indexItems dbName (dk_db (w_disk w)) (take s (entry <$> locs 0 segs)) → (s ≤ S n)%nat → (n < length c)%nat →
  (∃ w', rollbackBlockFiles dbName (Z.of_nat n) w = Ok w' ∧ disk_ok (take (S n) c) (w_disk w') ∧ traced (between (take (S n) c) c) w w') ∨
  ((∃ j, segs !! j = Some [] ∧ (0 < j)%nat) ∧ ∃ err, rollbackBlockFiles dbName (Z.of_nat n) w = Err err).
Proof.
  intros Hf Hl Hd Hi Hs Hn. destruct (file_of_block _ _ _ _ Hf Hl n Hn) as (t & seg & Ht & Hnt). unfold rollbackBlockFiles.
  destruct (ldb_Write_law (dk_db (w_disk w)) [LDelete (constructLevelKey dbName blkMgrInfoKey)]) as (db1 & Hw & Hc).
  assert (Hb1 : ∀ k, bindings db1 !! k = if decide (k = blkMgrInfoKey) then None else bindings (dk_db (w_disk w)) !! k).
  { intros k. rewrite !lookup_view, Hc. cbn. destruct (decide _) as [->|Hne]; [by rewrite lookup_delete_eq|]. rewrite lookup_delete_ne; [done|].
    by intros ?%constructLevelKey_inj. }
  set (w1 := {| w_disk := {| dk_dir := dk_dir (w_disk w); dk_db := db1 |}; w_log := w_log w ++ [WriteDB [LDelete (constructLevelKey dbName blkMgrInfoKey)]] |}).
  assert (He : emit w (WriteDB [LDelete (constructLevelKey dbName blkMgrInfoKey)]) = Ok w1) by (unfold emit; cbn [apply_disk_op]; by rewrite Hw).
  rewrite He. run. cbn [w_disk dk_dir w1].
  assert (Hst : stage c segs s jf (w_disk w1)).
  { pose proof (before_all _ _ _ _ Hf Hl) as Hall. rewrite <-Hl in Hall. split; rewrite ?Hall, ?Hl, ?firstn_all; [done|done| |].
    - split; [|lia|rewrite Hb1, decide_True by done; by right]. eapply index_of_other; [exact Hi|]. intros k Hk. cbn. rewrite Hb1, decide_False; [done|].
      intros ->. by apply blkMgrInfoKey_not_index in Hk.
    - cbn. by rewrite Hb1, decide_True. }
  apply lookup_lt_Some in Ht as Htl.
  assert (Ht1 : traced (between (take (S n) c) c) w w1).
  { eapply traced_emit_whole; [exact He| | |by inversion 1]; [by exists c; split_and!; [apply prefix_take|..]|]. eapply (stage_between c segs n t seg Ht Hnt s Hs Hn jf); [lia|done]. }
  destruct (binarySearch_spec _ _ _ _ Hf Hl n t seg Ht Hnt) as [Hbs|[Hempty [err Herr]]]; [left|right; split; [done|]; rewrite Herr; by eexists].
  rewrite Hbs. run. rewrite (retrieveLastFileSuffix_image _ _ _ _ (fo_image _ _ _ _ _ _ _ Hf)). run.
  replace (Z.to_nat (len segs - 1 - Z.of_nat t)) with (jf - t)%nat by (unfold len; lia).
  destruct (remove_files_spec c segs n t seg Ht Hnt s Hs Hn (jf - t) w1) as (w2 & -> & Hst2 & Ht2); [by replace (t + (jf - t))%nat with jf by lia|]. run.
  rewrite (calculateEndOffSet_spec c segs n t seg Ht Hnt s Hs Hn _ Hst2). run.
  destruct (stage_truncate c segs n t seg Ht Hnt s Hs Hn w2 Hst2) as (w3 & -> & Hok & Ht3). exists w3. split_and!; [done..|].
  eapply traced_trans; [done|]. by eapply traced_trans.
Qed.

Lemma Rollback_spec n mgr c d : mgr_ok mgr c d → distinct_hashes c → (n < length c)%nat →
  (∀ w, Rollback indexItems dbName (Z.of_nat n) (at_start d) = Ok w →
    disk_ok (take (S n) c) (w_disk w) ∧ traced (between (take (S n) c) c) (at_start d) w) ∧
  ((∀ j, 0 < j → dk_dir d !! deriveBlockfilePath j ≠ Some []) → (∀ b, dk_dir d !! fileNamePreRestHt = Some b → ∃ h, ParseUint b = Ok h) →
    ∃ w, Rollback indexItems dbName (Z.of_nat n) (at_start d) = Ok w).
Proof.
  intros (segs & jf0 & Hm) Hhash Hn. destruct (last_file _ _ _ _ _ Hm) as (jf & Hf & Hl). pose proof (mo_files _ _ _ _ _ _ _ _ Hm) as Hf0.
  pose proof (mo_current _ _ _ _ _ _ _ _ Hm) as Hcur. pose proof (mo_db _ _ _ _ _ _ _ _ Hm) as Hdb.
  assert (Hd : disk_ok c d) by (by exists segs, jf0, [], (length c)).
  assert (Hrest : ∀ w1, recordHeightIfGreaterThanPreviousRecording (at_start d) = Ok w1 →
    (∃ w, Rollback indexItems dbName (Z.of_nat n) (at_start d) = Ok w ∧ disk_ok (take (S n) c) (w_disk w) ∧ traced (between (take (S n) c) c) (at_start d) w) ∨
    ((∃ j, segs !! j = Some [] ∧ (0 < j)%nat) ∧ ∃ err, Rollback indexItems dbName (Z.of_nat n) (at_start d) = Err err)).
  { intros w1 Hr. destruct (recordHeight_spec (at_start d) c segs jf w1 Hf Hd Hr) as (Hf1 & Hdb1 & _ & Ht1).
    destruct (recordHeight_spec (at_start d) c segs jf0 w1 Hf0 Hd Hr) as (Hf01 & _ & _ & _). cbn [w_disk at_start] in Hdb1. rewrite <-Hdb1 in Hdb.
    destruct (rollbackBlockIndex_spec c segs jf0 _ Hf01 Hcur Hhash n w1 (length c) eq_refl Hdb ltac:(lia)) as (w2 & Hi & Hd2 & Hdb2 & Ht2).
    rewrite Nat.min_r in Hdb2 by lia. rewrite <-Hd2 in Hf1, Hf01.
    assert (Hdisk2 : disk_ok c (w_disk w2)) by (by exists segs, jf0, [], (S n)).
    assert (Ht12 : traced (between (take (S n) c) c) (at_start d) w2).
    { eapply (traced_weaken (disk_ok c)); [by eapply traced_trans|]. intros d' ?. exists c. split_and!; [apply prefix_take|done|done]. }
    unfold Rollback. rewrite Hr. run. rewrite Hi. run.
    destruct (rollbackBlockFiles_spec n w2 c segs jf (S n) Hf1 Hl Hdisk2 (do_index _ _ _ _ _ _ _ Hdb2) ltac:(lia) Hn) as [(w3 & -> & Hok & Ht3)|?]; [left|by right].
    exists w3. split_and!; [done..|]. by eapply traced_trans. }
  split.
  - intros w Hw. assert (∃ w1, recordHeightIfGreaterThanPreviousRecording (at_start d) = Ok w1) as [w1 Hr].
    { unfold Rollback in Hw. apply bind_Ok in Hw as (w1 & ? & _). by exists w1. }
    destruct (Hrest _ Hr) as [(w' & Hw' & ?)|[_ [err Herr]]]; congruence.
  - intros Hne Hparse. destruct (recordHeight_ok (at_start d) c segs jf Hf Hl Hparse) as [w1 Hr]. destruct (Hrest _ Hr) as [(w' & Hw' & _)|[(j & Hj & Hpos) _]]; [by exists w'|].
    destruct (Hne (Z.of_nat j)); [lia|]. rewrite (im_file _ _ _ _ (fo_image _ _ _ _ _ _ _ Hf) _ _ Hj). by destruct (decide _).
Qed.

(** Without the index the files alone tell everything. *)
Lemma index_dropped mgr c d db : mgr_ok mgr c d → contents db = ∅ → ∃ segs jf, files_ok (dk_dir d) c segs jf [] ∧ S jf = length segs ∧
  db_ok db c segs jf 0 ∧ bindings db !! blkMgrInfoKey = None.
Proof.
  intros (segs & jf0 & Hm) Hdb. destruct (last_file _ _ _ _ _ Hm) as (jf & Hf & Hl). exists segs, jf.
  assert (Hnone : ∀ k, bindings db !! k = None) by (intros k; by rewrite lookup_view, Hdb).
  split_and!; [done|done| |done]. split; [|lia|rewrite Hnone; by right]. rewrite take_0. apply index_of_nil. intros k _. apply Hnone.
Qed.

Lemma first_file f c segs jf b : files_ok f c segs jf [] → S jf = length segs → c !! 0%nat = Some b → ∃ seg, segs !! 0%nat = Some (frame b :: seg).
Proof.
  intros Hf Hl Hb. destruct (place_of _ _ Hmax _ _ _ _ _ Hf _ _ Hb) as (p & o & Hp).
  destruct (locs_lookup _ _ _ _ _ _ Hp) as (j & seg & s1 & s2 & _ & Hj & -> & _ & Hi). destruct s1; [|cbn in Hi; lia].
  destruct j as [|j]; [by exists s2|]. exfalso. destruct (lookup_lt_is_Some_2 segs 0) as [s0 Hs0]; [lia|]. apply lookup_lt_Some in Hj.
  assert (s0 ≠ []) as Hne by (apply (im_before _ _ _ _ (fo_image _ _ _ _ _ _ _ Hf) _ _ Hs0); lia).
  pose proof (before_mono segs 1 (S j) ltac:(lia)) as Hmono. rewrite (before_S _ _ _ Hs0), take_0 in Hmono. destruct s0; [done|]. cbn [concat length] in *. lia.
Qed.
Lemma genesis_copy w c segs jf b : files_ok (dk_dir (w_disk w)) c segs jf [] → S jf = length segs → c !! 0%nat = Some b →
  retrieveGenesisBlkOffsetAndMakeACopy w = w' ← emit w (WriteFile backupGenesisFile (frame b)); Ok (deriveBlockfilePath 0, len (raw (frame b)), w').
Proof.
  intros Hf Hl Hb. destruct (first_file _ _ _ _ _ Hf Hl Hb) as [seg Hseg]. pose proof (im_file _ _ _ _ (fo_image _ _ _ _ _ _ _ Hf) _ _ Hseg) as Hfile.
  destruct (fo_chain _ _ _ _ _ _ _ Hf _ _ Hb) as (h & data & md & txids & Hst & Hnum0).
  assert (Hnext : ∃ pl, bfs_next (dk_dir (w_disk w)) {| bfs_fileNum := 0; bfs_currentOffset := 0 |} =
    Ok (Some (frame b, pl), {| bfs_fileNum := 0; bfs_currentOffset := len (raw (frame b)) |})).
  { eexists. eapply (bfs_next_raw _ _ _ Hfile [] (frame b)); [|by eapply storable_small]. cbn [app]. change (raws (frame b :: seg)) with (raw (frame b) ++ raws seg).
    by rewrite <-app_assoc. }
  destruct Hnext as [pl Hnext]. unfold retrieveGenesisBlkOffsetAndMakeACopy, newBlockfileStream. change (Z.of_nat 0) with 0 in Hfile. rewrite Hfile, decide_False by lia. run.
  rewrite Hnext. run. assert (assertIsGenesisBlock (frame b) = Ok tt) as Hg.
  { unfold assertIsGenesisBlock. rewrite (frame_storable _ _ _ _ _ _ _ Hst), (deserializeBlock_spec _ _ _ _ _ (sto_serializable _ _ _ _ _ _ _ Hst)). run.
    unfold typeless. cbn [b_Header]. rewrite (ser_header _ _ _ _ _ (sto_serializable _ _ _ _ _ _ _ Hst)). cbn [deref]. run. rewrite Hnum0.
    by rewrite decide_False by (by intros []). }
  cbn [from_option fst]. rewrite Hg. by run.
Qed.
Lemma resetToGenesisBlk_spec w c segs jf b : files_ok (dk_dir (w_disk w)) c segs jf [] → S jf = length segs → c !! 0%nat = Some b →
  db_ok (dk_db (w_disk w)) c segs jf 0 → bindings (dk_db (w_disk w)) !! blkMgrInfoKey = None →
  ∃ w', resetToGenesisBlk w = Ok w' ∧ disk_ok (take 1 c) (w_disk w') ∧ traced (between (take 1 c) c) w w'.
Proof.
  intros Hf Hl Hb Hdb Hnone. unfold resetToGenesisBlk. rewrite (retrieveLastFileSuffix_image _ _ _ _ (fo_image _ _ _ _ _ _ _ Hf)). run.
  rewrite decide_False by (unfold len; lia). rewrite (genesis_copy _ _ _ _ _ Hf Hl Hb). destruct (first_file _ _ _ _ _ Hf Hl Hb) as [seg Hseg].
  apply lookup_lt_Some in Hb as Hc. set (w1 := {| w_disk := {| dk_dir := <[backupGenesisFile := frame b]> (dk_dir (w_disk w)); dk_db := dk_db (w_disk w) |};
    w_log := w_log w ++ [WriteFile backupGenesisFile (frame b)] |}).
  assert (He : emit w (WriteFile backupGenesisFile (frame b)) = Ok w1) by done. rewrite He. run.
  assert (Hstage : ∀ x, stage c segs 0 jf {| dk_dir := <[backupGenesisFile := x]> (dk_dir (w_disk w)); dk_db := dk_db (w_disk w) |}).
  { intros x. pose proof (before_all _ _ _ _ Hf Hl) as Hall. rewrite <-Hl in Hall. split; rewrite ?Hall, ?Hl, ?firstn_all; [by apply files_write|done|done|done]. }
  assert (Hn0 : (blocks_before segs 0 ≤ 0 < blocks_before segs 0 + length (frame b :: seg))%nat) by (rewrite take_0; cbn; lia).
  assert (Hbw : ∀ x, between (take 1 c) c {| dk_dir := <[backupGenesisFile := x]> (dk_dir (w_disk w)); dk_db := dk_db (w_disk w) |}).
  { intros x. eapply (stage_between c segs 0 0 _ Hseg Hn0 0 ltac:(lia) Hc jf); [lia|done]. }
  assert (Ht1 : traced (between (take 1 c) c) w w1).
  { eapply traced_emit; [exact He| |apply Hbw|].
    - exists c. split_and!; [apply prefix_take|done|]. by exists segs, jf, [], 0%nat.
    - intros o' d' Hp. inversion Hp as [|? ? b' _]; subst. cbn. intros [= <-]. apply Hbw. }
  replace (Z.to_nat (len segs - 1)) with jf by (unfold len; lia).
  destruct (remove_files_spec c segs 0 0 _ Hseg Hn0 0 ltac:(lia) Hc jf w1 (Hstage _)) as (w2 & Hr & Hst2 & Ht2). change (Z.of_nat 0) with 0 in Hr. rewrite Hr. run.
  destruct (stage_truncate c segs 0 0 _ Hseg Hn0 0 ltac:(lia) Hc w2 Hst2) as (w3 & He3 & Hok & Ht3). rewrite take_0 in He3. cbn [concat length Nat.sub take] in He3.
  rewrite raws_one in He3. change (Z.of_nat 0) with 0 in He3. exists w3. split_and!; [done|done|]. eapply traced_trans; [done|]. by eapply traced_trans.
Qed.
Lemma reset_ledger_spec mgr c d db : mgr_ok mgr c d → contents db = ∅ → c ≠ [] →
  (∀ w, reset_ledger (at_start {| dk_dir := dk_dir d; dk_db := db |}) = Ok w →
    disk_ok (take 1 c) (w_disk w) ∧ traced (between (take 1 c) c) (at_start {| dk_dir := dk_dir d; dk_db := db |}) w) ∧
  ((∀ b, dk_dir d !! fileNamePreRestHt = Some b → ∃ h, ParseUint b = Ok h) →
    ∃ w, reset_ledger (at_start {| dk_dir := dk_dir d; dk_db := db |}) = Ok w).
Proof.
  intros Hm Hdb Hne. set (d1 := {| dk_dir := dk_dir d; dk_db := db |}). destruct (index_dropped _ _ _ _ Hm Hdb) as (segs & jf & Hf & Hl & Hdb1 & Hnone).
  assert (Hd1 : disk_ok c d1) by (by exists segs, jf, [], 0%nat). assert (∃ b, c !! 0%nat = Some b) as [b Hb] by (destruct c; [done|by eexists]).
  assert (Hrest : ∀ w1, recordHeightIfGreaterThanPreviousRecording (at_start d1) = Ok w1 → ∃ w, reset_ledger (at_start d1) = Ok w ∧
    disk_ok (take 1 c) (w_disk w) ∧ traced (between (take 1 c) c) (at_start d1) w); [|split].
  - intros w1 Hr. destruct (recordHeight_spec (at_start d1) c segs jf w1 Hf Hd1 Hr) as (Hf1 & Hdbw & _ & Ht1). cbn [w_disk at_start dk_db d1] in Hdbw.
    rewrite <-Hdbw in Hdb1, Hnone. destruct (resetToGenesisBlk_spec w1 c segs jf b Hf1 Hl Hb Hdb1 Hnone) as (w2 & Hr2 & Hok & Ht2).
    exists w2. unfold reset_ledger. rewrite Hr. run. split_and!; [done..|]. eapply traced_trans; [|done].
    eapply traced_weaken; [done|]. intros d' ?. exists c. split_and!; [apply prefix_take|done|done].
  - intros w Hw. pose proof Hw as Hw0. unfold reset_ledger in Hw0. apply bind_Ok in Hw0 as (w1 & Hr & _). destruct (Hrest _ Hr) as (w' & Hw' & ?). congruence.
  - intros Hparse. destruct (recordHeight_ok (at_start d1) c segs jf Hf Hl Hparse) as [w1 Hr]. destruct (Hrest _ Hr) as (w' & Hw' & _). by exists w'.
Qed.
End proofs.
