(* ===== verification/BlockSafety.v ===== *)
(** * Histories of the block store

  Starts, blocks added, failed writes, crashes at any write, the loss of the
  index, rollbacks and resets: what the store serves after any of them. *)

From S2P Require Import Prelude SortedMap Encoding Version Separated Proto Rwset LiteRwset LevelDB Block BlockSerial BlockFiles BlockIndex BlockStore BlockRecovery BlockServe BlockRollback.
From stdpp Require Import options.
Local Open Scope Z_scope.
Set Default Proof Using "Type*".

Section safety.
Context {L : Type} `{!GoLevelDB L} `{!GoLevelDBLaws L} `{!Sha256} `{!ProtoMessage TxIDIndexValue} `{!TxIDIndexValueLaws}.
Context `{!ProtoMessage BootstrappingSnapshotInfo}.
Context `{!ProtoMessage Envelope, !ProtoMessage Payload, !ProtoMessage ChannelHeader, !ProtoMessage SignatureHeader}.
Context (indexItems : list IndexableAttr) (dbName : bytes) (maxBlockfileSize : Z).
Notation bindings db := (view (contents db) dbName).
Notation storable := (storable indexItems maxBlockfileSize).
Notation mgr_ok := (mgr_ok indexItems dbName maxBlockfileSize).
Notation disk_ok := (disk_ok indexItems dbName maxBlockfileSize).
Notation between := (between indexItems dbName maxBlockfileSize).
Notation serves := (serves indexItems dbName).
Notation distinct_hashes := (distinct_hashes indexItems).

(** A ledger that has never been opened. *)
Definition fresh (d : disk L) : Prop :=
  (∀ name, isBlockFileName name = true → dk_dir d !! name = None) ∧ dk_dir d !! bootstrappingSnapshotInfoFile = None ∧
  ∀ k, index_key k ∨ k = blkMgrInfoKey → bindings (dk_db d) !! k = None.
(** A block that may be given to the store. *)
Definition acceptable (c : list Block) (b : Block) : Prop := (∃ h data md txids, storable b h data md txids) ∧ len c < two62.
(** After a start the number of blocks tells which of them are there. *)
Definition decided (c : list Block) (mgr : blockfileMgr) : list Block := take (Z.to_nat (Height (bm_bcInfo mgr))) c.

(** The disk, the running manager if there is one, the blocks that are there for
    certain, and all that may be there: more than the former when the process
    died while a block was being added or removed. *)
Inductive ledger_run : disk L → option blockfileMgr → list Block → list Block → Prop :=
| lr_new d : fresh d → ledger_run d None [] []
| lr_open d m c1 c2 mgr w : ledger_run d m c1 c2 → newBlockfileMgr indexItems dbName (at_start d) = Ok (mgr, w) →
    ledger_run (w_disk w) (Some mgr) (decided c2 mgr) (decided c2 mgr)
| lr_open_crash d m c1 c2 mgr w d' : ledger_run d m c1 c2 → newBlockfileMgr indexItems dbName (at_start d) = Ok (mgr, w) →
    crashed d (w_log w) d' → ledger_run d' None c1 c2
| lr_add d mgr c io b ok mgr' w : ledger_run d (Some mgr) c c → acceptable c b → io ≠ IoIndexFails →
    addBlock indexItems dbName maxBlockfileSize io mgr b (at_start d) = Ok (ok, mgr', w) →
    ledger_run (w_disk w) (Some mgr') (if ok then c ++ [b] else c) (if ok then c ++ [b] else c)
| lr_add_crash d mgr c io b ok mgr' w d' : ledger_run d (Some mgr) c c → acceptable c b →
    addBlock indexItems dbName maxBlockfileSize io mgr b (at_start d) = Ok (ok, mgr', w) → crashed d (w_log w) d' →
    ledger_run d' None c (c ++ [b])
| lr_drop_index d mgr c db : ledger_run d (Some mgr) c c → contents db = ∅ → ledger_run {| dk_dir := dk_dir d; dk_db := db |} None c c
| lr_rollback d mgr c n w : ledger_run d (Some mgr) c c → distinct_hashes c → (n < length c)%nat →
    Rollback indexItems dbName (Z.of_nat n) (at_start d) = Ok w → ledger_run (w_disk w) None (take (S n) c) (take (S n) c)
| lr_rollback_crash d mgr c n w d' : ledger_run d (Some mgr) c c → distinct_hashes c → (n < length c)%nat →
    Rollback indexItems dbName (Z.of_nat n) (at_start d) = Ok w → crashed d (w_log w) d' → ledger_run d' None (take (S n) c) c
| lr_reset d mgr c db w : ledger_run d (Some mgr) c c → contents db = ∅ → c ≠ [] →
    reset_ledger (at_start {| dk_dir := dk_dir d; dk_db := db |}) = Ok w → ledger_run (w_disk w) None (take 1 c) (take 1 c)
| lr_reset_crash d mgr c db w d' : ledger_run d (Some mgr) c c → contents db = ∅ → c ≠ [] →
    reset_ledger (at_start {| dk_dir := dk_dir d; dk_db := db |}) = Ok w → crashed {| dk_dir := dk_dir d; dk_db := db |} (w_log w) d' →
    ledger_run d' None (take 1 c) c.

Definition run_ok (d : disk L) (m : option blockfileMgr) (c1 c2 : list Block) : Prop :=
  match m with Some mgr => c1 = c2 ∧ mgr_ok mgr c2 d | None => between c1 c2 d end.

Context (Hmax : 0 ≤ maxBlockfileSize < two56) (Hnum : IndexableAttrBlockNum ∈ indexItems) (Hname : x00 ∉ dbName).

Lemma fresh_ok d : fresh d → disk_ok [] d.
Proof.
  intros (Hfiles & Hsnap & Hkeys). exists [], 0%nat, [], 0%nat. split.
  - split; [|done|done|constructor|done|by left|done|by compute]. split; try done; [|cbn; lia|apply torn_nil].
    intros name Hn [? Hs]. by rewrite Hfiles in Hs.
  - split; [|done|rewrite Hkeys; by auto]. apply index_of_nil. intros k Hk. apply Hkeys. by left.
Qed.
Lemma between_refl c d : disk_ok c d → between c c d.
Proof. by exists c. Qed.
Lemma run_ok_disk d m c1 c2 : run_ok d m c1 c2 → between c1 c2 d.
Proof. destruct m as [mgr|]; [|done]. intros [-> ?]. by eapply between_refl, mgr_ok_disk. Qed.
Lemma mgr_ok_height mgr c d : mgr_ok mgr c d → Height (bm_bcInfo mgr) = len c.
Proof. intros (segs & jf & Hm). rewrite (mo_chain _ _ _ _ _ _ _ _ Hm). apply (chain_info_height _ _ Hmax Hnum), (mo_files _ _ _ _ _ _ _ _ Hm). Qed.

(** Recovery from a state between two chains. *)
Lemma recover d m c1 c2 : run_ok d m c1 c2 → ∃ mgr w, newBlockfileMgr indexItems dbName (at_start d) = Ok (mgr, w) ∧
  mgr_ok mgr (decided c2 mgr) (w_disk w) ∧ c1 `prefix_of` decided c2 mgr ∧ ∀ d', crashed d (w_log w) d' → between c1 c2 d'.
Proof.
  intros (c & H1 & [r Hr] & Hd)%run_ok_disk. destruct (newBlockfileMgr_spec _ _ _ Hmax Hnum _ _ Hd) as (mgr & w & Hn & Hm & Ht). exists mgr, w.
  assert (decided c2 mgr = c) as ->.
  { unfold decided. rewrite (mgr_ok_height _ _ _ Hm), to_nat_len, Hr. apply take_app_length. }
  split_and!; [done..|]. intros d' Hc. exists c. split_and!; [done|by exists r|]. by eapply traced_crash.
Qed.
(** Adding a block that is acceptable: refused, or as described before. *)
Lemma add mgr c d io b ok mgr' w : mgr_ok mgr c d → acceptable c b → addBlock indexItems dbName maxBlockfileSize io mgr b (at_start d) = Ok (ok, mgr', w) →
  (io ≠ IoIndexFails → mgr_ok mgr' (if ok then c ++ [b] else c) (w_disk w)) ∧ ∀ d', crashed d (w_log w) d' → between c (c ++ [b]) d'.
Proof.
  intros Hm ((h & data & md & txids & Hs) & Hcount) Ha.
  assert (bh_Number h = Height (bm_bcInfo mgr) ∧ bh_PreviousHash h = CurrentBlockHash (bm_bcInfo mgr)) as [Hn Hp].
  { unfold addBlock in Ha. rewrite (ser_header _ _ _ _ _ (sto_serializable _ _ _ _ _ _ _ Hs)) in Ha. cbn [deref] in Ha.
    rewrite bind_Ok_eq in Ha. destruct (decide (bh_Number h ≠ _)) as [|Hn]; [done|]. apply dec_stable in Hn.
    destruct (decide (bh_PreviousHash h ≠ _)) as [|Hp]; [done|]. by apply dec_stable in Hp. }
  destruct (addBlock_spec _ _ _ Hmax Hnum io mgr c d b h data md txids Hm Hs Hcount Hn Hp) as (ok' & mgr'' & w' & Ha' & _ & Hok & Ht).
  rewrite Ha in Ha'. injection Ha' as -> -> ->. split; [exact Hok|]. intros d' Hc.
  assert (c `prefix_of` c ++ [b]) by by eexists. destruct (traced_crash _ _ _ _ Ht Hc) as [?|?]; [by exists c|by exists (c ++ [b])].
Qed.

Lemma ledger_run_ok d m c1 c2 : ledger_run d m c1 c2 → run_ok d m c1 c2.
Proof.
  induction 1 as [d Hd|d m c1 c2 mgr w _ IH Hn|d m c1 c2 mgr w d' _ IH Hn Hc|d mgr c io b ok mgr' w _ [_ IH] Hb Hio Ha
    |d mgr c io b ok mgr' w d' _ [_ IH] Hb Ha Hc|d mgr c db _ [_ IH] Hdb|d mgr c n w _ [_ IH] Hh Hlt Hr|d mgr c n w d' _ [_ IH] Hh Hlt Hr Hc
    |d mgr c db w _ [_ IH] Hdb Hne Hr|d mgr c db w d' _ [_ IH] Hdb Hne Hr Hc].
  - by apply between_refl, fresh_ok.
  - destruct (recover _ _ _ _ IH) as (mgr' & w' & Hn' & Hm & _). rewrite Hn in Hn'. by injection Hn' as -> ->.
  - destruct (recover _ _ _ _ IH) as (mgr' & w' & Hn' & _ & _ & Hcr). rewrite Hn in Hn'. injection Hn' as -> ->. by apply Hcr.
  - destruct (add _ _ _ _ _ _ _ _ IH Hb Ha) as [Hm _]. split; [done|]. by apply Hm.
  - destruct (add _ _ _ _ _ _ _ _ IH Hb Ha) as [_ Hcr]. by apply Hcr.
  - destruct (index_dropped _ _ _ Hmax Hnum Hname _ _ _ _ IH Hdb) as (segs & jf & Hf & _ & Hd & _). apply between_refl. by exists segs, jf, [], 0%nat.
  - destruct (Rollback_spec _ _ _ Hmax Hnum Hname n _ _ _ IH Hh Hlt) as [Hok _]. apply between_refl. by apply Hok.
  - destruct (Rollback_spec _ _ _ Hmax Hnum Hname n _ _ _ IH Hh Hlt) as [Hok _]. destruct (Hok _ Hr) as [_ Ht]. exact (traced_crash _ _ _ _ Ht Hc).
  - destruct (reset_ledger_spec _ _ _ Hmax Hnum Hname _ _ _ _ IH Hdb Hne) as [Hok _]. apply between_refl. by apply Hok.
  - destruct (reset_ledger_spec _ _ _ Hmax Hnum Hname _ _ _ _ IH Hdb Hne) as [Hok _]. destruct (Hok _ Hr) as [_ Ht]. exact (traced_crash _ _ _ _ Ht Hc).
Qed.

(** C3: In every history of a ledger - starts, blocks added, writes that fail
    and are cut back, crashes in the middle of any write of any start or
    addition, the index deleted, rollbacks and resets and crashes during them -
    a running store serves exactly the blocks acknowledged and not rolled back,
    by number, hash, transaction ID and position; it takes every next block that
    links to the last one; and a start after any of these succeeds and serves
    the blocks that are there for certain, and of the others a prefix: at most
    the block that was being added, or those that were being removed, when the
    process died. *)
Theorem blockstore_crash_safe d m c1 c2 : ledger_run d m c1 c2 →
  (∀ mgr, m = Some mgr → serves mgr d c1 ∧
     ∀ b h data md txids, storable b h data md txids → len c1 < two62 → bh_Number h = len c1 → bh_PreviousHash h = CurrentBlockHash (chain_info c1) →
       ∃ mgr' w, addBlock indexItems dbName maxBlockfileSize IoOk mgr b (at_start d) = Ok (true, mgr', w) ∧ serves mgr' (w_disk w) (c1 ++ [b])) ∧
  ∃ mgr w c, newBlockfileMgr indexItems dbName (at_start d) = Ok (mgr, w) ∧ c1 `prefix_of` c ∧ c `prefix_of` c2 ∧ serves mgr (w_disk w) c.
Proof.
  intros Hrun%ledger_run_ok. split.
  - intros mgr ->. destruct Hrun as [-> Hm]. pose proof (mgr_ok_serves _ _ _ Hmax Hnum Hname _ _ _ Hm) as Hserves. split; [done|]. intros b h data md txids Hs Hc Hn Hp.
    rewrite <-(mgr_ok_height _ _ _ Hm) in Hn. rewrite <-(sv_info _ _ _ _ _ Hserves) in Hp.
    destruct (addBlock_spec _ _ _ Hmax Hnum IoOk mgr c2 d b h data md txids Hm Hs Hc Hn Hp) as (ok & mgr' & w & Ha & Hok & Hm' & _).
    rewrite (proj2 Hok) in * by done. exists mgr', w. split; [done|]. by eapply mgr_ok_serves, Hm'.
  - destruct (recover _ _ _ _ Hrun) as (mgr & w & Hn & Hm & Hp & _). exists mgr, w, (decided c2 mgr). split_and!; [done|done|apply prefix_take|].
    by eapply mgr_ok_serves.
Qed.

(** C15: Rolling a stopped ledger back to a block that it has: when the tool
    finishes, the next start serves exactly the blocks up to that one, and when
    it dies at any write, the next start serves at least these and at most what
    was there before. It finishes whenever no block file after the first is
    empty and the recorded height, if there is one, is readable. *)
Theorem rollback_to_block d mgr c n : ledger_run d (Some mgr) c c → distinct_hashes c → (n < length c)%nat →
  (∀ w, Rollback indexItems dbName (Z.of_nat n) (at_start d) = Ok w →
    (∃ mgr' w', newBlockfileMgr indexItems dbName (at_start (w_disk w)) = Ok (mgr', w') ∧ serves mgr' (w_disk w') (take (S n) c)) ∧
    ∀ d', crashed d (w_log w) d' → ∃ mgr' w' c', newBlockfileMgr indexItems dbName (at_start d') = Ok (mgr', w') ∧
      take (S n) c `prefix_of` c' ∧ c' `prefix_of` c ∧ serves mgr' (w_disk w') c') ∧
  ((∀ j, 0 < j → dk_dir d !! deriveBlockfilePath j ≠ Some []) → (∀ b, dk_dir d !! fileNamePreRestHt = Some b → ∃ h, ParseUint b = Ok h) →
    ∃ w, Rollback indexItems dbName (Z.of_nat n) (at_start d) = Ok w).
Proof.
  intros [_ Hm]%ledger_run_ok Hh Hlt. destruct (Rollback_spec _ _ _ Hmax Hnum Hname n _ _ _ Hm Hh Hlt) as [Hok Hprog]. split; [|done].
  intros w Hr. destruct (Hok w Hr) as [Hd Ht]. split.
  - destruct (recover (w_disk w) None _ _ (between_refl _ _ Hd)) as (mgr' & w' & Hn & Hm' & Hp & _). exists mgr', w'. split; [done|].
    assert (decided (take (S n) c) mgr' = take (S n) c) as Heq by (apply (anti_symm prefix); [apply prefix_take|done]). rewrite Heq in Hm'. by eapply mgr_ok_serves.
  - intros d' Hc. assert (Hb : between (take (S n) c) c d') by (by eapply traced_crash).
    destruct (recover d' None _ _ Hb) as (mgr' & w' & Hn & Hm' & Hp & _). exists mgr', w', (decided c mgr'). split_and!; [done|done|apply prefix_take|].
    by eapply mgr_ok_serves.
Qed.
End safety.

(** ** A sample history *)

#[local] Instance TxIDIndexValue_eq_dec : EqDecision TxIDIndexValue.
Proof. solve_decision. Defined.
#[local] Instance TxIDIndexValue_countable : Countable TxIDIndexValue.
Proof.
  refine (inj_countable' (λ v, (BlkLocation v, TxLocation v, TxValidationCode v)) (λ p, {| BlkLocation := p.1.1; TxLocation := p.1.2; TxValidationCode := p.2 |}) _).
  by intros [].
Defined.
#[local] Instance sample_bs_sha : Sha256 := λ b, b.
#[local] Instance sample_bs_txv : ProtoMessage TxIDIndexValue := tagged_proto TxIDIndexValue x01 {| BlkLocation := []; TxLocation := []; TxValidationCode := 0 |}.
#[local] Instance sample_bs_txv_laws : TxIDIndexValueLaws.
Proof.
  intros v _ Hne. unfold Marshal. cbn. rewrite decide_False by (by intros ->). eexists. split_and!; [done|done|].
  unfold Unmarshal. cbn. by rewrite decide_True, bytes_pos_pos_bytes, decode_encode.
Qed.
#[local] Instance sample_bs_boot : ProtoMessage BootstrappingSnapshotInfo := {| Marshal _ := Err "no codec"; Unmarshal _ := Err "no codec" |}.
#[local] Instance sample_bs_payload : ProtoMessage Payload := {| Marshal _ := Err "no codec"; Unmarshal _ := Err "no codec" |}.
#[local] Instance sample_bs_chdr : ProtoMessage ChannelHeader := {| Marshal _ := Err "no codec"; Unmarshal _ := Err "no codec" |}.
#[local] Instance sample_bs_shdr : ProtoMessage SignatureHeader := {| Marshal _ := Err "no codec"; Unmarshal _ := Err "no codec" |}.
#[local] Instance sample_bs_env : ProtoMessage Envelope := {|
  Marshal e := Ok (env_Payload e);
  Unmarshal b := Ok {| env_Payload := b; env_Signature := []; env_Type := 0;
    env_LeanEnv := Some {| le_ChannelId := B "ch"; le_TxId := b; le_ShardId := 0; le_OrgsInvolved := []; le_Nonce := [];
      le_TlsCertHash := []; le_Results := None; le_Meta := None |} |}
|}.

Definition sample_items : list IndexableAttr := [IndexableAttrBlockNum; IndexableAttrBlockHash; IndexableAttrTxID; IndexableAttrBlockNumTranNum].
Definition sample_header (n : Z) (prev : bytes) : BlockHeader := {| bh_Number := n; bh_PreviousHash := prev; bh_DataHash := B "d" |}.
Definition sample_bs_block (n : Z) (prev : bytes) (txs : list bytes) : Block :=
  {| b_Header := Some (sample_header n prev); b_Data := Some txs; b_Metadata := Some [[]; []; replicate (length txs) x00]; b_BlockType := 0 |}.
Definition sample_genesis : Block := sample_bs_block 0 [] [B "config"].
Definition sample_next : Block := sample_bs_block 1 (BlockHeaderHash (sample_header 0 [])) [B "t1"; B "t2"].
Definition sample_bs_disk : disk (gmap bytes bytes) := {| dk_dir := ∅; dk_db := ∅ |}.
Notation sample_run := (ledger_run sample_items (B "ch") 128).

Lemma sample_storable n prev txs : is_u64 n → len txs < 256 → (∀ txid, txid ∈ txs → len txid < 256) →
  len (raw (block_bytes (sample_header n prev) txs [[]; []; replicate (length txs) x00])) ≤ 128 →
  BlockRecovery.storable sample_items 128 (sample_bs_block n prev txs) (sample_header n prev) txs [[]; []; replicate (length txs) x00] txs.
Proof.
  intros Hn Htxs Hids Hlen. split; [split; try done| | |].
  - clear. induction txs as [|t txs IH]; [done|]. cbn [mapM]. by rewrite IH.
  - unfold raw in Hlen. rewrite len_app in Hlen. pose proof (len_nonneg (EncodeVarint (len (block_bytes (sample_header n prev) txs [[]; []; replicate (length txs) x00])))).
    unfold two64. lia.
  - done.
  - exists (replicate (length txs) x00). split; [done|]. intros _. by rewrite length_replicate.
  - intros txid Hin%Hids. unfold two64. lia.
Qed.

(** The states of the history, as the code computes them. *)
Definition no_mgr : blockfileMgr :=
  {| bm_blockfilesInfo := info_of [] 0 0; bm_bootstrappingSnapshotInfo := None; bm_currentFileWriter := []; bm_bcInfo := chain_info [] |}.
Definition sample_1 := result (newBlockfileMgr sample_items (B "ch") (at_start sample_bs_disk)) (no_mgr, at_start sample_bs_disk).
Definition sample_2 := result (addBlock sample_items (B "ch") 128 IoOk sample_1.1 sample_genesis (at_start (w_disk sample_1.2))) (false, no_mgr, at_start sample_bs_disk).
Definition sample_3 := result (addBlock sample_items (B "ch") 128 IoOk sample_2.1.2 sample_next (at_start (w_disk sample_2.2))) (false, no_mgr, at_start sample_bs_disk).
Definition sample_4 := result (Rollback sample_items (B "ch") 0 (at_start (w_disk sample_3.2))) (at_start sample_bs_disk).

Lemma sample_acceptable c n prev txs : len c < two62 → is_u64 n → len txs < 256 → (∀ txid, txid ∈ txs → len txid < 256) →
  len (raw (block_bytes (sample_header n prev) txs [[]; []; replicate (length txs) x00])) ≤ 128 →
  acceptable sample_items 128 c (sample_bs_block n prev txs).
Proof. intros Hc Hn Htxs Hids Hlen. split; [|done]. do 4 eexists. by apply sample_storable. Qed.

Lemma sample_run_2 : sample_run (w_disk sample_2.2) (Some sample_2.1.2) [sample_genesis] [sample_genesis].
Proof.
  assert (H1 : newBlockfileMgr sample_items (B "ch") (at_start sample_bs_disk) = Ok (sample_1.1, sample_1.2)).
  { rewrite <-surjective_pairing. apply result_Ok. by vm_compute. }
  assert (H2 : addBlock sample_items (B "ch") 128 IoOk sample_1.1 sample_genesis (at_start (w_disk sample_1.2)) = Ok (true, sample_2.1.2, sample_2.2)).
  { replace true with sample_2.1.1 by by vm_compute. rewrite <-!surjective_pairing. apply result_Ok. by vm_compute. }
  eapply (lr_add _ _ _ _ _ [] IoOk sample_genesis true); [|apply sample_acceptable; [by vm_compute|by split|done| |by vm_compute]|done|exact H2].
  - assert (decided [] sample_1.1 = []) as <- by apply take_nil.
    eapply (lr_open _ _ _ sample_bs_disk None [] []); [|exact H1]. apply lr_new.
    split_and!; [intros name _; apply lookup_empty|apply lookup_empty|intros k _; rewrite lookup_view; exact (lookup_empty (M := gmap bytes) _)].
  - by intros ? ->%list_elem_of_singleton.
Qed.
Lemma sample_run_3 : sample_run (w_disk sample_3.2) (Some sample_3.1.2) [sample_genesis; sample_next] [sample_genesis; sample_next].
Proof.
  assert (H3 : addBlock sample_items (B "ch") 128 IoOk sample_2.1.2 sample_next (at_start (w_disk sample_2.2)) = Ok (true, sample_3.1.2, sample_3.2)).
  { replace true with sample_3.1.1 by by vm_compute. rewrite <-!surjective_pairing. apply result_Ok. by vm_compute. }
  eapply (lr_add _ _ _ _ _ [sample_genesis] IoOk sample_next true); [exact sample_run_2|apply sample_acceptable; [by vm_compute|by split|done| |by vm_compute]|done|exact H3].
  intros ? Hin. rewrite !elem_of_cons, elem_of_nil in Hin. by destruct Hin as [->|[->|[]]].
Qed.
(** The process dies while block 1 is being written. *)
Lemma sample_history : ∃ d, sample_run d None [sample_genesis] [sample_genesis; sample_next].
Proof.
  assert (H3 : addBlock sample_items (B "ch") 128 IoOk sample_2.1.2 sample_next (at_start (w_disk sample_2.2)) = Ok (sample_3.1.1, sample_3.1.2, sample_3.2)).
  { rewrite <-!surjective_pairing. apply result_Ok. by vm_compute. }
  assert (Hlog : ∃ name b1 b2 rest, w_log sample_3.2 = AppendFile name b1 :: AppendFile name b2 :: rest) by (do 4 eexists; by vm_compute).
  destruct Hlog as (name & b1 & b2 & rest & Hlog). eexists.
  eapply (lr_add_crash _ _ _ _ _ [sample_genesis] IoOk sample_next); [exact sample_run_2| |exact H3|].
  - apply sample_acceptable; [by vm_compute|by split|done| |by vm_compute]. intros ? Hin. rewrite !elem_of_cons, elem_of_nil in Hin. by destruct Hin as [->|[->|[]]].
  - rewrite Hlog. eapply crashed_later; [done|]. eapply (crashed_partial _ _ (AppendFile name (take 5 b2))); [constructor; apply prefix_take|done].
Qed.

(** The store recovers from the crash of the history. *)
Lemma blockstore_crash_safe_witness : ∃ d, sample_run d None [sample_genesis] [sample_genesis; sample_next] ∧
  ∃ mgr w c, newBlockfileMgr sample_items (B "ch") (at_start d) = Ok (mgr, w) ∧ [sample_genesis] `prefix_of` c ∧ c `prefix_of` [sample_genesis; sample_next] ∧
    serves sample_items (B "ch") mgr (w_disk w) c.
Proof.
  destruct sample_history as [d Hd]. exists d. split; [done|].
  refine (proj2 (blockstore_crash_safe sample_items (B "ch") 128 _ _ _ d None _ _ Hd)).
  - split; [done|]. by vm_compute.
  - left.
  - by apply (bool_decide_unpack _).
Defined.

(** The ledger is rolled back to its first block. *)
Lemma rollback_to_block_witness : ∃ d w mgr' w', sample_run d (Some sample_3.1.2) [sample_genesis; sample_next] [sample_genesis; sample_next] ∧
  Rollback sample_items (B "ch") 0 (at_start d) = Ok w ∧
  newBlockfileMgr sample_items (B "ch") (at_start (w_disk w)) = Ok (mgr', w') ∧ serves sample_items (B "ch") mgr' (w_disk w') [sample_genesis].
Proof.
  destruct (rollback_to_block sample_items (B "ch") 128 ltac:(by split; [|vm_compute]) ltac:(left) ltac:(by apply (bool_decide_unpack _))
    (w_disk sample_3.2) sample_3.1.2 [sample_genesis; sample_next] 0 sample_run_3) as [Hdone _].
  - intros _ j j' b b' h Hj Hj' Hb Hb'. destruct j as [|[|j]], j' as [|[|j']]; simplify_eq/=; try done; by vm_compute in Hb, Hb'; simplify_eq.
  - cbn. lia.
  - assert (Hr : Rollback sample_items (B "ch") 0 (at_start (w_disk sample_3.2)) = Ok sample_4) by (apply result_Ok; by vm_compute).
    destruct (Hdone _ Hr) as [(mgr' & w' & Hn & Hs) _]. exists (w_disk sample_3.2), sample_4, mgr', w'.
    split_and!; [exact sample_run_3|exact Hr|exact Hn|exact Hs].
Defined.

(** The second block, written and read back. *)
Lemma block_serialization_roundtrip_witness : ∃ bs info, serializeBlock sample_next = Ok (bs, info) ∧ deserializeBlock bs = Ok sample_next ∧
  ∃ loc b', (sbi_txOffsets info !! 1%nat) = Some {| ti_txID := B "t2"; ti_loc := loc |} ∧
    buffer_DecodeRawBytes (newBuffer (slice bs (lp_offset loc) (bytesLength loc))) = Ok (B "t2", b').
Proof.
  destruct (serializeBlock sample_next) as [[bs info]| |] eqn:Hs; [|by vm_compute in Hs..].
  assert (len bs < two64) as Hlen by (vm_compute in Hs; injection Hs as <- _; by vm_compute).
  destruct (block_serialization_roundtrip sample_next bs info Hs) as (Hd & _ & Htx); [by intros h [= <-]|done|].
  exists bs, info. split_and!; [done|exact Hd|]. destruct (Htx [B "t1"; B "t2"] 1%nat (B "t2")) as (txid & loc & b' & Hl & Hid & _ & _ & Hb); [done..|].
  assert (txid = B "t2") as -> by (vm_compute in Hid; by injection Hid as <-). exists loc, b'. exact (conj Hl Hb).
Defined.
