(* ===== verification/ConfigTree.v ===== *)
(** * Configuration trees

  Models the configuration of a channel as a tree of groups, values and
  policies (fabric-protos-go common/configtx.pb.go), the map from paths to
  elements made of it and the tree made of such a map
  (common/configtx/configmap.go), the names of elements and channels
  (common/configtx/validator.go) and the comparison of elements
  (common/configtx/compare.go).

  The maps of the messages are [gmap]s; their entries are not nil, as in any
  message that was unmarshalled. A loop over a map is [range_map], whose order
  is not specified. *)

From S2P Require Import Prelude Separated.
From stdpp Require Import options.
Local Open Scope Z_scope.
Set Default Proof Using "Type*".

(** ** Messages *)

Record Policy := { pol_Type : Z; pol_Value : bytes }.
Record ConfigValue := { cv_Version : Z; cv_Value : bytes; cv_ModPolicy : bytes }.
Record ConfigPolicy := { cp_Version : Z; cp_Policy : option Policy; cp_ModPolicy : bytes }.
Inductive ConfigGroup := mkConfigGroup {
  cgr_Version : Z;
  cgr_Groups : gmap bytes ConfigGroup;
  cgr_Values : gmap bytes ConfigValue;
  cgr_Policies : gmap bytes ConfigPolicy;
  cgr_ModPolicy : bytes
}.
Record Config := { cfg_Sequence : Z; cfg_ChannelGroup : option ConfigGroup }.
Definition NewConfigGroup : ConfigGroup := mkConfigGroup 0 ∅ ∅ ∅ [].

#[export] Instance Policy_eq_dec : EqDecision Policy.
Proof. solve_decision. Defined.
#[export] Instance ConfigValue_eq_dec : EqDecision ConfigValue.
Proof. solve_decision. Defined.
#[export] Instance ConfigPolicy_eq_dec : EqDecision ConfigPolicy.
Proof. solve_decision. Defined.

(** A Go [for k, v := range m] loop whose body may return an error. *)
Definition range_map {A S} (f : S → bytes → A → res S) (s : S) (m : gmap bytes A) : res S :=
  map_fold (λ k v acc, s ← acc; f s k v) (Ok s) m.

(** [proto.Equal] on groups: nil and empty are not told apart. *)
Fixpoint proto_Equal (g h : ConfigGroup) {struct g} : bool :=
  bool_decide (cgr_Version g = cgr_Version h) && bool_decide (cgr_ModPolicy g = cgr_ModPolicy h) &&
  bool_decide (cgr_Values g = cgr_Values h) && bool_decide (cgr_Policies g = cgr_Policies h) &&
  bool_decide (size (cgr_Groups g) = size (cgr_Groups h)) &&
  map_fold (λ k g' b, b && match cgr_Groups h !! k with Some h' => proto_Equal g' h' | None => false end) true (cgr_Groups g).

(** ** Names *)

Definition MaxLength : nat := 249.
Definition in_range (lo hi : byte) (b : byte) : bool := (byteZ lo <=? byteZ b) && (byteZ b <=? byteZ hi).
Definition lower (b : byte) : bool := in_range "a" "z" b.
Definition upper (b : byte) : bool := in_range "A" "Z" b.
Definition digit (b : byte) : bool := in_range "0" "9" b.
Definition dot_or_dash (b : byte) : bool := bool_decide (b = "."%byte) || bool_decide (b = "-"%byte).
Definition config_char (b : byte) : bool := lower b || upper b || digit b || dot_or_dash b.
Definition channel_char (b : byte) : bool := lower b || digit b || dot_or_dash b.

Fixpoint take_while (p : byte → bool) (s : bytes) : bytes :=
  match s with [] => [] | b :: s => if p b then b :: take_while p s else [] end.
(** The leftmost longest match of the expression [[first][rest]*]. *)
Fixpoint FindString (first rest : byte → bool) (s : bytes) : bytes :=
  match s with [] => [] | b :: s => if first b then b :: take_while rest s else FindString first rest s end.

Definition validateConfigID (configID : bytes) : res unit :=
  if decide (length configID = 0%nat) then Err "config ID illegal, cannot be empty"
  else if decide (MaxLength < length configID)%nat then Err "config ID illegal, cannot be longer than 249"
  else if decide (configID = B "." ∨ configID = B "..") then Err "name for config ID is not allowed"
  else if decide (length (FindString config_char config_char configID) ≠ length configID) then Err "config ID contains illegal characters"
  else Ok ().
Definition ValidateChannelID (channelID : bytes) : res unit :=
  if decide (length channelID = 0%nat) then Err "channel ID illegal, cannot be empty"
  else if decide (MaxLength < length channelID)%nat then Err "channel ID illegal, cannot be longer than 249"
  else if decide (length (FindString lower channel_char channelID) ≠ length channelID) then Err "contains illegal characters"
  else Ok ().

(** ** Elements *)

(** One of the three pointers is not nil. *)
Record comparable := {
  cg_ConfigGroup : option ConfigGroup;
  cg_ConfigValue : option ConfigValue;
  cg_ConfigPolicy : option ConfigPolicy;
  cg_key : bytes;
  cg_path : list bytes
}.
Definition group_element (key : bytes) (path : list bytes) (g : ConfigGroup) : comparable :=
  {| cg_ConfigGroup := Some g; cg_ConfigValue := None; cg_ConfigPolicy := None; cg_key := key; cg_path := path |}.
Definition value_element (key : bytes) (path : list bytes) (v : ConfigValue) : comparable :=
  {| cg_ConfigGroup := None; cg_ConfigValue := Some v; cg_ConfigPolicy := None; cg_key := key; cg_path := path |}.
Definition policy_element (key : bytes) (path : list bytes) (p : ConfigPolicy) : comparable :=
  {| cg_ConfigGroup := None; cg_ConfigValue := None; cg_ConfigPolicy := Some p; cg_key := key; cg_path := path |}.

Definition version (cg : comparable) : Z :=
  match cg_ConfigGroup cg, cg_ConfigValue cg, cg_ConfigPolicy cg with
  | Some g, _, _ => cgr_Version g
  | _, Some v, _ => cv_Version v
  | _, _, Some p => cp_Version p
  | _, _, _ => 0
  end.
Definition modPolicy (cg : comparable) : bytes :=
  match cg_ConfigGroup cg, cg_ConfigValue cg, cg_ConfigPolicy cg with
  | Some g, _, _ => cgr_ModPolicy g
  | _, Some v, _ => cv_ModPolicy v
  | _, _, Some p => cp_ModPolicy p
  | _, _, _ => []
  end.

(** *** Comparison *)

Definition equalConfigValues (lhs rhs : ConfigValue) : bool :=
  bool_decide (cv_Version lhs = cv_Version rhs) && bool_decide (cv_ModPolicy lhs = cv_ModPolicy rhs) && bool_decide (cv_Value lhs = cv_Value rhs).
(** The last comparison of the code is one of pointers, one of which is nil. *)
Definition equalConfigPolicies (lhs rhs : ConfigPolicy) : bool :=
  if bool_decide (cp_Version lhs ≠ cp_Version rhs) || bool_decide (cp_ModPolicy lhs ≠ cp_ModPolicy rhs) then false
  else
    match cp_Policy lhs, cp_Policy rhs with
    | Some p, Some q => bool_decide (pol_Type p = pol_Type q) && bool_decide (pol_Value p = pol_Value q)
    | None, None => true
    | _, _ => false
    end.
(** [subsetOfGroups], [subsetOfPolicies] and [subsetOfValues]. *)
Definition subsetOf {A} (inner outer : gmap bytes A) : bool :=
  if decide (size inner = 0%nat) then true
  else if decide (size outer < size inner)%nat then false
  else map_fold (λ key _ b, b && bool_decide (is_Some (outer !! key))) true inner.
Definition equalConfigGroup (lhs rhs : ConfigGroup) : bool :=
  if bool_decide (cgr_Version lhs ≠ cgr_Version rhs) || bool_decide (cgr_ModPolicy lhs ≠ cgr_ModPolicy rhs) then false
  else subsetOf (cgr_Groups lhs) (cgr_Groups rhs) && subsetOf (cgr_Groups rhs) (cgr_Groups lhs) &&
       subsetOf (cgr_Policies lhs) (cgr_Policies rhs) && subsetOf (cgr_Policies rhs) (cgr_Policies lhs) &&
       subsetOf (cgr_Values lhs) (cgr_Values rhs) && subsetOf (cgr_Values rhs) (cgr_Values lhs).
Definition equals (cg other : comparable) : bool :=
  match cg_ConfigGroup cg, cg_ConfigValue cg, cg_ConfigPolicy cg with
  | Some g, _, _ => match cg_ConfigGroup other with None => false | Some h => equalConfigGroup g h end
  | _, Some v, _ => match cg_ConfigValue other with None => false | Some w => equalConfigValues v w end
  | _, _, Some p => match cg_ConfigPolicy other with None => false | Some q => equalConfigPolicies p q end
  | _, _, _ => false
  end.

(** ** From a tree to a map *)

Definition groupPrefix : bytes := B "[Group]  ".
Definition valuePrefix : bytes := B "[Value]  ".
Definition policyPrefix : bytes := B "[Policy] ".
Definition pathSeparator : bytes := B "/".
Definition hackyFixOrdererCapabilities : bytes := B "[Value]  /Channel/Orderer/Capabilities".
Definition hackyFixNewModPolicy : bytes := B "Admins".

(** [strings.Join]. *)
Fixpoint Join (l : list bytes) (sep : bytes) : bytes :=
  match l with [] => [] | [s] => s | s :: l => s ++ sep ++ Join l sep end.

Definition prefix_of_element (cg : comparable) : bytes :=
  match cg_ConfigGroup cg, cg_ConfigValue cg, cg_ConfigPolicy cg with
  | Some _, _, _ => groupPrefix
  | _, Some _, _ => valuePrefix
  | _, _, Some _ => policyPrefix
  | _, _, _ => []
  end.
Definition fqPath (cg : comparable) : bytes :=
  match cg_path cg with
  | [] => prefix_of_element cg ++ pathSeparator ++ cg_key cg
  | path => prefix_of_element cg ++ pathSeparator ++ Join path pathSeparator ++ pathSeparator ++ cg_key cg
  end.
Definition addToMap (cg : comparable) (result : gmap bytes comparable) : res (gmap bytes comparable) :=
  _ ← validateConfigID (cg_key cg);
  Ok (<[fqPath cg := cg]> result).

Fixpoint recurseConfig (result : gmap bytes comparable) (path : list bytes) (group : ConfigGroup) {struct group} : res (gmap bytes comparable) :=
  key ← index path (length path - 1);
  result ← addToMap (group_element key (take (length path - 1) path) group) result;
  result ← range_map (λ result key group, recurseConfig result (path ++ [key]) group) result (cgr_Groups group);
  result ← range_map (λ result key value, addToMap (value_element key path value) result) result (cgr_Values group);
  range_map (λ result key policy, addToMap (policy_element key path policy) result) result (cgr_Policies group).
Definition mapConfig (channelGroup : option ConfigGroup) (rootGroupKey : bytes) : res (gmap bytes comparable) :=
  match channelGroup with None => Ok ∅ | Some g => recurseConfig ∅ [rootGroupKey] g end.

(** ** From a map to a tree *)

Definition fix_mod_policy (modPolicy : bytes) : bytes := if decide (modPolicy = []) then hackyFixNewModPolicy else modPolicy.
Definition fix_value (v : ConfigValue) : ConfigValue :=
  {| cv_Version := cv_Version v; cv_Value := cv_Value v; cv_ModPolicy := fix_mod_policy (cv_ModPolicy v) |}.
Definition fix_policy (p : ConfigPolicy) : ConfigPolicy :=
  {| cp_Version := cp_Version p; cp_Policy := cp_Policy p; cp_ModPolicy := fix_mod_policy (cp_ModPolicy p) |}.

Definition rebuilt_value (configMap : gmap bytes comparable) (path : bytes) (values : gmap bytes ConfigValue) (key : bytes) (_ : ConfigValue) : res (gmap bytes ConfigValue) :=
  match configMap !! (valuePrefix ++ path ++ pathSeparator ++ key) with
  | None => Err "missing value at path"
  | Some value =>
      match cg_ConfigValue value with
      | None => Err "ConfigValue not found at value path"
      | Some v => Ok (<[key := v]> values)
      end
  end.
Definition rebuilt_policy (configMap : gmap bytes comparable) (path : bytes) (policies : gmap bytes ConfigPolicy) (key : bytes) (_ : ConfigPolicy) : res (gmap bytes ConfigPolicy) :=
  match configMap !! (policyPrefix ++ path ++ pathSeparator ++ key) with
  | None => Err "missing policy at path"
  | Some policy =>
      match cg_ConfigPolicy policy with
      | None => Err "ConfigPolicy not found at policy path"
      | Some p => Ok (<[key := p]> policies)
      end
  end.
(** Every step makes the path longer, and there is no element at a path longer
    than the longest key. *)
Fixpoint recurseConfigMap (fuel : nat) (path : bytes) (configMap : gmap bytes comparable) : res ConfigGroup :=
  match configMap !! (groupPrefix ++ path) with
  | None => Err "missing group at path"
  | Some group =>
      match cg_ConfigGroup group with
      | None => Err "ConfigGroup not found at group path"
      | Some g =>
          match fuel with
          | O => Panic
          | S fuel =>
              groups ← range_map (λ groups key _,
                updatedGroup ← recurseConfigMap fuel (path ++ pathSeparator ++ key) configMap;
                Ok (<[key := updatedGroup]> groups)) (cgr_Groups g) (cgr_Groups g);
              values ← range_map (rebuilt_value configMap path) (cgr_Values g) (cgr_Values g);
              policies ← range_map (rebuilt_policy configMap path) (cgr_Policies g) (cgr_Policies g);
              match configMap !! hackyFixOrdererCapabilities with
              | None => Ok (mkConfigGroup (cgr_Version g) groups values policies (cgr_ModPolicy g))
              | Some _ => Ok (mkConfigGroup (cgr_Version g) groups (fix_value <$> values) (fix_policy <$> policies) (fix_mod_policy (cgr_ModPolicy g)))
              end
          end
      end
  end.
Definition longest_key {A} (m : gmap bytes A) : nat := map_fold (λ k _ n, length k `max` n)%nat 0%nat m.
Definition configMapToConfig (configMap : gmap bytes comparable) (rootGroupKey : bytes) : res ConfigGroup :=
  recurseConfigMap (longest_key configMap) (pathSeparator ++ rootGroupKey) configMap.

(** ** Loops over maps *)

Lemma range_map_ind {A S} (P : S → gmap bytes A → Prop) (f : S → bytes → A → res S) s m s' :
  P s ∅ → (∀ m' k v s1 s2, m' !! k = None → m !! k = Some v → P s1 m' → f s1 k v = Ok s2 → P s2 (<[k := v]> m')) →
  range_map f s m = Ok s' → P s' m.
Proof.
  intros H0 Hstep. unfold range_map.
  cut (∀ m', m' ⊆ m → ∀ s', map_fold (λ k v acc, s ← acc; f s k v) (Ok s) m' = Ok s' → P s' m'); [intros Hc; by apply Hc|].
  intros m'. revert m'. refine (map_fold_weak_ind (λ r m', m' ⊆ m → ∀ s', r = Ok s' → P s' m') _ _ _ _).
  - by intros _ ? [= <-].
  - intros k v m' r Hk IH Hsub s2 (s1 & -> & Hf)%bind_Ok. eapply Hstep; [done| |apply (IH)|exact Hf]; [|by etrans; [apply insert_subseteq|]|done].
    eapply lookup_weaken; [apply lookup_insert_eq|done].
Qed.
Lemma range_map_total {A S} (P : S → Prop) (f : S → bytes → A → res S) s m :
  P s → (∀ k v s, m !! k = Some v → P s → ∃ s', f s k v = Ok s' ∧ P s') → ∃ s', range_map f s m = Ok s' ∧ P s'.
Proof.
  intros H0 Hstep. unfold range_map.
  cut (∀ m', m' ⊆ m → ∃ s', map_fold (λ k v acc, s ← acc; f s k v) (Ok s) m' = Ok s' ∧ P s'); [intros Hc; by apply Hc|].
  intros m'. revert m'. refine (map_fold_weak_ind (λ r m', m' ⊆ m → ∃ s', r = Ok s' ∧ P s') _ _ _ _); [by eauto|].
  intros k v m' r Hk IH Hsub. destruct IH as (s1 & -> & H1); [by etrans; [apply insert_subseteq|]|]. rewrite bind_Ok_eq.
  apply Hstep; [|done]. eapply lookup_weaken; [apply lookup_insert_eq|done].
Qed.
(** A loop that succeeds ran its body once for every entry. *)
Lemma range_map_entry {A S} (f : S → bytes → A → res S) s m s' k v : range_map f s m = Ok s' → m !! k = Some v → ∃ s1 s2, f s1 k v = Ok s2.
Proof.
  intros Hr. refine (range_map_ind (λ _ m', m' !! k = Some v → ∃ s1 s2, f s1 k v = Ok s2) f s m s' _ _ Hr).
  - by rewrite lookup_empty.
  - intros m' k' v' s1 s2 _ _ IH Hf. destruct (decide (k' = k)) as [->|Hne]; [rewrite lookup_insert_eq; intros [= ->]; eauto|by rewrite lookup_insert_ne].
Qed.

(** A loop that sets one entry of the result for every entry of the map. *)
Lemma range_map_insert {A C} (f : gmap bytes C → bytes → A → res (gmap bytes C)) (R : bytes → C → Prop) (m : gmap bytes A) (r0 r : gmap bytes C) :
  (∀ k v r r', m !! k = Some v → f r k v = Ok r' → ∃ c, R k c ∧ r' = <[k := c]> r) → range_map f r0 m = Ok r →
  (∀ k, is_Some (m !! k) → ∃ c, r !! k = Some c ∧ R k c) ∧ (∀ k, m !! k = None → r !! k = r0 !! k).
Proof.
  intros Hf Hr. refine (range_map_ind (λ r m, (∀ k, is_Some (m !! k) → ∃ c, r !! k = Some c ∧ R k c) ∧ (∀ k, m !! k = None → r !! k = r0 !! k)) f r0 m r _ _ Hr).
  - split; [intros k [? Hk]; by rewrite lookup_empty in Hk|done].
  - intros m' k v r1 r2 Hk Hm [IH1 IH2] (c & HR & ->)%Hf; [|done]. split.
    + intros k' Hk'. destruct (decide (k' = k)) as [->|Hne]; [exists c; by rewrite lookup_insert_eq|].
      rewrite lookup_insert_ne in Hk' by done. rewrite lookup_insert_ne by done. by apply IH1.
    + intros k' Hk'. apply lookup_insert_None in Hk' as [Hk' Hne]. rewrite lookup_insert_ne by done. by apply IH2.
Qed.
Lemma range_map_insert_all {A C} (f : gmap bytes C → bytes → A → res (gmap bytes C)) (m : gmap bytes A) (r0 t : gmap bytes C) :
  (∀ k, is_Some (m !! k) ↔ is_Some (t !! k)) → (∀ k, is_Some (r0 !! k) → is_Some (m !! k)) →
  (∀ k v c r, m !! k = Some v → t !! k = Some c → f r k v = Ok (<[k := c]> r)) → range_map f r0 m = Ok t.
Proof.
  intros Hdom Hr0 Hf. destruct (range_map_total (λ _, True) f r0 m) as (r & Hr & _); [done| |].
  - intros k v s Hk _. destruct (proj1 (Hdom k)) as [c Hc]; [by eexists|]. eexists. split; [by eapply Hf|done].
  - rewrite Hr. f_equal. apply (range_map_insert f (λ k c, t !! k = Some c)) in Hr as [H1 H2].
    + apply map_eq. intros k. destruct (m !! k) as [v|] eqn:Hk.
      * destruct (H1 k) as (c & -> & Hc); [by eexists|done].
      * rewrite H2 by done. destruct (t !! k) as [c|] eqn:Ht; [destruct (proj2 (Hdom k)) as [? Hs]; [by eexists|congruence]|].
        destruct (r0 !! k) as [c|] eqn:H0; [|done]. destruct (Hr0 k) as [? Hs]; [by eexists|congruence].
    + intros k v r1 r2 Hk Hf2. destruct (proj1 (Hdom k)) as [c Hc]; [by eexists|]. rewrite (Hf _ _ c) in Hf2 by done. exists c. split; [done|congruence].
Qed.

Lemma map_fold_forallb {A} (p : bytes → A → bool) (m : gmap bytes A) :
  map_fold (λ k v b, b && p k v) true m = true ↔ ∀ k v, m !! k = Some v → p k v = true.
Proof.
  revert m. refine (map_fold_weak_ind (λ r m, r = true ↔ ∀ k v, m !! k = Some v → p k v = true) _ _ _ _).
  - split; [|done]. intros _ k v. by rewrite lookup_empty.
  - intros k v m r Hk IH. rewrite andb_true_iff, IH. split.
    + intros [Hall Hp] k' v' [[-> ->]|[? ?]]%lookup_insert_Some; auto.
    + intros Hall. split; [|apply Hall, lookup_insert_eq]. intros k' v' Hk'. apply Hall. rewrite lookup_insert_ne; [done|congruence].
Qed.

(** ** Induction on trees *)

Fixpoint group_size (g : ConfigGroup) : nat := S (map_fold (λ _ g' n, group_size g' + n)%nat 0%nat (cgr_Groups g)).
Lemma group_size_sub g k g' : cgr_Groups g !! k = Some g' → (group_size g' < group_size g)%nat.
Proof.
  intros Hk. destruct g as [v gs vs ps mp]. cbn [cgr_Groups] in Hk. cbn [group_size cgr_Groups].
  rewrite (map_fold_delete_L _ _ k g' gs); [lia| |done]. intros. lia.
Qed.
Lemma ConfigGroup_tree_ind (P : ConfigGroup → Prop) :
  (∀ g, (∀ k g', cgr_Groups g !! k = Some g' → P g') → P g) → ∀ g, P g.
Proof.
  intros Hstep g. induction g as [g IH] using (well_founded_induction (well_founded_ltof _ group_size)).
  apply Hstep. intros k g' Hk. apply IH. by apply group_size_sub in Hk.
Qed.

Lemma map_size_incl {A} (m1 m2 : gmap bytes A) : size m1 = size m2 → (∀ k v, m1 !! k = Some v → m2 !! k = Some v) → m1 = m2.
Proof. intros Hs Hsub%map_subseteq_spec. apply map_subseteq_size_eq; [done|lia]. Qed.
Lemma proto_Equal_eq g : ∀ h, proto_Equal g h = true ↔ g = h.
Proof.
  induction g as [g IH] using ConfigGroup_tree_ind. intros h.
  assert (proto_Equal g h = true ↔ cgr_Version g = cgr_Version h ∧ cgr_ModPolicy g = cgr_ModPolicy h ∧ cgr_Values g = cgr_Values h ∧
    cgr_Policies g = cgr_Policies h ∧ size (cgr_Groups g) = size (cgr_Groups h) ∧
    ∀ k g', cgr_Groups g !! k = Some g' → match cgr_Groups h !! k with Some h' => proto_Equal g' h' | None => false end = true) as ->.
  { destruct g. cbn [proto_Equal]. rewrite !andb_true_iff, !bool_decide_eq_true, map_fold_forallb. cbn. tauto. }
  split.
  - destruct g as [v gs vs ps mp], h as [v' gs' vs' ps' mp']. cbn in *. intros (-> & -> & -> & -> & Hs & Hall). f_equal.
    apply map_size_incl; [done|]. intros k g' Hk. specialize (Hall k g' Hk). destruct (gs' !! k) as [h'|] eqn:Hk'; [|done].
    f_equal. symmetry. by eapply IH.
  - intros <-. split_and!; try done. intros k g' Hk. rewrite Hk. by apply (IH k g' Hk).
Qed.

(** The comparison of groups looks at the names of their members only. *)
Lemma subsetOf_spec {A} (m1 m2 : gmap bytes A) : subsetOf m1 m2 = true ↔ ∀ k, is_Some (m1 !! k) → is_Some (m2 !! k).
Proof.
  unfold subsetOf. destruct (decide _) as [->%map_size_empty_inv|Hne].
  { split; [|done]. intros _ k [? Hk]. by rewrite lookup_empty in Hk. }
  destruct (decide _) as [Hlt|Hge].
  - split; [done|]. intros Hsub. assert (dom m1 ⊆ dom m2) as Hd by (intros k Hk%elem_of_dom; by apply elem_of_dom, Hsub).
    apply dom_subseteq_size in Hd. lia.
  - rewrite (map_fold_forallb (λ key _, bool_decide (is_Some (m2 !! key)))). setoid_rewrite bool_decide_eq_true. split; [|by eauto].
    intros Hall k [v Hv]. by eapply Hall.
Qed.
Lemma equalConfigGroup_spec g h : equalConfigGroup g h = true ↔
  cgr_Version g = cgr_Version h ∧ cgr_ModPolicy g = cgr_ModPolicy h ∧
  ∀ k, (is_Some (cgr_Groups g !! k) ↔ is_Some (cgr_Groups h !! k)) ∧ (is_Some (cgr_Policies g !! k) ↔ is_Some (cgr_Policies h !! k)) ∧
    (is_Some (cgr_Values g !! k) ↔ is_Some (cgr_Values h !! k)).
Proof.
  unfold equalConfigGroup. destruct (bool_decide (cgr_Version g ≠ _)) eqn:Hv; [apply bool_decide_eq_true in Hv; split; [done|naive_solver]|].
  destruct (bool_decide (cgr_ModPolicy g ≠ _)) eqn:Hm; [apply bool_decide_eq_true in Hm; split; [done|naive_solver]|].
  apply bool_decide_eq_false, dec_stable in Hv, Hm. cbn [orb]. rewrite !andb_true_iff, !subsetOf_spec. naive_solver.
Qed.

(** ** Names and paths *)

Definition slash : byte := "/".
Lemma take_while_forall p s : length (take_while p s) = length s → Forall (λ b, p b = true) s.
Proof. induction s as [|b s IH]; cbn; [constructor|]. destruct (p b) eqn:Hb; [|done]. intros [= Hs]. constructor; auto. Qed.
Lemma length_take_while p s : (length (take_while p s) ≤ length s)%nat.
Proof. induction s as [|b s IH]; cbn; [done|]. destruct (p b); cbn; lia. Qed.
Lemma length_FindString p q s : (length (FindString p q s) ≤ length s)%nat.
Proof. induction s as [|b s IH]; cbn; [done|]. pose proof (length_take_while q s). destruct (p b); cbn; lia. Qed.
Lemma FindString_forall p q s : length (FindString p q s) = length s →
  match s with [] => True | b :: s => p b = true ∧ Forall (λ b, q b = true) s end.
Proof.
  destruct s as [|b s]; [done|]. cbn. destruct (p b); [intros [= Hs]; split; [done|by apply take_while_forall]|].
  pose proof (length_FindString p q s). lia.
Qed.
Lemma take_while_all p s : Forall (λ b, p b = true) s → take_while p s = s.
Proof. induction 1 as [|b s Hb _ IH]; cbn; [done|]. by rewrite Hb, IH. Qed.

(** What makes a name of an element. *)
Definition valid_name (k : bytes) : Prop :=
  k ≠ [] ∧ (length k ≤ MaxLength)%nat ∧ k ≠ B "." ∧ k ≠ B ".." ∧ Forall (λ b, config_char b = true) k.
Lemma validateConfigID_spec k : validateConfigID k = Ok () ↔ valid_name k.
Proof.
  unfold validateConfigID, valid_name. destruct (decide (length k = 0%nat)) as [->%length_zero_iff_nil|Hne]; [split; [done|by intros []]|].
  assert (k ≠ []) as Hk by (by intros ->).
  destruct (decide (MaxLength < length k)%nat); [split; [done|lia]|].
  destruct (decide (k = B "." ∨ k = B "..")) as [Hd|Hd]; [split; [done|tauto]|].
  destruct (decide (length (FindString config_char config_char k) ≠ length k)) as [Hf|Hf].
  - split; [done|]. intros (_ & _ & _ & _ & Hall). destruct Hf. destruct k as [|b k]; [done|]. apply Forall_cons in Hall as [Hb Hall].
    cbn. rewrite Hb. cbn. by rewrite take_while_all.
  - split; [|done]. intros _. apply dec_stable, FindString_forall in Hf. destruct k as [|b k]; [done|]. destruct Hf as [Hb Hall].
    split_and!; [done|lia|tauto|tauto|by constructor].
Qed.
#[export] Instance valid_name_dec k : Decision (valid_name k) := _.
Lemma valid_name_slash k : valid_name k → slash ∉ k.
Proof. intros (_ & _ & _ & _ & Hall) Hin. by apply (proj1 (Forall_forall _ _) Hall) in Hin. Qed.

Definition slashed (l : list bytes) : bytes := l ≫= λ s, slash :: s.
Lemma slashed_app l k : slashed (l ++ k) = slashed l ++ slashed k.
Proof. apply bind_app. Qed.
Lemma Join_slashed l : l ≠ [] → pathSeparator ++ Join l pathSeparator = slashed l.
Proof.
  induction l as [|s l IH]; [done|]. intros _. unfold slashed. cbn [Join mbind list_bind]. fold (slashed l). destruct l as [|s' l].
  - cbn. by rewrite app_nil_r.
  - rewrite <-IH by done. done.
Qed.
Lemma fqPath_slashed c : fqPath c = prefix_of_element c ++ slashed (cg_path c ++ [cg_key c]).
Proof.
  unfold fqPath. rewrite slashed_app. replace (slashed [cg_key c]) with (pathSeparator ++ cg_key c) by (unfold slashed; cbn; by rewrite app_nil_r).
  destruct (cg_path c) as [|k l] eqn:Hp; [done|]. rewrite <-Join_slashed by done. by rewrite <-!app_assoc.
Qed.
Lemma slash_split (s s' x y : bytes) : slash ∉ s → slash ∉ s' → (x = [] ∨ head x = Some slash) → (y = [] ∨ head y = Some slash) →
  s ++ x = s' ++ y → s = s' ∧ x = y.
Proof.
  revert s'. induction s as [|b s IH]; intros [|b' s'] Hs Hs' Hx Hy Heq; cbn in *; simplify_eq; try done.
  - destruct Hx as [|Hx]; [done|]. cbn in Hx. set_solver.
  - destruct Hy as [|Hy]; [done|]. cbn in Hy. set_solver.
  - destruct (IH s') as [-> ->]; set_solver.
Qed.
Lemma head_slashed l : slashed l = [] ∨ head (slashed l) = Some slash.
Proof. destruct l; [by left|by right]. Qed.
Lemma slashed_inj l l' : Forall (λ s, slash ∉ s) l → Forall (λ s, slash ∉ s) l' → slashed l = slashed l' → l = l'.
Proof.
  intros Hl. revert l'. induction Hl as [|s l Hs Hl IH]; intros [|s' l'] Hl'; [done..|]. apply Forall_cons in Hl' as [Hs' Hl'].
  unfold slashed. cbn [mbind list_bind app]. intros [= [-> Heq]%slash_split]; [|done|done|apply head_slashed|apply head_slashed]. f_equal. by apply IH.
Qed.

(** ** The elements of a tree *)

(** The group at a path below a group. *)
Fixpoint sub_group (g : ConfigGroup) (l : list bytes) : option ConfigGroup :=
  match l with [] => Some g | k :: l => g' ← cgr_Groups g !! k; sub_group g' l end.
Lemma sub_group_app g l k : sub_group g (l ++ k) = h ← sub_group g l; sub_group h k.
Proof. revert g. induction l as [|x l IH]; intros g; cbn; [done|]. destruct (cgr_Groups g !! x); cbn; auto. Qed.
Lemma sub_group_snoc g l k h h' : sub_group g l = Some h → cgr_Groups h !! k = Some h' → sub_group g (l ++ [k]) = Some h'.
Proof. intros Hl Hk. rewrite sub_group_app, Hl. cbn. by rewrite Hk. Qed.

(** The elements of a tree whose root has the path [path]. *)
Inductive element (path : list bytes) (g : ConfigGroup) : comparable → Prop :=
| el_group l h key p : sub_group g l = Some h → path ++ l = p ++ [key] → element path g (group_element key p h)
| el_value l h k v : sub_group g l = Some h → cgr_Values h !! k = Some v → element path g (value_element k (path ++ l) v)
| el_policy l h k p : sub_group g l = Some h → cgr_Policies h !! k = Some p → element path g (policy_element k (path ++ l) p).

Definition place (c : comparable) : list bytes := cg_path c ++ [cg_key c].

Lemma element_place_inj path g c c' : element path g c → element path g c' → prefix_of_element c = prefix_of_element c' → place c = place c' → c = c'.
Proof.
  unfold place. intros [l h key p Hl Hp|l h k v Hl Hv|l h k v Hl Hv] [l' h' key' p' Hl' Hp'|l' h' k' v' Hl' Hv'|l' h' k' v' Hl' Hv'] Hk Heq; cbn in Heq; try done.
  - assert (l = l') as <- by (apply (app_inv_head path); congruence). apply app_inj_tail in Heq as [-> ->]. congruence.
  - apply app_inj_tail in Heq as [<-%app_inv_head ->]. congruence.
  - apply app_inj_tail in Heq as [<-%app_inv_head ->]. congruence.
Qed.

Definition names_ok (path : list bytes) (g : ConfigGroup) : Prop := ∀ c, element path g c → valid_name (cg_key c).
Lemma sub_group_names path g l h : path ≠ [] → names_ok path g → Forall valid_name path → sub_group g l = Some h → Forall valid_name (path ++ l).
Proof.
  intros Hne Hok Hpath. revert h. induction l as [|k l IH] using rev_ind; intros h Hl; [by rewrite app_nil_r|].
  pose proof Hl as Hl'. rewrite sub_group_app in Hl. apply bind_Some in Hl as (h' & Hh' & Hk). rewrite app_assoc. apply Forall_app. split; [by eapply IH|].
  constructor; [|constructor]. apply (Hok (group_element k (path ++ l) h)). eapply el_group; [exact Hl'|by rewrite app_assoc].
Qed.
Lemma element_place_names path g c : path ≠ [] → names_ok path g → Forall valid_name path → element path g c → Forall valid_name (place c).
Proof.
  intros Hne Hok Hpath Hc. pose proof (Hok c Hc) as Hkey. destruct Hc as [l h key p Hl Hp|l h k v Hl Hv|l h k v Hl Hv]; unfold place; cbn.
  - rewrite <-Hp. by eapply sub_group_names.
  - apply Forall_app. split; [by eapply sub_group_names|by constructor].
  - apply Forall_app. split; [by eapply sub_group_names|by constructor].
Qed.
Lemma Forall_no_slash l : Forall valid_name l → Forall (λ s, slash ∉ s) l.
Proof. intros Hl. eapply Forall_impl; [done|]. apply valid_name_slash. Qed.

(** Every element has one of three prefixes of the same length. *)
Lemma element_prefix path g c : element path g c →
  prefix_of_element c = groupPrefix ∨ prefix_of_element c = valuePrefix ∨ prefix_of_element c = policyPrefix.
Proof. destruct 1; cbn; auto. Qed.
Lemma fqPath_inj path g path' g' c c' : element path g c → element path' g' c' → Forall valid_name (place c) → Forall valid_name (place c') →
  fqPath c = fqPath c' → prefix_of_element c = prefix_of_element c' ∧ place c = place c'.
Proof.
  intros Hc Hc' Hn Hn'. rewrite !fqPath_slashed. intros Heq. apply app_inj_len in Heq as [Hp Hs].
  - split; [done|]. by apply slashed_inj; [apply Forall_no_slash..|].
  - by destruct (element_prefix _ _ _ Hc) as [-> | [-> | ->]], (element_prefix _ _ _ Hc') as [-> | [-> | ->]].
Qed.
Lemma element_fqPath_inj path g c c' : path ≠ [] → names_ok path g → Forall valid_name path →
  element path g c → element path g c' → fqPath c = fqPath c' → c = c'.
Proof.
  intros Hne Hok Hpath Hc Hc' Heq. destruct (fqPath_inj _ _ _ _ _ _ Hc Hc') as [Hp Hpl]; [by eapply element_place_names..|done|].
  by eapply element_place_inj.
Qed.

(** The root of a tree, its own members, and the elements of its groups. *)
Lemma element_cases path g c : element path g c →
  (∃ key p, path = p ++ [key] ∧ c = group_element key p g) ∨
  (∃ k v, cgr_Values g !! k = Some v ∧ c = value_element k path v) ∨ (∃ k p, cgr_Policies g !! k = Some p ∧ c = policy_element k path p) ∨
  (∃ k g', cgr_Groups g !! k = Some g' ∧ element (path ++ [k]) g' c).
Proof.
  intros [[|x l] h key p Hl Hp|[|x l] h k v Hl Hv|[|x l] h k v Hl Hv]; cbn in Hl; simplify_eq.
  - left. exists key, p. by rewrite app_nil_r in Hp.
  - apply bind_Some in Hl as (g' & Hg' & Hl). do 3 right. exists x, g'. split; [done|]. eapply el_group; [done|]. by rewrite <-app_assoc.
  - right; left. exists k, v. by rewrite app_nil_r.
  - apply bind_Some in Hl as (g' & Hg' & Hl). do 3 right. exists x, g'. split; [done|].
    replace (path ++ x :: l) with ((path ++ [x]) ++ l) by by rewrite <-app_assoc. by eapply el_value.
  - do 2 right; left. exists k, v. by rewrite app_nil_r.
  - apply bind_Some in Hl as (g' & Hg' & Hl). do 3 right. exists x, g'. split; [done|].
    replace (path ++ x :: l) with ((path ++ [x]) ++ l) by by rewrite <-app_assoc. by eapply el_policy.
Qed.
Lemma element_root key p g : element (p ++ [key]) g (group_element key p g).
Proof. eapply (el_group _ _ []); [done|by rewrite app_nil_r]. Qed.
Lemma element_own_value path g k v : cgr_Values g !! k = Some v → element path g (value_element k path v).
Proof. intros Hk. pose proof (el_value path g [] g k v eq_refl Hk) as He. by rewrite app_nil_r in He. Qed.
Lemma element_own_policy path g k p : cgr_Policies g !! k = Some p → element path g (policy_element k path p).
Proof. intros Hk. pose proof (el_policy path g [] g k p eq_refl Hk) as He. by rewrite app_nil_r in He. Qed.
Lemma element_sub path g k g' c : cgr_Groups g !! k = Some g' → element (path ++ [k]) g' c → element path g c.
Proof.
  intros Hk [l h key p Hl Hp|l h k' v Hl Hv|l h k' v Hl Hv]; rewrite <-app_assoc in *.
  - eapply (el_group _ _ (k :: l)); [cbn; by rewrite Hk|done].
  - eapply (el_value _ _ (k :: l)); [cbn; by rewrite Hk|done].
  - eapply (el_policy _ _ (k :: l)); [cbn; by rewrite Hk|done].
Qed.

(** ** The map of a tree *)

(** [r'] is [r] with the elements of [E]. *)
Definition adds (E : comparable → Prop) (r r' : gmap bytes comparable) : Prop :=
  (∀ c, E c → r' !! fqPath c = Some c) ∧ (∀ k, r' !! k = r !! k ∨ ∃ c, E c ∧ fqPath c = k).
Definition compatible (E : comparable → Prop) : Prop := ∀ c c', E c → E c' → fqPath c = fqPath c' → c = c'.

Lemma adds_trans (E E' : comparable → Prop) r1 r2 r3 : compatible (λ c, E c ∨ E' c) → adds E r1 r2 → adds E' r2 r3 → adds (λ c, E c ∨ E' c) r1 r3.
Proof.
  intros Hcompat [H1 H1'] [H2 H2']. split.
  - intros c [Hc|Hc]; [|by apply H2]. destruct (H2' (fqPath c)) as [->|(c' & Hc' & Heq)]; [by apply H1|].
    rewrite (Hcompat c c') by auto. by apply H2.
  - intros k. destruct (H2' k) as [->|(c & Hc & Heq)]; [destruct (H1' k) as [->|(c & Hc & Heq)]|]; eauto.
Qed.
Lemma adds_iff E E' r r' : (∀ c, E c ↔ E' c) → adds E r r' → adds E' r r'.
Proof. intros Hiff [H1 H2]. split; [intros c Hc; by apply H1, Hiff|]. intros k. destruct (H2 k) as [?|(c & Hc & ?)]; [by left|]. right. exists c. by rewrite <-Hiff. Qed.
Lemma adds_refl E r : (∀ c, ¬ E c) → adds E r r.
Proof. intros HE. split; [intros c Hc; by destruct (HE c)|by left]. Qed.
Lemma addToMap_adds c r r' : addToMap c r = Ok r' → valid_name (cg_key c) ∧ adds (.= c) r r'.
Proof.
  intros ([] & Hv & [= <-])%bind_Ok. split; [by apply validateConfigID_spec|]. split; [intros ? ->; apply lookup_insert_eq|].
  intros k. destruct (decide (k = fqPath c)) as [->|Hne]; [right; by eauto|left; by rewrite lookup_insert_ne].
Qed.
Lemma addToMap_Ok c r : valid_name (cg_key c) → addToMap c r = Ok (<[fqPath c := c]> r).
Proof. intros Hv%validateConfigID_spec. unfold addToMap. by rewrite Hv. Qed.

(** A loop whose body adds the elements [F k v] for an entry. *)
Lemma range_map_adds {A} (F : bytes → A → comparable → Prop) (f : gmap bytes comparable → bytes → A → res (gmap bytes comparable)) (m : gmap bytes A) r r' :
  (∀ k v r r', m !! k = Some v → f r k v = Ok r' → adds (F k v) r r') → compatible (λ c, ∃ k v, m !! k = Some v ∧ F k v c) →
  range_map f r m = Ok r' → adds (λ c, ∃ k v, m !! k = Some v ∧ F k v c) r r'.
Proof.
  intros Hf Hcompat Hr. refine (range_map_ind (λ r' m', m' ⊆ m → adds (λ c, ∃ k v, m' !! k = Some v ∧ F k v c) r r') f r m r' _ _ Hr (reflexivity _)).
  - intros _. apply adds_refl. intros c (k & v & Hk & _). by rewrite lookup_empty in Hk.
  - intros m' k v r1 r2 Hk Hm IH H2%Hf Hsub; [|done]. eapply adds_iff; [|eapply adds_trans; [|apply IH|exact H2]].
    + intros c. cbn. split.
      * intros [(k' & v' & Hk' & HF)|HF]; [exists k', v'|exists k, v]; (split; [|done]); [rewrite lookup_insert_ne; [done|congruence]|apply lookup_insert_eq].
      * intros (k' & v' & [[-> ->]|[Hne Hk']]%lookup_insert_Some & HF); [by right|left; by eauto].
    + assert (∀ c, (∃ k v, m' !! k = Some v ∧ F k v c) ∨ F k v c → ∃ k v, m !! k = Some v ∧ F k v c) as Hin.
      { intros c [(k' & v' & Hk' & HF)|HF]; [|by eauto]. exists k', v'. split; [|done]. eapply lookup_weaken; [|done]. rewrite lookup_insert_ne; [done|congruence]. }
      intros c c' Hc Hc'. apply Hcompat; by apply Hin.
    + etrans; [by apply insert_subseteq|done].
Qed.

Lemma index_last {A} (l : list A) x : index (l ++ [x]) (length (l ++ [x]) - 1) = Ok x.
Proof. unfold index. rewrite length_app. cbn. replace (length l + 1 - 1)%nat with (length l) by lia. by rewrite lookup_app_r, Nat.sub_diag by lia. Qed.
Lemma take_init {A} (l : list A) x : take (length (l ++ [x]) - 1) (l ++ [x]) = l.
Proof. rewrite length_app. cbn. replace (length l + 1 - 1)%nat with (length l) by lia. apply take_app_length. Qed.
Lemma recurseConfig_unfold r p key g : recurseConfig r (p ++ [key]) g =
  result ← addToMap (group_element key p g) r;
  result ← range_map (λ result k group, recurseConfig result ((p ++ [key]) ++ [k]) group) result (cgr_Groups g);
  result ← range_map (λ result k value, addToMap (value_element k (p ++ [key]) value) result) result (cgr_Values g);
  range_map (λ result k policy, addToMap (policy_element k (p ++ [key]) policy) result) result (cgr_Policies g).
Proof. destruct g. cbn [recurseConfig]. by rewrite index_last, bind_Ok_eq, take_init. Qed.

(** A loop that adds one element for an entry. *)
Lemma range_map_adds_one {A} (e : bytes → A → comparable) (m : gmap bytes A) r r' : (∀ k v, cg_key (e k v) = k) →
  compatible (λ c, ∃ k v, m !! k = Some v ∧ c = e k v) → range_map (λ r k v, addToMap (e k v) r) r m = Ok r' →
  (∀ k v, m !! k = Some v → valid_name k) ∧ adds (λ c, ∃ k v, m !! k = Some v ∧ c = e k v) r r'.
Proof.
  intros Hkey Hcompat Hr. split.
  - intros k v Hk. destruct (range_map_entry _ _ _ _ _ _ Hr Hk) as (r1 & r2 & [Hv _]%addToMap_adds). by rewrite Hkey in Hv.
  - eapply (range_map_adds (λ k v c, c = e k v)); [|done|exact Hr]. by intros k v r1 r2 _ [_ ?]%addToMap_adds.
Qed.
Lemma names_ok_cases p key g : valid_name key → (∀ k g', cgr_Groups g !! k = Some g' → names_ok ((p ++ [key]) ++ [k]) g') →
  (∀ k v, cgr_Values g !! k = Some v → valid_name k) → (∀ k v, cgr_Policies g !! k = Some v → valid_name k) → names_ok (p ++ [key]) g.
Proof.
  intros Hkey Hg Hv Hp c [(key' & p' & [<- <-]%app_inj_tail & ->)|[(k & v & Hk & ->)|[(k & v & Hk & ->)|(k & g' & Hk & Hc)]]]%element_cases; cbn; eauto.
  by eapply Hg.
Qed.
Lemma recurseConfig_names g : ∀ p key r r', recurseConfig r (p ++ [key]) g = Ok r' → names_ok (p ++ [key]) g.
Proof.
  induction g as [g IH] using ConfigGroup_tree_ind. intros p key r r'. rewrite recurseConfig_unfold.
  intros (r1 & [Hv _]%addToMap_adds & (r2 & H2 & (r3 & H3 & H4)%bind_Ok)%bind_Ok)%bind_Ok. apply names_ok_cases; [done|..].
  - intros k g' Hk. destruct (range_map_entry _ _ _ _ _ _ H2 Hk) as (? & ? & Hr). by eapply IH.
  - intros k v Hk. by destruct (range_map_entry _ _ _ _ _ _ H3 Hk) as (? & ? & [? _]%addToMap_adds).
  - intros k v Hk. by destruct (range_map_entry _ _ _ _ _ _ H4 Hk) as (? & ? & [? _]%addToMap_adds).
Qed.
Lemma recurseConfig_adds g : ∀ p key r r', compatible (element (p ++ [key]) g) → recurseConfig r (p ++ [key]) g = Ok r' →
  adds (element (p ++ [key]) g) r r'.
Proof.
  induction g as [g IH] using ConfigGroup_tree_ind. intros p key r r' Hc. rewrite recurseConfig_unfold.
  intros (r1 & [_ H1]%addToMap_adds & (r2 & H2 & (r3 & H3 & H4)%bind_Ok)%bind_Ok)%bind_Ok. set (path := p ++ [key]) in *.
  apply (range_map_adds (λ k g', element (path ++ [k]) g')) in H2.
  - apply range_map_adds_one in H3 as [_ H3]; [|done|].
    + apply range_map_adds_one in H4 as [_ H4]; [|done|].
      * eapply adds_iff; [|eapply adds_trans; [|eapply adds_trans; [|eapply adds_trans; [|exact H1|exact H2]|exact H3]|exact H4]]; cbn.
        -- intros c. split.
           ++ intros [[[->|(k & g' & Hk & He)]|(k & v & Hk & ->)]|(k & v & Hk & ->)];
                [apply element_root|by eapply element_sub|by apply element_own_value|by apply element_own_policy].
           ++ intros [(key' & p' & [-> ->]%app_inj_tail & ->)|[(k & v & Hk & ->)|[(k & v & Hk & ->)|(k & g' & Hk & He)]]]%element_cases; eauto 10.
        -- intros c c' Hx Hx'. apply Hc; [revert Hx|revert Hx'];
             (intros [[[->|(k & g' & Hk & He)]|(k & v & Hk & ->)]|(k & v & Hk & ->)];
                [apply element_root|by eapply element_sub|by apply element_own_value|by apply element_own_policy]).
        -- intros c c' Hx Hx'. apply Hc; [revert Hx|revert Hx'];
             (intros [[->|(k & g' & Hk & He)]|(k & v & Hk & ->)]; [apply element_root|by eapply element_sub|by apply element_own_value]).
        -- intros c c' Hx Hx'. apply Hc; [revert Hx|revert Hx']; (intros [->|(k & g' & Hk & He)]; [apply element_root|by eapply element_sub]).
      * intros c c' (k & v & Hk & ->) (k' & v' & Hk' & ->). apply Hc; by apply element_own_policy.
    + intros c c' (k & v & Hk & ->) (k' & v' & Hk' & ->). apply Hc; by apply element_own_value.
  - intros k g' r3' r4' Hk Hr. apply (IH k g' Hk) in Hr; [done|]. intros c c' He He'. apply Hc; by eapply element_sub.
  - intros c c' (k & v & Hk & He) (k' & v' & Hk' & He'). apply Hc; [by eapply (element_sub _ _ k)|by eapply (element_sub _ _ k')].
Qed.
Lemma recurseConfig_total g : ∀ p key r, names_ok (p ++ [key]) g → ∃ r', recurseConfig r (p ++ [key]) g = Ok r'.
Proof.
  induction g as [g IH] using ConfigGroup_tree_ind. intros p key r Hok. rewrite recurseConfig_unfold.
  rewrite addToMap_Ok by (apply Hok, element_root). rewrite bind_Ok_eq.
  destruct (range_map_total (λ _, True) (λ result k group, recurseConfig result ((p ++ [key]) ++ [k]) group)
    (<[fqPath (group_element key p g) := group_element key p g]> r) (cgr_Groups g)) as (r2 & H2 & _); [done| |].
  { intros k g' s Hk _. destruct (IH k g' Hk (p ++ [key]) k s) as [r' ->]; [|by eauto]. intros c Hc. apply Hok. by eapply element_sub. }
  destruct (range_map_total (λ _, True) (λ result k value, addToMap (value_element k (p ++ [key]) value) result) r2 (cgr_Values g)) as (r3 & H3 & _); [done| |].
  { intros k v s Hk _. rewrite addToMap_Ok; [by eauto|]. apply Hok. by apply element_own_value. }
  destruct (range_map_total (λ _, True) (λ result k policy, addToMap (policy_element k (p ++ [key]) policy) result) r3 (cgr_Policies g)) as (r4 & H4 & _); [done| |].
  { intros k v s Hk _. rewrite addToMap_Ok; [by eauto|]. apply Hok. by apply element_own_policy. }
  exists r4. rewrite H2, bind_Ok_eq, H3, bind_Ok_eq. exact H4.
Qed.

(** The map of a tree: exactly its elements, at their paths. *)
Definition map_of (root : bytes) (g : ConfigGroup) (m : gmap bytes comparable) : Prop :=
  names_ok [root] g ∧ ∀ k c, m !! k = Some c ↔ element [root] g c ∧ fqPath c = k.
Lemma names_ok_root root g : names_ok [root] g → Forall valid_name [root].
Proof. intros Hok. constructor; [|done]. apply (Hok (group_element root [] g)), (element_root root []). Qed.
Lemma mapConfig_spec root g m : mapConfig (Some g) root = Ok m ↔ map_of root g m.
Proof.
  cbn [mapConfig]. change [root] with ([] ++ [root]).
  assert (Himp : ∀ m, recurseConfig ∅ ([] ++ [root]) g = Ok m → map_of root g m).
  { clear m. intros m Hr. pose proof (recurseConfig_names _ _ _ _ _ Hr) as Hok. split; [done|]. pose proof (names_ok_root _ _ Hok) as Hroot.
    destruct (recurseConfig_adds g [] root ∅ m) as [H1 H2]; [|done|].
    - intros c c'. by apply element_fqPath_inj.
    - intros k c. split; [|intros [Hc <-]; by apply H1]. intros Hk. destruct (H2 k) as [Hk'|(c' & Hc' & <-)]; [by rewrite Hk, lookup_empty in Hk'|].
      rewrite (H1 c' Hc') in Hk. by simplify_eq. }
  split; [apply Himp|]. intros [Hok Hm]. destruct (recurseConfig_total g [] root ∅ Hok) as [m' Hr]. rewrite Hr. f_equal.
  apply Himp in Hr as [_ Hm']. apply map_eq. intros k. apply option_eq. intros c. by rewrite Hm, Hm'.
Qed.

(** ** The tree of a map *)

Lemma bind_not_Panic {A C : Type} (r : res A) (f : A → res C) : r ≠ Panic → (∀ a, f a ≠ Panic) → r ≫= f ≠ Panic.
Proof. destruct r; [intros _ Hf; apply Hf|done..]. Qed.
Lemma range_map_not_Panic {A S : Type} (f : S → bytes → A → res S) s m : (∀ k v s, m !! k = Some v → f s k v ≠ Panic) → range_map f s m ≠ Panic.
Proof.
  intros Hf. unfold range_map. cut (∀ m', m' ⊆ m → map_fold (λ k v acc, s ← acc; f s k v) (Ok s) m' ≠ Panic); [intros Hc; by apply Hc|].
  intros m'. revert m'. refine (map_fold_weak_ind (λ r m', m' ⊆ m → r ≠ Panic) _ _ _ _); [done|].
  intros k v m' r Hk IH Hsub. apply bind_not_Panic; [apply IH; by etrans; [apply insert_subseteq|]|]. intros a. apply Hf.
  eapply lookup_weaken; [apply lookup_insert_eq|done].
Qed.
(** The contents that a map of results was made of. *)
Lemma looked_up {A : Type} (look : bytes → option A) (f : A → A) (r : gmap bytes A) :
  (∀ k v', r !! k = Some v' → ∃ v, look k = Some v ∧ v' = f v) →
  ∃ r0, f <$> r0 = r ∧ (∀ k, is_Some (r0 !! k) ↔ is_Some (r !! k)) ∧ ∀ k v, r0 !! k = Some v → look k = Some v.
Proof.
  intros Hr. exists (map_imap (λ k _, look k) r). assert (∀ k, map_imap (λ k _, look k) r !! k = _ ← r !! k; look k) as Hl by (intros k; apply map_lookup_imap).
  split_and!.
  - apply map_eq. intros k. rewrite lookup_fmap, Hl. destruct (r !! k) as [v'|] eqn:Hk; cbn; [|done]. destruct (Hr k v' Hk) as (v & -> & ->). done.
  - intros k. rewrite Hl. destruct (r !! k) as [v'|] eqn:Hk; cbn; [|done]. destruct (Hr k v' Hk) as (v & -> & ->). done.
  - intros k v. rewrite Hl. by destruct (r !! k).
Qed.

Section built.
Context (m : gmap bytes comparable).

(** Whether empty modification policies are replaced. *)
Definition fixes : bool := bool_decide (is_Some (m !! hackyFixOrdererCapabilities)).
Definition fixed_mod_policy (p : bytes) : bytes := if fixes then fix_mod_policy p else p.
Definition fixed_value (v : ConfigValue) : ConfigValue := if fixes then fix_value v else v.
Definition fixed_policy (p : ConfigPolicy) : ConfigPolicy := if fixes then fix_policy p else p.

Definition same_keys {A C : Type} (m1 : gmap bytes A) (m2 : gmap bytes C) : Prop := ∀ k, is_Some (m1 !! k) ↔ is_Some (m2 !! k).

(** [g'] is the group at [path]: its members are named by the group of the map,
    and their contents are in the map. *)
Inductive built : bytes → ConfigGroup → Prop :=
| built_intro path c g g' :
    m !! (groupPrefix ++ path) = Some c → cg_ConfigGroup c = Some g →
    cgr_Version g' = cgr_Version g → cgr_ModPolicy g' = fixed_mod_policy (cgr_ModPolicy g) →
    same_keys (cgr_Groups g') (cgr_Groups g) →
    (∀ k h, cgr_Groups g' !! k = Some h → built (path ++ pathSeparator ++ k) h) →
    same_keys (cgr_Values g') (cgr_Values g) →
    (∀ k v', cgr_Values g' !! k = Some v' → ∃ cv v, m !! (valuePrefix ++ path ++ pathSeparator ++ k) = Some cv ∧ cg_ConfigValue cv = Some v ∧ v' = fixed_value v) →
    same_keys (cgr_Policies g') (cgr_Policies g) →
    (∀ k p', cgr_Policies g' !! k = Some p' → ∃ cp p, m !! (policyPrefix ++ path ++ pathSeparator ++ k) = Some cp ∧ cg_ConfigPolicy cp = Some p ∧ p' = fixed_policy p) →
    built path g'.

Lemma rebuilt_value_Ok path r k v r' : rebuilt_value m path r k v = Ok r' →
  ∃ v', (∃ cv, m !! (valuePrefix ++ path ++ pathSeparator ++ k) = Some cv ∧ cg_ConfigValue cv = Some v') ∧ r' = <[k := v']> r.
Proof. unfold rebuilt_value. destruct (m !! _) as [cv|]; [|done]. destruct (cg_ConfigValue cv) as [v'|] eqn:Hv; [|done]. intros [= <-]. eauto. Qed.
Lemma rebuilt_policy_Ok path r k p r' : rebuilt_policy m path r k p = Ok r' →
  ∃ p', (∃ cp, m !! (policyPrefix ++ path ++ pathSeparator ++ k) = Some cp ∧ cg_ConfigPolicy cp = Some p') ∧ r' = <[k := p']> r.
Proof. unfold rebuilt_policy. destruct (m !! _) as [cv|]; [|done]. destruct (cg_ConfigPolicy cv) as [v'|] eqn:Hv; [|done]. intros [= <-]. eauto. Qed.

(** The loops over the members of a group start from these members. *)
Lemma range_members {A C : Type} (R : bytes → C → Prop) (m0 : gmap bytes A) (r0 r : gmap bytes C) :
  same_keys r0 m0 → (∀ k, is_Some (m0 !! k) → ∃ c, r !! k = Some c ∧ R k c) ∧ (∀ k, m0 !! k = None → r !! k = r0 !! k) →
  same_keys r m0 ∧ ∀ k c, r !! k = Some c → R k c.
Proof.
  intros Hsame [H1 H2].
  assert (∀ k, is_Some (r !! k) → is_Some (m0 !! k)) as H3.
  { intros k Hk. destruct (m0 !! k) as [x|] eqn:Hx; [by eexists|]. rewrite H2 in Hk by done. apply Hsame in Hk. by rewrite Hx in Hk. }
  split; [split; [apply H3|intros Hk; destruct (H1 k Hk) as (c & -> & _); by eexists]|].
  intros k c Hk. destruct (H1 k) as (c' & Hk' & HR); [apply H3; by eexists|]. congruence.
Qed.
Lemma same_keys_refl {A} (m0 : gmap bytes A) : same_keys m0 m0.
Proof. done. Qed.
Lemma same_keys_fmap {A C D : Type} (f : A → C) (m1 : gmap bytes A) (m2 : gmap bytes D) : same_keys (f <$> m1) m2 ↔ same_keys m1 m2.
Proof. unfold same_keys. setoid_rewrite lookup_fmap. by setoid_rewrite fmap_is_Some. Qed.

(** The last step of a group. *)
Lemma finish_group g groups values policies g' :
  match m !! hackyFixOrdererCapabilities with
  | None => Ok (mkConfigGroup (cgr_Version g) groups values policies (cgr_ModPolicy g))
  | Some _ => Ok (mkConfigGroup (cgr_Version g) groups (fix_value <$> values) (fix_policy <$> policies) (fix_mod_policy (cgr_ModPolicy g)))
  end = Ok g' ↔ g' = mkConfigGroup (cgr_Version g) groups (fixed_value <$> values) (fixed_policy <$> policies) (fixed_mod_policy (cgr_ModPolicy g)).
Proof.
  unfold fixed_value, fixed_policy, fixed_mod_policy, fixes. destruct (m !! hackyFixOrdererCapabilities) as [x|] eqn:Hx.
  - rewrite (bool_decide_true (is_Some _)) by by eexists. split; [by intros [= <-]|by intros ->].
  - rewrite (bool_decide_false (is_Some _)) by by intros []. rewrite !map_fmap_id. split; [by intros [= <-]|by intros ->].
Qed.

Lemma recurseConfigMap_built fuel : ∀ path g', recurseConfigMap fuel path m = Ok g' → built path g'.
Proof.
  induction fuel as [|fuel IH]; intros path g'; cbn [recurseConfigMap];
    (destruct (m !! (groupPrefix ++ path)) as [c|] eqn:Hc; [|done]); (destruct (cg_ConfigGroup c) as [g|] eqn:Hg; [|done]); [done|].
  intros (groups & H1 & (values & H2 & (policies & H3 & ->%finish_group)%bind_Ok)%bind_Ok)%bind_Ok.
  apply (range_map_insert _ (λ k h, built (path ++ pathSeparator ++ k) h)), range_members in H1 as [Hgk Hg']; [|done|].
  2:{ intros k v r r' _ (h & Hh & [= <-])%bind_Ok. eauto. }
  apply (range_map_insert _ (λ k v, ∃ cv, m !! (valuePrefix ++ path ++ pathSeparator ++ k) = Some cv ∧ cg_ConfigValue cv = Some v)), range_members in H2 as [Hvk Hv]; [|done|].
  2:{ intros k v r r' _. apply rebuilt_value_Ok. }
  apply (range_map_insert _ (λ k p, ∃ cp, m !! (policyPrefix ++ path ++ pathSeparator ++ k) = Some cp ∧ cg_ConfigPolicy cp = Some p)), range_members in H3 as [Hpk Hp]; [|done|].
  2:{ intros k v r r' _. apply rebuilt_policy_Ok. }
  eapply built_intro; [done..| | | | | |]; cbn; [done|done|by apply same_keys_fmap| |by apply same_keys_fmap|].
  - intros k v'. rewrite lookup_fmap, fmap_Some. intros (v & (cv & ? & ?)%Hv & ->). eauto.
  - intros k v'. rewrite lookup_fmap, fmap_Some. intros (v & (cv & ? & ?)%Hp & ->). eauto.
Qed.
Lemma longest_key_le k c : m !! k = Some c → (length k ≤ longest_key m)%nat.
Proof.
  unfold longest_key. revert m. refine (map_fold_weak_ind (λ r m, m !! k = Some c → (length k ≤ r)%nat) _ _ _ _); [by rewrite lookup_empty|].
  intros i x m' r _ IH [[-> _]|[_ Hk]]%lookup_insert_Some; [lia|]. apply IH in Hk. lia.
Qed.
Lemma built_recurse path g' : built path g' → ∀ fuel, (longest_key m < fuel + length (groupPrefix ++ path))%nat → recurseConfigMap fuel path m = Ok g'.
Proof.
  induction 1 as [path c g g' Hc Hg Hver Hmod Hgk _ IH Hvk Hv Hpk Hp]. intros fuel Hfuel. pose proof (longest_key_le _ _ Hc).
  destruct fuel as [|fuel]; [lia|]. cbn [recurseConfigMap]. rewrite Hc, Hg.
  rewrite (range_map_insert_all _ (cgr_Groups g) (cgr_Groups g) (cgr_Groups g')); [|intros k; symmetry; apply Hgk|done|].
  2:{ intros k _ h r _ Hk. rewrite (IH _ _ Hk); [done|]. rewrite !length_app in *. assert (length pathSeparator = 1)%nat by done. lia. }
  destruct (looked_up (λ k, cv ← m !! (valuePrefix ++ path ++ pathSeparator ++ k); cg_ConfigValue cv) fixed_value (cgr_Values g')) as (values & Hvv & Hvs & Hvl).
  { intros k v' (cv & v & Hcv & Hv' & ->)%Hv. exists v. by rewrite Hcv. }
  destruct (looked_up (λ k, cp ← m !! (policyPrefix ++ path ++ pathSeparator ++ k); cg_ConfigPolicy cp) fixed_policy (cgr_Policies g')) as (policies & Hpp & Hps & Hpl).
  { intros k p' (cp & p & Hcp & Hp' & ->)%Hp. exists p. by rewrite Hcp. }
  rewrite bind_Ok_eq, (range_map_insert_all _ (cgr_Values g) (cgr_Values g) values); [|intros k; by rewrite Hvs, (Hvk k)|done|].
  2:{ intros k w v r _ (cv & Hcv & Hv')%Hvl%bind_Some. unfold rebuilt_value. by rewrite Hcv, Hv'. }
  rewrite bind_Ok_eq, (range_map_insert_all _ (cgr_Policies g) (cgr_Policies g) policies); [|intros k; by rewrite Hps, (Hpk k)|done|].
  2:{ intros k w v r _ (cv & Hcv & Hv')%Hpl%bind_Some. unfold rebuilt_policy. by rewrite Hcv, Hv'. }
  rewrite bind_Ok_eq. apply finish_group. rewrite Hvv, Hpp, <-Hver, <-Hmod. by destruct g'.
Qed.

(** Making the tree always ends, and makes the tree that the map describes. *)
Lemma configMapToConfig_spec root g' : configMapToConfig m root = Ok g' ↔ built (pathSeparator ++ root) g'.
Proof.
  split; [apply recurseConfigMap_built|]. intros Hb. apply built_recurse; [done|]. rewrite !length_app. cbn. lia.
Qed.
Lemma recurseConfigMap_ends fuel : ∀ path, (longest_key m < fuel + length (groupPrefix ++ path))%nat → recurseConfigMap fuel path m ≠ Panic.
Proof.
  induction fuel as [|fuel IH]; intros path Hfuel; cbn [recurseConfigMap];
    (destruct (m !! (groupPrefix ++ path)) as [c|] eqn:Hc; [|done]); (destruct (cg_ConfigGroup c) as [g|] eqn:Hg; [|done]).
  { apply longest_key_le in Hc. lia. }
  apply bind_not_Panic; [|intros groups; apply bind_not_Panic; [|intros values; apply bind_not_Panic; [|intros policies; by destruct (m !! hackyFixOrdererCapabilities)]]];
    apply range_map_not_Panic; intros k v s _.
  - apply bind_not_Panic; [|done]. apply IH. rewrite !length_app in *. assert (length pathSeparator = 1)%nat by done. lia.
  - unfold rebuilt_value. destruct (m !! (valuePrefix ++ _)) as [cv|]; [|done]. by destruct (cg_ConfigValue cv).
  - unfold rebuilt_policy. destruct (m !! (policyPrefix ++ _)) as [cv|]; [|done]. by destruct (cg_ConfigPolicy cv).
Qed.
Lemma configMapToConfig_ends root : configMapToConfig m root ≠ Panic.
Proof. apply recurseConfigMap_ends. rewrite !length_app. cbn. lia. Qed.

(** The content of an element of the tree is that of the map, up to the empty
    modification policies; of a group these are its version, its policy and the
    names of its members. *)
Definition derived (c c' : comparable) : Prop :=
  match cg_ConfigGroup c', cg_ConfigValue c', cg_ConfigPolicy c' with
  | Some g', _, _ => ∃ g, cg_ConfigGroup c = Some g ∧ cgr_Version g' = cgr_Version g ∧ cgr_ModPolicy g' = fixed_mod_policy (cgr_ModPolicy g) ∧
      same_keys (cgr_Groups g') (cgr_Groups g) ∧ same_keys (cgr_Values g') (cgr_Values g) ∧ same_keys (cgr_Policies g') (cgr_Policies g)
  | _, Some v', _ => ∃ v, cg_ConfigGroup c = None ∧ cg_ConfigValue c = Some v ∧ v' = fixed_value v
  | _, _, Some p' => ∃ p, cg_ConfigGroup c = None ∧ cg_ConfigValue c = None ∧ cg_ConfigPolicy c = Some p ∧ p' = fixed_policy p
  | _, _, _ => False
  end.
(** Each entry of the map is of the kind that its key says. *)
Definition well_kinded : Prop := ∀ k c, m !! k = Some c → ∃ path g, element path g c ∧ fqPath c = k.

Lemma slashed_snoc l k : slashed (l ++ [k]) = slashed l ++ pathSeparator ++ k.
Proof. rewrite slashed_app. f_equal. unfold slashed. cbn. by rewrite app_nil_r. Qed.
Lemma built_sub p g' l h : built (slashed p) g' → sub_group g' l = Some h → built (slashed (p ++ l)) h.
Proof.
  revert p g'. induction l as [|k l IH]; intros p g' Hb Hl; cbn in Hl; simplify_eq; [by rewrite app_nil_r|].
  apply bind_Some in Hl as (g1 & Hk & Hl). replace (p ++ k :: l) with ((p ++ [k]) ++ l) by by rewrite <-app_assoc. eapply IH; [|done].
  rewrite slashed_snoc. inversion Hb; subst. eauto.
Qed.
Lemma fqPath_value k p v : fqPath (value_element k p v) = valuePrefix ++ slashed p ++ pathSeparator ++ k.
Proof. rewrite fqPath_slashed. cbn [cg_path cg_key value_element]. by rewrite slashed_snoc. Qed.
Lemma fqPath_policy k p v : fqPath (policy_element k p v) = policyPrefix ++ slashed p ++ pathSeparator ++ k.
Proof. rewrite fqPath_slashed. cbn [cg_path cg_key policy_element]. by rewrite slashed_snoc. Qed.
Lemma fqPath_group k p g : fqPath (group_element k p g) = groupPrefix ++ slashed (p ++ [k]).
Proof. by rewrite fqPath_slashed. Qed.

Lemma built_element p g' c' : well_kinded → built (slashed p) g' → element p g' c' → ∃ c, m !! fqPath c' = Some c ∧ derived c c'.
Proof.
  intros Hwk Hb [l h key q Hl Hq|l h k v Hl Hv|l h k v Hl Hv]; pose proof (built_sub _ _ _ _ Hb Hl) as Hh; inversion_clear Hh as [? c g ? Hc Hg Hver Hmod Hgk Hgs Hvk Hvs Hpk Hps].
  - exists c. rewrite fqPath_group, <-Hq. split; [done|]. exists g. by split_and!.
  - destruct (Hvs _ _ Hv) as (cv & v0 & Hcv & Hv0 & ->). exists cv. rewrite fqPath_value. split; [done|]. exists v0. split_and!; [|done|done].
    destruct (Hwk _ _ Hcv) as (pa & ga & He & _). by destruct He.
  - destruct (Hps _ _ Hv) as (cv & v0 & Hcv & Hv0 & ->). exists cv. rewrite fqPath_policy. split; [done|]. exists v0. split_and!; [| |done|done];
      destruct (Hwk _ _ Hcv) as (pa & ga & He & _); by destruct He.
Qed.
End built.

(** ** There and back *)

(** A tree with its empty modification policies replaced. *)
Fixpoint fix_tree (g : ConfigGroup) : ConfigGroup :=
  mkConfigGroup (cgr_Version g) (fix_tree <$> cgr_Groups g) (fix_value <$> cgr_Values g) (fix_policy <$> cgr_Policies g) (fix_mod_policy (cgr_ModPolicy g)).
Definition fixed_tree (m : gmap bytes comparable) (g : ConfigGroup) : ConfigGroup := if fixes m then fix_tree g else g.
Lemma fixed_tree_eq m g : fixed_tree m g =
  mkConfigGroup (cgr_Version g) (fixed_tree m <$> cgr_Groups g) (fixed_value m <$> cgr_Values g) (fixed_policy m <$> cgr_Policies g) (fixed_mod_policy m (cgr_ModPolicy g)).
Proof. unfold fixed_tree, fixed_value, fixed_policy, fixed_mod_policy. destruct (fixes m); [by destruct g|]. rewrite !map_fmap_id. by destruct g. Qed.

(** A tree all of whose elements are in the map is what the map describes. *)
Lemma built_tree m g : ∀ p, (∀ c, element p g c → m !! fqPath c = Some c) → p ≠ [] → built m (slashed p) (fixed_tree m g).
Proof.
  induction g as [g IH] using ConfigGroup_tree_ind. intros p Hall Hne. destruct p as [|key p _] using rev_ind; [done|].
  rewrite fixed_tree_eq. apply (built_intro m _ (group_element key p g) g); cbn [cgr_Version cgr_ModPolicy cgr_Groups cgr_Values cgr_Policies]; try done.
  - rewrite <-(fqPath_group key p g). apply Hall, element_root.
  - by apply same_keys_fmap.
  - intros k h. rewrite lookup_fmap, fmap_Some. intros (g' & Hk & ->). rewrite <-slashed_snoc. apply (IH k g' Hk).
    + intros c Hc. apply Hall. by eapply element_sub.
    + by destruct (p ++ [key]).
  - by apply same_keys_fmap.
  - intros k v'. rewrite lookup_fmap, fmap_Some. intros (v & Hk & ->). exists (value_element k (p ++ [key]) v), v. split_and!; [|done|done].
    rewrite <-(fqPath_value k (p ++ [key]) v). by apply Hall, element_own_value.
  - by apply same_keys_fmap.
  - intros k v'. rewrite lookup_fmap, fmap_Some. intros (v & Hk & ->). exists (policy_element k (p ++ [key]) v), v. split_and!; [|done|done].
    rewrite <-(fqPath_policy k (p ++ [key]) v). by apply Hall, element_own_policy.
Qed.
Lemma slashed_root root : slashed [root] = pathSeparator ++ root.
Proof. unfold slashed. cbn. by rewrite app_nil_r. Qed.
Lemma configMapToConfig_built m root g : configMapToConfig m root = Ok g ↔ built m (slashed [root]) g.
Proof. by rewrite slashed_root, configMapToConfig_spec. Qed.
Lemma map_of_tree m root g : map_of root g m → configMapToConfig m root = Ok (fixed_tree m g).
Proof. intros [_ Hm]. apply configMapToConfig_built, built_tree; [|done]. intros c Hc. by apply Hm. Qed.

(** A tree without empty modification policies. *)
Definition has_policies (path : list bytes) (g : ConfigGroup) : Prop := ∀ c, element path g c → modPolicy c ≠ [].
Lemma fix_mod_policy_id p : p ≠ [] → fix_mod_policy p = p.
Proof. intros Hp. unfold fix_mod_policy. by rewrite decide_False. Qed.
Lemma map_fmap_fixed {A : Type} (f : A → A) (m : gmap bytes A) : (∀ k v, m !! k = Some v → f v = v) → f <$> m = m.
Proof. intros Hf. apply map_eq. intros k. rewrite lookup_fmap. destruct (m !! k) as [v|] eqn:Hk; cbn; [|done]. by rewrite (Hf k). Qed.
Lemma fix_tree_id g : ∀ p key, has_policies (p ++ [key]) g → fix_tree g = g.
Proof.
  induction g as [g IH] using ConfigGroup_tree_ind. intros p key Hg. pose proof (Hg _ (element_root key p g)) as Hmod. destruct g as [v gs vs ps mp].
  cbn [fix_tree cgr_Version cgr_Groups cgr_Values cgr_Policies cgr_ModPolicy modPolicy group_element] in *. f_equal.
  - apply map_fmap_fixed. intros k g' Hk. apply (IH k g' Hk (p ++ [key]) k). intros c Hc. apply Hg. by eapply element_sub.
  - apply map_fmap_fixed. intros k [v' x mp'] Hk. unfold fix_value. cbn. f_equal. apply fix_mod_policy_id.
    exact (Hg _ (element_own_value _ (mkConfigGroup v gs vs ps mp) _ _ Hk)).
  - apply map_fmap_fixed. intros k [v' x mp'] Hk. unfold fix_policy. cbn. f_equal. apply fix_mod_policy_id.
    exact (Hg _ (element_own_policy _ (mkConfigGroup v gs vs ps mp) _ _ Hk)).
  - by apply fix_mod_policy_id.
Qed.
Lemma fixed_tree_id m root g : has_policies [root] g → fixed_tree m g = g.
Proof. intros Hg. unfold fixed_tree. destruct (fixes m); [|done]. by apply (fix_tree_id g [] root). Qed.

(** A configuration tree whose names are valid is turned into a map and back
    without loss: [mapConfig] succeeds exactly for valid names, and from its
    result [configMapToConfig] makes the tree again, with empty modification
    policies replaced if the orderer has capabilities; if no policy is empty it
    is the same tree, and [proto.Equal] says so. *)
Theorem config_map_roundtrip root g : names_ok [root] g ↔ ∃ m g', mapConfig (Some g) root = Ok m ∧ configMapToConfig m root = Ok g' ∧
  g' = fixed_tree m g ∧ (has_policies [root] g → proto_Equal g' g = true).
Proof.
  split.
  - intros Hok. destruct (recurseConfig_total g [] root ∅ Hok) as [m Hm]. pose proof (proj1 (mapConfig_spec root g m) Hm) as Hof.
    exists m, (fixed_tree m g). split_and!; [done|by apply map_of_tree|done|]. intros Hp. by apply proto_Equal_eq, (fixed_tree_id _ root).
  - intros (m & _ & [Hok _]%mapConfig_spec & _). done.
Qed.
