(* ===== verification/ConfigUpdate.v ===== *)
(** * Updates of the channel configuration

  Models the validation of configuration updates (common/configtx/update.go and
  validator.go) with the helpers of protoutil (commonutils.go, signeddata.go).
  An update carries a read set, whose elements must have the versions of the
  current configuration, and a write set; what differs between the two is the
  change, and every element it changes must have the next version and be signed
  as the modification policy of the current element demands.

  The policy manager is an interface ([PolicyManager]); PolicyManagers.v has its
  implementation. *)

From S2P Require Import Prelude Separated Encoding Proto Block BlockVerify ConfigTree.
From stdpp Require Import options.
Local Open Scope Z_scope.
Set Default Proof Using "Type*".

(** ** Messages *)

Record ConfigEnvelope := { cenv_Config : option Config; cenv_LastUpdate : option Envelope }.
Record ConfigSignature := { csig_SignatureHeader : bytes; csig_Signature : bytes }.
Record ConfigUpdateEnvelope := { cue_ConfigUpdate : bytes; cue_Signatures : list ConfigSignature }.
Record ConfigUpdate := { cu_ChannelId : bytes; cu_ReadSet : option ConfigGroup; cu_WriteSet : option ConfigGroup }.
Definition HeaderType_CONFIG_UPDATE : Z := 2.

(** ** The policy manager

    [GetPolicy] returns a policy and whether it is the requested one. *)
Class PolicyManager (M P : Type) := {
  pm_Manager : M → list bytes → option M;
  pm_GetPolicy : M → bytes → res (P * bool);
  pm_EvaluateSignedData : P → list SignedData → res unit
}.

Section validator.
Context `{!ProtoMessage Payload, !ProtoMessage ChannelHeader, !ProtoMessage SignatureHeader, !ProtoMessage ConfigUpdateEnvelope, !ProtoMessage ConfigUpdate}.
Context {M P : Type} `{!PolicyManager M P}.

(** ** Helpers of protoutil *)

Definition UnmarshalEnvelopeOfType {A} `{!ProtoMessage A} (envelope : option Envelope) (headerType : Z) : res (ChannelHeader * A) :=
  env ← deref envelope;
  payload ← UnmarshalPayload (env_Payload env);
  match pl_Header payload with
  | None => Err "envelope must have a Header"
  | Some header =>
      chdr ← UnmarshalChannelHeader (hdr_ChannelHeader header);
      if decide (chdr_Type chdr ≠ headerType) then Err "invalid type"
      else message ← Unmarshal (pl_Data payload); Ok (chdr, message)
  end.
Definition EnvelopeToConfigUpdate (configtx : option Envelope) : res ConfigUpdateEnvelope :=
  '(_, configUpdateEnv) ← UnmarshalEnvelopeOfType configtx HeaderType_CONFIG_UPDATE; Ok configUpdateEnv.
Definition ConfigUpdateEnvelopeAsSignedData (ce : option ConfigUpdateEnvelope) : res (list SignedData) :=
  match ce with
  | None => Err "No signatures for nil SignedConfigItem"
  | Some ce =>
      mapM (λ configSig,
        sigHeader ← Unmarshal (A := SignatureHeader) (csig_SignatureHeader configSig);
        Ok {| sd_Data := csig_SignatureHeader configSig ++ cue_ConfigUpdate ce; sd_Identity := sh_Creator sigHeader; sd_Signature := csig_Signature configSig |})
        (cue_Signatures ce)
  end.

(** ** The validator *)

Record ValidatorImpl := {
  vi_channelID : bytes;
  vi_sequence : Z;
  vi_configMap : gmap bytes comparable;
  vi_configProto : Config;
  vi_namespace : bytes;
  vi_pm : M
}.
Definition NewValidatorImpl (channelID : bytes) (config : option Config) (namespace : bytes) (pm : M) : res ValidatorImpl :=
  match config with
  | None => Err "nil config parameter"
  | Some config =>
      match cfg_ChannelGroup config with
      | None => Err "nil channel group"
      | Some g =>
          _ ← ValidateChannelID channelID;
          configMap ← mapConfig (Some g) namespace;
          Ok {| vi_channelID := channelID; vi_sequence := cfg_Sequence config; vi_configMap := configMap;
                vi_configProto := config; vi_namespace := namespace; vi_pm := pm |}
      end
  end.

Section update.
Context (vi : ValidatorImpl).

Definition verifyReadSet (readSet : gmap bytes comparable) : res unit :=
  range_map (λ _ key value,
    match vi_configMap vi !! key with
    | None => Err "existing config does not contain element but was in the read set"
    | Some existing => if decide (version existing ≠ version value) then Err "proposed update requires another version" else Ok ()
    end) () readSet.
Definition computeDeltaSet (readSet writeSet : gmap bytes comparable) : gmap bytes comparable :=
  map_fold (λ key value result,
    match readSet !! key with
    | Some readVal => if decide (version readVal = version value) then result else <[key := value]> result
    | None => <[key := value]> result
    end) ∅ writeSet.
Definition validateModPolicy (modPolicy : bytes) : res unit :=
  match modPolicy with
  | [] => Err "mod_policy not set"
  | b :: rest =>
      let trimmed := if decide (b = slash) then rest else modPolicy in
      foldM (λ _ pathElement, validateConfigID pathElement) () (Split slash trimmed)
  end.
(** [None] when no policy was found; the policy that comes with it is not used. *)
Definition policyForItem (item : comparable) : res (option P) :=
  let modPolicy := modPolicy item in
  let manager :=
    if bool_decide (modPolicy ≠ [] ∧ head modPolicy ≠ Some slash ∧ cg_path item ≠ []) then
      manager ← pm_Manager (vi_pm vi) (drop 1 (cg_path item));
      match cg_ConfigGroup item with Some _ => pm_Manager manager [cg_key item] | None => Some manager end
    else Some (vi_pm vi) in
  match manager with
  | None => Ok None
  | Some manager => '(policy, ok) ← pm_GetPolicy manager modPolicy; Ok (if ok : bool then Some policy else None)
  end.
Definition verifyDeltaSet (deltaSet : gmap bytes comparable) (signedData : list SignedData) : res unit :=
  if decide (size deltaSet = 0%nat) then Err "delta set was empty -- update would have no effect"
  else
    range_map (λ _ key value,
      _ ← validateModPolicy (modPolicy value);
      match vi_configMap vi !! key with
      | None => if decide (version value ≠ 0) then Err "attempted to set key to version, but key does not exist" else Ok ()
      | Some existing =>
          if decide (version value ≠ u64 (version existing + 1)) then Err "attempt to set key to version, but key is at version"
          else
            policy ← policyForItem existing;
            match policy with
            | None => Err "unexpected missing policy for item"
            | Some policy => pm_EvaluateSignedData policy signedData
            end
      end) () deltaSet.
Definition verifyFullProposedConfig (writeSet fullProposedConfig : gmap bytes comparable) : res unit :=
  range_map (λ _ key _,
    match fullProposedConfig !! key with None => Err "writeset contained key which did not appear in proposed config" | Some _ => Ok () end) () writeSet.
Definition computeUpdateResult (updatedConfig : gmap bytes comparable) : gmap bytes comparable :=
  let newConfigMap := map_fold (λ key value newConfigMap, <[key := value]> newConfigMap) ∅ (vi_configMap vi) in
  map_fold (λ key value newConfigMap, <[key := value]> newConfigMap) newConfigMap updatedConfig.
Definition authorizeUpdate (configUpdateEnv : option ConfigUpdateEnvelope) : res (gmap bytes comparable) :=
  match configUpdateEnv with
  | None => Err "cannot process nil ConfigUpdateEnvelope"
  | Some env =>
      configUpdate ← Unmarshal (A := ConfigUpdate) (cue_ConfigUpdate env);
      if decide (cu_ChannelId configUpdate ≠ vi_channelID vi) then Err "ConfigUpdate for another channel"
      else
        readSet ← mapConfig (cu_ReadSet configUpdate) (vi_namespace vi);
        _ ← verifyReadSet readSet;
        writeSet ← mapConfig (cu_WriteSet configUpdate) (vi_namespace vi);
        let deltaSet := computeDeltaSet readSet writeSet in
        signedData ← ConfigUpdateEnvelopeAsSignedData (Some env);
        _ ← verifyDeltaSet deltaSet signedData;
        let fullProposedConfig := computeUpdateResult deltaSet in
        _ ← verifyFullProposedConfig writeSet fullProposedConfig;
        Ok fullProposedConfig
  end.

Definition proposeConfigUpdate (configtx : option Envelope) : res ConfigEnvelope :=
  configUpdateEnv ← EnvelopeToConfigUpdate configtx;
  configMap ← authorizeUpdate (Some configUpdateEnv);
  channelGroup ← configMapToConfig configMap (vi_namespace vi);
  Ok {| cenv_Config := Some {| cfg_Sequence := u64 (vi_sequence vi + 1); cfg_ChannelGroup := Some channelGroup |}; cenv_LastUpdate := configtx |}.
Definition ValidatorImpl_Validate (configEnv : option ConfigEnvelope) : res unit :=
  match configEnv with
  | None => Err "config envelope is nil"
  | Some configEnv =>
      match cenv_Config configEnv with
      | None => Err "config envelope has nil config"
      | Some config =>
          if decide (cfg_Sequence config ≠ u64 (vi_sequence vi + 1)) then Err "config currently at another sequence"
          else
            configUpdateEnv ← EnvelopeToConfigUpdate (cenv_LastUpdate configEnv);
            configMap ← authorizeUpdate (Some configUpdateEnv);
            channelGroup ← configMapToConfig configMap (vi_namespace vi);
            if match cfg_ChannelGroup config with Some g => proto_Equal channelGroup g | None => false end then Ok ()
            else Err "ConfigEnvelope LastUpdate did not produce the supplied config result"
      end
  end.
End update.
End validator.

(** ** What is accepted *)

Lemma range_map_unit {A : Type} (f : bytes → A → res unit) (m : gmap bytes A) :
  range_map (λ _ k v, f k v) () m = Ok () ↔ ∀ k v, m !! k = Some v → f k v = Ok ().
Proof.
  split.
  - intros Hr k v Hk. destruct (range_map_entry _ _ _ _ _ _ Hr Hk) as (? & [] & Hf). done.
  - intros Hall. destruct (range_map_total (λ _, True) (λ _ : unit, f) () m) as ([] & Hr & _); [done| |done]. intros k v [] Hk _. exists (). by rewrite (Hall _ _ Hk).
Qed.
Lemma map_fold_insert_all {A : Type} (m0 m : gmap bytes A) : map_fold (λ k v r, <[k := v]> r) m0 m = m ∪ m0.
Proof.
  revert m. refine (map_fold_weak_ind (λ r m, r = m ∪ m0) _ _ _ _); [by rewrite map_empty_union|].
  intros k v m r _ ->. by rewrite insert_union_l.
Qed.
Lemma computeDeltaSet_spec (rs ws : gmap bytes comparable) k c : computeDeltaSet rs ws !! k = Some c ↔
  ws !! k = Some c ∧ ∀ rc, rs !! k = Some rc → version rc ≠ version c.
Proof.
  unfold computeDeltaSet. revert ws c. refine (map_fold_weak_ind (λ r ws, ∀ c, r !! k = Some c ↔ ws !! k = Some c ∧ ∀ rc, rs !! k = Some rc → version rc ≠ version c) _ _ _ _).
  - intros c. rewrite !lookup_empty. naive_solver.
  - intros i x m r Hi IH c. destruct (decide (i = k)) as [->|Hne].
    + assert (r !! k = None) as Hr by (apply eq_None_not_Some; intros [y [Hy _]%IH]; congruence).
      rewrite lookup_insert_eq. destruct (rs !! k) as [rc|]; [destruct (decide _)|]; [rewrite Hr|rewrite lookup_insert_eq..]; naive_solver.
    + rewrite lookup_insert_ne, <-IH by done. destruct (rs !! i) as [rc|]; [destruct (decide _)|]; [done|by rewrite lookup_insert_ne..].
Qed.

Section reads.
Context {M : Type}.
Notation ValidatorImpl := (ValidatorImpl (M := M)).

Lemma verifyReadSet_spec (vi : ValidatorImpl) rs : verifyReadSet vi rs = Ok () ↔ ∀ k c, rs !! k = Some c → ∃ old, vi_configMap vi !! k = Some old ∧ version old = version c.
Proof.
  unfold verifyReadSet. rewrite (range_map_unit (λ key value, match vi_configMap vi !! key with None => _ | Some existing => _ end)).
  apply forall_proper; intros k. apply forall_proper; intros c. destruct (vi_configMap vi !! k) as [old|]; [|naive_solver].
  destruct (decide (version old ≠ version c)) as [Hv|Hv%dec_stable]; naive_solver.
Qed.
Lemma computeUpdateResult_eq (vi : ValidatorImpl) delta : computeUpdateResult vi delta = delta ∪ vi_configMap vi.
Proof. unfold computeUpdateResult. by rewrite !map_fold_insert_all, (right_id_L ∅ (∪)). Qed.
(** The last check of an update never fails. *)
Lemma verifyFullProposedConfig_passes (vi : ValidatorImpl) rs ws : (∀ k c, rs !! k = Some c → ∃ old, vi_configMap vi !! k = Some old ∧ version old = version c) →
  verifyFullProposedConfig ws (computeUpdateResult vi (computeDeltaSet rs ws)) = Ok ().
Proof.
  intros Hrs. rewrite computeUpdateResult_eq. unfold verifyFullProposedConfig.
  apply (range_map_unit (λ key _, match (computeDeltaSet rs ws ∪ vi_configMap vi) !! key with None => _ | Some _ => _ end)).
  intros k c Hk. destruct ((computeDeltaSet rs ws ∪ vi_configMap vi) !! k) as [x|] eqn:Hx; [done|].
  apply lookup_union_None in Hx as [Hd Hm]. exfalso. destruct (rs !! k) as [rc|] eqn:Hr.
  - destruct (Hrs _ _ Hr) as (old & Hold & _). congruence.
  - assert (computeDeltaSet rs ws !! k = Some c) by (apply computeDeltaSet_spec; split; [done|by rewrite Hr]). congruence.
Qed.
End reads.

Section accepted.
Context `{!ProtoMessage Payload, !ProtoMessage ChannelHeader, !ProtoMessage SignatureHeader, !ProtoMessage ConfigUpdateEnvelope, !ProtoMessage ConfigUpdate}.
Context {M P : Type} `{!PolicyManager M P}.
Notation ValidatorImpl := (ValidatorImpl (M := M)).

(** The signatures satisfy the modification policy of an element. *)
Definition authorised (vi : ValidatorImpl) (sd : list SignedData) (c : comparable) : Prop :=
  ∃ policy, policyForItem vi c = Ok (Some policy) ∧ pm_EvaluateSignedData policy sd = Ok ().
(** What an element of the change must satisfy. *)
Definition change_ok (vi : ValidatorImpl) (sd : list SignedData) (k : bytes) (c : comparable) : Prop :=
  validateModPolicy (modPolicy c) = Ok () ∧
  match vi_configMap vi !! k with
  | None => version c = 0
  | Some old => version c = u64 (version old + 1) ∧ authorised vi sd old
  end.
(** An update that is accepted: its sets, its signatures and its change. *)
Record accepted (vi : ValidatorImpl) (env : ConfigUpdateEnvelope) (rs ws : gmap bytes comparable) (sd : list SignedData) : Prop := {
  acc_update : ∃ u, Unmarshal (A := ConfigUpdate) (cue_ConfigUpdate env) = Ok u ∧ cu_ChannelId u = vi_channelID vi ∧
    mapConfig (cu_ReadSet u) (vi_namespace vi) = Ok rs ∧ mapConfig (cu_WriteSet u) (vi_namespace vi) = Ok ws;
  acc_signed : ConfigUpdateEnvelopeAsSignedData (Some env) = Ok sd;
  acc_reads : ∀ k c, rs !! k = Some c → ∃ old, vi_configMap vi !! k = Some old ∧ version old = version c;
  acc_changes : computeDeltaSet rs ws ≠ ∅;
  acc_change : ∀ k c, computeDeltaSet rs ws !! k = Some c → change_ok vi sd k c
}.

Lemma verifyDeltaSet_spec (vi : ValidatorImpl) delta sd : verifyDeltaSet vi delta sd = Ok () ↔ delta ≠ ∅ ∧ ∀ k c, delta !! k = Some c → change_ok vi sd k c.
Proof.
  unfold verifyDeltaSet. destruct (decide _) as [Hs|Hs]; [apply map_size_empty_inv in Hs; naive_solver|].
  rewrite map_size_empty_iff in Hs. rewrite (range_map_unit (λ key value, _ ← validateModPolicy (modPolicy value); _)).
  split; [intros Hall; split; [done|]|intros [_ Hall]]; intros k c Hk; specialize (Hall k c Hk); unfold change_ok in *.
  - apply bind_Ok in Hall as ([] & Hmp & Hall). split; [done|]. destruct (vi_configMap vi !! k) as [old|].
    + destruct (decide _) as [?|Hv%dec_stable]; [done|]. split; [done|]. apply bind_Ok in Hall as (p & Hp & Hall). destruct p as [policy|]; [|done]. by exists policy.
    + destruct (decide _) as [?|Hv%dec_stable]; [done|done].
  - destruct Hall as [-> Hall]. rewrite bind_Ok_eq. destruct (vi_configMap vi !! k) as [old|].
    + destruct Hall as [Hv (policy & Hp & He)]. rewrite decide_False by (intros H; by apply H). by rewrite Hp, bind_Ok_eq.
    + rewrite decide_False; [done|]. intros H; by apply H.
Qed.
Lemma authorizeUpdate_spec (vi : ValidatorImpl) env m : authorizeUpdate vi (Some env) = Ok m ↔
  ∃ rs ws sd, accepted vi env rs ws sd ∧ m = computeDeltaSet rs ws ∪ vi_configMap vi.
Proof.
  unfold authorizeUpdate. split.
  - intros (u & Hu & Ha)%bind_Ok. destruct (decide _) as [|Hid%dec_stable]; [done|].
    apply bind_Ok in Ha as (rs & Hrs & ([] & Hvr & (ws & Hws & (sd & Hsd & ([] & Hvd & Ha)%bind_Ok)%bind_Ok)%bind_Ok)%bind_Ok).
    pose proof (proj1 (verifyReadSet_spec vi rs) Hvr). apply (verifyDeltaSet_spec vi) in Hvd as [Hne Hd].
    apply bind_Ok in Ha as ([] & _ & [= <-]). exists rs, ws, sd. split; [|by rewrite computeUpdateResult_eq]. split; try done. eauto.
  - intros (rs & ws & sd & [(u & -> & Hid & Hrs & Hws) Hsd Hreads Hne Hd] & ->). rewrite bind_Ok_eq, decide_False by (intros H; by apply H).
    rewrite Hrs, bind_Ok_eq, (proj2 (verifyReadSet_spec vi rs)), bind_Ok_eq, Hws, bind_Ok_eq by done. rewrite Hsd, bind_Ok_eq.
    rewrite (proj2 (verifyDeltaSet_spec vi _ sd)), bind_Ok_eq by done. rewrite verifyFullProposedConfig_passes, bind_Ok_eq by done.
    by rewrite computeUpdateResult_eq.
Qed.
End accepted.
