(* ===== verification/ConfigSafety.v ===== *)
(** * What an accepted configuration update can change

  The theorems about common/configtx: every change that an accepted update
  makes is authorised by the modification policies in force, the result is a
  valid configuration again, an update cannot be applied twice, and peers accept
  what orderers propose. *)

From S2P Require Import Prelude Separated Encoding Proto Block BlockVerify ConfigTree ConfigUpdate.
From stdpp Require Import options.
Local Open Scope Z_scope.
Set Default Proof Using "Type*".

(** A modification policy is kept; an empty one may be replaced. *)
Definition kept (p p' : bytes) : Prop := p' = p ∨ p = [] ∧ p' = hackyFixNewModPolicy.
(** Two elements have the same content; of a group, this is its version, its
    policy and the names of its members. *)
Definition unchanged (c c' : comparable) : Prop :=
  version c' = version c ∧ kept (modPolicy c) (modPolicy c') ∧
  match cg_ConfigGroup c', cg_ConfigValue c', cg_ConfigPolicy c' with
  | Some g', _, _ => ∃ g, cg_ConfigGroup c = Some g ∧
      same_keys (cgr_Groups g') (cgr_Groups g) ∧ same_keys (cgr_Values g') (cgr_Values g) ∧ same_keys (cgr_Policies g') (cgr_Policies g)
  | _, Some v', _ => ∃ v, cg_ConfigValue c = Some v ∧ cv_Value v' = cv_Value v
  | _, _, Some p' => ∃ p, cg_ConfigPolicy c = Some p ∧ cp_Policy p' = cp_Policy p
  | _, _, _ => False
  end.

Lemma kept_fixed m p : kept p (fixed_mod_policy m p).
Proof. unfold kept, fixed_mod_policy, fix_mod_policy. destruct (fixes m); [|by left]. destruct (decide (p = [])); [by right|by left]. Qed.
Lemma derived_unchanged m c c' : derived m c c' → unchanged c c'.
Proof.
  unfold derived, unchanged, version, modPolicy. destruct (cg_ConfigGroup c') as [g'|].
  { intros (g & -> & Hv & -> & H1 & H2 & H3). split_and!; [done|apply kept_fixed|]. by exists g. }
  destruct (cg_ConfigValue c') as [v'|].
  { intros (v & -> & -> & ->). unfold fixed_value. destruct (fixes m) eqn:Hf; cbn; split_and!; eauto; [|by left].
    pose proof (kept_fixed m (cv_ModPolicy v)) as Hk. unfold fixed_mod_policy in Hk. by rewrite Hf in Hk. }
  destruct (cg_ConfigPolicy c') as [p'|]; [|done].
  intros (p & -> & -> & -> & ->). unfold fixed_policy. destruct (fixes m) eqn:Hf; cbn; split_and!; eauto; [|by left].
  pose proof (kept_fixed m (cp_ModPolicy p)) as Hk. unfold fixed_mod_policy in Hk. by rewrite Hf in Hk.
Qed.

Lemma map_of_well_kinded root g m : map_of root g m → well_kinded m.
Proof. intros [_ Hm] k c [Hc Hk]%Hm. by exists [root], g. Qed.
Lemma mapConfig_well_kinded og root m : mapConfig og root = Ok m → well_kinded m.
Proof.
  destruct og as [g|]; [by intros Hm%mapConfig_spec%map_of_well_kinded|]. intros [= <-] k c. by rewrite lookup_empty.
Qed.
(** The members of the groups in a map have valid names. *)
Definition well_named (m : gmap bytes comparable) : Prop := ∀ k c g, m !! k = Some c → cg_ConfigGroup c = Some g → ∀ k,
  is_Some (cgr_Groups g !! k) ∨ is_Some (cgr_Values g !! k) ∨ is_Some (cgr_Policies g !! k) → valid_name k.
Lemma map_of_well_named root g m : map_of root g m → well_named m.
Proof.
  intros [Hok Hm] k0 c h [Hc _]%Hm Hh k. destruct Hc as [l h' key q Hl Hq|l h' x v Hl Hv|l h' x v Hl Hv]; [|done..]. injection Hh as ->.
  intros [[x Hx]|[[x Hx]|[x Hx]]].
  - apply (Hok (group_element k ([root] ++ l) x)). eapply (el_group _ _ (l ++ [k])); [by eapply sub_group_snoc|by rewrite app_assoc].
  - apply (Hok (value_element k ([root] ++ l) x)). by eapply el_value.
  - apply (Hok (policy_element k ([root] ++ l) x)). by eapply el_policy.
Qed.
Lemma mapConfig_well_named og root m : mapConfig og root = Ok m → well_named m.
Proof.
  destruct og as [g|]; [by intros Hm%mapConfig_spec%map_of_well_named|]. intros [= <-] k c h. by rewrite lookup_empty.
Qed.

(** A group has a member of the name and the kind of an element. *)
Definition has_member (h : ConfigGroup) (c : comparable) : Prop :=
  match cg_ConfigGroup c, cg_ConfigValue c with
  | Some _, _ => is_Some (cgr_Groups h !! cg_key c)
  | _, Some _ => is_Some (cgr_Values h !! cg_key c)
  | _, _ => is_Some (cgr_Policies h !! cg_key c)
  end.
(** An element is the root or a member of a group; and a tree that has the group
    with such a member has an element at the same path. *)
Lemma element_member root g1 c : element [root] g1 c → (cg_key c = root ∧ ∀ g2, ∃ c2, element [root] g2 c2 ∧ fqPath c2 = fqPath c) ∨
  ∃ p h, sub_group g1 p = Some h ∧ cg_path c = root :: p ∧ has_member h c ∧
    ∀ g2 h2, sub_group g2 p = Some h2 → has_member h2 c → ∃ c2, element [root] g2 c2 ∧ fqPath c2 = fqPath c.
Proof.
  intros [l h key q Hl Hq|l h k v Hl Hv|l h k v Hl Hv].
  - destruct l as [|k l _] using rev_ind.
    + left. split; [by apply (app_inj_tail [] q) in Hq as [_ ->]|]. intros g2. exists (group_element key q g2). split; [by eapply (el_group _ _ [])|by rewrite !fqPath_group].
    + right. rewrite app_assoc in Hq. apply app_inj_tail in Hq as [<- <-]. rewrite sub_group_app in Hl. apply bind_Some in Hl as (h0 & Hl & Hk).
      exists l, h0. cbn in Hk. apply bind_Some in Hk as (h1 & Hk & [= ->]). split_and!; [done|done|by exists h|].
      intros g2 h2 Hh2 [x Hx]. exists (group_element k ([root] ++ l) x). split; [|by rewrite !fqPath_group].
      eapply (el_group _ _ (l ++ [k])); [by eapply sub_group_snoc|by rewrite app_assoc].
  - right. exists l, h. split_and!; [done|done|by exists v|]. intros g2 h2 Hh2 [x Hx]. exists (value_element k ([root] ++ l) x).
    split; [by eapply el_value|by rewrite !fqPath_value].
  - right. exists l, h. split_and!; [done|done|by exists v|]. intros g2 h2 Hh2 [x Hx]. exists (policy_element k ([root] ++ l) x).
    split; [by eapply el_policy|by rewrite !fqPath_policy].
Qed.

Lemma path_last (ns : bytes) p : ∃ q key, ns :: p = q ++ [key].
Proof. destruct p as [|k p _] using rev_ind; [by exists [], ns|by exists (ns :: p), k]. Qed.

Section safety.
Context `{!ProtoMessage Payload, !ProtoMessage ChannelHeader, !ProtoMessage SignatureHeader, !ProtoMessage ConfigUpdateEnvelope, !ProtoMessage ConfigUpdate}.
Context {M P : Type} `{!PolicyManager M P}.
Notation ValidatorImpl := (ValidatorImpl (M := M)).

Lemma NewValidatorImpl_spec ch cfg ns pm (vi : ValidatorImpl) : NewValidatorImpl ch (Some cfg) ns pm = Ok vi ↔
  ∃ g m, cfg_ChannelGroup cfg = Some g ∧ ValidateChannelID ch = Ok () ∧ map_of ns g m ∧
    vi = {| vi_channelID := ch; vi_sequence := cfg_Sequence cfg; vi_configMap := m; vi_configProto := cfg; vi_namespace := ns; vi_pm := pm |}.
Proof.
  unfold NewValidatorImpl. destruct (cfg_ChannelGroup cfg) as [g|]; [|naive_solver]. rewrite bind_Ok. setoid_rewrite bind_Ok. split.
  - intros ([] & Hid & m & Hm%mapConfig_spec & [= <-]). by exists g, m.
  - intros (g' & m & [= <-] & Hid & Hm%mapConfig_spec & ->). exists (). split; [done|]. by exists m.
Qed.
Lemma NewValidatorImpl_inv ch cfg ns pm (vi : ValidatorImpl) : NewValidatorImpl ch (Some cfg) ns pm = Ok vi →
  ∃ g, cfg_ChannelGroup cfg = Some g ∧ map_of ns g (vi_configMap vi) ∧ ns = vi_namespace vi ∧ vi_sequence vi = cfg_Sequence cfg.
Proof. intros (g & m & Hg & _ & Hof & ->)%NewValidatorImpl_spec. by exists g. Qed.
Lemma proposeConfigUpdate_spec (vi : ValidatorImpl) env ce : proposeConfigUpdate vi env = Ok ce ↔
  ∃ cue rs ws sd g', EnvelopeToConfigUpdate env = Ok cue ∧ accepted vi cue rs ws sd ∧
    built (computeDeltaSet rs ws ∪ vi_configMap vi) (slashed [vi_namespace vi]) g' ∧
    ce = {| cenv_Config := Some {| cfg_Sequence := u64 (vi_sequence vi + 1); cfg_ChannelGroup := Some g' |}; cenv_LastUpdate := env |}.
Proof.
  unfold proposeConfigUpdate. split.
  - intros (cue & Hc & (m & (rs & ws & sd & Ha & ->)%authorizeUpdate_spec & (g' & Hg%configMapToConfig_built & [= <-])%bind_Ok)%bind_Ok)%bind_Ok.
    by exists cue, rs, ws, sd, g'.
  - intros (cue & rs & ws & sd & g' & -> & Ha & Hb%configMapToConfig_built & ->). rewrite bind_Ok_eq.
    rewrite (proj2 (authorizeUpdate_spec vi cue (computeDeltaSet rs ws ∪ vi_configMap vi))) by eauto. by rewrite bind_Ok_eq, Hb.
Qed.

Section one_update.
Context (vi : ValidatorImpl) (g g' : ConfigGroup) (cue : ConfigUpdateEnvelope) (rs ws : gmap bytes comparable) (sd : list SignedData).
Notation ns := (vi_namespace vi).
Notation delta := (computeDeltaSet rs ws).
Notation m := (delta ∪ vi_configMap vi).
Context (Hof : map_of ns g (vi_configMap vi)) (Hacc : accepted vi cue rs ws sd) (Hb : built m (slashed [ns]) g').

Lemma update_well_kinded : well_kinded m.
Proof.
  intros k c [Hk|[_ Hk]]%lookup_union_Some_raw; [|by eapply (map_of_well_kinded ns g)].
  apply computeDeltaSet_spec in Hk as [Hk _]. destruct (acc_update _ _ _ _ _ Hacc) as (u & _ & _ & _ & Hws). by eapply mapConfig_well_kinded.
Qed.

(** Where an element of the new configuration comes from. *)
Lemma element_origin c' : element [ns] g' c' →
  (∃ c, element [ns] g c ∧ fqPath c = fqPath c' ∧ delta !! fqPath c' = None ∧ derived m c c') ∨
  (∃ w, delta !! fqPath c' = Some w ∧ derived m w c' ∧ change_ok vi sd (fqPath c') w).
Proof.
  intros Hc'. destruct (built_element m _ _ _ update_well_kinded Hb Hc') as (c & [Hk|[Hn Hk]]%lookup_union_Some_raw & Hd).
  - right. exists c. split_and!; [done|done|]. by apply (acc_change _ _ _ _ _ Hacc).
  - left. apply Hof in Hk as [Hc Hk]. by exists c.
Qed.
Lemma element_change c' : element [ns] g' c' →
  (∃ c, element [ns] g c ∧ fqPath c = fqPath c' ∧ (unchanged c c' ∨ version c' = u64 (version c + 1) ∧ authorised vi sd c)) ∨
  (version c' = 0 ∧ ∀ c, element [ns] g c → fqPath c ≠ fqPath c').
Proof.
  intros [(c & Hc & Hk & _ & Hd)|(w & _ & Hd & _ & Hch)]%element_origin.
  - left. exists c. split_and!; [done|done|]. left. by eapply derived_unchanged.
  - apply derived_unchanged in Hd as [Hv _]. destruct (vi_configMap vi !! fqPath c') as [c|] eqn:Hk.
    + left. apply Hof in Hk as [Hc Hk]. exists c. split_and!; [done|done|]. right. by rewrite Hv.
    + right. split; [congruence|]. intros c Hc Hk'. assert (vi_configMap vi !! fqPath c' = Some c) by by apply Hof. congruence.
Qed.

(** The group at a path below the root is one that both configurations have and
    that the update changes. *)
Definition group_changed (p : list bytes) : Prop :=
  ∃ h h' w, sub_group g p = Some h ∧ sub_group g' p = Some h' ∧ delta !! (groupPrefix ++ slashed (ns :: p)) = Some w.
(** Its policy is satisfied. *)
Definition group_authorised (p : list bytes) : Prop :=
  ∃ h key q, sub_group g p = Some h ∧ ns :: p = q ++ [key] ∧ authorised vi sd (group_element key q h).
Lemma group_changed_authorised p : group_changed p → group_authorised p.
Proof.
  intros (h & h' & w & Hh & _ & Hw). destruct (path_last ns p) as (q & key & Hq). exists h, key, q. split_and!; [done|done|].
  pose proof (el_group [ns] g p h key q Hh Hq) as Hc. apply (acc_change _ _ _ _ _ Hacc) in Hw as [_ Hw].
  rewrite Hq, <-(fqPath_group key q h), (proj2 (proj2 Hof _ _) (conj Hc eq_refl)) in Hw. by destruct Hw.
Qed.
Lemma group_step p h h' : sub_group g p = Some h → sub_group g' p = Some h' →
  (same_keys (cgr_Groups h') (cgr_Groups h) ∧ same_keys (cgr_Values h') (cgr_Values h) ∧ same_keys (cgr_Policies h') (cgr_Policies h)) ∨ group_changed p.
Proof.
  intros Hh Hh'. destruct (path_last ns p) as (q & key & Hq).
  pose proof (el_group [ns] g p h key q Hh Hq) as Hc. pose proof (el_group [ns] g' p h' key q Hh' Hq) as Hc'.
  assert (fqPath (group_element key q h') = fqPath (group_element key q h)) as Hfq by by rewrite !fqPath_group.
  destruct (element_origin _ Hc') as [(c & Hec & Hk & _ & Hd)|(w & Hw & _)].
  - assert (c = group_element key q h) as ->.
    { eapply element_fqPath_inj; [|apply Hof|by eapply names_ok_root, Hof|done|done|congruence]. done. }
    left. destruct Hd as (x & [= ->] & _ & _ & ?). done.
  - right. exists h, h', w. split_and!; [done|done|]. by rewrite Hq, <-(fqPath_group key q h').
Qed.
Lemma walk r : ∀ p, is_Some (sub_group g p) → is_Some (sub_group g' p) →
  (is_Some (sub_group g (p ++ r)) ↔ is_Some (sub_group g' (p ++ r))) ∨ ∃ r1, r1 `prefix_of` r ∧ r1 ≠ r ∧ group_changed (p ++ r1).
Proof.
  induction r as [|k r IH]; intros p Hp Hp'; [left; by rewrite app_nil_r|]. destruct Hp as [h Hh], Hp' as [h' Hh'].
  destruct (group_step p h h' Hh Hh') as [(Hg & _)|Ha]; [|right; exists []; rewrite app_nil_r; split_and!; [apply prefix_nil|done|done]].
  specialize (Hg k). replace (p ++ k :: r) with ((p ++ [k]) ++ r) by by rewrite <-app_assoc.
  destruct (cgr_Groups h !! k) as [x|] eqn:Hx, (cgr_Groups h' !! k) as [x'|] eqn:Hx'; [|naive_solver..|].
  - destruct (IH (p ++ [k])) as [?|(r1 & Hr1 & Hne & Ha)]; [by eexists; eapply sub_group_snoc..|by left|].
    right. exists (k :: r1). rewrite <-app_assoc in Ha. split_and!; [by apply prefix_cons|congruence|done].
  - left. rewrite !sub_group_app, Hh, Hh'. cbn. rewrite Hx, Hx'. cbn. split; by intros [].
Qed.
Lemma sub_group_nil x : is_Some (sub_group x []).
Proof. by exists x. Qed.
(** An element that only one of the two configurations has. *)
Lemma members_changed p h h' c : sub_group g p = Some h → sub_group g' p = Some h' → (has_member h c ↔ has_member h' c) ∨ group_changed p.
Proof.
  intros Hh Hh'. destruct (group_step p h h' Hh Hh') as [(H1 & H2 & H3)|Ha]; [left|by right]. unfold has_member.
  destruct (cg_ConfigGroup c); [symmetry; apply H1|]. destruct (cg_ConfigValue c); symmetry; [apply H2|apply H3].
Qed.
Lemma element_removed c : element [ns] g c → (∀ c', element [ns] g' c' → fqPath c' ≠ fqPath c) → ∃ p, ns :: p `prefix_of` cg_path c ∧ group_changed p.
Proof.
  intros [[_ Hroot]|(p & h & Hh & Hp & Hm & Hc)]%element_member Hno; [destruct (Hroot g') as (c2 & He & Hk); by destruct (Hno c2)|].
  destruct (walk p [] (sub_group_nil g) (sub_group_nil g')) as [Hw|(r & [r' ->] & _ & Ha)]; cbn in *.
  - destruct (proj1 Hw) as [h' Hh']; [by eexists|]. exists p. split; [by rewrite Hp|].
    destruct (members_changed p h h' c Hh Hh') as [Hiff|]; [|done]. destruct (Hc g' h' Hh') as (c2 & He & Hk); [by apply Hiff|]. by destruct (Hno c2 He).
  - exists r. split; [rewrite Hp; by exists r'|done].
Qed.
Lemma element_added c' : element [ns] g' c' → (∀ c, element [ns] g c → fqPath c ≠ fqPath c') → ∃ p, ns :: p `prefix_of` cg_path c' ∧ group_changed p.
Proof.
  intros [[_ Hroot]|(p & h' & Hh' & Hp & Hm & Hc)]%element_member Hno; [destruct (Hroot g) as (c2 & He & Hk); by destruct (Hno c2)|].
  destruct (walk p [] (sub_group_nil g) (sub_group_nil g')) as [Hw|(r & [r' ->] & _ & Ha)]; cbn in *.
  - destruct (proj2 Hw) as [h Hh]; [by eexists|]. exists p. split; [by rewrite Hp|].
    destruct (members_changed p h h' c' Hh Hh') as [Hiff|]; [|done]. destruct (Hc g h Hh) as (c2 & He & Hk); [by apply Hiff|]. by destruct (Hno c2 He).
  - exists r. split; [rewrite Hp; by exists r'|done].
Qed.
(** The names of the new configuration are valid. *)
Lemma update_well_named : well_named m.
Proof.
  intros k c h [Hk|[_ Hk]]%lookup_union_Some_raw; [|by eapply (map_of_well_named ns g)].
  apply computeDeltaSet_spec in Hk as [Hk _]. destruct (acc_update _ _ _ _ _ Hacc) as (u & _ & _ & _ & Hws). by eapply mapConfig_well_named.
Qed.
Lemma update_names_ok : names_ok [ns] g'.
Proof.
  intros c' Hc'. pose proof (proj1 (Forall_singleton _ _) (names_ok_root _ _ (proj1 Hof))) as Hns.
  destruct (element_member _ _ _ Hc') as [[-> _]|(p & h' & Hh' & Hp & Hm & _)]; [exact Hns|].
  destruct (path_last ns p) as (q & key & Hq). pose proof (el_group [ns] g' p h' key q Hh' Hq) as He.
  destruct (built_element m _ _ _ update_well_kinded Hb He) as (c & Hk & x & Hx & _ & _ & H1 & H2 & H3).
  apply (update_well_named _ _ _ Hk Hx). unfold has_member in Hm. destruct (cg_ConfigGroup c'); [left; by apply H1|].
  destruct (cg_ConfigValue c'); right; [left; by apply H2|right; by apply H3].
Qed.
End one_update.

Lemma built_functional m path g1 g2 : built m path g1 → built m path g2 → g1 = g2.
Proof.
  intros H1 H2. pose proof (built_recurse m _ _ H1 (S (longest_key m))) as E1. pose proof (built_recurse m _ _ H2 (S (longest_key m))) as E2.
  rewrite E1 in E2 by lia. specialize (E2 ltac:(lia)). congruence.
Qed.

(** C4: An accepted configuration update changes only what it is authorised to
    change. Every element of the new configuration is the same as before (an
    empty modification policy may have been replaced), or has the next version
    and the signatures satisfy the modification policy that the element had, or
    it is new, has version 0, and the policy of a group above it that existed is
    satisfied. An element that has disappeared was below a group whose policy is
    satisfied. The sequence number increases by one. *)
Theorem config_update_authorised ch cfg ns pm (vi : ValidatorImpl) env ce :
  NewValidatorImpl ch (Some cfg) ns pm = Ok vi → proposeConfigUpdate vi env = Ok ce →
  ∃ g g' cue sd, cfg_ChannelGroup cfg = Some g ∧
    cenv_Config ce = Some {| cfg_Sequence := u64 (cfg_Sequence cfg + 1); cfg_ChannelGroup := Some g' |} ∧
    EnvelopeToConfigUpdate env = Ok cue ∧ ConfigUpdateEnvelopeAsSignedData (Some cue) = Ok sd ∧
    let group_above c := ∃ a h, element [ns] g a ∧ cg_ConfigGroup a = Some h ∧ place a `prefix_of` cg_path c ∧ authorised vi sd a in
    (∀ c', element [ns] g' c' →
       (∃ c, element [ns] g c ∧ fqPath c = fqPath c' ∧ (unchanged c c' ∨ version c' = u64 (version c + 1) ∧ authorised vi sd c)) ∨
       (version c' = 0 ∧ (∀ c, element [ns] g c → fqPath c ≠ fqPath c') ∧ group_above c')) ∧
    (∀ c, element [ns] g c → (∀ c', element [ns] g' c' → fqPath c' ≠ fqPath c) → group_above c).
Proof.
  intros (g & Hg & Hof & -> & Hseq)%NewValidatorImpl_inv (cue & rs & ws & sd & g' & Hcue & Hacc & Hb & ->)%proposeConfigUpdate_spec.
  exists g, g', cue, sd. split_and!; [done|cbn; by rewrite Hseq|done|by eapply acc_signed|]. intros group_above.
  assert (Habove : ∀ c p, vi_namespace vi :: p `prefix_of` cg_path c → group_changed vi g g' rs ws p → group_above c).
  { intros c p Hp Hch. eapply group_changed_authorised in Hch as (h & key & q & Hh & Hq & Ha); [|done..].
    exists (group_element key q h), h. split_and!; [by eapply (el_group [vi_namespace vi])|done| |done]. unfold place. cbn [cg_path cg_key group_element].
    rewrite <-Hq. exact Hp. }
  split.
  - intros c' Hc'. destruct (element_change _ _ _ _ _ _ _ Hof Hacc Hb c' Hc') as [?|[Hv Hno]]; [by left|right]. split_and!; [done|done|].
    destruct (element_added _ _ _ _ _ _ _ Hof Hacc Hb c' Hc' Hno) as (p & Hp & Hch). by eapply Habove.
  - intros c Hc Hno. destruct (element_removed _ _ _ _ _ _ _ Hof Hacc Hb c Hc Hno) as (p & Hp & Hch). by eapply Habove.
Qed.

(** The configurations of a channel: each is the last one after an accepted
    update, under the policies made of the last one. *)
Inductive config_run (ch ns : bytes) (policies : Config → M) (c0 : Config) : nat → Config → Prop :=
| run_start : config_run ch ns policies c0 0 c0
| run_update n c vi env ce c' : config_run ch ns policies c0 n c → NewValidatorImpl ch (Some c) ns (policies c) = Ok vi →
    proposeConfigUpdate vi env = Ok ce → cenv_Config ce = Some c' → config_run ch ns policies c0 (S n) c'.

(** C17: Accepted updates keep a configuration well formed: starting from one
    that the validator takes, every configuration reached by accepted updates has
    a channel group with valid names, is taken by the validator again, can be
    turned into its map and back, and its sequence number counts the updates. *)
Theorem config_stays_valid ch ns policies c0 n c pm0 (vi0 : ValidatorImpl) :
  NewValidatorImpl ch (Some c0) ns pm0 = Ok vi0 → config_run ch ns policies c0 n c → is_u64 (cfg_Sequence c0) →
  (∃ g, cfg_ChannelGroup c = Some g ∧ names_ok [ns] g) ∧
  (∀ pm : M, ∃ vi : ValidatorImpl, NewValidatorImpl ch (Some c) ns pm = Ok vi ∧ vi_configProto vi = c ∧
     ∃ g', configMapToConfig (vi_configMap vi) ns = Ok g' ∧ Some g' = fixed_tree (vi_configMap vi) <$> cfg_ChannelGroup c) ∧
  cfg_Sequence c = u64 (cfg_Sequence c0 + Z.of_nat n).
Proof.
  intros (g0 & m0 & Hg0 & Hid & Hof0 & ->)%NewValidatorImpl_spec Hrun Hseq.
  assert ((∃ g, cfg_ChannelGroup c = Some g ∧ names_ok [ns] g) ∧ cfg_Sequence c = u64 (cfg_Sequence c0 + Z.of_nat n)) as [(g & Hg & Hok) Hs].
  { induction Hrun as [|n c vi env ce c' _ [_ IH] (g & Hg & Hof & -> & Hsq)%NewValidatorImpl_inv
      (cue & rs & ws & sd & g' & _ & Hacc & Hb & ->)%proposeConfigUpdate_spec Hc].
    - split; [exists g0; split; [done|apply Hof0]|]. rewrite Z.add_0_r, u64_small; done.
    - injection Hc as <-. cbn [cfg_ChannelGroup cfg_Sequence]. split; [exists g'; split; [done|exact (update_names_ok _ _ _ _ _ _ _ Hof Hacc Hb)]|].
      rewrite Hsq, IH. unfold u64. rewrite Zplus_mod_idemp_l. f_equal. lia. }
  split_and!; [by eauto| |done]. intros pm. destruct (recurseConfig_total g [] ns ∅ Hok) as [m Hm]. apply (mapConfig_spec ns g m) in Hm.
  eexists. split; [by apply NewValidatorImpl_spec; exists g, m|]. cbn [vi_configProto vi_configMap]. split; [done|].
  exists (fixed_tree m g). split; [by apply map_of_tree|]. by rewrite Hg.
Qed.

(** Of an update that is accepted twice no element is in the new configuration. *)
Lemma replayed_dropped (vi vi' : ValidatorImpl) g g' cue rs ws sd sd' : map_of (vi_namespace vi) g (vi_configMap vi) → accepted vi cue rs ws sd →
  built (computeDeltaSet rs ws ∪ vi_configMap vi) (slashed [vi_namespace vi]) g' →
  map_of (vi_namespace vi) g' (vi_configMap vi') → accepted vi' cue rs ws sd' →
  ∀ c', element [vi_namespace vi] g' c' → computeDeltaSet rs ws !! fqPath c' = None.
Proof.
  intros Hof Hacc Hb Hof' Hacc' c' Hc'. destruct (element_origin _ _ _ _ _ _ _ Hof Hacc Hb c' Hc') as [(c & _ & _ & ? & _)|(w & Hw & Hd & _)]; [done|].
  pose proof (acc_change _ _ _ _ _ Hacc' _ _ Hw) as [_ Hch]. rewrite (proj2 (proj2 Hof' _ _) (conj Hc' eq_refl)) in Hch. destruct Hch as [Hv _].
  apply derived_unchanged in Hd as [Hv' _]. rewrite Hv' in Hv. exfalso. unfold u64, two64 in Hv.
  pose proof (Z.mod_pos_bound (version w + 1) 18446744073709551616). pose proof (Z.div_mod (version w + 1) 18446744073709551616). lia.
Qed.
Lemma replayed_nothing (vi vi' : ValidatorImpl) g g' cue rs ws sd sd' : map_of (vi_namespace vi) g (vi_configMap vi) → accepted vi cue rs ws sd →
  built (computeDeltaSet rs ws ∪ vi_configMap vi) (slashed [vi_namespace vi]) g' →
  map_of (vi_namespace vi) g' (vi_configMap vi') → accepted vi' cue rs ws sd' →
  g' = fixed_tree (computeDeltaSet rs ws ∪ vi_configMap vi) g.
Proof.
  intros Hof Hacc Hb Hof' Hacc'. pose proof (replayed_dropped vi vi' g g' cue rs ws sd sd' Hof Hacc Hb Hof' Hacc') as Hno.
  eapply built_functional; [done|]. apply built_tree; [|done]. intros c Hc. rewrite lookup_union_r; [by apply Hof|].
  destruct (vi_configMap vi' !! fqPath c) as [c'|] eqn:Hk; [apply Hof' in Hk as [Hc' Hk]; rewrite <-Hk; by apply Hno|].
  destruct (element_removed _ _ _ _ _ _ _ Hof Hacc Hb c Hc) as (p & _ & h & h' & w & _ & Hh' & Hw).
  - intros c' Hc' Heq. assert (vi_configMap vi' !! fqPath c = Some c') by (by apply Hof'). congruence.
  - exfalso. destruct (path_last (vi_namespace vi) p) as (q & key & Hq). pose proof (el_group [vi_namespace vi] g' p h' key q Hh' Hq) as He.
    apply Hno in He. rewrite fqPath_group, <-Hq in He. congruence.
Qed.

(** C18: An accepted update that is accepted once more by the configuration it
    has produced has not changed anything, except for replacing empty
    modification policies: a change cannot be replayed. *)
Theorem config_update_no_replay ch cfg cfg' ns pm pm' (vi vi' : ValidatorImpl) env ce ce' :
  NewValidatorImpl ch (Some cfg) ns pm = Ok vi → proposeConfigUpdate vi env = Ok ce → cenv_Config ce = Some cfg' →
  NewValidatorImpl ch (Some cfg') ns pm' = Ok vi' → proposeConfigUpdate vi' env = Ok ce' →
  cfg_ChannelGroup cfg' = cfg_ChannelGroup cfg ∨ cfg_ChannelGroup cfg' = fix_tree <$> cfg_ChannelGroup cfg.
Proof.
  intros (g & Hg & Hof & -> & _)%NewValidatorImpl_inv (cue & rs & ws & sd & g' & Hcue & Hacc & Hb & ->)%proposeConfigUpdate_spec [= <-].
  intros (g2 & [= <-] & Hof' & Hns & _)%NewValidatorImpl_inv (cue' & rs' & ws' & sd' & g'' & Hcue' & Hacc' & _ & _)%proposeConfigUpdate_spec.
  rewrite Hcue in Hcue'. injection Hcue' as <-. assert (rs' = rs ∧ ws' = ws) as [-> ->].
  { destruct (acc_update _ _ _ _ _ Hacc) as (u & Hu & _ & Hrs & Hws), (acc_update _ _ _ _ _ Hacc') as (u' & Hu' & _ & Hrs' & Hws').
    rewrite Hu in Hu'. injection Hu' as <-. rewrite <-Hns in *. split; congruence. }
  pose proof (replayed_nothing vi vi' g g' cue rs ws sd sd' Hof Hacc Hb Hof' Hacc') as ->. cbn [cfg_ChannelGroup]. rewrite Hg. unfold fixed_tree.
  destruct (fixes _); [by right|by left].
Qed.

(** C38: Peers accept what orderers propose, and nothing else: a configuration
    envelope is valid exactly if proposing its last update gives the
    configuration that it carries. *)
Theorem config_validate_agrees (vi : ValidatorImpl) ce :
  ValidatorImpl_Validate vi (Some ce) = Ok () ↔ ∃ ce', proposeConfigUpdate vi (cenv_LastUpdate ce) = Ok ce' ∧ cenv_Config ce' = cenv_Config ce ∧ is_Some (cenv_Config ce).
Proof.
  unfold ValidatorImpl_Validate, proposeConfigUpdate. split.
  - destruct (cenv_Config ce) as [[seq og]|]; [|done]. cbn [cfg_Sequence cfg_ChannelGroup]. destruct (decide _) as [| ->%dec_stable]; [done|].
    intros (cue & -> & (m & Ha & (g' & Hg & Hv)%bind_Ok)%bind_Ok)%bind_Ok. rewrite bind_Ok_eq, Ha, bind_Ok_eq, Hg. eexists. split; [done|].
    destruct og as [g|]; [|done]. destruct (proto_Equal g' g) eqn:He; [|done]. by apply proto_Equal_eq in He as ->.
  - intros (ce' & (cue & -> & (m & Ha & (g' & Hg & [= <-])%bind_Ok)%bind_Ok)%bind_Ok & Hc & _). rewrite <-Hc. cbn [cenv_Config cfg_Sequence cfg_ChannelGroup].
    rewrite decide_False by (intros H; by apply H). rewrite bind_Ok_eq, Ha, bind_Ok_eq, Hg, bind_Ok_eq. by rewrite (proj2 (proto_Equal_eq g' g')).
Qed.
(** A configuration envelope without an update makes the validation panic. *)
Lemma validate_nil_update_panics (vi : ValidatorImpl) g :
  ValidatorImpl_Validate vi (Some {| cenv_Config := Some {| cfg_Sequence := u64 (vi_sequence vi + 1); cfg_ChannelGroup := g |}; cenv_LastUpdate := None |}) = Panic.
Proof. cbn [ValidatorImpl_Validate cenv_Config cfg_Sequence]. rewrite decide_False by (intros H; by apply H). done. Qed.
End safety.
