(* ===== verification/PolicyManagers.v ===== *)
(** * Policy managers

  Models the manager of the policies of a configuration tree
  (common/policies/policy.go: [ManagerImpl], [NewManagerImpl], [Manager],
  [GetPolicy]) and the implicit meta policies it makes (implicitmeta.go). A
  policy is known by how it evaluates a signature set; the providers of the
  other policy types are a parameter. The manager implements the interface
  that the validation of configuration updates uses. *)

From S2P Require Import Prelude Separated Proto BlockVerify Policies ConfigTree ConfigUpdate ConfigSafety.
From stdpp Require Import options.
Local Open Scope Z_scope.
Set Default Proof Using "Type*".

Notation PolicyFn := (list SignedData → res unit).
Definition rejectPolicy : PolicyFn := λ _, Err "no such policy".
Definition Policy_IMPLICIT_META : Z := 3.
Record ImplicitMetaPolicyMsg := { imp_SubPolicy : bytes; imp_Rule : ImplicitMetaRule }.

Inductive ManagerImpl := mkManagerImpl {
  mi_path : bytes;
  mi_Policies : gmap bytes PolicyFn;
  mi_managers : gmap bytes ManagerImpl
}.

Fixpoint ManagerImpl_Manager (pm : ManagerImpl) (path : list bytes) : option ManagerImpl :=
  match path with
  | [] => Some pm
  | k :: path => m ← mi_managers pm !! k; ManagerImpl_Manager m path
  end.
(** The slice after the path panics when nothing follows the path. *)
Definition GetPolicy (pm : ManagerImpl) (id : bytes) : res (PolicyFn * bool) :=
  if decide (id = []) then Ok (rejectPolicy, false)
  else
    relpath ← (if decide (pathSeparator `prefix_of` id) then
                 if decide (¬ (pathSeparator ++ mi_path pm) `prefix_of` id) then Ok None
                 else rel ← slice_from id (1 + length (mi_path pm) + 1); Ok (Some rel)
               else Ok (Some id));
    match relpath with
    | None => Ok (rejectPolicy, false)
    | Some relpath =>
        match mi_Policies pm !! relpath with
        | None => Ok (rejectPolicy, false)
        | Some policy => Ok (policy, true)
        end
    end.

Section manager.
Context `{!ProtoMessage ImplicitMetaPolicyMsg}.
Context (providers : gmap Z (bytes → res PolicyFn)).

(** [NewImplicitMetaPolicy]. *)
Definition newImplicitMeta (data : bytes) (managers : gmap bytes ManagerImpl) : res PolicyFn :=
  definition ← Unmarshal (A := ImplicitMetaPolicyMsg) data;
  subPolicies ← range_map (λ subPolicies _ manager, '(p, _) ← GetPolicy manager (imp_SubPolicy definition); Ok (subPolicies ++ [p])) [] managers;
  Ok (ImplicitMetaPolicy_Evaluate (NewImplicitMetaPolicy (imp_Rule definition) subPolicies)).
(** The policy of one entry of a group. *)
Definition newPolicy (managers : gmap bytes ManagerImpl) (configPolicy : ConfigPolicy) : res PolicyFn :=
  match cp_Policy configPolicy with
  | None => Err "policy was nil"
  | Some policy =>
      if decide (pol_Type policy = Policy_IMPLICIT_META) then newImplicitMeta (pol_Value policy) managers
      else
        match providers !! pol_Type policy with
        | None => Err "policy has unknown policy type"
        | Some newPolicy => newPolicy (pol_Value policy)
        end
  end.
Fixpoint NewManagerImpl (path : bytes) (root : ConfigGroup) {struct root} : res ManagerImpl :=
  if decide (is_Some (providers !! Policy_IMPLICIT_META)) then Panic
  else
    managers ← range_map (λ managers groupName group,
      m ← NewManagerImpl (path ++ pathSeparator ++ groupName) group; Ok (<[groupName := m]> managers)) ∅ (cgr_Groups root);
    policies ← range_map (λ policies policyName configPolicy,
      cPolicy ← newPolicy managers configPolicy; Ok (<[policyName := cPolicy]> policies)) ∅ (cgr_Policies root);
    let policies := map_fold (λ groupName manager policies,
      map_fold (λ policyName policy policies, <[groupName ++ pathSeparator ++ policyName := policy]> policies) policies (mi_Policies manager)) policies managers in
    Ok (mkManagerImpl path policies managers).
End manager.

#[export] Instance ManagerImpl_PolicyManager : PolicyManager ManagerImpl PolicyFn := {|
  pm_Manager := ManagerImpl_Manager;
  pm_GetPolicy := GetPolicy;
  pm_EvaluateSignedData := λ policy sd, policy sd
|}.

(** ** Where a policy is found *)

Notation sub_name g k := (g ++ pathSeparator ++ k).
Lemma sub_name_inj (g g' k k' : bytes) : slash ∉ g → slash ∉ g' → sub_name g k = sub_name g' k' → g = g' ∧ k = k'.
Proof. intros Hg Hg' [-> [= ->]]%slash_split; [done|done|done|by right|by right]. Qed.
Lemma sub_name_slash (g k : bytes) : slash ∈ sub_name g k.
Proof. apply elem_of_app. right. left. Qed.

Lemma group_policies_lookup (g : bytes) (ps r : gmap bytes PolicyFn) : slash ∉ g →
  let r' := map_fold (λ k p r, <[sub_name g k := p]> r) r ps in
  (∀ k, r' !! sub_name g k = match ps !! k with Some p => Some p | None => r !! sub_name g k end) ∧
  ∀ k, (∀ k', k ≠ sub_name g k') → r' !! k = r !! k.
Proof.
  intros Hg. cbn. revert ps.
  refine (map_fold_weak_ind (λ r' ps, (∀ k, r' !! sub_name g k = match ps !! k with Some p => Some p | None => r !! sub_name g k end) ∧
    ∀ k, (∀ k', k ≠ sub_name g k') → r' !! k = r !! k) _ _ _ _).
  - split; [|done]. intros k. by rewrite lookup_empty.
  - intros i p ps r' Hi [IH1 IH2]. split.
    + intros k. destruct (decide (i = k)) as [->|Hne]; [by rewrite !lookup_insert_eq|]. rewrite !lookup_insert_ne; [apply IH1|done|].
      by intros [_ ?]%sub_name_inj.
    + intros k Hk. rewrite lookup_insert_ne by (intros <-; by apply (Hk i)). by apply IH2.
Qed.
(** The policies of the groups are found under the names of the groups. *)
Lemma all_policies_lookup (ms : gmap bytes ManagerImpl) (own : gmap bytes PolicyFn) : (∀ g : bytes, is_Some (ms !! g) → slash ∉ g) →
  let r := map_fold (λ g manager r, map_fold (λ k p r, <[sub_name g k := p]> r) r (mi_Policies manager)) own ms in
  (∀ k : bytes, slash ∉ k → r !! k = own !! k) ∧
  ∀ g k : bytes, slash ∉ g → own !! sub_name g k = None → r !! sub_name g k = m ← ms !! g; mi_Policies m !! k.
Proof.
  intros Hms. cbn. cut (∀ ms', ms' ⊆ ms → let r := map_fold (λ g manager r, map_fold (λ k p r, <[sub_name g k := p]> r) r (mi_Policies manager)) own ms' in
    (∀ k : bytes, slash ∉ k → r !! k = own !! k) ∧ ∀ g k : bytes, slash ∉ g → own !! sub_name g k = None → r !! sub_name g k = m ← ms' !! g; mi_Policies m !! k); [intros Hc; by apply Hc|].
  intros ms'. cbn. revert ms'. refine (map_fold_weak_ind (λ r ms', ms' ⊆ ms → (∀ k : bytes, slash ∉ k → r !! k = own !! k) ∧
    ∀ g k : bytes, slash ∉ g → own !! sub_name g k = None → r !! sub_name g k = m ← ms' !! g; mi_Policies m !! k) _ _ _ _).
  - intros _. split; [done|]. intros g k _ Hown. by rewrite lookup_empty.
  - intros g m ms' r Hg IH Hsub. destruct IH as [IH1 IH2]; [by etrans; [apply insert_subseteq|]|].
    assert (slash ∉ g) as Hs by (apply Hms; exists m; eapply lookup_weaken; [apply lookup_insert_eq|done]).
    destruct (group_policies_lookup g (mi_Policies m) r Hs) as [H1 H2]. split.
    + intros k Hk. rewrite H2; [by apply IH1|]. intros k' ->. destruct Hk. apply sub_name_slash.
    + intros g' k Hg' Hown. destruct (decide (g' = g)) as [->|Hne].
      * rewrite H1, lookup_insert_eq. change (Some m ≫= λ m, mi_Policies m !! k) with (mi_Policies m !! k).
        destruct (mi_Policies m !! k); [done|]. rewrite IH2 by done. by rewrite Hg.
      * rewrite lookup_insert_ne by done. rewrite H2; [by apply IH2|]. by intros k' [? _]%sub_name_inj.
Qed.

Section resolve.
Context `{!ProtoMessage ImplicitMetaPolicyMsg} (providers : gmap Z (bytes → res PolicyFn)).
Notation NewManagerImpl := (NewManagerImpl providers).
Notation newPolicy := (newPolicy providers).

Lemma NewManagerImpl_inv path root m : NewManagerImpl path root = Ok m →
  mi_path m = path ∧ same_keys (mi_managers m) (cgr_Groups root) ∧
  (∀ k g m', cgr_Groups root !! k = Some g → mi_managers m !! k = Some m' → NewManagerImpl (sub_name path k) g = Ok m') ∧
  ∃ own, same_keys own (cgr_Policies root) ∧ (∀ k cp pol, cgr_Policies root !! k = Some cp → own !! k = Some pol → newPolicy (mi_managers m) cp = Ok pol) ∧
    mi_Policies m = map_fold (λ g manager r, map_fold (λ k p r, <[sub_name g k := p]> r) r (mi_Policies manager)) own (mi_managers m).
Proof.
  destruct root as [v gs vs ps mp]. cbn [PolicyManagers.NewManagerImpl cgr_Groups cgr_Policies]. destruct (decide _); [done|].
  intros (ms & H1 & (own & H2 & [= <-])%bind_Ok)%bind_Ok. cbn [mi_path mi_managers mi_Policies].
  apply (range_map_insert _ (λ k m, ∀ g, gs !! k = Some g → NewManagerImpl (sub_name path k) g = Ok m)) in H1 as [H1 H1'].
  2:{ intros k g r r' Hk (m & Hm & [= <-])%bind_Ok. exists m. split; [|done]. intros g' Hk'. rewrite Hk in Hk'. by injection Hk' as <-. }
  apply (range_map_insert _ (λ k p, ∀ cp, ps !! k = Some cp → newPolicy ms cp = Ok p)) in H2 as [H2 H2'].
  2:{ intros k g r r' Hk (m & Hm & [= <-])%bind_Ok. exists m. split; [|done]. intros g' Hk'. rewrite Hk in Hk'. by injection Hk' as <-. }
  split_and!; [done| | |exists own; split_and!; [| |done]].
  - intros k. split; [|intros Hk; destruct (H1 k Hk) as (m & -> & _); by eexists]. intros Hk. destruct (gs !! k) as [g|] eqn:Hg; [by eexists|].
    rewrite H1' in Hk by done. by destruct Hk.
  - intros k g m' Hk Hm'. destruct (H1 k) as (m & Hm & Hn); [by eexists|]. rewrite Hm in Hm'. injection Hm' as <-. by apply Hn.
  - intros k. split; [|intros Hk; destruct (H2 k Hk) as (m & -> & _); by eexists]. intros Hk. destruct (ps !! k) as [g|] eqn:Hg; [by eexists|].
    rewrite H2' in Hk by done. by destruct Hk.
  - intros k g m' Hk Hm'. destruct (H2 k) as (m & Hm & Hn); [by eexists|]. rewrite Hm in Hm'. injection Hm' as <-. by apply Hn.
Qed.

(** No name in a tree has a separator. *)
Definition no_slashes (root : ConfigGroup) : Prop := ∀ l h k, sub_group root l = Some h →
  is_Some (cgr_Groups h !! k) ∨ is_Some (cgr_Policies h !! k) → slash ∉ k.
Lemma no_slashes_sub root l h : no_slashes root → sub_group root l = Some h → no_slashes h.
Proof. intros Hn Hl l' h' k Hl' Hk. apply (Hn (l ++ l') h' k); [by rewrite sub_group_app, Hl|done]. Qed.
Lemma names_ok_no_slashes ns root : names_ok [ns] root → no_slashes root.
Proof.
  intros Hok l h k Hl Hk. apply valid_name_slash. destruct Hk as [[x Hx]|[x Hx]].
  - apply (Hok (group_element k ([ns] ++ l) x)). eapply (el_group _ _ (l ++ [k])); [by eapply sub_group_snoc|by rewrite app_assoc].
  - apply (Hok (policy_element k ([ns] ++ l) x)). by eapply el_policy.
Qed.

Lemma Manager_found l : ∀ path root m h, NewManagerImpl path root = Ok m → sub_group root l = Some h →
  ∃ m', ManagerImpl_Manager m l = Some m' ∧ NewManagerImpl (path ++ slashed l) h = Ok m'.
Proof.
  induction l as [|k l IH]; intros path root m h Hm Hl; cbn in Hl; simplify_eq; [exists m; by rewrite app_nil_r|].
  apply bind_Some in Hl as (g & Hk & Hl). destruct (NewManagerImpl_inv _ _ _ Hm) as (_ & Hsame & Hsub & _).
  destruct (proj2 (Hsame k)) as [m1 Hm1]; [by eexists|]. destruct (IH _ _ _ _ (Hsub _ _ _ Hk Hm1) Hl) as (m' & Hm' & Hn). exists m'. cbn [ManagerImpl_Manager].
  rewrite Hm1. split; [done|]. rewrite <-Hn. f_equal. unfold slashed. cbn [mbind list_bind]. by rewrite <-!app_assoc.
Qed.
Lemma own_policy path root m k : NewManagerImpl path root = Ok m → no_slashes root → slash ∉ k →
  match cgr_Policies root !! k with
  | None => mi_Policies m !! k = None
  | Some cp => ∃ pol, newPolicy (mi_managers m) cp = Ok pol ∧ mi_Policies m !! k = Some pol
  end.
Proof.
  intros (_ & Hms & _ & own & Hown & Hpol & ->)%NewManagerImpl_inv Hn Hk.
  rewrite (proj1 (all_policies_lookup (mi_managers m) own ltac:(intros g Hg; apply (Hn [] root g eq_refl); left; by apply Hms))) by done.
  specialize (Hown k). specialize (Hpol k). destruct (cgr_Policies root !! k) as [cp|].
  - destruct (proj2 Hown) as [pol Hp]; [by eexists|]. exists pol. split; [by apply Hpol|done].
  - destruct (own !! k); [|done]. destruct (proj1 Hown); [by eexists|done].
Qed.
Lemma deep_policy l k : ∀ path root m, NewManagerImpl path root = Ok m → no_slashes root → Forall (λ s, slash ∉ s) l →
  mi_Policies m !! Join (l ++ [k]) pathSeparator = m' ← ManagerImpl_Manager m l; mi_Policies m' !! k.
Proof.
  induction l as [|g l IH]; intros path root m Hm Hn Hl; [done|]. apply Forall_cons in Hl as [Hg Hl].
  replace (Join ((g :: l) ++ [k]) pathSeparator) with (sub_name g (Join (l ++ [k]) pathSeparator)) by by destruct l.
  destruct (NewManagerImpl_inv _ _ _ Hm) as (_ & Hms & Hsub & own & Hown & _ & ->).
  rewrite (proj2 (all_policies_lookup (mi_managers m) own ltac:(intros g' Hg'; apply (Hn [] root g' eq_refl); left; by apply Hms))); [|done|].
  - cbn [ManagerImpl_Manager]. destruct (mi_managers m !! g) as [m1|] eqn:Hm1; [|done]. cbn [mbind option_bind].
    destruct (proj1 (Hms g)) as [x Hx]; [by eexists|]. eapply IH; [by eapply Hsub| |done]. eapply (no_slashes_sub root [g]); [done|]. cbn. by rewrite Hx.
  - apply eq_None_not_Some. intros Hs. apply Hown in Hs. apply (Hn [] root _ eq_refl (or_intror Hs)), sub_name_slash.
Qed.
Lemma GetPolicy_relative m id : id ≠ [] → head id ≠ Some slash →
  GetPolicy m id = Ok (match mi_Policies m !! id with Some p => (p, true) | None => (rejectPolicy, false) end).
Proof.
  intros Hne Hh. unfold GetPolicy. rewrite decide_False by done. rewrite (decide_False (P := pathSeparator `prefix_of` id)).
  - rewrite bind_Ok_eq. by destruct (mi_Policies m !! id).
  - intros [r ->]. by destruct Hh.
Qed.
Lemma GetPolicy_absolute m rel : GetPolicy m (pathSeparator ++ mi_path m ++ pathSeparator ++ rel) =
  Ok (match mi_Policies m !! rel with Some p => (p, true) | None => (rejectPolicy, false) end).
Proof.
  unfold GetPolicy. rewrite decide_False by done. rewrite (decide_True (P := pathSeparator `prefix_of` _)) by by eexists.
  rewrite (decide_False (P := ¬ _)) by (intros H; apply H; exists (pathSeparator ++ rel); by rewrite <-app_assoc).
  rewrite (slice_from_eq _ (pathSeparator ++ mi_path m ++ pathSeparator) rel); [|by rewrite <-!app_assoc|rewrite !length_app; cbn; lia].
  rewrite !bind_Ok_eq. by destruct (mi_Policies m !! rel).
Qed.
Lemma GetPolicy_root_panics m : GetPolicy m (pathSeparator ++ mi_path m) = Panic.
Proof.
  unfold GetPolicy. rewrite decide_False by done. rewrite (decide_True (P := pathSeparator `prefix_of` _)) by by eexists.
  rewrite (decide_False (P := ¬ _)) by (intros H; by apply H).
  unfold slice_from, slice. rewrite decide_False; [done|]. rewrite length_app. cbn. lia.
Qed.
End resolve.

(** ** The policy that an element needs *)

Section mod_policy.
Context `{!ProtoMessage ImplicitMetaPolicyMsg} (providers : gmap Z (bytes → res PolicyFn)).

(** A policy that is the requested one. *)
Definition found (r : res (PolicyFn * bool)) : res (option PolicyFn) := '(policy, ok) ← r; Ok (if ok : bool then Some policy else None).
(** The policy [k] of the group [h], whose manager is [m]. *)
Definition group_policy (h : ConfigGroup) (m : ManagerImpl) (k : bytes) : res (option PolicyFn) :=
  match cgr_Policies h !! k with None => Ok None | Some cp => pol ← newPolicy providers (mi_managers m) cp; Ok (Some pol) end.
Lemma group_policy_found path root m k : NewManagerImpl providers path root = Ok m → no_slashes root → slash ∉ k →
  found (Ok (match mi_Policies m !! k with Some p => (p, true) | None => (rejectPolicy, false) end)) = group_policy root m k.
Proof.
  intros Hm Hn Hk. pose proof (own_policy _ _ _ _ _ Hm Hn Hk) as Hp. unfold group_policy. destruct (cgr_Policies root !! k) as [cp|].
  - destruct Hp as (pol & -> & ->). done.
  - by rewrite Hp.
Qed.

(** The group whose policies an element uses: a group uses its own. *)
Definition policy_group (c : comparable) : list bytes := match cg_ConfigGroup c with Some _ => place c | None => cg_path c end.
Lemma element_policy_group ns root c : element [ns] root c → ∃ l h, policy_group c = ns :: l ∧ sub_group root l = Some h.
Proof. intros [l h key q Hl Hq|l h k v Hl Hv|l h k v Hl Hv]; exists l, h; unfold policy_group; cbn; [|done..]. unfold place. cbn. by rewrite <-Hq. Qed.
Lemma Manager_app (pm : ManagerImpl) l k : ManagerImpl_Manager pm (l ++ k) = m ← ManagerImpl_Manager pm l; ManagerImpl_Manager m k.
Proof. revert pm. induction l as [|x l IH]; intros pm; cbn; [done|]. destruct (mi_managers pm !! x); cbn; auto. Qed.

Lemma policyForItem_relative (vi : ValidatorImpl (M := ManagerImpl)) ns root c l m' : element [ns] root c → policy_group c = ns :: l →
  ManagerImpl_Manager (vi_pm vi) l = Some m' → modPolicy c ≠ [] → head (modPolicy c) ≠ Some slash →
  policyForItem (P := PolicyFn) vi c = found (GetPolicy m' (modPolicy c)).
Proof.
  intros Hc Hg Hm Hne Hh. unfold policyForItem. destruct (decide (cg_path c = [])) as [Hp|Hp].
  - rewrite (bool_decide_false (_ ∧ _)) by (intros (_ & _ & ?); done). unfold policy_group, place in Hg. rewrite Hp in Hg.
    destruct (cg_ConfigGroup c); [|done]. injection Hg as _ <-. cbn in Hm. by injection Hm as <-.
  - rewrite (bool_decide_true (_ ∧ _)) by done. assert (drop 1 (cg_path c) ++ match cg_ConfigGroup c with Some _ => [cg_key c] | None => [] end = l) as Hl.
    { unfold policy_group, place in Hg. destruct (cg_path c) as [|x p]; [done|]. destruct (cg_ConfigGroup c); cbn in *; injection Hg as _ <-; [done|by rewrite app_nil_r]. }
    rewrite <-Hl, Manager_app in Hm. apply bind_Some in Hm as (m1 & Hm1 & Hm2). cbn [pm_Manager ManagerImpl_PolicyManager]. rewrite Hm1. cbn [mbind option_bind].
    destruct (cg_ConfigGroup c); [by rewrite Hm2|]. cbn in Hm2. injection Hm2 as ->. done.
Qed.
Lemma policyForItem_absolute (vi : ValidatorImpl (M := ManagerImpl)) c : head (modPolicy c) = Some slash →
  policyForItem (P := PolicyFn) vi c = found (GetPolicy (vi_pm vi) (modPolicy c)).
Proof. intros Hh. unfold policyForItem. by rewrite (bool_decide_false (_ ∧ _)) by (intros (_ & ? & _); done). Qed.
Lemma valid_name_head k : valid_name k → k ≠ [] ∧ head k ≠ Some slash.
Proof. intros Hv. split; [apply Hv|]. destruct k as [|b k]; [done|]. apply valid_name_slash in Hv. cbn. intros [= ->]. set_solver. Qed.

(** C39: The policy that a change of an element needs, when the policy manager
    was made of the configuration: a name stands for the policy of that name in
    the group of the element (a group is its own group), and a path from the
    root stands for the policy of that name in the group at the path. The policy
    is the one compiled from the configuration; there is none if the group has
    no policy of that name. *)
Theorem mod_policy_resolved (vi : ValidatorImpl (M := ManagerImpl)) ns root c :
  NewManagerImpl providers ns root = Ok (vi_pm vi) → names_ok [ns] root → element [ns] root c →
  (valid_name (modPolicy c) → ∃ l h m, policy_group c = ns :: l ∧ sub_group root l = Some h ∧
     NewManagerImpl providers (ns ++ slashed l) h = Ok m ∧ policyForItem (P := PolicyFn) vi c = group_policy h m (modPolicy c)) ∧
  (∀ l h k, modPolicy c = slashed (ns :: l ++ [k]) → sub_group root l = Some h → slash ∉ k → Forall (λ s, slash ∉ s) l → ∃ m,
     NewManagerImpl providers (ns ++ slashed l) h = Ok m ∧ policyForItem (P := PolicyFn) vi c = group_policy h m k).
Proof.
  intros Hpm Hok Hc. pose proof (names_ok_no_slashes _ _ Hok) as Hn. split.
  - intros Hv. destruct (element_policy_group _ _ _ Hc) as (l & h & Hg & Hl). destruct (Manager_found _ _ _ _ _ _ Hpm Hl) as (m & Hm & Hnew).
    exists l, h, m. split_and!; [done|done|done|]. destruct (valid_name_head _ Hv) as [Hne Hh].
    rewrite (policyForItem_relative vi ns root c l m) by done. rewrite GetPolicy_relative by done.
    apply (group_policy_found _ _ _ _ Hnew); [by eapply no_slashes_sub|by apply valid_name_slash].
  - intros l h k Hmod Hl Hk Hsl. destruct (Manager_found _ _ _ _ _ _ Hpm Hl) as (m & Hm & Hnew). exists m. split; [done|].
    rewrite policyForItem_absolute by by rewrite Hmod. rewrite Hmod.
    replace (slashed (ns :: l ++ [k])) with (pathSeparator ++ mi_path (vi_pm vi) ++ pathSeparator ++ Join (l ++ [k]) pathSeparator).
    2:{ rewrite Join_slashed by by destruct l. destruct (NewManagerImpl_inv _ _ _ _ Hpm) as [-> _]. done. }
    rewrite GetPolicy_absolute, (deep_policy _ _ _ _ _ _ Hpm) by done. rewrite Hm. cbn [mbind option_bind].
    apply (group_policy_found _ _ _ _ Hnew); [by eapply no_slashes_sub|done].
Qed.

(** C40: The path of the root group alone passes the check of a modification
    policy, but looking it up panics: once an element has this modification
    policy, every update that changes the element makes the validation panic or
    fail. *)
Theorem root_mod_policy_panics (vi : ValidatorImpl (M := ManagerImpl)) c :
  valid_name (mi_path (vi_pm vi)) → modPolicy c = pathSeparator ++ mi_path (vi_pm vi) →
  validateModPolicy (modPolicy c) = Ok () ∧ policyForItem (P := PolicyFn) vi c = Panic ∧
  ∀ k w delta sd, vi_configMap vi !! k = Some c → delta !! k = Some w → verifyDeltaSet (P := PolicyFn) vi delta sd ≠ Ok ().
Proof.
  intros Hv Hmod. assert (policyForItem (P := PolicyFn) vi c = Panic) as Hpanic.
  { rewrite policyForItem_absolute by by rewrite Hmod. by rewrite Hmod, GetPolicy_root_panics. }
  split_and!; [|done|].
  - rewrite Hmod. cbn [validateModPolicy app pathSeparator B]. change (pathSeparator ++ mi_path (vi_pm vi)) with (slash :: mi_path (vi_pm vi)).
    unfold validateModPolicy. rewrite decide_True, Split_1 by (done || by apply valid_name_slash). cbn [foldM]. by rewrite (proj2 (validateConfigID_spec _) Hv).
  - intros k w delta sd Hk Hw [_ Hall]%verifyDeltaSet_spec. destruct (Hall k w Hw) as [_ Hch]. rewrite Hk in Hch.
    destruct Hch as (_ & policy & Hp & _). congruence.
Qed.
End mod_policy.
