(* ===== verification/ConfigCompute.v ===== *)
(** * Computing a configuration update

  Models internal/configtxlator/update/update.go: the update that takes one
  configuration to another. The main theorem connects it with the validation of
  updates: what is computed is accepted, if the signatures satisfy the policies,
  and gives the wanted configuration.

  The three functions on maps of members have the same shape: [map_update] is
  that shape, with what is done for a member of both maps and for a new one. *)

From S2P Require Import Prelude Separated Encoding Proto Block BlockVerify ConfigTree ConfigUpdate ConfigSafety.
From stdpp Require Import options.
Local Open Scope Z_scope.
Set Default Proof Using "Type*".

(** A member of both maps is the same, up to its version, or changed; then it is
    in the write set, and possibly in the read set. *)
Inductive member_update (A : Type) := Same (x : A) | Changed (r : option A) (w : A).
Arguments Same {A}.
Arguments Changed {A}.
Record map_update (A : Type) := {
  mu_readSet : gmap bytes A;
  mu_writeSet : gmap bytes A;
  mu_sameSet : gmap bytes A;
  mu_updatedMembers : bool
}.
Arguments mu_readSet {A}.
Arguments mu_writeSet {A}.
Arguments mu_sameSet {A}.
Arguments mu_updatedMembers {A}.

Definition compute_member {A} (step : A → A → res (member_update A)) (updated : gmap bytes A) (mu : map_update A) (name : bytes) (o : A) : res (map_update A) :=
  match updated !! name with
  | None => Ok {| mu_readSet := mu_readSet mu; mu_writeSet := mu_writeSet mu; mu_sameSet := mu_sameSet mu; mu_updatedMembers := true |}
  | Some u =>
      r ← step o u;
      Ok match r with
         | Same x => {| mu_readSet := mu_readSet mu; mu_writeSet := mu_writeSet mu; mu_sameSet := <[name := x]> (mu_sameSet mu);
                        mu_updatedMembers := mu_updatedMembers mu |}
         | Changed rd w => {| mu_readSet := match rd with Some x => <[name := x]> (mu_readSet mu) | None => mu_readSet mu end;
                              mu_writeSet := <[name := w]> (mu_writeSet mu); mu_sameSet := mu_sameSet mu;
                              mu_updatedMembers := mu_updatedMembers mu |}
         end
  end.
Definition compute_new_member {A} (fresh : A → res A) (original : gmap bytes A) (mu : map_update A) (name : bytes) (u : A) : res (map_update A) :=
  match original !! name with
  | Some _ => Ok mu
  | None =>
      w ← fresh u;
      Ok {| mu_readSet := mu_readSet mu; mu_writeSet := <[name := w]> (mu_writeSet mu); mu_sameSet := mu_sameSet mu; mu_updatedMembers := true |}
  end.
Definition compute_map_update {A} (step : A → A → res (member_update A)) (fresh : A → res A) (original updated : gmap bytes A) : res (map_update A) :=
  mu ← range_map (compute_member step updated) {| mu_readSet := ∅; mu_writeSet := ∅; mu_sameSet := ∅; mu_updatedMembers := false |} original;
  range_map (compute_new_member fresh original) mu updated.

Definition policy_step (o u : ConfigPolicy) : res (member_update ConfigPolicy) :=
  Ok (if bool_decide (cp_ModPolicy o = cp_ModPolicy u) && bool_decide (cp_Policy o = cp_Policy u)
      then Same {| cp_Version := cp_Version o; cp_Policy := None; cp_ModPolicy := [] |}
      else Changed None {| cp_Version := u64 (cp_Version o + 1); cp_Policy := cp_Policy u; cp_ModPolicy := cp_ModPolicy u |}).
Definition policy_fresh (u : ConfigPolicy) : res ConfigPolicy := Ok {| cp_Version := 0; cp_Policy := cp_Policy u; cp_ModPolicy := cp_ModPolicy u |}.
Definition computePoliciesMapUpdate (original updated : gmap bytes ConfigPolicy) : res (map_update ConfigPolicy) :=
  compute_map_update policy_step policy_fresh original updated.

Definition value_step (o u : ConfigValue) : res (member_update ConfigValue) :=
  Ok (if bool_decide (cv_ModPolicy o = cv_ModPolicy u) && bool_decide (cv_Value o = cv_Value u)
      then Same {| cv_Version := cv_Version o; cv_Value := []; cv_ModPolicy := [] |}
      else Changed None {| cv_Version := u64 (cv_Version o + 1); cv_Value := cv_Value u; cv_ModPolicy := cv_ModPolicy u |}).
Definition value_fresh (u : ConfigValue) : res ConfigValue := Ok {| cv_Version := 0; cv_Value := cv_Value u; cv_ModPolicy := cv_ModPolicy u |}.
Definition computeValuesMapUpdate (original updated : gmap bytes ConfigValue) : res (map_update ConfigValue) :=
  compute_map_update value_step value_fresh original updated.

Notation group_update := (ConfigGroup → ConfigGroup → res (ConfigGroup * ConfigGroup * bool)).
Definition group_step (computeGroupUpdate : group_update) (o u : ConfigGroup) : res (member_update ConfigGroup) :=
  '(r, w, updated) ← computeGroupUpdate o u; Ok (if updated : bool then Changed (Some r) w else Same r).
Definition group_fresh (computeGroupUpdate : group_update) (u : ConfigGroup) : res ConfigGroup :=
  '(_, w, _) ← computeGroupUpdate NewConfigGroup u;
  Ok (mkConfigGroup 0 (cgr_Groups w) (cgr_Values w) (cgr_Policies w) (cgr_ModPolicy u)).
Definition computeGroupsMapUpdate (computeGroupUpdate : group_update) (original updated : gmap bytes ConfigGroup) : res (map_update ConfigGroup) :=
  compute_map_update (group_step computeGroupUpdate) (group_fresh computeGroupUpdate) original updated.

(** The same members are put into both sets. *)
Definition with_same {A} (same m : gmap bytes A) : gmap bytes A := map_fold (λ k v r, <[k := v]> r) m same.
(** The calls go down the updated tree. *)
Fixpoint computeGroupUpdate (fuel : nat) (original updated : ConfigGroup) : res (ConfigGroup * ConfigGroup * bool) :=
  match fuel with
  | O => Panic
  | S fuel =>
      pu ← computePoliciesMapUpdate (cgr_Policies original) (cgr_Policies updated);
      vu ← computeValuesMapUpdate (cgr_Values original) (cgr_Values updated);
      gu ← computeGroupsMapUpdate (computeGroupUpdate fuel) (cgr_Groups original) (cgr_Groups updated);
      if negb (mu_updatedMembers pu || mu_updatedMembers vu || mu_updatedMembers gu || bool_decide (cgr_ModPolicy original ≠ cgr_ModPolicy updated)) then
        if bool_decide (size (mu_readSet pu) = 0%nat ∧ size (mu_writeSet pu) = 0%nat ∧ size (mu_readSet vu) = 0%nat ∧ size (mu_writeSet vu) = 0%nat ∧
                        size (mu_readSet gu) = 0%nat ∧ size (mu_writeSet gu) = 0%nat) then
          Ok (mkConfigGroup (cgr_Version original) ∅ ∅ ∅ [], mkConfigGroup (cgr_Version original) ∅ ∅ ∅ [], false)
        else
          Ok (mkConfigGroup (cgr_Version original) (mu_readSet gu) (mu_readSet vu) (mu_readSet pu) [],
              mkConfigGroup (cgr_Version original) (mu_writeSet gu) (mu_writeSet vu) (mu_writeSet pu) [], true)
      else
        Ok (mkConfigGroup (cgr_Version original) (with_same (mu_sameSet gu) (mu_readSet gu)) (with_same (mu_sameSet vu) (mu_readSet vu))
              (with_same (mu_sameSet pu) (mu_readSet pu)) [],
            mkConfigGroup (u64 (cgr_Version original + 1)) (with_same (mu_sameSet gu) (mu_writeSet gu)) (with_same (mu_sameSet vu) (mu_writeSet vu))
              (with_same (mu_sameSet pu) (mu_writeSet pu)) (cgr_ModPolicy updated), true)
  end.
Definition Compute (original updated : Config) : res ConfigUpdate :=
  match cfg_ChannelGroup original, cfg_ChannelGroup updated with
  | None, _ => Err "no channel group included for original config"
  | _, None => Err "no channel group included for updated config"
  | Some o, Some u =>
      '(readSet, writeSet, groupUpdated) ← computeGroupUpdate (group_size u) o u;
      if negb groupUpdated then Err "no differences detected between original and updated config"
      else Ok {| cu_ChannelId := []; cu_ReadSet := Some readSet; cu_WriteSet := Some writeSet |}
  end.

(** ** What the sets hold *)

Definition at_name {A} (mu : map_update A) (k : bytes) : option A * option A * option A := (mu_readSet mu !! k, mu_writeSet mu !! k, mu_sameSet mu !! k).
Definition member_entry {A : Type} (r : member_update A) : option A * option A * option A :=
  match r with Same x => (None, None, Some x) | Changed rd w => (rd, Some w, None) end.
Definition nothing {A : Type} : option A * option A * option A := (None, None, None).

Lemma insert_keys {A C : Type} (m : gmap bytes A) (r : gmap bytes C) k x : (∀ k', is_Some (<[k := x]> m !! k') → is_Some (r !! k')) ↔
  is_Some (r !! k) ∧ ∀ k', is_Some (m !! k') → is_Some (r !! k').
Proof.
  split.
  - intros Hall. split; [apply Hall; by rewrite lookup_insert_eq|]. intros k' Hk'. apply Hall. destruct (decide (k = k')) as [->|]; [by rewrite lookup_insert_eq|by rewrite lookup_insert_ne].
  - intros [Hk Hall] k'. destruct (decide (k = k')) as [->|]; [done|]. rewrite lookup_insert_ne by done. apply Hall.
Qed.

Section map_update.
Context {A : Type} (step : A → A → res (member_update A)) (fresh : A → res A) (original updated : gmap bytes A).

Definition member_spec (mu : map_update A) (k : bytes) : Prop :=
  match original !! k, updated !! k with
  | Some o, Some u => ∃ r, step o u = Ok r ∧ at_name mu k = member_entry r
  | None, Some u => ∃ w, fresh u = Ok w ∧ at_name mu k = (None, Some w, None)
  | _, None => at_name mu k = nothing
  end.

Lemma compute_member_spec mu : range_map (compute_member step updated) {| mu_readSet := ∅; mu_writeSet := ∅; mu_sameSet := ∅; mu_updatedMembers := false |} original = Ok mu →
  (∀ k, match original !! k, updated !! k with Some o, Some u => ∃ r, step o u = Ok r ∧ at_name mu k = member_entry r | _, _ => at_name mu k = nothing end) ∧
  (mu_updatedMembers mu = false ↔ ∀ k, is_Some (original !! k) → is_Some (updated !! k)).
Proof.
  intros Hr. refine (range_map_ind (λ mu m, (∀ k, match m !! k, updated !! k with Some o, Some u => ∃ r, step o u = Ok r ∧ at_name mu k = member_entry r | _, _ => at_name mu k = nothing end) ∧
    (mu_updatedMembers mu = false ↔ ∀ k, is_Some (m !! k) → is_Some (updated !! k))) _ _ _ _ _ _ Hr).
  - split; [intros k; rewrite lookup_empty; unfold at_name; cbn; by rewrite !lookup_empty|]. cbn. split; [|done]. intros _ k [? Hk]. by rewrite lookup_empty in Hk.
  - intros m k o mu1 mu2 Hm Ho [IH1 IH2] Hc. unfold compute_member in Hc.
    assert (Hold : at_name mu1 k = nothing) by (specialize (IH1 k); by rewrite Hm in IH1).
    pose proof (insert_keys m updated k o) as Hkeys.
    destruct (updated !! k) as [u|] eqn:Hu.
    + apply bind_Ok in Hc as (r & Hs & [= <-]). split; [|rewrite Hkeys, <-IH2; destruct r; cbn; naive_solver].
      intros k'. destruct (decide (k' = k)) as [->|Hne].
      * rewrite lookup_insert_eq, Hu. exists r. split; [done|]. unfold at_name in *. injection Hold as H1 H2 H3. destruct r as [x|[x|] w]; cbn; by rewrite ?lookup_insert_eq, ?H1, ?H2, ?H3.
      * rewrite lookup_insert_ne by done. specialize (IH1 k').
        assert (at_name (match r with Same x => {| mu_readSet := mu_readSet mu1; mu_writeSet := mu_writeSet mu1; mu_sameSet := <[k := x]> (mu_sameSet mu1); mu_updatedMembers := mu_updatedMembers mu1 |}
          | Changed rd w => {| mu_readSet := match rd with Some x => <[k := x]> (mu_readSet mu1) | None => mu_readSet mu1 end; mu_writeSet := <[k := w]> (mu_writeSet mu1);
              mu_sameSet := mu_sameSet mu1; mu_updatedMembers := mu_updatedMembers mu1 |} end) k' = at_name mu1 k') as ->; [|done].
        unfold at_name. destruct r as [x|[x|] w]; cbn; by rewrite ?lookup_insert_ne.
    + injection Hc as <-. split; [|rewrite Hkeys; cbn; split; [done|by intros [[? ?] _]]].
      intros k'. destruct (decide (k' = k)) as [->|Hne]; [by rewrite lookup_insert_eq, Hu|]. rewrite lookup_insert_ne by done. apply IH1.
Qed.
Lemma compute_new_member_spec mu mu' : range_map (compute_new_member fresh original) mu updated = Ok mu' →
  (∀ k, match original !! k, updated !! k with None, Some u => at_name mu k = nothing → ∃ w, fresh u = Ok w ∧ at_name mu' k = (None, Some w, None) | _, _ => at_name mu' k = at_name mu k end) ∧
  (mu_updatedMembers mu' = false ↔ mu_updatedMembers mu = false ∧ ∀ k, is_Some (updated !! k) → is_Some (original !! k)).
Proof.
  intros Hr. refine (range_map_ind (λ mu' m, (∀ k, match original !! k, m !! k with None, Some u => at_name mu k = nothing → ∃ w, fresh u = Ok w ∧ at_name mu' k = (None, Some w, None) | _, _ => at_name mu' k = at_name mu k end) ∧
    (mu_updatedMembers mu' = false ↔ mu_updatedMembers mu = false ∧ ∀ k, is_Some (m !! k) → is_Some (original !! k))) _ _ _ _ _ _ Hr).
  - split; [intros k; rewrite lookup_empty; by destruct (original !! k)|]. split; [|by intros []]. intros H. split; [done|]. intros k [? Hk]. by rewrite lookup_empty in Hk.
  - intros m k u mu1 mu2 Hm Hu [IH1 IH2] Hc. unfold compute_new_member in Hc.
    pose proof (insert_keys m original k u) as Hkeys.
    pose proof (IH1 k) as IHk. rewrite Hm in IHk. destruct (original !! k) as [o|] eqn:Ho.
    + injection Hc as <-. split; [|rewrite Hkeys, IH2; naive_solver].
      intros k'. destruct (decide (k' = k)) as [->|Hne]; [by rewrite Ho|]. rewrite lookup_insert_ne by done. apply IH1.
    + apply bind_Ok in Hc as (w & Hf & [= <-]). split; [|rewrite Hkeys; cbn; split; [done|by intros (_ & [? ?] & _)]].
      intros k'. destruct (decide (k' = k)) as [->|Hne].
      * rewrite Ho, lookup_insert_eq. intros Hn. exists w. split; [done|]. rewrite Hn in IHk. unfold at_name in *. injection IHk as H1 H2 H3. cbn. by rewrite lookup_insert_eq, H1, H3.
      * rewrite lookup_insert_ne by done. specialize (IH1 k'). unfold at_name in *. cbn. by rewrite lookup_insert_ne.
Qed.
Lemma compute_map_update_spec mu : compute_map_update step fresh original updated = Ok mu →
  (∀ k, member_spec mu k) ∧ (mu_updatedMembers mu = false ↔ same_keys original updated).
Proof.
  intros (mu1 & [H1 H1']%compute_member_spec & [H2 H2']%compute_new_member_spec)%bind_Ok. split.
  - intros k. specialize (H1 k). specialize (H2 k). unfold member_spec.
    destruct (original !! k) as [o|], (updated !! k) as [u|]; [|congruence|by apply H2|congruence].
    destruct H1 as (r & Hr & H1). exists r. by rewrite H2.
  - rewrite H2', H1'. unfold same_keys. naive_solver.
Qed.
(** The computation succeeds if it does for every member. *)
Lemma compute_map_update_total : (∀ k o u, original !! k = Some o → updated !! k = Some u → ∃ r, step o u = Ok r) →
  (∀ k u, original !! k = None → updated !! k = Some u → ∃ w, fresh u = Ok w) → ∃ mu, compute_map_update step fresh original updated = Ok mu.
Proof.
  intros Hstep Hfresh. unfold compute_map_update.
  destruct (range_map_total (λ _, True) (compute_member step updated) {| mu_readSet := ∅; mu_writeSet := ∅; mu_sameSet := ∅; mu_updatedMembers := false |} original) as (mu & -> & _); [done| |].
  { intros k o mu Ho _. unfold compute_member. destruct (updated !! k) as [u|] eqn:Hu; [|by eauto]. destruct (Hstep k o u Ho Hu) as [r ->]. rewrite bind_Ok_eq. eauto. }
  rewrite bind_Ok_eq. destruct (range_map_total (λ _, True) (compute_new_member fresh original) mu updated) as (mu' & -> & _); [done| |by eauto].
  intros k u mu' Hu _. unfold compute_new_member. destruct (original !! k) as [o|] eqn:Ho; [by eauto|]. destruct (Hfresh k u Ho Hu) as [w ->]. rewrite bind_Ok_eq. eauto.
Qed.
End map_update.

(** *** The sets of a group *)

(** The entries of one name in the read and the write set; [bump] says that the
    group itself changes, and so its unchanged members are in the sets. *)
Definition member_sets {A : Type} (step : A → A → res (member_update A)) (fresh : A → res A) (bump : bool) (oo uu ro wo : option A) : Prop :=
  match oo, uu with
  | Some o, Some u => ∃ r, step o u = Ok r ∧
      match r with Same x => if bump then ro = Some x ∧ wo = Some x else ro = None ∧ wo = None | Changed rd w => ro = rd ∧ wo = Some w end
  | None, Some u => ∃ w, fresh u = Ok w ∧ ro = None ∧ wo = Some w
  | _, None => ro = None ∧ wo = None
  end.
Lemma member_sets_of {A : Type} (step : A → A → res (member_update A)) (fresh : A → res A) (o u : gmap bytes A) mu (bump : bool) k :
  member_spec step fresh o u mu k → member_sets step fresh bump (o !! k) (u !! k)
    ((if bump then with_same (mu_sameSet mu) (mu_readSet mu) else mu_readSet mu) !! k)
    ((if bump then with_same (mu_sameSet mu) (mu_writeSet mu) else mu_writeSet mu) !! k).
Proof.
  unfold with_same. rewrite !map_fold_insert_all. unfold member_spec, member_sets, at_name, nothing. intros Hk.
  assert (∀ m : gmap bytes A, (mu_sameSet mu ∪ m) !! k = match mu_sameSet mu !! k with Some x => Some x | None => m !! k end) as Hu.
  { intros m. destruct (mu_sameSet mu !! k) as [x|] eqn:Hx; [by apply lookup_union_Some_l|by apply lookup_union_r]. }
  destruct (o !! k) as [a|], (u !! k) as [b|].
  - destruct Hk as (r & Hr & Hk). exists r. split; [done|]. destruct r as [x|rd w]; cbn in Hk; injection Hk as H1 H2 H3; destruct bump; rewrite ?Hu, ?H3; done.
  - injection Hk as H1 H2 H3. destruct bump; by rewrite ?Hu, ?H3.
  - destruct Hk as (w & Hw & Hk). exists w. split; [done|]. injection Hk as H1 H2 H3. destruct bump; by rewrite ?Hu, ?H3.
  - injection Hk as H1 H2 H3. destruct bump; by rewrite ?Hu, ?H3.
Qed.

Record group_sets (cgu : group_update) (o u R W : ConfigGroup) (bump updated : bool) : Prop := {
  gs_R_version : cgr_Version R = cgr_Version o;
  gs_W_version : cgr_Version W = if bump then u64 (cgr_Version o + 1) else cgr_Version o;
  gs_W_policy : cgr_ModPolicy W = if bump then cgr_ModPolicy u else [];
  gs_groups : ∀ k, member_sets (group_step cgu) (group_fresh cgu) bump (cgr_Groups o !! k) (cgr_Groups u !! k) (cgr_Groups R !! k) (cgr_Groups W !! k);
  gs_values : ∀ k, member_sets value_step value_fresh bump (cgr_Values o !! k) (cgr_Values u !! k) (cgr_Values R !! k) (cgr_Values W !! k);
  gs_policies : ∀ k, member_sets policy_step policy_fresh bump (cgr_Policies o !! k) (cgr_Policies u !! k) (cgr_Policies R !! k) (cgr_Policies W !! k);
  gs_bump : bump = false → same_keys (cgr_Groups o) (cgr_Groups u) ∧ same_keys (cgr_Values o) (cgr_Values u) ∧ same_keys (cgr_Policies o) (cgr_Policies u) ∧
    cgr_ModPolicy o = cgr_ModPolicy u;
  gs_no_bump : same_keys (cgr_Groups o) (cgr_Groups u) → same_keys (cgr_Values o) (cgr_Values u) → same_keys (cgr_Policies o) (cgr_Policies u) →
    cgr_ModPolicy o = cgr_ModPolicy u → bump = false;
  gs_same : updated = false → bump = false ∧ (cgr_Groups R = ∅ ∧ cgr_Values R = ∅ ∧ cgr_Policies R = ∅) ∧ (cgr_Groups W = ∅ ∧ cgr_Values W = ∅ ∧ cgr_Policies W = ∅);
  gs_changed : updated = true → bump = true ∨ ∃ k, is_Some (cgr_Groups R !! k) ∨ is_Some (cgr_Groups W !! k) ∨ is_Some (cgr_Values R !! k) ∨ is_Some (cgr_Values W !! k) ∨
    is_Some (cgr_Policies R !! k) ∨ is_Some (cgr_Policies W !! k)
}.
Lemma size_0 {A : Type} (m : gmap bytes A) : size m = 0%nat → m = ∅.
Proof. apply map_size_empty_inv. Qed.
Lemma some_key {A : Type} (m : gmap bytes A) : size m ≠ 0%nat → ∃ k, is_Some (m !! k).
Proof. intros Hs. destruct (map_choose m) as (k & x & Hk); [by intros ->|]. exists k. by exists x. Qed.
Lemma computeGroupUpdate_sets fuel o u R W updated : computeGroupUpdate (S fuel) o u = Ok (R, W, updated) →
  ∃ bump, group_sets (computeGroupUpdate fuel) o u R W bump updated.
Proof.
  cbn [computeGroupUpdate]. intros (pu & [Hp Hpk]%compute_map_update_spec & (vu & [Hv Hvk]%compute_map_update_spec & (gu & [Hg Hgk]%compute_map_update_spec & H)%bind_Ok)%bind_Ok)%bind_Ok.
  destruct (negb _) eqn:Hb.
  - exists false. apply negb_true_iff in Hb. rewrite !orb_false_iff, bool_decide_eq_false in Hb. destruct Hb as [[[Hpb Hvb] Hgb] Hm%dec_stable].
    assert (Hkeys : same_keys (cgr_Groups o) (cgr_Groups u) ∧ same_keys (cgr_Values o) (cgr_Values u) ∧ same_keys (cgr_Policies o) (cgr_Policies u) ∧
      cgr_ModPolicy o = cgr_ModPolicy u) by (split_and!; [by apply Hgk|by apply Hvk|by apply Hpk|done]).
    destruct (bool_decide _) eqn:Hs; injection H as <- <- <-.
    + apply bool_decide_eq_true in Hs as (S1%size_0 & S2%size_0 & S3%size_0 & S4%size_0 & S5%size_0 & S6%size_0).
      split; try done; cbn [cgr_Groups cgr_Values cgr_Policies]; intros k.
      * rewrite <-S5 at 1. rewrite <-S6. by apply (member_sets_of _ _ _ _ gu false).
      * rewrite <-S3 at 1. rewrite <-S4. by apply (member_sets_of _ _ _ _ vu false).
      * rewrite <-S1 at 1. rewrite <-S2. by apply (member_sets_of _ _ _ _ pu false).
    + apply bool_decide_eq_false in Hs. split; try done; cbn [cgr_Groups cgr_Values cgr_Policies].
      * intros k. by apply (member_sets_of _ _ _ _ gu false).
      * intros k. by apply (member_sets_of _ _ _ _ vu false).
      * intros k. by apply (member_sets_of _ _ _ _ pu false).
      * intros _. right. apply not_and_l in Hs as [[k ?]%some_key|Hs]; [eauto 10|]. apply not_and_l in Hs as [[k ?]%some_key|Hs]; [eauto 10|].
        apply not_and_l in Hs as [[k ?]%some_key|Hs]; [eauto 10|]. apply not_and_l in Hs as [[k ?]%some_key|Hs]; [eauto 10|].
        apply not_and_l in Hs as [[k ?]%some_key|[k ?]%some_key]; eauto 10.
  - exists true. injection H as <- <- <-. split; try done; cbn [cgr_Groups cgr_Values cgr_Policies].
    + intros k. by apply (member_sets_of _ _ _ _ gu true).
    + intros k. by apply (member_sets_of _ _ _ _ vu true).
    + intros k. by apply (member_sets_of _ _ _ _ pu true).
    + intros Kg%Hgk Kv%Hvk Kp%Hpk Hm. rewrite Kg, Kv, Kp, bool_decide_false in Hb; [done|]. by intros [].
    + by left.
Qed.

Lemma computeGroupUpdate_total fuel : ∀ o u, (group_size u ≤ fuel)%nat → ∃ R W b, computeGroupUpdate fuel o u = Ok (R, W, b).
Proof.
  induction fuel as [|fuel IH]; intros o u Hs; [destruct u; cbn in Hs; lia|]. cbn [computeGroupUpdate].
  destruct (compute_map_update_total policy_step policy_fresh (cgr_Policies o) (cgr_Policies u)) as [pu Hpu]; [by eexists..|].
  destruct (compute_map_update_total value_step value_fresh (cgr_Values o) (cgr_Values u)) as [vu Hvu]; [by eexists..|].
  destruct (compute_map_update_total (group_step (computeGroupUpdate fuel)) (group_fresh (computeGroupUpdate fuel)) (cgr_Groups o) (cgr_Groups u)) as [gu Hgu].
  { intros k go gu _ Hk%group_size_sub. destruct (IH go gu) as (R & W & b & HR); [lia|]. unfold group_step. rewrite HR. by eexists. }
  { intros k gu _ Hk%group_size_sub. destruct (IH NewConfigGroup gu) as (R & W & b & HR); [lia|]. unfold group_fresh. rewrite HR. by eexists. }
  unfold computePoliciesMapUpdate, computeValuesMapUpdate, computeGroupsMapUpdate. rewrite Hpu, bind_Ok_eq, Hvu, bind_Ok_eq, Hgu, bind_Ok_eq.
  destruct (negb _); [destruct (bool_decide _)|]; eauto.
Qed.

(** ** Trees up to versions *)

Definition strip_value (v : ConfigValue) : ConfigValue := {| cv_Version := 0; cv_Value := cv_Value v; cv_ModPolicy := cv_ModPolicy v |}.
Definition strip_policy (p : ConfigPolicy) : ConfigPolicy := {| cp_Version := 0; cp_Policy := cp_Policy p; cp_ModPolicy := cp_ModPolicy p |}.
Fixpoint strip_versions (g : ConfigGroup) : ConfigGroup :=
  mkConfigGroup 0 (strip_versions <$> cgr_Groups g) (strip_value <$> cgr_Values g) (strip_policy <$> cgr_Policies g) (cgr_ModPolicy g).
Lemma strip_versions_eq g h : strip_versions g = strip_versions h ↔
  (∀ k, strip_versions <$> cgr_Groups g !! k = strip_versions <$> cgr_Groups h !! k) ∧ (∀ k, strip_value <$> cgr_Values g !! k = strip_value <$> cgr_Values h !! k) ∧
  (∀ k, strip_policy <$> cgr_Policies g !! k = strip_policy <$> cgr_Policies h !! k) ∧ cgr_ModPolicy g = cgr_ModPolicy h.
Proof.
  setoid_rewrite <-lookup_fmap. destruct g as [v gs vs ps mp], h as [v' gs' vs' ps' mp']. cbn [strip_versions cgr_Groups cgr_Values cgr_Policies cgr_ModPolicy]. split.
  - intros [= Hg Hv Hp Hm]. rewrite Hg, Hv, Hp. done.
  - intros (Hg & Hv & Hp & ->). f_equal; by apply map_eq.
Qed.

(** The place of an element and its kind. *)
Definition slot (c : comparable) : bytes * list bytes := (prefix_of_element c, place c).
Lemma slot_sub p k G H c rc : element (p ++ [k]) H c → element p G rc → slot rc = slot c → ∃ G', cgr_Groups G !! k = Some G' ∧ element (p ++ [k]) G' rc.
Proof.
  unfold slot, place. intros [l h key q Hl Hq|l h x v Hl Hv|l h x v Hl Hv] [l' h' key' q' Hl' Hq'|l' h' x' v' Hl' Hv'|l' h' x' v' Hl' Hv'] [= Hs];
    cbn in Hs; try done.
  - rewrite <-Hq', <-Hq, <-app_assoc in Hs. apply app_inv_head in Hs as ->. cbn in Hl'. apply bind_Some in Hl' as (G' & HG & Hl').
    exists G'. split; [done|]. eapply el_group; [done|]. by rewrite <-app_assoc.
  - apply app_inj_tail in Hs as [Hs ->]. rewrite <-app_assoc in Hs. apply app_inv_head in Hs as ->. cbn in Hl'. apply bind_Some in Hl' as (G' & HG & Hl').
    exists G'. split; [done|]. rewrite (app_assoc p [k] l). by eapply el_value.
  - apply app_inj_tail in Hs as [Hs ->]. rewrite <-app_assoc in Hs. apply app_inv_head in Hs as ->. cbn in Hl'. apply bind_Some in Hl' as (G' & HG & Hl').
    exists G'. split; [done|]. rewrite (app_assoc p [k] l). by eapply el_policy.
Qed.
Lemma slot_own_value p G k v rc : element p G rc → slot rc = slot (value_element k p v) → ∃ v', cgr_Values G !! k = Some v' ∧ rc = value_element k p v'.
Proof.
  unfold slot, place. intros [l' h' key' q' Hl' Hq'|l' h' x' v' Hl' Hv'|l' h' x' v' Hl' Hv'] [= Hs]. cbn in Hs.
  apply app_inj_tail in Hs as [Hs ->]. rewrite <-(app_nil_r p) in Hs at 2. apply app_inv_head in Hs as ->. cbn in Hl'. injection Hl' as ->.
  exists v'. by rewrite app_nil_r.
Qed.
Lemma slot_own_policy p G k v rc : element p G rc → slot rc = slot (policy_element k p v) → ∃ v', cgr_Policies G !! k = Some v' ∧ rc = policy_element k p v'.
Proof.
  unfold slot, place. intros [l' h' key' q' Hl' Hq'|l' h' x' v' Hl' Hv'|l' h' x' v' Hl' Hv'] [= Hs]. cbn in Hs.
  apply app_inj_tail in Hs as [Hs ->]. rewrite <-(app_nil_r p) in Hs at 2. apply app_inv_head in Hs as ->. cbn in Hl'. injection Hl' as ->.
  exists v'. by rewrite app_nil_r.
Qed.
Lemma slot_root p key G g rc : element (p ++ [key]) G rc → slot rc = slot (group_element key p g) → rc = group_element key p G.
Proof.
  intros He Hs. unfold slot, place in Hs. injection Hs as Hk Hs.
  apply (element_place_inj (p ++ [key]) G); [done|apply element_root|exact Hk|exact Hs].
Qed.
(** Trees that are equal up to versions have the same elements up to versions. *)
Lemma strip_element G : ∀ H p c, strip_versions G = strip_versions H → element p G c → ∃ c', element p H c' ∧ slot c' = slot c ∧ modPolicy c' = modPolicy c.
Proof.
  induction G as [G IH] using ConfigGroup_tree_ind. intros H p c Heq Hc. apply strip_versions_eq in Heq as (Hg & Hv & Hp & Hm).
  apply element_cases in Hc as [(key & q & -> & ->)|[(k & v & Hk & ->)|[(k & v & Hk & ->)|(k & G' & Hk & Hc)]]].
  - exists (group_element key q H). split_and!; [apply element_root|done|done].
  - specialize (Hv k). rewrite Hk in Hv. destruct (cgr_Values H !! k) as [v'|] eqn:Hk'; [|done]. injection Hv as ? Hmod.
    exists (value_element k p v'). split_and!; [by apply element_own_value|done|done].
  - specialize (Hp k). rewrite Hk in Hp. destruct (cgr_Policies H !! k) as [v'|] eqn:Hk'; [|done]. injection Hp as ? Hmod.
    exists (policy_element k p v'). split_and!; [by apply element_own_policy|done|done].
  - specialize (Hg k). rewrite Hk in Hg. destruct (cgr_Groups H !! k) as [H'|] eqn:Hk'; [|done]. injection Hg as Hg.
    destruct (IH k G' Hk H' (p ++ [k]) c Hg Hc) as (c' & Hc' & Hs & Hmod). exists c'. split_and!; [by eapply element_sub|done|done].
Qed.

(** ** The cases of a member *)

(** What the steps for values and for policies have in common. *)
Record leaf_laws {A : Type} (step : A → A → res (member_update A)) (fresh : A → res A) (ver : A → Z) (strip : A → A) : Prop := {
  leaf_step o u : (∃ x, step o u = Ok (Same x) ∧ ver x = ver o ∧ strip o = strip u) ∨
                  (∃ w, step o u = Ok (Changed None w) ∧ ver w = u64 (ver o + 1) ∧ strip w = strip u ∧ strip o ≠ strip u);
  leaf_fresh u : ∃ w, fresh u = Ok w ∧ ver w = 0 ∧ strip w = strip u
}.
Lemma value_laws : leaf_laws value_step value_fresh cv_Version strip_value.
Proof.
  split; [|by eexists]. intros o u. unfold value_step. destruct (bool_decide _ && bool_decide _) eqn:Hb; [left|right]; eexists; (split; [done|]).
  - rewrite andb_true_iff, !bool_decide_eq_true in Hb. destruct Hb as [Hm Hv]. split; [done|]. unfold strip_value. by rewrite Hm, Hv.
  - split_and!; [done|done|]. intros [= Hv Hm]. by rewrite !bool_decide_true in Hb.
Qed.
Lemma policy_laws : leaf_laws policy_step policy_fresh cp_Version strip_policy.
Proof.
  split; [|by eexists]. intros o u. unfold policy_step. destruct (bool_decide _ && bool_decide _) eqn:Hb; [left|right]; eexists; (split; [done|]).
  - rewrite andb_true_iff, !bool_decide_eq_true in Hb. destruct Hb as [Hm Hv]. split; [done|]. unfold strip_policy. by rewrite Hm, Hv.
  - split_and!; [done|done|]. intros [= Hv Hm]. by rewrite !bool_decide_true in Hb.
Qed.
Lemma leaf_cases {A : Type} (step : A → A → res (member_update A)) fresh ver strip bump oo uu ro wo : leaf_laws step fresh ver strip →
  member_sets step fresh bump oo uu ro wo →
  match oo, uu with
  | Some o, Some u => strip o = strip u ∧ (ro = None ∧ wo = None ∧ bump = false ∨ ∃ x, ro = Some x ∧ wo = Some x ∧ ver x = ver o ∧ bump = true) ∨
      ∃ w, ro = None ∧ wo = Some w ∧ ver w = u64 (ver o + 1) ∧ strip w = strip u ∧ strip o ≠ strip u
  | None, Some u => ∃ w, ro = None ∧ wo = Some w ∧ ver w = 0 ∧ strip w = strip u
  | _, None => ro = None ∧ wo = None
  end.
Proof.
  intros [Hstep Hfresh]. unfold member_sets. destruct oo as [o|], uu as [u|]; [|done| |done].
  - intros (r & Hr & Hm). destruct (Hstep o u) as [(x & Hx & Hv & Hs)|(w & Hw & Hv & Hs & Hne)]; [rewrite Hx in Hr|rewrite Hw in Hr]; injection Hr as <-.
    + left. split; [done|]. destruct bump; destruct Hm as [-> ->]; [right; by exists x|by left].
    + right. exists w. by destruct Hm as [-> ->].
  - intros (w & Hw & Hm). destruct (Hfresh u) as (w' & Hw' & Hv & Hs). rewrite Hw' in Hw. injection Hw as <-. exists w'. by destruct Hm as [-> ->].
Qed.

Definition renew (w u : ConfigGroup) : ConfigGroup := mkConfigGroup 0 (cgr_Groups w) (cgr_Values w) (cgr_Policies w) (cgr_ModPolicy u).
Lemma group_cases cgu bump oo uu ro wo : member_sets (group_step cgu) (group_fresh cgu) bump oo uu ro wo →
  match oo, uu with
  | Some o, Some u => ∃ R W b, cgu o u = Ok (R, W, b) ∧
      if b : bool then ro = Some R ∧ wo = Some W else if bump then ro = Some R ∧ wo = Some R else ro = None ∧ wo = None
  | None, Some u => ∃ R W b, cgu NewConfigGroup u = Ok (R, W, b) ∧ ro = None ∧ wo = Some (renew W u)
  | _, None => ro = None ∧ wo = None
  end.
Proof.
  unfold member_sets, group_step, group_fresh. destruct oo as [o|], uu as [u|]; [|done| |done].
  - intros (r & ([[R W] b] & Hc & [= <-])%bind_Ok & Hm). exists R, W, b. split; [done|]. by destruct b.
  - intros (w & ([[R W] b] & Hc & [= <-])%bind_Ok & Hm). by exists R, W, b.
Qed.

Lemma fmap_same_some {A C : Type} (f : A → C) (x y : option A) : f <$> x = f <$> y → (is_Some x ↔ is_Some y).
Proof. destruct x, y; intros Hf; try done; split; by intros []. Qed.
(** Without a change the trees are equal up to versions. *)
Lemma same_content fuel : ∀ o u R W, computeGroupUpdate fuel o u = Ok (R, W, false) → strip_versions o = strip_versions u.
Proof.
  induction fuel as [|fuel IH]; [done|]. intros o u R W [bump Hs]%computeGroupUpdate_sets.
  destruct (gs_same _ _ _ _ _ _ _ Hs eq_refl) as (-> & (R1 & R2 & R3) & (W1 & W2 & W3)). destruct (gs_bump _ _ _ _ _ _ _ Hs eq_refl) as (Kg & Kv & Kp & Hm).
  apply strip_versions_eq. split_and!; [..|done]; intros k.
  - pose proof (group_cases _ _ _ _ _ _ (gs_groups _ _ _ _ _ _ _ Hs k)) as Hc. specialize (Kg k). rewrite R1, W1, !lookup_empty in Hc.
    destruct (cgr_Groups o !! k) as [go|], (cgr_Groups u !! k) as [gu|]; [|naive_solver..|done]. destruct Hc as (R' & W' & b & Hc & Hb). cbn. f_equal.
    destruct b; [naive_solver|]. by eapply IH.
  - pose proof (leaf_cases _ _ _ _ _ _ _ _ _ value_laws (gs_values _ _ _ _ _ _ _ Hs k)) as Hc. specialize (Kv k). rewrite R2, W2, !lookup_empty in Hc.
    destruct (cgr_Values o !! k) as [go|], (cgr_Values u !! k) as [gu|]; [|naive_solver..|done]. cbn. f_equal. naive_solver.
  - pose proof (leaf_cases _ _ _ _ _ _ _ _ _ policy_laws (gs_policies _ _ _ _ _ _ _ Hs k)) as Hc. specialize (Kp k). rewrite R3, W3, !lookup_empty in Hc.
    destruct (cgr_Policies o !! k) as [go|], (cgr_Policies u !! k) as [gu|]; [|naive_solver..|done]. cbn. f_equal. naive_solver.
Qed.
(** And trees that are equal up to versions have no change. *)
Lemma same_no_change fuel : ∀ o u R W b, computeGroupUpdate fuel o u = Ok (R, W, b) → strip_versions o = strip_versions u → b = false.
Proof.
  induction fuel as [|fuel IH]; [done|]. intros o u R W b [bump Hs]%computeGroupUpdate_sets (Hg & Hv & Hp & Hm)%strip_versions_eq.
  assert (bump = false) as ->.
  { apply (gs_no_bump _ _ _ _ _ _ _ Hs); [..|done]; intros k; [specialize (Hg k)|specialize (Hv k)|specialize (Hp k)]; by eapply fmap_same_some. }
  destruct b; [|done]. destruct (gs_changed _ _ _ _ _ _ _ Hs eq_refl) as [|[k Hk]]; [done|]. exfalso.
  assert (cgr_Groups R !! k = None ∧ cgr_Groups W !! k = None) as [R1 W1].
  { pose proof (group_cases _ _ _ _ _ _ (gs_groups _ _ _ _ _ _ _ Hs k)) as Hx. specialize (Hg k).
    destruct (cgr_Groups o !! k) as [go|], (cgr_Groups u !! k) as [gu|]; [|done..]. destruct Hx as (R' & W' & b' & Hcgu & Hx). injection Hg as Hg.
    by rewrite (IH _ _ _ _ _ Hcgu Hg) in Hx. }
  assert (cgr_Values R !! k = None ∧ cgr_Values W !! k = None) as [R2 W2].
  { pose proof (leaf_cases _ _ _ _ _ _ _ _ _ value_laws (gs_values _ _ _ _ _ _ _ Hs k)) as Hx. specialize (Hv k).
    destruct (cgr_Values o !! k) as [vo|], (cgr_Values u !! k) as [vu|]; [|done..]. apply (inj Some) in Hv.
    destruct Hx as [(_ & [(? & ? & _)|(? & _ & _ & _ & ?)])|(w & _ & _ & _ & _ & ?)]; done. }
  assert (cgr_Policies R !! k = None ∧ cgr_Policies W !! k = None) as [R3 W3].
  { pose proof (leaf_cases _ _ _ _ _ _ _ _ _ policy_laws (gs_policies _ _ _ _ _ _ _ Hs k)) as Hx. specialize (Hp k).
    destruct (cgr_Policies o !! k) as [vo|], (cgr_Policies u !! k) as [vu|]; [|done..]. apply (inj Some) in Hp.
    destruct Hx as [(_ & [(? & ? & _)|(? & _ & _ & _ & ?)])|(w & _ & _ & _ & _ & ?)]; done. }
  rewrite R1, W1, R2, W2, R3, W3 in Hk. by destruct Hk as [[]|[[]|[[]|[[]|[[]|[]]]]]].
Qed.
(** The write set of a new group is the group, with version 0 throughout. *)
Lemma new_content fuel : ∀ u R W b, computeGroupUpdate fuel NewConfigGroup u = Ok (R, W, b) →
  strip_versions (renew W u) = strip_versions u ∧ ∀ p c, element p (renew W u) c → version c = 0.
Proof.
  induction fuel as [|fuel IH]; [done|]. intros u R W b [bump Hs]%computeGroupUpdate_sets.
  assert (Hg : ∀ k, match cgr_Groups u !! k with None => cgr_Groups W !! k = None | Some gu => ∃ R' W' b', computeGroupUpdate fuel NewConfigGroup gu = Ok (R', W', b') ∧ cgr_Groups W !! k = Some (renew W' gu) end).
  { intros k. pose proof (group_cases _ _ _ _ _ _ (gs_groups _ _ _ _ _ _ _ Hs k)) as Hc. cbn [cgr_Groups NewConfigGroup] in Hc. rewrite lookup_empty in Hc.
    destruct (cgr_Groups u !! k) as [gu|]; [|by destruct Hc]. destruct Hc as (R' & W' & b' & ? & _ & ?). by exists R', W', b'. }
  assert (Hv : ∀ k, match cgr_Values u !! k with None => cgr_Values W !! k = None | Some v => ∃ w, cgr_Values W !! k = Some w ∧ cv_Version w = 0 ∧ strip_value w = strip_value v end).
  { intros k. pose proof (leaf_cases _ _ _ _ _ _ _ _ _ value_laws (gs_values _ _ _ _ _ _ _ Hs k)) as Hc. cbn [cgr_Values NewConfigGroup] in Hc. rewrite lookup_empty in Hc.
    destruct (cgr_Values u !! k) as [gu|]; [|by destruct Hc]. destruct Hc as (w & _ & ? & ? & ?). by exists w. }
  assert (Hp : ∀ k, match cgr_Policies u !! k with None => cgr_Policies W !! k = None | Some v => ∃ w, cgr_Policies W !! k = Some w ∧ cp_Version w = 0 ∧ strip_policy w = strip_policy v end).
  { intros k. pose proof (leaf_cases _ _ _ _ _ _ _ _ _ policy_laws (gs_policies _ _ _ _ _ _ _ Hs k)) as Hc. cbn [cgr_Policies NewConfigGroup] in Hc. rewrite lookup_empty in Hc.
    destruct (cgr_Policies u !! k) as [gu|]; [|by destruct Hc]. destruct Hc as (w & _ & ? & ? & ?). by exists w. }
  split.
  - apply strip_versions_eq. cbn [cgr_Groups cgr_Values cgr_Policies cgr_ModPolicy renew]. split_and!; [..|done]; intros k.
    + specialize (Hg k). destruct (cgr_Groups u !! k) as [gu|]; [|by rewrite Hg]. destruct Hg as (R' & W' & b' & [Hc _]%IH & ->). cbn. by f_equal.
    + specialize (Hv k). destruct (cgr_Values u !! k) as [gu|]; [|by rewrite Hv]. destruct Hv as (w & -> & _ & Hw). cbn. by f_equal.
    + specialize (Hp k). destruct (cgr_Policies u !! k) as [gu|]; [|by rewrite Hp]. destruct Hp as (w & -> & _ & Hw). cbn. by f_equal.
  - intros p c [(key & q & -> & ->)|[(k & v & Hk & ->)|[(k & v & Hk & ->)|(k & g' & Hk & Hc)]]]%element_cases; cbn [cgr_Groups cgr_Values cgr_Policies renew] in *; [done|..].
    + specialize (Hv k). destruct (cgr_Values u !! k); [|congruence]. destruct Hv as (w & Hw & ? & _). by assert (v = w) as -> by congruence.
    + specialize (Hp k). destruct (cgr_Policies u !! k); [|congruence]. destruct Hp as (w & Hw & ? & _). by assert (v = w) as -> by congruence.
    + specialize (Hg k). destruct (cgr_Groups u !! k) as [gu|]; [|congruence]. destruct Hg as (R' & W' & b' & [_ H0]%IH & Hk'). rewrite Hk in Hk'. injection Hk' as ->. by eapply H0.
Qed.

(** ** The change that the sets make *)

(** An element of the write set that is not in the read set with its version. *)
Definition delta_at (p : list bytes) (R W : ConfigGroup) (c : comparable) : Prop :=
  element p W c ∧ ∀ rc, element p R rc → slot rc = slot c → version rc ≠ version c.

Lemma u64_succ_ne v : u64 (v + 1) ≠ v.
Proof.
  unfold u64, two64. intros H. pose proof (Z.mod_pos_bound (v + 1) 18446744073709551616). pose proof (Z.div_mod (v + 1) 18446744073709551616). lia.
Qed.
Lemma same_root fuel o u R W p key c : computeGroupUpdate fuel o u = Ok (R, W, false) → element (p ++ [key]) R c → c = group_element key p R.
Proof.
  destruct fuel; [done|]. intros [bump Hs]%computeGroupUpdate_sets. destruct (gs_same _ _ _ _ _ _ _ Hs eq_refl) as (_ & (R1 & R2 & R3) & _).
  intros [(key' & q & [<- <-]%app_inj_tail & ->)|[(k & v & Hk & _)|[(k & v & Hk & _)|(k & g' & Hk & _)]]]%element_cases; [done|..];
    by rewrite ?R1, ?R2, ?R3, lookup_empty in Hk.
Qed.

Lemma read_elements fuel : ∀ o u R W b p key c, computeGroupUpdate fuel o u = Ok (R, W, b) → element (p ++ [key]) R c →
  ∃ old, element (p ++ [key]) o old ∧ slot old = slot c ∧ version old = version c.
Proof.
  induction fuel as [|fuel IH]; [done|]. intros o u R W b p key c [bump Hs]%computeGroupUpdate_sets.
  intros [(key' & q & [<- <-]%app_inj_tail & ->)|[(k & v & Hk & ->)|[(k & v & Hk & ->)|(k & g' & Hk & Hc)]]]%element_cases.
  - exists (group_element key p o). split_and!; [apply element_root|done|]. symmetry. apply (gs_R_version _ _ _ _ _ _ _ Hs).
  - pose proof (leaf_cases _ _ _ _ _ _ _ _ _ value_laws (gs_values _ _ _ _ _ _ _ Hs k)) as Hx. rewrite Hk in Hx.
    destruct (cgr_Values o !! k) as [ov|] eqn:Ho, (cgr_Values u !! k) as [uv|]; [|by destruct Hx|by destruct Hx as (? & ? & _)|by destruct Hx].
    destruct Hx as [(_ & [(? & _)|(x & [= ->] & _ & Hv & _)])|(w & ? & _)]; [done| |done].
    exists (value_element k (p ++ [key]) ov). split_and!; [by apply element_own_value|done|done].
  - pose proof (leaf_cases _ _ _ _ _ _ _ _ _ policy_laws (gs_policies _ _ _ _ _ _ _ Hs k)) as Hx. rewrite Hk in Hx.
    destruct (cgr_Policies o !! k) as [ov|] eqn:Ho, (cgr_Policies u !! k) as [uv|]; [|by destruct Hx|by destruct Hx as (? & ? & _)|by destruct Hx].
    destruct Hx as [(_ & [(? & _)|(x & [= ->] & _ & Hv & _)])|(w & ? & _)]; [done| |done].
    exists (policy_element k (p ++ [key]) ov). split_and!; [by apply element_own_policy|done|done].
  - pose proof (group_cases _ _ _ _ _ _ (gs_groups _ _ _ _ _ _ _ Hs k)) as Hx. rewrite Hk in Hx.
    destruct (cgr_Groups o !! k) as [go|] eqn:Ho, (cgr_Groups u !! k) as [gu|]; [|by destruct Hx|by destruct Hx as (? & ? & ? & _ & ? & _)|by destruct Hx].
    destruct Hx as (R' & W' & b' & Hcgu & Hx). assert (g' = R') as -> by (destruct b'; [|destruct bump]; destruct Hx; congruence).
    destruct (IH _ _ _ _ _ (p ++ [key]) k c Hcgu Hc) as (old & Ho' & Hsl & Hv). exists old. split_and!; [by eapply element_sub|done|done].
Qed.

(** Lifting from a group to the whole tree. *)
Lemma delta_lift p k R W R' W' c : cgr_Groups W !! k = Some W' → cgr_Groups R !! k = Some R' → delta_at (p ++ [k]) R' W' c → delta_at p R W c.
Proof.
  intros HW HR [Hc Hd]. split; [by eapply element_sub|]. intros rc Hrc Hs. destruct (slot_sub p k R W' c rc Hc Hrc Hs) as (R2 & HR2 & He).
  rewrite HR in HR2. injection HR2 as <-. by apply Hd.
Qed.
Lemma delta_sub p k R W R' W' c : cgr_Groups R !! k = Some R' → element (p ++ [k]) W' c → delta_at p R W c → delta_at (p ++ [k]) R' W' c.
Proof. intros HR Hc [_ Hd]. split; [done|]. intros rc Hrc Hs. apply Hd; [by eapply element_sub|done]. Qed.
Lemma delta_new p k R W W' c : cgr_Groups W !! k = Some W' → cgr_Groups R !! k = None → element (p ++ [k]) W' c → delta_at p R W c.
Proof.
  intros HW HR Hc. split; [by eapply element_sub|]. intros rc Hrc Hs. destruct (slot_sub p k R W' c rc Hc Hrc Hs) as (R2 & HR2 & _). congruence.
Qed.

(** The elements of the change: their versions and policies. *)
Definition good_change (p : list bytes) (o u : ConfigGroup) (c : comparable) : Prop :=
  ∃ cu, element p u cu ∧ slot cu = slot c ∧ modPolicy cu = modPolicy c ∧
    ((∃ old, element p o old ∧ slot old = slot c ∧ version c = u64 (version old + 1)) ∨ (version c = 0 ∧ ∀ old, element p o old → slot old ≠ slot c)).
Lemma good_change_lift p k o u go gu W' c : cgr_Groups o !! k = Some go → cgr_Groups u !! k = Some gu → element (p ++ [k]) W' c →
  good_change (p ++ [k]) go gu c → good_change p o u c.
Proof.
  intros Ho Hu Hc (cu & Hcu & Hs & Hm & Hold). exists cu. split_and!; [by eapply element_sub|done|done|].
  destruct Hold as [(old & Hold & Hso & Hv)|[Hv Hno]]; [left; exists old; split_and!; [by eapply element_sub|done|done]|right].
  split; [done|]. intros old Hold Hso. destruct (slot_sub p k o W' c old Hc Hold Hso) as (g2 & Hg2 & He). rewrite Ho in Hg2. injection Hg2 as <-. by eapply Hno.
Qed.
Lemma delta_changes fuel : ∀ o u R W b p key c, computeGroupUpdate fuel o u = Ok (R, W, b) → delta_at (p ++ [key]) R W c → good_change (p ++ [key]) o u c.
Proof.
  induction fuel as [|fuel IH]; [done|]. intros o u R W b p key c [bump Hs]%computeGroupUpdate_sets Hdelta. pose proof Hdelta as [HW Hd].
  destruct (element_cases _ _ _ HW) as [(key' & q & [<- <-]%app_inj_tail & ->)|[(k & v & Hk & ->)|[(k & v & Hk & ->)|(k & g' & Hk & Hc)]]].
  - pose proof (Hd _ (element_root key p R) eq_refl) as Hne. cbn in Hne. rewrite (gs_R_version _ _ _ _ _ _ _ Hs), (gs_W_version _ _ _ _ _ _ _ Hs) in Hne.
    destruct bump; [|done]. exists (group_element key p u). split_and!; [apply element_root|done|symmetry; apply (gs_W_policy _ _ _ _ _ _ _ Hs)|left].
    exists (group_element key p o). split_and!; [apply element_root|done|apply (gs_W_version _ _ _ _ _ _ _ Hs)].
  - pose proof (leaf_cases _ _ _ _ _ _ _ _ _ value_laws (gs_values _ _ _ _ _ _ _ Hs k)) as Hx. rewrite Hk in Hx.
    destruct (cgr_Values u !! k) as [uv|] eqn:Hu; [|by destruct (cgr_Values o !! k), Hx].
    assert (strip_value v = strip_value uv → modPolicy (value_element k (p ++ [key]) uv) = modPolicy (value_element k (p ++ [key]) v)) as Hmod by by intros [=].
    exists (value_element k (p ++ [key]) uv). split; [by apply element_own_value|]. split; [done|]. destruct (cgr_Values o !! k) as [ov|] eqn:Ho.
    + destruct Hx as [(_ & [(_ & ? & _)|(x & HR & [= ->] & _)])|(w & _ & [= ->] & Hv & Hst & _)]; [done|by destruct (Hd _ (element_own_value (p ++ [key]) R k x HR))|].
      split; [by apply Hmod|]. left. exists (value_element k (p ++ [key]) ov). split_and!; [by apply element_own_value|done|done].
    + destruct Hx as (w & _ & [= ->] & Hv & Hst). split; [by apply Hmod|]. right. split; [done|]. intros old Hold Hso.
      destruct (slot_own_value _ _ _ _ _ Hold Hso) as (v' & Hv' & _). congruence.
  - pose proof (leaf_cases _ _ _ _ _ _ _ _ _ policy_laws (gs_policies _ _ _ _ _ _ _ Hs k)) as Hx. rewrite Hk in Hx.
    destruct (cgr_Policies u !! k) as [uv|] eqn:Hu; [|by destruct (cgr_Policies o !! k), Hx].
    assert (strip_policy v = strip_policy uv → modPolicy (policy_element k (p ++ [key]) uv) = modPolicy (policy_element k (p ++ [key]) v)) as Hmod by by intros [=].
    exists (policy_element k (p ++ [key]) uv). split; [by apply element_own_policy|]. split; [done|]. destruct (cgr_Policies o !! k) as [ov|] eqn:Ho.
    + destruct Hx as [(_ & [(_ & ? & _)|(x & HR & [= ->] & _)])|(w & _ & [= ->] & Hv & Hst & _)]; [done|by destruct (Hd _ (element_own_policy (p ++ [key]) R k x HR))|].
      split; [by apply Hmod|]. left. exists (policy_element k (p ++ [key]) ov). split_and!; [by apply element_own_policy|done|done].
    + destruct Hx as (w & _ & [= ->] & Hv & Hst). split; [by apply Hmod|]. right. split; [done|]. intros old Hold Hso.
      destruct (slot_own_policy _ _ _ _ _ Hold Hso) as (v' & Hv' & _). congruence.
  - pose proof (group_cases _ _ _ _ _ _ (gs_groups _ _ _ _ _ _ _ Hs k)) as Hx. rewrite Hk in Hx.
    destruct (cgr_Groups u !! k) as [gu|] eqn:Hu; [|by destruct (cgr_Groups o !! k), Hx]. destruct (cgr_Groups o !! k) as [go|] eqn:Ho.
    + destruct Hx as (R' & W' & b' & Hcgu & Hx). destruct b'.
      * destruct Hx as [HR [= ->]]. eapply good_change_lift; [done|done|done|]. eapply IH; [done|]. by eapply delta_sub.
      * destruct bump; [|by destruct Hx]. destruct Hx as [HR [= ->]]. by destruct (Hd c (element_sub _ _ _ _ _ HR Hc)).
    + destruct Hx as (R' & W' & b' & Hcgu & HR & [= ->]). apply new_content in Hcgu as [Hst H0].
      destruct (strip_element _ _ _ _ Hst Hc) as (cu & Hcu & Hsl & Hm). exists cu. split_and!; [by eapply element_sub|done|done|right].
      split; [by eapply H0|]. intros old Hold Hso. destruct (slot_sub (p ++ [key]) k o _ c old Hc Hold Hso) as (g2 & Hg2 & _). congruence.
Qed.
Lemma write_elements fuel : ∀ o u R W b p key c, computeGroupUpdate fuel o u = Ok (R, W, b) → element (p ++ [key]) W c → ∃ cu, element (p ++ [key]) u cu ∧ slot cu = slot c.
Proof.
  induction fuel as [|fuel IH]; [done|]. intros o u R W b p key c [bump Hs]%computeGroupUpdate_sets.
  intros [(key' & q & [<- <-]%app_inj_tail & ->)|[(k & v & Hk & ->)|[(k & v & Hk & ->)|(k & g' & Hk & Hc)]]]%element_cases.
  - exists (group_element key p u). split; [apply element_root|done].
  - pose proof (leaf_cases _ _ _ _ _ _ _ _ _ value_laws (gs_values _ _ _ _ _ _ _ Hs k)) as Hx. rewrite Hk in Hx.
    destruct (cgr_Values u !! k) as [uv|] eqn:Hu; [|by destruct (cgr_Values o !! k), Hx]. exists (value_element k (p ++ [key]) uv). split; [by apply element_own_value|done].
  - pose proof (leaf_cases _ _ _ _ _ _ _ _ _ policy_laws (gs_policies _ _ _ _ _ _ _ Hs k)) as Hx. rewrite Hk in Hx.
    destruct (cgr_Policies u !! k) as [uv|] eqn:Hu; [|by destruct (cgr_Policies o !! k), Hx]. exists (policy_element k (p ++ [key]) uv). split; [by apply element_own_policy|done].
  - pose proof (group_cases _ _ _ _ _ _ (gs_groups _ _ _ _ _ _ _ Hs k)) as Hx. rewrite Hk in Hx.
    destruct (cgr_Groups u !! k) as [gu|] eqn:Hu; [|by destruct (cgr_Groups o !! k), Hx].
    assert (∃ cu, element ((p ++ [key]) ++ [k]) gu cu ∧ slot cu = slot c) as (cu & Hcu & Hsl); [|exists cu; split; [by eapply element_sub|done]].
    destruct (cgr_Groups o !! k) as [go|].
    + destruct Hx as (R' & W' & b' & Hcgu & Hx). destruct b'; [destruct Hx as [_ [= ->]]; by eapply IH|].
      destruct bump; [|by destruct Hx]. destruct Hx as [_ [= ->]]. pose proof (same_root _ _ _ _ _ _ _ _ Hcgu Hc) as ->.
      exists (group_element k (p ++ [key]) gu). split; [apply element_root|done].
    + destruct Hx as (R' & W' & b' & Hcgu & _ & [= ->]). apply new_content in Hcgu as [Hst _].
      destruct (strip_element _ _ _ _ Hst Hc) as (cu & Hcu & Hsl & _). by exists cu.
Qed.
Lemma delta_nonempty fuel : ∀ o u R W p key, computeGroupUpdate fuel o u = Ok (R, W, true) → ∃ c, delta_at (p ++ [key]) R W c.
Proof.
  induction fuel as [|fuel IH]; [done|]. intros o u R W p key [bump Hs]%computeGroupUpdate_sets. destruct bump.
  { exists (group_element key p W). split; [apply element_root|]. intros rc Hrc Hsl. rewrite (slot_root _ _ _ _ _ Hrc Hsl). cbn.
    rewrite (gs_R_version _ _ _ _ _ _ _ Hs), (gs_W_version _ _ _ _ _ _ _ Hs). intros He. by apply (u64_succ_ne (cgr_Version o)). }
  destruct (gs_changed _ _ _ _ _ _ _ Hs eq_refl) as [|[k Hk]]; [done|]. destruct (gs_bump _ _ _ _ _ _ _ Hs eq_refl) as (Kg & Kv & Kp & _).
  specialize (Kg k). specialize (Kv k). specialize (Kp k).
  pose proof (group_cases _ _ _ _ _ _ (gs_groups _ _ _ _ _ _ _ Hs k)) as Hg.
  pose proof (leaf_cases _ _ _ _ _ _ _ _ _ value_laws (gs_values _ _ _ _ _ _ _ Hs k)) as Hv.
  pose proof (leaf_cases _ _ _ _ _ _ _ _ _ policy_laws (gs_policies _ _ _ _ _ _ _ Hs k)) as Hp.
  assert (is_Some (cgr_Groups R !! k) ∨ is_Some (cgr_Groups W !! k) → ∃ c, delta_at (p ++ [key]) R W c) as Hgroups.
  { intros Hsome. destruct (cgr_Groups o !! k) as [go|], (cgr_Groups u !! k) as [gu|]; [|exfalso; clear -Kg; naive_solver..|].
    - destruct Hg as (R' & W' & b' & Hcgu & Hx). destruct b'; [|destruct Hx as [HR HW]; rewrite HR, HW in Hsome; by destruct Hsome as [[]|[]]]. destruct Hx as [HR HW].
      destruct (IH _ _ _ _ (p ++ [key]) k Hcgu) as [c Hc]. exists c. by eapply delta_lift.
    - destruct Hg as [HR HW]. rewrite HR, HW in Hsome. by destruct Hsome as [[]|[]]. }
  assert (is_Some (cgr_Values R !! k) ∨ is_Some (cgr_Values W !! k) → ∃ c, delta_at (p ++ [key]) R W c) as Hvalues.
  { intros Hsome. destruct (cgr_Values o !! k) as [vo|], (cgr_Values u !! k) as [vu|]; [|exfalso; clear -Kv; naive_solver..|destruct Hv as [HR HW]; rewrite HR, HW in Hsome; by destruct Hsome as [[]|[]]].
    destruct Hv as [(_ & [(HR & HW & _)|(? & _ & _ & _ & ?)])|(w & HR & HW & _)]; [rewrite HR, HW in Hsome; by destruct Hsome as [[]|[]]|done|].
    exists (value_element k (p ++ [key]) w). split; [by apply element_own_value|]. intros rc Hrc Hsl. destruct (slot_own_value _ _ _ _ _ Hrc Hsl) as (? & ? & _). congruence. }
  assert (is_Some (cgr_Policies R !! k) ∨ is_Some (cgr_Policies W !! k) → ∃ c, delta_at (p ++ [key]) R W c) as Hpolicies.
  { intros Hsome. destruct (cgr_Policies o !! k) as [vo|], (cgr_Policies u !! k) as [vu|]; [|exfalso; clear -Kp; naive_solver..|destruct Hp as [HR HW]; rewrite HR, HW in Hsome; by destruct Hsome as [[]|[]]].
    destruct Hp as [(_ & [(HR & HW & _)|(? & _ & _ & _ & ?)])|(w & HR & HW & _)]; [rewrite HR, HW in Hsome; by destruct Hsome as [[]|[]]|done|].
    exists (policy_element k (p ++ [key]) w). split; [by apply element_own_policy|]. intros rc Hrc Hsl. destruct (slot_own_policy _ _ _ _ _ Hrc Hsl) as (? & ? & _). congruence. }
  destruct Hk as [?|[?|[?|[?|[?|?]]]]]; auto.
Qed.

(** ** The tree that the change gives *)

Lemma map_choose_all {A C : Type} (m : gmap bytes A) (Q : bytes → A → C → Prop) : (∀ k x, m !! k = Some x → ∃ y, Q k x y) →
  ∃ r, same_keys r m ∧ ∀ k x y, m !! k = Some x → r !! k = Some y → Q k x y.
Proof.
  induction m as [|k x m Hk IH] using map_ind; intros HQ; [exists ∅; split; [intros k; rewrite !lookup_empty; split; by intros []|intros k x y; by rewrite lookup_empty]|].
  destruct IH as (r & Hr & HQr).
  { intros k' x' Hk'. apply HQ. rewrite lookup_insert_ne; [done|congruence]. }
  destruct (HQ k x) as [y Hy]; [apply lookup_insert_eq|]. exists (<[k := y]> r). split.
  - intros k'. destruct (decide (k = k')) as [->|]; [by rewrite !lookup_insert_eq|]. rewrite !lookup_insert_ne by done. apply Hr.
  - intros k' x' y'. destruct (decide (k = k')) as [->|]; [rewrite !lookup_insert_eq; by intros [= <-] [= <-]|]. rewrite !lookup_insert_ne by done. apply HQr.
Qed.

Lemma chosen_fmap {A C : Type} (f : A → C) (x y : option A) : (is_Some x ↔ is_Some y) → (∀ a a', y = Some a → x = Some a' → f a' = f a) → f <$> x = f <$> y.
Proof.
  intros Hiff Hf. destruct x as [a|], y as [a'|]; cbn; [by rewrite (Hf a' a)|destruct (proj1 Hiff); [by eexists|done]|destruct (proj2 Hiff); [by eexists|done]|done].
Qed.

Section applied.
Context (m : gmap bytes comparable).

Lemma has_policies_strip p g u : strip_versions g = strip_versions u → has_policies p u → has_policies p g.
Proof. intros Hs Hu c Hc. destruct (strip_element _ _ _ _ Hs Hc) as (cu & Hcu & _ & <-). by apply Hu. Qed.
Lemma fixed_tree_policies p key g : has_policies (p ++ [key]) g → fixed_tree m g = g.
Proof. intros Hg. unfold fixed_tree. destruct (fixes m); [|done]. by eapply fix_tree_id. Qed.
Lemma fixed_value_policy v : cv_ModPolicy v ≠ [] → fixed_value m v = v.
Proof. intros Hv. unfold fixed_value, fix_value. destruct (fixes m); [|done]. rewrite fix_mod_policy_id by done. by destruct v. Qed.
Lemma fixed_policy_policy v : cp_ModPolicy v ≠ [] → fixed_policy m v = v.
Proof. intros Hv. unfold fixed_policy, fix_policy. destruct (fixes m); [|done]. rewrite fix_mod_policy_id by done. by destruct v. Qed.
Lemma fixed_mod_policy_id p : p ≠ [] → fixed_mod_policy m p = p.
Proof. intros Hp. unfold fixed_mod_policy. destruct (fixes m); [|done]. by apply fix_mod_policy_id. Qed.

(** The map is the current elements with the change. *)
Definition has_change (P : list bytes) (o R W : ConfigGroup) : Prop :=
  (∀ c, delta_at P R W c → m !! fqPath c = Some c) ∧ (∀ c, element P o c → (∀ w, delta_at P R W w → slot w ≠ slot c) → m !! fqPath c = Some c).

Section group.
Context (cgu : group_update) (o u R W : ConfigGroup) (bump b : bool) (p : list bytes) (key : bytes).
Notation P := (p ++ [key]).
Context (Hs : group_sets cgu o u R W bump b) (Hch : has_change P o R W).

Lemma values_found k uv : cgr_Values u !! k = Some uv → ∃ v, m !! fqPath (value_element k P v) = Some (value_element k P v) ∧ strip_value v = strip_value uv.
Proof.
  intros Hu. pose proof (leaf_cases _ _ _ _ _ _ _ _ _ value_laws (gs_values _ _ _ _ _ _ _ Hs k)) as Hx. rewrite Hu in Hx.
  assert (Hnew : ∀ w, cgr_Values R !! k = None → cgr_Values W !! k = Some w → m !! fqPath (value_element k P w) = Some (value_element k P w)).
  { intros w HR HW. apply (proj1 Hch). split; [by apply element_own_value|]. intros rc Hrc Hsl. destruct (slot_own_value _ _ _ _ _ Hrc Hsl) as (? & ? & _). congruence. }
  destruct (cgr_Values o !! k) as [ov|] eqn:Ho; [|destruct Hx as (w & HR & HW & _ & Hst); exists w; auto].
  destruct Hx as [[Hst Hx]|(w & HR & HW & _ & Hst & _)]; [|exists w; auto]. exists ov. split; [|done].
  apply (proj2 Hch); [by apply element_own_value|]. intros w [Hw Hd] Hsl. destruct (slot_own_value _ _ _ _ _ Hw Hsl) as (v' & Hv' & ->).
  destruct Hx as [(_ & HW & _)|(x & HR & HW & _ & _)]; [congruence|]. apply (Hd (value_element k P x)); [by apply element_own_value|done|]. congruence.
Qed.
Lemma policies_found k uv : cgr_Policies u !! k = Some uv → ∃ v, m !! fqPath (policy_element k P v) = Some (policy_element k P v) ∧ strip_policy v = strip_policy uv.
Proof.
  intros Hu. pose proof (leaf_cases _ _ _ _ _ _ _ _ _ policy_laws (gs_policies _ _ _ _ _ _ _ Hs k)) as Hx. rewrite Hu in Hx.
  assert (Hnew : ∀ w, cgr_Policies R !! k = None → cgr_Policies W !! k = Some w → m !! fqPath (policy_element k P w) = Some (policy_element k P w)).
  { intros w HR HW. apply (proj1 Hch). split; [by apply element_own_policy|]. intros rc Hrc Hsl. destruct (slot_own_policy _ _ _ _ _ Hrc Hsl) as (? & ? & _). congruence. }
  destruct (cgr_Policies o !! k) as [ov|] eqn:Ho; [|destruct Hx as (w & HR & HW & _ & Hst); exists w; auto].
  destruct Hx as [[Hst Hx]|(w & HR & HW & _ & Hst & _)]; [|exists w; auto]. exists ov. split; [|done].
  apply (proj2 Hch); [by apply element_own_policy|]. intros w [Hw Hd] Hsl. destruct (slot_own_policy _ _ _ _ _ Hw Hsl) as (v' & Hv' & ->).
  destruct Hx as [(_ & HW & _)|(x & HR & HW & _ & _)]; [congruence|]. apply (Hd (policy_element k P x)); [by apply element_own_policy|done|]. congruence.
Qed.
(** The group itself names the members that are wanted. *)
Lemma group_found : ∃ x, m !! fqPath (group_element key p x) = Some (group_element key p x) ∧ same_keys (cgr_Groups u) (cgr_Groups x) ∧
  same_keys (cgr_Values u) (cgr_Values x) ∧ same_keys (cgr_Policies u) (cgr_Policies x) ∧ cgr_ModPolicy x = cgr_ModPolicy u.
Proof.
  destruct bump eqn:Hb.
  - exists W. split_and!.
    + apply (proj1 Hch). split; [apply element_root|]. intros rc Hrc Hsl. rewrite (slot_root _ _ _ _ _ Hrc Hsl). cbn.
      rewrite (gs_R_version _ _ _ _ _ _ _ Hs), (gs_W_version _ _ _ _ _ _ _ Hs). intros He. by apply (u64_succ_ne (cgr_Version o)).
    + intros k. pose proof (group_cases _ _ _ _ _ _ (gs_groups _ _ _ _ _ _ _ Hs k)) as Hx.
      destruct (cgr_Groups u !! k) as [gu|]; [|destruct (cgr_Groups o !! k); destruct Hx as [_ ->]; split; by intros []].
      split; [intros _|by eexists]. destruct (cgr_Groups o !! k); [destruct Hx as (? & ? & [] & _ & _ & ->); by eexists|]. destruct Hx as (? & ? & ? & _ & _ & ->). by eexists.
    + intros k. pose proof (leaf_cases _ _ _ _ _ _ _ _ _ value_laws (gs_values _ _ _ _ _ _ _ Hs k)) as Hx.
      destruct (cgr_Values u !! k) as [gu|]; [|destruct (cgr_Values o !! k); destruct Hx as [_ ->]; split; by intros []].
      split; [intros _|by eexists]. destruct (cgr_Values o !! k); [|destruct Hx as (? & _ & -> & _); by eexists].
      destruct Hx as [(_ & [(_ & _ & ?)|(? & _ & -> & _)])|(? & _ & -> & _)]; [done|by eexists..].
    + intros k. pose proof (leaf_cases _ _ _ _ _ _ _ _ _ policy_laws (gs_policies _ _ _ _ _ _ _ Hs k)) as Hx.
      destruct (cgr_Policies u !! k) as [gu|]; [|destruct (cgr_Policies o !! k); destruct Hx as [_ ->]; split; by intros []].
      split; [intros _|by eexists]. destruct (cgr_Policies o !! k); [|destruct Hx as (? & _ & -> & _); by eexists].
      destruct Hx as [(_ & [(_ & _ & ?)|(? & _ & -> & _)])|(? & _ & -> & _)]; [done|by eexists..].
    + apply (gs_W_policy _ _ _ _ _ _ _ Hs).
  - destruct (gs_bump _ _ _ _ _ _ _ Hs eq_refl) as (Kg & Kv & Kp & Hm). exists o. split_and!; [|by intros k; symmetry..|done].
    apply (proj2 Hch); [apply element_root|]. intros w [Hw Hd] Hsl. rewrite (slot_root _ _ _ _ _ Hw Hsl) in Hd.
    apply (Hd (group_element key p R)); [apply element_root|done|]. cbn. by rewrite (gs_R_version _ _ _ _ _ _ _ Hs), (gs_W_version _ _ _ _ _ _ _ Hs).
Qed.
End group.

(** A group that is not in the sets, or in them with its version only, keeps its
    elements. *)
Lemma untouched P k o R W go c : has_change P o R W → cgr_Groups o !! k = Some go →
  (∀ W' w, cgr_Groups W !! k = Some W' → element (P ++ [k]) W' w → ∃ R', cgr_Groups R !! k = Some R' ∧ element (P ++ [k]) R' w) →
  element (P ++ [k]) go c → m !! fqPath c = Some c.
Proof.
  intros [_ Hkeep] Hk Hsame Hc. apply Hkeep; [by eapply element_sub|]. intros w [Hw Hd] Hsl.
  destruct (slot_sub P k W go c w Hc Hw Hsl) as (W' & HW' & Hw'). destruct (Hsame W' w HW' Hw') as (R' & HR' & He).
  apply (Hd w); [by eapply element_sub|done|done].
Qed.
Lemma has_change_sub P k o R W go R' W' : has_change P o R W → cgr_Groups o !! k = Some go → cgr_Groups R !! k = Some R' → cgr_Groups W !! k = Some W' →
  has_change (P ++ [k]) go R' W'.
Proof.
  intros [Hd Hkeep] Ho HR HW. split.
  - intros c Hc. apply Hd. by eapply delta_lift.
  - intros c Hc Hno. apply Hkeep; [by eapply element_sub|]. intros w Hw Hsl. pose proof Hw as [He _].
    destruct (slot_sub P k W go c w Hc He Hsl) as (W2 & HW2 & He'). rewrite HW in HW2. injection HW2 as <-. apply (Hno w); [|done]. by eapply delta_sub.
Qed.
Lemma built_whole p key g u : (∀ c, element (p ++ [key]) g c → m !! fqPath c = Some c) → strip_versions g = strip_versions u → has_policies (p ++ [key]) u →
  ∃ T, built m (slashed (p ++ [key])) T ∧ strip_versions T = strip_versions u.
Proof.
  intros Hall Hst Hu. exists g. split; [|done]. rewrite <-(fixed_tree_policies p key g) by by eapply has_policies_strip. apply built_tree; [done|by destruct p].
Qed.

Lemma update_built fuel : ∀ o u R W b p key, computeGroupUpdate fuel o u = Ok (R, W, b) → has_change (p ++ [key]) o R W → has_policies (p ++ [key]) u →
  ∃ T, built m (slashed (p ++ [key])) T ∧ strip_versions T = strip_versions u.
Proof.
  induction fuel as [|fuel IH]; [done|]. intros o u R W b p key [bump Hs]%computeGroupUpdate_sets Hch Hu. set (P := p ++ [key]) in *.
  destruct (map_choose_all (cgr_Groups u) (λ k gu T, built m (slashed (P ++ [k])) T ∧ strip_versions T = strip_versions gu)) as (Tg & Kg & Hg).
  { intros k gu Hk. assert (Hgu : has_policies (P ++ [k]) gu) by (intros c Hc; apply Hu; by eapply element_sub).
    pose proof (group_cases _ _ _ _ _ _ (gs_groups _ _ _ _ _ _ _ Hs k)) as Hx. rewrite Hk in Hx. destruct (cgr_Groups o !! k) as [go|] eqn:Ho.
    - destruct Hx as (R' & W' & b' & Hcgu & Hx). destruct b'.
      + destruct Hx as [HR HW]. eapply IH; [done| |done]. by eapply (has_change_sub P k o R W).
      + apply (built_whole P k go); [|by eapply same_content|done]. intros c Hc. eapply (untouched P k o R W); [done|done| |done].
        intros W2 w HW2 Hw. destruct bump; destruct Hx as [HR HW]; [|congruence]. exists R'. split; [done|]. congruence.
    - destruct Hx as (R' & W' & b' & Hcgu & HR & HW). destruct (new_content _ _ _ _ _ Hcgu) as [Hst _]. apply (built_whole P k (renew W' gu)); [|done|done].
      intros c Hc. apply (proj1 Hch). by eapply delta_new. }
  destruct (map_choose_all (cgr_Values u) (λ k uv v, m !! fqPath (value_element k P v) = Some (value_element k P v) ∧ strip_value v = strip_value uv)) as (Tv & Kv & Hv).
  { intros k uv. by eapply values_found. }
  destruct (map_choose_all (cgr_Policies u) (λ k uv v, m !! fqPath (policy_element k P v) = Some (policy_element k P v) ∧ strip_policy v = strip_policy uv)) as (Tp & Kp & Hp).
  { intros k uv. by eapply policies_found. }
  destruct (group_found _ _ _ _ _ _ _ _ _ Hs Hch) as (x & Hx & Xg & Xv & Xp & Hm).
  assert (Hroot : cgr_ModPolicy u ≠ []) by apply (Hu _ (element_root key p u)).
  exists (mkConfigGroup (cgr_Version x) Tg Tv Tp (cgr_ModPolicy u)). split.
  - apply (built_intro m _ (group_element key p x) x); cbn [cgr_Version cgr_Groups cgr_Values cgr_Policies cgr_ModPolicy]; try done.
    + by rewrite fqPath_group in Hx.
    + by rewrite Hm, fixed_mod_policy_id.
    + intros k. by rewrite (Kg k), (Xg k).
    + intros k h Hk. rewrite <-slashed_snoc. destruct (proj1 (Kg k)) as [gu Hgu]; [by eexists|]. by apply (Hg k gu h).
    + intros k. by rewrite (Kv k), (Xv k).
    + intros k v Hk. destruct (proj1 (Kv k)) as [uv Huv]; [by eexists|]. destruct (Hv k uv v Huv Hk) as [Hmv Hst]. rewrite fqPath_value in Hmv.
      exists (value_element k P v), v. split_and!; [done|done|]. symmetry. apply fixed_value_policy. injection Hst as _ ->. exact (Hu _ (element_own_value P u k uv Huv)).
    + intros k. by rewrite (Kp k), (Xp k).
    + intros k v Hk. destruct (proj1 (Kp k)) as [uv Huv]; [by eexists|]. destruct (Hp k uv v Huv Hk) as [Hmv Hst]. rewrite fqPath_policy in Hmv.
      exists (policy_element k P v), v. split_and!; [done|done|]. symmetry. apply fixed_policy_policy. injection Hst as _ ->. exact (Hu _ (element_own_policy P u k uv Huv)).
  - apply strip_versions_eq. cbn [cgr_Groups cgr_Values cgr_Policies cgr_ModPolicy]. split_and!; [..|done]; intros k.
    + specialize (Kg k). specialize (Hg k). by eapply chosen_fmap; [|intros; by eapply Hg].
    + specialize (Kv k). specialize (Hv k). by eapply chosen_fmap; [|intros; by eapply Hv].
    + specialize (Kp k). specialize (Hp k). by eapply chosen_fmap; [|intros; by eapply Hp].
Qed.
End applied.

(** ** The computed update is accepted *)

Lemma slot_key c c' : slot c = slot c' → cg_key c = cg_key c' ∧ fqPath c = fqPath c'.
Proof. unfold slot. intros [= Hp Hpl]. rewrite !fqPath_slashed. unfold place in Hpl. rewrite Hp, Hpl. by apply app_inj_tail in Hpl as [_ ->]. Qed.
Lemma names_ok_slots root g h : names_ok [root] g → (∀ c, element [root] h c → ∃ c', element [root] g c' ∧ slot c' = slot c) → names_ok [root] h.
Proof. intros Hg Hh c (c' & Hc' & [<- _]%slot_key)%Hh. by apply Hg. Qed.
Lemma fqPath_slot root g h c c' : names_ok [root] g → names_ok [root] h → element [root] g c → element [root] h c' → fqPath c = fqPath c' → slot c = slot c'.
Proof.
  intros Hg Hh Hc Hc' Heq. pose proof (names_ok_root _ _ Hg) as Hr.
  destruct (fqPath_inj _ _ _ _ _ _ Hc Hc') as [Hp Hpl]; [| |done|unfold slot; congruence].
  - by apply (element_place_names [root] g).
  - by apply (element_place_names [root] h).
Qed.
(** The change as the validator computes it. *)
Lemma delta_lookup root R W rs ws k c : map_of root R rs → map_of root W ws → computeDeltaSet rs ws !! k = Some c ↔ delta_at [root] R W c ∧ fqPath c = k.
Proof.
  intros [HRn HR] [HWn HW]. rewrite computeDeltaSet_spec, HW. split.
  - intros [[Hc Hk] Hd]. split; [|done]. split; [done|]. intros rc Hrc [_ Hs]%slot_key. apply Hd. apply HR. split; [done|congruence].
  - intros [[Hc Hd] Hk]. split; [done|]. intros rc [Hrc Hk']%HR. apply Hd; [done|]. eapply fqPath_slot; [exact HRn|exact HWn|done|done|congruence].
Qed.

Section computed.
Context `{!ProtoMessage Payload, !ProtoMessage ChannelHeader, !ProtoMessage SignatureHeader, !ProtoMessage ConfigUpdateEnvelope, !ProtoMessage ConfigUpdate}.
Context {M P : Type} `{!PolicyManager M P}.
Notation ValidatorImpl := (ValidatorImpl (M := M)).

Lemma computed_accepted (vi : ValidatorImpl) o u R W rs ws cue ch sd : map_of (vi_namespace vi) o (vi_configMap vi) → ch = vi_channelID vi →
  computeGroupUpdate (group_size u) o u = Ok (R, W, true) →
  map_of (vi_namespace vi) R rs → map_of (vi_namespace vi) W ws → names_ok [vi_namespace vi] u →
  (∀ c, element [vi_namespace vi] u c → validateModPolicy (modPolicy c) = Ok ()) →
  Unmarshal (cue_ConfigUpdate cue) = Ok {| cu_ChannelId := ch; cu_ReadSet := Some R; cu_WriteSet := Some W |} → ConfigUpdateEnvelopeAsSignedData (Some cue) = Ok sd →
  (∀ c w, element [vi_namespace vi] o c → element [vi_namespace vi] W w → fqPath w = fqPath c → version w ≠ version c → authorised vi sd c) →
  accepted vi cue rs ws sd.
Proof.
  intros [Hon Hof] -> Hc HR HW Hun Hmod Hupd Hsd Hauth. split; [| |intros k c|intros He|intros k c].
  - eexists. split; [exact Hupd|]. split_and!; [done|by apply mapConfig_spec..].
  - done.
  - intros [Hrc <-]%(proj2 HR). destruct (read_elements _ _ _ _ _ _ [] _ c Hc Hrc) as (old & Hold & [_ Hk]%slot_key & Hv). exists old. split; [by apply Hof|done].
  - destruct (delta_nonempty _ _ _ _ _ [] (vi_namespace vi) Hc) as [c Hd].
    pose proof (proj2 (delta_lookup _ _ _ _ _ (fqPath c) c HR HW) (conj Hd eq_refl)) as Hx. by rewrite He, lookup_empty in Hx.
  - intros [Hd <-]%(delta_lookup _ _ _ _ _ _ _ HR HW). destruct (delta_changes _ _ _ _ _ _ [] _ c Hc Hd) as (cu & Hcu & _ & Hm & Hch). split; [rewrite <-Hm; by apply Hmod|].
    pose proof Hd as [Hw _]. destruct Hch as [(old & Hold & [_ Hk]%slot_key & Hv)|[Hv Hno]].
    + rewrite (proj2 (Hof (fqPath c) old) (conj Hold Hk)). split; [done|]. apply (Hauth old c); [done|done|done|]. rewrite Hv. apply u64_succ_ne.
    + destruct (vi_configMap vi !! fqPath c) as [old|] eqn:Hold; [|done]. apply Hof in Hold as [Hold Hk].
      destruct (Hno old Hold). eapply fqPath_slot; [exact Hon|exact (proj1 HW)|done|done|done].
Qed.

(** C16: [Compute] always ends. It reports that there is nothing to change
    exactly if the two configurations are equal up to versions. Otherwise the
    update that it computes is accepted by the validator of the original
    configuration - if the names and the modification policies of the wanted
    configuration are valid and the signatures satisfy the policies of the
    elements that the update changes - and the result is the wanted
    configuration, up to the versions. *)
Theorem computed_update_applies original updated o u : cfg_ChannelGroup original = Some o → cfg_ChannelGroup updated = Some u →
  (strip_versions o = strip_versions u → ∃ e, Compute original updated = Err e) ∧
  (strip_versions o ≠ strip_versions u → ∃ R W, Compute original updated = Ok {| cu_ChannelId := []; cu_ReadSet := Some R; cu_WriteSet := Some W |} ∧
     ∀ ch ns pm (vi : ValidatorImpl) env cue sd, NewValidatorImpl ch (Some original) ns pm = Ok vi →
       names_ok [ns] u → (∀ c, element [ns] u c → validateModPolicy (modPolicy c) = Ok ()) →
       EnvelopeToConfigUpdate env = Ok cue → Unmarshal (cue_ConfigUpdate cue) = Ok {| cu_ChannelId := ch; cu_ReadSet := Some R; cu_WriteSet := Some W |} →
       ConfigUpdateEnvelopeAsSignedData (Some cue) = Ok sd →
       (∀ c w, element [ns] o c → element [ns] W w → fqPath w = fqPath c → version w ≠ version c → authorised vi sd c) →
       ∃ ce g', proposeConfigUpdate vi env = Ok ce ∧
         cenv_Config ce = Some {| cfg_Sequence := u64 (cfg_Sequence original + 1); cfg_ChannelGroup := Some g' |} ∧ strip_versions g' = strip_versions u).
Proof.
  intros Ho Hu. unfold Compute. rewrite Ho, Hu. destruct (computeGroupUpdate_total (group_size u) o u) as (R & W & b & Hc); [done|]. rewrite Hc, bind_Ok_eq. split.
  - intros Hst. rewrite (same_no_change _ _ _ _ _ _ Hc Hst). by eexists.
  - intros Hst. destruct b; [|by apply same_content in Hc]. exists R, W. split; [done|]. intros ch ns pm vi env cue sd Hvi Hun Hmod Henv Hupd Hsd Hauth.
    assert (ch = vi_channelID vi) as Hch by (apply NewValidatorImpl_spec in Hvi as (? & ? & _ & _ & _ & ->); done).
    apply NewValidatorImpl_inv in Hvi as (g & Hg & Hof & -> & Hseq). rewrite Ho in Hg. injection Hg as <-.
    assert (names_ok [vi_namespace vi] R) as HRn by (eapply names_ok_slots; [apply Hof|]; intros c Hx; destruct (read_elements _ _ _ _ _ _ [] _ c Hc Hx) as (c' & ? & ? & _); eauto).
    assert (names_ok [vi_namespace vi] W) as HWn by (eapply names_ok_slots; [exact Hun|]; intros c Hx; by eapply (write_elements _ _ _ _ _ _ [])).
    destruct (recurseConfig_total R [] (vi_namespace vi) ∅ HRn) as [rs HR], (recurseConfig_total W [] (vi_namespace vi) ∅ HWn) as [ws HW].
    apply (mapConfig_spec (vi_namespace vi) R rs) in HR. apply (mapConfig_spec (vi_namespace vi) W ws) in HW.
    pose proof (computed_accepted vi o u R W rs ws cue ch sd Hof Hch Hc HR HW Hun Hmod Hupd Hsd Hauth) as Hacc.
    destruct (update_built (computeDeltaSet rs ws ∪ vi_configMap vi) _ _ _ _ _ _ [] (vi_namespace vi) Hc) as (g' & Hb & Hg').
    + split.
      * intros c Hd. apply lookup_union_Some_l. by apply (delta_lookup _ _ _ _ _ _ _ HR HW).
      * intros c Hcel Hno. rewrite lookup_union_r; [by apply Hof|]. apply eq_None_not_Some. intros [w [Hd Hk]%(delta_lookup _ _ _ _ _ _ _ HR HW)].
        apply (Hno w Hd). pose proof Hd as [Hw _]. by eapply fqPath_slot; [exact HWn|apply Hof|..].
    + intros c Hcu Hempty. apply Hmod in Hcu. by rewrite Hempty in Hcu.
    + eexists _, g'. split; [apply proposeConfigUpdate_spec; by exists cue, rs, ws, sd, g'|]. cbn. by rewrite Hseq.
Qed.
End computed.
