(* ===== verification/ConfigSamples.v ===== *)
(** * A sample channel configuration

  A configuration with an application group, policies of a provider that wants
  one signature, and codecs that carry a computed update or one that adds a
  value without touching its group. The theorems about configuration updates
  are applied to it. *)

From S2P Require Import Prelude Separated Proto Block BlockVerify ConfigTree ConfigUpdate ConfigSafety PolicyManagers ConfigCompute.
From stdpp Require Import options.
Local Open Scope Z_scope.
Set Default Proof Using "Type*".

Definition root_name : bytes := B "Channel".
Definition admins : bytes := B "Admins".
Definition signed_policy (v : Z) : ConfigPolicy := {| cp_Version := v; cp_Policy := Some {| pol_Type := 1; pol_Value := B "sig" |}; cp_ModPolicy := admins |}.
Definition sample_value (v : Z) (x : bytes) : ConfigValue := {| cv_Version := v; cv_Value := x; cv_ModPolicy := B "/Channel/Admins" |}.
Definition application (values : gmap bytes ConfigValue) : ConfigGroup := mkConfigGroup 0 ∅ values {[admins := signed_policy 0]} admins.
Definition channel (v : Z) (app values : gmap bytes ConfigValue) : ConfigGroup :=
  mkConfigGroup v {[B "Application" := application app]} values {[admins := signed_policy 0]} admins.
Definition original_group : ConfigGroup := channel 0 ∅ {[B "BatchSize" := sample_value 3 (B "10")]}.
Definition wanted_group : ConfigGroup := channel 0 {[B "ACLs" := sample_value 0 (B "acl")]} {[B "BatchSize" := sample_value 0 (B "20")]}.
Definition original_config : Config := {| cfg_Sequence := 7; cfg_ChannelGroup := Some original_group |}.
Definition wanted_config : Config := {| cfg_Sequence := 0; cfg_ChannelGroup := Some wanted_group |}.
(** A new value, while the version of its group stays. *)
Definition stray_update : ConfigUpdate := {| cu_ChannelId := B "ch"; cu_ReadSet := Some (mkConfigGroup 0 ∅ ∅ ∅ []);
  cu_WriteSet := Some (mkConfigGroup 0 ∅ {[B "Stray" := sample_value 0 (B "x")]} ∅ []) |}.

(** One signature is enough. *)
Definition one_signature : PolicyFn := λ sd, match sd with [] => Err "signature set did not satisfy policy" | _ => Ok () end.
Definition sample_providers : gmap Z (bytes → res PolicyFn) := {[1 := λ _, Ok one_signature]}.
#[local] Instance no_implicit_meta : ProtoMessage ImplicitMetaPolicyMsg := {| Marshal _ := Err "no codec"; Unmarshal _ := Err "no codec" |}.
#[local] Instance sample_cfg_payload : ProtoMessage Payload := {| Marshal _ := Err "no codec";
  Unmarshal b := Ok {| pl_Header := Some {| hdr_ChannelHeader := []; hdr_SignatureHeader := [] |}; pl_Data := b |} |}.
#[local] Instance sample_cfg_chdr : ProtoMessage ChannelHeader := {| Marshal _ := Err "no codec";
  Unmarshal _ := Ok {| chdr_Type := HeaderType_CONFIG_UPDATE; chdr_ChannelId := B "ch"; chdr_TxId := []; chdr_Timestamp := None; chdr_TlsCertHash := []; chdr_ShardId := 0; chdr_OrgsInvolved := [] |} |}.
#[local] Instance sample_cfg_shdr : ProtoMessage SignatureHeader := {| Marshal _ := Err "no codec"; Unmarshal b := Ok {| sh_Creator := b; sh_Nonce := [] |} |}.
#[local] Instance sample_cfg_cue : ProtoMessage ConfigUpdateEnvelope := {| Marshal _ := Err "no codec";
  Unmarshal b := Ok {| cue_ConfigUpdate := b; cue_Signatures := [{| csig_SignatureHeader := B "admin"; csig_Signature := B "sig" |}] |} |}.
#[local] Instance sample_cfg_update : ProtoMessage ConfigUpdate := {| Marshal _ := Err "no codec";
  Unmarshal b := if decide (b = B "stray") then Ok stray_update
                 else u ← Compute original_config wanted_config; Ok {| cu_ChannelId := B "ch"; cu_ReadSet := cu_ReadSet u; cu_WriteSet := cu_WriteSet u |} |}.

Definition no_manager : ManagerImpl := mkManagerImpl [] ∅ ∅.
Definition sample_policies (c : Config) : ManagerImpl :=
  match cfg_ChannelGroup c with Some g => result (NewManagerImpl sample_providers root_name g) no_manager | None => no_manager end.
Definition no_validator : ValidatorImpl (M := ManagerImpl) :=
  {| vi_channelID := []; vi_sequence := 0; vi_configMap := ∅; vi_configProto := original_config; vi_namespace := []; vi_pm := no_manager |}.
Definition sample_validator (c : Config) : ValidatorImpl (M := ManagerImpl) := result (NewValidatorImpl (B "ch") (Some c) root_name (sample_policies c)) no_validator.
Definition sample_envelope (data : bytes) : option Envelope := Some {| env_Payload := data; env_Signature := []; env_Type := 0; env_LeanEnv := None |}.
Definition no_proposal : ConfigEnvelope := {| cenv_Config := None; cenv_LastUpdate := None |}.
Definition sample_proposal (c : Config) (data : bytes) : ConfigEnvelope := result (proposeConfigUpdate (sample_validator c) (sample_envelope data)) no_proposal.
Definition proposed_config (c : Config) (data : bytes) : Config := default c (cenv_Config (sample_proposal c data)).
Definition sample_signed (cue : ConfigUpdateEnvelope) : list SignedData := result (ConfigUpdateEnvelopeAsSignedData (Some cue)) [].

Lemma sample_validator_ok : NewValidatorImpl (B "ch") (Some original_config) root_name (sample_policies original_config) = Ok (sample_validator original_config).
Proof. apply result_Ok. by vm_compute. Qed.
Lemma sample_managers_ok : NewManagerImpl sample_providers root_name original_group = Ok (vi_pm (sample_validator original_config)).
Proof.
  destruct (proj1 (NewValidatorImpl_spec _ _ _ _ _) sample_validator_ok) as (g & m & _ & _ & _ & ->). cbn [vi_pm]. apply result_Ok. by vm_compute.
Qed.
Lemma sample_proposal_ok data : data = B "stray" ∨ data = B "computed" →
  proposeConfigUpdate (sample_validator original_config) (sample_envelope data) = Ok (sample_proposal original_config data).
Proof. intros [-> | ->]; apply result_Ok; by vm_compute. Qed.
Lemma proposed_ok data : data = B "stray" ∨ data = B "computed" → cenv_Config (sample_proposal original_config data) = Some (proposed_config original_config data).
Proof.
  intros Hd. destruct (proj1 (proposeConfigUpdate_spec _ _ _) (sample_proposal_ok _ Hd)) as (? & ? & ? & ? & ? & _ & _ & _ & He).
  unfold proposed_config. by rewrite He.
Qed.

(** A property of the elements of a group is checked on its map. *)
Lemma all_elements (check : comparable → bool) root g :
  match mapConfig (Some g) root with Ok m => forallb (λ x, check x.2) (map_to_list m) | _ => false end = true →
  names_ok [root] g ∧ ∀ c, element [root] g c → check c = true.
Proof.
  destruct (mapConfig (Some g) root) as [m| |] eqn:Hm; [|done..]. apply mapConfig_spec in Hm as [Hok Hm]. intros Hall. split; [done|]. intros c Hc.
  rewrite forallb_forall in Hall. apply (Hall (fqPath c, c)). apply list_elem_of_In, elem_of_map_to_list. by apply Hm.
Qed.
Definition is_authorised (sd : list SignedData) (c : comparable) : bool :=
  match policyForItem (P := PolicyFn) (sample_validator original_config) c with Ok (Some policy) => is_ok (policy sd) | _ => false end.
Lemma is_authorised_spec sd c : is_authorised sd c = true → authorised (sample_validator original_config) sd c.
Proof.
  unfold is_authorised, authorised. destruct (policyForItem _ c) as [[policy|]| |]; [|done..]. intros Hp. exists policy. split; [done|].
  cbn [pm_EvaluateSignedData ManagerImpl_PolicyManager]. by destruct (policy sd) as [[]| |].
Qed.
Lemma unit_ok (r : res unit) : is_ok r = true → r = Ok ().
Proof. by destruct r as [[]| |]. Qed.

(** ** The theorems at the sample *)

Lemma config_update_authorised_witness : ∃ g', cenv_Config (sample_proposal original_config (B "computed")) = Some {| cfg_Sequence := 8; cfg_ChannelGroup := Some g' |}.
Proof.
  destruct (config_update_authorised _ _ _ _ _ _ _ sample_validator_ok (sample_proposal_ok (B "computed") (or_intror eq_refl))) as (g & g' & cue & sd & _ & He & _).
  exists g'. exact He.
Defined.
Lemma sample_config_run : config_run (B "ch") root_name sample_policies original_config 1 (proposed_config original_config (B "computed")).
Proof.
  eapply run_update; [apply run_start|exact sample_validator_ok|exact (sample_proposal_ok _ (or_intror eq_refl))|exact (proposed_ok _ (or_intror eq_refl))].
Qed.
Lemma config_stays_valid_witness : cfg_Sequence (proposed_config original_config (B "computed")) = 8.
Proof.
  refine (proj2 (proj2 (config_stays_valid _ _ _ _ 1 _ _ _ sample_validator_ok sample_config_run _))). by split.
Defined.
Lemma config_update_no_replay_witness : cfg_ChannelGroup (proposed_config original_config (B "stray")) = Some original_group ∨
  cfg_ChannelGroup (proposed_config original_config (B "stray")) = Some (fix_tree original_group).
Proof.
  set (c := proposed_config original_config (B "stray")).
  assert (H1 : NewValidatorImpl (B "ch") (Some c) root_name (sample_policies c) = Ok (sample_validator c)) by (apply result_Ok; by vm_compute).
  assert (H2 : proposeConfigUpdate (sample_validator c) (sample_envelope (B "stray")) = Ok (sample_proposal c (B "stray"))) by (apply result_Ok; by vm_compute).
  exact (config_update_no_replay _ _ _ _ _ _ _ _ _ _ _ sample_validator_ok (sample_proposal_ok _ (or_introl eq_refl)) (proposed_ok _ (or_introl eq_refl)) H1 H2).
Defined.
Lemma mod_policy_resolved_witness : ∃ l h m, [root_name] = root_name :: l ∧ sub_group original_group l = Some h ∧
  NewManagerImpl sample_providers (root_name ++ slashed l) h = Ok m ∧
  policyForItem (P := PolicyFn) (sample_validator original_config) (group_element root_name [] original_group) = group_policy sample_providers h m admins.
Proof.
  refine (proj1 (mod_policy_resolved sample_providers _ _ _ (group_element root_name [] original_group) sample_managers_ok _ _) _).
  - apply (all_elements (λ _, true)). by vm_compute.
  - apply (element_root root_name []).
  - apply validateConfigID_spec. by vm_compute.
Defined.
(** A value whose modification policy is the path of the root group. *)
Definition locked_value : comparable := value_element (B "BatchSize") [root_name] {| cv_Version := 0; cv_Value := []; cv_ModPolicy := B "/Channel" |}.
Lemma root_mod_policy_panics_witness : validateModPolicy (B "/Channel") = Ok () ∧ policyForItem (P := PolicyFn) (sample_validator original_config) locked_value = Panic.
Proof.
  destruct (root_mod_policy_panics (sample_validator original_config) locked_value) as (H1 & H2 & _).
  - apply validateConfigID_spec. by vm_compute.
  - by vm_compute.
  - by split.
Defined.
Lemma computed_update_applies_witness : ∃ ce g', proposeConfigUpdate (sample_validator original_config) (sample_envelope (B "computed")) = Ok ce ∧
  cenv_Config ce = Some {| cfg_Sequence := 8; cfg_ChannelGroup := Some g' |} ∧ strip_versions g' = strip_versions wanted_group.
Proof.
  destruct (proj2 (computed_update_applies (M := ManagerImpl) (P := PolicyFn) original_config wanted_config original_group wanted_group eq_refl eq_refl)) as (R & W & Hc & Happ).
  { intros He. apply (f_equal (λ g, cv_Value <$> cgr_Values g !! B "BatchSize")) in He. by vm_compute in He. }
  set (cue := {| cue_ConfigUpdate := B "computed"; cue_Signatures := [{| csig_SignatureHeader := B "admin"; csig_Signature := B "sig" |}] |}).
  apply (Happ (B "ch") root_name (sample_policies original_config) (sample_validator original_config) (sample_envelope (B "computed")) cue (sample_signed cue)).
  - exact sample_validator_ok.
  - apply (all_elements (λ _, true)). by vm_compute.
  - intros c Hel. apply unit_ok. revert c Hel. apply (all_elements (λ c, is_ok (validateModPolicy (modPolicy c))) root_name wanted_group). by vm_compute.
  - done.
  - change (Unmarshal (cue_ConfigUpdate cue)) with (u ← Compute original_config wanted_config; Ok {| cu_ChannelId := B "ch"; cu_ReadSet := cu_ReadSet u; cu_WriteSet := cu_WriteSet u |}).
    by rewrite Hc.
  - apply result_Ok. by vm_compute.
  - intros c w Hel _ _ _. apply is_authorised_spec. revert c Hel. apply (all_elements (is_authorised (sample_signed cue)) root_name original_group). by vm_compute.
Defined.
