(* ===== verification/Simulator.v ===== *)
(** * Simulation of transactions

  Models core/ledger/kvledger/txmgmt/txmgr/query_executor.go, tx_simulator.go and
  collection_val.go: the executor that answers the reads of a chaincode from the
  committed state and records them, the simulator that collects its writes, and
  the read-write set that comes out of it.

  While a simulator is in use it holds the read lock of the transaction manager,
  so the database does not change: it is a parameter. An operation that returns
  an error may have changed the simulator; operations are functions from a
  simulator to a result and the new simulator. The builder is shared by the
  executor and the simulator. Scans with pagination and rich queries are
  operations of the database, the class [QueryDB]; LevelDB has no rich queries. *)

From S2P Require Import Prelude SortedMap Version StateDB Proto Rwset RwsetBuilder Merkle LevelDB StateLevelDB PrivState.
From stdpp Require Import options.
Local Open Scope Z_scope.
Set Default Proof Using "Type*".

(** ** Operations with a state *)

Definition stateful (S A : Type) : Type := S → res A * S.
Definition st_ret {S A} (a : A) : stateful S A := λ s, (Ok a, s).
Definition st_fail {S A} (e : String.string) : stateful S A := λ s, (Err e, s).
Arguments st_fail {S A} e%_string_scope.
Definition st_lift {S A} (m : res A) : stateful S A := λ s, (m, s).
Definition st_get {S} : stateful S S := λ s, (Ok s, s).
Definition st_modify {S} (f : S → S) : stateful S unit := λ s, (Ok (), f s).
Definition st_bind {S A B} (m : stateful S A) (f : A → stateful S B) : stateful S B := λ s,
  match m s with (Ok a, s) => f a s | (Err e, s) => (Err e, s) | (Panic, s) => (Panic, s) end.
Declare Scope stateful_scope.
Delimit Scope stateful_scope with stateful.
Notation "x ⇐ m ; k" := (st_bind m (λ x, k)) (at level 20, m at level 100, k at level 200, right associativity) : stateful_scope.
Notation "m ;; k" := (st_bind m (λ _, k)) (at level 100, k at level 200, right associativity) : stateful_scope.
Local Open Scope stateful_scope.

(** ** State metadata (statemetadata/metadata.go) *)

Definition Deserialize `{!ProtoMessage KVMetadataWrite} (metadataBytes : option bytes) : res (option (gmap bytes bytes)) :=
  match metadataBytes with
  | None => Ok None
  | Some b => metadata ← Unmarshal (A := KVMetadataWrite) b; Ok (Some (foldl (λ m e, <[me_Name e := me_Value e]> m) ∅ (mw_Entries metadata)))
  end.

(** ** Paginated scans and rich queries (statedb.VersionedDB) *)

Class QueryDB (DB I : Type) := {
  GetStateRangeScanIteratorWithPagination : DB → bytes → bytes → bytes → Z → res I;
  ExecuteQuery : DB → bytes → bytes → res I;
  ExecuteQueryWithPagination : DB → bytes → bytes → bytes → Z → res I
}.
Definition versionedDB_ExecuteQuery {L} (vdb : versionedDB L) (namespace query : bytes) : res kvScanner :=
  Err "ExecuteQuery not supported for leveldb".
Definition versionedDB_ExecuteQueryWithPagination {L} (vdb : versionedDB L) (namespace query bookmark : bytes) (pageSize : Z) : res kvScanner :=
  Err "ExecuteQueryWithMetadata not supported for leveldb".
#[export] Instance versionedDB_QueryDB {L} `{!GoLevelDB L} : QueryDB (versionedDB L) kvScanner := {
  GetStateRangeScanIteratorWithPagination := versionedDB_GetStateRangeScanIteratorWithPagination;
  ExecuteQuery := versionedDB_ExecuteQuery;
  ExecuteQueryWithPagination := versionedDB_ExecuteQueryWithPagination
}.

(** ** The executor *)

Definition queryReadsHashingEnabled : bool := true.
Definition maxDegreeQueryReadsHashing : Z := 50.

(** ledger.PrivateReads and ledger.WritesetMetadata *)
Notation PrivateReads := (gmap bytes (gset bytes)).
Definition PrivateReads_Add (pr : PrivateReads) (ns coll : bytes) : PrivateReads := <[ns := {[coll]} ∪ default ∅ (pr !! ns)]> pr.
Notation WritesetMetadata := (gmap bytes (gmap bytes (gmap bytes (gmap bytes bytes)))).
Definition WritesetMetadata_Add (wm : WritesetMetadata) (ns coll key : bytes) (metadata : option (gmap bytes bytes)) : WritesetMetadata :=
  let colls := default ∅ (wm !! ns) in
  <[ns := <[coll := <[key := default ∅ metadata]> (default ∅ (colls !! coll))]> colls]> wm.

(** queryresult.KV *)
Record KV := { qr_Namespace : bytes; qr_Key : bytes; qr_Value : option bytes }.

(** The last three fields are there for a simulation. *)
Record resultsItr (I : Type) := {
  ri_ns : bytes;
  ri_dbItr : I;
  ri_endKey : bytes;
  ri_rangeQueryInfo : RangeQueryInfo;
  ri_rangeQueryResultsHelper : option RangeQueryResultsHelper
}.
Arguments ri_ns {I} r : rename.
Arguments ri_dbItr {I} r : rename.
Arguments ri_endKey {I} r : rename.
Arguments ri_rangeQueryInfo {I} r : rename.
Arguments ri_rangeQueryResultsHelper {I} r : rename.

(** [qe_rwsetBuilder] is there exactly if the read set is collected;
    [qe_cache] is the cache of the validator of collection names. *)
Record queryExecutor (I : Type) := {
  qe_rwsetBuilder : option RWSetBuilder;
  qe_noop : bool;
  qe_cache : gset (bytes * bytes);
  qe_itrs : list (resultsItr I);
  qe_err : option String.string;
  qe_doneInvoked : bool;
  qe_privateReads : PrivateReads
}.
Arguments qe_rwsetBuilder {I} q : rename.
Arguments qe_noop {I} q : rename.
Arguments qe_cache {I} q : rename.
Arguments qe_itrs {I} q : rename.
Arguments qe_err {I} q : rename.
Arguments qe_doneInvoked {I} q : rename.
Arguments qe_privateReads {I} q : rename.

Record txSimulator (I : Type) := {
  ts_queryExecutor : queryExecutor I;
  writePerformed : bool;
  pvtdataQueriesPerformed : bool;
  simulationResultsComputed : bool;
  paginatedQueriesPerformed : bool;
  writesetMetadata : WritesetMetadata
}.
Arguments ts_queryExecutor {I} s : rename.
Arguments writePerformed {I} s : rename.
Arguments pvtdataQueriesPerformed {I} s : rename.
Arguments simulationResultsComputed {I} s : rename.
Arguments paginatedQueriesPerformed {I} s : rename.
Arguments writesetMetadata {I} s : rename.

(** The provider of collection configurations of a chaincode: the calls of
    [GetState] that it makes, and the names of the static collections it finds
    ([None] for a configuration of another kind). *)
Inductive config_query :=
| CollConfigs (r : res (option (list (option bytes))))
| ReadState (ns key : bytes) (k : option bytes → config_query).

Section executor.
Context `{!ProtoMessage KVMetadataWrite, !ProtoMessage QueryReads, !ProtoMessage KVRWSet, !ProtoMessage HashedRWSet, !Sha256}.
Context {DB I L : Type} `{!VersionedDB DB I} `{!QueryDB DB I} `{!GoLevelDB L}.
Context (db : PrivDB DB L) (AllCollectionsConfigPkg : bytes → config_query) (hashFunc : HashFunc).
Notation queryExecutor := (queryExecutor I).
Notation op := (stateful queryExecutor).

Definition newQueryExecutor (rwsetBuilder : option RWSetBuilder) (performCollCheck : bool) : queryExecutor :=
  {| qe_rwsetBuilder := rwsetBuilder; qe_noop := negb performCollCheck; qe_cache := ∅; qe_itrs := []; qe_err := None;
     qe_doneInvoked := false; qe_privateReads := ∅ |}.

(** Changes of one field. *)
Definition on_builder (f : RWSetBuilder → RWSetBuilder) : op unit := st_modify (λ q,
  {| qe_rwsetBuilder := f <$> qe_rwsetBuilder q; qe_noop := qe_noop q; qe_cache := qe_cache q; qe_itrs := qe_itrs q; qe_err := qe_err q;
     qe_doneInvoked := qe_doneInvoked q; qe_privateReads := qe_privateReads q |}).
Definition set_cache (c : gset (bytes * bytes)) : op unit := st_modify (λ q,
  {| qe_rwsetBuilder := qe_rwsetBuilder q; qe_noop := qe_noop q; qe_cache := c; qe_itrs := qe_itrs q; qe_err := qe_err q;
     qe_doneInvoked := qe_doneInvoked q; qe_privateReads := qe_privateReads q |}).
Definition set_itrs (itrs : list (resultsItr I)) : op unit := st_modify (λ q,
  {| qe_rwsetBuilder := qe_rwsetBuilder q; qe_noop := qe_noop q; qe_cache := qe_cache q; qe_itrs := itrs; qe_err := qe_err q;
     qe_doneInvoked := qe_doneInvoked q; qe_privateReads := qe_privateReads q |}).
Definition set_err (e : String.string) : op unit := st_modify (λ q,
  {| qe_rwsetBuilder := qe_rwsetBuilder q; qe_noop := qe_noop q; qe_cache := qe_cache q; qe_itrs := qe_itrs q; qe_err := Some e;
     qe_doneInvoked := qe_doneInvoked q; qe_privateReads := qe_privateReads q |}).
Definition add_private_read (ns coll : bytes) : op unit := st_modify (λ q,
  {| qe_rwsetBuilder := qe_rwsetBuilder q; qe_noop := qe_noop q; qe_cache := qe_cache q; qe_itrs := qe_itrs q; qe_err := qe_err q;
     qe_doneInvoked := qe_doneInvoked q;
     qe_privateReads := match qe_rwsetBuilder q with Some _ => PrivateReads_Add (qe_privateReads q) ns coll | None => qe_privateReads q end |}).

Definition checkDone : op unit := q ⇐ st_get; if qe_doneInvoked q then st_fail "this instance should not be used after calling Done()" else st_ret ().

(** *** Public data *)

Definition decomposeVersionedValue (versionedValue : option VersionedValue) : option bytes * option bytes * option Height :=
  match versionedValue with Some vv => (Value vv, Metadata vv, vv_Version vv) | None => (None, None, None) end.
Definition getState (ns key : bytes) : op (option bytes * option bytes) :=
  checkDone;;
  versionedValue ⇐ st_lift (GetState (pdb_vdb db) ns key);
  let '(val, metadata, ver) := decomposeVersionedValue versionedValue in
  on_builder (λ b, AddToReadSet b ns key ver);;
  st_ret (val, metadata).
Definition queryExecutor_GetState (ns key : bytes) : op (option bytes) := v ⇐ getState ns key; st_ret v.1.
Definition queryExecutor_GetStateMetadata (ns key : bytes) : op (option (gmap bytes bytes)) :=
  checkDone;;
  q ⇐ st_get;
  metadata ⇐ match qe_rwsetBuilder q with
             | None => st_lift (GetStateMetadata db ns key)
             | Some _ => v ⇐ getState ns key; st_ret v.2
             end;
  st_lift (Deserialize metadata).
(** [GetStateMultipleKeys] of the database, a read per key here. An error of the
    database is turned into an answer without values. *)
Definition queryExecutor_GetStateMultipleKeys (ns : bytes) (keys : list bytes) : op (list (option bytes)) :=
  checkDone;;
  match mapM (λ key, GetState (pdb_vdb db) ns key) keys with
  | Panic => st_lift Panic
  | Err _ => st_ret []
  | Ok versionedValues =>
      on_builder (λ b, foldl (λ b kv, AddToReadSet b ns kv.1 (decomposeVersionedValue kv.2).2) b (zip keys versionedValues));;
      st_ret ((λ vv, (decomposeVersionedValue vv).1.1) <$> versionedValues)
  end.

(** *** Names of collections *)

Fixpoint run_config_query (c : config_query) : op (option (list (option bytes))) :=
  match c with
  | CollConfigs r => st_lift r
  | ReadState ns key k => v ⇐ queryExecutor_GetState ns key; run_config_query (k v)
  end.
Definition populate (cache : gset (bytes * bytes)) (ns : bytes) (pkg : list (option bytes)) : gset (bytes * bytes) :=
  foldl (λ cache name, match name with Some name => {[(ns, name)]} ∪ cache | None => cache end) ({[(ns, [])]} ∪ cache) pkg.
Definition retrieveCollConfigFromStateDB (ns : bytes) : op (list (option bytes)) :=
  confPkg ⇐ run_config_query (AllCollectionsConfigPkg ns);
  match confPkg with None => st_fail "collection config not defined for chaincode" | Some pkg => st_ret pkg end.
Definition validateCollName (ns coll : bytes) : op unit :=
  q ⇐ st_get;
  if qe_noop q then st_ret ()
  else
    (if decide ((ns, []) ∈ qe_cache q) then st_ret ()
     else conf ⇐ retrieveCollConfigFromStateDB ns; q ⇐ st_get; set_cache (populate (qe_cache q) ns conf));;
    q ⇐ st_get;
    if decide ((ns, coll) ∈ qe_cache q) then st_ret () else st_fail "collection not defined in the collection config".

(** *** Range queries *)

Definition newResultsItr (ns startKey endKey : bytes) (pageSize : Z) (recording enableHashing : bool) (maxDegree : Z) : res (resultsItr I) :=
  dbItr ← (if decide (pageSize = 0) then GetStateRangeScanIterator (pdb_vdb db) ns startKey endKey
           else GetStateRangeScanIteratorWithPagination (pdb_vdb db) ns startKey endKey pageSize);
  let info := {| StartKey := startKey; EndKey := []; ItrExhausted := false; rqi_ReadsInfo := None |} in
  if recording then
    resultsHelper ← NewRangeQueryResultsHelper enableHashing maxDegree hashFunc;
    Ok {| ri_ns := ns; ri_dbItr := dbItr; ri_endKey := endKey; ri_rangeQueryInfo := info; ri_rangeQueryResultsHelper := Some resultsHelper |}
  else Ok {| ri_ns := ns; ri_dbItr := dbItr; ri_endKey := []; ri_rangeQueryInfo := info; ri_rangeQueryResultsHelper := None |}.
(** The answer is the position of the new iterator in [qe_itrs]. *)
Definition queryExecutor_GetStateRangeScanIteratorWithPagination (ns startKey endKey : bytes) (pageSize : Z) : op nat :=
  checkDone;;
  q ⇐ st_get;
  itr ⇐ st_lift (newResultsItr ns startKey endKey pageSize (bool_decide (is_Some (qe_rwsetBuilder q))) queryReadsHashingEnabled maxDegreeQueryReadsHashing);
  set_itrs (qe_itrs q ++ [itr]);;
  st_ret (length (qe_itrs q)).
Definition queryExecutor_GetStateRangeScanIterator (ns startKey endKey : bytes) : op nat :=
  queryExecutor_GetStateRangeScanIteratorWithPagination ns startKey endKey 0.

Definition updateRangeQueryInfo (itr : resultsItr I) (queryResult : option VersionedKV) : res (resultsItr I) :=
  match ri_rangeQueryResultsHelper itr with
  | None => Ok itr
  | Some helper =>
      let info := ri_rangeQueryInfo itr in
      match queryResult with
      | None =>
          Ok {| ri_ns := ri_ns itr; ri_dbItr := ri_dbItr itr; ri_endKey := ri_endKey itr;
                ri_rangeQueryInfo := {| StartKey := StartKey info; EndKey := ri_endKey itr; ItrExhausted := true; rqi_ReadsInfo := rqi_ReadsInfo info |};
                ri_rangeQueryResultsHelper := Some helper |}
      | Some kv =>
          helper ← AddResult helper (NewKVRead (Key kv) (vv_Version kv));
          Ok {| ri_ns := ri_ns itr; ri_dbItr := ri_dbItr itr; ri_endKey := ri_endKey itr;
                ri_rangeQueryInfo := {| StartKey := StartKey info; EndKey := Key kv; ItrExhausted := ItrExhausted info; rqi_ReadsInfo := rqi_ReadsInfo info |};
                ri_rangeQueryResultsHelper := Some helper |}
      end
  end.
(** [Next] moves the iterator of the database even if recording the result fails. *)
Definition resultsItr_Next (itr : resultsItr I) : res (option KV) * resultsItr I :=
  match Next (ri_dbItr itr) with
  | Panic => (Panic, itr)
  | Err e => (Err e, itr)
  | Ok (queryResult, dbItr) =>
      let itr := {| ri_ns := ri_ns itr; ri_dbItr := dbItr; ri_endKey := ri_endKey itr; ri_rangeQueryInfo := ri_rangeQueryInfo itr;
                    ri_rangeQueryResultsHelper := ri_rangeQueryResultsHelper itr |} in
      match updateRangeQueryInfo itr queryResult with
      | Panic => (Panic, itr)
      | Err e => (Err e, itr)
      | Ok itr => (Ok (match queryResult with
                       | None => None
                       | Some kv => Some {| qr_Namespace := Namespace kv; qr_Key := Key kv; qr_Value := Value kv |}
                       end), itr)
      end
  end.
(** [Next] of an iterator that the executor has handed out. *)
Definition itr_Next (i : nat) : op (option KV) :=
  q ⇐ st_get;
  itr ⇐ st_lift (index (qe_itrs q) i);
  let '(r, itr) := resultsItr_Next itr in
  set_itrs (<[i := itr]> (qe_itrs q));;
  st_lift r.

(** *** Rich queries

    The iterator of the database is handed out; its results go to the read set
    one by one, the query itself is not recorded. *)

Definition queryExecutor_ExecuteQuery (namespace query : bytes) : op I :=
  checkDone;;
  st_lift (ExecuteQuery (pdb_vdb db) namespace query).
Definition queryExecutor_ExecuteQueryWithPagination (namespace query bookmark : bytes) (pageSize : Z) : op I :=
  checkDone;;
  st_lift (ExecuteQueryWithPagination (pdb_vdb db) namespace query bookmark pageSize).
Definition queryResultsItr_Next (dbItr : I) : op (option KV * I) :=
  next ⇐ st_lift (Next dbItr);
  match next.1 with
  | None => st_ret (None, next.2)
  | Some queryResult =>
      on_builder (λ b, AddToReadSet b (Namespace queryResult) (Key queryResult) (vv_Version queryResult));;
      st_ret (Some {| qr_Namespace := Namespace queryResult; qr_Key := Key queryResult; qr_Value := Value queryResult |}, next.2)
  end.

(** *** Private data *)

Definition queryExecutor_GetPrivateData (ns coll key : bytes) : op (option bytes) :=
  validateCollName ns coll;;
  checkDone;;
  versionedValue ⇐ st_lift (GetPrivateData db ns coll key);
  let '(val, _, ver) := decomposeVersionedValue versionedValue in
  hashVersion ⇐ st_lift (GetKeyHashVersion db ns coll (ComputeStringHash key));
  if negb (AreSame hashVersion ver) then st_fail "private data matching public hash version is not available"
  else
    on_builder (λ b, AddToHashedReadSet b ns coll key ver);;
    add_private_read ns coll;;
    st_ret val.
Definition queryExecutor_GetPrivateDataHash (ns coll key : bytes) : op (option bytes) :=
  validateCollName ns coll;;
  checkDone;;
  versionedValue ⇐ st_lift (GetPrivateDataHash db ns coll key);
  let '(valHash, _, ver) := decomposeVersionedValue versionedValue in
  on_builder (λ b, AddToHashedReadSet b ns coll key ver);;
  st_ret valHash.
Definition getPrivateDataValueHash (ns coll key : bytes) : op (option bytes * option bytes) :=
  validateCollName ns coll;;
  checkDone;;
  versionedValue ⇐ st_lift (GetPrivateDataHash db ns coll key);
  let '(valHash, metadata, ver) := decomposeVersionedValue versionedValue in
  on_builder (λ b, AddToHashedReadSet b ns coll key ver);;
  st_ret (valHash, metadata).
Definition getPrivateDataMetadataByHash (ns coll keyhash : bytes) : op (option (gmap bytes bytes)) :=
  validateCollName ns coll;;
  checkDone;;
  q ⇐ st_get;
  match qe_rwsetBuilder q with
  | Some _ => st_fail "retrieving private data metadata by keyhash is not supported in simulation"
  | None => metadataBytes ⇐ st_lift (GetPrivateDataMetadataByHash db ns coll keyhash); st_lift (Deserialize metadataBytes)
  end.
Definition queryExecutor_GetPrivateDataMetadata (ns coll key : bytes) : op (option (gmap bytes bytes)) :=
  q ⇐ st_get;
  match qe_rwsetBuilder q with
  | None => getPrivateDataMetadataByHash ns coll (ComputeStringHash key)
  | Some _ =>
      validateCollName ns coll;;
      checkDone;;
      v ⇐ getPrivateDataValueHash ns coll key;
      st_lift (Deserialize v.2)
  end.
(** Unlike [GetPrivateData] this does not compare the versions of the values with
    the versions of their hashes, and an error of the database is dropped. *)
Definition queryExecutor_GetPrivateDataMultipleKeys (ns coll : bytes) (keys : list bytes) : op (list (option bytes)) :=
  validateCollName ns coll;;
  checkDone;;
  match mapM (λ key, GetPrivateData db ns coll key) keys with
  | Panic => st_lift Panic
  | Err _ => st_ret []
  | Ok versionedValues =>
      on_builder (λ b, foldl (λ b kv, AddToHashedReadSet b ns coll kv.1 (decomposeVersionedValue kv.2).2) b (zip keys versionedValues));;
      (if decide (keys = []) then st_ret () else add_private_read ns coll);;
      st_ret ((λ vv, (decomposeVersionedValue vv).1.1) <$> versionedValues)
  end.
(** The iterator of the database; its results are not recorded. *)
Definition queryExecutor_GetPrivateDataRangeScanIterator (ns coll startKey endKey : bytes) : op I :=
  validateCollName ns coll;;
  checkDone;;
  st_lift (GetPrivateDataRangeScanIterator db ns coll startKey endKey).
Definition queryExecutor_ExecuteQueryOnPrivateData (ns coll query : bytes) : op I :=
  validateCollName ns coll;;
  checkDone;;
  st_lift (ExecuteQuery (pdb_vdb db) (derivePvtDataNs ns coll) query).
Definition pvtdataResultsItr_Next (ns : bytes) (dbItr : I) : res (option KV * I) :=
  match Next dbItr with
  | Panic => Panic
  | Err e => Err e
  | Ok (None, dbItr) => Ok (None, dbItr)
  | Ok (Some queryResult, dbItr) => Ok (Some {| qr_Namespace := ns; qr_Key := Key queryResult; qr_Value := Value queryResult |}, dbItr)
  end.

(** *** The end *)

Definition Done : op unit := st_modify (λ q,
  {| qe_rwsetBuilder := qe_rwsetBuilder q; qe_noop := qe_noop q; qe_cache := qe_cache q; qe_itrs := qe_itrs q; qe_err := qe_err q;
     qe_doneInvoked := true; qe_privateReads := qe_privateReads q |}).

(** The information recorded for an iterator. *)
Definition finished_info (itr : resultsItr I) : res RangeQueryInfo :=
  helper ← deref (ri_rangeQueryResultsHelper itr);
  '(results, hash) ← Helper_Done helper;
  let info := ri_rangeQueryInfo itr in
  let info := if decide (results = []) then info else SetRawReads info results in
  Ok (match hash with None => info | Some _ => SetMerkelSummary info hash end).
(** An error ends the loop; it is kept in the executor. *)
Fixpoint addRangeQueryInfo_loop (itrs : list (resultsItr I)) : op unit :=
  match itrs with
  | [] => st_ret ()
  | itr :: itrs =>
      match finished_info itr with
      | Panic => st_lift Panic
      | Err e => set_err e
      | Ok info => on_builder (λ b, AddToRangeQuerySet b (ri_ns itr) info);; addRangeQueryInfo_loop itrs
      end
  end.
Definition addRangeQueryInfo : op unit :=
  q ⇐ st_get;
  match qe_rwsetBuilder q with None => st_ret () | Some _ => addRangeQueryInfo_loop (qe_itrs q) end.

(** ** The simulator *)

Notation txSimulator := (txSimulator I).
Notation sim_op := (stateful txSimulator).

Definition newTxSimulator : txSimulator :=
  {| ts_queryExecutor := newQueryExecutor (Some NewRWSetBuilder) true; writePerformed := false; pvtdataQueriesPerformed := false;
     simulationResultsComputed := false; paginatedQueriesPerformed := false; writesetMetadata := ∅ |}.

(** The executor embedded in the simulator. *)
Definition on_executor {A} (m : op A) : sim_op A := λ s,
  let '(r, q) := m (ts_queryExecutor s) in
  (r, {| ts_queryExecutor := q; writePerformed := writePerformed s; pvtdataQueriesPerformed := pvtdataQueriesPerformed s;
         simulationResultsComputed := simulationResultsComputed s; paginatedQueriesPerformed := paginatedQueriesPerformed s; writesetMetadata := writesetMetadata s |}).
Definition set_writePerformed : sim_op unit := st_modify (λ s,
  {| ts_queryExecutor := ts_queryExecutor s; writePerformed := true; pvtdataQueriesPerformed := pvtdataQueriesPerformed s;
     simulationResultsComputed := simulationResultsComputed s; paginatedQueriesPerformed := paginatedQueriesPerformed s; writesetMetadata := writesetMetadata s |}).
Definition set_pvtdataQueriesPerformed : sim_op unit := st_modify (λ s,
  {| ts_queryExecutor := ts_queryExecutor s; writePerformed := writePerformed s; pvtdataQueriesPerformed := true;
     simulationResultsComputed := simulationResultsComputed s; paginatedQueriesPerformed := paginatedQueriesPerformed s; writesetMetadata := writesetMetadata s |}).
Definition set_paginatedQueriesPerformed : sim_op unit := st_modify (λ s,
  {| ts_queryExecutor := ts_queryExecutor s; writePerformed := writePerformed s; pvtdataQueriesPerformed := pvtdataQueriesPerformed s;
     simulationResultsComputed := simulationResultsComputed s; paginatedQueriesPerformed := true; writesetMetadata := writesetMetadata s |}).
Definition set_resultsComputed : sim_op unit := st_modify (λ s,
  {| ts_queryExecutor := ts_queryExecutor s; writePerformed := writePerformed s; pvtdataQueriesPerformed := pvtdataQueriesPerformed s;
     simulationResultsComputed := true; paginatedQueriesPerformed := paginatedQueriesPerformed s; writesetMetadata := writesetMetadata s |}).
Definition add_writesetMetadata (ns coll key : bytes) (metadata : option (gmap bytes bytes)) : sim_op unit := st_modify (λ s,
  {| ts_queryExecutor := ts_queryExecutor s; writePerformed := writePerformed s; pvtdataQueriesPerformed := pvtdataQueriesPerformed s;
     simulationResultsComputed := simulationResultsComputed s; paginatedQueriesPerformed := paginatedQueriesPerformed s; writesetMetadata := WritesetMetadata_Add (writesetMetadata s) ns coll key metadata |}).

Definition checkPvtdataQueryPerformed : sim_op unit :=
  s ⇐ st_get; if pvtdataQueriesPerformed s then st_fail "Transaction has already performed queries on pvt data. Writes are not allowed" else st_ret ().
Definition checkPaginatedQueryPerformed : sim_op unit :=
  s ⇐ st_get; if paginatedQueriesPerformed s then st_fail "Transaction has already performed a paginated query. Writes are not allowed" else st_ret ().
Definition checkWritePrecondition (key : bytes) (value : option bytes) : sim_op unit :=
  on_executor checkDone;;
  checkPvtdataQueryPerformed;;
  checkPaginatedQueryPerformed;;
  set_writePerformed;;
  st_lift (ValidateKeyValue (pdb_vdb db) key value).
Definition checkBeforePvtdataQueries : sim_op unit :=
  s ⇐ st_get;
  if writePerformed s then st_fail "Queries on pvt data is supported only in a read-only transaction" else set_pvtdataQueriesPerformed.
Definition checkBeforePaginatedQueries : sim_op unit :=
  s ⇐ st_get;
  if writePerformed s then st_fail "Paginated queries are supported only in a read-only transaction" else set_paginatedQueriesPerformed.

Definition checkStateMetadata (ns key : bytes) : sim_op unit :=
  metabytes ⇐ st_lift (GetStateMetadata db ns key);
  metadata ⇐ st_lift (Deserialize metabytes);
  add_writesetMetadata ns [] key metadata.
Definition checkPrivateStateMetadata (ns coll key : bytes) : sim_op unit :=
  metabytes ⇐ st_lift (GetPrivateDataMetadataByHash db ns coll (ComputeStringHash key));
  metadata ⇐ st_lift (Deserialize metabytes);
  add_writesetMetadata ns coll key metadata.

Definition SetState (ns key : bytes) (value : option bytes) : sim_op unit :=
  checkWritePrecondition key value;;
  on_executor (on_builder (λ b, AddToWriteSet b ns key value));;
  checkStateMetadata ns key.
Definition DeleteState (ns key : bytes) : sim_op unit := SetState ns key None.
Definition SetStateMetadata (ns key : bytes) (metadata : gmap bytes bytes) : sim_op unit :=
  checkWritePrecondition key None;;
  on_executor (on_builder (λ b, AddToMetadataWriteSet b ns key metadata));;
  checkStateMetadata ns key.
Definition SetPrivateData (ns coll key : bytes) (value : option bytes) : sim_op unit :=
  on_executor (validateCollName ns coll);;
  checkWritePrecondition key value;;
  set_writePerformed;;
  on_executor (on_builder (λ b, AddToPvtAndHashedWriteSet b ns coll key value));;
  checkPrivateStateMetadata ns coll key.
Definition DeletePrivateData (ns coll key : bytes) : sim_op unit := SetPrivateData ns coll key None.
Definition PurgePrivateData (ns coll key : bytes) : sim_op unit :=
  on_executor (validateCollName ns coll);;
  checkWritePrecondition key None;;
  set_writePerformed;;
  on_executor (on_builder (λ b, AddToPvtAndHashedWriteSetForPurge b ns coll key));;
  checkPrivateStateMetadata ns coll key.
Definition SetPrivateDataMetadata (ns coll key : bytes) (metadata : gmap bytes bytes) : sim_op unit :=
  on_executor (validateCollName ns coll);;
  checkWritePrecondition key None;;
  on_executor (on_builder (λ b, AddToHashedMetadataWriteSet b ns coll key metadata));;
  checkPrivateStateMetadata ns coll key.
Definition txSimulator_GetPrivateDataRangeScanIterator (ns coll startKey endKey : bytes) : sim_op I :=
  checkBeforePvtdataQueries;;
  on_executor (queryExecutor_GetPrivateDataRangeScanIterator ns coll startKey endKey).
Definition txSimulator_ExecuteQueryOnPrivateData (ns coll query : bytes) : sim_op I :=
  checkBeforePvtdataQueries;;
  on_executor (queryExecutor_ExecuteQueryOnPrivateData ns coll query).
Definition txSimulator_GetStateRangeScanIteratorWithPagination (ns startKey endKey : bytes) (pageSize : Z) : sim_op nat :=
  checkBeforePaginatedQueries;;
  on_executor (queryExecutor_GetStateRangeScanIteratorWithPagination ns startKey endKey pageSize).
Definition txSimulator_ExecuteQueryWithPagination (namespace query bookmark : bytes) (pageSize : Z) : sim_op I :=
  checkBeforePaginatedQueries;;
  on_executor (queryExecutor_ExecuteQueryWithPagination namespace query bookmark pageSize).
Definition DeleteStateMetadata (ns key : bytes) : sim_op unit := SetStateMetadata ns key ∅.
Definition DeletePrivateDataMetadata (ns coll key : bytes) : sim_op unit := SetPrivateDataMetadata ns coll key ∅.
Definition ExecuteUpdate (query : bytes) : sim_op unit := st_fail "not supported".
(** The loops over the maps of keys and values; they stop at the first error. *)
Fixpoint for_kvs (f : bytes → option bytes → sim_op unit) (kvs : list (bytes * option bytes)) : sim_op unit :=
  match kvs with [] => st_ret () | (k, v) :: kvs => f k v;; for_kvs f kvs end.
Definition SetStateMultipleKeys (ns : bytes) (kvs : gmap bytes (option bytes)) : sim_op unit := for_kvs (SetState ns) (map_to_list kvs).
Definition SetPrivateDataMultipleKeys (ns coll : bytes) (kvs : gmap bytes (option bytes)) : sim_op unit := for_kvs (SetPrivateData ns coll) (map_to_list kvs).

(** The read-write set with the reads of private data and the metadata of the
    written keys. *)
Definition txSimulator_GetTxSimulationResults : sim_op (TxSimulationResults * PrivateReads * WritesetMetadata) :=
  s ⇐ st_get;
  if simulationResultsComputed s then st_fail "this function should only be called once on a transaction simulator instance"
  else
    set_resultsComputed;;
    match qe_err (ts_queryExecutor s) with
    | Some e => st_lift (Err e)
    | None =>
        on_executor addRangeQueryInfo;;
        s ⇐ st_get;
        b ⇐ st_lift (deref (qe_rwsetBuilder (ts_queryExecutor s)));
        results ⇐ st_lift (GetTxSimulationResults b);
        on_executor (on_builder (λ _, results.2));;
        st_ret (results.1, qe_privateReads (ts_queryExecutor s), writesetMetadata s)
    end.

(** ** Chaincodes

    A chaincode as the simulator sees it: a deterministic program that calls the
    simulator and goes on with the answers, errors included. *)

Inductive call :=
| CGetState (ns key : bytes)
| CGetStateMetadata (ns key : bytes)
| CGetStateMultipleKeys (ns : bytes) (keys : list bytes)
| CRangeScan (ns startKey endKey : bytes)
| CNext (itr : nat)
| CGetPrivateData (ns coll key : bytes)
| CGetPrivateDataHash (ns coll key : bytes)
| CGetPrivateDataMetadata (ns coll key : bytes)
| CSetState (ns key : bytes) (value : option bytes)
| CSetStateMetadata (ns key : bytes) (metadata : gmap bytes bytes)
| CSetPrivateData (ns coll key : bytes) (value : option bytes)
| CPurgePrivateData (ns coll key : bytes)
| CSetPrivateDataMetadata (ns coll key : bytes) (metadata : gmap bytes bytes).
Inductive answer :=
| AUnit
| AValue (value : option bytes)
| AValues (values : list (option bytes))
| AMetadata (metadata : option (gmap bytes bytes))
| AItr (itr : nat)
| AResult (kv : option KV).

Definition st_map {S A B} (f : A → B) (m : stateful S A) : stateful S B := a ⇐ m; st_ret (f a).
Definition do_call (c : call) : sim_op answer :=
  match c with
  | CGetState ns key => st_map AValue (on_executor (queryExecutor_GetState ns key))
  | CGetStateMetadata ns key => st_map AMetadata (on_executor (queryExecutor_GetStateMetadata ns key))
  | CGetStateMultipleKeys ns keys => st_map AValues (on_executor (queryExecutor_GetStateMultipleKeys ns keys))
  | CRangeScan ns startKey endKey => st_map AItr (on_executor (queryExecutor_GetStateRangeScanIterator ns startKey endKey))
  | CNext itr => st_map AResult (on_executor (itr_Next itr))
  | CGetPrivateData ns coll key => st_map AValue (on_executor (queryExecutor_GetPrivateData ns coll key))
  | CGetPrivateDataHash ns coll key => st_map AValue (on_executor (queryExecutor_GetPrivateDataHash ns coll key))
  | CGetPrivateDataMetadata ns coll key => st_map AMetadata (on_executor (queryExecutor_GetPrivateDataMetadata ns coll key))
  | CSetState ns key value => st_map (λ _, AUnit) (SetState ns key value)
  | CSetStateMetadata ns key metadata => st_map (λ _, AUnit) (SetStateMetadata ns key metadata)
  | CSetPrivateData ns coll key value => st_map (λ _, AUnit) (SetPrivateData ns coll key value)
  | CPurgePrivateData ns coll key => st_map (λ _, AUnit) (PurgePrivateData ns coll key)
  | CSetPrivateDataMetadata ns coll key metadata => st_map (λ _, AUnit) (SetPrivateDataMetadata ns coll key metadata)
  end.

Inductive program (R : Type) :=
| Return (r : R)
| Call (c : call) (k : res answer → program R).
Arguments Return {R} r.
Arguments Call {R} c k.

(** A panic ends the run; an error goes to the chaincode. *)
Fixpoint run_program {R} (p : program R) : sim_op R :=
  match p with
  | Return r => st_ret r
  | Call c k => λ s, match do_call c s with (Panic, s) => (Panic, s) | (a, s) => run_program (k a) s end
  end.
(** The simulation of a chaincode: its result and the simulation results. *)
Definition simulate {R} (p : program R) : res (R * TxSimulationResults * PrivateReads) :=
  ((r ⇐ run_program p; results ⇐ txSimulator_GetTxSimulationResults; st_ret (r, results.1.1, results.1.2)) newTxSimulator).1.
End executor.
Arguments Return {R} r.
Arguments Call {R} c k.
