(* ===== verification/MerkleBinding.v ===== *)
(** * What a Merkle summary of a range query pins down

  The validation of a range query compares summaries, not results. This file
  proves that the summaries built by query_results_helper.go (file Merkle)
  determine the results, as long as the hash function does not collide on the
  inputs that occur in the two trees: the trees are built with their nodes kept
  instead of hashed, and equal hashes of nodes lead down to equal nodes. *)

From S2P Require Import Prelude SortedMap Version StateDB Proto Rwset Merkle.
From stdpp Require Import options.
Local Open Scope nat_scope.
Set Default Proof Using "Type*".

(** A node of the tree with what was hashed: a group of results or a group of
    nodes of the level below. *)
Inductive node :=
| Leaf (results : list KVRead)
| Inner (children : list node).

Lemma node_rect_nested (P : node → Prop) :
  (∀ c, P (Leaf c)) → (∀ ch, Forall P ch → P (Inner ch)) → ∀ n, P n.
Proof.
  intros HL HI. fix IH 1. intros [c|ch]; [apply HL|apply HI].
  induction ch as [|n ch IHch]; constructor; [apply IH|apply IHch].
Qed.

Fixpoint flatten (n : node) : list KVRead :=
  match n with Leaf c => c | Inner ch => concat (map flatten ch) end.
(** The node and those below it. *)
Fixpoint subnodes (n : node) : list node :=
  n :: match n with Leaf _ => [] | Inner ch => concat (map subnodes ch) end.

Section trees.
Context (d : nat) (hashf : bytes → bytes) (ser : list KVRead → bytes).

Fixpoint hash_of (n : node) : Hash :=
  match n with Leaf c => hashf (ser c) | Inner ch => hashf (concat (map hash_of ch)) end.
(** What is hashed at a node: the kind of the node and the bytes. *)
Definition hash_input (n : node) : bool * bytes :=
  match n with Leaf c => (true, ser c) | Inner ch => (false, concat (map hash_of ch)) end.

(** The tree of [merkle_reference] with its nodes. *)
Definition parent_node (children : list node) : node := match children with [n] => n | _ => Inner children end.
Definition parent_nodes (ns : list node) : list node := parent_node <$> chunks (S d) ns.
Fixpoint climb_nodes (fuel : nat) (ns : list node) : list node :=
  match fuel with
  | O => ns
  | S fuel => if bool_decide (length ns ≤ d) then ns else climb_nodes fuel (parent_nodes ns)
  end.
Definition merkle_nodes (results : list KVRead) : list node := climb_nodes (length results) (Leaf <$> chunks (S d) results).

(** The hash function tells the inputs apart that occur in the trees of two
    lists of results. *)
Definition collision_free (rs rs' : list KVRead) : Prop :=
  ∀ n n', n ∈ concat (subnodes <$> merkle_nodes rs) → n' ∈ concat (subnodes <$> merkle_nodes rs') →
    hash_of n = hash_of n' → hash_input n = hash_input n'.

Lemma concat_chunks {A} (l : list A) : concat (chunks (S d) l) = l.
Proof.
  destruct (split_spec (S d) l) as (Heq & Hall & Hlen); [lia|].
  rewrite <-Heq at 1. rewrite chunks_groups by (done || lia). rewrite concat_app.
  rewrite <-Heq at 3. f_equal. destruct (split (S d) l).2; [done|]. simpl. by rewrite app_nil_r.
Qed.

Lemma chunks_of_map {A B} (f : A → B) fuel n (l : list A) : chunks_of fuel n (f <$> l) = map f <$> chunks_of fuel n l.
Proof.
  revert l. induction fuel as [|fuel IH]; intros [|x l]; try done.
  change (f <$> x :: l) with (f x :: (f <$> l)). cbn [chunks_of]. rewrite fmap_cons. f_equal.
  - change (f x :: (f <$> l)) with (f <$> x :: l). by rewrite fmap_take.
  - rewrite <-IH. by rewrite fmap_drop.
Qed.
Lemma chunks_map {A B} (f : A → B) n (l : list A) : chunks n (f <$> l) = map f <$> chunks n l.
Proof. unfold chunks. rewrite length_fmap. apply chunks_of_map. Qed.

Lemma parent_node_hash ch : hash_of (parent_node ch) = parent hashf (hash_of <$> ch).
Proof. by destruct ch as [|n [|n' ch]]. Qed.
Lemma parent_nodes_hash ns : hash_of <$> parent_nodes ns = parents d hashf (hash_of <$> ns).
Proof.
  unfold parent_nodes, parents. rewrite chunks_map, <-!list_fmap_compose. apply list_fmap_ext.
  intros _ ch _. apply parent_node_hash.
Qed.
Lemma climb_nodes_hash fuel level ns : hash_of <$> climb_nodes fuel ns = (climb d hashf fuel level (hash_of <$> ns)).2.
Proof.
  revert level ns. induction fuel as [|fuel IH]; intros level ns; [done|]. cbn [climb_nodes climb].
  rewrite length_fmap. case_bool_decide; [done|]. by rewrite (IH (level + 1)), parent_nodes_hash.
Qed.

Lemma parent_node_flatten ch : flatten (parent_node ch) = concat (flatten <$> ch).
Proof. destruct ch as [|n [|n' ch]]; [done| |done]. simpl. by rewrite app_nil_r. Qed.
Lemma parent_nodes_flatten ns : concat (flatten <$> parent_nodes ns) = concat (flatten <$> ns).
Proof.
  unfold parent_nodes. rewrite <-(concat_chunks ns) at 2. generalize (chunks (S d) ns) as l. intros l.
  induction l as [|ch l IH]; [done|]. rewrite !fmap_cons. simpl. rewrite fmap_app, concat_app, IH. f_equal.
  apply parent_node_flatten.
Qed.
Lemma climb_nodes_flatten fuel ns : concat (flatten <$> climb_nodes fuel ns) = concat (flatten <$> ns).
Proof.
  revert ns. induction fuel as [|fuel IH]; intros ns; [done|]. cbn [climb_nodes].
  case_bool_decide; [done|]. by rewrite IH, parent_nodes_flatten.
Qed.
Lemma merkle_nodes_flatten rs : concat (flatten <$> merkle_nodes rs) = rs.
Proof.
  unfold merkle_nodes. rewrite climb_nodes_flatten, <-list_fmap_compose.
  transitivity (concat (chunks (S d) rs)); [|apply concat_chunks]. f_equal.
  rewrite <-(list_fmap_id (chunks (S d) rs)) at 2. done.
Qed.

Lemma merkle_reference_nodes rs s :
  (merkle_reference d hashf ser rs).2 = Some s → MaxLevelHashes s = hash_of <$> merkle_nodes rs.
Proof.
  unfold merkle_reference. case_bool_decide; [done|].
  destruct (climb d hashf (length rs) leafLevel (leaf_hashes d hashf ser rs)) as [lev hs] eqn:E. simpl. intros [= <-]. simpl.
  unfold merkle_nodes. rewrite (climb_nodes_hash _ leafLevel), <-list_fmap_compose.
  change (hash_of ∘ Leaf <$> chunks (S d) rs) with (leaf_hashes d hashf ser rs). by rewrite E.
Qed.

(** ** Equal hashes, equal nodes *)

Context (hlen : nat) (Hlen : ∀ b, length (hashf b) = hlen) (Hpos : 0 < hlen).
Context (Hser : ∀ l l', ser l = ser l' → l = l').

Lemma concat_fixed_inj (l l' : list Hash) :
  Forall (λ h, length h = hlen) l → Forall (λ h, length h = hlen) l' → concat l = concat l' → l = l'.
Proof using Hpos.
  intros Hl. revert l'. induction Hl as [|h l Hh Hl IH]; intros l' Hl' E.
  - destruct Hl' as [|h' l' Hh' Hl']; [done|]. apply (f_equal length) in E. simpl in E. rewrite length_app in E. lia.
  - destruct Hl' as [|h' l' Hh' Hl'].
    + apply (f_equal length) in E. simpl in E. rewrite length_app in E. lia.
    + simpl in E. apply app_inj_1 in E as [-> E]; [|lia]. f_equal. by apply IH.
Qed.
Lemma hash_of_length n : length (hash_of n) = hlen.
Proof using Hlen. destruct n; apply Hlen. Qed.

Lemma hash_of_inj n n' :
  (∀ m m', m ∈ subnodes n → m' ∈ subnodes n' → hash_of m = hash_of m' → hash_input m = hash_input m') →
  hash_of n = hash_of n' → n = n'.
Proof using Hlen Hpos Hser.
  revert n'. induction n as [c|ch IH] using node_rect_nested; intros n' Hcf E.
  - assert (hash_input (Leaf c) = hash_input n') as Hin.
    { apply Hcf; [by left| |done]. destruct n'; by left. }
    destruct n' as [c'|ch']; [|done]. injection Hin as Hin. by rewrite (Hser _ _ Hin).
  - assert (hash_input (Inner ch) = hash_input n') as Hin.
    { apply Hcf; [by left| |done]. destruct n'; by left. }
    destruct n' as [c'|ch']; [done|]. injection Hin as Hin. f_equal.
    apply concat_fixed_inj in Hin; [|apply Forall_fmap, Forall_true; intros; apply hash_of_length..].
    assert (∀ m m', m ∈ concat (map subnodes ch) → m' ∈ concat (map subnodes ch') →
      hash_of m = hash_of m' → hash_input m = hash_input m') as Hcf'.
    { intros m m' Hm Hm'. apply Hcf; by right. }
    clear Hcf E. revert ch' Hin Hcf'. induction IH as [|n ch Hn Hch IHch]; intros [|n' ch'] Hin Hcf'; try done.
    simpl in Hin, Hcf'. injection Hin as Hh Hin. f_equal.
    + apply Hn; [|done]. intros m m' Hm Hm'. apply Hcf'; apply elem_of_app; by left.
    + apply IHch; [done|]. intros m m' Hm Hm'. apply Hcf'; apply elem_of_app; by right.
Qed.

(** Results with the same summary are the same. *)
Lemma merkle_binding rs rs' s :
  collision_free rs rs' → (merkle_reference d hashf ser rs).2 = Some s → (merkle_reference d hashf ser rs').2 = Some s → rs = rs'.
Proof using Hlen Hpos Hser.
  intros Hcf E%merkle_reference_nodes E'%merkle_reference_nodes.
  rewrite <-(merkle_nodes_flatten rs), <-(merkle_nodes_flatten rs'). do 2 f_equal.
  rewrite E in E'. unfold collision_free in Hcf. revert E' Hcf. generalize (merkle_nodes rs) (merkle_nodes rs'). clear E.
  intros l. induction l as [|n l IH]; intros [|n' l'] E Hcf; try done. rewrite !fmap_cons in E.
  change (concat (subnodes <$> n :: l)) with (subnodes n ++ concat (subnodes <$> l)) in Hcf.
  change (concat (subnodes <$> n' :: l')) with (subnodes n' ++ concat (subnodes <$> l')) in Hcf.
  injection E as Hh E. f_equal.
  - apply hash_of_inj; [|done]. intros m m' Hm Hm'. apply Hcf; apply elem_of_app; by left.
  - apply IH; [done|]. intros m m' Hm Hm'. apply Hcf; apply elem_of_app; by right.
Qed.
End trees.
