(* ===== verification/SimulatorRuns.v ===== *)
(** * Two simulations side by side

  The lemmas behind the serialisability of simulation (file Serializability):
  what the operations of rwset_builder.go leave in the read sets, which part of
  a range an iterator of query_executor.go has covered, and a relation between
  the simulations of one chaincode on two states. [mirrored m0 m1] says that an
  operation on the second state gives the same answer as on the first one,
  provided that the two states agree on everything the first run has recorded
  in the end; it is closed under the composition of operations. *)

From S2P Require Import Prelude SortedMap Version StateDB Proto Rwset RwsetBuilder Merkle LevelDB PrivState CombinedIterator RangeQuery TxOps Validator Simulator.
From stdpp Require Import options.
Local Open Scope nat_scope.
Set Default Proof Using "Type*".

(** ** Read sets of a builder *)

Definition pub_reads (b : RWSetBuilder) (ns : bytes) : gmap bytes KVRead := npb_readMap (getOrCreateNsPubRwBuilder b ns).
Definition hash_reads (b : RWSetBuilder) (ns coll : bytes) : gmap bytes KVReadHash := chb_readMap (coll_hash b ns coll).
Definition queries (b : RWSetBuilder) (ns : bytes) : gmap rangeQueryKey RangeQueryInfo := npb_rangeQueriesMap (getOrCreateNsPubRwBuilder b ns).

(** The sub-builders carry their names and the recorded queries are listed. *)
Record builder_wf (b : RWSetBuilder) : Prop := {
  wf_ns ns : npb_namespace (getOrCreateNsPubRwBuilder b ns) = ns;
  wf_coll ns coll : chb_collName (coll_hash b ns coll) = coll;
  wf_queries ns k : is_Some (queries b ns !! k) → k ∈ npb_rangeQueriesKeys (getOrCreateNsPubRwBuilder b ns)
}.
Lemma NewRWSetBuilder_wf : builder_wf NewRWSetBuilder.
Proof. split; [done|done|]. intros ns k [? [=]]. Qed.

(** Operations that record no reads. *)
Record quiet (f : RWSetBuilder → RWSetBuilder) : Prop := {
  quiet_wf b : builder_wf b → builder_wf (f b);
  quiet_pub b ns : pub_reads (f b) ns = pub_reads b ns;
  quiet_hash b ns coll : hash_reads (f b) ns coll = hash_reads b ns coll;
  quiet_queries b ns : queries (f b) ns = queries b ns
}.

Lemma quiet_id : quiet (λ b, b).
Proof. by split. Qed.
Lemma quiet_compose f g : quiet f → quiet g → quiet (λ b, g (f b)).
Proof.
  intros [Hf1 Hf2 Hf3 Hf4] [Hg1 Hg2 Hg3 Hg4]. split; [auto| | |]; intros.
  - by rewrite Hg2.
  - by rewrite Hg3.
  - by rewrite Hg4.
Qed.
Lemma quiet_foldl {A} (f : RWSetBuilder → A → RWSetBuilder) l : (∀ x, quiet (λ b, f b x)) → quiet (λ b, foldl f b l).
Proof.
  intros Hf. induction l as [|x l IH]; [apply quiet_id|]. simpl. exact (quiet_compose (λ b, f b x) (λ b, foldl f b l) (Hf x) IH).
Qed.

(** A change of a namespace that keeps its name and its collections. *)
Lemma with_ns_pub_wf b ns f :
  (∀ n, npb_namespace (f n) = npb_namespace n) → (∀ n, npb_collHashRwBuilder (f n) = npb_collHashRwBuilder n) →
  (∀ n, (∀ k, is_Some (npb_rangeQueriesMap n !! k) → k ∈ npb_rangeQueriesKeys n) →
    ∀ k, is_Some (npb_rangeQueriesMap (f n) !! k) → k ∈ npb_rangeQueriesKeys (f n)) →
  builder_wf b → builder_wf (with_ns_pub b ns f).
Proof.
  intros Hn Hc Hq [W1 W2 W3]. split.
  - intros ns'. rewrite getOrCreate_with_ns_pub. case_decide; subst; by rewrite ?Hn, W1.
  - intros ns' coll. by rewrite coll_hash_with_ns_pub.
  - intros ns' k. unfold queries. rewrite getOrCreate_with_ns_pub. case_decide; subst; [|apply W3]. apply Hq, W3.
Qed.
Lemma quiet_with_ns_pub ns f :
  (∀ n, npb_namespace (f n) = npb_namespace n) → (∀ n, npb_collHashRwBuilder (f n) = npb_collHashRwBuilder n) →
  (∀ n, npb_readMap (f n) = npb_readMap n) → (∀ n, npb_rangeQueriesMap (f n) = npb_rangeQueriesMap n) →
  (∀ n, npb_rangeQueriesKeys (f n) = npb_rangeQueriesKeys n) → quiet (λ b, with_ns_pub b ns f).
Proof.
  intros Hn Hc Hr Hq Hk. split.
  - intros b. apply with_ns_pub_wf; [done|done|]. intros n. by rewrite Hq, Hk.
  - intros b ns'. unfold pub_reads. rewrite getOrCreate_with_ns_pub. case_decide; subst; by rewrite ?Hr.
  - intros b ns' coll. unfold hash_reads. by rewrite coll_hash_with_ns_pub.
  - intros b ns'. unfold queries. rewrite getOrCreate_with_ns_pub. case_decide; subst; by rewrite ?Hq.
Qed.

Lemma with_coll_hash_ns b ns coll f ns' :
  let n := getOrCreateNsPubRwBuilder b ns' in let n' := getOrCreateNsPubRwBuilder (with_coll_hash b ns coll f) ns' in
  npb_namespace n' = npb_namespace n ∧ npb_readMap n' = npb_readMap n ∧ npb_rangeQueriesMap n' = npb_rangeQueriesMap n ∧
  npb_rangeQueriesKeys n' = npb_rangeQueriesKeys n.
Proof. unfold with_coll_hash. cbv zeta. rewrite getOrCreate_with_ns_pub. by case_decide; subst. Qed.
Lemma with_coll_hash_wf b ns coll f :
  (∀ c, chb_collName (f c) = chb_collName c) → builder_wf b → builder_wf (with_coll_hash b ns coll f).
Proof.
  intros Hf [W1 W2 W3]. split.
  - intros ns'. by destruct (with_coll_hash_ns b ns coll f ns') as (-> & _).
  - intros ns' coll'. rewrite coll_hash_with_coll_hash. case_decide as Hd; [|done]. destruct Hd as [-> ->]. by rewrite Hf.
  - intros ns' k. unfold queries. destruct (with_coll_hash_ns b ns coll f ns') as (_ & _ & -> & ->). apply W3.
Qed.
Lemma quiet_with_coll_hash ns coll f :
  (∀ c, chb_collName (f c) = chb_collName c) → (∀ c, chb_readMap (f c) = chb_readMap c) → quiet (λ b, with_coll_hash b ns coll f).
Proof.
  intros Hf Hr. split.
  - intros b. by apply with_coll_hash_wf.
  - intros b ns'. apply with_coll_hash_ns.
  - intros b ns' coll'. unfold hash_reads. rewrite coll_hash_with_coll_hash. case_decide as Hd; [|done].
    destruct Hd as [-> ->]. apply Hr.
  - intros b ns'. apply with_coll_hash_ns.
Qed.
Lemma quiet_with_coll_pvt ns coll f : quiet (λ b, with_coll_pvt b ns coll f).
Proof. split; [|done..]. intros b [W1 W2 W3]. by split. Qed.

Section builder.
Context `{!Sha256}.

Lemma quiet_AddToWriteSet ns key v : quiet (λ b, AddToWriteSet b ns key v).
Proof. by apply quiet_with_ns_pub. Qed.
Lemma quiet_AddToMetadataWriteSet ns key m : quiet (λ b, AddToMetadataWriteSet b ns key m).
Proof. by apply quiet_with_ns_pub. Qed.
Lemma quiet_put_hash_write ns coll key w : quiet (λ b, put_hash_write b ns coll key w).
Proof. by apply quiet_with_coll_hash. Qed.
Lemma quiet_AddToPvtAndHashedWriteSet ns coll key v : quiet (λ b, AddToPvtAndHashedWriteSet b ns coll key v).
Proof.
  apply (quiet_compose (λ b, put_pvt_write b ns coll key _) (λ b, put_hash_write b ns coll key _)); [apply quiet_with_coll_pvt|apply quiet_put_hash_write].
Qed.
Lemma quiet_AddToPvtAndHashedWriteSetForPurge ns coll key : quiet (λ b, AddToPvtAndHashedWriteSetForPurge b ns coll key).
Proof.
  apply (quiet_compose (λ b, put_pvt_write b ns coll key _) (λ b, put_hash_write b ns coll key _)); [apply quiet_with_coll_pvt|apply quiet_put_hash_write].
Qed.
Lemma quiet_AddToHashedMetadataWriteSet ns coll key m : quiet (λ b, AddToHashedMetadataWriteSet b ns coll key m).
Proof.
  apply (quiet_compose (λ b, with_coll_pvt b ns coll _) (λ b, with_coll_hash b ns coll _)); [apply quiet_with_coll_pvt|by apply quiet_with_coll_hash].
Qed.
Lemma quiet_setPvtCollectionHash ns coll p : quiet (λ b, setPvtCollectionHash b ns coll p).
Proof. by apply quiet_with_coll_hash. Qed.

Lemma AddToReadSet_effect b ns key v :
  (builder_wf b → builder_wf (AddToReadSet b ns key v)) ∧
  (∀ ns' key', pub_reads (AddToReadSet b ns key v) ns' !! key' =
    if decide (ns' = ns ∧ key' = key) then Some (NewKVRead key v) else pub_reads b ns' !! key') ∧
  (∀ ns' coll, hash_reads (AddToReadSet b ns key v) ns' coll = hash_reads b ns' coll) ∧
  (∀ ns', queries (AddToReadSet b ns key v) ns' = queries b ns').
Proof.
  unfold AddToReadSet. split_and!.
  - by apply with_ns_pub_wf.
  - intros ns' key'. unfold pub_reads. rewrite getOrCreate_with_ns_pub.
    destruct (decide (ns' = ns)) as [->|]; [|by rewrite decide_False by tauto]. simpl. rewrite lookup_insert_dec.
    destruct (decide (key' = key)); [by rewrite decide_True|by rewrite decide_False by tauto].
  - intros ns' coll. unfold hash_reads. by rewrite coll_hash_with_ns_pub.
  - intros ns'. unfold queries. rewrite getOrCreate_with_ns_pub. by case_decide; subst.
Qed.
Lemma AddToHashedReadSet_effect b ns coll key v :
  (builder_wf b → builder_wf (AddToHashedReadSet b ns coll key v)) ∧
  (∀ ns' coll' key', hash_reads (AddToHashedReadSet b ns coll key v) ns' coll' !! key' =
    if decide (ns' = ns ∧ coll' = coll ∧ key' = key) then Some (newPvtKVReadHash key v) else hash_reads b ns' coll' !! key') ∧
  (∀ ns', pub_reads (AddToHashedReadSet b ns coll key v) ns' = pub_reads b ns') ∧
  (∀ ns', queries (AddToHashedReadSet b ns coll key v) ns' = queries b ns').
Proof.
  unfold AddToHashedReadSet. split_and!.
  - by apply with_coll_hash_wf.
  - intros ns' coll' key'. unfold hash_reads. rewrite coll_hash_with_coll_hash.
    destruct (decide (ns' = ns ∧ coll' = coll)) as [[-> ->]|]; [|by rewrite decide_False by tauto]. simpl. rewrite lookup_insert_dec.
    destruct (decide (key' = key)); [by rewrite decide_True|by rewrite decide_False by tauto].
  - intros ns'. apply with_coll_hash_ns.
  - intros ns'. apply with_coll_hash_ns.
Qed.

Definition query_key (rqi : RangeQueryInfo) : rangeQueryKey :=
  {| rq_startKey := StartKey rqi; rq_endKey := EndKey rqi; rq_itrExhausted := ItrExhausted rqi |}.
Lemma AddToRangeQuerySet_effect b ns rqi :
  (builder_wf b → builder_wf (AddToRangeQuerySet b ns rqi)) ∧
  (∀ ns' k, queries (AddToRangeQuerySet b ns rqi) ns' !! k =
    if decide (ns' = ns ∧ k = query_key rqi) then Some (default rqi (queries b ns !! k)) else queries b ns' !! k) ∧
  (∀ ns', pub_reads (AddToRangeQuerySet b ns rqi) ns' = pub_reads b ns') ∧
  (∀ ns' coll, hash_reads (AddToRangeQuerySet b ns rqi) ns' coll = hash_reads b ns' coll).
Proof.
  unfold AddToRangeQuerySet. split_and!.
  - apply with_ns_pub_wf; intros n; destruct (npb_rangeQueriesMap n !! _); try done. simpl. intros Hn k.
    change {| rq_startKey := _; rq_endKey := _; rq_itrExhausted := _ |} with (query_key rqi).
    intros [r Hr]. destruct (decide (k = query_key rqi)) as [->|Hne]; [apply elem_of_app; right; by left|].
    rewrite lookup_insert_ne in Hr by done. apply elem_of_app. left. by apply Hn.
  - intros ns' k. unfold queries. rewrite getOrCreate_with_ns_pub.
    destruct (decide (ns' = ns)) as [->|]; [|by rewrite (decide_False (P := _ ∧ _)) by tauto].
    change {| rq_startKey := _; rq_endKey := _; rq_itrExhausted := _ |} with (query_key rqi).
    destruct (decide (k = query_key rqi)) as [->|Hne].
    + rewrite decide_True by done. destruct (npb_rangeQueriesMap (getOrCreateNsPubRwBuilder b ns) !! query_key rqi) eqn:E; [done|]. by apply lookup_insert_eq.
    + rewrite decide_False by tauto. destruct (npb_rangeQueriesMap (getOrCreateNsPubRwBuilder b ns) !! query_key rqi); [done|]. by apply lookup_insert_ne.
  - intros ns'. unfold pub_reads. rewrite getOrCreate_with_ns_pub. case_decide; subst; [|done]. by destruct (npb_rangeQueriesMap _ !! _).
  - intros ns' coll. unfold hash_reads. rewrite coll_hash_with_ns_pub; [done|]. intros n. by destruct (npb_rangeQueriesMap _ !! _).
Qed.
End builder.

(** ** The part of a range that an iterator has covered *)

Lemma list_filter_all {A} (P : A → Prop) `{!∀ x, Decision (P x)} (l : list A) : (∀ x, x ∈ l → P x) → filter P l = l.
Proof.
  induction l as [|x l IH]; [done|]. intros Hl. rewrite filter_cons_True by (apply Hl; by left). f_equal.
  apply IH. intros y Hy. apply Hl. by right.
Qed.
Lemma list_filter_none {A} (P : A → Prop) `{!∀ x, Decision (P x)} (l : list A) : (∀ x, x ∈ l → ¬ P x) → filter P l = [].
Proof.
  induction l as [|x l IH]; [done|]. intros Hl. rewrite filter_cons_False by (apply Hl; by left).
  apply IH. intros y Hy. apply Hl. by right.
Qed.

Section covered.
Context {V : Type}.
Implicit Types (m : gmap bytes V) (l : list (bytes * V)).
Notation ssorted := (StronglySorted key_lt).

Definition upto m (startKey k : bytes) : list (bytes * V) :=
  filter (λ p, bytes_le startKey p.1 ∧ bytes_le p.1 k) (sorted_kvs m).
(** The keys that the information recorded for an iterator stands for. *)
Definition covered m (info : RangeQueryInfo) : list (bytes * V) :=
  if ItrExhausted info then range_kvs m (StartKey info) (EndKey info)
  else if decide (EndKey info = []) then [] else upto m (StartKey info) (EndKey info).

Lemma elem_of_upto m s k k' v : (k', v) ∈ upto m s k ↔ m !! k' = Some v ∧ bytes_le s k' ∧ bytes_le k' k.
Proof. unfold upto. rewrite list_elem_of_filter, elem_of_sorted_kvs. simpl. tauto. Qed.
Lemma upto_sorted m s k : ssorted (upto m s k).
Proof. apply ssorted_filter, sorted_kvs_sorted. Qed.
Lemma covered_sorted m info : ssorted (covered m info).
Proof. unfold covered. destruct (ItrExhausted info); [apply range_kvs_sorted|]. case_decide; [constructor|apply upto_sorted]. Qed.
Lemma elem_of_covered m info k v : (k, v) ∈ covered m info → m !! k = Some v.
Proof.
  unfold covered. destruct (ItrExhausted info); [by intros [? _]%elem_of_range_kvs|].
  case_decide; [by intros ?%not_elem_of_nil|by intros [? _]%elem_of_upto].
Qed.

Lemma upto_range m s e k : in_range s e k → upto m s k = filter (λ p, bytes_le p.1 k) (range_kvs m s e).
Proof.
  intros [Hs He]. apply ssorted_unique; [apply upto_sorted|apply ssorted_filter, range_kvs_sorted|].
  intros [k' v]. rewrite elem_of_upto, list_elem_of_filter, elem_of_range_kvs. simpl. unfold in_range. split.
  - intros (? & ? & ?). split_and!; try done. destruct He as [->|He]; [by left|right]. by eapply bytes_le_lt_trans.
  - intros (? & ? & ? & ?). done.
Qed.
Lemma upto_upto m s k k' : bytes_le k k' → upto m s k = filter (λ p, bytes_le p.1 k) (upto m s k').
Proof.
  intros Hk. apply ssorted_unique; [apply upto_sorted|apply ssorted_filter, upto_sorted|].
  intros [k1 v]. rewrite elem_of_upto, list_elem_of_filter, elem_of_upto. simpl. split.
  - intros (? & ? & ?). split_and!; try done. by etrans.
  - intros (? & ? & ? & ?). done.
Qed.

Lemma ssorted_app_inv l1 l2 : ssorted (l1 ++ l2) → ssorted l2 ∧ ∀ p q, p ∈ l1 → q ∈ l2 → key_lt p q.
Proof.
  induction l1 as [|p l1 IH]; simpl; [intros ?; split; [done|by intros ?? ?%not_elem_of_nil]|].
  intros [Hs Hall]%StronglySorted_inv. destruct (IH Hs) as [? Hlt]. split; [done|].
  intros q r [->|Hq]%elem_of_cons Hr; [|by apply Hlt]. rewrite Forall_forall in Hall. apply Hall. apply elem_of_app. by right.
Qed.
Lemma filter_le_prefix l1 k v l2 :
  ssorted (l1 ++ (k, v) :: l2) → filter (λ p, bytes_le p.1 k) (l1 ++ (k, v) :: l2) = l1 ++ [(k, v)].
Proof.
  intros Hs. destruct (ssorted_app_inv _ _ Hs) as [Hs2 Hlt]. rewrite filter_app. f_equal.
  - apply list_filter_all. intros p Hp.
    apply bytes_le_lt_eq. left. apply (Hlt p (k, v)); [done|by left].
  - rewrite filter_cons_True by done. f_equal. apply StronglySorted_inv in Hs2 as [_ Hall].
    rewrite Forall_forall in Hall. apply list_filter_none. intros q Hin Hle. apply bytes_le_not_lt in Hle. destruct Hle. by apply (Hall q).
Qed.
(** The first of the keys that are left, when those up to [k] are one. *)
Lemma filter_le_head l k v : ssorted l → filter (λ p, bytes_le p.1 k) l = [(k, v)] → ∃ l', l = (k, v) :: l'.
Proof.
  intros Hs E. destruct l as [|q l]; [done|]. rewrite filter_cons in E. case_decide as Hq; [injection E as -> E; eauto|].
  exfalso. assert ((k, v) ∈ filter (λ p, bytes_le p.1 k) l) as Hin by (rewrite E; by left).
  apply list_elem_of_filter in Hin as [_ Hin]. apply StronglySorted_inv in Hs as [_ Hall]. rewrite Forall_forall in Hall.
  apply Hq. apply bytes_le_lt_eq. left. by apply (Hall (k, v)).
Qed.

(** An iterator moves on: what it had covered are the first keys of what it
    covers then, in every state. *)
Definition info_le (info info' : RangeQueryInfo) : Prop :=
  info = info' ∨
  StartKey info = StartKey info' ∧ ItrExhausted info = false ∧
    (EndKey info = [] ∨
     if ItrExhausted info' then in_range (StartKey info) (EndKey info') (EndKey info)
     else EndKey info' ≠ [] ∧ bytes_le (EndKey info) (EndKey info')).
Definition info_keeps (info info' : RangeQueryInfo) (k : bytes) : Prop :=
  info = info' ∨ EndKey info ≠ [] ∧ bytes_le k (EndKey info).
#[export] Instance info_keeps_dec info info' k : Decision (info = info') → Decision (info_keeps info info' k).
Proof. unfold info_keeps. apply _. Defined.
End covered.

#[export] Instance RangeQueryInfo_dec : EqDecision RangeQueryInfo.
Proof. solve_decision. Defined.

Lemma covered_le {V} (m : gmap bytes V) info info' :
  info_le info info' → covered m info = filter (λ p, info_keeps info info' p.1) (covered m info').
Proof.
  intros [->|(Hs & Hx & Hend)].
  - symmetry. apply list_filter_all. intros p _. by left.
  - destruct (decide (info = info')) as [->|Hne].
    { symmetry. apply list_filter_all. intros p _. by left. }
    unfold covered at 1. rewrite Hx. destruct (decide (EndKey info = [])) as [He|He].
    + symmetry. apply list_filter_none. intros q _. by intros [?|[? _]].
    + destruct Hend as [?|Hend]; [done|]. rewrite (list_filter_iff _ (λ p : bytes * V, bytes_le p.1 (EndKey info))).
      * unfold covered. destruct (ItrExhausted info').
        -- rewrite <-Hs. by apply upto_range.
        -- destruct Hend as [Hn Hle]. rewrite decide_False by done. rewrite <-Hs. by apply upto_upto.
      * intros p. unfold info_keeps. naive_solver.
Qed.

(** ** Operations on two states *)

Section mirror.
Context {S : Type} (inv ok : S → Prop) (rel : S → S → Prop).

(** [inv] holds along the first run; [ok]: the two databases agree on what has
    been recorded so far. *)
Record mirrored {A} (m0 m1 : stateful S A) : Prop := {
  mi_grows s r s' : inv s → m0 s = (r, s') → inv s' ∧ (ok s' → ok s);
  mi_same s0 s1 r s0' : inv s0 → rel s0 s1 → m0 s0 = (r, s0') → ok s0' → ∃ s1', m1 s1 = (r, s1') ∧ rel s0' s1'
}.

Lemma mirrored_lift {A} (r : res A) : mirrored (st_lift r) (st_lift r).
Proof. split; [by intros s r' s' Hs [= <- <-]|]. intros s0 s1 r' s0' Hs Hr [= <- <-] _. by exists s1. Qed.
Lemma mirrored_ret {A} (a : A) : mirrored (st_ret a) (st_ret a).
Proof. apply (mirrored_lift (Ok a)). Qed.
Lemma mirrored_fail {A} e : mirrored (A := A) (st_fail e) (st_fail e).
Proof. apply (mirrored_lift (Err e)). Qed.

Lemma mirrored_bind {A B} (m0 m1 : stateful S A) (f0 f1 : A → stateful S B) :
  mirrored m0 m1 → (∀ a, mirrored (f0 a) (f1 a)) → mirrored (st_bind m0 f0) (st_bind m1 f1).
Proof.
  intros [Hg Hs] Hf. split.
  - intros s r s' Hi Hm. unfold st_bind in Hm. destruct (m0 s) as [[a|e|] t] eqn:E; destruct (Hg _ _ _ Hi E) as [Ht Hok].
    + destruct (mi_grows _ _ (Hf a) _ _ _ Ht Hm) as [? ?]. auto.
    + injection Hm as <- <-. done.
    + injection Hm as <- <-. done.
  - intros s0 s1 r s0' Hi Hr Hm Hok. unfold st_bind in *.
    destruct (m0 s0) as [[a|e|] t] eqn:E; destruct (Hg _ _ _ Hi E) as [Ht Hmono].
    + destruct (mi_grows _ _ (Hf a) _ _ _ Ht Hm) as [? Hok'].
      destruct (Hs _ _ _ _ Hi Hr E) as (t1 & -> & Hrt); [auto|]. by apply (mi_same _ _ (Hf a) t).
    + injection Hm as <- <-. destruct (Hs _ _ _ _ Hi Hr E) as (t1 & -> & Hrt); [auto|]. eauto.
    + injection Hm as <- <-. destruct (Hs _ _ _ _ Hi Hr E) as (t1 & -> & Hrt); [auto|]. eauto.
Qed.
(** A field on which the two runs agree. *)
Lemma mirrored_get {A B} (g : S → B) (f0 f1 : S → stateful S A) :
  (∀ s0 s1, rel s0 s1 → g s0 = g s1) → (∀ s0 s1, inv s0 → g s0 = g s1 → mirrored (f0 s0) (f1 s1)) →
  mirrored (st_bind st_get f0) (st_bind st_get f1).
Proof.
  intros Hg Hf. split.
  - intros s r s' Hi Hm. exact (mi_grows _ _ (Hf s s Hi eq_refl) _ _ _ Hi Hm).
  - intros s0 s1 r s0' Hi Hr Hm Hok. exact (mi_same _ _ (Hf s0 s1 Hi (Hg _ _ Hr)) _ _ _ _ Hi Hr Hm Hok).
Qed.
Lemma mirrored_modify (f0 f1 : S → S) :
  (∀ s, inv s → inv (f0 s) ∧ (ok (f0 s) → ok s)) → (∀ s0 s1, inv s0 → rel s0 s1 → ok (f0 s0) → rel (f0 s0) (f1 s1)) →
  mirrored (st_modify f0) (st_modify f1).
Proof.
  intros Hg Hs. split.
  - intros s r s' Hi [= <- <-]. by apply Hg.
  - intros s0 s1 r s0' Hi Hr [= <- <-] Hok. eexists. split; [done|]. by apply Hs.
Qed.
End mirror.

Lemma fmap_inj_on {A B} (f : A → B) (l l' : list A) :
  (∀ x y, x ∈ l → y ∈ l' → f x = f y → x = y) → f <$> l = f <$> l' → l = l'.
Proof.
  revert l'. induction l as [|x l IH]; intros [|y l'] Hf E; try done. injection E as E1 E2. f_equal.
  - apply Hf; [by left|by left|done].
  - apply IH; [|done]. intros ?? Hx Hy. apply Hf; by right.
Qed.
Lemma newProtoVersion_inj v v' : newProtoVersion v = newProtoVersion v' → v = v'.
Proof. by destruct v as [[]|], v' as [[]|]; intros [=]; subst. Qed.

Definition coll_ok (coll : bytes) : Prop := coll ≠ [] ∧ x00 ∉ coll.

(** The chaincodes and collection configurations only name plain namespaces. *)
Fixpoint config_ok (c : config_query) : Prop :=
  match c with CollConfigs _ => True | ReadState ns key k => plain_ns ns ∧ ∀ v, config_ok (k v) end.
Definition call_ok (c : call) : Prop :=
  match c with
  | CGetState ns _ | CGetStateMetadata ns _ | CGetStateMultipleKeys ns _ | CRangeScan ns _ _
  | CSetState ns _ _ | CSetStateMetadata ns _ _ => plain_ns ns
  | CNext _ => True
  | CGetPrivateData ns coll _ | CGetPrivateDataHash ns coll _ | CGetPrivateDataMetadata ns coll _ | CSetPrivateData ns coll _ _
  | CPurgePrivateData ns coll _ | CSetPrivateDataMetadata ns coll _ _ => plain_ns ns ∧ coll_ok coll
  end.
Fixpoint program_ok {R} (p : program R) : Prop :=
  match p with Return _ => True | Call c k => call_ok c ∧ ∀ a, program_ok (k a) end.

(** An iterator that has come to its end stays there. *)
Class StableIterator (I : Type) `{!ResultsIterator I} : Prop :=
  stable_end (itr itr' : I) : Next itr = Ok (None, itr') → Next itr' = Ok (None, itr').
Lemma fmap_filter {A B} (f : A → B) (P : B → Prop) `{!∀ x, Decision (P x)} (l : list A) :
  f <$> filter (λ x, P (f x)) l = filter P (f <$> l).
Proof.
  induction l as [|x l IH]; [done|]. rewrite fmap_cons, !filter_cons. case_decide; rewrite ?fmap_cons; by rewrite IH.
Qed.

(** The information after a result, and at the end. *)
Definition move (i : RangeQueryInfo) (k : bytes) (exhausted : bool) : RangeQueryInfo :=
  {| StartKey := StartKey i; EndKey := k; ItrExhausted := exhausted; rqi_ReadsInfo := rqi_ReadsInfo i |}.

(** A key that comes next is not covered yet. *)
Lemma covered_step {V} (m : gmap bytes V) i e k v rest :
  ItrExhausted i = false → EndKey i = [] ∨ in_range (StartKey i) e (EndKey i) → k ≠ [] →
  range_kvs m (StartKey i) e = covered m i ++ (k, v) :: rest →
  covered m (move i k false) = covered m i ++ [(k, v)] ∧ in_range (StartKey i) e k ∧ info_le i (move i k false).
Proof.
  intros Hx He Hk Hr. pose proof (range_kvs_sorted m (StartKey i) e) as Hs.
  assert ((k, v) ∈ range_kvs m (StartKey i) e) as [Hm Hin]%elem_of_range_kvs by (rewrite Hr; set_solver).
  assert (covered m (move i k false) = upto m (StartKey i) k) as -> by (unfold covered; simpl; by rewrite decide_False).
  split_and!; [|done|].
  - rewrite (upto_range m _ e) by done. rewrite Hr in *. by apply filter_le_prefix.
  - right. simpl. split_and!; [done|done|]. destruct He as [He|He]; [by left|right]. split; [done|].
    apply bytes_le_not_lt. intros Hlt. rewrite Hr in Hs. destruct (ssorted_app_inv _ _ Hs) as [_ Happ].
    apply (bytes_lt_irrefl k), (Happ (k, v) (k, v)); [|by left]. unfold covered. rewrite Hx.
    rewrite decide_False by (intros E; rewrite E in Hlt; by destruct k). apply elem_of_upto. split_and!; [done|apply Hin|].
    apply bytes_le_lt_eq. by left.
Qed.
Lemma covered_end {V} (m : gmap bytes V) i e :
  (if ItrExhausted i then EndKey i = e else EndKey i = [] ∨ in_range (StartKey i) e (EndKey i)) → info_le i (move i e true).
Proof.
  intros He. destruct (ItrExhausted i) eqn:Hx.
  - left. destruct i; simpl in *; subst. done.
  - right. simpl. split_and!; [done|done|]. by destruct He; [left|right].
Qed.

(** ** The two runs *)

Section runs.
Context `{!ProtoMessage KVMetadataWrite, !ProtoMessage QueryReads, !Sha256}.
Context {DB I L : Type} `{!VersionedDB DB I} `{!QueryDB DB I} `{!StableIterator I}.
Context (db0 db1 : PrivDB DB L) (st0 st1 : state) `{!VersionedDBLaws (pdb_vdb db0) st0} `{!VersionedDBLaws (pdb_vdb db1) st1}.
Context (provider : bytes → config_query) (hashFunc : HashFunc) (hashf : bytes → bytes) (ser : list KVRead → bytes).
Notation executor := (queryExecutor I).

Definition hash_ck (ns coll key : bytes) : compositeKey := {| ck_ns := ns; ck_coll := coll; ck_key := ComputeStringHash key |}.
(** The version of a key on the first database. *)
Definition ver0 (ck : compositeKey) : option Height := committed db0 st0 ck ≫= vv_Version.
Definition agree (ck : compositeKey) : Prop := ver0 ck = (committed db1 st1 ck ≫= vv_Version).

(** *** Iterators *)

Notation info := ri_rangeQueryInfo.

(** What a transaction records of the part of the range that is covered. *)
Definition covered_reads (st : state) (ns : bytes) (i : RangeQueryInfo) : list KVRead :=
  (λ p, NewKVRead p.1 (vv_Version p.2)) <$> covered (st ns) i.

Record itr_at (st : state) (itr : resultsItr I) : Prop := {
  at_ns : plain_ns (ri_ns itr);
  at_reads : rqi_ReadsInfo (info itr) = None;
  at_end : if ItrExhausted (info itr) then EndKey (info itr) = ri_endKey itr
           else EndKey (info itr) = [] ∨ in_range (StartKey (info itr)) (ri_endKey itr) (EndKey (info itr));
  at_rest : ∃ rest, range_kvs (st (ri_ns itr)) (StartKey (info itr)) (ri_endKey itr) = covered (st (ri_ns itr)) (info itr) ++ rest ∧
    Drains (ri_dbItr itr) (to_kv (ri_ns itr) <$> rest)
}.
Definition itr_inv (itr : resultsItr I) : Prop :=
  itr_at st0 itr ∧ ∃ h, ri_rangeQueryResultsHelper itr = Some h ∧
    helper_inv 50 hashFunc hashf ser h (covered_reads st0 (ri_ns itr) (info itr)).
Definition itr_agrees (itr : resultsItr I) : Prop :=
  covered_reads st0 (ri_ns itr) (info itr) = covered_reads st1 (ri_ns itr) (info itr).
Definition itr_same (i0 i1 : resultsItr I) : Prop :=
  ri_ns i0 = ri_ns i1 ∧ ri_endKey i0 = ri_endKey i1 ∧ info i0 = info i1 ∧
  ri_rangeQueryResultsHelper i0 = ri_rangeQueryResultsHelper i1.

Lemma covered_reads_mono ns i i' : info_le i i' →
  covered_reads st0 ns i' = covered_reads st1 ns i' → covered_reads st0 ns i = covered_reads st1 ns i.
Proof.
  intros Hle E. unfold covered_reads in *. rewrite !(covered_le _ i i') by done.
  pose proof (fmap_filter (λ p : bytes * VersionedValue, NewKVRead p.1 (vv_Version p.2)) (λ r, info_keeps i i' (kvr_Key r))) as Hf.
  cbn [kvr_Key NewKVRead] in Hf. by rewrite !Hf, E.
Qed.

Set Default Proof Using "All".
Context (Hhash : ∀ b, hashFunc b = Ok (hashf b)) (Hser : ∀ l, serializeKVReads l = Ok (ser l)).
(** Equal versions, equal values; the chain gives this (file Serializability). *)
Context (Hdet : ∀ ck, plain_ns (ck_ns ck) → x00 ∉ ck_coll ck → agree ck → committed db0 st0 ck = committed db1 st1 ck).
Context (Hempty : ∀ ns, plain_ns ns → st0 ns !! [] = None).

Lemma pub_det ns key : plain_ns ns → agree (pub_ck ns key) → st0 ns !! key = st1 ns !! key.
Proof. intros Hns Ha. by apply (Hdet (pub_ck ns key) Hns (not_elem_of_nil _) Ha). Qed.

(** What agrees in the versions is the same. *)
Lemma covered_same ns i : plain_ns ns → covered_reads st0 ns i = covered_reads st1 ns i → covered (st0 ns) i = covered (st1 ns) i.
Proof.
  intros Hns. apply fmap_inj_on. intros [k v] [k' v'] H0%elem_of_covered H1%elem_of_covered [= -> E]. f_equal.
  apply newProtoVersion_inj in E. assert (st0 ns !! k' = st1 ns !! k') as Hk; [|congruence].
  apply pub_det; [done|]. unfold agree, ver0, committed; simpl. rewrite H0, H1. done.
Qed.

(** The next result of an iterator: the first key that is not covered. *)
Lemma at_cases st itr : itr_at st itr →
  (∃ k vv rest itr', range_kvs (st (ri_ns itr)) (StartKey (info itr)) (ri_endKey itr) = covered (st (ri_ns itr)) (info itr) ++ (k, vv) :: rest ∧
     ItrExhausted (info itr) = false ∧ Next (ri_dbItr itr) = Ok (Some (to_kv (ri_ns itr) (k, vv)), itr') ∧ Drains itr' (to_kv (ri_ns itr) <$> rest)) ∨
  (range_kvs (st (ri_ns itr)) (StartKey (info itr)) (ri_endKey itr) = covered (st (ri_ns itr)) (info itr) ∧
     ∃ itr', Next (ri_dbItr itr) = Ok (None, itr') ∧ Drains itr' []).
Proof.
  intros [_ _ He (rest & Hr & Hd)]. destruct rest as [|[k vv] rest].
  - right. rewrite app_nil_r in Hr. split; [done|]. inversion Hd as [? itr' Hn|]; subst. exists itr'. split; [done|].
    eapply Drains_nil, stable_end, Hn.
  - left. exists k, vv, rest. destruct (ItrExhausted (info itr)) eqn:Hx.
    + exfalso. rewrite <-He in Hr. unfold covered in Hr. rewrite Hx in Hr.
      apply (f_equal length) in Hr. rewrite length_app in Hr. simpl in Hr. lia.
    + inversion Hd as [|? itr' ?? Hn Hd']; subst. by exists itr'.
Qed.

(** An iterator that has moved to the given position. *)
Definition moved (itr : resultsItr I) (dbItr : I) (i : RangeQueryInfo) (h : RangeQueryResultsHelper) : resultsItr I :=
  {| ri_ns := ri_ns itr; ri_dbItr := dbItr; ri_endKey := ri_endKey itr; ri_rangeQueryInfo := i; ri_rangeQueryResultsHelper := Some h |}.

Lemma Next_some itr ns k vv itr' h h' : ri_rangeQueryResultsHelper itr = Some h → ItrExhausted (info itr) = false →
  Next (ri_dbItr itr) = Ok (Some (to_kv ns (k, vv)), itr') → AddResult h (NewKVRead k (vv_Version vv)) = Ok h' →
  resultsItr_Next itr = (Ok (Some {| qr_Namespace := ns; qr_Key := k; qr_Value := Value vv |}), moved itr itr' (move (info itr) k false) h').
Proof.
  intros Hh Hx Hn Ha. unfold resultsItr_Next. rewrite Hn. unfold updateRangeQueryInfo; simpl. rewrite Hh, Ha. run. by rewrite Hx.
Qed.
Lemma Next_none itr itr' h : ri_rangeQueryResultsHelper itr = Some h → Next (ri_dbItr itr) = Ok (None, itr') →
  resultsItr_Next itr = (Ok None, moved itr itr' (move (info itr) (ri_endKey itr) true) h).
Proof. intros Hh Hn. unfold resultsItr_Next. rewrite Hn. unfold updateRangeQueryInfo; simpl. by rewrite Hh. Qed.

Lemma at_some st itr k vv rest itr' h : itr_at st itr → k ≠ [] → ItrExhausted (info itr) = false →
  range_kvs (st (ri_ns itr)) (StartKey (info itr)) (ri_endKey itr) = covered (st (ri_ns itr)) (info itr) ++ (k, vv) :: rest →
  Drains itr' (to_kv (ri_ns itr) <$> rest) →
  itr_at st (moved itr itr' (move (info itr) k false) h) ∧
  covered (st (ri_ns itr)) (move (info itr) k false) = covered (st (ri_ns itr)) (info itr) ++ [(k, vv)] ∧
  info_le (info itr) (move (info itr) k false).
Proof.
  intros [Hns Hi He _] Hk Hx Hr Hd. rewrite Hx in He. destruct (covered_step _ _ _ _ _ _ Hx He Hk Hr) as (Hc & Hin & Hle).
  split; [|done]. split; simpl; [done|done|by right|]. exists rest. split; [|done]. by rewrite Hc, <-app_assoc.
Qed.
Lemma at_none st itr itr' h : itr_at st itr → Drains itr' [] →
  itr_at st (moved itr itr' (move (info itr) (ri_endKey itr) true) h) ∧ info_le (info itr) (move (info itr) (ri_endKey itr) true).
Proof.
  intros [Hns Hi He _] Hd. split; [|by apply (covered_end (V := unit) ∅)]. split; simpl; [done|done|done|]. exists [].
  split; [|done]. by rewrite app_nil_r.
Qed.

Lemma Next_inv itr : itr_inv itr → ∃ r itr', resultsItr_Next itr = (Ok r, itr') ∧ itr_inv itr' ∧
  ri_ns itr' = ri_ns itr ∧ info_le (info itr) (info itr').
Proof.
  intros (Hat & h & Hh & Hinv). destruct (at_cases st0 itr Hat) as [(k & vv & rest & itr' & Hr & Hx & Hn & Hd)|(Hr & itr' & Hn & Hd)].
  - assert (k ≠ []) as Hk.
    { intros ->. assert (([], vv) ∈ range_kvs (st0 (ri_ns itr)) (StartKey (info itr)) (ri_endKey itr)) as [Hm _]%elem_of_range_kvs by (rewrite Hr; set_solver).
      by rewrite Hempty in Hm by apply Hat. }
    destruct (AddResult_inv 50 hashFunc hashf ser ltac:(lia) ltac:(done) Hhash Hser h _ (NewKVRead k (vv_Version vv)) Hinv) as (h' & Ha & Hinv').
    destruct (at_some st0 itr k vv rest itr' h' Hat Hk Hx Hr Hd) as (Hat' & Hc & Hle).
    do 2 eexists. split; [by eapply Next_some|]. split_and!; [|done|done]. split; [done|]. exists h'. split; [done|].
    unfold covered_reads. simpl. rewrite Hc, fmap_app. exact Hinv'.
  - destruct (at_none st0 itr itr' h Hat Hd) as [Hat' Hle]. do 2 eexists. split; [by eapply Next_none|].
    split_and!; [|done|done]. split; [done|]. exists h. split; [done|]. unfold covered_reads, covered. simpl. by rewrite Hr.
Qed.
(** Keys left on the second database, when the first one gives [k] next. *)
Lemma rest_head (m : gmap bytes VersionedValue) i e k vv c rest :
  in_range (StartKey i) e k → k ≠ [] → range_kvs m (StartKey i) e = c ++ rest → covered m (move i k false) = c ++ [(k, vv)] →
  ∃ rest', rest = (k, vv) :: rest'.
Proof.
  intros Hin Hk Hr Hc. pose proof (range_kvs_sorted m (StartKey i) e) as Hs. rewrite Hr in Hs.
  destruct (ssorted_app_inv _ _ Hs) as [Hs' _]. apply filter_le_head; [done|].
  assert (filter (λ p, bytes_le p.1 k) (c ++ rest) = c ++ [(k, vv)]) as Hf.
  { rewrite <-Hr, <-upto_range by done. rewrite <-Hc. unfold covered; simpl. by rewrite decide_False. }
  pose proof Hf as Hall. rewrite filter_app, (list_filter_all _ c) in Hf; [by apply app_inv_head in Hf|].
  intros p Hp. assert (p ∈ filter (λ p, bytes_le p.1 k) (c ++ rest)) as [? _]%list_elem_of_filter; [|done].
  rewrite Hall. apply elem_of_app. by left.
Qed.

Lemma Next_same i0 i1 r i0' : itr_inv i0 → itr_at st1 i1 → itr_same i0 i1 → resultsItr_Next i0 = (r, i0') → itr_agrees i0' →
  ∃ i1', resultsItr_Next i1 = (r, i1') ∧ itr_same i0' i1' ∧ itr_at st1 i1'.
Proof.
  intros (Hat & h & Hh & Hinv) Hat1 (Hns & He & Hi & Hh') Hn0 Hag.
  destruct (at_rest st1 i1 Hat1) as (rest1 & Hr1 & Hd1). rewrite <-Hns, <-He, <-Hi in *.
  destruct (at_cases st0 i0 Hat) as [(k & vv & rest & itr' & Hr & Hx & Hn & Hd)|(Hr & itr' & Hn & Hd)].
  - assert (k ≠ []) as Hk.
    { intros ->. assert (([], vv) ∈ range_kvs (st0 (ri_ns i0)) (StartKey (info i0)) (ri_endKey i0)) as [Hm _]%elem_of_range_kvs by (rewrite Hr; set_solver).
      by rewrite Hempty in Hm by apply Hat. }
    destruct (AddResult_inv 50 hashFunc hashf ser ltac:(lia) ltac:(done) Hhash Hser h _ (NewKVRead k (vv_Version vv)) Hinv) as (h' & Ha & Hinv').
    destruct (at_some st0 i0 k vv rest itr' h' Hat Hk Hx Hr Hd) as (Hat' & Hc & Hle).
    rewrite (Next_some _ _ _ _ _ _ _ Hh Hx Hn Ha) in Hn0. injection Hn0 as <- <-. unfold itr_agrees in Hag; simpl in Hag.
    pose proof (covered_same _ _ (at_ns _ _ Hat) Hag) as Hc'. pose proof (covered_same _ _ (at_ns _ _ Hat) (covered_reads_mono _ _ _ Hle Hag)) as Hc0.
    rewrite Hc, Hc0 in Hc'. assert (in_range (StartKey (info i0)) (ri_endKey i0) k) as Hin.
    { pose proof (at_end _ _ Hat) as Hend. rewrite Hx in Hend. by destruct (covered_step _ _ _ _ _ _ Hx Hend Hk Hr) as (_ & ? & _). }
    destruct (rest_head _ _ _ _ _ _ _ Hin Hk Hr1 (eq_sym Hc')) as (rest' & ->).
    inversion Hd1 as [|? itr1' ?? Hn1 Hd1']; subst. eexists. split; [eapply Next_some; rewrite <-?Hi; [by rewrite <-Hh'|done|exact Hn1|exact Ha]|].
    split; [unfold itr_same; simpl; by rewrite Hns, He, Hi|]. rewrite Hi in Hr1, Hx. rewrite Hns, He in Hr1. rewrite Hns in Hd1'.
    by destruct (at_some st1 i1 k vv rest' itr1' h' Hat1 Hk Hx Hr1 Hd1') as (? & _).
  - destruct (at_none st0 i0 itr' h Hat Hd) as [Hat' Hle].
    rewrite (Next_none _ _ _ Hh Hn) in Hn0. injection Hn0 as <- <-. unfold itr_agrees in Hag; simpl in Hag.
    pose proof (covered_same _ _ (at_ns _ _ Hat) Hag) as Hc'. pose proof (covered_same _ _ (at_ns _ _ Hat) (covered_reads_mono _ _ _ Hle Hag)) as Hc0.
    unfold covered in Hc' at 1 2; simpl in Hc'. rewrite Hr, Hc0, Hr1 in Hc'.
    assert (rest1 = []) as -> by (destruct rest1; [done|]; apply (f_equal length) in Hc'; rewrite length_app in Hc'; simpl in Hc'; lia).
    inversion Hd1 as [? itr1' Hn1|]; subst. eexists. split; [eapply Next_none; [by rewrite <-Hh'|exact Hn1]|].
    split; [unfold itr_same; simpl; by rewrite Hns, He, Hi|].
    by destruct (at_none st1 i1 itr1' h Hat1 (Drains_nil _ _ (stable_end _ _ Hn1))).
Qed.
(** *** Builders *)

Definition key_info (k : rangeQueryKey) : RangeQueryInfo :=
  {| StartKey := rq_startKey k; EndKey := rq_endKey k; ItrExhausted := rq_itrExhausted k; rqi_ReadsInfo := None |}.
(** A query with its results or their summary. *)
Definition summarised (i : RangeQueryInfo) (rs : list KVRead) : RangeQueryInfo :=
  let '(results, hash) := merkle_reference 50 hashf ser rs in
  let i := if decide (results = []) then i else SetRawReads i results in
  match hash with None => i | Some _ => SetMerkelSummary i hash end.
Definition expected (ns : bytes) (k : rangeQueryKey) : RangeQueryInfo :=
  summarised (key_info k) (covered_reads st0 ns (key_info k)).

Record builder_inv (b : RWSetBuilder) : Prop := {
  bi_wf : builder_wf b;
  bi_reads ns key r : pub_reads b ns !! key = Some r → plain_ns ns ∧ r = NewKVRead key (ver0 (pub_ck ns key));
  bi_hashed ns coll key r : hash_reads b ns coll !! key = Some r →
    plain_ns ns ∧ coll_ok coll ∧ r = newPvtKVReadHash key (ver0 (hash_ck ns coll key));
  bi_queries ns k rqi : queries b ns !! k = Some rqi → plain_ns ns ∧ rqi = expected ns k
}.
Record builder_ok (b : RWSetBuilder) : Prop := {
  bo_reads ns key : is_Some (pub_reads b ns !! key) → agree (pub_ck ns key);
  bo_hashed ns coll key : is_Some (hash_reads b ns coll !! key) → agree (hash_ck ns coll key)
}.
Definition grows (f : RWSetBuilder → RWSetBuilder) : Prop := ∀ b, builder_inv b → builder_inv (f b) ∧ (builder_ok (f b) → builder_ok b).

Lemma NewRWSetBuilder_inv : builder_inv NewRWSetBuilder.
Proof. split; [apply NewRWSetBuilder_wf|..]; by intros. Qed.
Lemma quiet_grows f : quiet f → grows f.
Proof.
  intros [Q1 Q2 Q3 Q4] b [W R HR Q]. split.
  - split; [auto| | |]; intros *; rewrite ?Q2, ?Q3, ?Q4; eauto.
  - intros [R' HR']. split; intros *; [rewrite <-Q2|rewrite <-Q3]; auto.
Qed.
Lemma grows_read ns key v : plain_ns ns → v = ver0 (pub_ck ns key) → grows (λ b, AddToReadSet b ns key v).
Proof.
  intros Hns -> b [W R HR Q]. destruct (AddToReadSet_effect b ns key (ver0 (pub_ck ns key))) as (W' & R' & HR' & Q'). split.
  - split; [auto| | |]; intros *; rewrite ?R', ?HR', ?Q'; eauto. case_decide as Hd; [|eauto]. destruct Hd as [-> ->]. by intros [= <-].
  - intros [Ro Ho]. split; intros *; [|rewrite <-HR'; auto]. intros Hs. apply Ro. rewrite R'. by case_decide.
Qed.
Lemma grows_hashed_read ns coll key v : plain_ns ns → coll_ok coll → v = ver0 (hash_ck ns coll key) →
  grows (λ b, AddToHashedReadSet b ns coll key v).
Proof.
  intros Hns Hc -> b [W R HR Q]. destruct (AddToHashedReadSet_effect b ns coll key (ver0 (hash_ck ns coll key))) as (W' & HR' & R' & Q'). split.
  - split; [auto| | |]; intros *; rewrite ?R', ?HR', ?Q'; eauto. case_decide as Hd; [|eauto]. destruct Hd as (-> & -> & ->). by intros [= <-].
  - intros [Ro Ho]. split; intros *; [rewrite <-R'; auto|]. intros Hs. apply Ho. rewrite HR'. by case_decide.
Qed.
Lemma read_agrees b ns key v : builder_ok (AddToReadSet b ns key v) → agree (pub_ck ns key).
Proof. intros [Ro _]. apply Ro. rewrite (proj1 (proj2 (AddToReadSet_effect _ _ _ _))), decide_True; eauto. Qed.
Lemma hashed_read_agrees b ns coll key v : builder_ok (AddToHashedReadSet b ns coll key v) → agree (hash_ck ns coll key).
Proof. intros [_ Ho]. apply Ho. rewrite (proj1 (proj2 (AddToHashedReadSet_effect _ _ _ _ _))), decide_True; eauto. Qed.

(** *** Executors *)

Record exec_inv (q : executor) : Prop := {
  ei_builder : ∃ b, qe_rwsetBuilder q = Some b ∧ builder_inv b;
  ei_itrs : Forall itr_inv (qe_itrs q);
  ei_err : qe_err q = None
}.
Record exec_ok (q : executor) : Prop := {
  eo_builder b : qe_rwsetBuilder q = Some b → builder_ok b;
  eo_itrs : Forall itr_agrees (qe_itrs q)
}.
Record exec_rel (q0 q1 : executor) : Prop := {
  er_builder : qe_rwsetBuilder q0 = qe_rwsetBuilder q1;
  er_noop : qe_noop q0 = qe_noop q1;
  er_cache : qe_cache q0 = qe_cache q1;
  er_err : qe_err q0 = qe_err q1;
  er_done : qe_doneInvoked q0 = qe_doneInvoked q1;
  er_reads : qe_privateReads q0 = qe_privateReads q1;
  er_itrs : Forall2 (λ i0 i1, itr_same i0 i1 ∧ itr_at st1 i1) (qe_itrs q0) (qe_itrs q1)
}.
Notation mir := (mirrored exec_inv exec_ok exec_rel).

Lemma mirrored_record {A} (f0 f1 : RWSetBuilder → RWSetBuilder) (a0 a1 : A) :
  grows f0 → (∀ b, builder_ok (f0 b) → f0 = f1 ∧ a0 = a1) →
  mir (on_builder f0;; st_ret a0)%stateful (on_builder f1;; st_ret a1)%stateful.
Proof.
  intros Hf Hsame. split.
  - intros q r q' [(b & Hb & Hbi) Hi He] [= <- <-]. destruct (Hf b Hbi) as [Hinv Hmono]. split.
    + split; simpl; [|done|done]. rewrite Hb. eexists. by split.
    + intros [Hob Hoi]. split; [|done]. intros b'. rewrite Hb. intros [= <-]. apply Hmono, Hob. simpl. by rewrite Hb.
  - intros q0 q1 r q0' [(b & Hb & Hbi) Hi He] [R1 R2 R3 R4 R5 R6 R7] [= <- <-] [Hob _].
    destruct (Hsame b) as [<- <-]; [apply Hob; simpl; by rewrite Hb|]. eexists. split; [done|].
    split; simpl; try done. by rewrite R1.
Qed.
Lemma mirrored_builder f : grows f → mir (on_builder f) (on_builder f).
Proof.
  intros Hf. destruct (mirrored_record f f () () Hf) as [Hg Hs]; [done|]. split.
  - intros q r q' Hq [= <- <-]. by apply (Hg q (Ok ())).
  - intros q0 q1 r q0' Hq Hr [= <- <-] Hok. by apply (Hs q0 q1 (Ok ())).
Qed.
Lemma mirrored_checkDone : mir checkDone checkDone.
Proof.
  apply (mirrored_get _ _ _ qe_doneInvoked); [by intros ?? []|]. intros q0 q1 _ ->.
  destruct (qe_doneInvoked q1); [apply mirrored_fail|apply mirrored_ret].
Qed.
(** *** Reads of public data *)

Lemma mirrored_value {A B} (v0 v1 : B) (f0 f1 : B → stateful executor A) :
  mir (f0 v0) (f1 v1) → mir (st_bind (st_lift (Ok v0)) f0) (st_bind (st_lift (Ok v1)) f1).
Proof. done. Qed.

Lemma decompose_version v : (decomposeVersionedValue v).2 = v ≫= vv_Version.
Proof. by destruct v. Qed.

Lemma mirrored_getState ns key : plain_ns ns → mir (getState db0 ns key) (getState db1 ns key).
Proof.
  intros Hns. apply mirrored_bind; [apply mirrored_checkDone|]. intros _. rewrite !GetState_law. apply mirrored_value.
  pose proof (decompose_version (st0 ns !! key)) as Hv.
  destruct (decomposeVersionedValue (st0 ns !! key)) as [[val m] ver] eqn:E0, (decomposeVersionedValue (st1 ns !! key)) as [[val1 m1] ver1] eqn:E1.
  apply mirrored_record; [by apply grows_read|]. intros b Hok%read_agrees. rewrite (pub_det ns key), E1 in E0 by done. by injection E0 as -> -> ->.
Qed.
Lemma mirrored_GetState ns key : plain_ns ns → mir (queryExecutor_GetState db0 ns key) (queryExecutor_GetState db1 ns key).
Proof. intros Hns. apply mirrored_bind; [by apply mirrored_getState|]. intros v. apply mirrored_ret. Qed.
Lemma mirrored_GetStateMetadata ns key : plain_ns ns →
  mir (queryExecutor_GetStateMetadata db0 ns key) (queryExecutor_GetStateMetadata db1 ns key).
Proof.
  intros Hns. apply mirrored_bind; [apply mirrored_checkDone|]. intros _.
  apply (mirrored_get _ _ _ qe_rwsetBuilder); [by intros ?? []|]. intros q0 q1 [(b & Hb & _) _ _] <-. rewrite Hb.
  apply mirrored_bind; [|intros; apply mirrored_lift].
  apply mirrored_bind; [by apply mirrored_getState|]. intros; apply mirrored_ret.
Qed.

Lemma grows_fold {A} (f : RWSetBuilder → A → RWSetBuilder) l : (∀ x, x ∈ l → grows (λ b, f b x)) → grows (λ b, foldl f b l).
Proof.
  induction l as [|x l IH]; intros Hf; [by intros b|]. intros b Hb. simpl.
  destruct (Hf x ltac:(by left) b Hb) as [H1 H2]. destruct (IH (λ y Hy, Hf y (list_elem_of_further _ _ _ Hy)) _ H1) as [H3 H4]. auto.
Qed.
Lemma fold_reads b ns (l : list (bytes * option VersionedValue)) key : key ∈ l.*1 →
  is_Some (pub_reads (foldl (λ b kv, AddToReadSet b ns kv.1 (decomposeVersionedValue kv.2).2) b l) ns !! key).
Proof.
  induction l as [|[k v] l IH] using rev_ind; [by intros ?%not_elem_of_nil|]. rewrite foldl_snoc, fmap_app, elem_of_app.
  destruct (AddToReadSet_effect (foldl (λ b kv, AddToReadSet b ns kv.1 (decomposeVersionedValue kv.2).2) b l) ns k (decomposeVersionedValue v).2) as (_ & Hr & _).
  simpl. rewrite Hr. intros [Hk|Hk].
  - case_decide; [by eexists|auto].
  - apply list_elem_of_singleton in Hk as ->. rewrite decide_True by done. by eexists.
Qed.
Lemma zip_fmap_elem {A B} (f : A → B) (l : list A) p : p ∈ zip l (f <$> l) → p.2 = f p.1 ∧ p.1 ∈ l.
Proof.
  induction l as [|x l IH]; [by intros ?%not_elem_of_nil|]. simpl. intros [->|Hp]%elem_of_cons; [split; [done|by left]|].
  destruct (IH Hp). split; [done|by right].
Qed.
Lemma mirrored_GetStateMultipleKeys ns keys : plain_ns ns →
  mir (queryExecutor_GetStateMultipleKeys db0 ns keys) (queryExecutor_GetStateMultipleKeys db1 ns keys).
Proof.
  intros Hns. apply mirrored_bind; [apply mirrored_checkDone|]. intros _.
  rewrite (mapM_map _ (λ key, st0 ns !! key)) by (apply Forall_true; intros; apply GetState_law).
  rewrite (mapM_map _ (λ key, st1 ns !! key)) by (apply Forall_true; intros; apply GetState_law).
  apply mirrored_record.
  - apply (grows_fold (λ b kv, AddToReadSet b ns kv.1 (decomposeVersionedValue kv.2).2)). intros [k v] [Hv Hk]%zip_fmap_elem.
    simpl in *. apply grows_read; [done|]. by rewrite Hv, decompose_version.
  - intros b [Hok _]. assert (∀ key, key ∈ keys → st0 ns !! key = st1 ns !! key) as Hsame.
    { intros key Hkey. apply pub_det; [done|]. apply Hok, fold_reads. rewrite fst_zip by (by rewrite length_fmap). done. }
    assert ((λ key, st0 ns !! key) <$> keys = (λ key, st1 ns !! key) <$> keys) as ->; [|done].
    apply list_fmap_ext. intros i key Hkey. apply Hsame. by eapply list_elem_of_lookup_2.
Qed.

(** *** Names of collections *)

Context (Hprov : ∀ ns, config_ok (provider ns)).

Lemma mirrored_config c : config_ok c → mir (run_config_query db0 c) (run_config_query db1 c).
Proof.
  induction c as [r|ns key k IH]; intros Hc; [apply mirrored_lift|]. destruct Hc as [Hns Hk].
  apply mirrored_bind; [by apply mirrored_GetState|]. intros v. apply IH, Hk.
Qed.
Lemma mirrored_set_cache c : mir (set_cache c) (set_cache c).
Proof.
  apply mirrored_modify; [intros q [? ? ?]; split; [by split|intros [? ?]; by split]|].
  intros q0 q1 _ [? ? ? ? ? ? ?] _. by split.
Qed.
Lemma mirrored_validateCollName ns coll : mir (validateCollName db0 provider ns coll) (validateCollName db1 provider ns coll).
Proof.
  apply (mirrored_get _ _ _ (λ q, (qe_noop q, qe_cache q))); [intros ?? []; congruence|]. intros q0 q1 _ [= -> ->].
  destruct (qe_noop q1); [apply mirrored_ret|]. apply mirrored_bind.
  - case_decide; [apply mirrored_ret|]. apply mirrored_bind.
    + apply mirrored_bind; [by apply mirrored_config|]. intros [pkg|]; [apply mirrored_ret|apply mirrored_fail].
    + intros conf. apply (mirrored_get _ _ _ qe_cache); [by intros ?? []|]. intros s0 s1 _ ->. apply mirrored_set_cache.
  - intros _. apply (mirrored_get _ _ _ qe_cache); [by intros ?? []|]. intros s0 s1 _ ->.
    case_decide; [apply mirrored_ret|apply mirrored_fail].
Qed.
(** *** Range queries *)

Lemma new_helper : ∃ h, NewRangeQueryResultsHelper true 50 hashFunc = Ok h ∧ helper_inv 50 hashFunc hashf ser h [].
Proof. exact (new_helper_inv 50 hashFunc hashf ser ltac:(lia) ltac:(done) Hhash Hser). Qed.

(** A new iterator has covered nothing. *)
Lemma new_itr_at (db : PrivDB DB L) st `{!VersionedDBLaws (pdb_vdb db) st} ns s e : plain_ns ns →
  ∃ itr, newResultsItr db hashFunc ns s e 0 true queryReadsHashingEnabled maxDegreeQueryReadsHashing = Ok itr ∧ itr_at st itr ∧
    ri_ns itr = ns ∧ ri_endKey itr = e ∧ info itr = {| StartKey := s; EndKey := []; ItrExhausted := false; rqi_ReadsInfo := None |} ∧
    Ok (ri_rangeQueryResultsHelper itr) = (h ← NewRangeQueryResultsHelper true 50 hashFunc; Ok (Some h)).
Proof.
  intros Hns. destruct (RangeScan_law (db := pdb_vdb db) (st := st) ns s e) as (i & Hi & Hd); [apply Hns|].
  destruct new_helper as (h & Hh & _). unfold newResultsItr, queryReadsHashingEnabled, maxDegreeQueryReadsHashing. rewrite decide_True, Hi, Hh by done.
  run. eexists. split; [done|]. split_and!; try done.
  split; simpl; [done|done|by left|]. by exists (range_kvs (st ns) s e).
Qed.
Lemma mirrored_RangeScan ns s e : plain_ns ns →
  mir (queryExecutor_GetStateRangeScanIterator db0 hashFunc ns s e) (queryExecutor_GetStateRangeScanIterator db1 hashFunc ns s e).
Proof.
  intros Hns. apply mirrored_bind; [apply mirrored_checkDone|]. intros _.
  destruct (new_itr_at db0 st0 ns s e Hns) as (i0 & Hi0 & At0 & N0 & E0 & F0 & H0).
  destruct (new_itr_at db1 st1 ns s e Hns) as (i1 & Hi1 & At1 & N1 & E1 & F1 & H1).
  destruct new_helper as (h & Hh & Hhi). rewrite Hh in H0, H1. injection H0 as H0. injection H1 as H1.
  assert (itr_inv i0) as Hinv.
  { split; [done|]. exists h. split; [done|]. unfold covered_reads, covered. rewrite F0. done. }
  split.
  - intros q r q' [(b & Hb & Hbi) Hi He] Hm. unfold st_bind, st_get, st_lift in Hm.
    rewrite Hb, bool_decide_eq_true_2, Hi0 in Hm by eauto. injection Hm as <- <-. split.
    + split; simpl; [eauto| |done]. apply Forall_app. split; [done|by constructor].
    + intros [Ho Hf]. simpl in *. split; [done|]. by apply Forall_app in Hf as [? _].
  - intros q0 q1 r q0' [(b & Hb & Hbi) Hi He] [R1 R2 R3 R4 R5 R6 R7] Hm _. unfold st_bind, st_get, st_lift in *.
    rewrite <-R1. rewrite Hb, bool_decide_eq_true_2, Hi0 in Hm by eauto. rewrite Hb, bool_decide_eq_true_2, Hi1 by eauto.
    injection Hm as <- <-. rewrite (Forall2_length _ _ _ R7). eexists. split; [done|]. split; simpl; try congruence.
    apply Forall2_app; [done|]. repeat constructor; simpl; try congruence. all: apply At1.
Qed.
Lemma mirrored_Next i : mir (itr_Next i) (itr_Next i).
Proof.
  split.
  - intros q r q' Hq Hm. pose proof Hq as [(b & Hb & Hbi) Hi He]. unfold itr_Next, st_bind, st_get, st_lift, index in Hm.
    destruct (qe_itrs q !! i) as [itr|] eqn:E; [|by injection Hm as <- <-].
    destruct (Next_inv itr) as (o & itr' & Hn & Hinv & Hns & Hle); [by eapply (Forall_lookup_1 _ _ _ _ Hi)|].
    rewrite Hn in Hm. injection Hm as <- <-. split.
    + split; simpl; [eauto| |done]. by apply Forall_insert.
    + intros [Ho Hf]. split; [done|]. simpl in Hf. apply Forall_lookup. intros j x Hx.
      destruct (decide (j = i)) as [->|Hne].
      * rewrite E in Hx. injection Hx as <-.
        assert (itr_agrees itr') as Ha.
        { eapply (Forall_lookup_1 _ _ i); [done|]. apply list_lookup_insert_eq. by eapply lookup_lt_Some. }
        unfold itr_agrees in *. rewrite Hns in Ha. by eapply covered_reads_mono.
      * eapply (Forall_lookup_1 _ _ j); [done|]. by rewrite list_lookup_insert_ne.
  - intros q0 q1 r q0' [(b & Hb & Hbi) Hi He] [R1 R2 R3 R4 R5 R6 R7] Hm [_ Hok]. unfold itr_Next, st_bind, st_get, st_lift, index in *.
    destruct (qe_itrs q0 !! i) as [i0|] eqn:E0.
    2:{ injection Hm as <- <-. destruct (qe_itrs q1 !! i) as [i1|] eqn:E1; [|by eexists].
        apply lookup_ge_None in E0. apply lookup_lt_Some in E1. apply Forall2_length in R7. lia. }
    destruct (Forall2_lookup_l _ _ _ _ _ R7 E0) as (i1 & E1 & Hs & Hat). rewrite E1.
    destruct (resultsItr_Next i0) as [r0 i0'] eqn:Hn0. injection Hm as <- <-. simpl in Hok.
    assert (itr_agrees i0') as Ha.
    { eapply (Forall_lookup_1 _ _ i); [done|]. apply list_lookup_insert_eq. by eapply lookup_lt_Some. }
    destruct (Next_same i0 i1 r0 i0') as (i1' & -> & Hs' & Hat'); [by eapply (Forall_lookup_1 _ _ _ _ Hi)|done..|].
    eexists. split; [done|]. split; simpl; try done. by apply Forall2_insert.
Qed.
(** *** Private data *)

(** The private data of every collection is there in the version of its hash,
    and equal versions have equal values. *)
Definition pvt_complete (db : PrivDB DB L) (st : state) : Prop := ∀ ns coll key, plain_ns ns → coll_ok coll →
  (st (derivePvtDataNs ns coll) !! key ≫= vv_Version) = (committed db st (hash_ck ns coll key) ≫= vv_Version).
Context (Hpvt0 : pvt_complete db0 st0) (Hpvt1 : pvt_complete db1 st1).
Context (Hpvt : ∀ ns coll key, plain_ns ns → coll_ok coll →
  (st0 (derivePvtDataNs ns coll) !! key ≫= vv_Version) = (st1 (derivePvtDataNs ns coll) !! key ≫= vv_Version) →
  (st0 (derivePvtDataNs ns coll) !! key ≫= Value) = (st1 (derivePvtDataNs ns coll) !! key ≫= Value)).

Lemma committed_hash (db : PrivDB DB L) st ns coll key : coll_ok coll →
  committed db st (hash_ck ns coll key) = st (deriveHashedDataNs ns coll) !! key_hash_str db (ComputeStringHash key).
Proof using Type. intros [Hc _]. unfold committed; simpl. by rewrite decide_False. Qed.

Lemma mirrored_private_read ns coll : mir (add_private_read ns coll) (add_private_read ns coll).
Proof.
  apply mirrored_modify; [intros q [? ? ?]; split; [by split|intros [? ?]; by split]|].
  intros q0 q1 _ [R1 R2 R3 R4 R5 R6 R7] _. split; simpl; try done. by rewrite R1, R6.
Qed.
Lemma mirrored_GetPrivateData ns coll key : plain_ns ns → coll_ok coll →
  mir (queryExecutor_GetPrivateData db0 provider ns coll key) (queryExecutor_GetPrivateData db1 provider ns coll key).
Proof.
  intros Hns Hc. apply mirrored_bind; [apply mirrored_validateCollName|]. intros _.
  apply mirrored_bind; [apply mirrored_checkDone|]. intros _. unfold GetPrivateData, GetKeyHashVersion.
  rewrite !GetState_law, !GetVersion_law. apply mirrored_value.
  pose proof (Hpvt0 ns coll key Hns Hc) as H0. pose proof (Hpvt1 ns coll key Hns Hc) as H1. pose proof (Hpvt ns coll key Hns Hc) as Hv.
  rewrite committed_hash in H0, H1 by done. rewrite <-H0, <-H1.
  assert (AreSame (st0 (derivePvtDataNs ns coll) !! key ≫= vv_Version) (st0 (derivePvtDataNs ns coll) !! key ≫= vv_Version) = true) as HA0 by by apply AreSame_spec.
  assert (AreSame (st1 (derivePvtDataNs ns coll) !! key ≫= vv_Version) (st1 (derivePvtDataNs ns coll) !! key ≫= vv_Version) = true) as HA1 by by apply AreSame_spec.
  assert (∀ v : option VersionedValue, decomposeVersionedValue v = (v ≫= Value, v ≫= Metadata, v ≫= vv_Version)) as Hdec by (by intros []).
  rewrite !Hdec. apply mirrored_value. rewrite HA0, HA1. cbn [negb].
  assert (mirrored exec_inv exec_ok exec_rel
    (on_builder (λ b, AddToHashedReadSet b ns coll key (st0 (derivePvtDataNs ns coll) !! key ≫= vv_Version));; st_ret (st0 (derivePvtDataNs ns coll) !! key ≫= Value))%stateful
    (on_builder (λ b, AddToHashedReadSet b ns coll key (st1 (derivePvtDataNs ns coll) !! key ≫= vv_Version));; st_ret (st1 (derivePvtDataNs ns coll) !! key ≫= Value))%stateful) as Hrec.
  { apply mirrored_record; [apply grows_hashed_read; [done|done|]; by rewrite H0; unfold ver0; rewrite committed_hash|].
    intros b Hok%hashed_read_agrees. unfold agree, ver0 in Hok. rewrite !committed_hash, <-H0, <-H1 in Hok by done.
    by rewrite (Hv Hok), Hok. }
  apply (mirrored_bind _ _ _ _ _ (λ val, add_private_read ns coll;; st_ret val)%stateful (λ val, add_private_read ns coll;; st_ret val)%stateful) in Hrec; [exact Hrec|].
  intros val. apply mirrored_bind; [apply mirrored_private_read|]. intros _. apply mirrored_ret.
Qed.
(** The value under a hashed key, recorded with its version. *)
Lemma mirrored_hash_record {A} ns coll key (g : option bytes → option bytes → A) : plain_ns ns → coll_ok coll →
  let op v := let '(valHash, metadata, ver) := decomposeVersionedValue v in
    (on_builder (λ b, AddToHashedReadSet b ns coll key ver);; st_ret (g valHash metadata))%stateful : stateful executor A in
  mir (op (committed db0 st0 (hash_ck ns coll key))) (op (committed db1 st1 (hash_ck ns coll key))).
Proof.
  intros Hns Hc op. unfold op. pose proof (decompose_version (committed db0 st0 (hash_ck ns coll key))) as Hv.
  destruct (decomposeVersionedValue (committed db0 st0 _)) as [[val m] ver] eqn:E0, (decomposeVersionedValue (committed db1 st1 _)) as [[val1 m1] ver1] eqn:E1.
  apply mirrored_record; [by apply grows_hashed_read|]. intros b Hok%hashed_read_agrees.
  rewrite (Hdet (hash_ck ns coll key) Hns (proj2 Hc) Hok), E1 in E0. by injection E0 as -> -> ->.
Qed.
Lemma mirrored_getPrivateDataValueHash ns coll key : plain_ns ns → coll_ok coll →
  mir (getPrivateDataValueHash db0 provider ns coll key) (getPrivateDataValueHash db1 provider ns coll key).
Proof.
  intros Hns Hc. apply mirrored_bind; [apply mirrored_validateCollName|]. intros _.
  apply mirrored_bind; [apply mirrored_checkDone|]. intros _. unfold GetPrivateDataHash, GetValueHash. rewrite !GetState_law.
  rewrite <-!committed_hash by done. apply mirrored_value. by apply mirrored_hash_record.
Qed.
Lemma mirrored_GetPrivateDataHash ns coll key : plain_ns ns → coll_ok coll →
  mir (queryExecutor_GetPrivateDataHash db0 provider ns coll key) (queryExecutor_GetPrivateDataHash db1 provider ns coll key).
Proof.
  intros Hns Hc. apply mirrored_bind; [apply mirrored_validateCollName|]. intros _.
  apply mirrored_bind; [apply mirrored_checkDone|]. intros _. unfold GetPrivateDataHash, GetValueHash. rewrite !GetState_law.
  rewrite <-!committed_hash by done. apply mirrored_value. by apply (mirrored_hash_record ns coll key (λ valHash _, valHash)).
Qed.
Lemma mirrored_GetPrivateDataMetadata ns coll key : plain_ns ns → coll_ok coll →
  mir (queryExecutor_GetPrivateDataMetadata db0 provider ns coll key) (queryExecutor_GetPrivateDataMetadata db1 provider ns coll key).
Proof.
  intros Hns Hc. apply (mirrored_get _ _ _ qe_rwsetBuilder); [by intros ?? []|]. intros q0 q1 [(b & Hb & _) _ _] <-. rewrite Hb.
  apply mirrored_bind; [apply mirrored_validateCollName|]. intros _. apply mirrored_bind; [apply mirrored_checkDone|]. intros _.
  apply mirrored_bind; [by apply mirrored_getPrivateDataValueHash|]. intros v. apply mirrored_lift.
Qed.
(** *** Simulators *)

Definition sim_inv (s : txSimulator I) : Prop := exec_inv (ts_queryExecutor s).
Definition sim_ok (s : txSimulator I) : Prop := exec_ok (ts_queryExecutor s).
(** The metadata of the written keys may differ. *)
Definition sim_rel (s0 s1 : txSimulator I) : Prop :=
  exec_rel (ts_queryExecutor s0) (ts_queryExecutor s1) ∧ writePerformed s0 = writePerformed s1 ∧
  pvtdataQueriesPerformed s0 = pvtdataQueriesPerformed s1 ∧ simulationResultsComputed s0 = simulationResultsComputed s1 ∧
  paginatedQueriesPerformed s0 = paginatedQueriesPerformed s1.
Notation smir := (mirrored sim_inv sim_ok sim_rel).

(** Writes are checked in the same way, and the metadata of every key can be read. *)
Definition metadata_ok (db : PrivDB DB L) : Prop :=
  (∀ ns key, ∃ m, (b ← GetStateMetadata db ns key; Deserialize b) = Ok m) ∧
  (∀ ns coll keyHash, ∃ m, (b ← GetPrivateDataMetadataByHash db ns coll keyHash; Deserialize b) = Ok m).
Context (Hvalid : ∀ key value, ValidateKeyValue (pdb_vdb db0) key value = ValidateKeyValue (pdb_vdb db1) key value).
Context (Hmeta0 : metadata_ok db0) (Hmeta1 : metadata_ok db1).

Lemma mirrored_on_executor {A} (m0 m1 : stateful executor A) : mir m0 m1 → smir (on_executor m0) (on_executor m1).
Proof.
  intros [Hg Hs]. split.
  - intros s r s' Hi Hm. unfold on_executor in Hm. destruct (m0 _) as [r' q'] eqn:E. injection Hm as <- <-. by apply (Hg _ _ _ Hi E).
  - intros s0 s1 r s0' Hi (Hr & Hf) Hm Hok. unfold on_executor in *. destruct (m0 _) as [r' q'] eqn:E. injection Hm as <- <-.
    destruct (Hs _ _ _ _ Hi Hr E Hok) as (q1' & -> & Hr'). eexists. split; [done|]. by split.
Qed.
Lemma mirrored_flag (f : txSimulator I → txSimulator I) :
  (∀ s, ts_queryExecutor (f s) = ts_queryExecutor s) → (∀ s0 s1, sim_rel s0 s1 → sim_rel (f s0) (f s1)) → smir (st_modify f) (st_modify f).
Proof.
  intros Hq Hr. apply mirrored_modify; [|by auto]. intros s Hs. unfold sim_inv, sim_ok. by rewrite Hq.
Qed.
Lemma mirrored_set_writePerformed : smir set_writePerformed set_writePerformed.
Proof. apply mirrored_flag; [done|]. intros s0 s1 (? & ? & ? & ? & ?). by split_and!. Qed.
Lemma mirrored_checkWritePrecondition key value : smir (checkWritePrecondition db0 key value) (checkWritePrecondition db1 key value).
Proof.
  apply mirrored_bind; [apply mirrored_on_executor, mirrored_checkDone|]. intros _. apply mirrored_bind.
  - apply (mirrored_get _ _ _ pvtdataQueriesPerformed); [by intros ?? (_ & _ & ? & _)|]. intros s0 s1 _ ->.
    destruct (pvtdataQueriesPerformed s1); [apply mirrored_fail|apply mirrored_ret].
  - intros _. apply mirrored_bind.
    { apply (mirrored_get _ _ _ paginatedQueriesPerformed); [by intros ?? (_ & _ & _ & _ & ?)|]. intros s0 s1 _ ->.
      destruct (paginatedQueriesPerformed s1); [apply mirrored_fail|apply mirrored_ret]. }
    intros _. apply mirrored_bind; [apply mirrored_set_writePerformed|]. intros _. rewrite Hvalid. apply mirrored_lift.
Qed.
Lemma mirrored_metadata (r0 r1 : res (option bytes)) ns coll key m0 m1 :
  (b ← r0; Deserialize b) = Ok m0 → (b ← r1; Deserialize b) = Ok m1 →
  smir (b ⇐ st_lift r0; m ⇐ st_lift (Deserialize b); add_writesetMetadata ns coll key m)%stateful
       (b ⇐ st_lift r1; m ⇐ st_lift (Deserialize b); add_writesetMetadata ns coll key m)%stateful.
Proof.
  intros (b0 & -> & E0)%bind_Ok (b1 & -> & E1)%bind_Ok. unfold st_bind, st_lift. rewrite E0, E1. apply mirrored_modify; [done|].
  intros s0 s1 _ (? & ? & ? & ? & ?) _. by split_and!.
Qed.
Lemma mirrored_checkStateMetadata ns key : smir (checkStateMetadata db0 ns key) (checkStateMetadata db1 ns key).
Proof. destruct (proj1 Hmeta0 ns key) as [m0 E0], (proj1 Hmeta1 ns key) as [m1 E1]. by eapply mirrored_metadata. Qed.
Lemma mirrored_checkPrivateStateMetadata ns coll key :
  smir (checkPrivateStateMetadata db0 ns coll key) (checkPrivateStateMetadata db1 ns coll key).
Proof.
  destruct (proj2 Hmeta0 ns coll (ComputeStringHash key)) as [m0 E0], (proj2 Hmeta1 ns coll (ComputeStringHash key)) as [m1 E1].
  by eapply mirrored_metadata.
Qed.
Lemma mirrored_write f : quiet f → smir (on_executor (on_builder f)) (on_executor (on_builder f)).
Proof. intros Hf. by apply mirrored_on_executor, mirrored_builder, quiet_grows. Qed.
Lemma mirrored_SetState ns key value : smir (SetState db0 ns key value) (SetState db1 ns key value).
Proof.
  apply mirrored_bind; [apply mirrored_checkWritePrecondition|]. intros _.
  apply mirrored_bind; [apply mirrored_write, quiet_AddToWriteSet|]. intros _. apply mirrored_checkStateMetadata.
Qed.
Lemma mirrored_SetStateMetadata ns key m : smir (SetStateMetadata db0 ns key m) (SetStateMetadata db1 ns key m).
Proof.
  apply mirrored_bind; [apply mirrored_checkWritePrecondition|]. intros _.
  apply mirrored_bind; [apply mirrored_write, quiet_AddToMetadataWriteSet|]. intros _. apply mirrored_checkStateMetadata.
Qed.
Lemma mirrored_private_write ns coll key value (f : RWSetBuilder → RWSetBuilder) : quiet f →
  let op db := (on_executor (validateCollName db provider ns coll);; checkWritePrecondition db key value;; set_writePerformed;;
    on_executor (on_builder f);; checkPrivateStateMetadata db ns coll key)%stateful in
  smir (op db0) (op db1).
Proof.
  intros Hf op. apply mirrored_bind; [apply mirrored_on_executor, mirrored_validateCollName|]. intros _.
  apply mirrored_bind; [apply mirrored_checkWritePrecondition|]. intros _. apply mirrored_bind; [apply mirrored_set_writePerformed|]. intros _.
  apply mirrored_bind; [by apply mirrored_write|]. intros _. apply mirrored_checkPrivateStateMetadata.
Qed.
Lemma mirrored_SetPrivateDataMetadata ns coll key m :
  smir (SetPrivateDataMetadata db0 provider ns coll key m) (SetPrivateDataMetadata db1 provider ns coll key m).
Proof.
  apply mirrored_bind; [apply mirrored_on_executor, mirrored_validateCollName|]. intros _.
  apply mirrored_bind; [apply mirrored_checkWritePrecondition|]. intros _.
  apply mirrored_bind; [apply mirrored_write, quiet_AddToHashedMetadataWriteSet|]. intros _. apply mirrored_checkPrivateStateMetadata.
Qed.

Lemma mirrored_call c : call_ok c → smir (do_call db0 provider hashFunc c) (do_call db1 provider hashFunc c).
Proof.
  intros Hc. destruct c; simpl in *; (apply mirrored_bind; [|intros; apply mirrored_ret]).
  - by apply mirrored_on_executor, mirrored_GetState.
  - by apply mirrored_on_executor, mirrored_GetStateMetadata.
  - by apply mirrored_on_executor, mirrored_GetStateMultipleKeys.
  - by apply mirrored_on_executor, mirrored_RangeScan.
  - by apply mirrored_on_executor, mirrored_Next.
  - apply mirrored_on_executor, mirrored_GetPrivateData; apply Hc.
  - apply mirrored_on_executor, mirrored_GetPrivateDataHash; apply Hc.
  - apply mirrored_on_executor, mirrored_GetPrivateDataMetadata; apply Hc.
  - apply mirrored_SetState.
  - apply mirrored_SetStateMetadata.
  - apply (mirrored_private_write ns coll key value (λ b, AddToPvtAndHashedWriteSet b ns coll key value)), quiet_AddToPvtAndHashedWriteSet.
  - apply (mirrored_private_write ns coll key None (λ b, AddToPvtAndHashedWriteSetForPurge b ns coll key)), quiet_AddToPvtAndHashedWriteSetForPurge.
  - apply mirrored_SetPrivateDataMetadata.
Qed.

(** An error goes to the chaincode, a panic does not. *)
Lemma mirrored_handle {A B} (m0 m1 : stateful (txSimulator I) A) (f0 f1 : res A → stateful (txSimulator I) B) :
  smir m0 m1 → (∀ a, smir (f0 a) (f1 a)) →
  smir (λ s, match m0 s with (Panic, s) => (Panic, s) | (a, s) => f0 a s end) (λ s, match m1 s with (Panic, s) => (Panic, s) | (a, s) => f1 a s end).
Proof.
  intros [Hg Hs] Hf. split.
  - intros s r s' Hi Hm. destruct (m0 s) as [a t] eqn:E. destruct (Hg _ _ _ Hi E) as [Ht Hok].
    destruct a as [a|e|]; [| |by injection Hm as <- <-]; destruct (mi_grows _ _ _ _ _ (Hf _) _ _ _ Ht Hm) as [? ?]; auto.
  - intros s0 s1 r s0' Hi Hr Hm Hok. destruct (m0 s0) as [a t] eqn:E. destruct (Hg _ _ _ Hi E) as [Ht Hmono].
    assert (sim_ok t) as Hokt.
    { destruct a as [a|e|]; [| |by injection Hm as <- <-]; destruct (mi_grows _ _ _ _ _ (Hf _) _ _ _ Ht Hm) as [_ ?]; auto. }
    destruct (Hs _ _ _ _ Hi Hr E Hokt) as (t1 & -> & Hrt).
    destruct a as [a|e|]; [| |injection Hm as <- <-; eauto]; by apply (mi_same _ _ _ _ _ (Hf _) t).
Qed.
Lemma mirrored_program {R} (p : program R) : program_ok p → smir (run_program db0 provider hashFunc p) (run_program db1 provider hashFunc p).
Proof.
  induction p as [r|c k IH]; intros Hp; [apply mirrored_ret|]. destruct Hp as [Hc Hk].
  apply (mirrored_handle _ _ (λ a, run_program db0 provider hashFunc (k a)) (λ a, run_program db1 provider hashFunc (k a)));
    [by apply mirrored_call|]. intros a. by apply IH.
Qed.
Lemma new_sim_inv : sim_inv newTxSimulator ∧ sim_rel newTxSimulator newTxSimulator.
Proof.
  split; [|split; [|done]].
  - split; simpl; [exists NewRWSetBuilder; split; [done|apply NewRWSetBuilder_inv]|done|done].
  - by split.
Qed.
(** *** The end of a simulation *)

Lemma finished_expected itr : itr_inv itr → finished_info itr = Ok (expected (ri_ns itr) (query_key (info itr))).
Proof.
  intros ([_ Hi _ _] & h & Hh & Hinv). unfold finished_info, expected, summarised. rewrite Hh. unfold deref. run.
  rewrite (Done_inv 50 hashFunc hashf ser ltac:(lia) ltac:(done) Hhash Hser h _ Hinv).
  assert (key_info (query_key (info itr)) = info itr) as -> by (destruct (info itr); simpl in Hi; by subst).
  destruct (merkle_reference _ _ _ _) as [results hash]. run. by destruct (decide _), hash.
Qed.
Lemma finished_same i0 i1 : itr_same i0 i1 → finished_info i1 = finished_info i0.
Proof. intros (_ & _ & Hi & Hh). unfold finished_info. by rewrite Hi, Hh. Qed.

Definition add_query (b : RWSetBuilder) (itr : resultsItr I) : RWSetBuilder :=
  AddToRangeQuerySet b (ri_ns itr) (expected (ri_ns itr) (query_key (info itr))).
Lemma addRangeQueryInfo_loop_spec l q b :
  Forall (λ itr, finished_info itr = Ok (expected (ri_ns itr) (query_key (info itr)))) l → qe_rwsetBuilder q = Some b →
  ∃ q', addRangeQueryInfo_loop l q = (Ok (), q') ∧ qe_rwsetBuilder q' = Some (foldl add_query b l) ∧ qe_privateReads q' = qe_privateReads q.
Proof.
  intros Hl. revert q b. induction Hl as [|itr l Hf Hl IH]; intros q b Hb; [by exists q|]. simpl. rewrite Hf.
  destruct (IH {| qe_rwsetBuilder := (λ b, AddToRangeQuerySet b (ri_ns itr) (expected (ri_ns itr) (query_key (info itr)))) <$> qe_rwsetBuilder q;
    qe_noop := qe_noop q; qe_cache := qe_cache q; qe_itrs := qe_itrs q; qe_err := qe_err q; qe_doneInvoked := qe_doneInvoked q;
    qe_privateReads := qe_privateReads q |} (add_query b itr)) as (q' & Hq' & Hb' & Hp'); [simpl; by rewrite Hb|].
  exists q'. by split_and!.
Qed.

Lemma fold_same b l0 l1 : Forall2 (λ i0 i1, itr_same i0 i1 ∧ itr_at st1 i1) l0 l1 → foldl add_query b l0 = foldl add_query b l1.
Proof.
  intros Hl. revert b. induction Hl as [|i0 i1 l0 l1 [(Hn & _ & Hf & _) _] Hl IH]; intros b; [done|]. simpl.
  unfold add_query at 2 4. by rewrite Hn, Hf, IH.
Qed.
Lemma finished_all l0 l1 : Forall2 (λ i0 i1, itr_same i0 i1 ∧ itr_at st1 i1) l0 l1 → Forall itr_inv l0 →
  Forall (λ itr, finished_info itr = Ok (expected (ri_ns itr) (query_key (info itr)))) l1.
Proof.
  induction 1 as [|i0 i1 l0 l1 [Hsame _] Hl IH]; intros Hi; constructor; inversion_clear Hi; [|auto].
  rewrite (finished_same _ _ Hsame), finished_expected by done. by destruct Hsame as (-> & _ & -> & _).
Qed.

Context `{!ProtoMessage KVRWSet, !ProtoMessage HashedRWSet}.

Lemma results_spec (s : txSimulator I) b :
  simulationResultsComputed s = false → qe_err (ts_queryExecutor s) = None → qe_rwsetBuilder (ts_queryExecutor s) = Some b →
  Forall (λ itr, finished_info itr = Ok (expected (ri_ns itr) (query_key (info itr)))) (qe_itrs (ts_queryExecutor s)) →
  (txSimulator_GetTxSimulationResults s).1 =
    (x ← GetTxSimulationResults (foldl add_query b (qe_itrs (ts_queryExecutor s))); Ok (x.1, qe_privateReads (ts_queryExecutor s), writesetMetadata s)).
Proof.
  intros Hc He Hb Hl. destruct (addRangeQueryInfo_loop_spec _ _ b Hl Hb) as (q' & Hq & Hb' & Hp).
  unfold txSimulator_GetTxSimulationResults, st_bind at 1, st_get at 1. rewrite Hc, He. unfold st_bind at 1, set_resultsComputed, st_modify at 1.
  unfold st_bind at 1, on_executor at 1, addRangeQueryInfo, st_bind at 1, st_get at 1. simpl. rewrite Hb, Hq.
  unfold st_bind at 1, st_get. unfold st_bind at 1, st_lift at 1. simpl. rewrite Hb'. simpl. unfold st_bind at 1, st_lift.
  destruct (GetTxSimulationResults _) as [[results b']|e|]; [|done|done]. simpl. by rewrite Hp.
Qed.

(** The two simulations end in the same way when the databases agree on what
    the first one recorded. *)
Lemma simulate_same {R} (p : program R) r results pr : program_ok p →
  simulate db0 provider hashFunc p = Ok (r, results, pr) →
  ∃ s b b', sim_inv s ∧ qe_rwsetBuilder (ts_queryExecutor s) = Some b ∧
    GetTxSimulationResults (foldl add_query b (qe_itrs (ts_queryExecutor s))) = Ok (results, b') ∧
    (sim_ok s → simulate db1 provider hashFunc p = Ok (r, results, pr)).
Proof.
  intros Hp Hsim. destruct new_sim_inv as [Hi Hr]. destruct (mirrored_program p Hp) as [Hg Hs].
  unfold simulate, st_bind in *. destruct (run_program db0 provider hashFunc p newTxSimulator) as [[r0|e|] s] eqn:E; [|done|done].
  destruct (Hg _ _ _ Hi E) as [Hinv _]. pose proof Hinv as [(b & Hb & _) Hit Herr].
  destruct (simulationResultsComputed s) eqn:Hc.
  { unfold txSimulator_GetTxSimulationResults, st_bind, st_get in Hsim. rewrite Hc in Hsim. done. }
  pose proof (results_spec s b Hc Herr Hb (Forall_impl _ _ _ Hit finished_expected)) as Hres.
  destruct (txSimulator_GetTxSimulationResults s) as [[[[x pr0] wm]|e|] s'] eqn:Et; [|done|done]. simpl in Hsim, Hres. injection Hsim as -> -> ->.
  symmetry in Hres. apply bind_Ok in Hres as ([results' b'] & Hget & [= -> <- <-]).
  exists s, b, b'. split_and!; [done..|]. intros Hok. destruct (Hs _ _ _ _ Hi Hr E Hok) as (s1 & -> & [R1 R2 R3 R4 R5 R6 R7] & _ & _ & Rc & _).
  assert ((txSimulator_GetTxSimulationResults s1).1 = Ok (results, qe_privateReads (ts_queryExecutor s), writesetMetadata s1)) as Hres1.
  { rewrite (results_spec s1 b), <-R6; [|congruence..|].
    - rewrite <-(fold_same b _ _ R7), Hget. by run.
    - by apply (finished_all _ _ R7). }
  destruct (txSimulator_GetTxSimulationResults s1) as [r1 s1']. simpl in Hres1. by subst r1.
Qed.
End runs.
