(* ===== verification/Serializability.v ===== *)
(** * Serialisability of simulated transactions

  A chaincode is simulated on an endorsing peer in one state of the ledger (file
  Simulator) and its transaction is validated and committed in a later one (file
  Validator). This file proves that the check of the versions of the read set is
  enough: if the transaction is found valid, then the simulation of the same
  chaincode in the state the transaction meets gives the same result and the same
  read-write set. The valid transactions of the chain are thus executed one after
  the other, each in the state left by the ones before it, although they were
  simulated in older states. *)

From S2P Require Import Prelude SortedMap Version StateDB Proto Rwset RwsetBuilder Merkle MerkleBinding LevelDB StateLevelDB PrivState CombinedIterator RangeQuery TxOps SparseTypes Validator Simulator SimulatorRuns.
From stdpp Require Import options.
Local Open Scope nat_scope.
Set Default Proof Using "Type*".

(** ** What a valid verdict says *)

Lemma allM_elem {A} (f : A → res bool) l : allM f l = Ok true → ∀ x, x ∈ l → f x = Ok true.
Proof. intros H%allM_true x Hx. by eapply Forall_forall in H. Qed.

Section verdicts.
Context `{!ProtoMessage KVMetadataWrite} `{!ProtoMessage QueryReads} `{!Sha256}.
Context {DB I L : Type} `{!VersionedDB DB I}.
Context (hashFunc : HashFunc) (db : PrivDB DB L) (st : state) `{!VersionedDBLaws (pdb_vdb db) st}.

Lemma validateTx_loop_valid fuel l u : validateTx_loop fuel hashFunc db l u = Ok TxValidationCode_VALID →
  ∀ n, n ∈ l → ∃ kv, KvRwSet n = Some kv ∧ validateReadSet db (NameSpace n) (Reads kv) (publicUpdates u) = Ok true ∧
    validateRangeQueries fuel hashFunc db (NameSpace n) (RangeQueriesInfo kv) (publicUpdates u) = Ok true ∧
    validateNsHashedReadSets db (NameSpace n) (CollHashedRwSets n) (hashUpdates u) = Ok true.
Proof.
  induction l as [|m l IH]; cbn [validateTx_loop]; [by intros _ n ?%not_elem_of_nil|].
  intros (kv & Hkv & (b1 & H1 & Hr)%bind_Ok)%bind_Ok. destruct b1; [|done]. cbn [negb] in Hr.
  apply bind_Ok in Hr as (b2 & H2 & Hr). destruct b2; [|done]. cbn [negb] in Hr.
  apply bind_Ok in Hr as (b3 & H3 & Hr). destruct b3; [|done]. cbn [negb] in Hr.
  intros n [->|Hn]%elem_of_cons; [|by apply IH]. destruct (KvRwSet m); [|done]. injection Hkv as ->. by exists kv.
Qed.

Lemma read_valid u ns r : validateKVRead db ns (publicUpdates u) r = Ok true →
  (current db st u (pub_ck ns (kvr_Key r)) ≫= vv_Version) = NewVersion (kvr_Version r).
Proof. rewrite (validateKVRead_spec db st). intros [= [_ ?]%bool_decide_eq_true]. done. Qed.
Lemma hashed_read_valid u ns coll r : coll ≠ [] → validateKVReadHash db ns coll (hashUpdates u) r = Ok true →
  (current db st u {| ck_ns := ns; ck_coll := coll; ck_key := rh_KeyHash r |} ≫= vv_Version) = NewVersion (rh_Version r).
Proof. intros Hc. rewrite (validateKVReadHash_spec db st) by done. intros [= [_ ?]%bool_decide_eq_true]. done. Qed.

(** A range query that is accepted has the recorded results, or results with the
    recorded summary. *)
Lemma query_valid hashf ser u ns rqi :
  (∀ b, hashFunc b = Ok (hashf b)) → (∀ l, serializeKVReads l = Ok (ser l)) → x00 ∉ ns →
  Forall (λ r, is_Some (kvr_Version r)) (GetRawReads rqi) → (∀ s, GetReadsMerkleHashes rqi = Some s → MaxDegree s = 50%Z) →
  (∃ N, ∀ fuel, N ≤ fuel → validateRangeQuery fuel hashFunc db ns (publicUpdates u) rqi = Ok true) →
  ∃ l, is_range (state_after db st u) ns (StartKey rqi) (EndKey rqi) l ∧
    let now := query_reads (state_after db st u) ns rqi l in
    match GetReadsMerkleHashes rqi with
    | None => GetRawReads rqi = now
    | Some s => (merkle_reference 50 hashf ser now).2 = Some s
    end.
Proof.
  intros Hhash Hser Hns Hraw Hdeg (M & HM). destruct (query_results db st u ns rqi Hns) as (N & l & Hl & Hq).
  exists l. split; [done|]. cbv zeta. specialize (HM (M + N) ltac:(lia)). destruct (Hq (M + N) ltac:(lia)) as (Hlen & c & Hc & Hdr).
  unfold validateRangeQuery in HM. rewrite Hc in HM. revert HM. run. destruct (GetReadsMerkleHashes rqi) as [s|] eqn:Hm.
  - destruct (hash_validate_spec (ResultsIterator0 := combinedIterator_itr (M + N)) 50 hashFunc hashf ser
      ltac:(lia) ltac:(done) Hhash Hser (M + N) rqi s _ c Hm (Hdeg s eq_refl) Hdr Hlen) as (h & -> & Hiff). run. apply Hiff.
  - rewrite (results_validate_spec _ _ _ Hraw Hdr). by intros [= ?%bool_decide_eq_true].
Qed.
End verdicts.

(** ** The read-write set of a builder *)

Section built.
Context `{!Sha256}.

Lemma built_present b ns : is_Some (pubRwBuilderMap b !! ns) →
  nsPubRwBuilder_build (getOrCreateNsPubRwBuilder b ns) ∈ NsRwSets (GetTxReadWriteSet b).
Proof.
  intros [n Hn]. unfold getOrCreateNsPubRwBuilder. rewrite Hn. apply list_elem_of_fmap. exists n. split; [done|].
  apply elem_of_GetValuesBySortedKeys. by exists ns.
Qed.
Lemma built_read b ns key r : pub_reads b ns !! key = Some r →
  nsPubRwBuilder_build (getOrCreateNsPubRwBuilder b ns) ∈ NsRwSets (GetTxReadWriteSet b) ∧
  r ∈ ns_reads (nsPubRwBuilder_build (getOrCreateNsPubRwBuilder b ns)).
Proof.
  intros Hr. split.
  - apply built_present. unfold pub_reads, getOrCreateNsPubRwBuilder in Hr. destruct (pubRwBuilderMap b !! ns); [by eexists|done].
  - unfold ns_reads. simpl. apply elem_of_GetValuesBySortedKeys. by exists key.
Qed.
Lemma built_hashed_read b ns coll key r : hash_reads b ns coll !! key = Some r →
  nsPubRwBuilder_build (getOrCreateNsPubRwBuilder b ns) ∈ NsRwSets (GetTxReadWriteSet b) ∧
  collHashRwBuilder_build (coll_hash b ns coll) ∈ CollHashedRwSets (nsPubRwBuilder_build (getOrCreateNsPubRwBuilder b ns)) ∧
  r ∈ coll_reads (collHashRwBuilder_build (coll_hash b ns coll)).
Proof.
  intros Hr. split_and!.
  - apply built_present. unfold hash_reads, coll_hash, getOrCreateNsPubRwBuilder in Hr. destruct (pubRwBuilderMap b !! ns); [by eexists|done].
  - simpl. apply list_elem_of_fmap. exists (coll_hash b ns coll). split; [done|]. apply elem_of_GetValuesBySortedKeys. exists coll.
    unfold hash_reads, coll_hash, getOrCreateCollHashedRwBuilder in *. by destruct (npb_collHashRwBuilder _ !! coll).
  - unfold coll_reads. simpl. apply elem_of_GetValuesBySortedKeys. by exists key.
Qed.
Lemma built_query b ns k rqi : builder_wf b → queries b ns !! k = Some rqi →
  nsPubRwBuilder_build (getOrCreateNsPubRwBuilder b ns) ∈ NsRwSets (GetTxReadWriteSet b) ∧
  rqi ∈ ns_queries (nsPubRwBuilder_build (getOrCreateNsPubRwBuilder b ns)).
Proof.
  intros Hwf Hr. split.
  - apply built_present. unfold queries, getOrCreateNsPubRwBuilder in Hr. destruct (pubRwBuilderMap b !! ns); [by eexists|done].
  - unfold ns_queries. simpl. apply list_elem_of_omap. exists k. split; [|done]. apply (wf_queries b Hwf). by eexists.
Qed.

(** *** After the transport *)

Context `{!ProtoMessage KVRWSet, !ProtoMessage HashedRWSet}.

(** The reads of a read-write set survive serialization. *)
Class ReadsSurvive : Prop := {
  survive_kv (kv : KVRWSet) b kv' : Marshal kv = Ok b → Unmarshal b = Ok kv' →
    Reads kv' = Reads kv ∧ RangeQueriesInfo kv' = RangeQueriesInfo kv;
  survive_hashed (h : HashedRWSet) b h' : Marshal h = Ok b → Unmarshal b = Ok h' → HashedReads h' = HashedReads h
}.
Context `{!ReadsSurvive}.

Definition same_reads (n n' : NsRwSet) : Prop :=
  NameSpace n' = NameSpace n ∧ ns_reads n' = ns_reads n ∧ ns_queries n' = ns_queries n ∧
  Forall2 (λ c c', ch_CollectionName c' = ch_CollectionName c ∧ coll_reads c' = coll_reads c ∧ is_Some (HashedRwSet c'))
    (CollHashedRwSets n) (CollHashedRwSets n').

Lemma Forall2_mapM {A B C} (f : A → res B) (g : B → res C) (P : A → C → Prop) l k m :
  mapM f l = Ok k → mapM g k = Ok m → (∀ a b c, f a = Ok b → g b = Ok c → P a c) → Forall2 P l m.
Proof.
  rewrite !mapM_Ok. intros Hf Hg HP. revert m Hg. induction Hf as [|a b l k Hab Hf IH]; intros m Hg; inversion Hg; subst; constructor; eauto.
Qed.
Lemma transport t p rw : TxRwSet_toProtoMsg t = Ok p → TxRwSetFromProtoMsg p = Ok rw → Forall2 same_reads (NsRwSets t) (NsRwSets rw).
Proof.
  unfold TxRwSet_toProtoMsg, TxRwSetFromProtoMsg. intros (nss & Hn & [= <-])%bind_Ok (nss' & Hn' & [= <-])%bind_Ok. simpl in *.
  eapply Forall2_mapM; [done|done|]. intros n q n'. unfold NsRwSet_toProtoMsg, nsRwSetFromProtoMsg.
  intros (b & Hb & (colls & Hc & [= <-])%bind_Ok)%bind_Ok (kv' & Hu & (colls' & Hc' & [= <-])%bind_Ok)%bind_Ok. simpl in *.
  destruct (KvRwSet n) as [kv|] eqn:Hkv; [|done]. destruct (survive_kv kv b kv' Hb Hu) as [Hr Hq].
  unfold same_reads, ns_reads, ns_queries. simpl. rewrite Hkv. split_and!; [done..|].
  eapply Forall2_mapM; [done|done|]. intros c cq c'. unfold CollHashedRwSet_toProtoMsg, collHashedRwSetFromProtoMsg.
  intros (hb & Hhb & [= <-])%bind_Ok (h' & Hh' & [= <-])%bind_Ok. simpl in *.
  destruct (HashedRwSet c) as [h|] eqn:Hh; [|done]. unfold coll_reads. simpl. rewrite Hh.
  split_and!; [done|by apply (survive_hashed h hb)|by eexists].
Qed.
End built.

(** ** Ranges with their end key *)

Lemma upto_split {V} (m : gmap bytes V) s k : bytes_le s k → k ≠ [] →
  upto m s k = range_kvs m s k ++ match m !! k with Some v => [(k, v)] | None => [] end.
Proof.
  intros Hs Hk. apply ssorted_unique; [apply upto_sorted| |].
  - assert (∀ l : list (bytes * V), StronglySorted key_lt l → (∀ p, p ∈ l → bytes_lt p.1 k) → ∀ v, StronglySorted key_lt (l ++ [(k, v)])) as Happ.
    { induction 1 as [|p l Hl IH Hall]; intros Hlt v; [by repeat constructor|]. simpl. constructor.
      - apply IH. intros q Hq. apply Hlt. by right.
      - apply Forall_app. split; [done|]. constructor; [|done]. apply Hlt. by left. }
    destruct (m !! k); [|rewrite app_nil_r; apply range_kvs_sorted]. apply Happ; [apply range_kvs_sorted|].
    intros [k' v'] [_ [_ [->|?]]]%elem_of_range_kvs; done.
  - intros [k' v]. rewrite elem_of_upto, elem_of_app, elem_of_range_kvs. unfold in_range. split.
    + intros (Hm & H1 & [Hlt|Heq]%bytes_le_lt_eq); [left; auto|]. right. subst k'. rewrite Hm. by left.
    + intros [(Hm & H1 & [->|Hlt])|Hin]; [done| |].
      * split_and!; [done..|]. apply bytes_le_lt_eq. by left.
      * destruct (m !! k) as [v'|] eqn:E; [|by apply not_elem_of_nil in Hin]. apply list_elem_of_singleton in Hin as [= -> ->]. done.
Qed.

(** ** Later states *)

(** A height above every version of a state. *)
Definition new_height (a : blockState) (h : Height) : Prop :=
  ∀ ck vv v, bs_val a ck = Some vv → vv_Version vv = Some v → height_compare v h = Lt.

Section chain.
Context `{!ProtoMessage KVMetadataWrite} `{!Sha256}.

Definition untouched (a : blockState) : blockState := {| bs_val := bs_val a; bs_touched _ := false |}.
(** The states that the ledger reaches from a state by validating and executing
    blocks of transactions, or the first transactions of a block, at new heights. *)
Inductive chain (a : blockState) : blockState → Prop :=
| chain_start : chain a a
| chain_block b blk doMVCC txs txs' c : chain a b → block_run blk doMVCC (untouched b) txs txs' c →
    (∀ tx h, tx ∈ txs → committingTxHeight blk tx = Ok h → new_height a h) → chain a c.

(** What has become of a key: nothing, it is gone, or it has a new version. *)
Definition progress (a : blockState) (ck : compositeKey) (o : option VersionedValue) : Prop :=
  o = bs_val a ck ∨ o = None ∨ ∃ vv h, o = Some vv ∧ vv_Version vv = Some h ∧ new_height a h.
Lemma exec_progress a ck h acts o : progress a ck o → new_height a h → progress a ck (exec_key h (on_key ck acts) o).
Proof.
  unfold exec_key, progress. intros Ho Hh.
  destruct (write_effect (on_key ck acts)) as [[v|]|], (metadata_effect (on_key ck acts)) as [m|]; simpl; eauto 10.
  destruct o as [vv|]; simpl; eauto 10.
Qed.
Lemma block_progress a blk doMVCC b txs txs' c ck : block_run blk doMVCC b txs txs' c →
  (∀ tx h, tx ∈ txs → committingTxHeight blk tx = Ok h → new_height a h) → progress a ck (bs_val b ck) → progress a ck (bs_val c ck).
Proof.
  induction 1 as [b c E|b c tx txs txs' _ _ IH|b c tx txs txs' code _ _ _ _ _ IH|b c tx txs txs' h acts _ _ Hh _ _ IH]; intros Hnew Hb.
  - by rewrite <-(proj1 (E ck)).
  - apply IH; [|done]. intros tx' h' Ht. apply Hnew. by right.
  - apply IH; [|done]. intros tx' h' Ht. apply Hnew. by right.
  - apply IH; [intros tx' h' Ht; apply Hnew; by right|]. apply exec_progress; [done|]. eapply Hnew; [by left|done].
Qed.
Lemma chain_progress a b ck : chain a b → progress a ck (bs_val b ck).
Proof. induction 1 as [|b blk doMVCC txs txs' c _ IH Hrun Hnew]; [by left|]. by eapply block_progress. Qed.

(** In a later state a key with the same version has the same value. *)
Lemma chain_det a b ck : chain a b → (∀ vv, bs_val a ck = Some vv → is_Some (vv_Version vv)) →
  (bs_val a ck ≫= vv_Version) = (bs_val b ck ≫= vv_Version) → bs_val a ck = bs_val b ck.
Proof.
  intros Hx Hv E. destruct (chain_progress a b ck Hx) as [->|[Hb|(vv & h & Hb & Hvv & Hh)]]; [done|..]; rewrite Hb in *; simpl in E.
  - destruct (bs_val a ck) as [vv|]; [|done]. simpl in E. destruct (Hv vv eq_refl) as [? Hs]. congruence.
  - rewrite Hvv in E. destruct (bs_val a ck) as [va|] eqn:Ha; [|done]. simpl in E. specialize (Hh ck va h Ha E).
    unfold height_compare in Hh. by rewrite !Z.compare_refl in Hh.
Qed.
End chain.

(** ** Serialisability *)

(** The hash function and the serialization of results that the summaries of
    range queries are made with. *)
Record summary_ok `{!ProtoMessage QueryReads} (hashFunc : HashFunc) (hashf : bytes → bytes) (ser : list KVRead → bytes) (hlen : nat) : Prop := {
  hash_total b : hashFunc b = Ok (hashf b);
  hash_length b : length (hashf b) = hlen;
  hlen_pos : 0 < hlen;
  ser_total l : serializeKVReads l = Ok (ser l);
  ser_inj l l' : ser l = ser l' → l = l'
}.
Definition ck_plain (ck : compositeKey) : Prop := plain_ns (ck_ns ck) ∧ x00 ∉ ck_coll ck.

Section main.
Context `{!ProtoMessage KVMetadataWrite, !ProtoMessage QueryReads, !ProtoMessage KVRWSet, !ProtoMessage HashedRWSet, !Sha256}.
Context `{!ReadsSurvive} {DB I L : Type} `{!VersionedDB DB I} `{!QueryDB DB I} `{!StableIterator I}.
Context (db0 db1 db : PrivDB DB L) (st0 st1 st : state) (u : publicAndHashUpdates).
Context `{!VersionedDBLaws (pdb_vdb db0) st0} `{!VersionedDBLaws (pdb_vdb db1) st1} `{!VersionedDBLaws (pdb_vdb db) st}.
Context (provider : bytes → config_query) (hashFunc : HashFunc) (hashf : bytes → bytes) (ser : list KVRead → bytes) (hlen : nat).
Set Default Proof Using "All".
Context (Hsum : summary_ok hashFunc hashf ser hlen).
Context (Hver : ∀ ck vv, committed db0 st0 ck = Some vv → is_Some (vv_Version vv)).
Context (Hnow : ∀ ck, ck_plain ck → committed db1 st1 ck = current db st u ck).
Context (Hcf : ∀ ns i, 50 < length (covered (st0 ns) i) → 50 < length (covered (st1 ns) i) →
  collision_free 50 hashf ser (covered_reads st0 ns i) (covered_reads st1 ns i)).
Notation inv := (builder_inv db0 st0 hashf ser).
Notation ok := (builder_ok db0 db1 st0 st1).
Notation exp := (expected st0 hashf ser).
Notation iinv := (itr_inv st0 hashFunc hashf ser).

(** The results of a range in the state that the transaction meets. *)
Lemma now_covered ns rqi l : plain_ns ns →
  (if ItrExhausted rqi then True else EndKey rqi ≠ [] ∧ bytes_le (StartKey rqi) (EndKey rqi)) →
  is_range (state_after db st u) ns (StartKey rqi) (EndKey rqi) l →
  query_reads (state_after db st u) ns rqi l = covered_reads st1 ns rqi.
Proof.
  intros Hns Hend [Hs Hel]. assert (∀ k, st1 ns !! k = current db st u (pub_ck ns k)) as Hk.
  { intros k. apply (Hnow (pub_ck ns k)). split; [done|]. by intros ?%not_elem_of_nil. }
  assert (l = range_kvs (st1 ns) (StartKey rqi) (EndKey rqi)) as ->.
  { apply ssorted_unique; [done|apply range_kvs_sorted|]. intros [k vv]. rewrite Hel, elem_of_range_kvs, Hk. done. }
  unfold query_reads, covered_reads, covered. rewrite fmap_app, <-list_fmap_compose. destruct (ItrExhausted rqi); simpl.
  - by rewrite app_nil_r.
  - destruct Hend as [Hne Hle]. rewrite decide_False by done. rewrite upto_split by done. rewrite fmap_app. f_equal. rewrite Hk.
    unfold end_item. by destruct (current db st u (pub_ck ns (EndKey rqi))).
Qed.

(** A recorded query that is accepted has its results in that state. *)
Lemma summarised_fields i rs :
  let rqi := summarised hashf ser i rs in
  StartKey rqi = StartKey i ∧ EndKey rqi = EndKey i ∧ ItrExhausted rqi = ItrExhausted i ∧
  (rqi_ReadsInfo i = None → GetRawReads rqi = (merkle_reference 50 hashf ser rs).1 ∧ GetReadsMerkleHashes rqi = (merkle_reference 50 hashf ser rs).2).
Proof.
  unfold summarised, merkle_reference. case_bool_decide.
  - destruct (decide (rs = [])) as [->|]; simpl; split_and!; try done. unfold GetRawReads, GetReadsMerkleHashes. by intros ->.
  - destruct (climb _ _ _ _ _) as [lev hs]. simpl. by split_and!.
Qed.
Lemma merkle_reference_cases rs :
  (length rs ≤ 50 ∧ merkle_reference 50 hashf ser rs = (rs, None)) ∨
  (50 < length rs ∧ ∃ s, merkle_reference 50 hashf ser rs = ([], Some s) ∧ MaxDegree s = 50%Z).
Proof.
  unfold merkle_reference. case_bool_decide; [by left|]. right. split; [lia|]. destruct (climb _ _ _ _ _) as [lev hs]. eexists. by split.
Qed.

Lemma query_agrees itr : iinv itr →
  (∃ N, ∀ fuel, N ≤ fuel → validateRangeQuery fuel hashFunc db (ri_ns itr) (publicUpdates u) (exp (ri_ns itr) (query_key (ri_rangeQueryInfo itr))) = Ok true) →
  itr_agrees st0 st1 itr.
Proof.
  intros (Hat & _) Hvalid. destruct Hat as [Hns Hi He _]. unfold itr_agrees. set (i := ri_rangeQueryInfo itr) in *. set (ns := ri_ns itr) in *.
  destruct (decide (ItrExhausted i = false ∧ EndKey i = [])) as [[Hx Hn]|Hcov].
  { unfold covered_reads, covered. rewrite Hx. by destruct (decide (EndKey i = [])). }
  assert (key_info (query_key i) = i) as Hki by (destruct i; simpl in Hi; by subst). unfold expected in Hvalid. rewrite Hki in Hvalid.
  set (rs := covered_reads st0 ns i) in *. destruct (summarised_fields i rs) as (F1 & F2 & F3 & F4). destruct (F4 Hi) as [F5 F6].
  destruct (query_valid hashFunc db st hashf ser u ns (summarised hashf ser i rs) (hash_total _ _ _ _ Hsum) (ser_total _ _ _ _ Hsum) (proj1 Hns)) as (l & Hl & Hq); [| |done|].
  - rewrite F5. destruct (merkle_reference_cases rs) as [[_ ->]|(_ & s & -> & _)]; [|constructor]. simpl. apply Forall_fmap, Forall_forall.
    intros [k vv] Hk%elem_of_covered. simpl. destruct (Hver (pub_ck ns k) vv) as [v Hv]; [exact Hk|]. rewrite Hv. by eexists.
  - rewrite F6. destruct (merkle_reference_cases rs) as [[_ ->]|(_ & s & -> & Hd)]; [done|]. intros s' [= <-]. done.
  - assert (query_reads (state_after db st u) ns (summarised hashf ser i rs) l = covered_reads st1 ns i) as Hcr.
    { rewrite (now_covered ns (summarised hashf ser i rs) l Hns); [by unfold covered_reads, covered; rewrite F1, F2, F3| |done].
      rewrite F1, F2, F3. destruct (ItrExhausted i); [done|]. assert (EndKey i ≠ []) by tauto. split; [done|]. destruct He as [?|[? _]]; done. }
    cbv zeta in Hq. rewrite Hcr, F5, F6 in Hq. destruct (merkle_reference_cases rs) as [[Hlen E]|(Hlen & s & E & Hd)]; rewrite E in Hq; simpl in Hq; [done|].
    assert (50 < length (covered_reads st1 ns i)) as Hlen1.
    { destruct (merkle_reference_cases (covered_reads st1 ns i)) as [[_ E1]|[? _]]; [|done]. by rewrite E1 in Hq. }
    eapply (merkle_binding 50 hashf ser hlen (hash_length _ _ _ _ Hsum) (hlen_pos _ _ _ _ Hsum) (ser_inj _ _ _ _ Hsum)); [|by rewrite E|done].
    apply Hcf; [unfold rs, covered_reads in Hlen|unfold covered_reads in Hlen1]; by rewrite length_fmap in *.
Qed.
(** The queries recorded at the end of the simulation. *)
Lemma expected_key ns k : query_key (exp ns k) = k.
Proof.
  unfold expected. destruct (summarised_fields (key_info k) (covered_reads st0 ns (key_info k))) as (F1 & F2 & F3 & _).
  unfold query_key. rewrite F1, F2, F3. by destruct k.
Qed.
Lemma add_query_effect b (itr : resultsItr I) :
  let b' := add_query st0 hashf ser b itr in let k := query_key (ri_rangeQueryInfo itr) in
  (builder_wf b → builder_wf b') ∧
  (∀ ns' k', queries b' ns' !! k' = if decide (ns' = ri_ns itr ∧ k' = k) then Some (default (exp (ri_ns itr) k) (queries b (ri_ns itr) !! k')) else queries b ns' !! k') ∧
  (∀ ns', pub_reads b' ns' = pub_reads b ns') ∧ (∀ ns' coll, hash_reads b' ns' coll = hash_reads b ns' coll).
Proof. cbv zeta. unfold add_query. destruct (AddToRangeQuerySet_effect b (ri_ns itr) (exp (ri_ns itr) (query_key (ri_rangeQueryInfo itr)))) as (W & Q & R). by rewrite expected_key in Q. Qed.
Lemma add_query_inv b itr : inv b → iinv itr → inv (add_query st0 hashf ser b itr).
Proof.
  intros [W R HR Q] (Hat & _). destruct (add_query_effect b itr) as (W' & Q' & R' & HR').
  split; [auto|intros *; rewrite R'; auto|intros *; rewrite HR'; auto|]. intros ns k rqi. rewrite Q'. case_decide as Hd; [|auto].
  destruct Hd as [-> ->]. intros [= <-]. split; [apply Hat|]. destruct (queries b (ri_ns itr) !! _) as [r|] eqn:E; [by apply Q in E as [_ ->]|done].
Qed.
Lemma fold_queries l b : inv b → Forall iinv l →
  let bQ := foldl (add_query st0 hashf ser) b l in
  inv bQ ∧ (∀ ns, pub_reads bQ ns = pub_reads b ns) ∧ (∀ ns coll, hash_reads bQ ns coll = hash_reads b ns coll) ∧
  (∀ itr, itr ∈ l → is_Some (queries bQ (ri_ns itr) !! query_key (ri_rangeQueryInfo itr))).
Proof.
  intros Hb Hl. cbv zeta. induction l as [|itr l IH] using rev_ind.
  { split_and!; try done. by intros itr ?%not_elem_of_nil. }
  apply Forall_app in Hl as [Hl Hitr]. rewrite foldl_snoc. destruct (IH Hl) as (Hi & R & HR & Ql). set (b' := foldl _ b l) in *.
  apply Forall_cons in Hitr as [Hitr _]. destruct (add_query_effect b' itr) as (_ & Q' & R' & HR').
  split_and!; [by apply add_query_inv|intros ns; by rewrite R', R|intros ns coll; by rewrite HR', HR|].
  intros itr' [Hin|Hin]%elem_of_app; rewrite Q'; [case_decide; [by eexists|auto]|].
  apply list_elem_of_singleton in Hin as ->. rewrite decide_True by done. by eexists.
Qed.

Lemma results_quiet b results b' : GetTxSimulationResults b = Ok (results, b') →
  ∃ f, quiet f ∧ b' = f b ∧ TxRwSet_toProtoMsg (GetTxReadWriteSet b') = Ok (PubSimulationResults results).
Proof.
  unfold GetTxSimulationResults. intros ([pvt b1] & H1 & (pub & Hpub & [= <- <-])%bind_Ok)%bind_Ok.
  assert (∃ f, quiet f ∧ b1 = f b) as (f & Hf & ->); [|by exists f].
  destruct (getTxPvtReadWriteSet b) as [pvtData|]; [|injection H1 as <- <-; exists (λ b, b); split; [apply quiet_id|done]].
  apply bind_Ok in H1 as (pvtDataProto & _ & [= <- <-]). eexists (λ b, foldl _ b _). split; [|done].
  apply quiet_foldl. intros ns. apply quiet_foldl. intros coll. apply quiet_setPvtCollectionHash.
Qed.
(** A transaction that is found valid has read what the state still holds. *)
Lemma valid_reads (s : txSimulator I) b results b' rw :
  sim_inv db0 st0 hashFunc hashf ser s → qe_rwsetBuilder (ts_queryExecutor s) = Some b →
  GetTxSimulationResults (foldl (add_query st0 hashf ser) b (qe_itrs (ts_queryExecutor s))) = Ok (results, b') →
  TxRwSetFromProtoMsg (PubSimulationResults results) = Ok rw →
  (∃ N, ∀ fuel, N ≤ fuel → validateTx fuel hashFunc db rw u = Ok TxValidationCode_VALID) →
  sim_ok db0 db1 st0 st1 s.
Proof.
  intros [(b0 & Hb0 & Hinv) Hitrs _] Hb Hres Hdec (N & Hvalid). rewrite Hb in Hb0. injection Hb0 as <-.
  destruct (fold_queries _ b Hinv Hitrs) as (Hi & R & HR & Hq). set (bQ := foldl _ b _) in *.
  destruct (results_quiet _ _ _ Hres) as (f & [Q1 Q2 Q3 Q4] & -> & Hproto). pose proof (transport _ _ _ Hproto Hdec) as Htr.
  pose proof (Q1 bQ (bi_wf _ _ _ _ _ Hi)) as Hwf.
  assert (∀ n, n ∈ NsRwSets (GetTxReadWriteSet (f bQ)) → ∃ n', same_reads n n' ∧ n' ∈ NsRwSets rw) as Hfind.
  { intros n Hn. apply list_elem_of_lookup in Hn as [j Hj]. destruct (Forall2_lookup_l _ _ _ _ _ Htr Hj) as (n' & Hn' & Hs).
    exists n'. split; [done|]. by eapply list_elem_of_lookup_2. }
  split.
  - intros b1. rewrite Hb. intros [= <-]. split.
    + intros ns key [r Hr]. rewrite <-R, <-Q2 in Hr. destruct (built_read _ _ _ _ Hr) as [Hn Hin].
      destruct (Hfind _ Hn) as (n' & (Hns & Hrd & _) & Hn'). destruct (validateTx_loop_valid hashFunc db st _ _ _ (Hvalid N ltac:(lia)) n' Hn') as (kv & Hkv & Hv & _).
      rewrite Q2, R in Hr. destruct (bi_reads _ _ _ _ _ Hinv _ _ _ Hr) as [Hpl ->].
      rewrite Hns in Hv. simpl in Hv. rewrite (wf_ns _ Hwf) in Hv.
      assert (NewKVRead key (ver0 db0 st0 (pub_ck ns key)) ∈ Reads kv) as Hin' by (unfold ns_reads in Hrd at 1; rewrite Hkv in Hrd; by rewrite Hrd).
      apply (allM_elem _ _ Hv) in Hin'. apply (read_valid db st) in Hin'. unfold agree. rewrite (Hnow (pub_ck ns key)); [|split; [done|by intros ?%not_elem_of_nil]].
      simpl in Hin'. rewrite Hin'. by destruct (ver0 db0 st0 (pub_ck ns key)) as [[]|].
    + intros ns coll key [r Hr]. rewrite <-HR, <-Q3 in Hr. destruct (built_hashed_read _ _ _ _ _ Hr) as (Hn & Hc & Hin).
      destruct (Hfind _ Hn) as (n' & (Hns & _ & _ & Hcs) & Hn'). destruct (validateTx_loop_valid hashFunc db st _ _ _ (Hvalid N ltac:(lia)) n' Hn') as (kv & Hkv & _ & _ & Hv).
      rewrite Q3, HR in Hr. destruct (bi_hashed _ _ _ _ _ Hinv _ _ _ _ Hr) as (Hpl & Hco & ->).
      apply list_elem_of_lookup in Hc as [j Hj]. destruct (Forall2_lookup_l _ _ _ _ _ Hcs Hj) as (c' & Hc' & Hcn & Hcr & [h Hh]).
      apply list_elem_of_lookup_2 in Hc'. apply (allM_elem _ _ Hv) in Hc'. rewrite Hh in Hc'. unfold deref in Hc'. simpl in Hc'.
      rewrite Hns, Hcn in Hc'. simpl in Hc'. rewrite (wf_ns _ Hwf), (wf_coll _ Hwf) in Hc'.
      assert (newPvtKVReadHash key (ver0 db0 st0 (hash_ck ns coll key)) ∈ HashedReads h) as Hin' by (unfold coll_reads in Hcr at 1; rewrite Hh in Hcr; by rewrite Hcr).
      apply (allM_elem _ _ Hc') in Hin'. apply (hashed_read_valid db st) in Hin'; [|apply Hco]. unfold agree.
      rewrite (Hnow (hash_ck ns coll key)) by (split; [done|apply Hco]). simpl in Hin'. unfold hash_ck at 2. rewrite Hin'. by destruct (ver0 db0 st0 (hash_ck ns coll key)) as [[]|].
  - apply Forall_forall. intros itr Hitr. apply query_agrees; [by apply (proj1 (Forall_forall _ _) Hitrs)|].
    destruct (Hq itr Hitr) as [rqi Hrqi]. destruct (bi_queries _ _ _ _ _ Hi _ _ _ Hrqi) as [Hpl ->]. rewrite <-Q4 in Hrqi.
    destruct (built_query _ _ _ _ Hwf Hrqi) as [Hn Hin]. destruct (Hfind _ Hn) as (n' & (Hns & _ & Hqs & _) & Hn').
    exists N. intros fuel Hf. destruct (validateTx_loop_valid hashFunc db st _ _ _ (Hvalid fuel Hf) n' Hn') as (kv & Hkv & _ & Hv & _).
    rewrite Hns in Hv. simpl in Hv. rewrite (wf_ns _ Hwf) in Hv. apply (allM_elem _ _ Hv). unfold ns_queries in Hqs at 1. rewrite Hkv in Hqs. by rewrite Hqs.
Qed.
End main.

(** A database of a peer: its metadata can be read, and the private data of the
    collections is there. *)
Record peer_ok `{!ProtoMessage KVMetadataWrite, !Sha256} {DB I L} `{!VersionedDB DB I} (db : PrivDB DB L) (st : state) : Prop := {
  peer_laws :: VersionedDBLaws (pdb_vdb db) st;
  peer_metadata : metadata_ok db;
  peer_private : pvt_complete db st
}.

Section theorem.
Context `{!ProtoMessage KVMetadataWrite, !ProtoMessage QueryReads, !ProtoMessage KVRWSet, !ProtoMessage HashedRWSet, !Sha256}.
Context `{!ReadsSurvive} {DB I L : Type} `{!VersionedDB DB I} `{!QueryDB DB I} `{!StableIterator I}.

(** C2: endorsed transactions are serialisable. A chaincode (any program that
    calls the simulator: reads, range queries, private data, writes, with the
    errors it handles) is simulated on an endorsing peer, whose state is [st0].
    Later, when the ledger has gone on from that state by blocks at new heights
    ([block_run] is the serial execution that validation implements), its
    transaction is found valid at a peer with database [db] after the updates [u]
    of the block so far. Then the simulation of the chaincode on a database
    with exactly the state the transaction meets, [db1], gives the same result,
    the same public and private read-write sets and the same private reads. The
    hash function must tell the inputs apart that occur in the Merkle trees of the
    results of a range in the two states. *)
Theorem simulation_serializable {R} (p : program R) (db0 db1 db : PrivDB DB L) (st0 st1 st : state) (u : publicAndHashUpdates) (a : blockState)
    (provider : bytes → config_query) (hashFunc : HashFunc) (hashf : bytes → bytes) (ser : list KVRead → bytes) (hlen : nat) r results pr rw
    (Hsum : summary_ok hashFunc hashf ser hlen) (Hprov : ∀ ns, config_ok (provider ns)) (Hp : program_ok p)
    (Hpeer0 : peer_ok db0 st0) (Hpeer1 : peer_ok db1 st1) (Hdb : VersionedDBLaws (pdb_vdb db) st)
    (Hver : ∀ ck vv, committed db0 st0 ck = Some vv → is_Some (vv_Version vv)) (Hempty : ∀ ns, plain_ns ns → st0 ns !! [] = None)
    (Hchain : chain (committed_state db0 st0) a) (Ha : ∀ ck, ck_plain ck → bs_val a ck = current db st u ck)
    (Hnow : ∀ ck, ck_plain ck → committed db1 st1 ck = current db st u ck)
    (Hpvt : ∀ ns coll key, plain_ns ns → coll_ok coll →
      (st0 (derivePvtDataNs ns coll) !! key ≫= vv_Version) = (st1 (derivePvtDataNs ns coll) !! key ≫= vv_Version) →
      (st0 (derivePvtDataNs ns coll) !! key ≫= Value) = (st1 (derivePvtDataNs ns coll) !! key ≫= Value))
    (Hkv : ∀ key value, ValidateKeyValue (pdb_vdb db0) key value = ValidateKeyValue (pdb_vdb db1) key value)
    (Hcf : ∀ ns i, 50 < length (covered (st0 ns) i) → 50 < length (covered (st1 ns) i) →
      collision_free 50 hashf ser (covered_reads st0 ns i) (covered_reads st1 ns i))
    (Hsim : simulate db0 provider hashFunc p = Ok (r, results, pr))
    (Hdec : TxRwSetFromProtoMsg (PubSimulationResults results) = Ok rw)
    (Hvalid : ∃ N, ∀ fuel, N ≤ fuel → validateTx fuel hashFunc db rw u = Ok TxValidationCode_VALID) :
  simulate db1 provider hashFunc p = Ok (r, results, pr).
Proof.
  destruct Hpeer0 as [L0 M0 P0], Hpeer1 as [L1 M1 P1].
  assert (∀ ck, plain_ns (ck_ns ck) → x00 ∉ ck_coll ck → agree db0 db1 st0 st1 ck → committed db0 st0 ck = committed db1 st1 ck) as Hdet.
  { intros ck Hns Hcoll Hag. rewrite Hnow, <-Ha by done. apply (chain_det (committed_state db0 st0) a ck Hchain); [apply Hver|].
    rewrite Ha, <-Hnow by done. exact Hag. }
  destruct (simulate_same db0 db1 st0 st1 provider hashFunc hashf ser (hash_total _ _ _ _ Hsum) (ser_total _ _ _ _ Hsum)
    Hdet Hempty Hprov P0 P1 Hpvt Hkv M0 M1 p r results pr Hp Hsim) as (s & b & b' & Hinv & Hb & Hres & Hok).
  apply Hok. by eapply (valid_reads db0 db1 db st0 st1 st u provider hashFunc hashf ser hlen).
Qed.
End theorem.

(** ** An example

    A database in memory, a state with one key, a block that writes another key,
    and a chaincode that was simulated before the block. *)

(** The iterator of the LevelDB state database stays at its end. *)
#[export] Instance kvScanner_stable `{!ProtoMessage DBValue} : StableIterator kvScanner.
Proof.
  intros [ns [dbn [|[k v] rest]] lim tot] itr'; unfold Next, kvScanner_Next; simpl.
  - destruct (_ && _) eqn:E; [by intros [= <-]; simpl; rewrite E|]. unfold Iterator_Next; simpl. intros [= <-]. simpl. by rewrite E.
  - destruct (_ && _) eqn:E; [by intros [= <-]; simpl; rewrite E|]. unfold Iterator_Next; simpl. intros Hn. exfalso.
    apply bind_Ok in Hn as ([item dbItr] & (key & _ & [= <- <-])%bind_Ok & Hn).
    apply bind_Ok in Hn as ([? ?] & _ & Hn). by apply bind_Ok in Hn as (? & _ & Hn).
Qed.
#[export] Instance list_stable : StableIterator (list VersionedKV).
Proof. intros [|kv l] itr'; unfold Next, list_ResultsIterator; intros [=]; by subst. Qed.

Definition mem_state (m : gmap bytes (gmap bytes VersionedValue)) : state := λ ns, default ∅ (m !! ns).
#[local] Instance mem_VersionedDB : VersionedDB (gmap bytes (gmap bytes VersionedValue)) (list VersionedKV) := {
  VersionedDB_itr := list_ResultsIterator;
  GetState m ns key := Ok (mem_state m ns !! key);
  GetVersion m ns key := Ok (mem_state m ns !! key ≫= vv_Version);
  GetStateRangeScanIterator m ns s e := Ok (to_kv ns <$> range_kvs (mem_state m ns) s e);
  ValidateKeyValue _ _ _ := Ok ();
  BytesKeySupported _ := true;
  LoadCommittedVersions := None;
  ApplyUpdates m batch _ := Ok (foldl (λ m ns, <[ns := overlay (mem_state m ns) (UpdateBatch_GetUpdates batch ns)]> m) m (UpdateBatch_GetUpdatedNamespaces batch))
}.
#[local] Instance mem_QueryDB : QueryDB (gmap bytes (gmap bytes VersionedValue)) (list VersionedKV) := {
  GetStateRangeScanIteratorWithPagination m ns s e pageSize := Ok (take (Z.to_nat pageSize) (to_kv ns <$> range_kvs (mem_state m ns) s e));
  ExecuteQuery _ _ _ := Err "not supported";
  ExecuteQueryWithPagination _ _ _ _ _ := Err "not supported"
}.
Lemma list_drains (l : list VersionedKV) : Drains l l.
Proof. induction l as [|kv l IH]; [by eapply Drains_nil|]. by eapply Drains_cons. Qed.
Lemma mem_laws m : (∀ ns key vv, mem_state m ns !! key = Some vv → IsDelete vv = false) → VersionedDBLaws m (mem_state m).
Proof. intros Hm. split; [done|done| |done]. intros ns s e _. eexists. split; [done|]. apply list_drains. Qed.
Lemma covered_length {V} (m : gmap bytes V) i : length (covered m i) ≤ size m.
Proof.
  assert (length (sorted_kvs m) = size m) as Hs by (by rewrite sorted_kvs_perm, length_map_to_list).
  unfold covered, upto, range_kvs. destruct (ItrExhausted i); [rewrite length_filter; lia|]. case_decide; simpl; [lia|]. rewrite length_filter. lia.
Qed.

Section sample.
#[local] Existing Instances sample_priv_sha sample_tx_codec.
#[local] Instance serial_query_codec : ProtoMessage QueryReads := countable_proto QueryReads.
#[local] Instance serial_kv_codec : ProtoMessage KVRWSet := countable_proto KVRWSet.
#[local] Instance serial_hashed_codec : ProtoMessage HashedRWSet := countable_proto HashedRWSet.
#[local] Instance serial_survive : ReadsSurvive.
Proof.
  split.
  - intros kv b kv' Hm Hu. assert (Unmarshal b = Ok kv) as Hr by exact (countable_proto_roundtrip KVRWSet (λ _, True) kv b I Hm). rewrite Hr in Hu. by injection Hu as <-.
  - intros h b h' Hm Hu. assert (Unmarshal b = Ok h) as Hr by exact (countable_proto_roundtrip HashedRWSet (λ _, True) h b I Hm). rewrite Hr in Hu. by injection Hu as <-.
Qed.

Definition serial_hint : metadataHint (gmap bytes bytes) := {| mh_cache := ∅; mh_bookkeeper := ∅; mh_dbName := B "ch1" |}.
Definition serial_vv (v : bytes) (b t : Z) : VersionedValue := {| Value := Some v; Metadata := None; vv_Version := Some (NewHeight b t) |}.
Definition serial_db (extra : gmap bytes VersionedValue) : PrivDB (gmap bytes (gmap bytes VersionedValue)) (gmap bytes bytes) :=
  {| pdb_vdb := {[B "cc" := <[B "b" := serial_vv (B "old") 3 1]> extra]}; pdb_hint := serial_hint |}.
Definition serial_z : gmap bytes VersionedValue := {[B "z" := serial_vv (B "v") 7 0]}.
Definition serial_updates : publicAndHashUpdates :=
  {| publicUpdates := UpdateBatch_Update NewUpdateBatch (B "cc") (B "z") (serial_vv (B "v") 7 0); hashUpdates := NewUpdateMap |}.

(** Read an absent key, go through a range to its end, write. *)
Definition serial_program : program (res answer * res answer * res answer) :=
  Call (CGetState (B "cc") (B "k")) (λ v, Call (CRangeScan (B "cc") (B "a") (B "d")) (λ _, Call (CNext 0) (λ x, Call (CNext 0) (λ y,
  Call (CSetState (B "cc") (B "k") (Some (B "w"))) (λ _, Return (v, x, y)))))).
Definition serial_provider (ns : bytes) : config_query := CollConfigs (Ok None).
Definition serial_hash : HashFunc := λ _, Ok [x07].
Definition serial_ser (l : list KVRead) : bytes := pos_bytes (encode {| KvReads := l |}).
Definition serial_rw : TxRwSet :=
  {| NsRwSets := [{| NameSpace := B "cc";
       KvRwSet := Some {| Reads := [NewKVRead (B "k") None];
         RangeQueriesInfo := [{| StartKey := B "a"; EndKey := B "d"; ItrExhausted := true;
           rqi_ReadsInfo := Some (RawReads {| KvReads := [NewKVRead (B "b") (Some (NewHeight 3 1))] |}) |}];
         Writes := [sample_write (B "k") (B "w")]; MetadataWrites := [] |};
       CollHashedRwSets := [] |}] |}.
Definition serial_tx : transaction := sample_transaction 0 (sample_tx [sample_write (B "z") (B "v")] []).
Definition serial_block : block :=
  {| blk_num := 7; blk_txs := [serial_tx]; sparseblockchainFilter := {| FatBlockNumber := 0; TxnInfoList := [] |}; sparseFilterExists := false |}.
Notation serial_st extra := (mem_state (pdb_vdb (serial_db extra))).
Definition serial_after : blockState :=
  exec_tx (NewHeight 7 0) [(sample_ck (B "z"), ASet (B "v"))] (untouched (committed_state (serial_db ∅) (serial_st ∅))).

(** The verdict on the results of some calls when nothing has changed. *)
Definition verdict_now {A : Type} (extra : gmap bytes VersionedValue) (m : stateful (txSimulator (list VersionedKV)) A) (n : nat) : res TxValidationCode :=
  results ← ((m;; txSimulator_GetTxSimulationResults)%stateful newTxSimulator).1;
  rw ← TxRwSetFromProtoMsg (PubSimulationResults results.1.1);
  validateTx (20 + n) serial_hash (serial_db extra) rw newPubAndHashUpdates.
(** A range query that is opened and not read invalidates the transaction, even if
    the range is empty and nothing has changed: it is recorded without an upper
    bound. *)
Lemma unread_iterator_phantom n :
  verdict_now ∅ (on_executor (queryExecutor_GetStateRangeScanIterator (serial_db ∅) serial_hash (B "cc") (B "a") (B "aa"))) n =
    Ok TxValidationCode_PHANTOM_READ_CONFLICT.
Proof. vm_compute. reflexivity. Qed.
(** One page of two, read to its end, is recorded as the whole range. *)
Lemma paginated_scan_phantom n :
  verdict_now serial_z (txSimulator_GetStateRangeScanIteratorWithPagination (serial_db serial_z) serial_hash (B "cc") (B "a") [] 1;;
    on_executor (itr_Next 0);; on_executor (itr_Next 0))%stateful n = Ok TxValidationCode_PHANTOM_READ_CONFLICT.
Proof. vm_compute. reflexivity. Qed.

Lemma serial_simulated :
  (x ← simulate (serial_db ∅) serial_provider serial_hash serial_program; TxRwSetFromProtoMsg (PubSimulationResults x.1.2)) = Ok serial_rw.
Proof. vm_compute. reflexivity. Qed.
Lemma serial_valid n : validateTx (20 + n) serial_hash (serial_db ∅) serial_rw serial_updates = Ok TxValidationCode_VALID.
Proof. vm_compute. reflexivity. Qed.

Lemma serial_state extra ns key : serial_st extra ns !! key = if decide (ns = B "cc") then <[B "b" := serial_vv (B "old") 3 1]> extra !! key else None.
Proof.
  unfold mem_state, serial_db; cbn [pdb_vdb]. destruct (decide (ns = B "cc")) as [->|]; [by rewrite lookup_singleton_eq|].
  by rewrite lookup_singleton_ne.
Qed.
Lemma serial_plain ns : x24 ∈ ns → ns ≠ B "cc".
Proof. intros Hin ->. vm_compute in Hin. set_solver. Qed.
Lemma serial_derived extra ns coll key :
  serial_st extra (derivePvtDataNs ns coll) !! key = None ∧ serial_st extra (deriveHashedDataNs ns coll) !! key = None.
Proof.
  rewrite !serial_state, !decide_False; [done|apply serial_plain, deriveHashedDataNs_dollar|apply serial_plain, derivePvtDataNs_dollar].
Qed.
Lemma serial_peer extra : (∀ key vv, extra !! key = Some vv → IsDelete vv = false) → peer_ok (serial_db extra) (serial_st extra).
Proof.
  intros Hx. split.
  - apply mem_laws. intros ns key vv. rewrite serial_state. case_decide; [|done]. rewrite lookup_insert_dec. case_decide; [by intros [= <-]|apply Hx].
  - split; intros; by exists None.
  - intros ns coll key _ Hc. rewrite committed_hash by done. by destruct (serial_derived extra ns coll key) as [-> _], (serial_derived extra ns coll (key_hash_str (serial_db extra) (ComputeStringHash key))) as [_ ->].
Qed.
Lemma serial_committed extra ck : ck_plain ck →
  committed (serial_db extra) (serial_st extra) ck = if decide (ck_ns ck = B "cc" ∧ ck_coll ck = []) then <[B "b" := serial_vv (B "old") 3 1]> extra !! ck_key ck else None.
Proof.
  intros _. unfold committed. destruct (decide (ck_coll ck = [])) as [Hc|Hc].
  - rewrite serial_state. repeat case_decide; tauto.
  - rewrite (decide_False (P := _ ∧ _)) by tauto. apply serial_derived.
Qed.
Lemma serial_current ck : ck_plain ck →
  current (serial_db ∅) (serial_st ∅) serial_updates ck = committed (serial_db serial_z) (serial_st serial_z) ck ∧
  bs_val serial_after ck = committed (serial_db serial_z) (serial_st serial_z) ck.
Proof.
  intros Hck. unfold current, get_update, serial_after, exec_tx, untouched, committed_state, on_key; simpl. rewrite !serial_committed by done.
  unfold serial_z. rewrite Get_Update. destruct ck as [ns coll key]; cbn [ck_ns ck_coll ck_key].
  destruct (decide (sample_ck (B "z") = {| ck_ns := ns; ck_coll := coll; ck_key := key |})) as [[= <- <- <-]|Hne]; [by split|].
  destruct (decide (coll = [])) as [->|]; [|rewrite !(decide_False (P := _ ∧ _)) by tauto; by split].
  destruct (decide (ns = B "cc")) as [->|]; [|rewrite !(decide_False (P := _ ∧ _)) by tauto; by split].
  rewrite (decide_True (P := B "cc" = B "cc" ∧ _)) by done. destruct (decide (B "cc" = B "cc" ∧ key = B "z")) as [[_ ->]|Hk]; [by destruct Hne|].
  assert (<[B "b" := serial_vv (B "old") 3 1]> {[B "z" := serial_vv (B "v") 7 0]} !! key = (<[B "b" := serial_vv (B "old") 3 1]> (∅ : gmap bytes VersionedValue)) !! key) as ->; [|by split].
  rewrite !lookup_insert_dec. case_decide; [done|]. rewrite lookup_singleton_ne by (intros <-; tauto). done.
Qed.
Lemma serial_chain : chain (committed_state (serial_db ∅) (serial_st ∅)) serial_after.
Proof.
  eapply (chain_block _ _ serial_block true [serial_tx] [serial_tx]); [apply chain_start| |].
  - apply (run_accept _ _ _ _ _ _ _ (NewHeight 7 0) [(sample_ck (B "z"), ASet (B "v"))]); [done| |done|done|by apply run_nil].
    intros _. apply verdict_next; try constructor.
  - intros tx h ->%list_elem_of_singleton [= <-] ck vv v. simpl. unfold committed.
    assert (∀ ns key, serial_st ∅ ns !! key = Some vv → vv_Version vv = Some v → height_compare v (NewHeight 7 0) = Lt) as Hall; [|case_decide; apply Hall].
    intros ns key. rewrite serial_state. case_decide; [|done]. rewrite lookup_insert_dec. case_decide; [|done]. intros [= <-] [= <-]. done.
Qed.

Lemma serial_program_ok : program_ok serial_program.
Proof.
  assert (plain_ns (B "cc")) as Hcc by (split; vm_compute; set_solver).
  split; [done|]. intros v. split; [done|]. intros i. split; [done|]. intros x. split; [done|]. intros y. split; [done|]. done.
Qed.

Lemma simulation_serializable_witness :
  is_ok (simulate (serial_db ∅) serial_provider serial_hash serial_program) = true ∧
  simulate (serial_db serial_z) serial_provider serial_hash serial_program = simulate (serial_db ∅) serial_provider serial_hash serial_program.
Proof.
  destruct (proj1 (bind_Ok _ _ _) serial_simulated) as ([[r results] pr] & Hsim & Hdec). rewrite Hsim. split; [reflexivity|].
  apply (simulation_serializable serial_program (serial_db ∅) (serial_db serial_z) (serial_db ∅) (serial_st ∅) (serial_st serial_z) (serial_st ∅)
    serial_updates serial_after serial_provider serial_hash (λ _, [x07]) serial_ser 1 r results pr serial_rw).
  - split; [done|done|lia|done|]. intros l l' E. apply (f_equal bytes_pos) in E. unfold serial_ser in E. rewrite !bytes_pos_pos_bytes in E. by apply encode_inj in E as [=].
  - done.
  - apply serial_program_ok.
  - by apply serial_peer.
  - apply serial_peer. intros key vv. unfold serial_z. by intros [<- <-]%lookup_singleton_Some.
  - by apply serial_peer.
  - intros ck vv. unfold committed. assert (∀ ns key, serial_st ∅ ns !! key = Some vv → is_Some (vv_Version vv)) as Hall; [|case_decide; apply Hall].
    intros ns key. rewrite serial_state. case_decide; [|done]. rewrite lookup_insert_dec. case_decide; [|done]. intros [= <-]. by eexists.
  - intros ns _. rewrite serial_state. case_decide; [|done]. reflexivity.
  - apply serial_chain.
  - intros ck Hck. destruct (serial_current ck Hck) as [-> ->]. done.
  - intros ck Hck. by destruct (serial_current ck Hck) as [-> _].
  - intros ns coll key _ _ _. by destruct (serial_derived ∅ ns coll key) as [-> _], (serial_derived serial_z ns coll key) as [-> _].
  - done.
  - intros ns i Hlen. exfalso. pose proof (covered_length (serial_st ∅ ns) i) as Hl.
    assert (size (serial_st ∅ ns) ≤ 1); [|lia]. unfold mem_state. destruct (decide (ns = B "cc")) as [->|Hn]; [vm_compute; lia|].
    cbn [serial_db pdb_vdb]. rewrite lookup_singleton_ne by done. vm_compute. lia.
  - exact Hsim.
  - exact Hdec.
  - exists 20. intros fuel Hf. replace fuel with (20 + (fuel - 20)) by lia. apply serial_valid.
Defined.
End sample.
