(* ===== verification/ReadOnly.v ===== *)
(** * Unrecorded queries are read-only transactions

  The results of queries on private data are not recorded, and those of paginated
  queries not in a way that could be validated. tx_simulator.go therefore allows
  them only in transactions that do not write: once a transaction has written it
  cannot make such a query, and once it has made one it cannot write. This file
  proves it for every sequence of calls of the simulator (file Simulator). *)

From S2P Require Import Prelude SortedMap Version StateDB Proto Rwset RwsetBuilder Merkle LevelDB StateLevelDB PrivState Simulator.
From stdpp Require Import options.
Local Open Scope nat_scope.
Set Default Proof Using "Type*".

(** ** Builders without writes *)

Record no_writes (b : RWSetBuilder) : Prop := {
  nw_pub ns : npb_writeMap (getOrCreateNsPubRwBuilder b ns) = ∅ ∧ npb_metadataWriteMap (getOrCreateNsPubRwBuilder b ns) = ∅;
  nw_hash ns coll : chb_writeMap (coll_hash b ns coll) = ∅ ∧ chb_metadataWriteMap (coll_hash b ns coll) = ∅;
  nw_pvt : pvtRwBuilderMap b = ∅
}.
Lemma NewRWSetBuilder_no_writes : no_writes NewRWSetBuilder.
Proof. by split. Qed.

Section builder.
Context `{!Sha256}.

Lemma AddToReadSet_no_writes b ns key v : no_writes b → no_writes (AddToReadSet b ns key v).
Proof.
  intros [H1 H2 H3]. split; [|intros ns' coll; unfold AddToReadSet; by rewrite coll_hash_with_ns_pub|done].
  intros ns'. unfold AddToReadSet. rewrite getOrCreate_with_ns_pub. case_decide; subst; apply H1.
Qed.
Lemma AddToHashedReadSet_no_writes b ns coll key v : no_writes b → no_writes (AddToHashedReadSet b ns coll key v).
Proof.
  intros [H1 H2 H3]. unfold AddToHashedReadSet. split; [| |done].
  - intros ns'. unfold with_coll_hash. rewrite getOrCreate_with_ns_pub. case_decide; subst; apply H1.
  - intros ns' coll'. rewrite coll_hash_with_coll_hash. case_decide as Hd; [|apply H2]. destruct Hd as [-> ->]. apply H2.
Qed.
Lemma foldl_no_writes {A} (f : RWSetBuilder → A → RWSetBuilder) l b :
  (∀ b x, no_writes b → no_writes (f b x)) → no_writes b → no_writes (foldl f b l).
Proof. intros Hf. revert b. induction l as [|x l IH]; intros b Hb; simpl; auto. Qed.

(** The read-write sets of such a builder have no writes. *)
Definition read_only (t : TxRwSet) : Prop := Forall (λ n,
  (∀ kv, KvRwSet n = Some kv → Writes kv = [] ∧ MetadataWrites kv = []) ∧
  Forall (λ c, ∀ h, HashedRwSet c = Some h → HashedWrites h = [] ∧ HashedMetadataWrites h = []) (CollHashedRwSets n)) (NsRwSets t).
Lemma no_writes_read_only b : no_writes b → read_only (GetTxReadWriteSet b) ∧ getTxPvtReadWriteSet b = None.
Proof.
  intros [H1 H2 H3]. split; [|unfold getTxPvtReadWriteSet; by rewrite H3].
  apply Forall_fmap, Forall_forall. intros n [ns Hn]%elem_of_GetValuesBySortedKeys. simpl.
  assert (getOrCreateNsPubRwBuilder b ns = n) as Hg by (unfold getOrCreateNsPubRwBuilder; by rewrite Hn).
  specialize (H1 ns). rewrite Hg in H1. destruct H1 as [E1 E2]. split; [intros kv [= <-]; simpl; by rewrite E1, E2|].
  apply Forall_fmap, Forall_forall. intros c [coll Hc]%elem_of_GetValuesBySortedKeys h [= <-]. simpl.
  specialize (H2 ns coll). unfold coll_hash, getOrCreateCollHashedRwBuilder in H2. rewrite Hg, Hc in H2. by destruct H2 as [-> ->].
Qed.
End builder.

(** ** Executors *)

Section guards.
Context `{!ProtoMessage KVMetadataWrite, !ProtoMessage QueryReads, !Sha256}.
Context {DB I L : Type} `{!VersionedDB DB I} `{!QueryDB DB I}.
Context (db : PrivDB DB L) (provider : bytes → config_query) (hashFunc : HashFunc).
Notation op := (stateful (queryExecutor I)).

(** Operations of the executor record no writes. *)
Definition reads_only {A} (m : op A) : Prop := ∀ q r q' b, m q = (r, q') → qe_rwsetBuilder q = Some b →
  ∃ b', qe_rwsetBuilder q' = Some b' ∧ (no_writes b → no_writes b').

Lemma ro_lift {A} (r : res A) : reads_only (st_lift r).
Proof. intros q r' q' b [= <- <-] Hb. by exists b. Qed.
Lemma ro_ret {A} (a : A) : reads_only (st_ret a).
Proof. apply (ro_lift (Ok a)). Qed.
Lemma ro_fail {A} e : reads_only (A := A) (st_fail e).
Proof. apply (ro_lift (Err e)). Qed.
Lemma ro_bind {A B} (m : op A) (f : A → op B) : reads_only m → (∀ a, reads_only (f a)) → reads_only (st_bind m f).
Proof.
  intros Hm Hf q r q' b E Hb. unfold st_bind in E. destruct (m q) as [[a|e|] t] eqn:Em; destruct (Hm _ _ _ _ Em Hb) as (b1 & Hb1 & H1).
  - destruct (Hf a _ _ _ _ E Hb1) as (b2 & Hb2 & H2). eauto.
  - injection E as <- <-. eauto.
  - injection E as <- <-. eauto.
Qed.
Lemma ro_get {A} (f : queryExecutor I → op A) : (∀ q, reads_only (f q)) → reads_only (st_bind st_get f).
Proof. intros Hf q r q' b E Hb. exact (Hf q _ _ _ _ E Hb). Qed.
Lemma ro_modify (f : queryExecutor I → queryExecutor I) : (∀ q, qe_rwsetBuilder (f q) = qe_rwsetBuilder q) → reads_only (st_modify f).
Proof. intros Hf q r q' b [= <- <-] Hb. exists b. by rewrite Hf. Qed.
Lemma ro_builder f : (∀ b, no_writes b → no_writes (f b)) → reads_only (on_builder f).
Proof. intros Hf q r q' b [= <- <-] Hb. exists (f b). simpl. rewrite Hb. auto. Qed.

Create HintDb read_only.
#[local] Hint Resolve ro_lift ro_ret ro_fail AddToReadSet_no_writes AddToHashedReadSet_no_writes : read_only.
Ltac ro := intros; first
  [ solve [auto with read_only]
  | match goal with
    | |- reads_only (st_bind st_get _) => apply ro_get; ro
    | |- reads_only (st_bind _ _) => apply ro_bind; ro
    | |- reads_only (st_modify _) => apply ro_modify; done
    | |- reads_only (on_builder _) => apply ro_builder; ro
    | |- reads_only (match ?x with _ => _ end) => destruct x; ro
    end
  | idtac ].

Lemma ro_checkDone : reads_only checkDone.
Proof. unfold checkDone. ro. Qed.
#[local] Hint Resolve ro_checkDone : read_only.
Lemma ro_getState ns key : reads_only (getState db ns key).
Proof. unfold getState. ro. Qed.
#[local] Hint Resolve ro_getState : read_only.
Lemma ro_GetState ns key : reads_only (queryExecutor_GetState db ns key).
Proof. unfold queryExecutor_GetState. ro. Qed.
#[local] Hint Resolve ro_GetState : read_only.
Lemma ro_config c : reads_only (run_config_query db c).
Proof. induction c as [r|ns key k IH]; simpl; [apply ro_lift|]. apply ro_bind; [apply ro_GetState|]. intros v. apply IH. Qed.
#[local] Hint Resolve ro_config : read_only.
Lemma ro_validateCollName ns coll : reads_only (validateCollName db provider ns coll).
Proof. unfold validateCollName, retrieveCollConfigFromStateDB, set_cache. ro. Qed.
#[local] Hint Resolve ro_validateCollName : read_only.
Lemma ro_add_private_read ns coll : reads_only (add_private_read ns coll).
Proof. unfold add_private_read. ro. Qed.
#[local] Hint Resolve ro_add_private_read : read_only.
Lemma ro_GetStateMetadata ns key : reads_only (queryExecutor_GetStateMetadata db ns key).
Proof. unfold queryExecutor_GetStateMetadata. ro. Qed.
Lemma ro_GetStateMultipleKeys ns keys : reads_only (queryExecutor_GetStateMultipleKeys db ns keys).
Proof. unfold queryExecutor_GetStateMultipleKeys. ro. apply foldl_no_writes; [ro|done]. Qed.
Lemma ro_PagedScan ns s e n : reads_only (queryExecutor_GetStateRangeScanIteratorWithPagination db hashFunc ns s e n).
Proof. unfold queryExecutor_GetStateRangeScanIteratorWithPagination, set_itrs. ro. Qed.
Lemma ro_RangeScan ns s e : reads_only (queryExecutor_GetStateRangeScanIterator db hashFunc ns s e).
Proof. apply ro_PagedScan. Qed.
Lemma ro_ExecuteQuery ns query : reads_only (queryExecutor_ExecuteQuery db ns query).
Proof. unfold queryExecutor_ExecuteQuery. ro. Qed.
Lemma ro_PagedQuery ns query bookmark n : reads_only (queryExecutor_ExecuteQueryWithPagination db ns query bookmark n).
Proof. unfold queryExecutor_ExecuteQueryWithPagination. ro. Qed.
Lemma ro_QueryNext dbItr : reads_only (queryResultsItr_Next dbItr).
Proof. unfold queryResultsItr_Next. ro. Qed.
Lemma ro_PrivateQuery ns coll query : reads_only (queryExecutor_ExecuteQueryOnPrivateData db provider ns coll query).
Proof. unfold queryExecutor_ExecuteQueryOnPrivateData. ro. Qed.
Lemma ro_Next i : reads_only (itr_Next i).
Proof. unfold itr_Next, set_itrs. ro. Qed.
Lemma ro_GetPrivateData ns coll key : reads_only (queryExecutor_GetPrivateData db provider ns coll key).
Proof. unfold queryExecutor_GetPrivateData. ro. Qed.
Lemma ro_GetPrivateDataHash ns coll key : reads_only (queryExecutor_GetPrivateDataHash db provider ns coll key).
Proof. unfold queryExecutor_GetPrivateDataHash. ro. Qed.
Lemma ro_GetPrivateDataMetadata ns coll key : reads_only (queryExecutor_GetPrivateDataMetadata db provider ns coll key).
Proof. unfold queryExecutor_GetPrivateDataMetadata, getPrivateDataMetadataByHash, getPrivateDataValueHash. ro. Qed.
Lemma ro_GetPrivateDataMultipleKeys ns coll keys : reads_only (queryExecutor_GetPrivateDataMultipleKeys db provider ns coll keys).
Proof. unfold queryExecutor_GetPrivateDataMultipleKeys. ro. apply foldl_no_writes; [ro|done]. Qed.
Lemma ro_GetPrivateDataRangeScan ns coll s e : reads_only (queryExecutor_GetPrivateDataRangeScanIterator db provider ns coll s e).
Proof. unfold queryExecutor_GetPrivateDataRangeScanIterator. ro. Qed.

(** ** Simulators *)

Notation sim_op := (stateful (txSimulator I)).

(** What holds at any time: there is a builder, without writes as long as no
    write was tried, and writes and unrecorded queries exclude each other. *)
Record guarded (s : txSimulator I) : Prop := {
  gd_builder : ∃ b, qe_rwsetBuilder (ts_queryExecutor s) = Some b ∧ (writePerformed s = false → no_writes b);
  gd_exclusive : writePerformed s = true → pvtdataQueriesPerformed s = false ∧ paginatedQueriesPerformed s = false
}.
Definition writing (s : txSimulator I) : Prop := guarded s ∧ writePerformed s = true.

(** From [P] the operation stays guarded, and ends in [Q] if it returns. *)
Definition triple {A} (P : txSimulator I → Prop) (m : sim_op A) (Q : txSimulator I → Prop) : Prop :=
  ∀ s r s', P s → m s = (r, s') → guarded s' ∧ (∀ a, r = Ok a → Q s').

Lemma triple_bind {A B} P Q R (m : sim_op A) (f : A → sim_op B) : triple P m Q → (∀ a, triple Q (f a) R) → triple P (st_bind m f) R.
Proof.
  intros Hm Hf s r s' Hs E. unfold st_bind in E. destruct (m s) as [[a|e|] t] eqn:Em; destruct (Hm _ _ _ Hs Em) as [Hg Hq].
  - by apply (Hf a t); [apply (Hq a)|].
  - injection E as <- <-. split; [done|]. by intros ? [=].
  - injection E as <- <-. split; [done|]. by intros ? [=].
Qed.
Lemma triple_lift {A} (P : txSimulator I → Prop) (r : res A) : (∀ s, P s → guarded s) → triple P (st_lift r) P.
Proof. intros HP s r' s' Hs [= <- <-]. auto. Qed.
Lemma triple_executor {A} (P : txSimulator I → Prop) (m : stateful (queryExecutor I) A) : P = guarded ∨ P = writing → reads_only m → triple P (on_executor m) P.
Proof.
  intros HP Hm s r s' Hs E. unfold on_executor in E. destruct (m _) as [r' q'] eqn:Em. injection E as <- <-.
  assert (guarded s) as [(b & Hb & Hw) Hx] by (destruct HP as [->| ->]; [done|apply Hs]).
  destruct (Hm _ _ _ _ Em Hb) as (b' & Hb' & Hw').
  assert (guarded {| ts_queryExecutor := q'; writePerformed := writePerformed s; pvtdataQueriesPerformed := pvtdataQueriesPerformed s;
    simulationResultsComputed := simulationResultsComputed s; paginatedQueriesPerformed := paginatedQueriesPerformed s; writesetMetadata := writesetMetadata s |}) as Hg by (split; simpl; eauto).
  split; [done|]. intros a _. destruct HP as [->| ->]; [done|]. split; [done|apply Hs].
Qed.

(** A write marks the transaction before the builder is touched. *)
Lemma triple_checkWrite key value : triple guarded (checkWritePrecondition db key value) writing.
Proof.
  eapply triple_bind; [apply (triple_executor guarded); [by left|apply ro_checkDone]|]. intros _.
  intros s r s' Hs. unfold checkPvtdataQueryPerformed, checkPaginatedQueryPerformed, set_writePerformed, st_bind, st_get, st_modify, st_lift.
  destruct (pvtdataQueriesPerformed s) eqn:Hp; [intros [= <- <-]; split; [done|by intros ? [=]]|]. simpl.
  destruct (paginatedQueriesPerformed s) eqn:Hg; intros [= <- <-]; [split; [done|by intros ? [=]]|].
  match goal with |- guarded ?t ∧ _ => assert (guarded t) as Ht end; [|split; [done|by split]].
  destruct Hs as [(b & Hb & _) _]. split; simpl; [by exists b|done].
Qed.
Lemma triple_write f : triple writing (on_executor (on_builder f)) writing.
Proof.
  intros s r s' [[(b & Hb & Hw) Hx] Hwp] E. unfold on_executor, on_builder, st_modify in E. injection E as <- <-.
  match goal with |- guarded ?t ∧ _ => assert (guarded t) as Hg end; [|split; [done|by split]].
  split; simpl; [|done]. exists (f b). rewrite Hb, Hwp. by split.
Qed.
Lemma triple_set_write : triple writing set_writePerformed writing.
Proof.
  intros s r s' [[(b & Hb & Hw) Hx] Hwp] [= <- <-].
  match goal with |- guarded ?t ∧ _ => assert (guarded t) as Hg end; [|split; [done|by split]].
  split; simpl; [by exists b|auto].
Qed.
Lemma triple_metadata P r ns coll key : P = guarded ∨ P = writing →
  triple P (b ⇐ st_lift r; m ⇐ st_lift (Deserialize b); add_writesetMetadata ns coll key m)%stateful P.
Proof.
  intros HP. assert (∀ s, P s → guarded s) as Hg by (destruct HP as [->| ->]; [done|by intros s [? _]]).
  eapply triple_bind; [by apply triple_lift|]. intros b. eapply triple_bind; [by apply triple_lift|]. intros m s r' s' Hs [= <- <-].
  pose proof (Hg s Hs) as [Hb Hx]. split; [by split|]. intros _ _. destruct HP as [->| ->]; [by split|]. split; [by split|apply Hs].
Qed.
Lemma triple_SetState ns key value : triple guarded (SetState db ns key value) guarded.
Proof.
  eapply triple_bind; [apply triple_checkWrite|]. intros _. eapply triple_bind; [apply triple_write|]. intros _.
  intros s r s' Hs E. by destruct (triple_metadata writing _ ns [] key (or_intror eq_refl) s r s' Hs E) as [? _].
Qed.
Lemma triple_SetStateMetadata ns key m : triple guarded (SetStateMetadata db ns key m) guarded.
Proof.
  eapply triple_bind; [apply triple_checkWrite|]. intros _. eapply triple_bind; [apply triple_write|]. intros _.
  intros s r s' Hs E. by destruct (triple_metadata writing _ ns [] key (or_intror eq_refl) s r s' Hs E) as [? _].
Qed.
Lemma triple_private_write ns coll key value f : triple guarded (on_executor (validateCollName db provider ns coll);;
  checkWritePrecondition db key value;; set_writePerformed;; on_executor (on_builder f);; checkPrivateStateMetadata db ns coll key)%stateful guarded.
Proof.
  eapply triple_bind; [apply (triple_executor guarded); [by left|apply ro_validateCollName]|]. intros _.
  eapply triple_bind; [apply triple_checkWrite|]. intros _. eapply triple_bind; [apply triple_set_write|]. intros _.
  eapply triple_bind; [apply triple_write|]. intros _.
  intros s r s' Hs E. by destruct (triple_metadata writing _ ns coll key (or_intror eq_refl) s r s' Hs E) as [? _].
Qed.
Lemma triple_SetPrivateDataMetadata ns coll key m : triple guarded (SetPrivateDataMetadata db provider ns coll key m) guarded.
Proof.
  eapply triple_bind; [apply (triple_executor guarded); [by left|apply ro_validateCollName]|]. intros _.
  eapply triple_bind; [apply triple_checkWrite|]. intros _. eapply triple_bind; [apply triple_write|]. intros _.
  intros s r s' Hs E. by destruct (triple_metadata writing _ ns coll key (or_intror eq_refl) s r s' Hs E) as [? _].
Qed.

(** ** The calls of a chaincode, with the queries on private data *)

Inductive sim_step : txSimulator I → txSimulator I → Prop :=
| step_call c s : sim_step s (do_call db provider hashFunc c s).2
| step_private_keys ns coll keys s : sim_step s (on_executor (queryExecutor_GetPrivateDataMultipleKeys db provider ns coll keys) s).2
| step_private_range ns coll startKey endKey s : sim_step s (txSimulator_GetPrivateDataRangeScanIterator db provider ns coll startKey endKey s).2
| step_private_query ns coll query s : sim_step s (txSimulator_ExecuteQueryOnPrivateData db provider ns coll query s).2
| step_paged_range ns startKey endKey pageSize s : sim_step s (txSimulator_GetStateRangeScanIteratorWithPagination db hashFunc ns startKey endKey pageSize s).2
| step_paged_query ns query bookmark pageSize s : sim_step s (txSimulator_ExecuteQueryWithPagination db ns query bookmark pageSize s).2
| step_query ns query s : sim_step s (on_executor (queryExecutor_ExecuteQuery db ns query) s).2
| step_query_next dbItr s : sim_step s (on_executor (queryResultsItr_Next dbItr) s).2.

Lemma call_guarded c : triple guarded (do_call db provider hashFunc c) guarded.
Proof.
  assert (∀ A B (f : A → B) (m : sim_op A), triple guarded m guarded → triple guarded (st_map f m) guarded) as Hmap.
  { intros A B f m Hm. eapply triple_bind; [done|]. intros a. by apply (triple_lift guarded (Ok (f a))). }
  assert (∀ A (m : stateful (queryExecutor I) A), reads_only m → triple guarded (on_executor m) guarded) as Hro.
  { intros A m Hm. apply triple_executor; [by left|done]. }
  destruct c; apply Hmap.
  - apply Hro, ro_GetState.
  - apply Hro, ro_GetStateMetadata.
  - apply Hro, ro_GetStateMultipleKeys.
  - apply Hro, ro_RangeScan.
  - apply Hro, ro_Next.
  - apply Hro, ro_GetPrivateData.
  - apply Hro, ro_GetPrivateDataHash.
  - apply Hro, ro_GetPrivateDataMetadata.
  - apply triple_SetState.
  - apply triple_SetStateMetadata.
  - apply triple_private_write.
  - apply triple_private_write.
  - apply triple_SetPrivateDataMetadata.
Qed.
Lemma private_guarded {A} (m : stateful (queryExecutor I) A) : reads_only m → triple guarded (checkBeforePvtdataQueries;; on_executor m)%stateful guarded.
Proof.
  intros Hm. eapply triple_bind; [|intros _; by apply (triple_executor guarded); [left|]].
  intros s r s' Hs. unfold checkBeforePvtdataQueries, set_pvtdataQueriesPerformed, st_bind, st_get, st_modify.
  destruct (writePerformed s) eqn:Hw; intros [= <- <-]; [split; [done|by intros ? [=]]|].
  match goal with |- guarded ?t ∧ _ => assert (guarded t) as Hg end; [|by split].
  destruct Hs as [Hb _]. split; simpl; [done|congruence].
Qed.
Lemma paged_guarded {A} (m : stateful (queryExecutor I) A) : reads_only m → triple guarded (checkBeforePaginatedQueries;; on_executor m)%stateful guarded.
Proof.
  intros Hm. eapply triple_bind; [|intros _; by apply (triple_executor guarded); [left|]].
  intros s r s' Hs. unfold checkBeforePaginatedQueries, set_paginatedQueriesPerformed, st_bind, st_get, st_modify.
  destruct (writePerformed s) eqn:Hw; intros [= <- <-]; [split; [done|by intros ? [=]]|].
  match goal with |- guarded ?t ∧ _ => assert (guarded t) as Hg end; [|by split].
  destruct Hs as [Hb _]. split; simpl; [done|congruence].
Qed.
Lemma triple_step {A} (m : sim_op A) s : triple guarded m guarded → guarded s → guarded (m s).2.
Proof. intros Hm Hs. destruct (m s) as [r s'] eqn:E. by destruct (Hm s r s' Hs E). Qed.
Lemma steps_guarded s s' : guarded s → rtc sim_step s s' → guarded s'.
Proof.
  intros Hs Hr. revert Hs. induction Hr as [|s t s' Hst Hr IH]; intros Hs; [done|]. apply IH.
  assert (∀ A (m : stateful (queryExecutor I) A), reads_only m → triple guarded (on_executor m) guarded) as Hro.
  { intros A m Hm. apply triple_executor; [by left|done]. }
  destruct Hst; (apply triple_step; [|done]).
  - apply call_guarded.
  - apply Hro, ro_GetPrivateDataMultipleKeys.
  - apply private_guarded, ro_GetPrivateDataRangeScan.
  - apply private_guarded, ro_PrivateQuery.
  - apply paged_guarded, ro_PagedScan.
  - apply paged_guarded, ro_PagedQuery.
  - apply Hro, ro_ExecuteQuery.
  - apply Hro, ro_QueryNext.
Qed.
Lemma new_guarded : guarded newTxSimulator.
Proof. split; simpl; [exists NewRWSetBuilder; split; [done|intros _; apply NewRWSetBuilder_no_writes]|done]. Qed.

End guards.

(** A query on a collection, then a write. *)
#[local] Existing Instances sample_priv_codec sample_priv_sha.
#[local] Instance read_only_codec : ProtoMessage KVMetadataWrite := countable_proto KVMetadataWrite.
#[local] Instance read_only_reads : ProtoMessage QueryReads := countable_proto QueryReads.
Definition sample_provider (ns : bytes) : config_query := CollConfigs (Ok (Some [Some (B "coll")])).
Definition sample_queried : txSimulator (kvScanner) :=
  (txSimulator_GetPrivateDataRangeScanIterator sample_priv_db sample_provider (B "cc") (B "coll") (B "a") (B "z") newTxSimulator).2.

