(* ===== verification/HistoryDB.v ===== *)
(** * The history database

  Models core/ledger/kvledger/history/db.go and query_executer.go: for every
  write of a valid transaction the database keeps a record, a key without a
  value that holds the namespace, the key and the height; a query scans the
  records of a key from the newest to the oldest and takes the values from the
  transactions in the block store. The store of the handle is passed explicitly,
  as in LevelDB; the block store is the function that retrieves a transaction
  by its position. *)

From S2P Require Import Prelude SortedMap Encoding Separated Proto Rwset LevelDB Block BlockSerial BlockIndex BlockStore BlockRecovery BlockServe Version HistoryKeys.
From stdpp Require Import options.
Local Open Scope Z_scope.
Set Default Proof Using "Type*".

Definition history_savePointKey : bytes := B "s".
Definition emptyValue : bytes := [].

(** ** Cursors (goleveldb's iterators)

    Position 0 is before the first binding, position [i + 1] is on binding [i],
    and one past the number of bindings is behind the last one. *)

Record dbCursor := { cur_items : list (bytes * bytes); cur_pos : nat }.
Definition cursor_at (c : dbCursor) (i : nat) : dbCursor := {| cur_items := cur_items c; cur_pos := i |}.
Definition cursor_Last (c : dbCursor) : bool * dbCursor :=
  (negb (bool_decide (cur_items c = [])), cursor_at c (length (cur_items c))).
Definition cursor_Next (c : dbCursor) : bool * dbCursor :=
  let i := Nat.min (S (cur_pos c)) (S (length (cur_items c))) in
  (bool_decide (i ≤ length (cur_items c))%nat, cursor_at c i).
Definition cursor_Prev (c : dbCursor) : bool * dbCursor :=
  let i := Nat.pred (cur_pos c) in (negb (bool_decide (i = 0%nat)), cursor_at c i).
(** [Key] of leveldbhelper.Iterator. *)
Definition cursor_Key (c : dbCursor) : res bytes :=
  '(k, _) ← index (cur_items c) (Nat.pred (cur_pos c)); retrieveAppKey k.

(** ** The database *)

Record KeyModification := { km_TxId : bytes; km_Value : option bytes; km_Timestamp : option (Z * Z); km_IsDelete : bool }.

Record historyDB {L : Type} := { hdb_levelDB : L; hdb_name : bytes }.
Arguments historyDB : clear implicits.
Record historyScanner := { hs_rangeScan : rangeScan; hs_namespace : bytes; hs_key : bytes; hs_dbItr : dbCursor }.

Section history.
Context {L : Type} `{!GoLevelDB L}.
Context `{!ProtoMessage Envelope, !ProtoMessage Payload, !ProtoMessage ChannelHeader, !ProtoMessage Transaction}.
Context `{!ProtoMessage ChaincodeActionPayload, !ProtoMessage ProposalResponsePayload, !ProtoMessage ChaincodeAction}.
Context `{!ProtoMessage KVRWSet, !ProtoMessage HashedRWSet, !ProtoMessage TxReadWriteSet}.

(** The records of the writes of a transaction. *)
Definition commit_writes (blockNo tranNo : Z) (txRWSet : TxRwSet) (dbBatch : LevelBatch) : res LevelBatch :=
  foldM (λ dbBatch nsRWSet,
    let ns := NameSpace nsRWSet in
    kvRwSet ← deref (KvRwSet nsRWSet);
    foldM (λ dbBatch kvWrite,
      LevelBatch_Put dbBatch (constructDataKey ns (kvw_Key kvWrite) blockNo tranNo) (Some emptyValue))
      dbBatch (Writes kvRwSet)) dbBatch (NsRwSets txRWSet).

(** The body of the loop over the transactions; [tranNo] is the counter. *)
Definition commit_tran (blockNo : Z) (txsFilter : bytes) (acc : LevelBatch * nat) (envBytes : bytes) : res (LevelBatch * nat) :=
  let '(dbBatch, tranNo) := acc in
  invalid ← ValidationFlags_IsInvalid txsFilter tranNo;
  if (invalid : bool) then Ok (dbBatch, S tranNo)
  else
    env ← GetEnvelopeFromBlock envBytes;
    payload ← UnmarshalPayload (env_Payload env);
    hdr ← deref (pl_Header payload);
    chdr ← UnmarshalChannelHeader (hdr_ChannelHeader hdr);
    if decide (chdr_Type chdr = HeaderType_ENDORSER_TRANSACTION) then
      respPayload ← GetActionFromEnvelope envBytes;
      txRWSet ← TxRwSet_FromProtoBytes (ca_Results respPayload);
      dbBatch ← commit_writes blockNo (Z.of_nat tranNo) txRWSet dbBatch;
      Ok (dbBatch, S tranNo)
    else Ok (dbBatch, S tranNo).

Definition history_Commit (d : historyDB L) (block : Block) : res (historyDB L) :=
  header ← deref (b_Header block);
  let blockNo := bh_Number header in
  let dbBatch := DBHandle_NewUpdateBatch (hdb_name d) in
  data ← deref (b_Data block);
  metadata ← deref (b_Metadata block);
  txsFilter ← index metadata BlockMetadataIndex_TRANSACTIONS_FILTER;
  '(dbBatch, tranNo) ← foldM (commit_tran blockNo txsFilter) (dbBatch, 0%nat) data;
  let height := NewHeight blockNo (Z.of_nat tranNo) in
  dbBatch ← LevelBatch_Put dbBatch history_savePointKey (Some (Height_ToBytes height));
  db ← DBHandle_WriteBatch (hdb_levelDB d) dbBatch;
  Ok {| hdb_levelDB := db; hdb_name := hdb_name d |}.

Definition MarkStartingSavepoint (d : historyDB L) (savepoint : Height) : res (historyDB L) :=
  db ← DBHandle_Put (hdb_name d) (hdb_levelDB d) history_savePointKey (Height_ToBytes savepoint);
  Ok {| hdb_levelDB := db; hdb_name := hdb_name d |}.

Definition history_GetLastSavepoint (d : historyDB L) : res (option Height) :=
  versionBytes ← DBHandle_Get (hdb_name d) (hdb_levelDB d) history_savePointKey;
  match versionBytes with
  | None => Ok None
  | Some versionBytes => '(height, _) ← NewHeightFromBytes versionBytes; Ok (Some height)
  end.

Definition history_ShouldRecover (d : historyDB L) (lastAvailableBlock : Z) : res (bool * Z) :=
  savepoint ← history_GetLastSavepoint d;
  match savepoint with
  | None => Ok (true, 0)
  | Some savepoint => Ok (negb (bool_decide (BlockNum savepoint = lastAvailableBlock)), u64 (BlockNum savepoint + 1))
  end.

(** Lite blocks leave the history database alone. *)
Definition history_CommitLostBlock (d : historyDB L) (block : Block) : res (historyDB L) := history_Commit d block.
Definition history_CommitLostLiteBlock (d : historyDB L) (block : Block) : res (historyDB L) := Ok d.

(** ** Queries *)

Definition GetHistoryForKey (d : historyDB L) (namespace key : bytes) : res historyScanner :=
  let rangeScan := constructRangeScan namespace key in
  itr ← DBHandle_GetIterator (hdb_name d) (hdb_levelDB d) (Some (startKey rangeScan)) (Some (endKey rangeScan));
  let dbItr := {| cur_items := it_rest itr; cur_pos := 0 |} in
  let '(ok, dbItr) := cursor_Last dbItr in
  let dbItr := if ok then (cursor_Next dbItr).2 else dbItr in
  Ok {| hs_rangeScan := rangeScan; hs_namespace := namespace; hs_key := key; hs_dbItr := dbItr |}.

(** The write of the key in the first read-write set of the namespace. *)
Fixpoint find_ns (namespace : bytes) (l : list NsRwSet) : option NsRwSet :=
  match l with
  | [] => None
  | nsRWSet :: l => if decide (NameSpace nsRWSet = namespace) then Some nsRWSet else find_ns namespace l
  end.
Fixpoint find_write (key : bytes) (l : list KVWrite) : option KVWrite :=
  match l with
  | [] => None
  | kvWrite :: l => if decide (kvw_Key kvWrite = key) then Some kvWrite else find_write key l
  end.
Definition newKeyModification (chdr : ChannelHeader) (kvWrite : KVWrite) : KeyModification :=
  {| km_TxId := chdr_TxId chdr; km_Value := kvw_Value kvWrite; km_Timestamp := chdr_Timestamp chdr; km_IsDelete := IsKVWriteDelete kvWrite |}.

Definition getKeyModificationFromTran (tranEnvelope : Envelope) (namespace key : bytes) : res (option KeyModification) :=
  payload ← UnmarshalPayload (env_Payload tranEnvelope);
  tx ← Unmarshal (A := Transaction) (pl_Data payload);
  action ← index (txn_Actions tx) 0;
  '(_, respPayload) ← GetPayloads action;
  hdr ← deref (pl_Header payload);
  chdr ← UnmarshalChannelHeader (hdr_ChannelHeader hdr);
  txRWSet ← TxRwSet_FromProtoBytes (ca_Results respPayload);
  match find_ns namespace (NsRwSets txRWSet) with
  | None => Ok None
  | Some nsRWSet => kvRwSet ← deref (KvRwSet nsRWSet); Ok (newKeyModification chdr <$> find_write key (Writes kvRwSet))
  end.

Definition historyScanner_Next (RetrieveTxByBlockNumTranNum : Z → Z → res Envelope) (scanner : historyScanner) :
    res (option KeyModification * historyScanner) :=
  let '(ok, dbItr) := cursor_Prev (hs_dbItr scanner) in
  let scanner := {| hs_rangeScan := hs_rangeScan scanner; hs_namespace := hs_namespace scanner; hs_key := hs_key scanner; hs_dbItr := dbItr |} in
  if negb ok then Ok (None, scanner)
  else
    historyKey ← cursor_Key dbItr;
    '(blockNum, tranNum) ← decodeBlockNumTranNum (hs_rangeScan scanner) historyKey;
    tranEnvelope ← RetrieveTxByBlockNumTranNum blockNum tranNum;
    queryResult ← getKeyModificationFromTran tranEnvelope (hs_namespace scanner) (hs_key scanner);
    match queryResult with
    | None => Err "no namespace or key is found"
    | Some queryResult => Ok (Some queryResult, scanner)
    end.

(** ** What the history of a chain is *)

Definition update : Type := ChannelHeader * TxRwSet.

(** The read-write set of a transaction that is valid and of an endorser. *)
Definition tx_update (txsFilter : bytes) (tranNo : nat) (envBytes : bytes) : res (option update) :=
  invalid ← ValidationFlags_IsInvalid txsFilter tranNo;
  if (invalid : bool) then Ok None
  else
    env ← GetEnvelopeFromBlock envBytes;
    payload ← UnmarshalPayload (env_Payload env);
    hdr ← deref (pl_Header payload);
    chdr ← UnmarshalChannelHeader (hdr_ChannelHeader hdr);
    if decide (chdr_Type chdr = HeaderType_ENDORSER_TRANSACTION) then
      respPayload ← GetActionFromEnvelope envBytes;
      txRWSet ← TxRwSet_FromProtoBytes (ca_Results respPayload);
      Ok (Some (chdr, txRWSet))
    else Ok None.
Fixpoint tx_updates (txsFilter : bytes) (tranNo : nat) (data : list bytes) : res (list (option update)) :=
  match data with
  | [] => Ok []
  | envBytes :: data => u ← tx_update txsFilter tranNo envBytes; us ← tx_updates txsFilter (S tranNo) data; Ok (u :: us)
  end.
Definition block_updates (block : Block) : res (list (option update)) :=
  data ← deref (b_Data block);
  metadata ← deref (b_Metadata block);
  txsFilter ← index metadata BlockMetadataIndex_TRANSACTIONS_FILTER;
  tx_updates txsFilter 0 data.

Definition ns_writes (n : NsRwSet) : list KVWrite := match KvRwSet n with Some kv => Writes kv | None => [] end.
Definition modification (namespace key : bytes) (u : option update) : option KeyModification :=
  '(chdr, rw) ← u; n ← find_ns namespace (NsRwSets rw); newKeyModification chdr <$> find_write key (ns_writes n).
(** All modifications of a key, the oldest first. *)
Definition modifications (namespace key : bytes) (uss : list (list (option update))) : list KeyModification :=
  omap (modification namespace key) (concat uss).

(** A namespace occurs once in a transaction (the endorsement check refuses
    duplicates) and its name has no zero byte. *)
Definition update_ok (u : update) : Prop :=
  NoDup (NameSpace <$> NsRwSets u.2) ∧
  Forall (λ n, x00 ∉ NameSpace n ∧ is_Some (KvRwSet n) ∧ Forall (λ w, is_u64 (len (kvw_Key w))) (ns_writes n)) (NsRwSets u.2).
Record block_ok (j : nat) (b : Block) (us : list (option update)) : Prop := {
  bo_number : ∃ h, b_Header b = Some h ∧ bh_Number h = Z.of_nat j;
  bo_updates : block_updates b = Ok us;
  bo_ok u : Some u ∈ us → update_ok u;
  bo_height : is_u64 (Z.of_nat j) ∧ is_u64 (len us)
}.

(** ** The records of a chain *)

Definition tx_keys (j k : nat) (u : update) : list bytes :=
  NsRwSets u.2 ≫= λ n, (λ w, constructDataKey (NameSpace n) (kvw_Key w) (Z.of_nat j) (Z.of_nat k)) <$> ns_writes n.
Definition block_keys (j : nat) (us : list (option update)) : list bytes :=
  mjoin (imap (λ k u, from_option (tx_keys j k) [] u) us).
Definition is_record (uss : list (list (option update))) (x : bytes) : Prop := ∃ j us, uss !! j = Some us ∧ x ∈ block_keys j us.
Definition record (x : bytes) : bytes * bytes := (x, emptyValue).
Definition savepoint (uss : list (list (option update))) : option Height :=
  (λ us, NewHeight (len uss - 1) (len us)) <$> last uss.

Context `{!GoLevelDBLaws L}.

(** The database holds the history of [uss]. *)
Record history_of (d : historyDB L) (uss : list (list (option update))) : Prop := {
  ho_savepoint : view (contents (hdb_levelDB d)) (hdb_name d) !! history_savePointKey = Height_ToBytes <$> savepoint uss;
  ho_records x v : x ≠ history_savePointKey →
    view (contents (hdb_levelDB d)) (hdb_name d) !! x = Some v ↔ v = emptyValue ∧ is_record uss x
}.

Lemma commit_writes_spec name j k (u : update) : update_ok u → ∀ b puts, holds name b puts →
  ∃ b', commit_writes (Z.of_nat j) (Z.of_nat k) u.2 b = Ok b' ∧ holds name b' (puts ++ (record <$> tx_keys j k u)).
Proof.
  intros [_ Hok]. unfold commit_writes, tx_keys. induction Hok as [|n l (_ & [kv Hkv] & _) _ IH]; intros b puts Hb; cbn [foldM].
  { exists b. by rewrite app_nil_r. }
  rewrite Hkv. cbn [deref]. rewrite bind_Ok_eq. assert (Hw : ns_writes n = Writes kv) by (unfold ns_writes; by rewrite Hkv).
  destruct (holds_foldM name (λ b w, LevelBatch_Put b (constructDataKey (NameSpace n) (kvw_Key w) (Z.of_nat j) (Z.of_nat k)) (Some emptyValue))
    (λ w, record (constructDataKey (NameSpace n) (kvw_Key w) (Z.of_nat j) (Z.of_nat k))) (Writes kv) b puts) as (b1 & -> & Hb1); [done..|].
  rewrite bind_Ok_eq. destruct (IH b1 _ Hb1) as (b' & -> & Hb'). exists b'. split; [done|]. rewrite bind_cons, Hw.
  rewrite fmap_app, app_assoc. by rewrite <-list_fmap_compose.
Qed.

Lemma commit_trans_spec name j f data : ∀ k us b puts, tx_updates f k data = Ok us → (∀ u, Some u ∈ us → update_ok u) → holds name b puts →
  ∃ b', foldM (commit_tran (Z.of_nat j) f) (b, k) data = Ok (b', (k + length us)%nat) ∧
    holds name b' (puts ++ (record <$> mjoin (imap (λ i u, from_option (tx_keys j (k + i)) [] u) us))).
Proof.
  induction data as [|e data IH]; intros k us b puts; cbn [tx_updates foldM].
  { intros [= <-] _ Hb. exists b. by rewrite app_nil_r, Nat.add_0_r. }
  intros (u & Hu & (us' & Hus & [= <-])%bind_Ok)%bind_Ok Hok Hb.
  assert (∃ b1, commit_tran (Z.of_nat j) f (b, k) e = Ok (b1, S k) ∧ holds name b1 (puts ++ (record <$> from_option (tx_keys j k) [] u))) as (b1 & -> & Hb1).
  { unfold tx_update in Hu. unfold commit_tran. apply bind_Ok in Hu as (inv & -> & Hu). run.
    destruct inv; [simplify_eq/=; exists b; split; [done|]; by rewrite app_nil_r|].
    repeat (apply bind_Ok in Hu as (? & -> & Hu); run). case_decide; [|simplify_eq/=; exists b; split; [done|]; by rewrite app_nil_r].
    repeat (apply bind_Ok in Hu as (? & -> & Hu); run). simplify_eq/=.
    destruct (commit_writes_spec name j k _ (Hok _ ltac:(left)) b puts Hb) as (b1 & Hw & Hb1). cbn [snd] in Hw. rewrite Hw. run. by exists b1. }
  run. destruct (IH (S k) us' b1 (puts ++ (record <$> from_option (tx_keys j k) [] u)) Hus) as (b' & -> & Hb'); [|done|].
  { intros u' Hu'. apply Hok. by right. } exists b'. split; [do 2 f_equal; cbn [length]; lia|].
  cbn [imap]. change (mjoin (?x :: ?l)) with (x ++ mjoin l). rewrite fmap_app, app_assoc, Nat.add_0_r.
  assert (imap ((λ i u, from_option (tx_keys j (k + i)) [] u) ∘ S) us' = imap (λ i u, from_option (tx_keys j (S k + i)) [] u) us') as ->; [|done].
  apply imap_ext. intros i ? _. cbn. by rewrite Nat.add_succ_r.
Qed.

Lemma elem_of_block_keys j us x : x ∈ block_keys j us ↔ ∃ k u, us !! k = Some (Some u) ∧ x ∈ tx_keys j k u.
Proof.
  unfold block_keys. rewrite list_elem_of_join. split.
  - intros (l & Hin & Hl). apply elem_of_lookup_imap in Hl as (k & [u|] & -> & Hk); [by exists k, u|by apply not_elem_of_nil in Hin].
  - intros (k & u & Hk & Hin). exists (tx_keys j k u). split; [done|]. apply elem_of_lookup_imap. by exists k, (Some u).
Qed.
Lemma startKey_long namespace key y : history_savePointKey ≠ startKey (constructRangeScan namespace key) ++ y.
Proof.
  rewrite startKey_assoc. intros Heq%(f_equal length). rewrite !length_app in Heq. cbn [length] in Heq. rewrite !length_app in Heq. cbn in Heq. lia.
Qed.
Lemma savePointKey_no_record uss : ¬ is_record uss history_savePointKey.
Proof.
  intros (j & us & _ & Hin). apply elem_of_block_keys in Hin as (k & u & _ & Hin). unfold tx_keys in Hin. apply list_elem_of_bind in Hin as (n & Hw & _).
  apply list_elem_of_fmap in Hw as (w & Heq & _). rewrite constructDataKey_startKey in Heq. by apply startKey_long in Heq.
Qed.

Lemma lookup_insert_records m puts x : (∃ l, puts = record <$> l) → insert_all m puts !! x = if decide (x ∈ puts.*1) then Some emptyValue else m !! x.
Proof.
  intros [l ->]. case_decide as Hx; [|by apply lookup_insert_all_None].
  apply list_elem_of_fmap in Hx as ([x' v] & -> & Hx). apply list_elem_of_fmap in Hx as (y & [= -> ->] & Hy). apply lookup_insert_all.
  - apply list_elem_of_fmap. by exists y.
  - by intros v' (? & [= _ ->] & _)%list_elem_of_fmap.
Qed.

Lemma savepoint_snoc uss us : savepoint (uss ++ [us]) = Some (NewHeight (len uss) (len us)).
Proof. unfold savepoint. rewrite last_snoc, len_app. cbn. do 2 f_equal. unfold len. cbn. lia. Qed.
Lemma is_record_snoc uss us x : is_record (uss ++ [us]) x ↔ is_record uss x ∨ x ∈ block_keys (length uss) us.
Proof.
  unfold is_record. split.
  - intros (j & us' & [Hj|[Hj Hus]]%lookup_app_Some & Hx); [left; by exists j, us'|]. right.
    apply list_lookup_singleton_Some in Hus as [Hl <-]. by replace (length uss) with j by lia.
  - intros [(j & us' & Hj & Hx)|Hx]; [exists j, us'; split; [by apply lookup_app_l_Some|done]|]. exists (length uss), us. split; [|done].
    by apply list_lookup_middle.
Qed.

(** A block is added to the history. *)
Lemma Commit_history d uss b us : history_of d uss → block_ok (length uss) b us →
  ∃ d', history_Commit d b = Ok d' ∧ hdb_name d' = hdb_name d ∧ history_of d' (uss ++ [us]).
Proof.
  intros Hd [(h & Hh & Hn) Hus Hok _]. unfold block_updates in Hus. unfold history_Commit. rewrite Hh. cbn [deref]. rewrite bind_Ok_eq.
  apply bind_Ok in Hus as (data & Hdata & (md & Hmd & (f & Hf & Hus)%bind_Ok)%bind_Ok).
  cbv zeta. rewrite Hdata, bind_Ok_eq, Hmd, bind_Ok_eq, Hf, bind_Ok_eq, Hn.
  destruct (commit_trans_spec (hdb_name d) (length uss) f data 0 us (DBHandle_NewUpdateBatch (hdb_name d)) [] Hus Hok) as (b1 & -> & Hb1); [done|].
  rewrite bind_Ok_eq. cbn beta iota. rewrite app_nil_l in Hb1. cbn [Nat.add] in Hb1 |- *. fold (block_keys (length uss) us) in Hb1.
  change (Z.of_nat (length uss)) with (len uss). change (Z.of_nat (length us)) with (len us).
  destruct (holds_Put _ _ _ history_savePointKey (Height_ToBytes (NewHeight (len uss) (len us))) Hb1) as (b2 & -> & Hops & _). rewrite bind_Ok_eq.
  unfold DBHandle_WriteBatch. rewrite Hops, decide_False by (unfold put_ops; rewrite fmap_app; by destruct (_ <$> _)).
  destruct (write_puts (hdb_name d) (hdb_levelDB d) ((record <$> block_keys (length uss) us) ++ [(history_savePointKey, Height_ToBytes (NewHeight (len uss) (len us)))])) as (db' & -> & Hv).
  rewrite bind_Ok_eq. eexists. split_and!; [done..|]. rewrite insert_all_app in Hv. split; cbn [hdb_levelDB hdb_name]; rewrite Hv.
  - unfold insert_all at 1. cbn. by rewrite lookup_insert_eq, savepoint_snoc.
  - intros x v Hx. unfold insert_all at 1. cbn. rewrite lookup_insert_ne by done. rewrite lookup_insert_records by eauto.
    rewrite <-list_fmap_compose. rewrite list_fmap_id. rewrite is_record_snoc. case_decide; [naive_solver|].
    rewrite (ho_records _ _ Hd) by done. naive_solver.
Qed.
Lemma history_new d : view (contents (hdb_levelDB d)) (hdb_name d) = ∅ → history_of d [].
Proof. intros He. split; rewrite He; [apply lookup_empty|]. intros x v _. rewrite lookup_empty. split; [done|]. intros (_ & j & us & Hj & _). by rewrite lookup_nil in Hj. Qed.

(** The blocks [c] and their updates. *)
Definition chain_ok (first : nat) (c : list Block) (uss : list (list (option update))) : Prop :=
  length c = length uss ∧ ∀ j b us, c !! j = Some b → uss !! j = Some us → block_ok (first + j) b us.
Lemma Commits_history c : ∀ d uss uss', history_of d uss → chain_ok (length uss) c uss' →
  ∃ d', foldM history_Commit d c = Ok d' ∧ hdb_name d' = hdb_name d ∧ history_of d' (uss ++ uss').
Proof.
  induction c as [|b c IH]; intros d uss uss' Hd [Hl Hc].
  { destruct uss'; [|done]. exists d. by rewrite app_nil_r. }
  destruct uss' as [|us uss']; [done|]. cbn [foldM].
  destruct (Commit_history d uss b us Hd) as (d1 & -> & Hn1 & Hd1); [rewrite <-(Nat.add_0_r (length uss)); by apply Hc|]. rewrite bind_Ok_eq.
  destruct (IH d1 (uss ++ [us]) uss' Hd1) as (d' & -> & Hn' & Hd').
  - split; [by injection Hl|]. intros j b' us' Hb Hus. rewrite length_app. cbn [length].
    replace (length uss + 1 + j)%nat with (length uss + S j)%nat by lia. by apply Hc.
  - exists d'. split_and!; [done|congruence|]. by rewrite <-app_assoc in Hd'.
Qed.

Lemma GetLastSavepoint_history d uss : history_of d uss → (∀ h, savepoint uss = Some h → Height_wf h) → history_GetLastSavepoint d = Ok (savepoint uss).
Proof.
  intros Hd Hwf. unfold history_GetLastSavepoint, DBHandle_Get. rewrite ldb_Get_law, <-lookup_view, (ho_savepoint _ _ Hd). run.
  destruct (savepoint uss) as [h|]; [|done]. cbn. rewrite <-(app_nil_r (Height_ToBytes h)), NewHeightFromBytes_ToBytes by auto. done.
Qed.

(** ** The records of a key *)

Definition placed (uss : list (list (option update))) : list (nat * nat * option update) :=
  mjoin (imap (λ j us, imap (λ k u, (j, k, u)) us) uss).
Definition hits (namespace key : bytes) (uss : list (list (option update))) : list (nat * nat * KeyModification) :=
  omap (λ p, pair p.1 <$> modification namespace key p.2) (placed uss).

Lemma elem_of_placed uss j k u : (j, k, u) ∈ placed uss ↔ ∃ us, uss !! j = Some us ∧ us !! k = Some u.
Proof.
  unfold placed. rewrite list_elem_of_join. split.
  - intros (l & Hin & Hl). apply elem_of_lookup_imap in Hl as (j' & us & -> & Hj). apply elem_of_lookup_imap in Hin as (k' & u' & [= -> -> ->] & Hk). by exists us.
  - intros (us & Hj & Hk). exists (imap (λ k u, (j, k, u)) us). rewrite !elem_of_lookup_imap. split; [by exists k, u|by exists j, us].
Qed.
Lemma placed_snoc uss us : placed (uss ++ [us]) = placed uss ++ imap (λ k u, (length uss, k, u)) us.
Proof. unfold placed. rewrite imap_app, join_app. cbn. by rewrite app_nil_r, Nat.add_0_r. Qed.
Lemma placed_concat uss : (placed uss).*2 = concat uss.
Proof.
  induction uss as [|us uss IH] using rev_ind; [done|]. rewrite placed_snoc, fmap_app, IH, concat_app. f_equal. cbn. rewrite app_nil_r.
  rewrite fmap_imap. etrans; [apply (imap_ext _ (const id)); done|]. by rewrite imap_const, list_fmap_id.
Qed.
Lemma hits_modifications namespace key uss : (hits namespace key uss).*2 = modifications namespace key uss.
Proof.
  unfold hits, modifications. rewrite <-placed_concat. induction (placed uss) as [|p l IH]; [done|]. rewrite fmap_cons. cbn.
  destruct (modification namespace key p.2) as [m|]; cbn; [f_equal|]; exact IH.
Qed.
Definition earlier {A} (p q : nat * nat * A) : Prop := (p.1.1 < q.1.1 ∨ p.1.1 = q.1.1 ∧ p.1.2 < q.1.2)%nat.

Lemma placed_sorted uss : StronglySorted earlier (placed uss).
Proof.
  induction uss as [|us uss IH] using rev_ind; [constructor|]. rewrite placed_snoc. apply StronglySorted_app_2; [|done|].
  - intros [[j k] u] q (us' & Hj & _)%elem_of_placed Hq. apply elem_of_lookup_imap in Hq as (k' & u' & -> & _). left. cbn. by eapply lookup_lt_Some.
  - clear. induction us as [|u us IH] using rev_ind; [constructor|]. rewrite imap_app. apply StronglySorted_app_2; [|done|repeat constructor].
    intros p q (k & u' & -> & Hk)%elem_of_lookup_imap ->%list_elem_of_singleton. right. cbn. split; [done|]. rewrite Nat.add_0_r. by eapply lookup_lt_Some.
Qed.
Lemma hits_sorted namespace key uss : StronglySorted earlier (hits namespace key uss).
Proof.
  unfold hits. pose proof (placed_sorted uss) as Hs. induction Hs as [|p l Hs IH Hall]; [constructor|]. cbn.
  destruct (modification namespace key p.2) as [m|]; cbn; [|done]. constructor; [done|]. apply Forall_forall.
  intros q (p' & Hp' & (m' & _ & ->)%fmap_Some)%list_elem_of_omap. by apply (proj1 (Forall_forall _ _) Hall p').
Qed.
Lemma elem_of_hits namespace key uss j k m : (j, k, m) ∈ hits namespace key uss ↔
  ∃ us u, uss !! j = Some us ∧ us !! k = Some (Some u) ∧ modification namespace key (Some u) = Some m.
Proof.
  unfold hits. rewrite list_elem_of_omap. split.
  - intros ([[j' k'] u] & Hin & (m' & Hm & [= -> -> ->])%fmap_Some). apply elem_of_placed in Hin as (us & Hj & Hk). cbn in Hm.
    destruct u as [u|]; [by exists us, u|done].
  - intros (us & u & Hj & Hk & Hm). exists (j, k, Some u). rewrite elem_of_placed. split; [by exists us|]. cbn. cbn in Hm. by rewrite Hm.
Qed.

Lemma find_ns_elem n l : NoDup (NameSpace <$> l) → n ∈ l → find_ns (NameSpace n) l = Some n.
Proof.
  induction l as [|n' l IH]; [by intros _ ?%not_elem_of_nil|]. cbn. intros [Hn Hnd]%NoDup_cons Hin. case_decide as E.
  - apply elem_of_cons in Hin as [->|Hin]; [done|]. destruct Hn. rewrite E. by apply list_elem_of_fmap_2.
  - apply elem_of_cons in Hin as [->|Hin]; [done|]. by apply IH.
Qed.
Lemma find_ns_Some namespace l n : find_ns namespace l = Some n → n ∈ l ∧ NameSpace n = namespace.
Proof. induction l as [|n' l IH]; [done|]. cbn. case_decide; [intros [= <-]; split; [left|done]|]. intros [? ?]%IH. split; [by right|done]. Qed.
Lemma find_write_elem w l : w ∈ l → is_Some (find_write (kvw_Key w) l).
Proof.
  induction l as [|w' l IH]; [by intros ?%not_elem_of_nil|]. cbn. case_decide as E; [by eexists|].
  intros [->|Hin]%elem_of_cons; [done|]. by apply IH.
Qed.
Lemma find_write_Some key l w : find_write key l = Some w → w ∈ l ∧ kvw_Key w = key.
Proof. induction l as [|w' l IH]; [done|]. cbn. case_decide; [intros [= <-]; split; [left|done]|]. intros [? ?]%IH. split; [by right|done]. Qed.

(** A transaction has a record of a key exactly if it has a modification of it. *)
Lemma modification_key namespace key j k u : update_ok u → x00 ∉ namespace → is_u64 (len key) →
  ∀ x, x ∈ tx_keys j k u ∧ in_range_o (startKey (constructRangeScan namespace key)) (Some (endKey (constructRangeScan namespace key))) x ↔
    x = constructDataKey namespace key (Z.of_nat j) (Z.of_nat k) ∧ is_Some (modification namespace key (Some u)).
Proof.
  intros [Hnd Hok] Hns Hkey x. rewrite Forall_forall in Hok. unfold tx_keys. rewrite list_elem_of_bind. split.
  - intros [(n & Hw & Hn) Hr]. apply list_elem_of_fmap in Hw as (w & -> & Hw). destruct (Hok n Hn) as (Hz & [kv Hkv] & Hlen).
    rewrite Forall_forall in Hlen. apply (history_scan_exact namespace key) in Hr as [<- <-]; [|done..|by apply Hlen]. split; [done|].
    destruct u as [chdr rw]. cbn. rewrite (find_ns_elem n) by done. cbn. destruct (find_write_elem w _ Hw) as [w' ->]. by eexists.
  - intros [-> [m Hm]]. destruct u as [chdr rw]. cbn in Hm. apply bind_Some in Hm as (n & [Hn <-]%find_ns_Some & (w & [Hw <-]%find_write_Some & _)%fmap_Some). split.
    + exists n. split; [|done]. apply list_elem_of_fmap. by exists w.
    + by apply (history_scan_exact (NameSpace n) (kvw_Key w)).
Qed.

Section query.
Context (uss : list (list (option update))).
Context (Hok : ∀ j us, uss !! j = Some us → is_u64 (Z.of_nat j) ∧ is_u64 (len us) ∧ ∀ u, Some u ∈ us → update_ok u).

Lemma placed_height j us k (u : option update) : uss !! j = Some us → us !! k = Some u → Height_wf (NewHeight (Z.of_nat j) (Z.of_nat k)).
Proof.
  intros Hj Hk. destruct (Hok j us Hj) as (? & Hl & _). apply lookup_lt_Some in Hk. unfold len, is_u64 in *. split; cbn; [done|]. unfold is_u64. lia.
Qed.
Lemma placed_ok j us k u : uss !! j = Some us → us !! k = Some (Some u) → update_ok u.
Proof. intros Hj Hk. destruct (Hok j us Hj) as (_ & _ & Hu). apply Hu. by eapply list_elem_of_lookup_2. Qed.
Lemma hit_height namespace key j k m : (j, k, m) ∈ hits namespace key uss → Height_wf (NewHeight (Z.of_nat j) (Z.of_nat k)).
Proof. intros (us & u & Hj & Hk & _)%elem_of_hits. by eapply placed_height. Qed.

Definition hit_key (namespace key : bytes) (p : nat * nat * KeyModification) : bytes := constructDataKey namespace key (Z.of_nat p.1.1) (Z.of_nat p.1.2).

(** The range of a key holds its records, the oldest first. *)
Lemma history_range d namespace key : history_of d uss → x00 ∉ namespace → is_u64 (len key) →
  range_o (view (contents (hdb_levelDB d)) (hdb_name d)) (startKey (constructRangeScan namespace key)) (Some (endKey (constructRangeScan namespace key))) =
  (λ p, record (hit_key namespace key p)) <$> hits namespace key uss.
Proof.
  intros Hd Hns Hkey. apply ssorted_unique; [apply ssorted_filter, sorted_kvs_sorted| |].
  - assert (Hh : ∀ p, p ∈ hits namespace key uss → Height_wf (NewHeight (Z.of_nat p.1.1) (Z.of_nat p.1.2))) by (intros [[j k] m]; apply hit_height).
    revert Hh. induction (hits_sorted namespace key uss) as [|p l Hs IH Hall]; intros Hh; [constructor|]. cbn. constructor; [apply IH; set_solver|].
    apply Forall_fmap, Forall_forall. intros q Hq. apply (proj1 (Forall_forall _ _) Hall) in Hq as Hlt. unfold key_lt, bytes_lt, hit_key. cbn.
    rewrite (proj2 (history_key_roundtrip_order namespace key _ _ _ _ (Hh p ltac:(left)) (Hh q ltac:(by right)))). unfold height_compare. cbn.
    destruct Hlt as [Hlt|[-> Hlt]]; [by rewrite (proj2 (Z.compare_lt_iff _ _)) by lia|]. rewrite Z.compare_refl. apply Z.compare_lt_iff. lia.
  - intros [x v]. unfold range_o. rewrite list_elem_of_filter, elem_of_sorted_kvs, list_elem_of_fmap. cbn [fst]. split.
    + intros [Hr Hv]. assert (Hx : x ≠ history_savePointKey).
      { intros ->. apply (prefix_range_iff (startKey (constructRangeScan namespace key)) [xff]) in Hr as (y & Heq & _). by apply startKey_long in Heq. }
      apply (ho_records _ _ Hd) in Hv as [-> (j & us & Hj & Hin)]; [|done]. apply elem_of_block_keys in Hin as (k & u & Hk & Hin).
      destruct (proj1 (modification_key namespace key j k u (placed_ok j us k u Hj Hk) Hns Hkey x) (conj Hin Hr)) as [-> [m Hm]].
      exists (j, k, m). split; [done|]. apply elem_of_hits. by exists us, u.
    + intros ([[j k] m] & [= -> ->] & (us & u & Hj & Hk & Hm)%elem_of_hits). unfold hit_key. cbn [fst snd].
      destruct (proj2 (modification_key namespace key j k u (placed_ok j us k u Hj Hk) Hns Hkey _) (conj eq_refl (mk_is_Some _ _ Hm))) as [Hin Hr].
      assert (Hrec : is_record uss (constructDataKey namespace key (Z.of_nat j) (Z.of_nat k))).
      { exists j, us. split; [done|]. apply elem_of_block_keys. by exists k, u. }
      split; [done|]. apply (ho_records _ _ Hd); [|done]. intros Heq. apply (savePointKey_no_record uss). by rewrite <-Heq.
Qed.
End query.

(** ** Queries *)

(** What the scanner returns until it is exhausted. *)
Inductive scanner_drains (retrieve : Z → Z → res Envelope) : historyScanner → list KeyModification → Prop :=
| scanner_done sc sc' : historyScanner_Next retrieve sc = Ok (None, sc') → scanner_drains retrieve sc []
| scanner_more sc sc' m l : historyScanner_Next retrieve sc = Ok (Some m, sc') → scanner_drains retrieve sc' l → scanner_drains retrieve sc (m :: l).

(** The block store returns the transactions of the blocks. *)
Definition reads_blocks (retrieve : Z → Z → res Envelope) (c : list Block) : Prop :=
  ∀ j k b data tx, c !! j = Some b → b_Data b = Some data → data !! k = Some tx → retrieve (Z.of_nat j) (Z.of_nat k) = GetEnvelopeFromBlock tx.

Lemma tx_updates_lookup f data : ∀ k us i u, tx_updates f k data = Ok us → us !! i = Some u → ∃ tx, data !! i = Some tx ∧ tx_update f (k + i) tx = Ok u.
Proof.
  induction data as [|e data IH]; intros k us i u; cbn [tx_updates]; [by intros [= <-]|].
  intros (u' & Hu & (us' & Hus & [= <-])%bind_Ok)%bind_Ok Hi. destruct i as [|i].
  - exists e. split; [done|]. rewrite Nat.add_0_r. cbn in Hi. by simplify_eq.
  - destruct (IH (S k) us' i u Hus Hi) as (tx & ? & ?). exists tx. split; [done|]. by rewrite Nat.add_succ_r.
Qed.
Lemma tx_update_modification f k tx u namespace key : tx_update f k tx = Ok (Some u) → update_ok u →
  ∃ env, GetEnvelopeFromBlock tx = Ok env ∧ getKeyModificationFromTran env namespace key = Ok (modification namespace key (Some u)).
Proof.
  intros Hu [_ Hok]. unfold tx_update in Hu. apply bind_Ok in Hu as ([|] & _ & Hu); [done|].
  apply bind_Ok in Hu as (env & Henv & (pl & Hpl & (hdr & Hhdr & (chdr & Hchdr & Hu)%bind_Ok)%bind_Ok)%bind_Ok).
  exists env. split; [done|]. case_decide; [|done]. apply bind_Ok in Hu as (act & Ha & (rw & Hrw & [= <-])%bind_Ok).
  unfold GetActionFromEnvelope in Ha. rewrite Henv, bind_Ok_eq in Ha. unfold GetActionFromEnvelopeMsg in Ha. rewrite Hpl, bind_Ok_eq in Ha.
  apply bind_Ok in Ha as (tx' & Htx & Ha). destruct (txn_Actions tx') as [|action actions] eqn:Eact; [done|].
  apply bind_Ok in Ha as ([cap ca] & Hgp & [= <-]). unfold getKeyModificationFromTran. rewrite Hpl, bind_Ok_eq, Htx, bind_Ok_eq, Eact, index_0, bind_Ok_eq, Hgp.
  rewrite bind_Ok_eq, Hhdr, bind_Ok_eq, Hchdr, bind_Ok_eq, Hrw, bind_Ok_eq. unfold modification. cbn [mbind option_bind].
  destruct (find_ns namespace (NsRwSets rw)) as [n|] eqn:En; [|done]. apply find_ns_Some in En as [Hn _].
  destruct (proj1 (Forall_forall _ _) Hok n Hn) as (_ & [kv Hkv] & _). unfold ns_writes. cbn. rewrite Hkv. cbn. by rewrite ?Hkv.
Qed.

Section scan.
Context (d : historyDB L) (c : list Block) (uss : list (list (option update))) (retrieve : Z → Z → res Envelope) (namespace key : bytes).
Context (Hname : x00 ∉ hdb_name d) (Hd : history_of d uss) (Hc : chain_ok 0 c uss) (Hread : reads_blocks retrieve c).
Context (Hns : x00 ∉ namespace) (Hkey : is_u64 (len key)).

Lemma chain_updates j us : uss !! j = Some us → is_u64 (Z.of_nat j) ∧ is_u64 (len us) ∧ ∀ u, Some u ∈ us → update_ok u.
Proof using Hc.
  intros Hj. destruct Hc as [Hl Hb]. destruct (lookup_lt_is_Some_2 c j) as [b Hcj]; [rewrite Hl; by eapply lookup_lt_Some|].
  destruct (Hb j b us Hcj Hj) as [_ _ Hu [? ?]]. by split_and!.
Qed.
Lemma savepoint_wf h : savepoint uss = Some h → Height_wf h.
Proof using Hc.
  unfold savepoint. rewrite last_lookup. intros (us & Hus & ->)%fmap_Some. destruct (chain_updates _ _ Hus) as (Hj & Hl & _).
  apply lookup_lt_Some in Hus. clear - Hj Hl Hus. unfold Height_wf, is_u64, len in *. cbn in *. lia.
Qed.
Definition scanner_at (i : nat) : historyScanner :=
  {| hs_rangeScan := constructRangeScan namespace key; hs_namespace := namespace; hs_key := key;
     hs_dbItr := {| cur_items := (λ p, (constructLevelKey (hdb_name d) (hit_key namespace key p), emptyValue)) <$> hits namespace key uss; cur_pos := i |} |}.

Lemma scanner_step i j k m : hits namespace key uss !! i = Some (j, k, m) → historyScanner_Next retrieve (scanner_at (S (S i))) = Ok (Some m, scanner_at (S i)).
Proof.
  intros Hi. apply list_elem_of_lookup_2 in Hi as Hin. pose proof (hit_height uss chain_updates _ _ _ _ _ Hin) as Hh.
  apply elem_of_hits in Hin as (us & u & Hj & Hk & Hm). destruct Hc as [Hl Hb].
  destruct (lookup_lt_is_Some_2 c j) as [b Hcj]; [rewrite Hl; by eapply lookup_lt_Some|]. destruct (Hb j b us Hcj Hj) as [_ Hus Hu _].
  unfold block_updates in Hus. apply bind_Ok in Hus as (data & Hdata%deref_Ok & (md & _ & (f & _ & Hus)%bind_Ok)%bind_Ok).
  destruct (tx_updates_lookup f data 0 us k _ Hus Hk) as (tx & Htx & Hupd).
  destruct (tx_update_modification f k tx u namespace key Hupd) as (env & Henv & Hmod); [apply Hu; by eapply list_elem_of_lookup_2|].
  unfold historyScanner_Next, scanner_at, cursor_Prev. cbn [hs_dbItr cur_pos Nat.pred cursor_at cur_items hs_rangeScan hs_namespace hs_key].
  rewrite bool_decide_eq_false_2 by done. cbn [negb]. unfold cursor_Key, index. unfold cursor_at; cbn [cur_items cur_pos Nat.pred]. rewrite list_lookup_fmap, Hi. cbn [fmap option_fmap option_map].
  rewrite bind_Ok_eq, retrieveAppKey_construct, bind_Ok_eq by done. unfold hit_key. cbn [fst snd].
  rewrite (proj1 (history_key_roundtrip_order namespace key _ _ _ _ Hh Hh)), bind_Ok_eq, (Hread j k b data tx) by done.
  by rewrite Henv, bind_Ok_eq, Hmod, bind_Ok_eq, Hm.
Qed.
Lemma scanner_all i : (i ≤ length (hits namespace key uss))%nat → scanner_drains retrieve (scanner_at (S i)) (reverse (take i (hits namespace key uss).*2)).
Proof.
  induction i as [|i IH]; intros Hi; [rewrite take_0; by eapply scanner_done|].
  destruct (lookup_lt_is_Some_2 (hits namespace key uss) i) as [[[j k] m] Hlk]; [lia|].
  rewrite (take_S_r _ _ m) by (by rewrite list_lookup_fmap, Hlk). rewrite reverse_snoc. eapply scanner_more; [by eapply scanner_step|]. apply IH. lia.
Qed.
Lemma query_history : ∃ sc, GetHistoryForKey d namespace key = Ok sc ∧ scanner_drains retrieve sc (reverse (modifications namespace key uss)).
Proof.
  unfold GetHistoryForKey. cbv zeta. destruct (GetIterator_spec (hdb_name d) (hdb_levelDB d) (Some (startKey (constructRangeScan namespace key)))
    (Some (endKey (constructRangeScan namespace key))) Hname) as (itr & -> & Hrest & _). rewrite bind_Ok_eq.
  change (default [] (Some (startKey (constructRangeScan namespace key)))) with (startKey (constructRangeScan namespace key)) in Hrest.
  rewrite (history_range uss chain_updates) in Hrest by done. rewrite <-list_fmap_compose in Hrest. cbn in Hrest.
  eexists. split; [done|]. rewrite <-hits_modifications. unfold cursor_Last. cbn [cur_items cursor_at cur_pos].
  destruct (hits namespace key uss) as [|p l] eqn:Ehits.
  - rewrite Hrest. rewrite bool_decide_eq_true_2 by done. cbn. by eapply scanner_done.
  - rewrite bool_decide_eq_false_2 by (rewrite Hrest; done). cbn [negb]. unfold cursor_Next. cbn [cur_items cursor_at cur_pos snd].
    rewrite Nat.min_id. rewrite Hrest, length_fmap. rewrite <-Ehits. rewrite <-(firstn_all (hits namespace key uss).*2), length_fmap.
    exact (scanner_all (length (hits namespace key uss)) (le_n _)).
Qed.
End scan.

(** C19: the history of a key is complete and exact. The blocks of a chain, each of
    which holds transactions that can be decoded, are added to an empty history
    database one after the other. No step fails, the savepoint is the last
    block, and a query for any key of any namespace returns, from the newest to
    the oldest, one modification for every valid endorser transaction of the chain
    that writes the key, with its transaction ID, time, value and delete flag, and
    nothing else; then it ends. *)
Theorem history_complete (d : historyDB L) (c : list Block) (uss : list (list (option update))) (retrieve : Z → Z → res Envelope) (namespace key : bytes)
    (Hname : x00 ∉ hdb_name d) (Hempty : view (contents (hdb_levelDB d)) (hdb_name d) = ∅)
    (Hc : chain_ok 0 c uss) (Hread : reads_blocks retrieve c) (Hns : x00 ∉ namespace) (Hkey : is_u64 (len key)) :
  ∃ d', foldM history_Commit d c = Ok d' ∧ history_GetLastSavepoint d' = Ok (savepoint uss) ∧
    ∃ sc, GetHistoryForKey d' namespace key = Ok sc ∧ scanner_drains retrieve sc (reverse (modifications namespace key uss)).
Proof.
  destruct (Commits_history c d [] uss (history_new d Hempty) Hc) as (d' & -> & Hn & Hd). exists d'. split; [done|]. split.
  - apply GetLastSavepoint_history; [done|]. by eapply savepoint_wf.
  - apply (query_history d' c); [by rewrite Hn|done..].
Qed.
End history.

(** The block store of BlockServe provides the transactions. *)
Lemma serves_reads_blocks {L} `{!GoLevelDB L} `{!Sha256} `{!ProtoMessage TxIDIndexValue} `{!ProtoMessage Envelope, !ProtoMessage Payload}
    `{!ProtoMessage ChannelHeader, !ProtoMessage SignatureHeader} items dbName mgr (disk : disk L) (c : list Block) :
  serves items dbName mgr disk c → IndexableAttrBlockNumTranNum ∈ items → (∀ b, b ∈ c → is_ok (mapM txid_or_empty (block_data b)) = true) →
  reads_blocks (retrieveTransactionByBlockNumTranNum items dbName mgr disk) c.
Proof.
  intros Hs Hi Hids j k b data tx Hj Hdata Hk. specialize (Hids b ltac:(by eapply list_elem_of_lookup_2)).
  destruct (mapM txid_or_empty (block_data b)) as [ids| |] eqn:Eids; [|done..].
  destruct (lookup_lt_is_Some_2 ids k) as [txid Htxid].
  { apply mapM_Ok, Forall2_length in Eids. rewrite <-Eids. unfold block_data. rewrite Hdata. cbn. by eapply lookup_lt_Some. }
  apply (sv_tx _ _ _ _ _ Hs j k b tx txid Hi). split_and!; [done| |].
  - unfold block_data. by rewrite Hdata.
  - unfold block_txids. by rewrite Eids.
Qed.

(** ** A sample chain: every transaction writes its own bytes to one key *)

Module sample.
#[local] Instance env_codec : ProtoMessage Envelope :=
  {| Marshal _ := Err "no codec"; Unmarshal b := Ok {| env_Payload := b; env_Signature := []; env_Type := 0; env_LeanEnv := None |} |}.
#[local] Instance payload_codec : ProtoMessage Payload :=
  {| Marshal _ := Err "no codec"; Unmarshal b := Ok {| pl_Header := Some {| hdr_ChannelHeader := b; hdr_SignatureHeader := [] |}; pl_Data := b |} |}.
#[local] Instance chdr_codec : ProtoMessage ChannelHeader :=
  {| Marshal _ := Err "no codec"; Unmarshal b := Ok {| chdr_Type := HeaderType_ENDORSER_TRANSACTION; chdr_ChannelId := B "ch"; chdr_TxId := b;
       chdr_Timestamp := Some (7, 0); chdr_TlsCertHash := []; chdr_ShardId := 0; chdr_OrgsInvolved := [] |} |}.
#[local] Instance tx_codec : ProtoMessage Transaction :=
  {| Marshal _ := Err "no codec"; Unmarshal b := Ok {| txn_Actions := [{| ta_Header := []; ta_Payload := b |}] |} |}.
#[local] Instance cap_codec : ProtoMessage ChaincodeActionPayload :=
  {| Marshal _ := Err "no codec"; Unmarshal b := Ok {| cap_ChaincodeProposalPayload := [];
       cap_Action := Some {| cea_ProposalResponsePayload := Some b; cea_Endorsements := [] |} |} |}.
#[local] Instance prp_codec : ProtoMessage ProposalResponsePayload :=
  {| Marshal _ := Err "no codec"; Unmarshal b := Ok {| prp_ProposalHash := []; prp_Extension := Some b |} |}.
#[local] Instance ca_codec : ProtoMessage ChaincodeAction :=
  {| Marshal _ := Err "no codec"; Unmarshal b := Ok {| ca_Results := b; ca_Events := []; ca_ChaincodeId := None |} |}.
#[local] Instance rw_codec : ProtoMessage TxReadWriteSet :=
  {| Marshal _ := Err "no codec"; Unmarshal b := Ok {| txp_DataModel := KV; txp_NsRwset := [{| nsp_Namespace := B "cc"; nsp_Rwset := b; nsp_CollectionHashedRwset := [] |}] |} |}.
#[local] Instance kv_codec : ProtoMessage KVRWSet :=
  {| Marshal _ := Err "no codec"; Unmarshal b := Ok {| Reads := []; RangeQueriesInfo := [];
       Writes := [{| kvw_Key := B "k"; kvw_IsDelete := false; kvw_Value := Some b |}]; MetadataWrites := [] |} |}.
#[local] Instance hashed_codec : ProtoMessage HashedRWSet := {| Marshal _ := Err "no codec"; Unmarshal _ := Err "no codec" |}.

Definition sample_block (n : Z) (flags : bytes) (txs : list bytes) : Block :=
  {| b_Header := Some {| bh_Number := n; bh_PreviousHash := []; bh_DataHash := [] |}; b_Data := Some txs; b_Metadata := Some [[]; []; flags]; b_BlockType := 0 |}.
(** The second transaction of the first block is invalid. *)
Definition blocks : list Block := [sample_block 0 [x00; x01; x00] [B "t1"; B "t2"; B "t3"]; sample_block 1 [x00] [B "t4"]].
Definition updates : list (list (option update)) := result (mapM block_updates blocks) [].
Definition retrieve (j k : Z) : res Envelope :=
  match blocks !! Z.to_nat j with
  | Some b => match default [] (b_Data b) !! Z.to_nat k with Some tx => GetEnvelopeFromBlock tx | None => Err "no such transaction" end
  | None => Err "no such block"
  end.
Definition db : historyDB (gmap bytes bytes) := {| hdb_levelDB := ∅; hdb_name := B "ch" |}.
Definition written (tx : bytes) : KeyModification := {| km_TxId := tx; km_Value := Some tx; km_Timestamp := Some (7, 0); km_IsDelete := false |}.

Lemma update_fine chdr tx : update_ok (chdr, {| NsRwSets := [{| NameSpace := [x63; x63]; KvRwSet := Some {| Reads := []; RangeQueriesInfo := [];
  Writes := [{| kvw_Key := [x6b]; kvw_IsDelete := false; kvw_Value := Some tx |}]; MetadataWrites := [] |}; CollHashedRwSets := [] |}] |}).
Proof.
  split; cbn; [apply NoDup_singleton|]. constructor; [|constructor]. cbn. split_and!; [by apply (bool_decide_unpack _)|by eexists|].
  constructor; [|constructor]. by split.
Qed.
Lemma blocks_ok : chain_ok 0 blocks updates.
Proof.
  split; [by vm_compute|]. intros j b us Hb Hus. destruct j as [|[|j]]; [| |done]; injection Hb as <-; vm_compute in Hus; injection Hus as <-;
    (split; [by eexists|by vm_compute| |by vm_compute]); intros u Hin; rewrite !elem_of_cons, elem_of_nil in Hin;
    destruct_or? Hin; try done; injection Hin as ->; apply update_fine.
Qed.
Lemma blocks_read : reads_blocks retrieve blocks.
Proof. intros j k b data tx Hj Hdata Hk. unfold retrieve. rewrite !Nat2Z.id, Hj, Hdata. cbn. by rewrite Hk. Qed.
Lemma history_complete_witness : ∃ d' sc, foldM history_Commit db blocks = Ok d' ∧ history_GetLastSavepoint d' = Ok (Some (NewHeight 1 1)) ∧
  GetHistoryForKey d' (B "cc") (B "k") = Ok sc ∧ scanner_drains retrieve sc [written (B "t4"); written (B "t3"); written (B "t1")].
Proof.
  destruct (history_complete db blocks updates retrieve (B "cc") (B "k")) as (d' & Hc & Hs & sc & Hq & Hr).
  - by apply (bool_decide_unpack _).
  - apply map_empty. intros k. rewrite lookup_view. exact (lookup_empty (M := gmap bytes) _).
  - apply blocks_ok.
  - apply blocks_read.
  - by apply (bool_decide_unpack _).
  - by split.
  - exists d', sc. split_and!; [exact Hc|exact Hs|exact Hq|exact Hr].
Defined.
End sample.
