(* ===== verification/Recommit.v ===== *)
(** * Committing a block again

  When a peer dies between the block store and the state database, the block is
  read back and committed again without checking the versions of its reads
  (LockBasedTxMgr.CommitLostBlock in txmgr/lockbased_txmgr.go calls
  ValidateAndPrepare with [doMVCCValidation] false). The flags that the first
  validation wrote into the block stand for its verdicts; here the second run is
  shown to prepare the same batch as the first. *)

From S2P Require Import Prelude SortedMap Version StateDB Proto Rwset RwsetBuilder Merkle LevelDB StateLevelDB PrivState CombinedIterator RangeQuery TxOps SparseTypes Validator LiteRwset LiteValidator Block LeanEnvelope BatchPreparer.
From stdpp Require Import options.
Local Open Scope nat_scope.
Set Default Proof Using "Type*".

(** The block with the flags that the validation wrote into it. *)
Definition with_flags (blk : Block) (flags : bytes) : Block :=
  {| b_Header := b_Header blk; b_Data := b_Data blk;
     b_Metadata := <[BlockMetadataIndex_TRANSACTIONS_FILTER := flags]> <$> b_Metadata blk; b_BlockType := b_BlockType blk |}.

Lemma with_flags_metadata blk flags md : b_Metadata blk = Some md →
  b_Metadata (with_flags blk flags) = Some (<[BlockMetadataIndex_TRANSACTIONS_FILTER := flags]> md).
Proof. intros Hmd. unfold with_flags. cbn [b_Metadata]. by rewrite Hmd. Qed.

(** ** Flags *)

Definition code_ok (code : Z) : Prop := (0 ≤ code < 256)%Z.
Definition flag_of (flags : bytes) (i : nat) (code : Z) : Prop := ∃ b, flags !! i = Some b ∧ byteZ b = code.
Lemma flag_of_Zbyte flags i code : code_ok code → flags !! i = Some (Zbyte code) → flag_of flags i code.
Proof. intros Hc Hi. exists (Zbyte code). split; [done|]. rewrite byteZ_Zbyte. by apply Z.mod_small. Qed.
Lemma Flag_of flags i code : ValidationFlags_Flag flags i = Ok code ↔ flag_of flags i code.
Proof.
  unfold ValidationFlags_Flag, index, flag_of. destruct (flags !! i) as [b|]; cbn; [|naive_solver]. split; [|naive_solver]. intros [= <-]. by exists b.
Qed.
Lemma SetFlag_Ok flags i code flags' : ValidationFlags_SetFlag flags i code = Ok flags' ↔ i < length flags ∧ flags' = <[i := Zbyte code]> flags.
Proof. unfold ValidationFlags_SetFlag. case_decide; naive_solver. Qed.
Lemma SetFlag_same flags i code : flag_of flags i code → ValidationFlags_SetFlag flags i code = Ok flags.
Proof.
  intros (b & Hi & <-). apply SetFlag_Ok. split; [by eapply lookup_lt_Some|]. rewrite Zbyte_byteZ. symmetry. by apply list_insert_id.
Qed.
Lemma SetFlag_same_Zbyte flags i code : flags !! i = Some (Zbyte code) → ValidationFlags_SetFlag flags i code = Ok flags.
Proof. intros Hi. apply SetFlag_Ok. split; [by eapply lookup_lt_Some|]. symmetry. by apply list_insert_id. Qed.

(** Writing flags at distinct places. *)
Section set_flags.
Context {A : Type} (idx : A → nat) (code : A → Z).
Lemma set_flags_spec l : ∀ flags flags', NoDup (idx <$> l) → (∀ x, x ∈ l → code_ok (code x)) →
  foldM (λ f x, ValidationFlags_SetFlag f (idx x) (code x)) flags l = Ok flags' →
  length flags' = length flags ∧ (∀ i, i ∉ idx <$> l → flags' !! i = flags !! i) ∧ (∀ x, x ∈ l → flag_of flags' (idx x) (code x)).
Proof.
  induction l as [|x l IH]; intros flags flags'; cbn [foldM].
  { intros _ _ [= <-]. split_and!; [done..|]. by intros x ?%not_elem_of_nil. }
  rewrite fmap_cons. intros [Hx Hnd]%NoDup_cons Hc (f & [Hlt ->]%SetFlag_Ok & Hf)%bind_Ok.
  destruct (IH _ _ Hnd ltac:(set_solver) Hf) as (Hl & Ho & Hin). rewrite length_insert in Hl. split_and!; [done| |].
  - intros i [Hi Hni]%not_elem_of_cons. rewrite Ho by done. by rewrite list_lookup_insert_ne.
  - intros y [->|Hy]%elem_of_cons; [|by apply Hin]. apply flag_of_Zbyte; [apply Hc; by left|]. rewrite Ho by done. by apply list_lookup_insert_eq.
Qed.
Lemma set_flags_same l flags : (∀ x, x ∈ l → flag_of flags (idx x) (code x)) → foldM (λ f x, ValidationFlags_SetFlag f (idx x) (code x)) flags l = Ok flags.
Proof.
  induction l as [|x l IH]; intros Hl; [done|]. cbn [foldM]. rewrite SetFlag_same, bind_Ok_eq by (apply Hl; by left). apply IH. set_solver.
Qed.
End set_flags.

(** Transactions that differ in their codes at most. *)
Definition recoded (t t' : transaction) : Prop := t' = set_code t (validationCode t').
Lemma recoded_index l l' : Forall2 recoded l l' → indexInBlock <$> l' = indexInBlock <$> l.
Proof. induction 1 as [|t t' l l' Ht _ IH]; [done|]. rewrite !fmap_cons, IH. by rewrite Ht. Qed.

(** ** Validation *)

Section validation.
Context `{!ProtoMessage KVMetadataWrite} `{!ProtoMessage QueryReads} `{!Sha256}.
Context {DB I L : Type} `{!VersionedDB DB I}.
Context (fuel fuel' : nat) (hashFunc : HashFunc) (db : PrivDB DB L).

Lemma validateTx_code rw u code : validateTx fuel hashFunc db rw u = Ok code → code_ok code.
Proof.
  unfold validateTx. generalize (NsRwSets rw). intros l. induction l as [|n l IH]; cbn [validateTx_loop]; [by intros [= <-]|]. intros Hv.
  apply bind_Ok in Hv as (kv & _ & ([|] & _ & Hv)%bind_Ok); [|by injection Hv as <-]. apply bind_Ok in Hv as ([|] & _ & Hv); [|by injection Hv as <-].
  apply bind_Ok in Hv as ([|] & _ & Hv); [by apply IH|by injection Hv as <-].
Qed.

Definition same_place (blk blk' : block) : Prop :=
  blk_num blk' = blk_num blk ∧ sparseblockchainFilter blk' = sparseblockchainFilter blk ∧ sparseFilterExists blk' = sparseFilterExists blk.
Lemma height_same_place blk blk' t t' : same_place blk blk' → recoded t t' → committingTxHeight blk' t' = committingTxHeight blk t.
Proof. intros (E1 & E2 & E3) ->. unfold committingTxHeight. by rewrite E1, E2, E3. Qed.

(** A transaction is given the same effect when its verdict is taken over. *)
Lemma validate_one_again blk blk' pre pre' u p t r : same_place blk blk' →
  validate_one fuel hashFunc db blk true (pre, u, p) t = Ok r → ∃ t' u' p', r = (pre ++ [t'], u', p') ∧ recoded t t' ∧
    (code_ok (validationCode t) → code_ok (validationCode t')) ∧ validate_one fuel' hashFunc db blk' false (pre', u, p) t' = Ok (pre' ++ [t'], u', p').
Proof.
  intros Hp (code & Hcode & Hr)%bind_Ok. cbn beta iota zeta in Hr. set (t' := set_code t code) in *.
  assert (Hok : code_ok (validationCode t) → code_ok code).
  { intros Hc. destruct (decide (validationCode t = TxValidationCode_VALID)); [by apply validateTx_code in Hcode|by injection Hcode as <-]. }
  assert (Hrec : recoded t t') by done. exists t'. unfold validate_one. cbn beta iota zeta.
  destruct (decide (validationCode t' = TxValidationCode_VALID)) as [Hv|Hv].
  - apply bind_Ok in Hr as (h & Hh & (u' & Hu & [= <-])%bind_Ok). exists u', (purgeTracker_update p (tx_rwset t') h). split_and!; [done..|].
    cbn [validateEndorserTX]. rewrite bind_Ok_eq, set_code_id, decide_True by done. rewrite (height_same_place blk blk' t' t') by done.
    by rewrite Hh, bind_Ok_eq, Hu, bind_Ok_eq.
  - injection Hr as <-. exists u, p. split_and!; [done..|]. rewrite bind_Ok_eq, set_code_id, decide_False by done. done.
Qed.
Lemma validate_again blk blk' l : same_place blk blk' → ∀ pre pre' u p r, Forall (λ t, code_ok (validationCode t)) l →
  foldM (validate_one fuel hashFunc db blk true) (pre, u, p) l = Ok r → ∃ l' u' p', r = (pre ++ l', u', p') ∧ Forall2 recoded l l' ∧
    Forall (λ t, code_ok (validationCode t)) l' ∧ foldM (validate_one fuel' hashFunc db blk' false) (pre', u, p) l' = Ok (pre' ++ l', u', p').
Proof.
  intros Hp. induction l as [|t l IH]; intros pre pre' u p r Hc; cbn [foldM].
  { intros [= <-]. exists [], u, p. rewrite !app_nil_r. by repeat constructor. }
  apply Forall_cons in Hc as [Hct Hc]. intros (r1 & Hone & Hr)%bind_Ok.
  destruct (validate_one_again blk blk' pre pre' u p t r1 Hp Hone) as (t' & u1 & p1 & -> & Ht & Hct' & Hagain).
  destruct (IH _ (pre' ++ [t']) _ _ _ Hc Hr) as (l' & u' & p' & -> & Hl & Hcl & Hfold). exists (t' :: l'), u', p'. rewrite <-!app_assoc in *. cbn [app] in *.
  split_and!; [done|by constructor|constructor; auto|]. cbn [foldM]. by rewrite Hagain, bind_Ok_eq.
Qed.

Lemma recoded_rset_keys l l' : Forall2 recoded l l' → rset_keys l' = rset_keys l.
Proof.
  intros Hl. unfold rset_keys. generalize ([] : list CompositeKey, [] : list HashedCompositeKey). induction Hl as [|t t' l l' Ht _ IH]; intros acc; [done|].
  cbn [foldM]. rewrite Ht. cbn [tx_rwset set_code]. destruct (foldM _ acc (NsRwSets (tx_rwset t))) as [acc'| |]; [by rewrite !bind_Ok_eq|done..].
Qed.
End validation.

(** ** Parsing *)

Section parsing.
Context `{!Sha256} `{!ProtoMessage KVRWSet, !ProtoMessage HashedRWSet, !ProtoMessage TxReadWriteSet}.
Context `{!ProtoMessage MetadataMsg, !ProtoMessage SparseTxnFilterProto}.
Context `{!ProtoMessage Envelope, !ProtoMessage Payload, !ProtoMessage ChannelHeader, !ProtoMessage Transaction}.
Context `{!ProtoMessage ChaincodeActionPayload, !ProtoMessage ProposalResponsePayload, !ProtoMessage ChaincodeAction}.
Context {Sim Processor : Type} (NewTxSimulator : bytes → outcome Sim)
  (GenerateSimulationResults : Processor → Envelope → Sim → bool → outcome Sim)
  (GetTxSimulationResults : Sim → outcome (option TxReadWriteSet)).
Context (Hproc : ∀ processor env sim, GenerateSimulationResults processor env sim true = GenerateSimulationResults processor env sim false).
Notation parse_rwset := (parse_rwset NewTxSimulator GenerateSimulationResults GetTxSimulationResults).
Notation preprocess_one := (preprocess_one NewTxSimulator GenerateSimulationResults GetTxSimulationResults).

Lemma parse_rwset_again env chdr e procs info : parse_rwset env chdr e false procs info = parse_rwset env chdr e true procs info.
Proof.
  unfold BatchPreparer.parse_rwset. case_decide; [done|]. unfold processNonEndorserTx. cbn [negb].
  destruct (procs !! chdr_Type chdr) as [pr|]; [|done]. destruct (NewTxSimulator (chdr_TxId chdr)); [|done..]. by rewrite Hproc.
Qed.

(** What one transaction comes to, apart from its flag. *)
Inductive parsed_as :=
| Refused (code : TxValidationCode)
| NoWrites
| Accepted (t : transaction).
Lemma preprocess_one_cases kv procs doMVCC txs stats flags i e r : preprocess_one kv doMVCC procs (txs, stats, flags) (i, e) = Ok r →
  ∃ info k, (∀ doMVCC' txs' flags', preprocess_one kv doMVCC' procs (txs', stats, flags') (i, e) =
    match k with
    | Refused code => flags' ← ValidationFlags_SetFlag flags' i code; Ok (txs', stats ++ [info], flags')
    | NoWrites => Ok (txs', stats ++ [info], flags')
    | Accepted t => code ← ValidationFlags_Flag flags' i; Ok (txs' ++ [set_code t code], stats ++ [info], flags')
    end) ∧ (∀ t, k = Accepted t → indexInBlock t = i).
Proof.
  intros Hr. unfold BatchPreparer.preprocess_one in *. cbn beta iota in *. apply bind_Ok in Hr as ([env chdr] & Henv & Hr). cbn beta iota zeta in Hr.
  set (info0 := {| TxIDFromChannelHeader := _ |}) in *.
  apply bind_Ok in Hr as ([pd info] & Hpd & Hr). assert (Hpd' : ∀ b, parse_rwset env chdr e b procs info0 = Ok (pd, info)).
  { destruct doMVCC; intros [|]; (done || by rewrite parse_rwset_again || (by rewrite <-parse_rwset_again)). }
  destruct pd as [code|[rw|] cpo].
  - exists info, (Refused code). split; [|done]. intros. cbn beta iota. rewrite Henv, bind_Ok_eq. cbn beta iota zeta. by rewrite Hpd', bind_Ok_eq.
  - set (info1 := {| TxIDFromChannelHeader := TxIDFromChannelHeader info |}) in *.
    destruct (validateWriteset rw kv) as [u| |] eqn:Ew; [|exists info1, (Refused TxValidationCode_INVALID_WRITESET)|done].
    + exists info1, (Accepted {| indexInBlock := i; tx_id := chdr_TxId chdr; tx_rwset := rw; validationCode := 0%Z; containsPostOrderWrites := cpo |}).
      split; [|by intros t [= <-]]. intros. cbn beta iota. rewrite Henv, bind_Ok_eq. cbn beta iota zeta. rewrite Hpd', bind_Ok_eq. cbn beta iota zeta. by rewrite Ew.
    + split; [|done]. intros. cbn beta iota. rewrite Henv, bind_Ok_eq. cbn beta iota zeta. rewrite Hpd', bind_Ok_eq. cbn beta iota zeta. by rewrite Ew.
  - exists info, NoWrites. split; [|done]. intros. cbn beta iota. rewrite Henv, bind_Ok_eq. cbn beta iota zeta. by rewrite Hpd', bind_Ok_eq.
Qed.

(** The transactions found with the final flags are the ones of the first run,
    with their verdicts. *)
Lemma preprocess_again kv procs items : ∀ txs stats flags r, NoDup items.*1 →
  foldM (preprocess_one kv true procs) (txs, stats, flags) items = Ok r →
  ∃ new stats' flags1, r = (txs ++ new, stats', flags1) ∧ (∀ i, i ∉ items.*1 → flags1 !! i = flags !! i) ∧
    indexInBlock <$> new ⊆ items.*1 ∧ NoDup (indexInBlock <$> new) ∧ Forall (λ t, code_ok (validationCode t)) new ∧
    ∀ new' final txs', Forall2 recoded new new' → (∀ t, t ∈ new' → flag_of final (indexInBlock t) (validationCode t)) →
      (∀ i, i ∈ items.*1 → i ∉ indexInBlock <$> new → final !! i = flags1 !! i) →
      foldM (preprocess_one kv false procs) (txs', stats, final) items = Ok (txs' ++ new', stats', final).
Proof.
  induction items as [|[i e] items IH]; intros txs stats flags r; cbn [foldM].
  { intros _ [= <-]. exists [], stats, flags. rewrite app_nil_r. split_and!; [done|done|set_solver|constructor|constructor|].
    intros new' final txs' ->%Forall2_nil_inv_l _ _. by rewrite app_nil_r. }
  rewrite fmap_cons. cbn [fst]. intros [Hi Hnd]%NoDup_cons (r1 & Hone & Hr)%bind_Ok.
  destruct (preprocess_one_cases kv procs true txs stats flags i e r1 Hone) as (info & k & Hk & Hacc). rewrite Hk in Hone. destruct k as [code| |t].
  - apply bind_Ok in Hone as (f & [Hlt ->]%SetFlag_Ok & [= <-]). destruct (IH _ _ _ _ Hnd Hr) as (new & stats' & flags1 & -> & Ho & Hsub & Hnd' & Hc & Hrec).
    exists new, stats', flags1. split_and!; [done| |set_solver|done..|].
    + intros j [Hj Hnj]%not_elem_of_cons. rewrite Ho by done. by apply list_lookup_insert_ne.
    + intros new' final txs' Hnew Hfl Hfin. rewrite Hk. rewrite (SetFlag_same_Zbyte final i code), !bind_Ok_eq.
      * apply Hrec; [done..|]. intros j Hj. apply Hfin. by right.
      * rewrite Hfin; [|left|intros ?%Hsub; done]. rewrite Ho by done. by apply list_lookup_insert_eq.
  - injection Hone as <-. destruct (IH _ _ _ _ Hnd Hr) as (new & stats' & flags1 & -> & Ho & Hsub & Hnd' & Hc & Hrec).
    exists new, stats', flags1. split_and!; [done|set_solver|set_solver|done..|]. intros new' final txs' Hnew Hfl Hfin. rewrite Hk, bind_Ok_eq.
    apply Hrec; [done..|]. intros j Hj. apply Hfin. by right.
  - apply bind_Ok in Hone as (code & Hcode%Flag_of & [= <-]). destruct (IH _ _ _ _ Hnd Hr) as (new & stats' & flags1 & -> & Ho & Hsub & Hnd' & Hc & Hrec).
    specialize (Hacc t eq_refl). exists (set_code t code :: new), stats', flags1. rewrite <-app_assoc. rewrite fmap_cons. cbn [indexInBlock set_code]. rewrite Hacc.
    split_and!; [done|set_solver|set_solver|constructor; [set_solver|done]|constructor; [|done]|].
    + destruct Hcode as (b & _ & <-). apply byteZ_range.
    + intros new' final txs' (t' & new'' & Ht & Hnew & ->)%Forall2_cons_inv_l Hfl Hfin. rewrite Hk.
      assert (Hi' : indexInBlock t' = i) by (by rewrite Ht).
      rewrite (proj2 (Flag_of final i (validationCode t'))), !bind_Ok_eq by (rewrite <-Hi'; apply Hfl; by left).
      assert (set_code t (validationCode t') = t') as -> by (by rewrite Ht). rewrite (Hrec new'' final (txs' ++ [t'])); [by rewrite <-app_assoc|done| |].
      * intros t'' Ht''. apply Hfl. by right.
      * intros j Hj Hnj. apply Hfin; [by right|]. apply not_elem_of_cons. split; [|done]. intros ->. done.
Qed.

Lemma extractSparseFilter_flags blk flags : extractSparseFilter (with_flags blk flags) = extractSparseFilter blk.
Proof.
  unfold extractSparseFilter, with_flags. cbn [b_Header b_Metadata]. destruct (b_Header blk) as [h|]; [|done]. cbn [deref]. rewrite !bind_Ok_eq.
  case_decide; [done|]. destruct (b_Metadata blk) as [md|]; [|done]. cbn [fmap option_fmap option_map deref]. rewrite !bind_Ok_eq, length_insert.
  case_decide; [done|]. unfold index. by rewrite list_lookup_insert_ne.
Qed.

Context `{!ProtoMessage KVMetadataWrite, !ProtoMessage QueryReads}.
Context {DB I L : Type} `{!VersionedDB DB I}.
Notation ValidateAndPrepareBatch := (ValidateAndPrepareBatch NewTxSimulator GenerateSimulationResults GetTxSimulationResults).

Lemma preLoad_recoded (db : PrivDB DB L) blk blk' : Forall2 recoded (blk_txs blk) (blk_txs blk') →
  preLoadCommittedVersionOfRSet db blk' = preLoadCommittedVersionOfRSet db blk.
Proof. intros Hl. unfold preLoadCommittedVersionOfRSet. by rewrite (recoded_rset_keys _ _ Hl). Qed.

Lemma validateAndPrepareBatch_again fuel fuel' hashFunc (db : PrivDB DB L) blk r : Forall (λ t, code_ok (validationCode t)) (blk_txs blk) →
  validateAndPrepareBatch fuel hashFunc db blk true = Ok r → ∃ txs u purges db', r = (txs, u, purges, db') ∧ Forall2 recoded (blk_txs blk) txs ∧
    Forall (λ t, code_ok (validationCode t)) txs ∧
    validateAndPrepareBatch fuel' hashFunc db {| blk_num := blk_num blk; blk_txs := txs; sparseblockchainFilter := sparseblockchainFilter blk;
      sparseFilterExists := sparseFilterExists blk |} false = Ok r.
Proof.
  intros Hc (db1 & Hdb & ([[txs u] p] & Hfold & [= <-])%bind_Ok)%bind_Ok.
  set (blk' := λ txs, {| blk_num := blk_num blk; blk_txs := txs; sparseblockchainFilter := sparseblockchainFilter blk; sparseFilterExists := sparseFilterExists blk |}).
  destruct (validate_again fuel fuel' hashFunc db1 blk (blk' txs) (blk_txs blk) ltac:(done) [] [] _ _ _ Hc Hfold) as (l' & u' & p' & [= <- <- <-] & Hl & Hcl & Hagain).
  exists txs, u, (purgeTracker_getUpdates p), db1. split_and!; [done..|]. unfold validateAndPrepareBatch. fold (blk' txs).
  rewrite (preLoad_recoded db blk (blk' txs)), Hdb, bind_Ok_eq by done. cbn [blk_txs blk']. by rewrite Hagain, bind_Ok_eq.
Qed.

Lemma imap_indices {A} (l : list A) : NoDup (imap (λ i d, (i, d)) l).*1.
Proof. rewrite fmap_imap. apply NoDup_alt. intros i j x Hi Hj. apply list_lookup_imap_Some in Hi as (? & _ & Hi), Hj as (? & _ & Hj). cbn in Hi, Hj. congruence. Qed.

Lemma preprocess_block_again kv blk procs b stats flags1 : preprocessProtoBlock NewTxSimulator GenerateSimulationResults GetTxSimulationResults kv blk true procs = Ok (b, stats, flags1) →
  Forall (λ t, code_ok (validationCode t)) (blk_txs b) ∧ NoDup (indexInBlock <$> blk_txs b) ∧
  ∀ txs final, Forall2 recoded (blk_txs b) txs → foldM (λ f t, ValidationFlags_SetFlag f (indexInBlock t) (validationCode t)) flags1 txs = Ok final →
    Forall (λ t, code_ok (validationCode t)) txs →
    preprocessProtoBlock NewTxSimulator GenerateSimulationResults GetTxSimulationResults kv (with_flags blk final) false procs =
      Ok ({| blk_num := blk_num b; blk_txs := txs; sparseblockchainFilter := sparseblockchainFilter b; sparseFilterExists := sparseFilterExists b |}, stats, final).
Proof.
  intros ([sf ex] & Hsf & (md & Hmd%deref_Ok & (flags & Hfl & (data & Hdata & Hr)%bind_Ok)%bind_Ok)%bind_Ok)%bind_Ok.
  apply bind_Ok in Hr as ([[txs0 stats0] flags0] & Hfold & (h & Hh & [= <- <- <-])%bind_Ok). cbn [blk_num blk_txs sparseblockchainFilter sparseFilterExists].
  destruct (preprocess_again kv procs _ _ _ _ _ (imap_indices data) Hfold) as (new & stats' & flags1' & [= -> <- <-] & _ & Hsub & Hnd & Hc & Hagain).
  cbn [app]. split_and!; [done..|]. intros txs final Hrec Hset Hct.
  destruct (set_flags_spec indexInBlock validationCode txs flags0 final) as (Hl & Ho & Hin); [by rewrite (recoded_index _ _ Hrec)|by apply Forall_forall|done|].
  unfold preprocessProtoBlock. rewrite extractSparseFilter_flags, Hsf, bind_Ok_eq, (with_flags_metadata _ _ _ Hmd). cbn [deref].
  rewrite bind_Ok_eq. unfold index in Hfl |- *. destruct (md !! BlockMetadataIndex_TRANSACTIONS_FILTER) as [f|] eqn:Ef; [|done].
  rewrite list_lookup_insert_eq by (by eapply lookup_lt_Some). rewrite bind_Ok_eq. cbn [with_flags b_Data b_Header]. rewrite Hdata, bind_Ok_eq.
  rewrite (Hagain txs final []), bind_Ok_eq; [by rewrite Hh, bind_Ok_eq|done|done|]. intros i _ Hi. apply Ho. by rewrite (recoded_index _ _ Hrec).
Qed.

(** C21: committing a block again has the effect of the first commit. A block is
    validated against a state and its verdicts are written into it as flags, as
    the ledger does before it stores the block. If the peer dies before the state
    is updated, the stored block is prepared again, on the same state and with the
    same private data, without any check of versions or phantoms. The updates
    of public, hashed and private keys, the purges, the statistics and the flags
    are then the ones of the first run, whatever transactions were invalid and for
    what reason. The processors of configuration transactions must not
    distinguish the two runs, and the one of the repository does not. *)
Theorem recommit_same_batch fuel fuel' hashFunc (db db' : PrivDB DB L) (blk : Block) pvtData procs batch purges stats flags
    (Hrun : ValidateAndPrepareBatch fuel hashFunc db blk pvtData true procs = Ok (batch, purges, stats, flags, db')) :
  ValidateAndPrepareBatch fuel' hashFunc db (with_flags blk flags) pvtData false procs = Ok (batch, purges, stats, flags, db').
Proof.
  apply bind_Ok in Hrun as ([[b stats0] flags1] & Hpre & ([[[txs u] pu] db1] & Hval & Hrun)%bind_Ok). cbn beta iota zeta in Hrun.
  destruct (preprocess_block_again _ _ _ _ _ _ Hpre) as (Hc & Hnd & Hpre'). apply bind_Ok in Hrun as (pvt & Hpvt & (final & Hset & (stats1 & Hst & [= <- <- <- <- <-])%bind_Ok)%bind_Ok).
  destruct (validateAndPrepareBatch_again fuel fuel' hashFunc db b _ Hc Hval) as (? & ? & ? & ? & [= <- <- <- <-] & Hrec & Hct & Hval').
  unfold BatchPreparer.ValidateAndPrepareBatch. rewrite (Hpre' txs final Hrec Hset Hct), bind_Ok_eq. cbn beta iota. rewrite Hval', bind_Ok_eq. cbn beta iota zeta.
  cbn [blk_num sparseblockchainFilter sparseFilterExists]. rewrite Hpvt, bind_Ok_eq. unfold postprocessProtoBlock in *.
  rewrite set_flags_same, bind_Ok_eq, Hst, bind_Ok_eq; [done|].
  apply (set_flags_spec indexInBlock validationCode txs flags1 final); [by rewrite (recoded_index _ _ Hrec)|by apply Forall_forall|done].
Qed.
End parsing.

(** ** Lite blocks *)

Definition lrecoded (t t' : ltxTransaction) : Prop := t' = ltx_set_code t (l_validationCode t').
Lemma lrecoded_index l l' : Forall2 lrecoded l l' → l_indexInBlock <$> l' = l_indexInBlock <$> l.
Proof. induction 1 as [|t t' l l' Ht _ IH]; [done|]. rewrite !fmap_cons, IH. by rewrite Ht. Qed.

Section lite_validation.
Context `{!ProtoMessage KVMetadataWrite, !ProtoMessage QueryReads, !ProtoMessage RangeQueryInfo} `{!Sha256}.
Context {DB I L : Type} `{!VersionedDB DB I}.
Context (fuel fuel' : nat) (hashFunc : HashFunc) (partial : bytes → RangeQueryInfo) (db : PrivDB DB L).

Lemma validateLtx_code rw u code : validateLtx fuel hashFunc partial db rw u = Ok code → code_ok code.
Proof.
  unfold validateLtx. generalize (lt_NsRwset rw). intros l. induction l as [|n l IH]; cbn [validateLtx_loop]; [by intros [= <-]|]. intros Hv.
  apply bind_Ok in Hv as (kv & _ & ([|] & _ & Hv)%bind_Ok); [|by injection Hv as <-]. apply bind_Ok in Hv as ([|] & _ & Hv); [|by injection Hv as <-].
  apply bind_Ok in Hv as ([|] & _ & Hv); [by apply IH|by injection Hv as <-].
Qed.
Definition same_lite_place (blk blk' : ltxBlock) : Prop :=
  lb_num blk' = lb_num blk ∧ lb_sparseblockchainFilter blk' = lb_sparseblockchainFilter blk ∧ lb_sparseFilterExists blk' = lb_sparseFilterExists blk.
Lemma ltx_height_same_place blk blk' t : same_lite_place blk blk' → ltx_committingTxHeight blk' t = ltx_committingTxHeight blk t.
Proof. intros (E1 & E2 & E3). unfold ltx_committingTxHeight. by rewrite E1, E2, E3. Qed.

Lemma validate_one_ltx_again blk blk' pre pre' u t r : same_lite_place blk blk' →
  validate_one_ltx fuel hashFunc partial db blk true (pre, u) (Some t) = Ok r → ∃ t' u', r = (pre ++ [Some t'], u') ∧ lrecoded t t' ∧
    (code_ok (l_validationCode t) → code_ok (l_validationCode t')) ∧
    validate_one_ltx fuel' hashFunc partial db blk' false (pre', u) (Some t') = Ok (pre' ++ [Some t'], u').
Proof.
  intros Hp. unfold validate_one_ltx. cbn [deref]. rewrite !bind_Ok_eq. intros (code & Hcode & Hr)%bind_Ok. cbn beta iota zeta in Hr. set (t' := ltx_set_code t code) in *.
  assert (Hok : code_ok (l_validationCode t) → code_ok code).
  { intros Hc. destruct (decide (l_validationCode t = TxValidationCode_VALID)); [by apply validateLtx_code in Hcode|by injection Hcode as <-]. }
  exists t'. cbn [deref]. rewrite bind_Ok_eq. cbn beta iota zeta. destruct (decide (l_validationCode t' = TxValidationCode_VALID)) as [Hv|Hv].
  - apply bind_Ok in Hr as (h & Hh & (u' & Hu & [= <-])%bind_Ok). exists u'. split_and!; [done..|]. cbn [validateEndorserLtX]. rewrite bind_Ok_eq.
    assert (ltx_set_code t' TxValidationCode_VALID = t') as -> by (rewrite <-Hv; by destruct t). rewrite decide_True by done.
    by rewrite (ltx_height_same_place blk blk') , Hh, bind_Ok_eq, Hu, bind_Ok_eq.
  - injection Hr as <-. exists u. split_and!; [done..|]. rewrite bind_Ok_eq. assert (ltx_set_code t' (l_validationCode t') = t') as -> by (by destruct t).
    by rewrite decide_False by done.
Qed.
Lemma validate_ltx_again blk blk' l : same_lite_place blk blk' → ∀ pre pre' u r, Forall (λ t, code_ok (l_validationCode t)) l →
  foldM (validate_one_ltx fuel hashFunc partial db blk true) (pre, u) (Some <$> l) = Ok r → ∃ l' u', r = (pre ++ (Some <$> l'), u') ∧ Forall2 lrecoded l l' ∧
    Forall (λ t, code_ok (l_validationCode t)) l' ∧
    foldM (validate_one_ltx fuel' hashFunc partial db blk' false) (pre', u) (Some <$> l') = Ok (pre' ++ (Some <$> l'), u').
Proof.
  intros Hp. induction l as [|t l IH]; intros pre pre' u r Hc; cbn [foldM fmap list_fmap].
  { intros [= <-]. exists [], u. rewrite !app_nil_r. by repeat constructor. }
  apply Forall_cons in Hc as [Hct Hc]. intros (r1 & Hone & Hr)%bind_Ok.
  destruct (validate_one_ltx_again blk blk' pre pre' u t r1 Hp Hone) as (t' & u1 & -> & Ht & Hct' & Hagain).
  destruct (IH _ (pre' ++ [Some t']) _ _ Hc Hr) as (l' & u' & -> & Hl & Hcl & Hfold). exists (t' :: l'), u'. rewrite <-!app_assoc in *. cbn [app] in *.
  split_and!; [done|by constructor|constructor; auto|]. cbn [fmap list_fmap foldM]. by rewrite Hagain, bind_Ok_eq.
Qed.
Lemma lrecoded_rset_keys l l' : Forall2 lrecoded l l' → ltx_rset_keys (Some <$> l') = ltx_rset_keys (Some <$> l).
Proof.
  intros Hl. unfold ltx_rset_keys. generalize ([] : list CompositeKey, [] : list HashedCompositeKey). induction Hl as [|t t' l l' Ht _ IH]; intros acc; [done|].
  cbn [fmap list_fmap foldM deref]. rewrite !bind_Ok_eq, Ht. cbn [l_rwset ltx_set_code].
  destruct (foldM _ acc (lt_NsRwset (l_rwset t))) as [acc'| |]; [by rewrite !bind_Ok_eq|done..].
Qed.
(** The validation of a lite block needs all of its transactions. *)
Lemma validate_ltx_all blk mvcc l : ∀ acc r, foldM (validate_one_ltx fuel hashFunc partial db blk mvcc) acc l = Ok r → ∃ l0, l = Some <$> l0.
Proof.
  induction l as [|t l IH]; intros [pre u] r; cbn [foldM]; [by exists []|]. intros (r1 & Hone & Hr)%bind_Ok. destruct t as [t|]; [|done].
  destruct (IH _ _ Hr) as [l0 ->]. by exists (t :: l0).
Qed.
End lite_validation.

Section lite_parsing.
Context `{!Sha256} `{!ProtoMessage KVRWSet, !ProtoMessage HashedRWSet, !ProtoMessage TxReadWriteSet}.
Context `{!ProtoMessage MetadataMsg, !ProtoMessage SparseTxnFilterProto, !ProtoMessage Envelope}.
Context `{!ProtoMessage Payload, !ProtoPartial Payload, !ProtoMessage ChannelHeader, !ProtoMessage SignatureHeader}.
Context `{!ProtoMessage SerializedIdentity, !ProtoPartial SerializedIdentity, !ProtoMessage ChaincodeEvent, !ProtoPartial ChaincodeEvent}.
Context `{!ProtoMessage Transaction, !ProtoMessage ChaincodeActionPayload}.
Context `{!ProtoMessage ProposalResponsePayload, !ProtoMessage ChaincodeAction}.

Lemma preprocess_one_ltx_cases flags txs stats i e r : preprocess_one_ltx flags (txs, stats) (i, e) = Ok r →
  ∃ info t, (∀ flags' txs', preprocess_one_ltx flags' (txs', stats) (i, e) =
    (code ← ValidationFlags_Flag flags' i; Ok (txs' ++ [(λ t, ltx_set_code t code) <$> t], stats ++ [info]))) ∧ (∀ t', t = Some t' → l_indexInBlock t' = i).
Proof.
  unfold preprocess_one_ltx. cbn beta iota. intros ([env lean] & Hlean & (meta & Hmeta & _)%bind_Ok)%bind_Ok.
  exists {| lsi_TxIDFromChannelHeader := le_TxId lean; lsi_ValidationCode := 0%Z; lsi_TxType := env_Type env; lsi_ChaincodeID := em_ChaincodeID meta;
    lsi_ChaincodeEventData := []; lsi_NumCollections := match le_Results lean with Some r => length (lt_NsRwset r) | None => 0 end |},
    ((λ rw, {| l_indexInBlock := i; l_id := le_TxId lean; l_rwset := rw; l_validationCode := 0%Z; l_containsPostOrderWrites := false;
      l_channelId := le_ChannelId lean |}) <$> le_Results lean). split.
  - intros flags' txs'. rewrite Hlean, bind_Ok_eq. cbn beta iota. rewrite Hmeta, bind_Ok_eq. cbn beta iota zeta.
    destruct (ValidationFlags_Flag flags' i) as [code| |]; [|done..]. rewrite !bind_Ok_eq. by destruct (le_Results lean).
  - intros t'. by destruct (le_Results lean); intros [= <-].
Qed.
Lemma preprocess_ltx_grows flags items : ∀ txs stats txs' stats', foldM (preprocess_one_ltx flags) (txs, stats) items = Ok (txs', stats') → ∃ new, txs' = txs ++ new.
Proof.
  induction items as [|[i e] items IH]; intros txs stats txs' stats'; cbn [foldM]; [intros [= <- _]; exists []; by rewrite app_nil_r|].
  intros (r & Hone & Hr)%bind_Ok. destruct (preprocess_one_ltx_cases _ _ _ _ _ _ Hone) as (info & t & Hcase & _). rewrite Hcase in Hone.
  apply bind_Ok in Hone as (code & _ & [= <-]). destruct (IH _ _ _ _ Hr) as [new ->]. rewrite <-app_assoc. by eexists.
Qed.

Lemma preprocess_ltx_again flags items : ∀ txs stats l stats', foldM (preprocess_one_ltx flags) (Some <$> txs, stats) items = Ok (Some <$> l, stats') →
  ∃ new, l = txs ++ new ∧ l_indexInBlock <$> new = items.*1 ∧ Forall (λ t, code_ok (l_validationCode t)) new ∧
    ∀ new' final txs', Forall2 lrecoded new new' → (∀ t, t ∈ new' → flag_of final (l_indexInBlock t) (l_validationCode t)) →
      foldM (preprocess_one_ltx final) (Some <$> txs', stats) items = Ok (Some <$> (txs' ++ new'), stats').
Proof.
  induction items as [|[i e] items IH]; intros txs stats l stats'; cbn [foldM].
  { intros [= E <-]. apply (inj (fmap Some)) in E as ->. exists []. rewrite app_nil_r. split_and!; [done..|]. intros new' final txs' ->%Forall2_nil_inv_l _. by rewrite app_nil_r. }
  intros (r & Hone & Hr)%bind_Ok. destruct (preprocess_one_ltx_cases _ _ _ _ _ _ Hone) as (info & t & Hcase & Hidx0). rewrite Hcase in Hone.
  apply bind_Ok in Hone as (code & Hcode%Flag_of & [= <-]). destruct t as [t|].
  - change ((λ t, ltx_set_code t code) <$> Some t) with (Some (ltx_set_code t code)) in Hr. specialize (Hidx0 t eq_refl).
    replace ((Some <$> txs) ++ [Some (ltx_set_code t code)]) with (Some <$> (txs ++ [ltx_set_code t code])) in Hr by (by rewrite fmap_app).
    destruct (IH _ _ _ _ Hr) as (new & -> & Hidx & Hc & Hrec). exists (ltx_set_code t code :: new). rewrite <-app_assoc. split_and!; [done| | |].
    + rewrite !fmap_cons, Hidx. by rewrite <-Hidx0.
    + constructor; [|done]. destruct Hcode as (b & _ & <-). apply byteZ_range.
    + intros new' final txs' (t' & new'' & Ht & Hnew & ->)%Forall2_cons_inv_l Hfl. assert (Hi : l_indexInBlock t' = i) by (by rewrite Ht).
      rewrite Hcase, (proj2 (Flag_of final i (l_validationCode t'))), !bind_Ok_eq by (rewrite <-Hi; apply Hfl; by left).
      change ((λ t, ltx_set_code t (l_validationCode t')) <$> Some t) with (Some (ltx_set_code t (l_validationCode t'))).
      assert (ltx_set_code t (l_validationCode t') = t') as -> by (by rewrite Ht).
      replace ((Some <$> txs') ++ [Some t']) with (Some <$> (txs' ++ [t'])) by (by rewrite fmap_app).
      rewrite (Hrec new'' final (txs' ++ [t'])); [by rewrite <-app_assoc|done|]. intros t'' Ht''. apply Hfl. by right.
  - exfalso. apply preprocess_ltx_grows in Hr as [new Hl]. assert (Hin : None ∈ Some <$> l) by (rewrite Hl; set_solver).
    by apply list_elem_of_fmap in Hin as (? & ? & _).
Qed.

Context `{!ProtoMessage KVMetadataWrite, !ProtoMessage QueryReads, !ProtoMessage RangeQueryInfo}.
Context {DB I L : Type} `{!VersionedDB DB I}.

Lemma postprocess_ltx txs flags : postprocessLtxProtoBlock flags (Some <$> txs) =
  foldM (λ f t, ValidationFlags_SetFlag f (l_indexInBlock t) (l_validationCode t)) flags txs.
Proof. unfold postprocessLtxProtoBlock. rewrite foldM_fmap. done. Qed.

(** The same for lite blocks. *)
Theorem recommit_same_lite_batch fuel fuel' hashFunc partial (db db' : PrivDB DB L) (blk : Block) pvtData batch purges stats flags
    (Hrun : ValidateAndPrepareBatchLtx fuel hashFunc partial db blk pvtData true = Ok (batch, purges, stats, flags, db')) :
  ValidateAndPrepareBatchLtx fuel' hashFunc partial db (with_flags blk flags) pvtData false = Ok (batch, purges, stats, flags, db').
Proof.
  unfold ValidateAndPrepareBatchLtx in *. apply bind_Ok in Hrun as ([b stats0] & Hpre & ([[[txs' u] pu] db0] & Hval & Hrun)%bind_Ok). cbn beta iota zeta in Hrun.
  unfold preprocessLtxProtoBlock in *. apply bind_Ok in Hpre as ([sf ex] & Hsf & (data & Hdata & (md & Hmd%deref_Ok & (flags0 & Hfl & Hpre)%bind_Ok)%bind_Ok)%bind_Ok).
  apply bind_Ok in Hpre as ([txs0 stats1] & Hfold & (h & Hh & [= <- <-])%bind_Ok). cbn [lb_num lb_txs lb_sparseblockchainFilter lb_sparseFilterExists] in *.
  unfold validateAndPrepareLtxBatch in Hval. apply bind_Ok in Hval as (db1 & Hdb & ([txs1 u1] & Hv & [= <- <- <- <-])%bind_Ok). cbn [lb_txs] in Hv.
  destruct (validate_ltx_all _ _ _ _ _ _ _ _ _ Hv) as [l ->].
  destruct (preprocess_ltx_again flags0 _ [] [] l stats1 Hfold) as (new & -> & Hidx & Hc & Hagain). cbn [app] in *.
  set (place := λ txs, {| lb_num := bh_Number h; lb_txs := txs; lb_sparseblockchainFilter := sf; lb_sparseFilterExists := ex |}) in *.
  destruct (validate_ltx_again fuel fuel' hashFunc partial db1 (place (Some <$> new)) (place txs1) new ltac:(done) [] [] _ _ Hc Hv) as (l' & u' & [= -> <-] & Hrec & Hcl & Hval').
  rewrite Hmd in Hrun. cbn [deref] in Hrun. apply bind_Ok in Hrun as (pvt & Hpvt & Hrun). rewrite bind_Ok_eq, Hfl, bind_Ok_eq in Hrun.
  apply bind_Ok in Hrun as (final & Hset & (stats2 & Hst & [= <- <- <- <- <-])%bind_Ok). cbn [app] in *. rewrite postprocess_ltx in Hset.
  destruct (set_flags_spec l_indexInBlock l_validationCode l' flags0 final) as (_ & _ & Hin);
    [rewrite (lrecoded_index _ _ Hrec), Hidx; apply imap_indices|by apply Forall_forall|done|].
  rewrite extractSparseFilter_flags, Hsf, bind_Ok_eq, (with_flags_metadata _ _ _ Hmd). cbn [deref with_flags b_Data b_Header]. rewrite Hdata, !bind_Ok_eq.
  assert (Hf : index (<[BlockMetadataIndex_TRANSACTIONS_FILTER := final]> md) BlockMetadataIndex_TRANSACTIONS_FILTER = Ok final).
  { unfold index in Hfl |- *. destruct (md !! BlockMetadataIndex_TRANSACTIONS_FILTER) eqn:Ef; [|done]. by rewrite list_lookup_insert_eq by (by eapply lookup_lt_Some). }
  pose proof (Hagain l' final [] Hrec Hin) as Hpre'. rewrite fmap_nil, app_nil_l in Hpre'. rewrite Hf, bind_Ok_eq, Hpre', bind_Ok_eq. cbn beta iota.
  rewrite Hh, !bind_Ok_eq. cbn beta iota. fold (place (Some <$> l')). unfold validateAndPrepareLtxBatch.
  assert (Hpl : (if IsBulkOptimizable (DB := DB) then preLoadCommittedVersionOfLtxRSet db (place (Some <$> l')) else Ok db) = Ok db1).
  { rewrite <-Hdb. unfold preLoadCommittedVersionOfLtxRSet. cbn [lb_txs place]. by rewrite (lrecoded_rset_keys _ _ Hrec). }
  rewrite Hpl, bind_Ok_eq. change (lb_txs (place (Some <$> l'))) with (Some <$> l'). rewrite Hval', !bind_Ok_eq. cbn beta iota zeta.
  cbn [lb_num lb_sparseblockchainFilter lb_sparseFilterExists place] in *. rewrite Hpvt, bind_Ok_eq.
  rewrite ?bind_Ok_eq, ?Hf, ?bind_Ok_eq, postprocess_ltx, set_flags_same, bind_Ok_eq, Hst, bind_Ok_eq by done. done.
Qed.
End lite_parsing.

(** ** A sample: the second transaction has read what the first one writes *)

#[local] Existing Instances sample_priv_codec sample_priv_laws sample_priv_sha sample_tx_codec sample_range_codec.
#[local] Existing Instances sample_kv_codec sample_bp_env sample_bp_payload sample_bp_chdr sample_bp_txn sample_bp_cap sample_bp_prp sample_bp_ca sample_bp_md sample_bp_filter sample_bp_hashed sample_bp_rwset.

Definition recommit_reader : TxRwSet :=
  {| NsRwSets := [{| NameSpace := B "cc"; KvRwSet := Some {| Reads := [{| kvr_Key := B "k"; kvr_Version := None |}]; RangeQueriesInfo := [];
       Writes := []; MetadataWrites := [] |}; CollHashedRwSets := [] |}] |}.
Definition recommit_tx : bytes := Eval vm_compute in match TxRwSet_ToProtoBytes recommit_reader with Ok b => b | _ => [] end.
Definition recommit_block : Block := sample_proto_block [sample_env_bytes; recommit_tx].
Lemma flags_are {A B C D E : Type} (r : res (A * B * C * D * E)) f :
  match r with Ok (_, _, _, f', _) => f' = f | _ => False end → ∃ a b c e, r = Ok (a, b, c, f, e).
Proof. destruct r as [[[[[a b] c] f'] e]| |]; [|done..]. intros ->. by exists a, b, c, e. Qed.
Lemma recommit_same_batch_witness : ∃ batch purges stats db',
  ValidateAndPrepareBatch no_sim no_gen no_res 10 sample_hash sample_priv_db recommit_block ∅ true ∅ = Ok (batch, purges, stats, [x00; x0b], db') ∧
  ValidateAndPrepareBatch no_sim no_gen no_res 0 sample_hash sample_priv_db (with_flags recommit_block [x00; x0b]) ∅ false ∅ = Ok (batch, purges, stats, [x00; x0b], db').
Proof.
  destruct (flags_are (ValidateAndPrepareBatch no_sim no_gen no_res 10 sample_hash sample_priv_db recommit_block ∅ true ∅) [x00; x0b])
    as (batch & purges & stats & db' & E); [vm_compute; reflexivity|].
  exists batch, purges, stats, db'. split; [exact E|].
  exact (recommit_same_batch no_sim no_gen no_res (λ _ _ _, eq_refl) 10 0 sample_hash sample_priv_db db' recommit_block ∅ ∅ batch purges stats [x00; x0b] E).
Defined.
