(* ===== verification/LedgerRecovery.v ===== *)
(** * Recovery of a ledger

  Models the part of core/ledger/kvledger/kv_ledger.go (and recovery.go) that
  brings the state and the history database up to the block store when a ledger
  is opened: a peer that dies in the middle of a commit has the block in its
  block store and may lack it in the databases. The databases are known by the
  interface [recoverable]; what it promises is [recovers], which the history
  database fulfils. The block store and the private data store are the function
  that returns a block with its private data. *)

From S2P Require Import Prelude SortedMap Encoding Separated Proto Rwset LiteRwset LevelDB Block BatchPreparer Version HistoryDB.
From stdpp Require Import options.
Local Open Scope Z_scope.
Set Default Proof Using "Type*".

Record BlockAndPvtData := { bp_Block : Block; bp_PvtData : gmap Z TxPvtData }.

(** ** recovery.go *)

Class recoverable (R : Type) := {
  ShouldRecover : R → Z → res (bool * Z);
  CommitLostBlock : R → BlockAndPvtData → res R;
  CommitLostLiteBlock : R → BlockAndPvtData → res R
}.
(** The databases of a ledger are objects that a recoverer points to. *)
Inductive dbRef := TheStateDB | TheHistoryDB.
Record recoverer := { nextRequiredBlock : Z; rec_recoverable : dbRef }.

Section ledger.
Context {TxMgr History : Type} `{!recoverable TxMgr} `{!recoverable History} `{!ProtoMessage Envelope, !ProtoMessage Payload, !ProtoMessage ChannelHeader}.

Record kvLedger := { l_txmgr : TxMgr; l_historyDB : option History; l_lastBlockInSnapshot : option Z }.
Definition set_txmgr (l : kvLedger) (s : TxMgr) : kvLedger := {| l_txmgr := s; l_historyDB := l_historyDB l; l_lastBlockInSnapshot := l_lastBlockInSnapshot l |}.
Definition set_historyDB (l : kvLedger) (h : History) : kvLedger := {| l_txmgr := l_txmgr l; l_historyDB := Some h; l_lastBlockInSnapshot := l_lastBlockInSnapshot l |}.

(** The calls of the interface on one of the databases. *)
Definition db_ShouldRecover (l : kvLedger) (r : dbRef) (lastAvailableBlock : Z) : res (bool * Z) :=
  match r with
  | TheStateDB => ShouldRecover (l_txmgr l) lastAvailableBlock
  | TheHistoryDB => h ← deref (l_historyDB l); ShouldRecover h lastAvailableBlock
  end.
Definition db_CommitLost (lite : bool) (l : kvLedger) (r : dbRef) (b : BlockAndPvtData) : res kvLedger :=
  match r with
  | TheStateDB => s ← (if lite then CommitLostLiteBlock (l_txmgr l) b else CommitLostBlock (l_txmgr l) b); Ok (set_txmgr l s)
  | TheHistoryDB => h ← deref (l_historyDB l); h ← (if lite then CommitLostLiteBlock h b else CommitLostBlock h b); Ok (set_historyDB l h)
  end.

Context (GetPvtDataAndBlockByNum : Z → res BlockAndPvtData) (Height : Z).

(** Whether a block takes the lite path. *)
Definition takes_lite_path (blk : Block) : res bool := if IsConfigBlock blk then Ok false else IsLiteBlock blk.
Definition recommit_one (recoverables : list dbRef) (l : kvLedger) (blockNumber : Z) : res kvLedger :=
  blockAndPvtdata ← GetPvtDataAndBlockByNum blockNumber;
  foldM (λ l r, lite ← takes_lite_path (bp_Block blockAndPvtdata); db_CommitLost lite l r blockAndPvtdata) l recoverables.
(** The counter of the loop does not reach the last [uint64]. *)
Definition recommitLostBlocks (firstBlockNum lastBlockNum : Z) (recoverables : list dbRef) (l : kvLedger) : res kvLedger :=
  foldM (recommit_one recoverables) l (seqZ firstBlockNum (lastBlockNum - firstBlockNum + 1)).

(** The body of the loop over the databases. *)
Definition collect_recoverer (l : kvLedger) (lastBlockInBlockStore : Z) (recoverers : list recoverer) (r : dbRef) : res (list recoverer) :=
  '(recoverFlag, nextRequiredBlock) ← db_ShouldRecover l r lastBlockInBlockStore;
  _ ← (match l_lastBlockInSnapshot l with
       | Some lastBlockInSnapshot => if decide (nextRequiredBlock ≤ lastBlockInSnapshot) then Err "recovery not possible" else Ok ()
       | None => Ok ()
       end);
  if decide (nextRequiredBlock > u64 (lastBlockInBlockStore + 1)) then Err "the database is ahead of the block store"
  else if (recoverFlag : bool) then Ok (recoverers ++ [{| nextRequiredBlock := nextRequiredBlock; rec_recoverable := r |}])
  else Ok recoverers.

Definition syncStateAndHistoryDBWithBlockstore (l : kvLedger) : res kvLedger :=
  if decide (Height = 0) then Ok l
  else
    let lastBlockInBlockStore := u64 (Height - 1) in
    let recoverables := [TheStateDB] ++ (if l_historyDB l then [TheHistoryDB] else []) in
    recoverers ← foldM (collect_recoverer l lastBlockInBlockStore) [] recoverables;
    match recoverers with
    | [] => Ok l
    | [r] => recommitLostBlocks (nextRequiredBlock r) lastBlockInBlockStore [rec_recoverable r] l
    | r0 :: r1 :: _ =>
        let '(r0, r1) := if decide (nextRequiredBlock r0 > nextRequiredBlock r1) then (r1, r0) else (r0, r1) in
        l ← (if decide (nextRequiredBlock r0 ≠ nextRequiredBlock r1)
             then recommitLostBlocks (nextRequiredBlock r0) (u64 (nextRequiredBlock r1 - 1)) [rec_recoverable r0] l else Ok l);
        recommitLostBlocks (nextRequiredBlock r1) lastBlockInBlockStore [rec_recoverable r0; rec_recoverable r1] l
    end.
End ledger.
Arguments kvLedger : clear implicits.

#[export] Instance history_recoverable {L} `{!GoLevelDB L} `{!ProtoMessage Envelope, !ProtoMessage Payload, !ProtoMessage ChannelHeader, !ProtoMessage Transaction}
    `{!ProtoMessage ChaincodeActionPayload, !ProtoMessage ProposalResponsePayload, !ProtoMessage ChaincodeAction}
    `{!ProtoMessage KVRWSet, !ProtoMessage HashedRWSet, !ProtoMessage TxReadWriteSet} : recoverable (historyDB L) := {
  ShouldRecover := history_ShouldRecover;
  CommitLostBlock d b := history_CommitLostBlock d (bp_Block b);
  CommitLostLiteBlock d b := history_CommitLostLiteBlock d (bp_Block b)
}.

(** ** What the interface promises *)

(** [at_height h r]: the database [r] holds the blocks below [h]. *)
Record recovers {R} `{!recoverable R} `{!ProtoMessage Envelope, !ProtoMessage Payload, !ProtoMessage ChannelHeader}
    (blocks : list BlockAndPvtData) (at_height : nat → R → Prop) : Prop := {
  rv_should h r last : at_height h r → (h ≤ S last ≤ length blocks)%nat →
    ShouldRecover r (Z.of_nat last) = Ok (negb (bool_decide (h = S last)), Z.of_nat h);
  rv_commit h r b lite : at_height h r → blocks !! h = Some b → takes_lite_path (bp_Block b) = Ok lite →
    ∃ r', (if lite then CommitLostLiteBlock r b else CommitLostBlock r b) = Ok r' ∧ at_height (S h) r'
}.

Section recovery.
Context {TxMgr History : Type} `{!recoverable TxMgr} `{!recoverable History} `{!ProtoMessage Envelope, !ProtoMessage Payload, !ProtoMessage ChannelHeader}.
Context (blocks : list BlockAndPvtData) (get : Z → res BlockAndPvtData).
Context (state_at : nat → TxMgr → Prop) (history_at : nat → History → Prop).
Context (Hstate : recovers blocks state_at) (Hhistory : recovers blocks history_at).
Context (Hget : ∀ j b, blocks !! j = Some b → get (Z.of_nat j) = Ok b) (Hlite : ∀ b, b ∈ blocks → ∃ lite, takes_lite_path (bp_Block b) = Ok lite).
Context (Hlen : is_u64 (Z.of_nat (length blocks))).
Notation kvLedger := (kvLedger TxMgr History).
Implicit Types (l : kvLedger).

Definition db_at l (r : dbRef) (h : nat) : Prop :=
  match r with TheStateDB => state_at h (l_txmgr l) | TheHistoryDB => ∃ d, l_historyDB l = Some d ∧ history_at h d end.
(** The databases of a ledger other than [rs] are left alone. *)
Definition only (rs : list dbRef) l l' : Prop :=
  (TheStateDB ∉ rs → l_txmgr l' = l_txmgr l) ∧ (TheHistoryDB ∉ rs → l_historyDB l' = l_historyDB l) ∧ l_lastBlockInSnapshot l' = l_lastBlockInSnapshot l ∧
  (l_historyDB l = None → l_historyDB l' = None).
Lemma only_at rs l l' r h : only rs l l' → r ∉ rs → db_at l r h → db_at l' r h.
Proof. intros (Hs & Hh & _) Hr. destruct r; cbn; [by rewrite Hs|by rewrite Hh]. Qed.
Lemma only_refl rs l : only rs l l.
Proof. by repeat split. Qed.
Lemma only_weaken rs rs' l l' : rs ⊆ rs' → only rs l l' → only rs' l l'.
Proof. intros Hs (? & ? & ? & ?). split_and!; set_solver. Qed.
Lemma only_trans rs l1 l2 l3 : only rs l1 l2 → only rs l2 l3 → only rs l1 l3.
Proof. intros (? & ? & ? & ?) (? & ? & ? & ?). split_and!; naive_solver congruence. Qed.

Lemma db_commit l r h b lite : db_at l r h → blocks !! h = Some b → takes_lite_path (bp_Block b) = Ok lite →
  ∃ l', db_CommitLost lite l r b = Ok l' ∧ db_at l' r (S h) ∧ only [r] l l'.
Proof.
  intros Hr Hb Hl. destruct r; cbn in Hr.
  - destruct (rv_commit _ _ Hstate h _ b lite Hr Hb Hl) as (s & Hs & Hs'). exists (set_txmgr l s). unfold db_CommitLost. rewrite Hs. by repeat split; set_solver.
  - destruct Hr as (d & Hd & Hr). destruct (rv_commit _ _ Hhistory h _ b lite Hr Hb Hl) as (d' & Hd' & Hr'). exists (set_historyDB l d'). unfold db_CommitLost.
    rewrite Hd. cbn [deref]. rewrite bind_Ok_eq, Hd'. split; [done|]. split; [by exists d'|]. by repeat split; set_solver.
Qed.
Lemma recommit_one_spec rs l h : NoDup rs → (h < length blocks)%nat → (∀ r, r ∈ rs → db_at l r h) →
  ∃ l', recommit_one get rs l (Z.of_nat h) = Ok l' ∧ (∀ r, r ∈ rs → db_at l' r (S h)) ∧ only rs l l'.
Proof.
  intros Hnd Hlt Hat. destruct (lookup_lt_is_Some_2 blocks h Hlt) as [b Hb]. destruct (Hlite b) as [lite Hl]; [by eapply list_elem_of_lookup_2|].
  assert (Hc : ∀ l r, (lite ← takes_lite_path (bp_Block b); db_CommitLost lite l r b) = db_CommitLost lite l r b) by (intros; by rewrite Hl).
  unfold recommit_one. rewrite (Hget h b Hb), bind_Ok_eq. revert l Hat. induction Hnd as [|r rs Hr Hnd IH]; intros l Hat; cbn [foldM].
  { exists l. split_and!; [done|by intros r ?%not_elem_of_nil|apply only_refl]. }
  rewrite (Hc l r). destruct (db_commit l r h b lite) as (l1 & -> & Hr1 & Ho1); [apply Hat; by left|done..|]. rewrite bind_Ok_eq.
  destruct (IH l1) as (l' & -> & Hrs & Ho). { intros r' Hr'. eapply only_at; [done| |apply Hat; by right]. set_solver. }
  exists l'. split; [done|]. split.
  - intros r' [->|Hr']%elem_of_cons; [|by apply Hrs]. by eapply only_at.
  - eapply only_trans; [|]; (eapply only_weaken; [|done]); set_solver.
Qed.

Lemma recommit_spec rs k : NoDup rs → ∀ l h, (h + k ≤ length blocks)%nat → (∀ r, r ∈ rs → db_at l r h) →
  ∃ l', recommitLostBlocks get (Z.of_nat h) (Z.of_nat (h + k) - 1) rs l = Ok l' ∧ (∀ r, r ∈ rs → db_at l' r (h + k)) ∧ only rs l l'.
Proof.
  intros Hnd. unfold recommitLostBlocks. induction k as [|k IH]; intros l h Hk Hat.
  - replace (Z.of_nat (h + 0) - 1 - Z.of_nat h + 1) with 0 by lia. exists l. rewrite Nat.add_0_r. split_and!; [done..|apply only_refl].
  - replace (Z.of_nat (h + S k) - 1 - Z.of_nat h + 1) with (Z.of_nat (S k)) by lia. rewrite seqZ_cons by lia. cbn [foldM].
    destruct (recommit_one_spec rs l h Hnd ltac:(lia) Hat) as (l1 & -> & H1 & Ho1). rewrite bind_Ok_eq.
    destruct (IH l1 (S h) ltac:(lia) H1) as (l' & Hf & H' & Ho'). exists l'. split_and!; [|by rewrite Nat.add_succ_r|by eapply only_trans].
    replace (Z.of_nat (S h + k) - 1 - Z.of_nat (S h) + 1) with (Z.pred (Z.of_nat (S k))) in Hf by lia. by rewrite <-Nat2Z.inj_succ.
Qed.
Lemma recommit_to rs l h h' : NoDup rs → (h ≤ h' ≤ length blocks)%nat → (∀ r, r ∈ rs → db_at l r h) →
  ∃ l', recommitLostBlocks get (Z.of_nat h) (Z.of_nat h' - 1) rs l = Ok l' ∧ (∀ r, r ∈ rs → db_at l' r h') ∧ only rs l l'.
Proof. intros Hnd Hh Hat. destruct (recommit_spec rs (h' - h) Hnd l h ltac:(lia) Hat) as (l' & Hl). replace (h + (h' - h))%nat with h' in Hl by lia. by exists l'. Qed.

(** The heights of the databases of a ledger. *)
Definition heights l (hs : nat) (hh : option nat) : Prop :=
  state_at hs (l_txmgr l) ∧ (hs ≤ length blocks)%nat ∧ (∀ x, l_lastBlockInSnapshot l = Some x → x < Z.of_nat hs) ∧
  match l_historyDB l, hh with
  | Some d, Some h => history_at h d ∧ (h ≤ length blocks)%nat ∧ (∀ x, l_lastBlockInSnapshot l = Some x → x < Z.of_nat h)
  | None, None => True
  | _, _ => False
  end.

Lemma collect_spec l r h acc : db_at l r h → (h ≤ length blocks)%nat → (0 < length blocks)%nat → (∀ x, l_lastBlockInSnapshot l = Some x → x < Z.of_nat h) →
  collect_recoverer l (Z.of_nat (length blocks) - 1) acc r =
    Ok (if decide (h = length blocks) then acc else acc ++ [{| nextRequiredBlock := Z.of_nat h; rec_recoverable := r |}]).
Proof.
  intros Hr Hh H0 Hx. unfold collect_recoverer.
  assert (Hs : ∀ last, S last = length blocks → db_ShouldRecover l r (Z.of_nat last) = Ok (negb (bool_decide (h = S last)), Z.of_nat h)).
  { intros last Hlast. destruct r; cbn in Hr |- *; [apply (rv_should _ _ Hstate); [done|lia]|]. destruct Hr as (d & -> & Hr). cbn [deref]. rewrite bind_Ok_eq.
    apply (rv_should _ _ Hhistory); [done|lia]. }
  specialize (Hs (length blocks - 1)%nat ltac:(lia)). replace (Z.of_nat (length blocks - 1)) with (Z.of_nat (length blocks) - 1) in Hs by lia.
  replace (S (length blocks - 1)) with (length blocks) in Hs by lia. rewrite Hs.
  rewrite bind_Ok_eq. cbn beta iota. assert (Hsnap : match l_lastBlockInSnapshot l with
    | Some x => if decide (Z.of_nat h ≤ x) then Err "recovery not possible" else Ok () | None => Ok () end = Ok ()).
  { destruct (l_lastBlockInSnapshot l) as [x|]; [|done]. specialize (Hx x eq_refl). by rewrite decide_False by lia. }
  rewrite Hsnap, bind_Ok_eq. rewrite u64_small by (unfold is_u64 in Hlen; lia). rewrite decide_False by lia.
  destruct (decide (h = length blocks)); [by rewrite bool_decide_eq_true_2|by rewrite bool_decide_eq_false_2].
Qed.

Lemma heights_done l l' hs hh rs : heights l hs hh → only rs l l' → db_at l' TheStateDB (length blocks) →
  (is_Some (l_historyDB l) → db_at l' TheHistoryDB (length blocks)) → heights l' (length blocks) (const (length blocks) <$> hh).
Proof.
  intros (_ & Hs & Hx & Hh) (_ & _ & Hsnap & Hnone) Hs' Hh'. unfold heights. rewrite Hsnap. split_and!; [done|lia|intros x ?%Hx; lia|].
  destruct (l_historyDB l) as [d|] eqn:Ed, hh as [h|]; try done.
  - destruct Hh' as (d' & -> & Hd'); [by eexists|]. cbn. destruct Hh as (_ & Hle & Hlt). split_and!; [done|lia|intros x ?%Hlt; lia].
  - by rewrite (Hnone eq_refl).
Qed.

(** Both databases are behind, the one that [r0] names at least as far. *)
Lemma recover_both l r0 r1 h0 h1 : r0 ≠ r1 → (h0 ≤ h1 ≤ length blocks)%nat → db_at l r0 h0 → db_at l r1 h1 →
  ∃ l', (l ← (if decide (Z.of_nat h0 ≠ Z.of_nat h1) then recommitLostBlocks get (Z.of_nat h0) (u64 (Z.of_nat h1 - 1)) [r0] l else Ok l);
      recommitLostBlocks get (Z.of_nat h1) (Z.of_nat (length blocks) - 1) [r0; r1] l) = Ok l' ∧
    db_at l' r0 (length blocks) ∧ db_at l' r1 (length blocks) ∧ only [r0; r1] l l'.
Proof.
  intros Hne Hh H0 H1. assert (∃ l1, (if decide (Z.of_nat h0 ≠ Z.of_nat h1) then recommitLostBlocks get (Z.of_nat h0) (u64 (Z.of_nat h1 - 1)) [r0] l else Ok l) = Ok l1 ∧
    db_at l1 r0 h1 ∧ only [r0] l l1) as (l1 & -> & Hl1 & Ho1).
  { case_decide as Hd.
    - rewrite u64_small by (unfold is_u64 in Hlen; lia). destruct (recommit_to [r0] l h0 h1) as (l1 & Hl1 & Hr & Ho); [apply NoDup_singleton|lia|by intros r ->%list_elem_of_singleton|].
      exists l1. split_and!; [done|by apply Hr, list_elem_of_singleton|done].
    - exists l. assert (h0 = h1) as -> by lia. split_and!; [done..|apply only_refl]. }
  rewrite bind_Ok_eq. destruct (recommit_to [r0; r1] l1 h1 (length blocks)) as (l' & -> & Hr & Ho).
  - apply NoDup_cons. split; [by intros ?%list_elem_of_singleton|apply NoDup_singleton].
  - lia.
  - intros r [->|Hr]%elem_of_cons; [done|]. apply list_elem_of_singleton in Hr as ->. eapply only_at; [done| |done]. by intros ?%list_elem_of_singleton.
  - exists l'. split_and!; [done|apply Hr; by left|apply Hr; right; by left|]. eapply only_trans; [|done]. eapply only_weaken; [|done]. clear. set_solver.
Qed.
Lemma recover_one l r h : (h ≤ length blocks)%nat → db_at l r h → ∃ l', recommitLostBlocks get (Z.of_nat h) (Z.of_nat (length blocks) - 1) [r] l = Ok l' ∧
  db_at l' r (length blocks) ∧ only [r] l l'.
Proof.
  intros Hh Hr. destruct (recommit_to [r] l h (length blocks)) as (l' & -> & Hr' & Ho); [apply NoDup_singleton|lia|by intros r' ->%list_elem_of_singleton|].
  exists l'. split_and!; [done|by apply Hr', list_elem_of_singleton|done].
Qed.

End recovery.

(** ** The history database keeps the promise, on blocks that are not lite *)

Section history.
Context {L : Type} `{!GoLevelDB L} `{!GoLevelDBLaws L}.
Context `{!ProtoMessage Envelope, !ProtoMessage Payload, !ProtoMessage ChannelHeader, !ProtoMessage Transaction}.
Context `{!ProtoMessage ChaincodeActionPayload, !ProtoMessage ProposalResponsePayload, !ProtoMessage ChaincodeAction}.
Context `{!ProtoMessage KVRWSet, !ProtoMessage HashedRWSet, !ProtoMessage TxReadWriteSet}.

Lemma savepoint_take (uss : list (list (option update))) h : (h ≤ length uss)%nat →
  savepoint (take h uss) = match h with O => None | S j => (λ us, NewHeight (Z.of_nat j) (BlockSerial.len us)) <$> uss !! j end.
Proof.
  intros Hh. unfold savepoint. destruct h as [|j]; [by rewrite take_0|]. destruct (lookup_lt_is_Some_2 uss j ltac:(lia)) as [us Hus].
  rewrite (take_S_r _ _ us) by done. rewrite last_snoc, Hus. cbn. do 2 f_equal. unfold BlockSerial.len. rewrite length_app, length_take. cbn. lia.
Qed.

Lemma history_recovers (blocks : list BlockAndPvtData) (uss : list (list (option update))) :
  chain_ok 0 (bp_Block <$> blocks) uss → is_u64 (Z.of_nat (length blocks)) → (∀ b, b ∈ blocks → takes_lite_path (bp_Block b) = Ok false) →
  recovers (R := historyDB L) blocks (λ h d, (h ≤ length blocks)%nat ∧ history_of d (take h uss)).
Proof.
  intros [Hl Hc] Hu Hfull. rewrite length_fmap in Hl. split.
  - intros h d last [Hh Hd] Hlast. cbn. unfold history_ShouldRecover. assert (Hsp := savepoint_take uss h ltac:(lia)).
    rewrite (GetLastSavepoint_history d (take h uss) Hd), bind_Ok_eq, Hsp.
    + destruct h as [|j]; [done|]. destruct (lookup_lt_is_Some_2 uss j ltac:(lia)) as [us Hus]. rewrite Hus. cbn [fmap option_fmap option_map BlockNum].
      unfold is_u64 in Hu. rewrite u64_small by lia. do 2 f_equal; [|lia]. f_equal. apply bool_decide_ext. lia.
    + intros hh Hhh. rewrite Hsp in Hhh. destruct h as [|j]; [done|]. apply fmap_Some in Hhh as (us & Hus & ->).
      destruct (lookup_lt_is_Some_2 blocks j ltac:(lia)) as [b Hb].
      destruct (bo_height _ _ _ (Hc j (bp_Block b) us ltac:(by rewrite list_lookup_fmap, Hb) Hus)) as [H1 H2]. by split.
  - intros h d b lite [Hh Hd] Hb Hlite. rewrite (Hfull b) in Hlite by (by eapply list_elem_of_lookup_2). injection Hlite as <-. cbn. unfold history_CommitLostBlock.
    apply lookup_lt_Some in Hb as Hlt. destruct (lookup_lt_is_Some_2 uss h ltac:(lia)) as [us Hus].
    destruct (Commit_history d (take h uss) (bp_Block b) us Hd) as (d' & -> & _ & Hd').
    { rewrite length_take, Nat.min_l by lia. apply (Hc h); [by rewrite list_lookup_fmap, Hb|done]. }
    exists d'. split; [done|]. split; [lia|]. by rewrite (take_S_r _ _ us) by done.
Qed.
End history.

(** ** A sample: the state is one block behind, the history has nothing *)

Module recovery_sample.
#[local] Existing Instances sample.env_codec sample.payload_codec sample.chdr_codec sample.tx_codec sample.cap_codec sample.prp_codec sample.ca_codec sample.rw_codec sample.kv_codec sample.hashed_codec.

(** A database that is the list of what was committed to it. *)
#[local] Instance log_recoverable : recoverable (list BlockAndPvtData) := {
  ShouldRecover r last := Ok (negb (bool_decide (Z.of_nat (length r) = last + 1)), Z.of_nat (length r));
  CommitLostBlock r b := Ok (r ++ [b]);
  CommitLostLiteBlock r b := Ok (r ++ [b])
}.
Definition blocks : list BlockAndPvtData := (λ b, {| bp_Block := b; bp_PvtData := ∅ |}) <$> sample.blocks.
Definition get (n : Z) : res BlockAndPvtData := match blocks !! Z.to_nat n with Some b => Ok b | None => Err "no such block" end.
Lemma log_recovers : recovers blocks (λ h (r : list BlockAndPvtData), r = take h blocks ∧ (h ≤ length blocks)%nat).
Proof.
  split.
  - intros h r last [-> Hh] Hlast. cbn [ShouldRecover log_recoverable]. rewrite length_take, Nat.min_l by lia. by rewrite (bool_decide_ext (Z.of_nat h = Z.of_nat last + 1) (h = S last)) by lia.
  - intros h r b lite [-> Hh] Hb _. exists (take (S h) blocks). apply lookup_lt_Some in Hb as Hlt. rewrite (take_S_r _ _ b) by done. split; [by destruct lite|]. split; [done|lia].
Qed.
Lemma blocks_full b : b ∈ blocks → takes_lite_path (bp_Block b) = Ok false.
Proof. intros (b' & -> & Hb)%list_elem_of_fmap. unfold sample.blocks in Hb. rewrite !elem_of_cons, elem_of_nil in Hb. by destruct Hb as [->|[->|[]]]. Qed.
Definition ledger : kvLedger (list BlockAndPvtData) (historyDB (gmap bytes bytes)) :=
  {| l_txmgr := take 1 blocks; l_historyDB := Some sample.db; l_lastBlockInSnapshot := None |}.
End recovery_sample.
