(* ===== verification/HashCheck.v ===== *)
(** * Verification of reconciled private data

  Models core/ledger/kvledger/hashcheck_pvtdata.go: private data that other
  peers supply for old blocks is compared with the hashes in the blocks (or, for
  blocks before a snapshot, with the hashes kept from it), and keys that have
  been purged since are removed; also the lookup of the purge markers in the
  private data store (RemoveAppInitiatedPurgesUsingReconMarker of
  pvtdatastorage/store.go) and the removal of the data of invalid transactions
  (filterPvtDataOfInvalidTx of kv_ledger.go). The block store and the hashes of
  the snapshot are functions. *)

From S2P Require Import Prelude SortedMap Encoding Separated Version Proto Rwset LiteRwset LevelDB Block BatchPreparer PvtKeys.
From stdpp Require Import options.
Local Open Scope Z_scope.
Set Default Proof Using "Type*".

Notation kvHashMap := (gmap bytes (option bytes)).
Record ReconciledPvtdata := { rp_BlockNum : Z; rp_WriteSets : gmap Z TxPvtData }.

Section purge_markers.
Context {L : Type} `{!GoLevelDB L} (dbName : bytes) (db : L).

(** The body of the loop over the hashes. *)
Definition keep_unpurged (keyHt : Height) (ns coll : bytes) (trimmedKVHashes : kvHashMap) (kv : bytes * option bytes) : res kvHashMap :=
  let '(k, v) := kv in
  let potentialPurgeMarker := encodePurgeMarkerForReconKey {| pm_ns := ns; pm_coll := coll; pm_pvtkeyHash := k |} in
  encPurgeMarkerVal ← DBHandle_Get dbName db potentialPurgeMarker;
  match encPurgeMarkerVal with
  | None => Ok (<[k := v]> trimmedKVHashes)
  | Some encPurgeMarkerVal =>
      purgeMarkerHt ← decodePurgeMarkerVal encPurgeMarkerVal;
      if decide (Height_Compare keyHt purgeMarkerHt > 0) then Ok (<[k := v]> trimmedKVHashes) else Ok trimmedKVHashes
  end.
Definition RemoveAppInitiatedPurgesUsingReconMarker (kvHashes : kvHashMap) (ns coll : bytes) (blkNum txNum : Z) : res kvHashMap :=
  foldM (keep_unpurged (NewHeight blkNum txNum) ns coll) ∅ (map_to_list kvHashes).
End purge_markers.

Section hashcheck.
Context {L : Type} `{!GoLevelDB L} (dbName : bytes) (db : L).
Context `{!Sha256, !ProtoMessage KVRWSet}.

(** The loop over the supplied writes; [None] when a hash does not match. *)
Fixpoint match_writes (pvtKVs : list KVWrite) (trimmedKVHashes : kvHashMap) (finalPvtKVs : list KVWrite) : option (list KVWrite * kvHashMap) :=
  match pvtKVs with
  | [] => Some (finalPvtKVs, trimmedKVHashes)
  | kv :: pvtKVs =>
      let keyHash := ComputeSHA256 (kvw_Key kv) in
      match trimmedKVHashes !! keyHash with
      | None => match_writes pvtKVs trimmedKVHashes finalPvtKVs
      | Some expectedValueHash =>
          if decide (default [] expectedValueHash = ComputeSHA256 (default [] (kvw_Value kv)))
          then match_writes pvtKVs (delete keyHash trimmedKVHashes) (finalPvtKVs ++ [kv])
          else None
      end
  end.

(** The comparison key by key. *)
Definition trim_writes (coll : bytes) (pvtKVs : list KVWrite) (trimmedKVHashes : kvHashMap) : res (option CollectionPvtReadWriteSet) :=
  if decide (length pvtKVs < size trimmedKVHashes)%nat then Ok None
  else
    match match_writes pvtKVs trimmedKVHashes [] with
    | None => Ok None
    | Some (finalPvtKVs, trimmedKVHashes) =>
        if decide (0 < size trimmedKVHashes)%nat then Ok None
        else
          p ← CollPvtRwSet_ToProtoMsg {| cp_CollectionName := coll;
                cp_KvRwSet := Some {| Reads := []; RangeQueriesInfo := []; Writes := finalPvtKVs; MetadataWrites := [] |} |};
          Ok (Some p)
    end.

Definition validateAndRemovePurgedKeys (collPvtProto : CollectionPvtReadWriteSet) (kvHashes : kvHashMap) (collWSHashFromBlock : option bytes)
    (ns : bytes) (blkNum txNum : Z) : res (option CollectionPvtReadWriteSet) :=
  let coll := cpp_CollectionName collPvtProto in
  trimmedKVHashes ← RemoveAppInitiatedPurgesUsingReconMarker dbName db kvHashes ns coll blkNum txNum;
  if decide (size trimmedKVHashes = 0%nat) then Ok (Some {| cpp_CollectionName := coll; cpp_Rwset := [] |})
  else
    match CollPvtRwSetFromProtoMsg collPvtProto with
    | Panic => Panic
    | Err _ => Ok None
    | Ok collPvtWS =>
        kvRwSet ← deref (cp_KvRwSet collPvtWS);
        let pvtKVs := Writes kvRwSet in
        match collWSHashFromBlock with
        | Some wsHash =>
            if decide (size trimmedKVHashes = size kvHashes ∧ length pvtKVs = size kvHashes) then
              if decide (ComputeSHA256 (cpp_Rwset collPvtProto) = wsHash) then Ok (Some collPvtProto) else Ok None
            else trim_writes coll pvtKVs trimmedKVHashes
        | None => trim_writes coll pvtKVs trimmedKVHashes
        end
    end.

(** ** The expected hashes *)

Definition coll_kv_hashes (h : HashedRWSet) : kvHashMap :=
  foldl (λ kvHashes w, <[wh_KeyHash w := wh_ValueHash w]> kvHashes) ∅ (HashedWrites h).
(** The first entry of the collection in any entry of the namespace. *)
Fixpoint coll_entry (l : list CollHashedRwSet) (coll : bytes) : option CollHashedRwSet :=
  match l with
  | [] => None
  | c :: l => if decide (ch_CollectionName c = coll) then Some c else coll_entry l coll
  end.
Fixpoint ns_coll_entry (l : list NsRwSet) (ns coll : bytes) : option CollHashedRwSet :=
  match l with
  | [] => None
  | n :: l =>
      if decide (NameSpace n = ns) then
        match coll_entry (CollHashedRwSets n) coll with Some c => Some c | None => ns_coll_entry l ns coll end
      else ns_coll_entry l ns coll
  end.
(** The nil map is empty. *)
Definition retrieveCollKVHashes (txRWSet : TxRwSet) (ns coll : bytes) : res kvHashMap :=
  match ns_coll_entry (NsRwSets txRWSet) ns coll with
  | None => Ok ∅
  | Some c => h ← deref (HashedRwSet c); Ok (coll_kv_hashes h)
  end.

Context `{!ProtoMessage Payload, !ProtoMessage Transaction, !ProtoMessage ChaincodeActionPayload, !ProtoMessage ProposalResponsePayload}.
Context `{!ProtoMessage ChaincodeAction, !ProtoMessage HashedRWSet, !ProtoMessage TxReadWriteSet}.
Context (RetrieveTxByBlockNumTranNum : Z → Z → res Envelope).

Definition retrieveRwsetForLtx (blkNum txNum : Z) : res TxRwSet :=
  txEnvelope ← RetrieveTxByBlockNumTranNum blkNum txNum;
  leanEnv ← deref (env_LeanEnv txEnvelope);
  results ← deref (le_Results leanEnv);
  rwset ← GetNsRwSetFromLtx (lt_NsRwset results);
  Ok {| NsRwSets := rwset |}.
Definition retrieveRwsetForTx (blkNum txNum : Z) : res TxRwSet :=
  txEnvelope ← RetrieveTxByBlockNumTranNum blkNum txNum;
  match env_LeanEnv txEnvelope with
  | Some _ => retrieveRwsetForLtx blkNum txNum
  | None =>
      responsePayload ← GetActionFromEnvelopeMsg txEnvelope;
      TxRwSet_FromProtoBytes (ca_Results responsePayload)
  end.

(** ** The blocks *)

Context (FetchBootKVHashes : Z → Z → bytes → bytes → res kvHashMap) (lastBlockInBootSnapshot : Z).

(** The hashes of the writes of a collection and the hash of its write set. *)
Definition expected_hashes (blkNum txNum : Z) (ns coll : bytes) : res (kvHashMap * option bytes) :=
  if decide (blkNum > lastBlockInBootSnapshot) then
    txRWSet ← retrieveRwsetForTx blkNum txNum;
    kvHashes ← retrieveCollKVHashes txRWSet ns coll;
    Ok (kvHashes, GetPvtDataHash txRWSet ns coll)
  else
    kvHashes ← FetchBootKVHashes blkNum txNum ns coll;
    Ok (kvHashes, None).

(** The bodies of the loops over collections, namespaces and transactions. *)
Definition extract_coll (blkNum txNum : Z) (ns : bytes) (finalCollsWrites : list CollectionPvtReadWriteSet) (collPvtdata : CollectionPvtReadWriteSet) :
    res (list CollectionPvtReadWriteSet) :=
  '(kvHashes, pvtWSHashFromBlock) ← expected_hashes blkNum txNum ns (cpp_CollectionName collPvtdata);
  if decide (size kvHashes = 0%nat) then Ok finalCollsWrites
  else
    finalCollWs ← validateAndRemovePurgedKeys collPvtdata kvHashes pvtWSHashFromBlock ns blkNum txNum;
    match finalCollWs with None => Ok finalCollsWrites | Some finalCollWs => Ok (finalCollsWrites ++ [finalCollWs]) end.
Definition extract_ns (blkNum txNum : Z) (finalNsWrites : list NsPvtReadWriteSet) (nsPvtdata : NsPvtReadWriteSet) : res (list NsPvtReadWriteSet) :=
  finalCollsWrites ← foldM (extract_coll blkNum txNum (npp_Namespace nsPvtdata)) [] (npp_CollectionPvtRwset nsPvtdata);
  if decide (finalCollsWrites = []) then Ok finalNsWrites
  else Ok (finalNsWrites ++ [{| npp_Namespace := npp_Namespace nsPvtdata; npp_CollectionPvtRwset := finalCollsWrites |}]).
Definition extract_tx (blkNum : Z) (validPvtData : list TxPvtData) (tx : Z * TxPvtData) : res (list TxPvtData) :=
  let '(txNum, txPvtdata) := tx in
  let nsPvtRwset := match pd_WriteSet txPvtdata with Some ws => tpp_NsPvtRwset ws | None => [] end in
  finalNsWrites ← foldM (extract_ns blkNum txNum) [] nsPvtRwset;
  if decide (finalNsWrites = []) then Ok validPvtData
  else
    ws ← deref (pd_WriteSet txPvtdata);
    Ok (validPvtData ++ [{| SeqInBlock := txNum; pd_WriteSet := Some {| tpp_DataModel := tpp_DataModel ws; tpp_NsPvtRwset := finalNsWrites |} |}]).
Definition extractValidPvtDataForBlock (blkPvtdata : ReconciledPvtdata) : res (list TxPvtData) :=
  foldM (extract_tx (rp_BlockNum blkPvtdata)) [] (map_to_list (rp_WriteSets blkPvtdata)).
Definition extractValidPvtData (reconciledPvtdata : list ReconciledPvtdata) : res (gmap Z (list TxPvtData)) :=
  foldM (λ validPvtData blkPvtdata,
      validData ← extractValidPvtDataForBlock blkPvtdata;
      if decide (validData = []) then Ok validPvtData else Ok (<[rp_BlockNum blkPvtdata := validData]> validPvtData))
    ∅ reconciledPvtdata.

(** ** Invalid transactions *)

Context (RetrieveBlockByNumber : Z → res Block).
Definition filter_block (committedPvtData : gmap Z (list TxPvtData)) (blk : Z * list TxPvtData) : res (gmap Z (list TxPvtData)) :=
  let '(blkNum, txsPvtData) := blk in
  if decide (blkNum ≤ lastBlockInBootSnapshot) then Ok (<[blkNum := txsPvtData]> committedPvtData)
  else
    block ← RetrieveBlockByNumber blkNum;
    metadata ← deref (b_Metadata block);
    blockValidationFlags ← index metadata BlockMetadataIndex_TRANSACTIONS_FILTER;
    blksPvtData ← foldM (λ blksPvtData pvtData,
        valid ← ValidationFlags_IsValid blockValidationFlags (Z.to_nat (SeqInBlock pvtData));
        if (valid : bool) then Ok (blksPvtData ++ [pvtData]) else Ok blksPvtData) [] txsPvtData;
    Ok (<[blkNum := blksPvtData]> committedPvtData).
Definition filterPvtDataOfInvalidTx (hashVerifiedPvtData : gmap Z (list TxPvtData)) : res (gmap Z (list TxPvtData)) :=
  foldM filter_block ∅ (map_to_list hashVerifiedPvtData).
End hashcheck.

(** ** Purge markers *)

Section markers.
Context {L : Type} `{!GoLevelDB L} (dbName : bytes) (db : L).

(** The key was purged at or after the height. *)
Definition is_purged (keyHt : Height) (ns coll k : bytes) : bool :=
  match DBHandle_Get dbName db (encodePurgeMarkerForReconKey {| pm_ns := ns; pm_coll := coll; pm_pvtkeyHash := k |}) with
  | Ok (Some b) => match decodePurgeMarkerVal b with Ok ht => bool_decide (Height_Compare keyHt ht ≤ 0) | _ => false end
  | _ => false
  end.
Definition unpurged (keyHt : Height) (ns coll : bytes) (kvHashes : kvHashMap) : kvHashMap :=
  filter (λ kv, is_purged keyHt ns coll kv.1 = false) kvHashes.

Lemma keep_unpurged_spec keyHt ns coll m k v m' : keep_unpurged dbName db keyHt ns coll m (k, v) = Ok m' →
  m' = if is_purged keyHt ns coll k then m else <[k := v]> m.
Proof.
  unfold keep_unpurged, is_purged. destruct (DBHandle_Get _ _ _) as [[b|]| |]; cbn; [|by intros [= <-]|done..].
  destruct (decodePurgeMarkerVal b) as [ht| |]; cbn; [|done..]. case_decide; case_bool_decide; try lia; by intros [= <-].
Qed.
Lemma keep_unpurged_fold keyHt ns coll (l : list (bytes * option bytes)) : ∀ m m', NoDup l.*1 →
  foldM (keep_unpurged dbName db keyHt ns coll) m l = Ok m' →
  ∀ k, m' !! k = match (list_to_map l : kvHashMap) !! k with Some v => if is_purged keyHt ns coll k then m !! k else Some v | None => m !! k end.
Proof.
  induction l as [|[k v] l IH]; cbn [foldM fmap list_fmap fst]; intros m m' Hnd Hf k'; [by injection Hf as <-|]. apply NoDup_cons in Hnd as [Hk Hnd].
  apply bind_Ok in Hf as (m1 & Hm1%keep_unpurged_spec & Hf). rewrite (IH m1 m' Hnd Hf k'). apply not_elem_of_list_to_map_1 in Hk. cbn [list_to_map foldr uncurry fst snd].
  destruct (decide (k = k')) as [<-|Hne].
  - rewrite Hk, lookup_insert_eq. subst m1. destruct (is_purged _ _ _ k); [done|]. by rewrite lookup_insert_eq.
  - rewrite lookup_insert_ne by done. assert (m1 !! k' = m !! k') as -> by (subst m1; destruct (is_purged _ _ _ k); [done|by rewrite lookup_insert_ne]). done.
Qed.
Lemma RemoveAppInitiatedPurges_spec kvHashes ns coll blkNum txNum trimmed :
  RemoveAppInitiatedPurgesUsingReconMarker dbName db kvHashes ns coll blkNum txNum = Ok trimmed → trimmed = unpurged (NewHeight blkNum txNum) ns coll kvHashes.
Proof.
  intros H. apply map_eq. intros k. rewrite (keep_unpurged_fold _ _ _ _ _ _ (NoDup_fst_map_to_list _) H k), list_to_map_to_list, lookup_empty.
  unfold unpurged. rewrite map_lookup_filter. destruct (kvHashes !! k) as [v|]; cbn; [|done]. by destruct (is_purged _ _ _ k).
Qed.
End markers.

(** ** Matching writes with hashes *)

Section matching.
Context `{!Sha256}.
Definition write_hash (w : KVWrite) : bytes * bytes := (ComputeSHA256 (kvw_Key w), ComputeSHA256 (default [] (kvw_Value w))).
(** The hashes of the keys and values of a write set. *)
Definition write_hashes (ws : list KVWrite) : gmap bytes bytes := list_to_map (write_hash <$> ws).
Definition key_hashes (ws : list KVWrite) : list bytes := (λ w, ComputeSHA256 (kvw_Key w)) <$> ws.

Lemma match_writes_spec pvtKVs : ∀ (trimmed : kvHashMap) acc final rest, match_writes pvtKVs trimmed acc = Some (final, rest) →
  ∃ ws, final = acc ++ ws ∧ ws `sublist_of` pvtKVs ∧ NoDup (key_hashes ws) ∧
    default [] <$> trimmed = write_hashes ws ∪ (default [] <$> rest) ∧ rest ⊆ trimmed ∧ ∀ k, k ∈ key_hashes ws → is_Some (trimmed !! k).
Proof.
  induction pvtKVs as [|w l IH]; intros trimmed acc final rest; cbn [match_writes].
  { intros [= <- <-]. exists []. change (write_hashes []) with (∅ : gmap bytes bytes). split_and!; [by rewrite app_nil_r|done|by apply NoDup_nil|by rewrite map_empty_union|done|by intros k ?%not_elem_of_nil]. }
  destruct (trimmed !! ComputeSHA256 (kvw_Key w)) as [e|] eqn:E.
  2:{ intros (ws & -> & ? & ? & ? & ? & ?)%IH. exists ws. split_and!; [done|by apply sublist_cons|done..]. }
  case_decide as Hv; [|done]. intros (ws & -> & Hs & Hnd & Heq & Hsub & Hk)%IH. exists (w :: ws).
  assert (ComputeSHA256 (kvw_Key w) ∉ key_hashes ws) as Hnot by (intros [? Hin]%Hk; by rewrite lookup_delete_eq in Hin).
  split_and!; [by rewrite <-app_assoc|by apply sublist_skip|by apply NoDup_cons| | |].
  - assert (write_hashes (w :: ws) = <[ComputeSHA256 (kvw_Key w) := default [] e]> (write_hashes ws)) as -> by (by rewrite Hv).
    rewrite <-insert_union_l, <-Heq, fmap_delete, insert_delete_eq. symmetry. apply insert_id. by rewrite lookup_fmap, E.
  - etrans; [done|]. apply delete_subseteq.
  - intros k [->|[x Hx]%Hk]%elem_of_cons; [by rewrite E|]. apply lookup_delete_Some in Hx as [_ ?]. eauto.
Qed.
End matching.

(** ** What is let through *)

Section verified.
Context {L : Type} `{!GoLevelDB L} (dbName : bytes) (db : L) `{!Sha256, !ProtoMessage KVRWSet}.

(** [c'] is let through for the supplied [c]: all keys have been purged, and
    [c'] is empty; or none has been purged and [c] is the write set whose hash is
    in the block; or [c'] has, of the supplied writes, one of each key
    that has not been purged, with the value of the expected hash. *)
Inductive verified (expected : kvHashMap) (wsHash : option bytes) (keyHt : Height) (ns : bytes) (c : CollectionPvtReadWriteSet) : CollectionPvtReadWriteSet → Prop :=
  | all_purged : unpurged dbName db keyHt ns (cpp_CollectionName c) expected = ∅ →
      verified expected wsHash keyHt ns c {| cpp_CollectionName := cpp_CollectionName c; cpp_Rwset := [] |}
  | none_purged : unpurged dbName db keyHt ns (cpp_CollectionName c) expected = expected → wsHash = Some (ComputeSHA256 (cpp_Rwset c)) →
      verified expected wsHash keyHt ns c c
  | some_purged kv ws rwset : Unmarshal (A := KVRWSet) (cpp_Rwset c) = Ok kv → ws `sublist_of` Writes kv → NoDup (key_hashes ws) →
      write_hashes ws = default [] <$> unpurged dbName db keyHt ns (cpp_CollectionName c) expected →
      Marshal {| Reads := []; RangeQueriesInfo := []; Writes := ws; MetadataWrites := [] |} = Ok rwset →
      verified expected wsHash keyHt ns c {| cpp_CollectionName := cpp_CollectionName c; cpp_Rwset := rwset |}.

Lemma unpurged_subseteq keyHt ns coll m : unpurged dbName db keyHt ns coll m ⊆ m.
Proof. apply map_filter_subseteq. Qed.

Lemma trim_writes_verified c kv expected wsHash keyHt ns c' : Unmarshal (A := KVRWSet) (cpp_Rwset c) = Ok kv →
  trim_writes (cpp_CollectionName c) (Writes kv) (unpurged dbName db keyHt ns (cpp_CollectionName c) expected) = Ok (Some c') → verified expected wsHash keyHt ns c c'.
Proof.
  intros Hkv. unfold trim_writes. case_decide; [done|]. destruct (match_writes _ _ _) as [[final rest]|] eqn:E; [|done]. case_decide as Hrest; [done|].
  apply match_writes_spec in E as (ws & -> & Hs & Hnd & Heq & _). intros (p & Hp & [= <-])%bind_Ok.
  assert (rest = ∅) as -> by (apply map_size_empty_inv; lia). rewrite fmap_empty, map_union_empty in Heq.
  apply bind_Ok in Hp as (rwset & Hm & [= <-]). by eapply some_purged.
Qed.
Lemma validateAndRemovePurgedKeys_verified c expected wsHash ns blkNum txNum c' :
  validateAndRemovePurgedKeys dbName db c expected wsHash ns blkNum txNum = Ok (Some c') → verified expected wsHash (NewHeight blkNum txNum) ns c c'.
Proof.
  intros (trimmed & ->%RemoveAppInitiatedPurges_spec & Hrun)%bind_Ok. case_decide as H0.
  { injection Hrun as <-. constructor. by apply map_size_empty_inv. }
  destruct (CollPvtRwSetFromProtoMsg c) as [cw| |] eqn:Ec; [|done..]. apply bind_Ok in Ec as (kv & Hkv & [= <-]). cbn [cp_KvRwSet deref] in Hrun. rewrite bind_Ok_eq in Hrun.
  destruct wsHash as [wsHash|]; [|by eapply trim_writes_verified]. case_decide as Hsz; [|by eapply trim_writes_verified].
  case_decide as Hh; [|done]. injection Hrun as <-. apply none_purged; [|by rewrite Hh]. destruct Hsz as [Hsz _].
  apply map_subseteq_size_eq; [apply unpurged_subseteq|by rewrite Hsz].
Qed.
End verified.

Lemma foldM_collects {A B} (f : list B → A → res (list B)) (R : A → B → Prop) l : ∀ acc out,
  (∀ acc x acc' y, x ∈ l → f acc x = Ok acc' → y ∈ acc' → y ∈ acc ∨ R x y) → foldM f acc l = Ok out →
  ∀ y, y ∈ out → y ∈ acc ∨ ∃ x, x ∈ l ∧ R x y.
Proof.
  induction l as [|x l IH]; intros acc out Hf; cbn [foldM]; [intros [= <-]; auto|]. intros (acc' & Hx & Hl)%bind_Ok y Hy.
  destruct (IH acc' out) with (y := y) as [Hin|(x' & ? & ?)]; [intros; eapply Hf; [by right|done..]|done|done| |right; exists x'; split; [by right|done]].
  destruct (Hf acc x acc' y) as [?|?]; [by left|done|done|by left|right; exists x; split; [by left|done]].
Qed.

Section extraction.
Context {L : Type} `{!GoLevelDB L} (dbName : bytes) (db : L) `{!Sha256, !ProtoMessage KVRWSet}.
Context `{!ProtoMessage Payload, !ProtoMessage Transaction, !ProtoMessage ChaincodeActionPayload, !ProtoMessage ProposalResponsePayload}.
Context `{!ProtoMessage ChaincodeAction, !ProtoMessage HashedRWSet, !ProtoMessage TxReadWriteSet}.
Context (retrieveTx : Z → Z → res Envelope) (bootHashes : Z → Z → bytes → bytes → res kvHashMap) (last : Z) (retrieveBlock : Z → res Block).

(** A collection that is let through, with the expected hashes. *)
Definition coll_verified (blkNum txNum : Z) (ns : bytes) (c c' : CollectionPvtReadWriteSet) : Prop :=
  ∃ expected wsHash, expected_hashes retrieveTx bootHashes last blkNum txNum ns (cpp_CollectionName c) = Ok (expected, wsHash) ∧ expected ≠ ∅ ∧
    verified dbName db expected wsHash (NewHeight blkNum txNum) ns c c'.
Definition ns_verified (blkNum txNum : Z) (n n' : NsPvtReadWriteSet) : Prop :=
  npp_Namespace n' = npp_Namespace n ∧
  ∀ c', c' ∈ npp_CollectionPvtRwset n' → ∃ c, c ∈ npp_CollectionPvtRwset n ∧ coll_verified blkNum txNum (npp_Namespace n) c c'.
Definition tx_verified (blkNum : Z) (d d' : TxPvtData) : Prop :=
  ∃ ws ws', pd_WriteSet d = Some ws ∧ pd_WriteSet d' = Some ws' ∧ tpp_DataModel ws' = tpp_DataModel ws ∧
    ∀ n', n' ∈ tpp_NsPvtRwset ws' → ∃ n, n ∈ tpp_NsPvtRwset ws ∧ ns_verified blkNum (SeqInBlock d') n n'.

Notation extract_coll := (extract_coll dbName db retrieveTx bootHashes last).
Notation extract_ns := (extract_ns dbName db retrieveTx bootHashes last).
Notation extract_tx := (extract_tx dbName db retrieveTx bootHashes last).

Lemma extract_coll_verified blkNum txNum ns acc c acc' c' : extract_coll blkNum txNum ns acc c = Ok acc' → c' ∈ acc' → c' ∈ acc ∨ coll_verified blkNum txNum ns c c'.
Proof.
  unfold HashCheck.extract_coll. intros ([expected wsHash] & He & Hrun)%bind_Ok. case_decide as H0; [injection Hrun as <-; auto|].
  apply bind_Ok in Hrun as ([c1|] & Hv & [= <-]); [|auto]. rewrite elem_of_app, list_elem_of_singleton. intros [?| ->]; [by left|right].
  exists expected, wsHash. split; [done|]. split; [|by apply validateAndRemovePurgedKeys_verified]. intros ->. by rewrite map_size_empty in H0.
Qed.
Lemma extract_ns_verified blkNum txNum acc n acc' n' : extract_ns blkNum txNum acc n = Ok acc' → n' ∈ acc' → n' ∈ acc ∨ ns_verified blkNum txNum n n'.
Proof.
  unfold HashCheck.extract_ns. intros (colls & Hc & Hrun)%bind_Ok. case_decide; injection Hrun as <-; [auto|].
  rewrite elem_of_app, list_elem_of_singleton. intros [?| ->]; [by left|right]. split; [done|]. cbn. intros c' Hin.
  eapply foldM_collects in Hin as [[]%not_elem_of_nil|?]; [done| |exact Hc]. intros; by eapply extract_coll_verified.
Qed.
Lemma extract_tx_verified blkNum acc txNum d acc' d' : extract_tx blkNum acc (txNum, d) = Ok acc' → d' ∈ acc' → d' ∈ acc ∨ SeqInBlock d' = txNum ∧ tx_verified blkNum d d'.
Proof.
  unfold HashCheck.extract_tx. intros (nss & Hn & Hrun)%bind_Ok. case_decide; [injection Hrun as <-; auto|].
  destruct (pd_WriteSet d) as [ws|] eqn:Ews; [|done]. cbn [deref] in Hrun. rewrite bind_Ok_eq in Hrun. injection Hrun as <-.
  rewrite elem_of_app, list_elem_of_singleton. intros [?| ->]; [by left|right]. split; [done|]. eexists ws, _. split_and!; [done..|]. cbn. intros n' Hin.
  eapply foldM_collects in Hin as [[]%not_elem_of_nil|?]; [done| |exact Hn]. intros; by eapply extract_ns_verified.
Qed.
Lemma extract_block_verified rp out d' : extractValidPvtDataForBlock dbName db retrieveTx bootHashes last rp = Ok out → d' ∈ out →
  ∃ d, rp_WriteSets rp !! SeqInBlock d' = Some d ∧ tx_verified (rp_BlockNum rp) d d'.
Proof.
  intros Hrun Hin. eapply (foldM_collects _ (λ x d', SeqInBlock d' = x.1 ∧ tx_verified (rp_BlockNum rp) x.2 d')) in Hin as [[]%not_elem_of_nil|([k d] & Hkd & Hk & Hv)];
    [|..|exact Hrun].
  - exists d. cbn in Hk, Hv. subst k. by apply elem_of_map_to_list in Hkd.
  - intros acc [k d] acc' y _. apply extract_tx_verified.
Qed.
Lemma extract_verified rps : ∀ m out : gmap Z (list TxPvtData), foldM (λ validPvtData blkPvtdata,
      validData ← extractValidPvtDataForBlock dbName db retrieveTx bootHashes last blkPvtdata;
      if decide (validData = []) then Ok validPvtData else Ok (<[rp_BlockNum blkPvtdata := validData]> validPvtData)) m rps = Ok out →
  ∀ b txs, out !! b = Some txs → m !! b = Some txs ∨ ∃ rp, rp ∈ rps ∧ rp_BlockNum rp = b ∧
    ∀ d', d' ∈ txs → ∃ d, rp_WriteSets rp !! SeqInBlock d' = Some d ∧ tx_verified b d d'.
Proof.
  induction rps as [|rp rps IH]; cbn [foldM]; intros m out; [intros [= <-]; auto|]. intros (m1 & Hrun & Hrest)%bind_Ok b txs Hb.
  destruct (IH m1 out Hrest b txs Hb) as [Hm1|(rp' & ? & ?)]; [|right; exists rp'; split; [by right|done]]. apply bind_Ok in Hrun as (data & Hd & Hrun).
  case_decide; injection Hrun as <-; [auto|]. apply lookup_insert_Some in Hm1 as [[<- <-]|[_ ?]]; [right|by left]. exists rp. split; [by left|]. split; [done|].
  intros d' Hin. by eapply extract_block_verified.
Qed.

(** The transaction was found valid when its block was committed. *)
Definition tx_valid (blkNum txNum : Z) : Prop :=
  ∃ block metadata flags, retrieveBlock blkNum = Ok block ∧ b_Metadata block = Some metadata ∧
    index metadata BlockMetadataIndex_TRANSACTIONS_FILTER = Ok flags ∧ ValidationFlags_IsValid flags (Z.to_nat txNum) = Ok true.

Lemma filter_block_valid m b txs m' : filter_block last retrieveBlock m (b, txs) = Ok m' →
  ∃ txs', m' = <[b := txs']> m ∧ ∀ d, d ∈ txs' → d ∈ txs ∧ (b > last → tx_valid b (SeqInBlock d)).
Proof.
  unfold filter_block. case_decide as Hb; [intros [= <-]; exists txs; split; [done|]; intros d ?; split; [done|lia]|].
  intros (block & Hblock & (metadata & Hmeta & (flags & Hflags & (kept & Hkept & [= <-])%bind_Ok)%bind_Ok)%bind_Ok)%bind_Ok.
  exists kept. split; [done|]. intros d Hd.
  eapply (foldM_collects _ (λ x y, y = x ∧ ValidationFlags_IsValid flags (Z.to_nat (SeqInBlock x)) = Ok true)) in Hd as [[]%not_elem_of_nil|(? & ? & -> & Hval)]; [| |exact Hkept].
  - split; [done|]. intros _. exists block, metadata, flags. destruct (b_Metadata block); [|done]. by injection Hmeta as <-.
  - intros acc x acc' y _ (v & Hval & Hacc)%bind_Ok. destruct v; injection Hacc as <-; [|auto]. rewrite elem_of_app, list_elem_of_singleton. intros [?| ->]; auto.
Qed.
Lemma filter_blocks_valid (l : list (Z * list TxPvtData)) : ∀ m m' : gmap Z (list TxPvtData), foldM (filter_block last retrieveBlock) m l = Ok m' →
  ∀ b txs', m' !! b = Some txs' → m !! b = Some txs' ∨ ∃ txs, (b, txs) ∈ l ∧ ∀ d, d ∈ txs' → d ∈ txs ∧ (b > last → tx_valid b (SeqInBlock d)).
Proof.
  induction l as [|[b0 txs0] l IH]; cbn [foldM]; intros m m'; [intros [= <-]; auto|]. intros (m1 & (txs1 & -> & Hv)%filter_block_valid & Hl)%bind_Ok b txs' Hb.
  destruct (IH _ _ Hl b txs' Hb) as [Hm|(txs & ? & ?)]; [|right; exists txs; split; [by right|done]].
  apply lookup_insert_Some in Hm as [[<- <-]|[_ ?]]; [right; exists txs0; split; [by left|done]|by left].
Qed.

(** C0: only verified private data of valid transactions is reconciled.
    Whatever other peers supply, every collection that reaches the state belongs
    to a supplied collection of the same transaction and namespace for which the
    block (or the snapshot) has hashes, and it is empty because all its keys have
    been purged, or it is the endorsed write set (its hash is in the block and
    none of its keys has been purged), or it consists of supplied writes, one for
    each key of the block that has not been purged, each with the committed
    value hash. No key that was purged at or after the block comes back. For
    blocks after the snapshot the transaction is valid in its block. *)
Theorem reconciled_data_verified (supplied : list ReconciledPvtdata) data committed b txs d
    (Hextract : extractValidPvtData dbName db retrieveTx bootHashes last supplied = Ok data)
    (Hfilter : filterPvtDataOfInvalidTx last retrieveBlock data = Ok committed)
    (Hb : committed !! b = Some txs) (Hd : d ∈ txs) :
  (b > last → tx_valid b (SeqInBlock d)) ∧
  ∃ rp d0, rp ∈ supplied ∧ rp_BlockNum rp = b ∧ rp_WriteSets rp !! SeqInBlock d = Some d0 ∧ tx_verified b d0 d.
Proof.
  destruct (filter_blocks_valid _ _ _ Hfilter b txs Hb) as [Hnone|(txs0 & Hin%elem_of_map_to_list & Hv)]; [by rewrite lookup_empty in Hnone|].
  destruct (Hv d Hd) as [Hd0 Hvalid]. split; [done|].
  destruct (extract_verified _ _ _ Hextract b txs0 Hin) as [Hnone|(rp & ? & ? & Hall)]; [by rewrite lookup_empty in Hnone|].
  destruct (Hall d Hd0) as (d0 & ? & ?). by exists rp, d0.
Qed.
End extraction.
