(* ===== verification/Reconcile.v ===== *)
(** * Reconciled private data

  Models the part of txmgmt/txmgr/lockbased_txmgr.go that puts private data of
  old blocks, which reaches a peer after their commit, into the state: of every
  key the newest supplied write is kept, it is dropped if the committed hash of
  the key says that it is no longer current, and the rest is applied. The purge
  manager that notes the expiry of the new keys is a parameter. *)

From S2P Require Import Prelude SortedMap Version Proto Rwset StateDB LevelDB StateLevelDB PrivState BatchPreparer.
From stdpp Require Import options.
Local Open Scope Z_scope.
Set Default Proof Using "Type*".

(** [PvtKVWrite] of privacyenabledstate/types.go. *)
Record PvtKVWrite := { pkw_Key : bytes; pkw_IsDelete : bool; pkw_Value : option bytes; pkw_Version : option Height }.
Notation uniquePvtDataMap := (gmap HashedCompositeKey PvtKVWrite).

Section reconcile.
Context `{!Sha256, !ProtoMessage KVRWSet}.

(** ** The newest write of every key *)

Definition newPvtKVWrite (pvtWrite : KVWrite) (ver : Height) : PvtKVWrite :=
  {| pkw_Key := kvw_Key pvtWrite; pkw_IsDelete := IsKVWriteDelete pvtWrite; pkw_Value := kvw_Value pvtWrite; pkw_Version := Some ver |}.
Definition updateUsingPvtWrite (uniquePvtData : uniquePvtDataMap) (pvtWrite : KVWrite) (hashedCompositeKey : HashedCompositeKey) (ver : Height) :
    res uniquePvtDataMap :=
  match uniquePvtData !! hashedCompositeKey with
  | None => Ok (<[hashedCompositeKey := newPvtKVWrite pvtWrite ver]> uniquePvtData)
  | Some pvtData =>
      v ← deref (pkw_Version pvtData);
      if decide (Height_Compare v ver < 0) then Ok (<[hashedCompositeKey := newPvtKVWrite pvtWrite ver]> uniquePvtData)
      else Ok uniquePvtData
  end.

Definition hashed_key (ns coll key : bytes) : HashedCompositeKey :=
  {| hck_Namespace := ns; hck_CollectionName := coll; hck_KeyHash := ComputeStringHash key |}.
Definition updateUsingCollPvtData (ns : bytes) (ver : Height) (uniquePvtData : uniquePvtDataMap) (collPvtData : CollectionPvtReadWriteSet) :
    res uniquePvtDataMap :=
  kvRWSet ← Unmarshal (A := KVRWSet) (cpp_Rwset collPvtData);
  foldM (λ uniquePvtData kvWrite,
      updateUsingPvtWrite uniquePvtData kvWrite (hashed_key ns (cpp_CollectionName collPvtData) (kvw_Key kvWrite)) ver)
    uniquePvtData (Writes kvRWSet).
Definition updateUsingNsPvtData (ver : Height) (uniquePvtData : uniquePvtDataMap) (nsPvtData : NsPvtReadWriteSet) : res uniquePvtDataMap :=
  foldM (updateUsingCollPvtData (npp_Namespace nsPvtData) ver) uniquePvtData (npp_CollectionPvtRwset nsPvtData).
Definition updateUsingTxPvtData (ver : Height) (uniquePvtData : uniquePvtDataMap) (txPvtData : TxPvtData) : res uniquePvtDataMap :=
  writeSet ← deref (pd_WriteSet txPvtData);
  foldM (updateUsingNsPvtData ver) uniquePvtData (tpp_NsPvtRwset writeSet).
Definition updateUsingBlockPvtdata (blkNum : Z) (uniquePvtData : uniquePvtDataMap) (blockPvtData : list TxPvtData) : res uniquePvtDataMap :=
  foldM (λ uniquePvtData txPvtData, updateUsingTxPvtData (NewHeight blkNum (SeqInBlock txPvtData)) uniquePvtData txPvtData)
    uniquePvtData blockPvtData.
Definition constructUniquePvtData (reconciledPvtdata : gmap Z (list TxPvtData)) : res uniquePvtDataMap :=
  foldM (λ uniquePvtData '(blkNum, blockPvtData), updateUsingBlockPvtdata blkNum uniquePvtData blockPvtData)
    ∅ (map_to_list reconciledPvtdata).

(** ** Staleness *)

Context {DB I L : Type} `{!VersionedDB DB I} `{!GoLevelDB L}.
Notation PrivDB := (PrivDB DB L).

Definition loadCommittedVersionIntoCache (uniquePvtData : uniquePvtDataMap) (db : PrivDB) : res PrivDB :=
  LoadCommittedVersionsOfPubAndHashedKeys db [] (map_to_list uniquePvtData).*1.

(** The second component is the write, whose version the function may change. *)
Definition checkIfPvtWriteIsStale (hashedKey : HashedCompositeKey) (kvWrite : PvtKVWrite) (db : PrivDB) : res (bool * PvtKVWrite) :=
  let ns := hck_Namespace hashedKey in
  let coll := hck_CollectionName hashedKey in
  let keyHashBytes := hck_KeyHash hashedKey in
  committedVersion ← GetKeyHashVersion db ns coll keyHashBytes;
  match committedVersion with
  | None => Ok (negb (pkw_IsDelete kvWrite), kvWrite)
  | Some _ =>
      if AreSame committedVersion (pkw_Version kvWrite) then Ok (false, kvWrite)
      else
        vv ← GetValueHash db ns coll keyHashBytes;
        vv ← deref vv;
        if decide (default [] (Value vv) = ComputeHash (default [] (pkw_Value kvWrite)))
        then Ok (false, {| pkw_Key := pkw_Key kvWrite; pkw_IsDelete := pkw_IsDelete kvWrite; pkw_Value := pkw_Value kvWrite;
                           pkw_Version := vv_Version vv |})
        else Ok (true, kvWrite)
  end.

Definition findAndRemoveStalePvtData (uniquePvtData : uniquePvtDataMap) (db : PrivDB) : res (uniquePvtDataMap * PrivDB) :=
  db ← loadCommittedVersionIntoCache uniquePvtData db;
  uniquePvtData ← foldM (λ uniquePvtData '(hashedCompositeKey, pvtWrite),
      '(isStale, pvtWrite) ← checkIfPvtWriteIsStale hashedCompositeKey pvtWrite db;
      if (isStale : bool) then Ok (delete hashedCompositeKey uniquePvtData)
      else Ok (<[hashedCompositeKey := pvtWrite]> uniquePvtData))
    uniquePvtData (map_to_list uniquePvtData);
  Ok (uniquePvtData, db).

(** ** The batch *)

Definition add_pvt_write (pvtUpdates : UpdateMap) (hashedCompositeKey : HashedCompositeKey) (pvtWrite : PvtKVWrite) : res UpdateMap :=
  let ns := hck_Namespace hashedCompositeKey in
  let coll := hck_CollectionName hashedCompositeKey in
  if pkw_IsDelete pvtWrite then Ok (UpdateMap_Delete pvtUpdates ns coll (pkw_Key pvtWrite) (pkw_Version pvtWrite))
  else UpdateMap_Put pvtUpdates ns coll (pkw_Key pvtWrite) (pkw_Value pvtWrite) (pkw_Version pvtWrite).
Definition transformToUpdateBatch (uniquePvtData : uniquePvtDataMap) : res PrivUpdateBatch :=
  pvtUpdates ← foldM (λ pvtUpdates '(hashedCompositeKey, pvtWrite), add_pvt_write pvtUpdates hashedCompositeKey pvtWrite)
    NewUpdateMap (map_to_list uniquePvtData);
  Ok {| PubUpdates := NewUpdateBatch; HashUpdates := NewUpdateMap; PvtUpdates := pvtUpdates |}.

(** [P] is the purge manager. *)
Context {P : Type} (UpdateExpiryInfoOfPvtDataOfOldBlocks : P → UpdateMap → res P).
Definition RemoveStaleAndCommitPvtDataOfOldBlocks (db : PrivDB) (pvtdataPurgeMgr : P) (reconciledPvtdata : gmap Z (list TxPvtData)) :
    res (PrivDB * P) :=
  uniquePvtData ← constructUniquePvtData reconciledPvtdata;
  if decide (uniquePvtData = ∅) then Ok (db, pvtdataPurgeMgr)
  else
    '(uniquePvtData, db) ← findAndRemoveStalePvtData uniquePvtData db;
    batch ← transformToUpdateBatch uniquePvtData;
    pvtdataPurgeMgr ← UpdateExpiryInfoOfPvtDataOfOldBlocks pvtdataPurgeMgr (PvtUpdates batch);
    db ← ApplyPrivacyAwareUpdates db batch None;
    Ok (db, pvtdataPurgeMgr).
End reconcile.

(** ** What is supplied *)

Section supplied.
Context `{!Sha256, !ProtoMessage KVRWSet}.

(** The writes of a supplied write set by the hash of their key, with the
    height of their transaction. *)
Definition supply : Type := HashedCompositeKey → Height → KVWrite → Prop.
Definition coll_supplies (ns : bytes) (ver : Height) (c : CollectionPvtReadWriteSet) : supply := λ k h w,
  ∃ kv, Unmarshal (A := KVRWSet) (cpp_Rwset c) = Ok kv ∧ w ∈ Writes kv ∧ k = hashed_key ns (cpp_CollectionName c) (kvw_Key w) ∧ h = ver.
Definition ns_supplies (ver : Height) (n : NsPvtReadWriteSet) : supply := λ k h w,
  ∃ c, c ∈ npp_CollectionPvtRwset n ∧ coll_supplies (npp_Namespace n) ver c k h w.
Definition tx_supplies (blkNum : Z) (tx : TxPvtData) : supply := λ k h w,
  ∃ ws n, pd_WriteSet tx = Some ws ∧ n ∈ tpp_NsPvtRwset ws ∧ ns_supplies (NewHeight blkNum (SeqInBlock tx)) n k h w.
Definition supplies (rp : gmap Z (list TxPvtData)) : supply := λ k h w,
  ∃ blkNum txs tx, rp !! blkNum = Some txs ∧ tx ∈ txs ∧ tx_supplies blkNum tx k h w.

(** Numbers of blocks and transactions are below 2^63, the write sets are there
    and can be decoded, and they belong to chaincodes. *)
Record supply_ok (rp : gmap Z (list TxPvtData)) : Prop := {
  so_height blkNum txs tx : rp !! blkNum = Some txs → tx ∈ txs → 0 ≤ blkNum < two63 ∧ 0 ≤ SeqInBlock tx < two63;
  so_writes blkNum txs tx : rp !! blkNum = Some txs → tx ∈ txs → is_Some (pd_WriteSet tx);
  so_coll blkNum txs tx ws n c : rp !! blkNum = Some txs → tx ∈ txs → pd_WriteSet tx = Some ws → n ∈ tpp_NsPvtRwset ws → c ∈ npp_CollectionPvtRwset n →
    plain_ns (npp_Namespace n) ∧ x00 ∉ cpp_CollectionName c ∧ ∃ kv, Unmarshal (A := KVRWSet) (cpp_Rwset c) = Ok kv
}.
Definition small (h : Height) : Prop := 0 ≤ BlockNum h < two63 ∧ 0 ≤ TxNum h < two63.

(** No other write of the key is newer. *)
Definition newest (S : supply) (k : HashedCompositeKey) (h : Height) (w : KVWrite) : Prop :=
  S k h w ∧ ∀ h' w', S k h' w' → height_compare h' h ≠ Gt.
Record newest_of (S : supply) (m : uniquePvtDataMap) : Prop := {
  no_sound k d : m !! k = Some d → ∃ h w, d = newPvtKVWrite w h ∧ newest S k h w;
  no_complete k h w : S k h w → is_Some (m !! k);
  no_small k h w : S k h w → small h
}.
Definition both (S S' : supply) : supply := λ k h w, S k h w ∨ S' k h w.

Lemma newest_of_iff S S' m : (∀ k h w, S k h w ↔ S' k h w) → newest_of S m → newest_of S' m.
Proof.
  intros Hiff [Hs Hc Hsm]. split.
  - intros k d (h & w & -> & Hw & Hn)%Hs. exists h, w. split; [done|]. split; [by apply Hiff|]. intros h' w' ?%Hiff. by eapply Hn.
  - intros k h w ?%Hiff. by eapply Hc.
  - intros k h w ?%Hiff. by eapply Hsm.
Qed.

Lemma height_compare_small h h' : small h → small h' → Height_Compare h h' = comparison_int (height_compare h h').
Proof.
  intros [??] [??]. apply Height_Compare_order; [split; unfold is_u64, two64, two63 in *; lia..| |]; unfold two63 in *; lia.
Qed.
Lemma height_compare_trans a b c : height_compare a b ≠ Gt → height_compare b c ≠ Gt → height_compare a c ≠ Gt.
Proof.
  unfold height_compare. destruct (Z.compare_spec (BlockNum a) (BlockNum b)), (Z.compare_spec (BlockNum b) (BlockNum c)),
    (Z.compare_spec (BlockNum a) (BlockNum c)); try done; try lia; rewrite ?Z.compare_ngt_iff; lia.
Qed.
Lemma height_compare_flip a b : height_compare b a = CompOpp (height_compare a b).
Proof.
  unfold height_compare. rewrite (Z.compare_antisym (BlockNum a)). destruct (BlockNum a ?= BlockNum b); [|done..]. apply Z.compare_antisym.
Qed.

Lemma updateUsingPvtWrite_spec S m k h w : newest_of S m → small h →
  ∃ m', updateUsingPvtWrite m w k h = Ok m' ∧ newest_of (both S (λ k' h' w', k' = k ∧ h' = h ∧ w' = w)) m'.
Proof.
  intros [Hs Hc Hsm] Hh. unfold updateUsingPvtWrite.
  assert (Hput : (∀ h' w', S k h' w' → height_compare h' h ≠ Gt) →
    newest_of (both S (λ k' h' w', k' = k ∧ h' = h ∧ w' = w)) (<[k := newPvtKVWrite w h]> m)).
  { intros Hle. split.
    - intros k' d. destruct (decide (k' = k)) as [->|Hk].
      + rewrite lookup_insert_eq. intros [= <-]. exists h, w. split; [done|]. split; [by right|].
        intros h' w' [?|(_ & -> & _)]; [by eapply Hle|]. unfold height_compare. by rewrite !Z.compare_refl.
      + rewrite lookup_insert_ne by done. intros (h' & w' & -> & Hw & Hn)%Hs. exists h', w'. split; [done|]. split; [by left|].
        intros h2 w2 [?|(-> & _)]; [by eapply Hn|done].
    - intros k' h' w' HS. destruct (decide (k' = k)) as [->|Hk]; [rewrite lookup_insert_eq; eauto|rewrite lookup_insert_ne by done].
      destruct HS as [?|(-> & _)]; [by eapply Hc|done].
    - intros k' h' w' [?|(-> & -> & ->)]; [by eapply Hsm|done]. }
  destruct (m !! k) as [d|] eqn:E.
  2:{ eexists. split; [done|]. apply Hput. intros h' w' HS. destruct (Hc _ _ _ HS) as [d Hd]. by rewrite E in Hd. }
  destruct (Hs k d E) as (h0 & w0 & -> & HS0 & Hn). cbn [pkw_Version newPvtKVWrite deref]. rewrite bind_Ok_eq.
  assert (small h0) as Hh0 by (by eapply Hsm). rewrite (height_compare_small h0 h) by done. case_decide as Hlt.
  - eexists. split; [done|]. apply Hput. intros h' w' HS. eapply height_compare_trans; [by eapply Hn|].
    destruct (height_compare h0 h); [done..|cbn in Hlt; lia].
  - exists m. split; [done|]. split.
    + intros k' d (h' & w' & -> & HS & Hn')%Hs. exists h', w'. split; [done|]. split; [by left|].
      intros h2 w2 [?|(-> & -> & ->)]; [by eapply Hn'|].
      assert (height_compare h0 h' ≠ Gt) as Hle by (by eapply Hn'). eapply height_compare_trans; [|done].
      rewrite height_compare_flip. by destruct (height_compare h0 h).
    + intros k' h' w' [?|(-> & _)]; [by eapply Hc|by rewrite E].
    + intros k' h' w' [?|(-> & -> & ->)]; [by eapply Hsm|done].
Qed.

(** The loops add what their items supply. *)
Lemma fold_newest {A} (f : uniquePvtDataMap → A → res uniquePvtDataMap) (Sx : A → supply) l : ∀ S m,
  (∀ x S m, x ∈ l → newest_of S m → ∃ m', f m x = Ok m' ∧ newest_of (both S (Sx x)) m') → newest_of S m →
  ∃ m', foldM f m l = Ok m' ∧ newest_of (both S (λ k h w, ∃ x, x ∈ l ∧ Sx x k h w)) m'.
Proof.
  induction l as [|x l IH]; intros S m Hf Hm; cbn [foldM].
  { exists m. split; [done|]. eapply newest_of_iff; [|done]. unfold both. set_solver. }
  destruct (Hf x S m) as (m1 & -> & Hm1); [by left|done|]. rewrite bind_Ok_eq. destruct (IH (both S (Sx x)) m1) as (m' & -> & Hm'); [|done|].
  { intros. apply Hf; [by right|done]. }
  exists m'. split; [done|]. eapply newest_of_iff; [|done]. unfold both. intros k h w. split; [|set_solver].
  intros [[?|?]|(y & ? & ?)]; [by left|right; exists x; set_solver|right; exists y; set_solver].
Qed.

Lemma constructUniquePvtData_spec rp : supply_ok rp → ∃ m, constructUniquePvtData rp = Ok m ∧ newest_of (supplies rp) m.
Proof.
  intros Hok. unfold constructUniquePvtData.
  destruct (fold_newest (λ m '(blkNum, txs), updateUsingBlockPvtdata blkNum m txs)
    (λ x k h w, ∃ tx, tx ∈ x.2 ∧ tx_supplies x.1 tx k h w) (map_to_list rp) (λ _ _ _, False) ∅) as (m & -> & Hm).
  2:{ split; [intros ??; by rewrite lookup_empty|done..]. }
  2:{ exists m. split; [done|]. eapply newest_of_iff; [|done]. unfold both, supplies. intros k h w. split.
      - intros [[]|([blkNum txs] & Hin%elem_of_map_to_list & tx & ? & ?)]. by exists blkNum, txs, tx.
      - intros (blkNum & txs & tx & Hin & ? & ?). right. exists (blkNum, txs). rewrite elem_of_map_to_list. eauto. }
  intros [blkNum txs] S m Hin%elem_of_map_to_list. apply fold_newest. clear S m. intros tx S m Htx. cbn [fst snd] in *.
  destruct (so_writes rp Hok _ _ _ Hin Htx) as [ws Hws]. unfold updateUsingTxPvtData. rewrite Hws. cbn [deref]. rewrite bind_Ok_eq. intros Hm.
  destruct (fold_newest (updateUsingNsPvtData (NewHeight blkNum (SeqInBlock tx))) (ns_supplies (NewHeight blkNum (SeqInBlock tx)))
    (tpp_NsPvtRwset ws) S m) as (m' & -> & Hm'); [|done|].
  2:{ exists m'. split; [done|]. eapply newest_of_iff; [|done]. unfold both, tx_supplies. intros k h w. rewrite Hws. naive_solver. }
  clear S m Hm. intros n S m Hn. apply fold_newest. clear S m. intros c S m Hc Hm.
  destruct (so_coll rp Hok _ _ _ _ _ _ Hin Htx Hws Hn Hc) as (_ & _ & kv & Hkv). unfold updateUsingCollPvtData. rewrite Hkv, bind_Ok_eq.
  destruct (fold_newest (λ m w, updateUsingPvtWrite m w (hashed_key (npp_Namespace n) (cpp_CollectionName c) (kvw_Key w)) (NewHeight blkNum (SeqInBlock tx)))
    (λ x k h w, k = hashed_key (npp_Namespace n) (cpp_CollectionName c) (kvw_Key x) ∧ h = NewHeight blkNum (SeqInBlock tx) ∧ w = x) (Writes kv) S m)
    as (m' & -> & Hm'); [|done|].
  - intros w S' m' _ Hm'. apply updateUsingPvtWrite_spec; [done|]. by destruct (so_height rp Hok _ _ _ Hin Htx).
  - exists m'. split; [done|]. eapply newest_of_iff; [|done]. unfold both, coll_supplies. intros k h w. rewrite Hkv. split; [naive_solver|].
    intros [?|(kv' & [= <-] & Hw & Hk & Hh)]; [by left|right; eauto].
Qed.

(** Everything supplied is for a chaincode and a collection. *)
Lemma supplies_key rp k h w : supply_ok rp → supplies rp k h w →
  plain_ns (hck_Namespace k) ∧ x00 ∉ hck_CollectionName k ∧ k = hashed_key (hck_Namespace k) (hck_CollectionName k) (kvw_Key w) ∧ small h.
Proof.
  intros Hok (blkNum & txs & tx & Hin & Htx & ws & n & Hws & Hn & c & Hc & kv & _ & _ & -> & ->).
  destruct (so_coll rp Hok _ _ _ _ _ _ Hin Htx Hws Hn Hc) as (? & ? & _). split_and!; [done..|]. by destruct (so_height rp Hok _ _ _ Hin Htx).
Qed.
End supplied.

(** ** The newest writes that are current *)

Section current.
Context `{!Sha256, !ProtoMessage KVRWSet} {DB I L : Type} `{!VersionedDB DB I} `{!GoLevelDB L}.

(** The committed hash of a key. *)
Definition committed_hash (s : PrivDB DB L) (st : state) (k : HashedCompositeKey) : option VersionedValue :=
  st (deriveHashedDataNs (hck_Namespace k) (hck_CollectionName k)) !! key_hash_str s (hck_KeyHash k).

(** The version at which a write is accepted, given the committed hash of its
    key: a write that is still the last one has the version of the hash; if the
    metadata was written since, the value still has the committed hash; a
    delete is accepted if there is no hash. *)
Definition accepted_at (hv : option VersionedValue) (h : Height) (w : KVWrite) : option (option Height) :=
  match hv with
  | None => if IsKVWriteDelete w then Some (Some h) else None
  | Some hv => if decide (vv_Version hv = Some h) then Some (Some h)
               else if decide (default [] (Value hv) = ComputeHash (default [] (kvw_Value w))) then Some (vv_Version hv) else None
  end.
(** What a private read then gives. *)
Definition reconciled (w : KVWrite) (v : option Height) : option VersionedValue :=
  if IsKVWriteDelete w then None else Some {| Value := kvw_Value w; Metadata := None; vv_Version := v |}.

Definition accepted (hv : option VersionedValue) (d : PvtKVWrite) : option PvtKVWrite :=
  match hv with
  | None => if pkw_IsDelete d then Some d else None
  | Some hv =>
      if decide (vv_Version hv = pkw_Version d) then Some d
      else if decide (default [] (Value hv) = ComputeHash (default [] (pkw_Value d)))
      then Some {| pkw_Key := pkw_Key d; pkw_IsDelete := pkw_IsDelete d; pkw_Value := pkw_Value d; pkw_Version := vv_Version hv |} else None
  end.
Definition versioned (w : KVWrite) (v : option Height) : PvtKVWrite :=
  {| pkw_Key := kvw_Key w; pkw_IsDelete := IsKVWriteDelete w; pkw_Value := kvw_Value w; pkw_Version := v |}.
Lemma accepted_new hv h w : accepted hv (newPvtKVWrite w h) = versioned w <$> accepted_at hv h w.
Proof.
  unfold accepted, accepted_at, versioned, newPvtKVWrite. cbn [pkw_Key pkw_IsDelete pkw_Value pkw_Version].
  destruct hv as [hv|]; [by repeat case_decide|by destruct (IsKVWriteDelete w)].
Qed.

Context (s : PrivDB DB L) (st : state) (Hlaws : VersionedDBLaws (pdb_vdb s) st).
Definition hash_versioned (k : HashedCompositeKey) : Prop := ∀ hv, committed_hash s st k = Some hv → ∃ h, vv_Version hv = Some h ∧ Height_wf h.

Lemma checkIfPvtWriteIsStale_spec k d : hash_versioned k →
  checkIfPvtWriteIsStale k d s = Ok (match accepted (committed_hash s st k) d with Some d' => (false, d') | None => (true, d) end).
Proof.
  intros Hver. unfold checkIfPvtWriteIsStale, GetKeyHashVersion, GetValueHash. rewrite GetVersion_law, bind_Ok_eq. fold (committed_hash s st k).
  destruct (committed_hash s st k) as [hv|] eqn:E; cbn [mbind option_bind accepted]; [|by destruct (pkw_IsDelete d)].
  destruct (Hver hv E) as (v & Hv & _). rewrite Hv. destruct (AreSame (Some v) (pkw_Version d)) eqn:Ha.
  { apply AreSame_spec in Ha. by rewrite decide_True. }
  rewrite decide_False by (intros Hs; apply AreSame_spec in Hs; congruence). rewrite GetState_law, bind_Ok_eq. fold (committed_hash s st k).
  rewrite E. cbn [deref]. rewrite bind_Ok_eq. case_decide; [|done]. by rewrite Hv.
Qed.

Lemma remove_stale_fold (l : list (HashedCompositeKey * PvtKVWrite)) : NoDup l.*1 → (∀ k, k ∈ l.*1 → hash_versioned k) → ∀ m : uniquePvtDataMap,
  ∃ m' : uniquePvtDataMap, foldM (λ (m : uniquePvtDataMap) '(k, d), '(isStale, d) ← checkIfPvtWriteIsStale k d s; if (isStale : bool) then Ok (delete k m) else Ok (<[k := d]> m)) m l = Ok m' ∧
    ∀ k, m' !! k = match (list_to_map l : uniquePvtDataMap) !! k with Some d => accepted (committed_hash s st k) d | None => m !! k end.
Proof.
  induction l as [|[k d] l IH]; cbn [foldM fmap list_fmap fst]; intros Hnd Hver m; [by exists m|]. apply NoDup_cons in Hnd as [Hk Hnd].
  rewrite checkIfPvtWriteIsStale_spec, bind_Ok_eq by (apply Hver; by left). apply not_elem_of_list_to_map_1 in Hk as Hkl.
  set (a := accepted _ d). assert (∃ m1, (let '(isStale, d) := match a with Some d' => (false, d') | None => (true, d) end in
    if (isStale : bool) then Ok (delete k m) else Ok (<[k := d]> m)) = Ok m1 ∧ ∀ k', m1 !! k' = if decide (k' = k) then a else m !! k') as (m1 & -> & Hm1).
  { destruct a as [d'|]; eexists; (split; [done|]); intros k'; case_decide; subst; [by rewrite lookup_insert_eq|by rewrite lookup_insert_ne|
      by rewrite lookup_delete_eq|by rewrite lookup_delete_ne]. }
  rewrite bind_Ok_eq. destruct (IH Hnd) with (m := m1) as (m' & -> & Hm'); [intros; apply Hver; by right|]. exists m'. split; [done|]. intros k'. rewrite Hm'. cbn [list_to_map foldr uncurry fst snd].
  rewrite lookup_insert. case_decide as Hkk.
  - subst. by rewrite Hkl, Hm1, decide_True.
  - destruct (_ !! k'); [done|]. by rewrite Hm1, decide_False.
Qed.
End current.

(** ** The batch of a map *)

Section batch.
Context `{!Sha256}.

Definition pvt_vv (d : PvtKVWrite) : VersionedValue :=
  {| Value := if pkw_IsDelete d then None else pkw_Value d; Metadata := None; vv_Version := pkw_Version d |}.
(** A write under its own key, with a value unless it is a delete. *)
Definition keyed (k : HashedCompositeKey) (d : PvtKVWrite) : Prop :=
  k = hashed_key (hck_Namespace k) (hck_CollectionName k) (pkw_Key d) ∧ (pkw_IsDelete d = false → is_Some (pkw_Value d)).

Lemma add_pvt_write_spec b k d : keyed k d → ∃ b', add_pvt_write b k d = Ok b' ∧
  ∀ ns coll key, UpdateMap_Get b' ns coll key =
    if decide (k = hashed_key ns coll key ∧ pkw_Key d = key) then Some (pvt_vv d) else UpdateMap_Get b ns coll key.
Proof.
  intros [Hk Hv]. unfold add_pvt_write, pvt_vv.
  assert (Hiff : ∀ ns coll key, (ns = hck_Namespace k ∧ coll = hck_CollectionName k ∧ key = pkw_Key d) ↔ (k = hashed_key ns coll key ∧ pkw_Key d = key)).
  { intros ns coll key. split; [by intros (-> & -> & ->)|by intros [-> <-]]. }
  destruct (pkw_IsDelete d).
  - eexists. split; [done|]. intros ns coll key. rewrite Get_UpdateMap_Delete. by rewrite (decide_ext _ _ _ _ (Hiff ns coll key)).
  - destruct (Hv eq_refl) as [v Hd]. unfold UpdateMap_Put. destruct (UpdateMap_PutValAndMetadata _ _ _ _ _ _ _) as [b'| |] eqn:E.
    + exists b'. split; [done|]. intros ns coll key. rewrite (Get_UpdateMap_Put _ _ _ _ _ _ _ _ E). by rewrite (decide_ext _ _ _ _ (Hiff ns coll key)).
    + unfold UpdateMap_PutValAndMetadata, UpdateBatch_PutValAndMetadata in E. by rewrite Hd in E.
    + unfold UpdateMap_PutValAndMetadata, UpdateBatch_PutValAndMetadata in E. by rewrite Hd in E.
Qed.

Lemma transform_fold (l : list (HashedCompositeKey * PvtKVWrite)) : NoDup l.*1 → (∀ k d, (k, d) ∈ l → keyed k d) → ∀ b : UpdateMap,
  ∃ b' : UpdateMap, foldM (λ b '(k, d), add_pvt_write b k d) b l = Ok b' ∧
    ∀ ns coll key, UpdateMap_Get b' ns coll key =
      match (list_to_map l : uniquePvtDataMap) !! hashed_key ns coll key with
      | Some d => if decide (pkw_Key d = key) then Some (pvt_vv d) else UpdateMap_Get b ns coll key
      | None => UpdateMap_Get b ns coll key
      end.
Proof.
  induction l as [|[k d] l IH]; cbn [foldM fmap list_fmap fst]; intros Hnd Hkd b; [by exists b|]. apply NoDup_cons in Hnd as [Hk Hnd].
  destruct (add_pvt_write_spec b k d) as (b1 & -> & Hb1); [apply Hkd; by left|]. rewrite bind_Ok_eq.
  destruct (IH Hnd) with (b := b1) as (b' & -> & Hb'); [intros; apply Hkd; by right|]. exists b'. split; [done|]. intros ns coll key.
  rewrite Hb', Hb1. cbn [list_to_map foldr uncurry fst snd]. apply not_elem_of_list_to_map_1 in Hk. destruct (decide (k = hashed_key ns coll key)) as [->|Hkk].
  - rewrite Hk, lookup_insert_eq. repeat case_decide; naive_solver.
  - rewrite lookup_insert_ne by done. rewrite (decide_False (P := k = _ ∧ _)) by naive_solver. done.
Qed.

Lemma transformToUpdateBatch_spec (m : uniquePvtDataMap) : (∀ k d, m !! k = Some d → keyed k d) →
  ∃ u, transformToUpdateBatch m = Ok u ∧ PubUpdates u = NewUpdateBatch ∧ HashUpdates u = NewUpdateMap ∧
    ∀ ns coll key, UpdateMap_Get (PvtUpdates u) ns coll key =
      d ← m !! hashed_key ns coll key; if decide (pkw_Key d = key) then Some (pvt_vv d) else None.
Proof.
  intros Hkd. unfold transformToUpdateBatch. destruct (transform_fold (map_to_list m)) with (b := NewUpdateMap) as (b & -> & Hb).
  { apply NoDup_fst_map_to_list. } { intros k d Hin%elem_of_map_to_list. by apply Hkd. }
  rewrite bind_Ok_eq. eexists. split_and!; [done..|]. intros ns coll key. cbn [PvtUpdates]. rewrite Hb, list_to_map_to_list.
  by destruct (m !! _).
Qed.
End batch.

(** ** The reconciled state *)

Section correct.
Context `{!Sha256, !ProtoMessage KVRWSet} {DB I L : Type} `{!VersionedDB DB I} `{!GoLevelDB L} `{!GoLevelDBLaws L}.
Context (Inv : DB → Prop) `{!VersionedDBApplyLaws DB I Inv} `{!VersionedDBLoadLaws DB I}.
(** Loading versions into the cache keeps the invariant of the database. *)
Context (Hload : ∀ load (db db' : DB) keys, LoadCommittedVersions = Some load → load db keys = Ok db' → Inv db → Inv db').
Context {P : Type} (purge : P → UpdateMap → res P).
Implicit Types (s : PrivDB DB L) (st : state).

Record db_ok s st : Prop := {
  do_inv : Inv (pdb_vdb s);
  do_laws : VersionedDBLaws (pdb_vdb s) st;
  do_hint : hint_wf (pdb_hint s);
  do_sound : hint_sound (pdb_hint s) st
}.
Definition hashes_versioned s st : Prop := ∀ k, plain_ns (hck_Namespace k) → x00 ∉ hck_CollectionName k → hash_versioned s st k.

Lemma load_ok s st m : db_ok s st → ∃ s', loadCommittedVersionIntoCache m s = Ok s' ∧ db_ok s' st ∧ ∀ k, committed_hash s' st k = committed_hash s st k.
Proof.
  intros [Hi Hl Hw Hs]. unfold loadCommittedVersionIntoCache, LoadCommittedVersionsOfPubAndHashedKeys.
  destruct (LoadCommittedVersions (DB := DB)) as [load|] eqn:E; [|by exists s].
  edestruct (LoadCommittedVersions_law load (pdb_vdb s) st) as (vdb & Hv & Hl' & Hb); [done..|]. rewrite Hv, bind_Ok_eq.
  eexists. split; [done|]. split; [split; cbn; try done; by eapply Hload|]. intros k. unfold committed_hash, key_hash_str. cbn. by rewrite Hb.
Qed.

(** The writes that are applied. *)
Definition applied s st rp (m : uniquePvtDataMap) : Prop := ∀ k,
  (∀ d, m !! k = Some d → ∃ h w v, newest (supplies rp) k h w ∧ accepted_at (committed_hash s st k) h w = Some v ∧ d = versioned w v) ∧
  (m !! k = None → ∀ h w, supplies rp k h w → ∃ h w, newest (supplies rp) k h w ∧ accepted_at (committed_hash s st k) h w = None).

Lemma unique_current s st rp : db_ok s st → hashes_versioned s st → supply_ok rp →
  ∃ m, constructUniquePvtData rp = Ok m ∧ (m = ∅ → ∀ k h w, ¬ supplies rp k h w) ∧
    ∃ m' s', findAndRemoveStalePvtData m s = Ok (m', s') ∧ db_ok s' st ∧ (∀ k, committed_hash s' st k = committed_hash s st k) ∧ applied s st rp m'.
Proof.
  intros Hs Hv Hok. destruct (constructUniquePvtData_spec rp Hok) as (m & Hm & Hn). exists m. split; [done|]. split.
  { intros -> k h w Hw. destruct (no_complete _ _ Hn _ _ _ Hw) as [d Hd]. by rewrite lookup_empty in Hd. }
  unfold findAndRemoveStalePvtData. destruct (load_ok s st m Hs) as (s1 & -> & Hs1 & Hc). rewrite bind_Ok_eq.
  destruct (remove_stale_fold s1 st (do_laws _ _ Hs1)) with (l := map_to_list m) (m := m) as (m' & -> & Hm').
  { apply NoDup_fst_map_to_list. }
  { intros k ([k' d] & -> & Hd%elem_of_map_to_list)%list_elem_of_fmap hv. cbn [fst]. rewrite Hc. destruct (no_sound _ _ Hn _ _ Hd) as (h & w & _ & Hw & _).
    destruct (supplies_key _ _ _ _ Hok Hw) as (? & ? & _). by apply Hv. }
  rewrite bind_Ok_eq. exists m', s1. split; [done|]. split; [done|]. split; [done|]. intros k. rewrite Hm', Hc, list_to_map_to_list.
  destruct (m !! k) as [d|] eqn:E.
  - destruct (no_sound _ _ Hn k d E) as (h & w & -> & Hw). rewrite accepted_new. split.
    + intros d (v & Hacc & ->)%fmap_Some. by exists h, w, v.
    + intros Hnone%fmap_None _ _ _. by exists h, w.
  - split; [done|]. intros _ h w Hw. destruct (no_complete _ _ Hn _ _ _ Hw) as [d Hd]. congruence.
Qed.

Lemma applied_keyed s st rp m : hashes_versioned s st → supply_ok rp → applied s st rp m → ∀ k d, m !! k = Some d →
  plain_ns (hck_Namespace k) ∧ x00 ∉ hck_CollectionName k ∧ keyed k d ∧ ∃ h, pkw_Version d = Some h ∧ Height_wf h.
Proof.
  intros Hv Hok Ha k d Hd. destruct (proj1 (Ha k) d Hd) as (h & w & v & [Hw _] & Hacc & ->).
  destruct (supplies_key _ _ _ _ Hok Hw) as (? & ? & Hk & Hsm). split_and!; [done..| |].
  - split; [done|]. cbn. unfold IsKVWriteDelete. destruct (kvw_Value w); [eauto|]. by rewrite orb_true_r.
  - assert (Height_wf h) by (destruct Hsm; split; unfold is_u64, two64, two63 in *; lia).
    unfold accepted_at in Hacc. destruct (committed_hash s st k) as [hv|] eqn:E; repeat case_match; simplify_eq; cbn; [eauto| |eauto]. by eapply Hv.
Qed.

Lemma applied_batch_ok (m : uniquePvtDataMap) u : (∀ k d, m !! k = Some d → plain_ns (hck_Namespace k) ∧ x00 ∉ hck_CollectionName k ∧ keyed k d ∧ ∃ h, pkw_Version d = Some h ∧ Height_wf h) →
  PubUpdates u = NewUpdateBatch → HashUpdates u = NewUpdateMap →
  (∀ ns coll key, UpdateMap_Get (PvtUpdates u) ns coll key = d ← m !! hashed_key ns coll key; if decide (pkw_Key d = key) then Some (pvt_vv d) else None) →
  priv_batch_ok u.
Proof.
  intros Hk Hpub Hhash Hpvt. split_and!.
  - intros ns key vv. by rewrite Hpub.
  - intros ns coll key vv. by rewrite Hhash.
  - intros ns coll key vv. rewrite Hpvt. intros (d & Hd & Hvv)%bind_Some. case_decide; simplify_eq. destruct (Hk _ _ Hd) as (? & ? & _ & h & ? & ?).
    split_and!; [done..|]. split; [done|]. by exists h.
Qed.

Lemma hashes_untouched u b64 st st' : priv_batch_ok u → HashUpdates u = NewUpdateMap →
  (∀ ns, x00 ∉ ns → st' ns = overlay (st ns) (UpdateBatch_GetUpdates (combined u b64) ns)) →
  ∀ ns coll, plain_ns ns → x00 ∉ coll → st' (deriveHashedDataNs ns coll) = st (deriveHashedDataNs ns coll).
Proof.
  intros Hok Hhash Hst ns coll Hns Hcoll. apply map_eq. intros key. rewrite Hst by (by apply deriveHashedDataNs_x00; [apply Hns|]).
  rewrite lookup_overlay, lookup_GetUpdates. destruct (UpdateBatch_Get _ _ _) as [vv|] eqn:E; [|done]. exfalso. pose proof Hok as (Hpub & _ & Hpvt).
  destruct Hns as [_ Hd]. apply combined_inv in E; [|done]. destruct E as [E|[(ns' & coll' & E & Heq)|(ns' & coll' & k & E & _)]].
  - apply Hpub in E as [[_ []] _]. apply deriveHashedDataNs_dollar.
  - destruct (Hpvt _ _ _ _ E) as [[_ ?] _]. symmetry in Heq. by apply derive_pvt_hashed in Heq.
  - by rewrite Hhash in E.
Qed.

Lemma newest_unique (S : supply) k h w h' w' : (∀ k h w w', S k h w → S k h w' → w = w') → newest S k h w → newest S k h' w' → h = h' ∧ w = w'.
Proof.
  intros Honce [Hw Hn] [Hw' Hn']. assert (h = h') as ->; [|by split; [|eapply Honce]].
  pose proof (Hn _ _ Hw') as H1. pose proof (Hn' _ _ Hw) as H2. rewrite height_compare_flip in H1. unfold height_compare in *.
  destruct h as [b t], h' as [b' t']; cbn in *. destruct (Z.compare_spec b b'); [|done..]. destruct (Z.compare_spec t t'); [|done..]. by subst.
Qed.

Lemma applied_reads s st rp m ns coll key old : applied s st rp m → (∀ k h w w', supplies rp k h w → supplies rp k h w' → w = w') →
  let k := hashed_key ns coll key in
  let now := overlay_val old (d ← m !! k; if decide (pkw_Key d = key) then Some (pvt_vv d) else None) in
  (∀ h w v, newest (supplies rp) k h w → kvw_Key w = key → accepted_at (committed_hash s st k) h w = Some v → now = reconciled w v) ∧
  ((∀ h w, newest (supplies rp) k h w → kvw_Key w = key → accepted_at (committed_hash s st k) h w = None) → now = old).
Proof.
  intros Ha Honce k now. subst now. destruct (Ha k) as [Hsome Hnone]. destruct (m !! k) as [d|]; cbn [mbind option_bind].
  - destruct (Hsome d eq_refl) as (h' & w' & v' & Hn' & Hacc' & ->). cbn [pkw_Key versioned]. split.
    + intros h w v Hn Hk Hacc. destruct (newest_unique _ _ _ _ _ _ Honce Hn Hn') as [<- <-]. rewrite decide_True by done. simplify_eq.
      unfold pvt_vv, versioned, reconciled, overlay_val, IsDelete. cbn. destruct (IsKVWriteDelete w) eqn:Hd; [done|].
      unfold IsKVWriteDelete in Hd. destruct (kvw_Value w); [done|]. by rewrite orb_true_r in Hd.
    + intros Hall. case_decide as Hk; [|done]. by rewrite (Hall h' w') in Hacc'.
  - split; [|done]. intros h w v Hn Hk Hacc. destruct (Hnone eq_refl h w (proj1 Hn)) as (h' & w' & Hn' & Hacc').
    destruct (newest_unique _ _ _ _ _ _ Honce Hn Hn') as [<- <-]. congruence.
Qed.

(** C0: reconciliation brings private data into the state exactly where it is
    current. When private data of old blocks arrives, the call succeeds on a
    state database that keeps its promises; public data and hashes stay as they
    are; and every private key is determined: of the supplied writes of the
    key the one of the greatest height counts, it is written if the committed
    hash of the key has its height, or the hash of its value (then at the
    version of the hash, so that reads accept it), a delete also if there is no
    hash, and otherwise the private key keeps its value. A supplied write set
    has a key once, numbers are below 2^63, and the purge manager does not fail. *)
Theorem reconciled_private_state s st (p : P) rp
    (Hs : db_ok s st) (Hv : hashes_versioned s st) (Hok : supply_ok rp) (Hpurge : ∀ p u, ∃ p', purge p u = Ok p')
    (Honce : ∀ k h w w', supplies rp k h w → supplies rp k h w' → w = w') :
  ∃ s' p' st', RemoveStaleAndCommitPvtDataOfOldBlocks purge s p rp = Ok (s', p') ∧ db_ok s' st' ∧
    (∀ ns, plain_ns ns → st' ns = st ns) ∧
    (∀ ns coll, plain_ns ns → x00 ∉ coll → st' (deriveHashedDataNs ns coll) = st (deriveHashedDataNs ns coll)) ∧
    ∀ ns coll key, plain_ns ns → x00 ∉ coll →
      let now := st' (derivePvtDataNs ns coll) !! key in
      let k := hashed_key ns coll key in
      (∀ h w v, newest (supplies rp) k h w → kvw_Key w = key → accepted_at (committed_hash s st k) h w = Some v → now = reconciled w v) ∧
      ((∀ h w, newest (supplies rp) k h w → kvw_Key w = key → accepted_at (committed_hash s st k) h w = None) →
       now = st (derivePvtDataNs ns coll) !! key).
Proof.
  destruct (unique_current s st rp Hs Hv Hok) as (m & Hm & Hempty & m' & s1 & Hfind & Hs1 & Hc & Ha). unfold RemoveStaleAndCommitPvtDataOfOldBlocks.
  rewrite Hm, bind_Ok_eq. case_decide as Hm0.
  { exists s, p, st. split; [done|]. split; [done|]. split; [done|]. split; [done|]. intros ns coll key _ _. split; [|done].
    intros h w v [Hw _]. by apply (Hempty Hm0) in Hw. }
  rewrite Hfind, bind_Ok_eq. pose proof (applied_keyed s st rp m' Hv Hok Ha) as Hk.
  destruct (transformToUpdateBatch_spec m') as (u & -> & Hpub & Hhash & Hpvt); [intros k d Hd; by apply Hk|]. rewrite bind_Ok_eq.
  destruct (Hpurge p (PvtUpdates u)) as [p' ->]. rewrite bind_Ok_eq.
  assert (priv_batch_ok u) as Hbatch by (by apply (applied_batch_ok m')).
  destruct (ApplyPrivacyAwareUpdates_state Inv s1 st u None) as (s' & st' & -> & Hi' & Hl' & Hw' & Hs' & _ & Hst); [by destruct Hs1..|done|done|].
  rewrite bind_Ok_eq. exists s', p', st'. split; [done|]. split; [done|]. split_and!.
  - intros ns Hns. apply map_eq. intros key. destruct Hns. by rewrite Hst, lookup_overlay, lookup_GetUpdates, combined_pub, Hpub by done.
  - intros ns coll Hns Hcoll. by eapply (hashes_untouched u).
  - intros ns coll key Hns Hcoll. cbn zeta. rewrite Hst by (by apply derivePvtDataNs_x00; [apply Hns|]).
    rewrite lookup_overlay, lookup_GetUpdates, combined_pvt, Hpvt by done. by apply (applied_reads s st rp m').
Qed.
End correct.

(** ** A sample: the metadata of a key was written after the private value *)

Module reconcile_sample.
#[local] Existing Instances sample_priv_codec sample_priv_laws sample_priv_sha.
#[local] Instance kv_codec : ProtoMessage KVRWSet :=
  {| Marshal _ := Err "no codec";
     Unmarshal b := Ok {| Reads := []; RangeQueriesInfo := []; Writes := [{| kvw_Key := B "k"; kvw_IsDelete := false; kvw_Value := Some b |}]; MetadataWrites := [] |} |}.

Definition hash_vv : VersionedValue := {| Value := Some (B "v"); Metadata := Some (B "m"); vv_Version := Some (NewHeight 9 0) |}.
Definition committed_batch : PrivUpdateBatch :=
  {| PubUpdates := NewUpdateBatch; HashUpdates := {[B "cc" := UpdateBatch_Update NewUpdateBatch (B "coll") (B "k") hash_vv]}; PvtUpdates := ∅ |}.
Definition pvt_data (seq : Z) (rwset : bytes) : TxPvtData :=
  {| SeqInBlock := seq; pd_WriteSet := Some {| tpp_DataModel := KV; tpp_NsPvtRwset :=
       [{| npp_Namespace := B "cc"; npp_CollectionPvtRwset := [{| cpp_CollectionName := B "coll"; cpp_Rwset := rwset |}] |}] |} |}.
Definition late : gmap Z (list TxPvtData) := {[7 := [pvt_data 3 (B "v")]; 5 := [pvt_data 0 (B "old")]]}.
Definition inv (vdb : versionedDB (gmap bytes bytes)) : Prop := x00 ∉ vdb_dbName vdb ∧ store_wf (store vdb).
Definition write (v : bytes) : KVWrite := {| kvw_Key := B "k"; kvw_IsDelete := false; kvw_Value := Some v |}.

Lemma late_cases blkNum txs tx : late !! blkNum = Some txs → tx ∈ txs →
  (blkNum = 7 ∧ tx = pvt_data 3 (B "v")) ∨ (blkNum = 5 ∧ tx = pvt_data 0 (B "old")).
Proof.
  unfold late. rewrite lookup_insert_Some, lookup_singleton_Some. intros [[<- <-]|[_ [<- <-]]] ->%list_elem_of_singleton; auto.
Qed.
Lemma late_supplies k h w : supplies late k h w ↔
  k = hashed_key (B "cc") (B "coll") (B "k") ∧ (h = NewHeight 7 3 ∧ w = write (B "v") ∨ h = NewHeight 5 0 ∧ w = write (B "old")).
Proof.
  split.
  - intros (blkNum & txs & tx & Hb & Htx & ws & n & Hws & Hn & c & Hc & kv & Hkv & Hw & -> & ->).
    destruct (late_cases _ _ _ Hb Htx) as [[-> ->]|[-> ->]]; cbn in Hws; simplify_eq; apply list_elem_of_singleton in Hn as ->;
      apply list_elem_of_singleton in Hc as ->; cbn in Hkv; simplify_eq; apply list_elem_of_singleton in Hw as ->; cbn; auto.
  - assert (∀ blkNum seq v, late !! blkNum = Some [pvt_data seq v] → supplies late (hashed_key (B "cc") (B "coll") (B "k")) (NewHeight blkNum seq) (write v)) as Hin.
    { intros blkNum seq v Hl. exists blkNum, [pvt_data seq v], (pvt_data seq v). split; [done|]. split; [by left|]. eexists _, _. split; [done|]. split; [by left|].
      eexists. split; [by left|]. eexists. split; [done|]. split; [by left|]. done. }
    intros [-> [[-> ->]|[-> ->]]]; by apply Hin.
Qed.
Lemma late_ok : supply_ok late.
Proof.
  split.
  - intros * Hb Htx. destruct (late_cases _ _ _ Hb Htx) as [[-> ->]|[-> ->]]; cbn; unfold two63; lia.
  - intros * Hb Htx. destruct (late_cases _ _ _ Hb Htx) as [[-> ->]|[-> ->]]; cbn; eauto.
  - intros * Hb Htx Hws Hn Hc. destruct (late_cases _ _ _ Hb Htx) as [[-> ->]|[-> ->]]; cbn in Hws; simplify_eq; apply list_elem_of_singleton in Hn as ->;
      apply list_elem_of_singleton in Hc as ->; (split_and!; [split; vm_compute; set_solver|vm_compute; set_solver|by eexists]).
Qed.

Lemma committed_batch_hashes ns coll key vv : UpdateMap_Get (HashUpdates committed_batch) ns coll key = Some vv →
  ns = B "cc" ∧ coll = B "coll" ∧ vv = hash_vv.
Proof.
  unfold UpdateMap_Get. cbn [HashUpdates committed_batch].
  destruct (decide (ns = B "cc")) as [->|]; [rewrite lookup_singleton_eq|by rewrite lookup_singleton_ne].
  rewrite Get_Update. destruct (decide _) as [[-> ->]|]; [|done]. by intros [= <-].
Qed.
Lemma committed_batch_ok : priv_batch_ok committed_batch.
Proof.
  split_and!; [done| |done]. intros ns coll key vv (-> & -> & ->)%committed_batch_hashes. split; [split; vm_compute; set_solver|].
  split; [vm_compute; set_solver|]. split; [done|]. eexists. split; [done|]. split; vm_compute; by split.
Qed.
(** The state that the hash was committed to. *)
Lemma committed_db : ∃ s st, ApplyPrivacyAwareUpdates sample_priv_db committed_batch None = Ok s ∧ db_ok inv s st ∧
  (∀ ns coll key, plain_ns ns → x00 ∉ coll → st (deriveHashedDataNs ns coll) !! key_hash_str s key = UpdateMap_Get (HashUpdates committed_batch) ns coll key).
Proof.
  destruct (ApplyPrivacyAwareUpdates_state inv sample_priv_db (λ _, ∅) committed_batch None) as (s & st & Hs & ? & ? & ? & ? & Hb & Hst).
  - split; [vm_compute; set_solver|]. intros ns key b Hb. unfold store in Hb. by rewrite lookup_view in Hb.
  - apply sample_priv_db_laws.
  - split; [vm_compute; set_solver|]. symmetry. apply dom_empty_iff_L. apply map_empty. intros k. by rewrite lookup_view.
  - apply sample_hint_sound.
  - apply committed_batch_ok.
  - done.
  - exists s, st. split; [done|]. split; [split; assumption|]. intros ns coll key Hns Hcoll. rewrite Hst by (by apply deriveHashedDataNs_x00; [apply Hns|]).
    rewrite lookup_overlay, lookup_GetUpdates, lookup_empty. unfold key_hash_str. rewrite Hb.
    pose proof (combined_hash committed_batch (negb (BytesKeySupported (pdb_vdb sample_priv_db))) committed_batch_ok ns coll key Hns) as Hc.
    destruct (BytesKeySupported (pdb_vdb sample_priv_db)); cbn [negb] in Hc |- *; rewrite Hc; (destruct (UpdateMap_Get _ _ _ _) as [vv|] eqn:E; [|done]);
      by apply committed_batch_hashes in E as (_ & _ & ->).
Qed.

Definition key_k : HashedCompositeKey := hashed_key (B "cc") (B "coll") (B "k").
Lemma newest_v : newest (supplies late) key_k (NewHeight 7 3) (write (B "v")).
Proof. split; [apply late_supplies; by auto|]. by intros h w [_ [[-> ->]|[-> ->]]]%late_supplies. Qed.

Lemma no_load (load : versionedDB (gmap bytes bytes) → list CompositeKey → res (versionedDB (gmap bytes bytes))) (db db' : versionedDB (gmap bytes bytes)) keys :
  LoadCommittedVersions = Some load → load db keys = Ok db' → inv db → inv db'.
Proof. discriminate. Qed.

Lemma reconciled_private_state_witness : ∃ s s', ApplyPrivacyAwareUpdates sample_priv_db committed_batch None = Ok s ∧
  RemoveStaleAndCommitPvtDataOfOldBlocks (λ p _, Ok p) s () late = Ok (s', ()) ∧
  GetPrivateData s' (B "cc") (B "coll") (B "k") = Ok (Some {| Value := Some (B "v"); Metadata := None; vv_Version := Some (NewHeight 9 0) |}).
Proof.
  assert (plain_ns (B "cc")) as Hcc by (split; vm_compute; set_solver). assert (x00 ∉ B "coll") as Hcoll by (vm_compute; set_solver).
  destruct committed_db as (s & st & Hs & Hok & Hhash).
  destruct (reconciled_private_state inv no_load (λ p _, Ok p) s st () late) as (s' & [] & st' & Hr & Hs' & _ & _ & Hpvt).
  - exact Hok.
  - intros k Hns Hc hv Hv. unfold committed_hash in Hv. rewrite Hhash in Hv by done. apply committed_batch_hashes in Hv as (_ & _ & ->).
    eexists. split; [done|]. split; vm_compute; by split.
  - apply late_ok.
  - intros p u. by exists p.
  - intros k h w w' [_ [[-> ->]|[-> ->]]]%late_supplies [_ [[? ->]|[? ->]]]%late_supplies; done.
  - exists s, s'. split; [exact Hs|]. split; [exact Hr|]. destruct (Hpvt (B "cc") (B "coll") (B "k") Hcc Hcoll) as [Hnow _].
    unfold GetPrivateData. destruct (do_laws _ _ _ Hs') as [Hget _ _ _]. rewrite Hget.
    rewrite (Hnow (NewHeight 7 3) (write (B "v")) (Some (NewHeight 9 0)) newest_v eq_refl); [done|]. unfold committed_hash, key_k.
    rewrite Hhash by done. by vm_compute.
Defined.
End reconcile_sample.
